(* ===== verification/_CoqProject ===== *)
-Q . S2P
Prelude.v
Soroban.v
Token.v
Sharded.v
RegistryTypes.v
RegistryStorage.v
RegistryEvents.v
RegistryInventory.v
RegistryAdmin.v
RegistryLifecycle.v
RegistryGovernance.v
RegistryStaking.v
RegistryDispute.v
RegistryCommunity.v
Registry.v
RegistryHistory.v
RegistryControl.v
RegistrySeats.v
ProSubscription.v
PaymentTypes.v
Pricing.v
PaymentStorage.v
PaymentWorld.v
PaymentSale.v
PaymentQuote.v
PaymentAdmin.v
PaymentRefund.v
PaymentEscrow.v
PaymentResale.v
Payments.v
PaymentSample.v
PaymentGovernance.v
PaymentTickets.v
PaymentSeats.v
PaymentHolders.v
PaymentAccounts.v
PaymentMoney.v
PaymentTrade.v
PaymentFindings.v
Platform.v
CrdtClock.v
CrdtOrSet.v
CrdtLww.v
Sync.v
ServerPrelude.v
Zkp.v
ZkpEncoding.v
ZkpProtocol.v
ZkCheckin.v
IndexerEvent.v
Indexer.v
IndexerBatch.v
IndexerPipeline.v
Rates.v
WaitingRoom.v
TicketQr.v
Auth.v
Marketplace.v
EventListing.v
EventPages.v
EventRatings.v
Listener.v
ListenerJobs.v
Mediation.v
Text.v
Webhooks.v
Affiliates.v
RateLimit.v
TicketPdf.v
Float64.v
Quotes.v
Profiles.v
EventCatalog.v
Telemetry.v
Categories.v
TicketMail.v
