(* ===== verification/Prelude.v ===== *)
(** * Agora: a verification library

    Agora is an event and ticketing platform.  Its core is a set of Soroban
    (Stellar) smart contracts written in Rust under [contract/contracts/], and
    a server in Rust under [server/].  This library models the event registry
    ([event_registry/src]), the Pro subscription contract
    ([pro_subscription/src]), the ticket payment contract ([ticket_payment/src])
    and their composition and, of the server, the replicated data
    ([server/src/crdt]), the delta synchronisation, the zero-knowledge check-in,
    the indexer of the chain and the listener beside it, the exchange rates and
    price projections, the waiting room, the QR codes and ticket documents, the
    authentication and the gates of requests, the secondary market, affiliates,
    webhooks, the mediation of disputes, the profiles of organizers, and the
    creation, listings and ratings of events, as functions over explicit state,
    and proves what makes them correct.

    ** The program and how its parts interact

    - The event registry keeps the events with their ticket tiers and counters,
      the organizers' indexes, the platform's administration, a multisig
      governance, organizer staking, disputes, series passes, waitlists and
      loyalty profiles.  It calls a token contract to move collateral and
      rewards, asks the payment contract whether a guest holds a ticket, and is
      called by the payment contract to count sales and refunds.
    - The Pro subscription contract sells organizer memberships against
      a payment in a token.
    - The payment contract sells, refunds, transfers and resells tickets, holds
      the revenue in escrow and has a governance of its own.  It calls the
      registry, the subscription contract, a price oracle and token contracts.
    - The server exchanges the deltas of clients that worked offline, as
      conflict-free replicated data, and admits the holders of tickets by
      a zero-knowledge proof over a published set of commitments or by a signed
      QR code.  It follows the events of the contracts through RPC nodes and
      applies them to its database once they are final; lets the buyers of
      popular events wait in a queue; brings sellers and buyers of tickets
      together; identifies callers by session tokens or developer keys and
      limits their rate; tells subscribers by signed webhooks; mediates disputes
      by votes; and keeps profiles, follows, affiliates and the catalogue of
      events with its translations.  The listener is a second, independent way
      from the events of the contracts to the tables of tickets.

    ** How code becomes definitions

    - [Prelude]: fixed-width integers as [Z] with checked, saturating and
      trapping arithmetic written out (the contracts are compiled with overflow
      checks); record update; sums over lists and maps; the tactics and the hint
      database [agora].  Addresses, strings and byte strings are byte strings.
    - [Soroban]: the host.  An entry point is a value of the monad [M]: from an
      environment (time, contract, signers) and the storage to [Done], to [Fail]
      with an error of the contract or to [Trap]; the host rolls back the last
      two ([invoke]).  The tactic [exec] inverts a successful run into what each
      primitive did; [respects], [keeps] and [reads] are a footprint logic for
      what an operation cannot touch; [history] is a sequence of calls.
    - [Token]: the class [Token] is the part of a token contract that the
      contracts call, [TokenLaws] what they rely on (a transfer moves the amount
      or fails), [TokenTotal] when a transfer succeeds; [Ledger] is an instance
      that shows the laws can hold.
    - [Sharded]: the paged index of [storage.rs] (pages of fixed size and
      a counter) and its refinement to a list; the registry and the payment
      contract use it at their shard sizes.
    - [RegistryTypes], [RegistryStorage]: [types.rs], [error.rs], [topics.rs],
      [events.rs]; the storage keys as the record [State], every function of
      [storage.rs], [bridge.rs], [teleport.rs] and [ticket.rs].
    - [RegistryEvents] (registration, metadata, status, tiers, fees),
      [RegistryInventory] (sales, refunds, cross-chain mint), [RegistryAdmin]
      (initialisation, administrators, blacklist, promotion, scanners),
      [RegistryLifecycle] (theorems on the two), [RegistryGovernance] (multisig
      proposals and the platform fee), [RegistryStaking], [RegistryDispute]
      ([dispute.rs]), [RegistryCommunity] (series passes, waitlist, loyalty):
      one definition per entry point of [lib.rs], with its guards in the order
      of the code and the events it publishes.
    - [Registry]: all entry points as one type [Call] and their interpreter
      [run_call]; [steps] and [reachable] are the states that any sequence of
      calls produces; frame lemmas for every call.
    - [RegistryHistory], [RegistryControl], [RegistrySeats]: theorems on all such
      histories; the last is what each call does to the sold seats of a tier.
    - [ProSubscription]: the whole subscription contract.
    - [PaymentTypes], [PaymentStorage]: the data and errors of the payment
      contract, its storage keys as the record [State], every function of its
      [storage.rs].  [Pricing]: Dutch auctions with commit and reveal, and
      bonding curves.
    - [PaymentWorld]: the interface [Clients] of the contracts that the payment
      contract calls ([interfaces.rs]) and the world its operations run on.
    - [PaymentSale] ([process_payment] and its parts, confirmation, check-in,
      attendance tokens), [PaymentAdmin] (initialisation, settings, proposals),
      [PaymentRefund] (refunds and their batches), [PaymentEscrow] (withdrawals
      and milestones), [PaymentResale] (transfer, resale, bids): one definition
      per entry point of [contract.rs].
    - [Payments]: all of them as one type [PayCall] and their interpreter
      [run_pay]; [pays] are the worlds that calls reach, with arbitrary activity
      of the other contracts in between.  [PaymentSample] is a concrete world.
    - [PaymentQuote], [PaymentGovernance], [PaymentTickets], [PaymentHolders],
      [PaymentAccounts], [PaymentMoney], [PaymentTrade]: the theorems;
      [PaymentFindings]: concrete runs that the code surely does not intend.
      [PaymentSeats]: what each call does to the live tickets of a tier and which
      calls of the registry it makes.
    - [Platform]: the instance [chain_clients] of [Clients] that answers with the
      models of the registry and of the subscription contract, over the class
      [Deployment] (addresses and the decoding of records at the boundary), and
      the runs in which calls of the three contracts interleave ([platform]).
    - [CrdtClock], [CrdtOrSet], [CrdtLww]: [vector_clock.rs], [or_set.rs] and
      [lww_element_set.rs], over the classes [Joins] (a join-semilattice up to
      an equivalence) and [Mergeable] (a merge that computes the join of an
      abstract view).  [Sync]: [handlers/sync.rs], also as atomic steps that
      requests can interleave.
    - [ServerPrelude], [Zkp]: [utils/zkp_verifier.rs] over the class [Curve];
      [ZkpEncoding] and [ZkpProtocol]: the theorems on it; [ZkCheckin]: the
      handlers of [handlers/zk_checkin.rs] over their database tables.
    - [IndexerEvent]: [models/indexer_event.rs], XDR values to JSON and to typed
      payloads.  [Indexer]: [services/indexer.rs] and
      [models/blockchain_checkpoint.rs]: node pool, backoff, buffer, application
      of events, finalizer, checkpoint, rollback and replay over the tables as
      the record [Db].  [IndexerBatch]: the theorems on these functions.
      [IndexerPipeline]: producer, workers and finalizer as a step relation
      ([pstep]) whose steps may fail, with a trace of what was fetched and
      applied.
    - [Rates]: [handlers/rates.rs], the breaker as a state and a sequence of its
      calls.  [WaitingRoom]: [services/queue.rs], [services/pow.rs] and
      [handlers/waiting_room.rs]; every Redis command and the Lua script are one
      atomic step of [qstep].
    - [TicketQr]: [handlers/qr_payload.rs] and [utils/pagination.rs].  [Auth]:
      [handlers/auth.rs], [handlers/api_keys.rs], [middleware/api_key_auth.rs]
      and the identification of uploads.  [Marketplace]:
      [handlers/marketplace.rs].  Handlers are functions from the request and
      the tables to a [Result] and the tables.
    - [EventListing]: [utils/cursor_pagination.rs], [models/event.rs] and the
      listings of [handlers/events.rs], with their SQL conditions as data and
      their placeholders as numbers; [EventPages]: the theorems on the pages.
      [EventRatings]: ratings and moderation of [handlers/events.rs].
      [EventCatalog]: validation, creation, cloning, the page of an event and
      its language, counts, categories, export and revenue, over the record
      [Schema] of what the migrations make of the tables.
    - [Listener]: [handlers/soroban_listener.rs], the polling task, Redis, the
      channel and the workers as one transition system; [ListenerJobs]: the
      theorems on it.
    - [Mediation] ([handlers/governance.rs]), [Affiliates]
      ([handlers/affiliates.rs]), [Profiles] ([handlers/profile.rs] and
      [handlers/follows.rs]): requests that run several statements outside
      a transaction are machines with one move per statement, so that they
      interleave and may stop anywhere.
    - [Text]: what handlers use of [str].  [Webhooks]:
      [services/webhook_dispatcher.rs] and [handlers/webhooks.rs].  [RateLimit]:
      [utils/rate_limit.rs] and the middleware for administrators, monitoring,
      CSRF and content types.  [TicketPdf]: [utils/pdf.rs] and
      [handlers/tickets.rs].  [Float64]: doubles with the rounding of IEEE 754;
      [Quotes]: [handlers/pricing.rs] in them.

    ** What the theorems show

    - Global invariants of the registry, over all reachable states: consistency
      of the tables ([registry_consistent]), no oversold tier or event
      ([never_oversold]), limits on fees, caps and prices and an exact public
      counter ([event_terms_kept]), solvency of the staking pool
      ([registry_solvent]), limits of passes ([passes_within_limits]).
    - State machines: every change of an event ([event_life_cycle]), of
      a proposal ([proposal_life_cycle]) and of the administrator
      ([admin_succession]) is one of a list of authorised transitions;
      [cancellation_final], [initialized_once], [teleport_not_replayed].
    - Operations: success and effect of sales, registrations, archival,
      blacklisting, disputes, rewards, claims, fee changes, passes; round trips
      of sale and refund and of the waitlist; [staker_can_exit].
    - Subscriptions: nobody becomes a member without paying
      ([membership_paid]), the list of members is exact ([members_exact]).
    - Pricing: auction prices never trap, decay between their bounds, a commit
      can be revealed once and in time; curve prices are monotone and splitting
      an order changes no total.
    - Payments: the life of a ticket is a list of authorised transitions
      ([ticket_life_cycle]), the answer about a holder is exact
      ([confirmed_ticket_exact]), the totals of the escrow agree with each other
      ([escrow_totals_agree]), a sale, a refund, a resale and a bid move the
      balances to the unit, withdrawals stay within what was released and
      collected, and governance acts with a majority and after its time lock
      only.
    - The contracts together: every live ticket has a seat that the registry
      counts, within the limits of its tier and event, over all interleavings
      ([tickets_have_seats]).
    - Indexer: whatever the interleaving and the failures, events are applied
      only when they are final ([applied_events_final]); what a batch does with
      and without an error ([batch_drains], [batch_stops_at_error]); the choice
      of nodes ([next_url_correct]); [apply_idempotent],
      [buffered_event_redecoded], [backoff_bounds].
    - Waiting room: first come, first served ([queue_fair]), a bound on the
      admissions of any time span ([admissions_bounded]), challenges are used
      once ([challenge_single_use]).  Rates: [breaker_protects].
    - Tickets at the gate: issued codes are accepted ([attendee_code_scans]),
      and a ticket once ([ticket_scanned_once]); pages cover the rows exactly
      ([pages_cover_rows]).  Callers: [caller_authentic], [login_sound].  Market:
      an invariant of all tables ([market_in_order]), envelopes reach the buyer
      alone ([envelope_delivered]), the shown royalty is the one the payment
      contract computes ([shown_royalty_settles]).  Listings: what a client that
      follows the cursors sees, exactly ([event_pages], [past_pages],
      [attendee_pages], [organizer_pages], [following_pages],
      [category_pages]); ratings and their sums agree ([ratings_exact]).
    - Listener: jobs are neither duplicated nor lost without a trace
      ([jobs_conserved]), tried as often as configured ([attempts_exact]), and
      the pool comes to an end with all of them ([pool_drains]); every event is
      enqueued once ([enqueued_once]).
    - Overlapping requests: tallies and votes ([tallies_follow_votes],
      [resolve_rule]), one affiliate per event and wallet
      ([registrations_agree]), valid profiles and follows ([profiles_sound]),
      a bound on the age of a cached profile ([profile_cache_converges]).
    - Webhooks reach exactly the subscribed endpoints and account for each
      attempt ([dispatch_exact]); [endpoint_lifecycle].  The limiter lets
      a bounded number of requests pass in any time span ([rate_limit_bound]),
      and who waits as told passes ([retry_after_honoured]).
    - Documents are well formed and show the given text ([pdf_well_formed]);
      the projected price is within a stroop of the contract's
      ([projection_near_contract]); translations come back in their language
      ([translations_round_trip], [best_locale_weight]), a clone has the
      content of its source and none of its sales ([clone_exact]), an export
      needs the organizer or the administrator ([export_authorised]).
    - Replicated data: replicas that merged the same states agree
      ([merge_converges]); the sets refine maps of tags or of times; a delta
      exchange returns exactly what the client lacks ([delta_sync_exact]).
    - Check-in: the proof system is complete and specially sound
      ([ring_proof_extracts]), the Merkle root determines the commitments unless
      the hash has a collision ([merkle_root_binds]), encodings are unique
      ([proof_encoding_unique]), a holder enters once ([holder_enters_once]).
    - Behaviours the code surely does not intend are stated as theorems too,
      on concrete states: [archive_hides_event], [stale_removals_empty_admins],
      [renewal_not_counted], [cancelled_event_revived], those of
      [PaymentFindings], [remove_undone], [refunds_blocked],
      [refund_revokes_event], [replay_stops_after_page], [open_breaker_unavailable],
      [forged_code_scans], [grant_is_session], [upload_spoofed], [filters_refused],
      [sold_ticket_relisted], [unconfirmed_lost], [encoded_events_ignored],
      [dispute_never_opens], [create_never_commits], [forwarded_for_evades],
      [cached_pdf_leaks], [patch_never_succeeds], [create_never_succeeds],
      [tiers_not_included] and others.

    ** Bounds, fuel, assumptions

    The loops of the code run over vectors or counted ranges and are folds or
    structural recursions, with three exceptions that carry fuel: the loop over
    the milestones of an event, whose fuel is two more than the entries of the
    table, and the levels of the Merkle tree, whose fuel is the number of
    leaves; [get_escrow_milestones_fuel] and [merkle_root_binds] show that more
    fuel changes no result.  The third is the replay of the indexer, which asks
    nodes until they have answered and ends or not as they do; it is a result
    only when the fuel sufficed, and only statements about such results are made.
    The buckets of tokens of the waiting room are exact fractions where the Lua
    script computes in floating point; their unit is a sixty-thousandth.  So are
    the buckets of the limiter, where the code has doubles.

    Hypotheses of theorems over histories are predicates on the calls: [fair]
    (new tiers come without sales and replace no tier, quantities are not
    negative, the legacy [store_event] is not used), [custody] (the calls run in
    the same contract, which signs nothing itself, and the staking token is not
    changed while other stakes exist), [regular] (renewals of running Pro
    subscriptions, cancellation of Pro records; in [PaymentHolders], one ticket
    per purchase and fresh identifiers of auction tickets), [orderly] (in
    [Platform]: fair calls, no revival of a refunded ticket, contracts sign
    nothing themselves, events with live tickets are not archived), [paced] (the
    rates and the clock of the worker), [page_ok] (in [ListenerJobs]: a page of
    the node holds the next events after the cursor).  Every property with
    a hypothesis has a witness.

    Parameters: the token contract ([Token]), the contracts around the payment
    contract ([Clients]), what happens to records between contracts
    ([Deployment]), the XDR decoder ([Xdr]), texts of numbers, UUIDs and JSON
    ([Texts]), UUIDs and proof-of-work digests ([Room]), Ed25519 ([Signing]), JWT
    ([Tokens]) and Base64 ([Encodings], [Base64]), JSON of cursors
    ([cursor_pagination.Json]), dates ([EventText]), HMAC and JSON texts of
    webhooks ([Signing] of [Webhooks]), the reading of addresses of the network
    ([Addresses]), digests and texts of the catalogue ([CatalogText]), the columns
    of the tables ([Schema]), the separator of the query builder ([separates] in
    [Profiles]), SHA-256, the encoding of addresses, JSON texts as keys
    ([generate_key]), the group Ristretto and SHA-512 ([Curve]), and hexadecimal
    text ([Hex]); [TokenLaws], [ClientRates], [CurveLaws], [HexLaws],
    [SigningLaws], [CursorLaws] and [TokenLaws] of [Auth] state
    what is documented of them, and each has an instance.

    ** What is not modelled

    [upgrade] (replaces the code), [version] (a constant of the build) and the
    extension of storage lifetimes, which changes no value; getters that only
    read one key are represented by their storage function.  Of the server, the
    full-text search, the map and geofences, categories, recommendations, health
    checks, websockets, e-mail, configuration, the router and the texts of errors
    are queries whose meaning is in PostgreSQL and its extensions, calls of other
    services, or wiring.  Within [handlers/events.rs] this leaves out the search,
    map clusters, social proof and similar events; the cache of bonding curve
    projections is left out too.  Of the modelled parts, the transport
    over HTTP, logging and metrics are left out.  The mobile and web applications are user
    interfaces. *)

From stdpp Require Import base tactics numbers list strings gmap fin_maps.

(** The notations of the library live in a scope of their own. *)
Declare Scope agora_scope.
Delimit Scope agora_scope with agora.
Open Scope agora_scope.
Open Scope Z_scope.

(** The hint database of the library. *)
Create HintDb agora discriminated.

(** ** Addresses, strings and byte strings

    Soroban's [Address] (through its strkey text), [String], [Bytes] and
    [BytesN] are byte strings here; the contracts only compare them, measure
    them, read single bytes and use them as storage keys. *)
Abbreviation Address := string (only parsing).
Abbreviation Bytes := string (only parsing).

(** ** Machine integers

    Rust's fixed-width integers are [Z] with their ranges written out.  The
    contracts are built with [overflow-checks = true], so the plain operators
    trap outside of the range, [checked_*] return [None] and [saturating_*]
    clamp. *)
Inductive int_ty := U8 | U32 | U64 | I128.

Definition int_min (t : int_ty) : Z :=
  match t with U8 | U32 | U64 => 0 | I128 => - 2 ^ 127 end.

Definition int_max (t : int_ty) : Z :=
  match t with
  | U8 => 2 ^ 8 - 1 | U32 => 2 ^ 32 - 1 | U64 => 2 ^ 64 - 1 | I128 => 2 ^ 127 - 1
  end.

Definition in_range (t : int_ty) (z : Z) : bool :=
  (int_min t <=? z) && (z <=? int_max t).

Definition checked (t : int_ty) (z : Z) : option Z :=
  if in_range t z then Some z else None.

Definition checked_add (t : int_ty) (a b : Z) : option Z := checked t (a + b).
Definition checked_sub (t : int_ty) (a b : Z) : option Z := checked t (a - b).
Definition checked_mul (t : int_ty) (a b : Z) : option Z := checked t (a * b).

(** Rust's division truncates towards zero. *)
Definition checked_div (t : int_ty) (a b : Z) : option Z :=
  if b =? 0 then None else checked t (a `quot` b).

Definition saturate (t : int_ty) (z : Z) : Z :=
  Z.max (int_min t) (Z.min (int_max t) z).

Definition saturating_add (t : int_ty) (a b : Z) : Z := saturate t (a + b).
Definition saturating_sub (t : int_ty) (a b : Z) : Z := saturate t (a - b).
Definition saturating_mul (t : int_ty) (a b : Z) : Z := saturate t (a * b).

(** [u32::div_ceil]. *)
Definition div_ceil (a b : Z) : Z := (a + b - 1) / b.

(** Well-typed values of a width, for the statements that need it. *)
Notation "z ∈ᵢ t" := (int_min t <= z <= int_max t)
  (at level 70, no associativity) : agora_scope.

Lemma checked_Some t z v : checked t z = Some v <-> v = z /\ z ∈ᵢ t.
Proof. unfold checked, in_range. case_match; naive_solver lia. Qed.

Lemma checked_None t z : checked t z = None <-> ~ z ∈ᵢ t.
Proof. unfold checked, in_range. case_match; split; intros; try done; lia. Qed.

Lemma checked_in t z : z ∈ᵢ t -> checked t z = Some z.
Proof. intros. by apply checked_Some. Qed.

Lemma saturate_in t z : z ∈ᵢ t -> saturate t z = z.
Proof. unfold saturate. lia. Qed.

Lemma saturate_range t z : saturate t z ∈ᵢ t.
Proof. unfold saturate. destruct t; cbn; lia. Qed.

(** ** Record update

    [s <| f := v |>] replaces the field [f]: the setter is found by abstracting
    the projection in the eta expansion of the record, which each state record
    declares once as an [Eta] instance. *)
Class Eta (R : Type) := eta : R -> R.
Class Setter {R E : Type} (proj : R -> E) := upd : (E -> E) -> R -> R.
Arguments upd {R E} proj {_} f r : rename.

Ltac solve_setter :=
  match goal with
  | |- @Setter ?R ?E ?p =>
      let i := constr:(_ : Eta R) in
      let e := eval hnf in (@eta R i) in
      match eval pattern p in e with
      | ?F _ => exact (fun f => F (fun r => f (p r)))
      end
  end.
#[export] Hint Extern 1 (Setter _) => solve_setter : typeclass_instances.

Notation "s <| p := v |>" := (upd p (fun _ => v) s)
  (at level 1, left associativity, p at level 0, v at level 99) : agora_scope.

(** One step of field access through an update, by conversion; only a
    projection of a record (a constant whose body is a match) is reduced. *)
Ltac is_field p :=
  let b := eval cbv delta [p] in p in
  lazymatch b with fun r => match r with _ => _ end => idtac end.

Ltac upd_step :=
  match goal with
  | |- context [ ?p (@upd ?R ?E ?q ?i ?f ?s) ] =>
      is_field p;
      first [ constr_eq p q; change (p (@upd R E q i f s)) with (f (p s)); cbv beta
            | change (p (@upd R E q i f s)) with (p s) ]
  | H : context [ ?p (@upd ?R ?E ?q ?i ?f ?s) ] |- _ =>
      is_field p;
      first [ constr_eq p q; change (p (@upd R E q i f s)) with (f (p s)) in H; cbv beta in H
            | change (p (@upd R E q i f s)) with (p s) in H ]
  end.
Ltac upd_simpl := repeat upd_step.

(** ** Booleans *)

(** Turn boolean tests of the code into propositions. *)
Ltac bools :=
  repeat match goal with
  | H : (_ && _) = true |- _ => apply andb_true_iff in H; destruct H
  | H : (_ || _) = false |- _ => apply orb_false_iff in H; destruct H
  | H : (_ && _) = false |- _ => apply andb_false_iff in H
  | H : (_ || _) = true |- _ => apply orb_true_iff in H
  | H : negb _ = true |- _ => apply negb_true_iff in H
  | H : negb _ = false |- _ => apply negb_false_iff in H
  | H : bool_decide _ = true |- _ => apply bool_decide_eq_true in H
  | H : bool_decide _ = false |- _ => apply bool_decide_eq_false in H
  | H : (_ =? _) = true |- _ => apply Z.eqb_eq in H
  | H : (_ =? _) = false |- _ => apply Z.eqb_neq in H
  | H : (_ <? _) = true |- _ => apply Z.ltb_lt in H
  | H : (_ <? _) = false |- _ => apply Z.ltb_ge in H
  | H : (_ <=? _) = true |- _ => apply Z.leb_le in H
  | H : (_ <=? _) = false |- _ => apply Z.leb_gt in H
  end.

(** The same, with double negations removed. *)
Ltac facts :=
  bools; repeat match goal with H : ~ (_ <> _) |- _ => apply dec_stable in H end.

(** ** Lists and finite maps *)

(** Two filters that agree on the list. *)
Lemma filter_ext_in {A} (P Q : A -> Prop) `{!forall x, Decision (P x)}
    `{!forall x, Decision (Q x)} (l : list A) :
  (forall x, x ∈ l -> P x <-> Q x) -> filter P l = filter Q l.
Proof.
  induction l as [|x l IH]; intros Hl; [done|]. rewrite !filter_cons, IH by set_solver.
  destruct (decide (P x)), (decide (Q x)); set_solver.
Qed.

(** [Vec::len], [Map::len] and [String::len]. *)
Abbreviation len l := (Z.of_nat (length l)).
Abbreviation map_len m := (Z.of_nat (size m)).
Abbreviation str_len s := (Z.of_nat (String.length s)).

(** A filter whose predicate holds of the whole list. *)
Lemma filter_all {A} (P : A -> Prop) `{!forall x, Decision (P x)} (l : list A) :
  Forall P l -> filter P l = l.
Proof. induction 1; [done|]. rewrite filter_cons_True by done. by f_equal. Qed.

(** The sum of a measure over a list. *)
Definition sum_by {A} (f : A -> Z) (l : list A) : Z :=
  foldr (fun x acc => f x + acc) 0 l.

Arguments sum_by {A} f l : simpl never.

Section SumBy.
Context {A : Type}.
Implicit Types (f g : A -> Z) (l : list A).

Lemma sum_by_cons f x l : sum_by f (x :: l) = f x + sum_by f l.
Proof. done. Qed.

Lemma sum_by_app f l1 l2 : sum_by f (l1 ++ l2) = sum_by f l1 + sum_by f l2.
Proof.
  induction l1 as [|x l1 IH]; [done|].
  rewrite <- app_comm_cons, !sum_by_cons, IH. lia.
Qed.

Lemma sum_by_ext f g l :
  (forall x, x ∈ l -> f x = g x) -> sum_by f l = sum_by g l.
Proof.
  induction l as [|x l IH]; intros Hfg; [done|].
  rewrite !sum_by_cons, IH, Hfg by set_solver. done.
Qed.

Lemma sum_by_le f g l :
  (forall x, x ∈ l -> f x <= g x) -> sum_by f l <= sum_by g l.
Proof.
  induction l as [|x l IH]; intros Hfg; [done|].
  rewrite !sum_by_cons. apply Z.add_le_mono; [|apply IH]; set_solver.
Qed.

Lemma sum_by_nonneg f l : (forall x, x ∈ l -> 0 <= f x) -> 0 <= sum_by f l.
Proof.
  induction l as [|x l IH]; intros Hf; [done|].
  rewrite sum_by_cons. apply Z.add_nonneg_nonneg; [|apply IH]; set_solver.
Qed.

Lemma sum_by_add f g l : sum_by (fun x => f x + g x) l = sum_by f l + sum_by g l.
Proof. induction l as [|x l IH]; [done|]. rewrite !sum_by_cons, IH. lia. Qed.

Lemma sum_by_insert f l i x y : l !! i = Some y ->
  sum_by f (<[i := x]> l) = sum_by f l - f y + f x.
Proof.
  revert i. induction l as [|z l IH]; intros [|i] Hl; try done; cbn in *.
  - injection Hl as ->. rewrite !sum_by_cons. lia.
  - rewrite !sum_by_cons, IH by done. lia.
Qed.

(** One and two places of a list. *)
Lemma sum_by_one f l i x : (forall z, z ∈ l -> 0 <= f z) -> l !! i = Some x -> f x <= sum_by f l.
Proof.
  revert i. induction l as [|z l IH]; intros [|i] Hf Hi; try done; cbn in Hi; rewrite sum_by_cons.
  - injection Hi as ->. pose proof (sum_by_nonneg f l ltac:(set_solver)). lia.
  - pose proof (Hf z ltac:(set_solver)). specialize (IH i ltac:(set_solver) Hi). lia.
Qed.
Lemma sum_by_pair f l i j x y : (forall z, z ∈ l -> 0 <= f z) ->
  l !! i = Some x -> l !! j = Some y -> i <> j -> f x + f y <= sum_by f l.
Proof.
  revert i j. induction l as [|z l IH]; intros [|i] [|j] Hf Hi Hj Hij; try done; cbn in Hi, Hj;
    rewrite sum_by_cons; simplify_eq.
  - pose proof (sum_by_one f l j y ltac:(set_solver) Hj). lia.
  - pose proof (sum_by_one f l i x ltac:(set_solver) Hi). lia.
  - pose proof (Hf z ltac:(set_solver)). specialize (IH i j ltac:(set_solver) Hi Hj ltac:(congruence)). lia.
Qed.

Lemma sum_by_filter_ne `{EqDecision A} f l a :
  NoDup l -> a ∈ l -> sum_by f (filter (.≠ a) l) = sum_by f l - f a.
Proof.
  induction 1 as [|x l Hx Hnd IH]; intros Ha; [set_solver|].
  rewrite filter_cons. case_decide as Hxa; rewrite ?sum_by_cons.
  - rewrite IH by set_solver. lia.
  - assert (x = a) as -> by (destruct (decide (x = a)); naive_solver).
    rewrite filter_all; [lia|].
    apply Forall_forall. intros y Hy ->. done.
Qed.
End SumBy.

(** A filter that keeps everything but one element of the list. *)
Lemma filter_ne_notin {A} `{EqDecision A} (l : list A) a :
  a ∉ l -> filter (.≠ a) l = l.
Proof. intros Ha. apply filter_all, Forall_forall. intros y Hy ->. done. Qed.

(** Concatenation. *)
Lemma filter_join {A} (P : A -> Prop) `{!forall x, Decision (P x)} (ls : list (list A)) :
  filter P (mjoin ls) = mjoin (filter P <$> ls).
Proof.
  induction ls as [|l ls IH]; [done|]. rewrite fmap_cons.
  change (filter P (l ++ mjoin ls) = filter P l ++ mjoin (filter P <$> ls)).
  by rewrite filter_app, IH.
Qed.

Lemma filter_join_fmap {A B} (P : A -> Prop) `{!forall x, Decision (P x)}
    (f : B -> list A) (ls : list B) :
  filter P (mjoin (f <$> ls)) = mjoin ((fun b => filter P (f b)) <$> ls).
Proof. rewrite filter_join, <- list_fmap_compose. done. Qed.

Lemma NoDup_join_inj {A B} (f : B -> list A) (ls : list B) i j v :
  NoDup (mjoin (f <$> ls)) -> NoDup ls ->
  i ∈ ls -> j ∈ ls -> v ∈ f i -> v ∈ f j -> j = i.
Proof.
  induction ls as [|x ls IH]; intros Hj Hnd Hi Hk Hvi Hvj; [set_solver|].
  cbn in Hj. apply NoDup_app in Hj as (_ & Hdisj & Hj). apply NoDup_cons in Hnd as [_ Hnd].
  assert (forall y, y ∈ ls -> v ∈ f y -> v ∈ mjoin (f <$> ls)) as Hin.
  { intros y Hy Hvy. apply list_elem_of_join. exists (f y). split; [done|].
    by apply list_elem_of_fmap_2. }
  apply elem_of_cons in Hi as [->|Hi], Hk as [->|Hk]; try done; try naive_solver.
Qed.

(** The sum of a measure over the values of a finite map. *)
Definition sum_map {K A} `{Countable K} (f : A -> Z) (m : gmap K A) : Z :=
  map_fold (fun _ x acc => f x + acc) 0 m.

Section SumMap.
Context {K A : Type} `{Countable K}.
Implicit Types (f g : A -> Z) (m : gmap K A).

Lemma sum_map_empty f : sum_map f (∅ : gmap K A) = 0.
Proof. apply map_fold_empty. Qed.

Lemma sum_map_insert_None f m k x :
  m !! k = None -> sum_map f (<[k := x]> m) = f x + sum_map f m.
Proof.
  intros Hk. unfold sum_map.
  apply (map_fold_insert_L (fun _ x acc => f x + acc)); [intros; lia|done].
Qed.

Lemma sum_map_delete f m k :
  sum_map f (delete k m) = sum_map f m - from_option f 0 (m !! k).
Proof.
  destruct (m !! k) as [x|] eqn:Hk; cbn.
  - rewrite <- (insert_delete_id m k x Hk) at 2.
    rewrite sum_map_insert_None by apply lookup_delete_eq. lia.
  - rewrite delete_id by done. lia.
Qed.

Lemma sum_map_insert f m k x :
  sum_map f (<[k := x]> m) = sum_map f m - from_option f 0 (m !! k) + f x.
Proof.
  rewrite <- insert_delete_eq, sum_map_insert_None, sum_map_delete
    by apply lookup_delete_eq. lia.
Qed.

Lemma sum_map_nonneg f m : (forall k x, m !! k = Some x -> 0 <= f x) -> 0 <= sum_map f m.
Proof.
  induction m as [|k x m Hk IH] using map_ind; intros Hf; [by rewrite sum_map_empty|].
  rewrite sum_map_insert_None by done. apply Z.add_nonneg_nonneg.
  - apply (Hf k). apply lookup_insert_eq.
  - apply IH. intros j y Hj. apply (Hf j). rewrite lookup_insert_ne; congruence.
Qed.

Lemma sum_map_le f g m :
  (forall k x, m !! k = Some x -> f x <= g x) -> sum_map f m <= sum_map g m.
Proof.
  induction m as [|k x m Hk IH] using map_ind; intros Hf; [by rewrite !sum_map_empty|].
  rewrite !sum_map_insert_None by done. apply Z.add_le_mono.
  - apply (Hf k). apply lookup_insert_eq.
  - apply IH. intros j y Hj. apply (Hf j). rewrite lookup_insert_ne; congruence.
Qed.

Lemma sum_map_elem f m k x :
  (forall k x, m !! k = Some x -> 0 <= f x) -> m !! k = Some x -> f x <= sum_map f m.
Proof.
  intros Hf Hk. pose proof (sum_map_delete f m k) as Hd. rewrite Hk in Hd. cbn in Hd.
  enough (0 <= sum_map f (delete k m)) by lia. apply sum_map_nonneg.
  intros j y [_ Hj]%lookup_delete_Some. eauto.
Qed.

Lemma sum_map_add f g m :
  sum_map (fun x => f x + g x) m = sum_map f m + sum_map g m.
Proof.
  induction m as [|k x m Hk IH] using map_ind; [by rewrite !sum_map_empty|].
  rewrite !sum_map_insert_None, IH by done. lia.
Qed.

Lemma sum_map_scale f m c : sum_map (fun x => c * f x) m = c * sum_map f m.
Proof.
  induction m as [|k x m Hk IH] using map_ind; [rewrite !sum_map_empty; lia|].
  rewrite !sum_map_insert_None, IH by done. lia.
Qed.

Lemma sum_map_ext f g m :
  (forall k x, m !! k = Some x -> f x = g x) -> sum_map f m = sum_map g m.
Proof.
  intros Hfg. apply Z.le_antisymm; apply sum_map_le; intros k x Hk;
    rewrite (Hfg k x Hk); done.
Qed.

Lemma sum_map_fmap (h : A -> A) f m : sum_map f (h <$> m) = sum_map (fun x => f (h x)) m.
Proof.
  induction m as [|k x m Hk IH] using map_ind; [by rewrite fmap_empty, !sum_map_empty|].
  rewrite fmap_insert, !sum_map_insert_None, IH; [done|done|].
  by rewrite lookup_fmap, Hk.
Qed.

Lemma sum_map_to_list f m : sum_map f m = sum_by f (map_to_list m).*2.
Proof.
  unfold sum_map, sum_by. rewrite map_fold_foldr.
  induction (map_to_list m) as [|[k x] l IH]; [done|]. cbn. by rewrite IH.
Qed.
End SumMap.

Lemma sum_by_Permutation {A} (f : A -> Z) l l' : l ≡ₚ l' -> sum_by f l = sum_by f l'.
Proof. induction 1; rewrite ?sum_by_cons; lia. Qed.

#[export] Hint Resolve checked_in saturate_in : agora.
