(* ===== verification/Soroban.v ===== *)
(** * The Soroban host

    The contracts run inside the Soroban host, which hands them the ledger
    timestamp, the address of the running contract and the addresses that
    authorised the invocation, keeps their storage, and undoes every effect of
    an invocation that returns an error or traps.  An entry point is a
    computation of the monad [M]: it reads the environment, threads the
    storage, and ends in a value, in an error of the contract's error enum, or
    in a trap (a Rust panic, a failed [require_auth], an arithmetic overflow).
    [Fail] and [Trap] carry no storage: the host keeps the old one
    ([invoke]). *)

From stdpp Require Import base tactics numbers list strings gmap.
From S2P Require Import Prelude.

Record Env := mkEnv {
  current_contract_address : Address;
  timestamp : Z;
  auths : list Address;
}.

Inductive outcome (S E A : Type) :=
  | Done (a : A) (s : S)
  | Fail (e : E)
  | Trap.
Arguments Done {S E A} a s.
Arguments Fail {S E A} e.
Arguments Trap {S E A}.

Definition M (S E A : Type) := Env -> S -> outcome S E A.

(** What the ledger holds after an invocation. *)
Definition invoke {S E A} (m : M S E A) (env : Env) (s : S) : S :=
  match m env s with Done _ s' => s' | Fail _ | Trap => s end.

(** The value an invocation returns, if it succeeds. *)
Definition returned {S E A} (m : M S E A) (env : Env) (s : S) : option A :=
  match m env s with Done a _ => Some a | Fail _ | Trap => None end.

#[export] Instance M_ret S E : MRet (M S E) := fun A a _ s => Done a s.

#[export] Instance M_bind S E : MBind (M S E) := fun A B k m env s =>
  match m env s with
  | Done a s' => k a env s'
  | Fail e => Fail e
  | Trap => Trap
  end.

Section Primitives.
Context {S E : Type}.

(** Storage. *)
Definition gets {A} (f : S -> A) : M S E A := fun _ s => Done (f s) s.
Definition modify (f : S -> S) : M S E unit := fun _ s => Done tt (f s).

(** [return Err(e)], [panic!], [?] on options and [unwrap]. *)
Definition throw {A} (e : E) : M S E A := fun _ _ => Fail e.
Definition panic {A} : M S E A := fun _ _ => Trap.
Definition throw_if (b : bool) (e : E) : M S E unit :=
  if b then throw e else mret tt.
Definition panic_if (b : bool) : M S E unit := if b then panic else mret tt.
Definition ok_or {A} (o : option A) (e : E) : M S E A :=
  match o with Some a => mret a | None => throw e end.
Definition unwrap {A} (o : option A) : M S E A :=
  match o with Some a => mret a | None => panic end.

(** The plain operators [+], [-] and [*] of a build with overflow checks. *)
Definition add_ (t : int_ty) (a b : Z) : M S E Z := unwrap (checked_add t a b).
Definition sub_ (t : int_ty) (a b : Z) : M S E Z := unwrap (checked_sub t a b).
Definition mul_ (t : int_ty) (a b : Z) : M S E Z := unwrap (checked_mul t a b).

(** [if b { m }]. *)
Definition when (b : bool) (m : M S E unit) : M S E unit :=
  if b then m else mret tt.

(** [r.unwrap()] on a [Result]: the error becomes a trap. *)
Definition unwrap_result {A} (m : M S E A) : M S E A := fun env s =>
  match m env s with Done a s' => Done a s' | Fail _ | Trap => Trap end.

(** [Address::require_auth]. *)
Definition require_auth (a : Address) : M S E unit := fun env s =>
  if bool_decide (a ∈ auths env) then Done tt s else Trap.

Definition ledger_timestamp : M S E Z := fun env s => Done (timestamp env) s.
Definition contract_address : M S E Address :=
  fun env s => Done (current_contract_address env) s.

(** [for x in l.iter() { acc = step(acc, x) }]. *)
Fixpoint foldM {A B} (step : B -> A -> M S E B) (acc : B) (l : list A) : M S E B :=
  match l with
  | [] => mret acc
  | x :: l => acc' ← step acc x; foldM step acc' l
  end.
End Primitives.

(** Run a computation on a part of a larger world. *)
Definition zoom {W S E A} (get : W -> S) (put : S -> W -> W) (m : M S E A) : M W E A :=
  fun env w =>
    match m env (get w) with
    | Done a s => Done a (put s w)
    | Fail e => Fail e
    | Trap => Trap
    end.

(** ** Inversion of successful runs *)
Section Inversion.
Context {S E : Type}.
Implicit Types (s : S) (env : Env) (e : E).

Lemma bind_Done {A B} (m : M S E A) (k : A -> M S E B) env s b s' :
  (m ≫= k) env s = Done b s' <->
  exists a s1, m env s = Done a s1 /\ k a env s1 = Done b s'.
Proof.
  unfold mbind, M_bind. destruct (m env s) as [a s1|e|] eqn:Hm; split.
  - eauto.
  - intros (? & ? & ? & ?). by simplify_eq.
  - done.
  - by intros (? & ? & ? & ?).
  - done.
  - by intros (? & ? & ? & ?).
Qed.

Lemma ret_Done {A} (a b : A) env s s' :
  @mret (M S E) _ A a env s = Done b s' <-> b = a /\ s' = s.
Proof. split; [by inversion 1|]. by intros [-> ->]. Qed.

Lemma gets_Done {A} (f : S -> A) env s b s' :
  gets (E := E) f env s = Done b s' <-> b = f s /\ s' = s.
Proof. unfold gets. naive_solver. Qed.

Lemma modify_Done (f : S -> S) env s b s' :
  modify (E := E) f env s = Done b s' <-> s' = f s.
Proof. unfold modify. destruct b. naive_solver. Qed.

Lemma throw_Done {A} e env s (b : A) s' :
  throw (S := S) e env s = Done b s' <-> False.
Proof. done. Qed.

Lemma panic_Done {A} env s (b : A) s' :
  panic (S := S) (E := E) env s = Done b s' <-> False.
Proof. done. Qed.

Lemma throw_if_Done c e env s u s' :
  throw_if (S := S) c e env s = Done u s' <-> c = false /\ s' = s.
Proof. destruct u, c; (split; [by inversion 1|]); by intros [[=] ->]. Qed.

Lemma panic_if_Done c env s u s' :
  panic_if (S := S) (E := E) c env s = Done u s' <-> c = false /\ s' = s.
Proof. destruct u, c; (split; [by inversion 1|]); by intros [[=] ->]. Qed.

Lemma ok_or_Done {A} (o : option A) e env s a s' :
  ok_or (S := S) o e env s = Done a s' <-> o = Some a /\ s' = s.
Proof. destruct o; (split; [by inversion 1|]); by intros [[= ->] ->]. Qed.

Lemma unwrap_Done {A} (o : option A) env s a s' :
  unwrap (S := S) (E := E) o env s = Done a s' <-> o = Some a /\ s' = s.
Proof. destruct o; (split; [by inversion 1|]); by intros [[= ->] ->]. Qed.

Lemma unwrap_result_Done {A} (m : M S E A) env s a s' :
  unwrap_result m env s = Done a s' <-> m env s = Done a s'.
Proof. unfold unwrap_result. destruct (m env s); naive_solver. Qed.

Lemma require_auth_Done a env s u s' :
  require_auth (S := S) (E := E) a env s = Done u s' <-> a ∈ auths env /\ s' = s.
Proof. unfold require_auth. destruct u. case_bool_decide; naive_solver. Qed.

Lemma ledger_timestamp_Done env s t s' :
  ledger_timestamp (S := S) (E := E) env s = Done t s' <-> t = timestamp env /\ s' = s.
Proof. unfold ledger_timestamp. naive_solver. Qed.

Lemma contract_address_Done env s t s' :
  contract_address (S := S) (E := E) env s = Done t s' <->
  t = current_contract_address env /\ s' = s.
Proof. unfold contract_address. naive_solver. Qed.

(** A guarded check, which fails or leaves the storage alone. *)
Lemma when_throw_if_Done {A} b (o : option A) e1 (test : A -> bool) e2 env s u s' :
  when (S := S) b (x ← ok_or o e1; throw_if (test x) e2) env s = Done u s' <->
  s' = s /\ (b = true -> exists x, o = Some x /\ test x = false).
Proof.
  destruct b; cbn [when].
  - rewrite bind_Done. setoid_rewrite ok_or_Done. setoid_rewrite throw_if_Done.
    naive_solver.
  - rewrite ret_Done. destruct u. naive_solver.
Qed.

Lemma when_gets {A} b (f : S -> A) (k : A -> M S E unit) env s :
  when b (gets f ≫= k) env s = when b (k (f s)) env s.
Proof. by destruct b. Qed.

Lemma when_modify_Done b (f : S -> S) env s u s' :
  when (E := E) b (modify f) env s = Done u s' <-> s' = if b then f s else s.
Proof. destruct b, u; cbn [when]; rewrite ?modify_Done, ?ret_Done; naive_solver. Qed.

Lemma add_Done t x y env s z s' :
  add_ (S := S) (E := E) t x y env s = Done z s' <-> z = x + y /\ x + y ∈ᵢ t /\ s' = s.
Proof. unfold add_, checked_add. rewrite unwrap_Done, checked_Some. tauto. Qed.

Lemma sub_Done t x y env s z s' :
  sub_ (S := S) (E := E) t x y env s = Done z s' <-> z = x - y /\ x - y ∈ᵢ t /\ s' = s.
Proof. unfold sub_, checked_sub. rewrite unwrap_Done, checked_Some. tauto. Qed.

Lemma mul_Done t x y env s z s' :
  mul_ (S := S) (E := E) t x y env s = Done z s' <-> z = x * y /\ x * y ∈ᵢ t /\ s' = s.
Proof. unfold mul_, checked_mul. rewrite unwrap_Done, checked_Some. tauto. Qed.

(** Loops preserve what each iteration preserves. *)
Lemma foldM_inv {A B} (P : B -> S -> Prop) (step : B -> A -> M S E B) env :
  forall l acc s acc' s',
  foldM step acc l env s = Done acc' s' ->
  (forall acc x s acc' s', x ∈ l ->
     step acc x env s = Done acc' s' -> P acc s -> P acc' s') ->
  P acc s -> P acc' s'.
Proof.
  induction l as [|x l IH]; cbn [foldM]; intros acc s acc' s' Hrun Hstep HP.
  - apply ret_Done in Hrun as [-> ->]. done.
  - apply bind_Done in Hrun as (acc1 & s1 & Hx & Hl).
    eapply IH; [done| |eapply Hstep; [|done..]; set_solver].
    intros. eapply Hstep; [|done..]. set_solver.
Qed.

(** Progress: running a computation whose steps all succeed. *)
Lemma bind_total {A B} (m : M S E A) (k : A -> M S E B) env s a s1 (P : outcome S E B -> Prop) :
  m env s = Done a s1 -> P (k a env s1) -> P ((m ≫= k) env s).
Proof. intros Hm. unfold mbind, M_bind. by rewrite Hm. Qed.

Lemma throw_if_ok c e env s : c = false -> throw_if (S := S) c e env s = Done tt s.
Proof. by intros ->. Qed.

Lemma ok_or_ok {A} (o : option A) e a env s :
  o = Some a -> ok_or (S := S) o e env s = Done a s.
Proof. by intros ->. Qed.

Lemma unwrap_ok {A} (o : option A) a env s :
  o = Some a -> unwrap (S := S) (E := E) o env s = Done a s.
Proof. by intros ->. Qed.

Lemma require_auth_ok a env s :
  a ∈ auths env -> require_auth (S := S) (E := E) a env s = Done tt s.
Proof. intros. unfold require_auth. by rewrite bool_decide_true. Qed.

Lemma when_throw_if_ok {A} b (o : option A) e1 (test : A -> bool) e2 env s :
  (b = true -> exists x, o = Some x /\ test x = false) ->
  when (S := S) b (x ← ok_or o e1; throw_if (test x) e2) env s = Done tt s.
Proof. intros. by apply when_throw_if_Done. Qed.

Lemma returned_invoke {A} (m : M S E A) env s a :
  returned m env s = Some a -> m env s = Done a (invoke m env s).
Proof. unfold returned, invoke. destruct (m env s); naive_solver. Qed.

(** What the ledger holds, by cases on the outcome. *)
Lemma invoke_cases {A} (m : M S E A) env s (P : S -> Prop) :
  P s -> (forall a s', m env s = Done a s' -> P s') -> P (invoke m env s).
Proof. intros Hs Hd. unfold invoke. destruct (m env s); eauto. Qed.

Lemma invoke_pres {A} (m : M S E A) env s (P : S -> Prop) :
  (forall s a s', P s -> m env s = Done a s' -> P s') -> P s -> P (invoke m env s).
Proof. intros Hm Hs. apply invoke_cases; eauto. Qed.
End Inversion.

(** [run_step] runs the first step of the computation in the goal; the side
    condition of a test, an option or an authorisation is left as a goal. *)
Ltac run_step :=
  match goal with
  | |- context [(gets ?f ≫= ?k) ?env ?s] =>
      change ((gets f ≫= k) env s) with (k (f s) env s); cbv beta
  | |- context [(modify ?f ≫= ?k) ?env ?s] =>
      change ((modify f ≫= k) env s) with (k tt env (f s)); cbv beta
  | |- context [(ledger_timestamp ≫= ?k) ?env ?s] =>
      change ((ledger_timestamp ≫= k) env s) with (k (timestamp env) env s); cbv beta
  | |- context [(throw_if _ _ ≫= _) _ _] => eapply bind_total; [apply throw_if_ok|]
  | |- context [(ok_or _ _ ≫= _) _ _] => eapply bind_total; [apply ok_or_ok|]
  | |- context [(unwrap _ ≫= _) _ _] => eapply bind_total; [apply unwrap_ok|]
  | |- context [(require_auth _ ≫= _) _ _] => eapply bind_total; [apply require_auth_ok|]
  | |- context [(when _ (ok_or _ _ ≫= _) ≫= _) _ _] =>
      eapply bind_total; [apply when_throw_if_ok|]
  end.

Lemma zoom_Done {W S E A} (get : W -> S) put (m : M S E A) env w a w' :
  zoom get put m env w = Done a w' <->
  exists s, m env (get w) = Done a s /\ w' = put s w.
Proof. unfold zoom. destruct (m env (get w)); naive_solver. Qed.

(** [exec] decomposes the successful runs [H : m env s = Done a s'] of the
    context into what every primitive of them did. *)
Ltac exec1 :=
  match goal with
  | H : (?m ≫= ?k) ?env ?s = Done _ _ |- _ =>
      let a := fresh "a" in let s1 := fresh "s" in let H1 := fresh "Hrun" in
      apply bind_Done in H as (a & s1 & H1 & H)
  | H : (mret _) _ _ = Done _ _ |- _ => apply ret_Done in H as [? ?]
  | H : gets _ _ _ = Done _ _ |- _ => apply gets_Done in H as [? ?]
  | H : modify _ _ _ = Done _ _ |- _ => apply modify_Done in H
  | H : throw _ _ _ = Done _ _ |- _ => apply throw_Done in H; destruct H
  | H : panic _ _ = Done _ _ |- _ => apply panic_Done in H; destruct H
  | H : throw_if _ _ _ _ = Done _ _ |- _ => apply throw_if_Done in H as [? ?]
  | H : panic_if _ _ _ = Done _ _ |- _ => apply panic_if_Done in H as [? ?]
  | H : ok_or _ _ _ _ = Done _ _ |- _ => apply ok_or_Done in H as [? ?]
  | H : unwrap _ _ _ = Done _ _ |- _ => apply unwrap_Done in H as [? ?]
  | H : unwrap_result _ _ _ = Done _ _ |- _ => rewrite unwrap_result_Done in H
  | H : require_auth _ _ _ = Done _ _ |- _ => apply require_auth_Done in H as [? ?]
  | H : ledger_timestamp _ _ = Done _ _ |- _ => apply ledger_timestamp_Done in H as [? ?]
  | H : contract_address _ _ = Done _ _ |- _ => apply contract_address_Done in H as [? ?]
  | H : zoom _ _ _ _ _ = Done _ _ |- _ => apply zoom_Done in H as (? & H & ?)
  | H : when _ (ok_or _ _ ≫= _) _ _ = Done _ _ |- _ =>
      apply when_throw_if_Done in H as [? ?]
  | H : when _ (gets _ ≫= _) _ _ = Done _ _ |- _ =>
      rewrite when_gets in H; cbv beta in H
  | H : when _ (modify _) _ _ = Done _ _ |- _ => apply when_modify_Done in H
  | H : add_ _ _ _ _ _ = Done _ _ |- _ => apply add_Done in H as (? & ? & ?)
  | H : sub_ _ _ _ _ _ = Done _ _ |- _ => apply sub_Done in H as (? & ? & ?)
  | H : mul_ _ _ _ _ _ = Done _ _ |- _ => apply mul_Done in H as (? & ? & ?)
  | H : checked_add _ _ _ = Some _ |- _ => apply checked_Some in H as [? ?]
  | H : checked_sub _ _ _ = Some _ |- _ => apply checked_Some in H as [? ?]
  | H : checked_mul _ _ _ = Some _ |- _ => apply checked_Some in H as [? ?]
  | H : checked _ _ = Some _ |- _ => apply checked_Some in H as [? ?]
  | H : ?x = ?y |- _ => is_var x; subst x
  | H : ?x = ?y |- _ => is_var y; subst y
  end.
Ltac exec := repeat exec1.

(** The results of type [unit]. *)
Ltac unit_vars := repeat match goal with u : unit |- _ => destruct u end.

(** ** Footprints

    [respects R m]: a successful run of [m] moves the storage along [R].  For a
    preorder the judgement is syntax directed; [frame] applies its rules and
    leaves the writes. *)
Section Respects.
Context {S E : Type} (R : S -> S -> Prop) `{!PreOrder R}.

Definition respects {A} (m : M S E A) : Prop :=
  forall env s a s', m env s = Done a s' -> R s s'.

Lemma respects_bind {A B} (m : M S E A) (k : A -> M S E B) :
  respects m -> (forall a, respects (k a)) -> respects (m ≫= k).
Proof.
  intros Hm Hk env s b s' (a & s1 & H1 & H2)%bind_Done. etrans; [by eapply Hm|by eapply Hk].
Qed.

Lemma respects_modify f : (forall s, R s (f s)) -> respects (modify f).
Proof. intros Hf env s u s' ->%modify_Done. apply Hf. Qed.

(** Computations that only read. *)
Definition reads {A} (m : M S E A) : Prop := forall env s a s', m env s = Done a s' -> s' = s.

Lemma respects_reads {A} (m : M S E A) : reads m -> respects m.
Proof. intros Hm env s a s' ->%Hm. reflexivity. Qed.

Lemma respects_when b m : respects m -> respects (when b m).
Proof.
  destruct b; [done|]. intros _ env s u s' H. inversion H. reflexivity.
Qed.

Lemma respects_unwrap_result {A} (m : M S E A) : respects m -> respects (unwrap_result m).
Proof. intros Hm env s a s'. rewrite unwrap_result_Done. apply Hm. Qed.

Lemma respects_foldM {A B} (step : B -> A -> M S E B) :
  (forall acc x, respects (step acc x)) -> forall l acc, respects (foldM step acc l).
Proof.
  intros Hstep l acc env s acc' s' Hrun.
  apply (foldM_inv (fun _ s1 => R s s1) _ _ _ _ _ _ _ Hrun); [|reflexivity].
  intros acc1 x s1 acc2 s2 _ H1 H2. etrans; [done|]. by eapply Hstep.
Qed.
End Respects.

Section Reads.
Context {S E : Type}.
Lemma reads_ret {A} (a : A) : reads (S := S) (E := E) (mret a).
Proof. intros env s b s' H. by inversion H. Qed.
Lemma reads_gets {A} (f : S -> A) : reads (E := E) (gets f).
Proof. intros env s b s' H. by inversion H. Qed.
Lemma reads_throw {A} (e : E) : reads (S := S) (A := A) (throw e).
Proof. intros env s b s' H. by inversion H. Qed.
Lemma reads_panic {A} : reads (S := S) (E := E) (A := A) panic.
Proof. intros env s b s' H. by inversion H. Qed.
Lemma reads_throw_if b (e : E) : reads (S := S) (throw_if b e).
Proof. by intros env s u s' [_ ?]%throw_if_Done. Qed.
Lemma reads_panic_if b : reads (S := S) (E := E) (panic_if b).
Proof. by intros env s u s' [_ ?]%panic_if_Done. Qed.
Lemma reads_ok_or {A} (o : option A) (e : E) : reads (S := S) (ok_or o e).
Proof. by intros env s u s' [_ ?]%ok_or_Done. Qed.
Lemma reads_unwrap {A} (o : option A) : reads (S := S) (E := E) (unwrap o).
Proof. by intros env s u s' [_ ?]%unwrap_Done. Qed.
Lemma reads_require_auth a : reads (S := S) (E := E) (require_auth a).
Proof. by intros env s u s' [_ ?]%require_auth_Done. Qed.
Lemma reads_ledger_timestamp : reads (S := S) (E := E) ledger_timestamp.
Proof. by intros env s u s' [_ ?]%ledger_timestamp_Done. Qed.
Lemma reads_contract_address : reads (S := S) (E := E) contract_address.
Proof. by intros env s u s' [_ ?]%contract_address_Done. Qed.
Lemma reads_add t x y : reads (S := S) (E := E) (add_ t x y).
Proof. by intros env s u s' (_ & _ & ?)%add_Done. Qed.
Lemma reads_sub t x y : reads (S := S) (E := E) (sub_ t x y).
Proof. by intros env s u s' (_ & _ & ?)%sub_Done. Qed.
Lemma reads_mul t x y : reads (S := S) (E := E) (mul_ t x y).
Proof. by intros env s u s' (_ & _ & ?)%mul_Done. Qed.
End Reads.
Create HintDb reads.
#[export] Hint Resolve reads_ret reads_gets reads_throw reads_panic reads_throw_if reads_panic_if
  reads_ok_or reads_unwrap reads_require_auth reads_ledger_timestamp reads_contract_address
  reads_add reads_sub reads_mul : reads.

Lemma respects_zoom {W S E A} (R : W -> W -> Prop) (Q : S -> S -> Prop) get put (m : M S E A) :
  respects Q m -> (forall w s, Q (get w) s -> R w (put s w)) -> respects R (zoom get put m).
Proof. intros Hm Hput env w a w' (s & H & ->)%zoom_Done. apply Hput. by eapply Hm. Qed.

(** The preorder of a part of the storage that stays as it is. *)
Definition keeps {S V} (f : S -> V) (s s' : S) : Prop := f s' = f s.

#[export] Instance keeps_preorder {S V} (f : S -> V) : PreOrder (keeps f).
Proof. unfold keeps. split; [done|]. intros x y z H1 H2. by rewrite H2. Qed.

(** A property that is kept. *)
Definition pres {S} (P : S -> Prop) (s s' : S) : Prop := P s -> P s'.

#[export] Instance pres_preorder {S} (P : S -> Prop) : PreOrder (pres P).
Proof. unfold pres. split; [intros s; tauto|intros s1 s2 s3; tauto]. Qed.

Lemma respects_impl {S E A} (R1 R2 : S -> S -> Prop) (m : M S E A) :
  (forall s s', R1 s s' -> R2 s s') -> respects R1 m -> respects R2 m.
Proof. intros HR Hm env s a s' Hrun. eapply HR, Hm, Hrun. Qed.

(** The storage of a contract next to the rest of the world. *)
Definition along {S T} (R : S -> S -> Prop) (w w' : S * T) : Prop := R w.1 w'.1.

#[export] Instance along_preorder {S T} (R : S -> S -> Prop) :
  PreOrder R -> PreOrder (along (T := T) R).
Proof. intros [HR HT]. unfold along. split; [intros w; apply HR|intros w1 w2 w3; apply HT]. Qed.

Lemma respects_along {S T E A} (R : S -> S -> Prop) (m : M S E A) :
  respects R m -> respects (along (T := T) R) (zoom fst (fun s w => (s, w.2)) m).
Proof. intros Hm. eapply respects_zoom; [exact Hm|]. by intros [s t] s'. Qed.

Lemma foldl_along {S A} (R : S -> S -> Prop) `{!PreOrder R} (f : S -> A -> S) :
  (forall s x, R s (f s x)) -> forall l s, R s (foldl f s l).
Proof.
  intros Hf l. induction l as [|x l IH]; intros s; cbn; [reflexivity|].
  etrans; [apply Hf|apply IH].
Qed.

Ltac unfold_head m :=
  lazymatch m with
  | ?f _ => unfold_head f
  | ?f => unfold f
  end.

Ltac frame1 :=
  lazymatch goal with
  | |- respects _ (_ ≫= _) => apply respects_bind; [typeclasses eauto| |intros ?]
  | |- respects _ (modify _) => apply respects_modify; intros ?
  | |- respects _ (when _ _) => apply respects_when; [typeclasses eauto|]
  | |- respects _ (unwrap_result _) => apply respects_unwrap_result
  | |- respects _ (foldM _ _ _) => apply respects_foldM; [typeclasses eauto|intros ? ?]
  | |- respects _ (match ?x with _ => _ end) => destruct x
  | |- respects _ (let x := _ in _) => cbv zeta
  | |- respects _ _ => apply respects_reads; [typeclasses eauto|solve [eauto 1 with reads nocore]]
  end.

(** ** Histories

    The states a contract passes through under successful calls of type [C]. *)
Section Histories.
Context {C S E : Type} (run : C -> M S E unit).

Inductive history (ok : C -> Env -> S -> Prop) (s0 : S) : S -> Prop :=
  | history_nil : history ok s0 s0
  | history_call c env s s' :
      history ok s0 s -> ok c env s -> run c env s = Done tt s' -> history ok s0 s'.

Lemma history_inv (P : S -> Prop) ok s0 s :
  P s0 -> (forall c env s s', ok c env s -> run c env s = Done tt s' -> P s -> P s') ->
  history ok s0 s -> P s.
Proof. intros H0 Hstep. induction 1; eauto. Qed.

(** Running a list of calls. *)
Fixpoint run_all (calls : list (Env * C)) (s : S) : option S :=
  match calls with
  | [] => Some s
  | (env, c) :: calls =>
      match run c env s with Done _ s' => run_all calls s' | Fail _ | Trap => None end
  end.

Lemma run_all_history ok calls : forall s0 s s',
  (forall env c s, (env, c) ∈ calls -> ok c env s) ->
  history ok s0 s -> run_all calls s = Some s' -> history ok s0 s'.
Proof.
  induction calls as [|[env c] calls IH]; cbn; intros s0 s s' Hok Hh Hrun.
  - by injection Hrun as <-.
  - destruct (run c env s) as [[] s1|e|] eqn:H1; [|done..].
    eapply IH; [|eapply history_call; [exact Hh|apply Hok; by left|exact H1]|exact Hrun].
    intros env' c' s2 Hin. apply Hok. by right.
Qed.
End Histories.
