(* ===== verification/Token.v ===== *)
(** * Token contracts (SEP-41)

    The contracts call token contracts through [soroban_sdk::token::Client].
    A token contract is not part of the repository: [Token] is the interface
    the contracts use, over the state [T] of all token contracts, and
    [TokenLaws] is the documented SEP-41 behaviour the theorems rely on.  A
    call that the token rejects traps.  [Ledger] is a plain implementation
    that satisfies the laws. *)

From stdpp Require Import base tactics numbers list strings gmap.
From S2P Require Import Prelude.

Class Token (T : Type) := {
  balance : T -> Address -> Address -> Z;
  transfer : Address -> Address -> Address -> Z -> T -> option T;
  transfer_from : Address -> Address -> Address -> Address -> Z -> T -> option T;
}.

(** What a move of [amount] units of [token] adds to the balance of [a] in the
    token [tk]. *)
Definition moved (token from to : Address) (amount : Z) (tk a : Address) : Z :=
  (if bool_decide (tk = token /\ a = to) then amount else 0)
  - (if bool_decide (tk = token /\ a = from) then amount else 0).

Class TokenLaws (T : Type) `{Token T} := {
  transfer_law token from to amount (t t' : T) :
    transfer token from to amount t = Some t' ->
    0 <= amount <= balance t token from /\
    forall tk a, balance t' tk a = balance t tk a + moved token from to amount tk a;
  transfer_from_law token spender from to amount (t t' : T) :
    transfer_from token spender from to amount t = Some t' ->
    0 <= amount <= balance t token from /\
    forall tk a, balance t' tk a = balance t tk a + moved token from to amount tk a;
}.

(** ** A concrete ledger *)
Record Ledger := mkLedger {
  balances : gmap (Address * Address) Z;
  allowances : gmap (Address * Address * Address) Z;
}.

Module Ledger.
Definition bal (t : Ledger) (token a : Address) : Z :=
  default 0 (balances t !! (token, a)).

Definition move (token from to : Address) (amount : Z) (t : Ledger) : option Ledger :=
  if (0 <=? amount) && (amount <=? bal t token from) then
    let b := <[(token, from) := bal t token from - amount]> (balances t) in
    let c := default 0 (b !! (token, to)) in
    Some (mkLedger (<[(token, to) := c + amount]> b) (allowances t))
  else None.

Definition move_from (token spender from to : Address) (amount : Z) (t : Ledger)
    : option Ledger :=
  let al := default 0 (allowances t !! (token, from, spender)) in
  if amount <=? al then
    move token from to amount
      (mkLedger (balances t) (<[(token, from, spender) := al - amount]> (allowances t)))
  else None.

Lemma move_law token from to amount (t t' : Ledger) :
  move token from to amount t = Some t' ->
  0 <= amount <= bal t token from /\
  forall tk a, bal t' tk a = bal t tk a + moved token from to amount tk a.
Proof.
  unfold move. case_match eqn:Hc; [|done]. bools. intros [= <-].
  split; [lia|]. intros tk a. unfold bal at 1. cbn [balances].
  destruct (decide ((tk, a) = (token, to))) as [[= -> ->]|Hto].
  - rewrite lookup_insert_eq. cbn. unfold moved. rewrite bool_decide_true by done.
    destruct (decide (to = from)) as [->|Hft].
    + rewrite lookup_insert_eq, bool_decide_true by done. cbn. lia.
    + rewrite lookup_insert_ne, bool_decide_false by naive_solver. unfold bal. lia.
  - rewrite lookup_insert_ne by done. unfold moved.
    rewrite bool_decide_false by naive_solver.
    destruct (decide ((tk, a) = (token, from))) as [[= -> ->]|Hfr].
    + rewrite lookup_insert_eq, bool_decide_true by done. cbn. lia.
    + rewrite lookup_insert_ne, bool_decide_false by naive_solver. unfold bal. lia.
Qed.
End Ledger.

#[export] Instance Ledger_Token : Token Ledger := {
  balance := Ledger.bal;
  transfer := Ledger.move;
  transfer_from := Ledger.move_from;
}.

#[export] Instance Ledger_laws : TokenLaws Ledger.
Proof.
  split; cbn; [apply Ledger.move_law|].
  intros token spender from to amount t t'. unfold Ledger.move_from.
  case_match; [|done]. intros ?%Ledger.move_law. done.
Qed.

(** Tokens that execute every covered transfer (no frozen balances). *)
Class TokenTotal (T : Type) `{Token T} :=
  transfer_total token from to amount (t : T) :
    0 <= amount <= balance t token from -> is_Some (transfer token from to amount t).

#[export] Instance Ledger_total : TokenTotal Ledger.
Proof.
  intros token from to amount t Hamount. cbn in *. unfold Ledger.move.
  case_match eqn:Hc; [done|]. bools. lia.
Qed.
