(* ===== verification/Sharded.v ===== *)
(** * Sharded indexes

    The contracts keep long lists in buckets ("shards") of a fixed size, with
    a separate element counter: the organizer's events, the organizer's
    receipts and the voters of a dispute in the event registry.  [Index] holds
    the two families of storage keys of such a list, [shards] for
    [...Shard(key, i)] and [counts] for [...Count(key)]; [push], [to_list] and
    [remove] are the code shared by all of them. *)

From stdpp Require Import base tactics numbers list strings gmap.
From S2P Require Import Prelude.

Record Index (K V : Type) `{Countable K} := mkIndex {
  shards : gmap (K * Z) (list V);
  counts : gmap K Z;
}.
Arguments mkIndex {K V _ _} shards counts.
Arguments shards {K V _ _} i.
Arguments counts {K V _ _} i.

Definition empty_index {K V} `{Countable K} : Index K V := mkIndex ∅ ∅.

Section Sharded.
Context {K V : Type} `{Countable K} `{EqDecision V}.
Variable SHARD_SIZE : Z.
Implicit Types (idx : Index K V) (k : K) (v : V).

Definition count idx k : Z := default 0 (counts idx !! k).

Definition shard idx k (i : Z) : list V := default [] (shards idx !! (k, i)).

(** Append to the shard [count / SHARD_SIZE]; [None] when the [u32] counter
    overflows. *)
Definition push k v idx : option (Index K V) :=
  let c := count idx k in
  let shard_id := c / SHARD_SIZE in
  c' ← checked_add U32 c 1;
  Some (mkIndex (<[(k, shard_id) := shard idx k shard_id ++ [v]]> (shards idx))
                (<[k := c']> (counts idx))).

(** Concatenate the shards [0 .. ceil(count / SHARD_SIZE)). *)
Definition to_list idx k : list V :=
  if count idx k =? 0 then []
  else mjoin (shard idx k <$> seqZ 0 (div_ceil (count idx k) SHARD_SIZE)).

(** The loop of the removal: the first shard that holds [v] loses it. *)
Fixpoint remove_loop k v (ids : list Z) idx : option (Index K V) :=
  match ids with
  | [] => None
  | i :: ids =>
      if bool_decide (v ∈ shard idx k i)
      then Some (mkIndex (<[(k, i) := filter (.≠ v) (shard idx k i)]> (shards idx))
                         (counts idx))
      else remove_loop k v ids idx
  end.

Definition remove k v idx : Index K V :=
  let c := count idx k in
  if c =? 0 then idx
  else match remove_loop k v (seqZ 0 (div_ceil c SHARD_SIZE)) idx with
       | Some idx' => mkIndex (shards idx') (<[k := c - 1]> (counts idx'))
       | None => idx
       end.

(** ** Append-only use: a refinement of the plain list *)

(** The index is the list [l] cut into full shards. *)
Definition dense idx k (l : list V) : Prop :=
  count idx k = len l /\
  forall i, 0 <= i ->
    shard idx k i = take (Z.to_nat SHARD_SIZE) (drop (Z.to_nat (i * SHARD_SIZE)) l).

Hypothesis SHARD_SIZE_pos : 0 < SHARD_SIZE.

Lemma dense_empty k : dense empty_index k [].
Proof.
  split; [done|]. intros i Hi. rewrite drop_nil, take_nil. done.
Qed.

Lemma shards_join idx k l m :
  dense idx k l ->
  mjoin (shard idx k <$> seqZ 0 (Z.of_nat m))
  = take (m * Z.to_nat SHARD_SIZE) l.
Proof.
  intros [_ Hsh]. induction m as [|m IH]; [done|].
  rewrite seqZ_S, fmap_app, join_app, IH. cbn.
  rewrite Hsh, app_nil_r by lia.
  replace (Z.to_nat ((0 + Z.of_nat m) * SHARD_SIZE)) with (m * Z.to_nat SHARD_SIZE)%nat by lia.
  rewrite take_take_drop. f_equal. lia.
Qed.

Lemma div_ceil_bound c : 0 <= c -> c <= div_ceil c SHARD_SIZE * SHARD_SIZE.
Proof.
  intros Hc. unfold div_ceil.
  pose proof (Z.div_mod (c + SHARD_SIZE - 1) SHARD_SIZE ltac:(lia)).
  pose proof (Z.mod_pos_bound (c + SHARD_SIZE - 1) SHARD_SIZE SHARD_SIZE_pos). lia.
Qed.

Lemma div_ceil_nonneg c : 0 <= c -> 0 <= div_ceil c SHARD_SIZE.
Proof. intros. unfold div_ceil. apply Z.div_pos; lia. Qed.

Lemma to_list_dense idx k l : dense idx k l -> to_list idx k = l.
Proof.
  intros Hd. pose proof Hd as [Hc _]. unfold to_list. rewrite Hc.
  case_match eqn:H0; bools.
  - by destruct l.
  - pose proof (div_ceil_bound (len l) ltac:(lia)).
    pose proof (div_ceil_nonneg (len l) ltac:(lia)).
    rewrite <- (Z2Nat.id (div_ceil _ _)) by done.
    rewrite (shards_join _ _ l) by done. apply take_ge. nia.
Qed.

Lemma push_Some k v idx idx' :
  push k v idx = Some idx' ->
  count idx k + 1 ∈ᵢ U32 /\
  idx' = mkIndex (<[(k, count idx k / SHARD_SIZE)
                    := shard idx k (count idx k / SHARD_SIZE) ++ [v]]> (shards idx))
                 (<[k := count idx k + 1]> (counts idx)).
Proof.
  unfold push. intros (c' & Hc & [= <-])%bind_Some.
  apply checked_Some in Hc as [-> ?]. done.
Qed.

Lemma push_dense k v idx idx' l :
  dense idx k l -> push k v idx = Some idx' -> dense idx' k (l ++ [v]).
Proof.
  intros [Hc Hsh] (_ & ->)%push_Some. split.
  - unfold count at 1. cbn. rewrite lookup_insert_eq, length_app, Hc. cbn. lia.
  - intros i Hi. unfold shard at 1. cbn [shards]. rewrite Hc.
    set (n := Z.to_nat SHARD_SIZE). pose proof (Z.div_mod (len l) SHARD_SIZE).
    pose proof (Z.mod_pos_bound (len l) SHARD_SIZE SHARD_SIZE_pos).
    destruct (decide (i = len l / SHARD_SIZE)) as [->|Hne].
    + rewrite lookup_insert_eq. cbn. rewrite Hsh by done.
      rewrite drop_app_le by lia. rewrite !take_ge; [done|..];
        rewrite ?length_app, ?length_drop; cbn; lia.
    + rewrite lookup_insert_ne by naive_solver.
      change (default [] _) with (shard idx k i). rewrite Hsh by done.
      destruct (decide (i < len l / SHARD_SIZE)).
      * rewrite drop_app_le, take_app_le by (rewrite ?length_drop; nia). done.
      * rewrite !drop_ge; [done|rewrite length_app; cbn; nia|nia].
Qed.

Lemma push_other k k' v idx idx' :
  push k v idx = Some idx' -> k' ≠ k ->
  count idx' k' = count idx k' /\ forall i, shard idx' k' i = shard idx k' i.
Proof.
  intros (_ & ->)%push_Some Hk. unfold count, shard. cbn. split.
  - by rewrite lookup_insert_ne.
  - intros i. rewrite lookup_insert_ne; naive_solver.
Qed.

(** ** Visibility, with removals *)

Lemma elem_of_to_list idx k w :
  0 <= count idx k ->
  w ∈ to_list idx k <->
  exists i, 0 <= i < div_ceil (count idx k) SHARD_SIZE /\ w ∈ shard idx k i.
Proof.
  intros Hc. unfold to_list. case_match eqn:H0; bools.
  - rewrite H0. split; [set_solver|]. intros (i & Hi & _). exfalso.
    unfold div_ceil in Hi. rewrite Z.div_small in Hi; lia.
  - rewrite list_elem_of_join. setoid_rewrite list_elem_of_fmap.
    setoid_rewrite elem_of_seqZ. naive_solver lia.
Qed.

Lemma div_ceil_mono c d : c <= d -> div_ceil c SHARD_SIZE <= div_ceil d SHARD_SIZE.
Proof. intros. unfold div_ceil. apply Z.div_le_mono; lia. Qed.

Lemma div_lt_div_ceil c : 0 <= c -> c / SHARD_SIZE < div_ceil (c + 1) SHARD_SIZE.
Proof.
  intros. unfold div_ceil. replace (c + 1 + SHARD_SIZE - 1) with (c + 1 * SHARD_SIZE) by lia.
  rewrite Z.div_add by lia. lia.
Qed.

(** A pushed element is listed, and nothing that was listed disappears. *)
Lemma push_visible k v idx idx' :
  0 <= count idx k -> push k v idx = Some idx' ->
  v ∈ to_list idx' k /\ forall w, w ∈ to_list idx k -> w ∈ to_list idx' k.
Proof.
  intros Hc (_ & ->)%push_Some.
  pose proof (div_ceil_mono (count idx k) (count idx k + 1) ltac:(lia)).
  pose proof (div_lt_div_ceil (count idx k) Hc).
  pose proof (Z.div_pos (count idx k) SHARD_SIZE Hc SHARD_SIZE_pos).
  set (idx' := mkIndex _ _).
  assert (count idx' k = count idx k + 1) as Hc'
    by (unfold count, idx'; cbn; by rewrite lookup_insert_eq).
  split.
  - rewrite elem_of_to_list, Hc' by lia. exists (count idx k / SHARD_SIZE). split; [lia|].
    unfold shard at 1, idx'. cbn. rewrite lookup_insert_eq. set_solver.
  - intros w. rewrite !elem_of_to_list by lia. intros (i & Hi & Hw).
    rewrite Hc'. exists i. split; [lia|]. unfold shard, idx'. cbn.
    destruct (decide (i = count idx k / SHARD_SIZE)) as [->|Hne].
    + rewrite lookup_insert_eq. cbn. set_solver.
    + rewrite lookup_insert_ne by naive_solver. done.
Qed.

Lemma div_ceil_pred c :
  0 < c -> (c - 1) mod SHARD_SIZE <> 0 ->
  div_ceil (c - 1) SHARD_SIZE = div_ceil c SHARD_SIZE.
Proof.
  intros Hc Hmod. unfold div_ceil.
  pose proof (Z.mod_pos_bound (c - 1) SHARD_SIZE SHARD_SIZE_pos).
  pose proof (Z.div_mod (c - 1) SHARD_SIZE ltac:(lia)).
  set (q := (c - 1) / SHARD_SIZE) in *. set (r := (c - 1) mod SHARD_SIZE) in *.
  transitivity (q + 1); [symmetry|];
    [apply Z.div_unique_pos with (r := r - 1)|apply Z.div_unique_pos with (r := r)]; lia.
Qed.

Lemma remove_loop_spec k v ids idx :
  match remove_loop k v ids idx with
  | Some idx' => exists i, i ∈ ids /\ v ∈ shard idx k i /\
      idx' = mkIndex (<[(k, i) := filter (.≠ v) (shard idx k i)]> (shards idx))
                     (counts idx)
  | None => forall i, i ∈ ids -> v ∉ shard idx k i
  end.
Proof.
  induction ids as [|i ids IH]; cbn; [set_solver|].
  case_bool_decide; [set_solver|].
  destruct (remove_loop k v ids idx); set_solver.
Qed.

Lemma remove_absent k v idx :
  0 <= count idx k -> v ∉ to_list idx k -> remove k v idx = idx.
Proof.
  intros Hc Hv. rewrite elem_of_to_list in Hv by done. unfold remove.
  case_match eqn:H0; [done|].
  pose proof (remove_loop_spec k v (seqZ 0 (div_ceil (count idx k) SHARD_SIZE)) idx) as Hl.
  destruct (remove_loop _ _ _ _) as [idx2|]; [|done]. destruct Hl as (j & Hj%elem_of_seqZ & ? & _).
  exfalso. apply Hv. exists j. split; [lia|done].
Qed.

Lemma remove_present k v idx :
  0 <= count idx k -> v ∈ to_list idx k ->
  exists i, 0 <= i < div_ceil (count idx k) SHARD_SIZE /\ v ∈ shard idx k i /\
    remove k v idx
    = mkIndex (<[(k, i) := filter (.≠ v) (shard idx k i)]> (shards idx))
              (<[k := count idx k - 1]> (counts idx)).
Proof.
  intros Hc Hv. unfold remove. case_match eqn:H0; bools.
  { unfold to_list in Hv. rewrite H0 in Hv. cbn in Hv. set_solver. }
  rewrite elem_of_to_list in Hv by done.
  pose proof (remove_loop_spec k v (seqZ 0 (div_ceil (count idx k) SHARD_SIZE)) idx) as Hl.
  destruct (remove_loop _ _ _ _) as [idx2|].
  - destruct Hl as (j & Hj%elem_of_seqZ & ? & ->). exists j.
    split; [lia|]. split; [done|]. done.
  - destruct Hv as (i & Hi & Hvi). exfalso. apply (Hl i); [|done].
    apply elem_of_seqZ. lia.
Qed.

(** Removing within the last shard boundary is exact: when the number of
    shards does not change, exactly the removed element disappears. *)
Lemma remove_exact k v idx :
  0 <= count idx k -> v ∈ to_list idx k -> NoDup (to_list idx k) ->
  (count idx k - 1) mod SHARD_SIZE <> 0 ->
  to_list (remove k v idx) k = filter (.≠ v) (to_list idx k).
Proof.
  intros Hc Hv Hnd Hmod. destruct (remove_present k v idx Hc Hv) as (i & Hi & Hvi & ->).
  set (idx' := mkIndex _ _).
  assert (count idx' k = count idx k - 1) as Hc'
    by (unfold count, idx'; cbn; by rewrite lookup_insert_eq).
  unfold to_list. rewrite Hc'.
  assert (count idx k <> 0) by (intros Hz; rewrite Hz in Hi; unfold div_ceil in Hi;
    rewrite Z.div_small in Hi; lia).
  assert (count idx k - 1 <> 0) by (intros Hz; rewrite Hz, Z.mod_0_l in Hmod; lia).
  rewrite (proj2 (Z.eqb_neq _ _)), (proj2 (Z.eqb_neq (count idx k) 0)) by done.
  assert (div_ceil (count idx k - 1) SHARD_SIZE = div_ceil (count idx k) SHARD_SIZE) as ->
    by (apply div_ceil_pred; lia).
  unfold to_list in Hnd. rewrite (proj2 (Z.eqb_neq (count idx k) 0)) in Hnd by done.
  rewrite filter_join_fmap. f_equal. apply list_fmap_ext. intros ? j Hj%list_elem_of_lookup_2.
  unfold shard at 1, idx'. cbn [shards]. destruct (decide (j = i)) as [->|Hji].
  - by rewrite lookup_insert_eq.
  - rewrite lookup_insert_ne by naive_solver.
    change (default [] _) with (shard idx k j). rewrite filter_ne_notin; [done|].
    intros Hvj. apply Hji. eapply (NoDup_join_inj (shard idx k)); eauto using NoDup_seqZ.
    apply elem_of_seqZ. lia.
Qed.

(** Removing across a shard boundary is not: when the last shard holds a single
    element, removing an element of an earlier shard makes it unreachable. *)
Lemma remove_hides_last k v w idx l m :
  dense idx k (l ++ [w]) -> len l = m * SHARD_SIZE -> 0 < m -> v ∈ l -> w ∉ l ->
  w ∉ to_list (remove k v idx) k /\ shard (remove k v idx) k m = [w].
Proof.
  intros Hd Hlen Hm Hv Hw. pose proof Hd as [Hc Hsh].
  rewrite length_app in Hc. cbn in Hc.
  assert (forall i, 0 <= i < m -> forall x, x ∈ shard idx k i -> x ∈ l) as Hsub.
  { intros i Hi x. rewrite Hsh by lia. rewrite drop_app_le, take_app_le
      by (rewrite ?length_drop; nia).
    intros Hx%subseteq_take%subseteq_drop. done. }
  assert (shard idx k m = [w]) as Hlast.
  { rewrite Hsh by lia. rewrite drop_app_ge by nia.
    replace (Z.to_nat (m * SHARD_SIZE) - length l)%nat with 0%nat by nia.
    rewrite take_ge; [done|]. cbn. lia. }
  destruct (remove_present k v idx) as (i & Hi & Hvi & ->).
  { rewrite Hc. lia. }
  { rewrite (to_list_dense _ _ _ Hd). set_solver. }
  assert (i <> m) as Him.
  { intros ->. rewrite Hlast in Hvi. apply list_elem_of_singleton in Hvi. congruence. }
  set (idx' := mkIndex _ _).
  assert (count idx' k = m * SHARD_SIZE) as Hc'.
  { unfold count, idx'. cbn [counts]. rewrite lookup_insert_eq. cbn. lia. }
  assert (forall j, j <> i -> shard idx' k j = shard idx k j) as Hother.
  { intros j Hj. unfold shard, idx'. cbn [shards]. rewrite lookup_insert_ne; [done|].
    congruence. }
  split; [|by rewrite Hother].
  rewrite elem_of_to_list, Hc' by nia. intros (j & Hj & Hwj).
  assert (j < m) as Hjm.
  { unfold div_ceil in Hj. rewrite <- Z.add_sub_assoc, Z.add_comm, Z.div_add in Hj by lia.
    rewrite Z.div_small in Hj; lia. }
  destruct (decide (j = i)) as [->|Hji].
  - unfold shard, idx' in Hwj. cbn [shards] in Hwj. rewrite lookup_insert_eq in Hwj.
    cbn in Hwj. apply list_elem_of_filter in Hwj as [_ Hwj].
    apply Hw, (Hsub i); [lia|done].
  - rewrite Hother in Hwj by done. apply Hw, (Hsub j); [lia|done].
Qed.
End Sharded.
