(* ===== verification/RegistryTypes.v ===== *)
(** * Event registry: data types

    The contract types of [event_registry/src/types.rs], the error enum of
    [error.rs], the events of [topics.rs] and [events.rs] and the structs of
    [bridge.rs].  Fields carry a prefix for their struct ([ev_] for
    [EventInfo], [tier_] for [TicketTier], ...); integers are [Z] at the widths
    the comments name. *)

From stdpp Require Import base tactics numbers list strings gmap.
From S2P Require Import Prelude.

(** ** Errors *)
Inductive EventRegistryError :=
  | EventAlreadyExists | EventNotFound | Unauthorized | InvalidAddress
  | InvalidFeePercent | EventInactive | NotInitialized | AlreadyInitialized
  | InvalidMetadataCid | MaxSupplyExceeded | SupplyOverflow
  | TierLimitExceeds | TierNotFound | TierSoldOut | SupplyUnderflow
  | InvalidQuantity | OrganizerBlacklisted | OrgNotBlacklisted
  | InvalidResaleCapBps | InvalidPromoBps | EventCancelled
  | EventAlreadyCanceled | InvalidGracePeriod | EventIsActive | AlreadyStaked
  | NotStaked | InvalidStakeAmount | StakingNotConfigured
  | NoRewardsAvailable | InvalidRewardAmount | InvalidThreshold
  | PropAlreadyExecuted | EventNotEnded | InvalidMilestonePlan | InvalidTags
  | ProposalExpired | MultisigError | PropAlreadyCanceled
  | PerUserLimitExceeded | InvalidDeadline | AlreadyOnWaitlist
  | NotOnWaitlist | TooManyTiers | TokenNotAccepted | DisputeNotFound
  | DisputeNotOpen | AlreadyVoted | NotTicketHolder | ReplayAttackDetected
  | InsufficientSignatures | InvalidPrice | BatchSizeExceeded.

#[export] Instance EventRegistryError_eq_dec : EqDecision EventRegistryError.
Proof. solve_decision. Defined.

(** ** Configuration *)
Record StakingConfig := mkStakingConfig {
  sc_token : option Address;
  sc_min_amount : Z; (* i128 *)
}.

Module Role.
Inductive Role := Admin | Manager | Scanner.
End Role.

(** The [repr(u32)] discriminants. *)
Definition role_id (r : Role.Role) : Z :=
  match r with Role.Admin => 1 | Role.Manager => 2 | Role.Scanner => 3 end.

Inductive Category :=
  Music | Sports | Tech | Arts | Food | Business | Health | Education | Community | Other.

Definition category_id (c : Category) : Z :=
  match c with
  | Music => 1 | Sports => 2 | Tech => 3 | Arts => 4 | Food => 5
  | Business => 6 | Health => 7 | Education => 8 | Community => 9 | Other => 10
  end.

Definition from_id (id : Z) : option Category :=
  match id with
  | 1 => Some Music | 2 => Some Sports | 3 => Some Tech | 4 => Some Arts
  | 5 => Some Food | 6 => Some Business | 7 => Some Health | 8 => Some Education
  | 9 => Some Community | 10 => Some Other | _ => None
  end.

(** ** Series *)
Record SeriesRegistry := mkSeriesRegistry {
  sr_series_id : string;
  sr_name : string;
  sr_event_ids : list string;
  sr_organizer_address : Address;
  sr_metadata_cid : option string;
}.

Record SeriesPass := mkSeriesPass {
  sp_pass_id : string;
  sp_series_id : string;
  sp_holder : Address;
  sp_usage_limit : Z; (* u32 *)
  sp_usage_count : Z; (* u32 *)
  sp_issued_at : Z; (* u64 *)
  sp_expires_at : Z; (* u64 *)
}.
#[export] Instance SeriesPass_eta : Eta SeriesPass := fun p =>
  mkSeriesPass (sp_pass_id p) (sp_series_id p) (sp_holder p) (sp_usage_limit p)
    (sp_usage_count p) (sp_issued_at p) (sp_expires_at p).

(** ** Events and tiers *)
Record AuctionConfig := mkAuctionConfig {
  auc_start_price : Z; (* i128 *)
  auc_end_time : Z; (* u64 *)
  auc_min_increment : Z; (* i128 *)
}.

Record TicketTier := mkTicketTier {
  tier_name : string;
  tier_price : Z; (* i128 *)
  tier_tier_limit : Z; (* i128 *)
  tier_current_sold : Z; (* i128 *)
  tier_is_refundable : bool;
  tier_auction_config : list AuctionConfig;
  tier_loyalty_multiplier : Z; (* u32 *)
  tier_max_per_user : Z; (* u32 *)
}.
#[export] Instance TicketTier_eta : Eta TicketTier := fun t =>
  mkTicketTier (tier_name t) (tier_price t) (tier_tier_limit t) (tier_current_sold t)
    (tier_is_refundable t) (tier_auction_config t) (tier_loyalty_multiplier t)
    (tier_max_per_user t).

Record Milestone := mkMilestone {
  ms_sales_threshold : Z; (* i128 *)
  ms_release_percent : Z; (* u32 *)
}.

Inductive EventStatus := Active | Inactive | Cancelled.

#[export] Instance EventStatus_eq_dec : EqDecision EventStatus.
Proof. solve_decision. Defined.

Definition is_cancelled (st : EventStatus) : bool :=
  match st with Cancelled => true | _ => false end.

Record EventInfo := mkEventInfo {
  ev_event_id : string;
  ev_name : string;
  ev_organizer_address : Address;
  ev_payment_address : Address;
  ev_platform_fee_percent : Z; (* u32 *)
  ev_is_active : bool;
  ev_status : EventStatus;
  ev_created_at : Z; (* u64 *)
  ev_metadata_cid : string;
  ev_max_supply : Z; (* i128 *)
  ev_current_supply : Z; (* i128 *)
  ev_milestone_plan : option (list Milestone);
  ev_tiers : gmap string TicketTier;
  ev_refund_deadline : Z; (* u64 *)
  ev_restocking_fee : Z; (* i128 *)
  ev_resale_cap_bps : option Z; (* u32 *)
  ev_is_postponed : bool;
  ev_grace_period_end : Z; (* u64 *)
  ev_min_sales_target : Z; (* i128 *)
  ev_target_deadline : Z; (* u64 *)
  ev_goal_met : bool;
  ev_custom_fee_bps : option Z; (* u32 *)
  ev_banner_cid : option string;
  ev_tags : option (list string);
  ev_category_ids : option (list Z); (* u32 *)
  ev_start_time : Z; (* u64 *)
  ev_is_private : bool;
  ev_end_time : Z; (* u64 *)
  ev_transfer_lock_duration : Z; (* u64 *)
  ev_accepted_tokens : list Address;
  ev_use_global_whitelist : bool;
  ev_feedback_cid : option string;
  ev_cancellation_reason : option string;
  ev_referral_rate_bps : Z; (* u32 *)
}.
#[export] Instance EventInfo_eta : Eta EventInfo := fun x =>
  mkEventInfo (ev_event_id x) (ev_name x) (ev_organizer_address x)
    (ev_payment_address x) (ev_platform_fee_percent x) (ev_is_active x)
    (ev_status x) (ev_created_at x) (ev_metadata_cid x) (ev_max_supply x)
    (ev_current_supply x) (ev_milestone_plan x) (ev_tiers x)
    (ev_refund_deadline x) (ev_restocking_fee x) (ev_resale_cap_bps x)
    (ev_is_postponed x) (ev_grace_period_end x) (ev_min_sales_target x)
    (ev_target_deadline x) (ev_goal_met x) (ev_custom_fee_bps x)
    (ev_banner_cid x) (ev_tags x) (ev_category_ids x) (ev_start_time x)
    (ev_is_private x) (ev_end_time x) (ev_transfer_lock_duration x)
    (ev_accepted_tokens x) (ev_use_global_whitelist x) (ev_feedback_cid x)
    (ev_cancellation_reason x) (ev_referral_rate_bps x).

Record PaymentInfo := mkPaymentInfo {
  pay_payment_address : Address;
  pay_platform_fee_percent : Z; (* u32 *)
  pay_custom_fee_bps : option Z; (* u32 *)
  pay_tiers : gmap string TicketTier;
  pay_referral_rate_bps : Z; (* u32 *)
}.

Record EventCapacity := mkEventCapacity {
  cap_max_supply : Z; (* i128 *)
  cap_current_supply : Z; (* i128 *)
  cap_available : option Z; (* i128 *)
}.

Record EventRegistrationArgs := mkEventRegistrationArgs {
  args_event_id : string;
  args_name : string;
  args_organizer_address : Address;
  args_payment_address : Address;
  args_metadata_cid : string;
  args_max_supply : Z; (* i128 *)
  args_milestone_plan : option (list Milestone);
  args_tiers : gmap string TicketTier;
  args_refund_deadline : Z; (* u64 *)
  args_restocking_fee : Z; (* i128 *)
  args_resale_cap_bps : option Z; (* u32 *)
  args_min_sales_target : option Z; (* i128 *)
  args_target_deadline : option Z; (* u64 *)
  args_banner_cid : option string;
  args_tags : option (list string);
  args_category_ids : option (list Z); (* u32 *)
  args_start_time : Z; (* u64 *)
  args_is_private : bool;
  args_end_time : Z; (* u64 *)
  args_transfer_lock_duration : Z; (* u64 *)
  args_accepted_tokens : list Address;
  args_use_global_whitelist : bool;
  args_referral_rate_bps : option Z; (* u32 *)
}.

(** ** Records kept besides events *)
Record BlacklistAuditEntry := mkBlacklistAuditEntry {
  bl_organizer_address : Address;
  bl_added_to_blacklist : bool;
  bl_admin_address : Address;
  bl_reason : string;
  bl_timestamp : Z; (* u64 *)
}.

Record EventReceipt := mkEventReceipt {
  rcpt_event_id : string;
  rcpt_organizer_address : Address;
  rcpt_total_sold : Z; (* i128 *)
  rcpt_archived_at : Z; (* u64 *)
}.

(** ** Governance *)
Record MultiSigConfig := mkMultiSigConfig {
  cfg_admins : list Address;
  cfg_threshold : Z; (* u32 *)
}.
#[export] Instance MultiSigConfig_eta : Eta MultiSigConfig := fun x =>
  mkMultiSigConfig (cfg_admins x) (cfg_threshold x).

Inductive ParameterChange :=
  | AddAdmin (addr : Address)
  | RemoveAdmin (addr : Address)
  | SetThreshold (threshold : Z) (* u32 *)
  | UpdatePlatformWallet (addr : Address)
  | SetPlatformFee (fee : Z) (* u32 *)
  | SetMinStakeAmount (amount : Z) (* i128 *).

Record Proposal := mkProposal {
  prop_proposal_id : Z; (* u64 *)
  prop_proposer : Address;
  prop_change : ParameterChange;
  prop_approvals : list Address;
  prop_executed : bool;
  prop_cancelled : bool;
  prop_created_at : Z; (* u64 *)
  prop_expires_at : Z; (* u64 *)
}.
#[export] Instance Proposal_eta : Eta Proposal := fun x =>
  mkProposal (prop_proposal_id x) (prop_proposer x) (prop_change x) (prop_approvals x)
    (prop_executed x) (prop_cancelled x) (prop_created_at x)
    (prop_expires_at x).

(** ** Loyalty and staking *)
Record GuestProfile := mkGuestProfile {
  guest_guest_address : Address;
  guest_loyalty_score : Z; (* u64 *)
  guest_total_tickets_purchased : Z; (* u32 *)
  guest_total_spent : Z; (* i128 *)
  guest_last_updated : Z; (* u64 *)
}.
#[export] Instance GuestProfile_eta : Eta GuestProfile := fun x =>
  mkGuestProfile (guest_guest_address x) (guest_loyalty_score x)
    (guest_total_tickets_purchased x) (guest_total_spent x)
    (guest_last_updated x).

Record OrganizerStake := mkOrganizerStake {
  stake_organizer : Address;
  stake_token : Address;
  stake_amount : Z; (* i128 *)
  stake_staked_at : Z; (* u64 *)
  stake_is_verified : bool;
  stake_reward_balance : Z; (* i128 *)
  stake_total_rewards_claimed : Z; (* i128 *)
}.
#[export] Instance OrganizerStake_eta : Eta OrganizerStake := fun x =>
  mkOrganizerStake (stake_organizer x) (stake_token x) (stake_amount x) (stake_staked_at x)
    (stake_is_verified x) (stake_reward_balance x)
    (stake_total_rewards_claimed x).

(** ** Disputes *)
Inductive DisputeStatus := Open | Voting | ResolvedBuyer | ResolvedOrganizer | Expired.

#[export] Instance DisputeStatus_eq_dec : EqDecision DisputeStatus.
Proof. solve_decision. Defined.

Inductive DisputeVote := BuyerFavor | OrganizerFavor.

#[export] Instance DisputeVote_eq_dec : EqDecision DisputeVote.
Proof. solve_decision. Defined.

Record Dispute := mkDispute {
  disp_event_id : string;
  disp_opened_by : Address;
  disp_opened_at : Z; (* u64 *)
  disp_closes_at : Z; (* u64 *)
  disp_status : DisputeStatus;
  disp_total_votes : Z; (* u32 *)
  disp_buyer_votes : Z; (* u32 *)
  disp_organizer_votes : Z; (* u32 *)
  disp_quorum_threshold_bps : Z; (* u32 *)
  disp_total_eligible_tickets : Z; (* i128 *)
}.
#[export] Instance Dispute_eta : Eta Dispute := fun x =>
  mkDispute (disp_event_id x) (disp_opened_by x) (disp_opened_at x)
    (disp_closes_at x) (disp_status x) (disp_total_votes x)
    (disp_buyer_votes x) (disp_organizer_votes x)
    (disp_quorum_threshold_bps x) (disp_total_eligible_tickets x).

(** ** Bridge *)
Record BridgeConfig := mkBridgeConfig {
  br_relayer_pubkeys : list Address;
  br_threshold : Z; (* u32 *)
  br_nonce : Z; (* u64 *)
}.

(** ** Published events

    One constructor per topic of [AgoraEvent], with the fields of the struct it
    is published with, in their order. *)
Module AgoraEvent.
Inductive AgoraEvent :=
  | EventRegistered (event_id : string) (organizer_address : Address)
      (payment_address : Address) (timestamp : Z)
  | EventStatusUpdated (event_id : string) (is_active : bool) (updated_by : Address)
      (timestamp : Z)
  | EventCancelled (event_id : string) (cancelled_by : Address) (timestamp : Z)
      (reason : option string)
  | FeeUpdated (new_fee_percent : Z)
  | ContractInitialized (admin_address : Address) (platform_wallet : Address)
      (platform_fee_percent : Z) (timestamp : Z)
  | ContractUpgraded (admin_address : Address) (timestamp : Z)
  | MetadataUpdated (event_id : string) (old_metadata_cid : string)
      (new_metadata_cid : string) (updated_by : Address) (timestamp : Z)
  | InventoryIncremented (event_id : string) (new_supply : Z) (timestamp : Z)
  | InventoryDecremented (event_id : string) (new_supply : Z) (timestamp : Z)
  | OrganizerBlacklisted (organizer_address : Address) (admin_address : Address)
      (reason : string) (timestamp : Z)
  | OrganizerRemovedFromBlacklist (organizer_address : Address)
      (admin_address : Address) (reason : string) (timestamp : Z)
  | EventsSuspended (organizer_address : Address) (suspended_event_count : Z)
      (admin_address : Address) (timestamp : Z)
  | GlobalPromoUpdated (global_promo_bps : Z) (promo_expiry : Z)
      (admin_address : Address) (timestamp : Z)
  | EventPostponed (event_id : string) (organizer_address : Address)
      (new_start_time : Z) (grace_period_end : Z) (timestamp : Z)
  | EventArchived (event_id : string) (organizer_address : Address) (timestamp : Z)
  | ScannerAuthorized (event_id : string) (scanner : Address)
      (authorized_by : Address) (timestamp : Z)
  | ScannerRevoked (event_id : string) (scanner : Address) (revoked_by : Address)
      (timestamp : Z)
  | GoalMet (event_id : string) (min_sales_target : Z) (current_supply : Z)
      (timestamp : Z)
  | CollateralStaked (organizer : Address) (token : Address) (amount : Z)
      (is_verified : bool) (timestamp : Z)
  | CollateralUnstaked (organizer : Address) (token : Address) (amount : Z)
      (timestamp : Z)
  | StakerRewardsDistributed (total_reward : Z) (staker_count : Z) (timestamp : Z)
  | StakerRewardsClaimed (organizer : Address) (amount : Z) (timestamp : Z)
  | LoyaltyScoreUpdated (guest : Address) (new_score : Z) (tickets_purchased : Z)
      (timestamp : Z)
  | CustomFeeSet (event_id : string) (custom_fee_bps : option Z)
      (admin_address : Address) (timestamp : Z)
  | AdminUpdated (old_admin : Address) (new_admin : Address) (timestamp : Z)
  | AdminProposed (current_admin : Address) (proposed_admin : Address)
      (timestamp : Z)
  | AdminTransferred (previous_admin : Address) (new_admin : Address)
      (timestamp : Z)
  | AdminProposalCancelled (admin : Address) (cancelled_proposed_admin : Address)
      (timestamp : Z)
  | FeedbackCidSet (event_id : string) (feedback_cid : string)
      (updated_by : Address) (timestamp : Z)
  | TokenWhitelistUpdated (event_id : string) (token : Address) (added : bool)
      (organizer_address : Address) (timestamp : Z)
  | ProposalCancelled (proposal_id : Z) (cancelled_by : Address) (timestamp : Z)
  | WaitlistJoined (event_id : string) (user : Address) (timestamp : Z)
  | WaitlistLeft (event_id : string) (user : Address) (timestamp : Z)
  | StakingTokenUpdated (old_token : option Address) (new_token : Address)
      (admin : Address)
  | MinStakeAmountUpdated (old_amount : Z) (new_amount : Z) (admin : Address)
  | DisputeOpened (event_id : string) (opened_by : Address) (timestamp : Z)
  | DisputeVoted (event_id : string) (voter : Address) (vote : DisputeVote)
      (timestamp : Z)
  | DisputeResolved (event_id : string) (status : DisputeStatus) (buyer_votes : Z)
      (organizer_votes : Z) (total_votes : Z) (timestamp : Z)
  | TicketRefunded (ticket_id : string) (event_id : string)
      (recipient_address : Address) (refund_amount : Z) (timestamp : Z).
End AgoraEvent.
