(* ===== verification/RegistryStorage.v ===== *)
(** * Event registry: storage

    The contract's storage and the functions of [event_registry/src/storage.rs],
    [bridge.rs] and [teleport.rs] that read and write it.  [State] has one field
    per [DataKey] ([k_X] for [DataKey::X]): an [option] for a key without
    arguments, a finite map for a key with arguments; a shard key and its
    counter key are one [Index] ([k_OrganizerEventIndex] holds
    [OrganizerEventShard] and [OrganizerEventCount]).  [log] is the list of
    published events, oldest first.

    Readers are functions of the state and writers functions between states;
    the writers whose arithmetic can overflow are computations.  The lifetime
    extensions ([bump_persistent], [bump_instance]) change no value and are not
    modelled. *)

From stdpp Require Import base tactics numbers list strings gmap.
From S2P Require Import Prelude.
From S2P Require Import Soroban.
From S2P Require Import Sharded.
From S2P Require Import RegistryTypes.

Record State := mkState {
  k_Admin : option Address;
  k_PendingAdmin : option Address;
  k_MultiSigConfig : option MultiSigConfig;
  k_PlatformWallet : option Address;
  k_PlatformFee : option Z;
  k_Initialized : option bool;
  k_Event : gmap string EventInfo;
  k_OrganizerEvent : gmap (Address * string) bool;
  k_OrganizerEventIndex : Index Address string;
  k_TicketPaymentContract : option Address;
  k_BlacklistedOrganizer : gmap Address bool;
  k_BlacklistLog : option (list BlacklistAuditEntry);
  k_GlobalPromoBps : option Z;
  k_PromoExpiry : option Z;
  k_EventReceipt : gmap string EventReceipt;
  k_OrganizerReceipt : gmap (Address * string) bool;
  k_OrganizerReceiptIndex : Index Address string;
  k_ProposalCounter : option Z;
  k_Proposal : gmap Z Proposal;
  k_ActiveProposals : option (list Z);
  k_AuthorizedScanner : gmap (string * Address) bool;
  k_Series : gmap string SeriesRegistry;
  k_SeriesPass : gmap string SeriesPass;
  k_HolderSeriesPass : gmap (Address * string) string;
  k_SeriesEvent : gmap (string * string) bool;
  k_GuestProfile : gmap Address GuestProfile;
  k_OrganizerStake : gmap Address OrganizerStake;
  k_MinStakeAmount : option Z;
  k_StakingToken : option Address;
  k_TotalStaked : option Z;
  k_StakersList : option (list Address);
  k_TokenWhitelist : gmap Address bool;
  k_EventTokenWhitelist : gmap (string * Address) bool;
  k_GlobalEventCount : option Z;
  k_GlobalActiveEventCount : option Z;
  k_GlobalTicketsSold : option Z;
  k_UserTicketCount : gmap (string * string * Address) Z;
  k_Waitlist : gmap (string * Address) bool;
  k_EventPaused : gmap string bool;
  k_ContractAdmin : option Address;
  k_ApprovedOrganizer : gmap Address bool;
  k_CategoryEvents : gmap Z (list string);
  k_EventTeamRole : gmap (string * Address) Role.Role;
  k_Dispute : gmap string Dispute;
  k_DisputeVote : gmap (string * Address) DisputeVote;
  k_DisputeVoteIndex : Index string Address;
  k_BridgeConfig : option BridgeConfig;
  k_Teleport : gmap Bytes bool;
  log : list AgoraEvent.AgoraEvent;
}.
#[export] Instance State_eta : Eta State := fun s =>
  mkState (k_Admin s) (k_PendingAdmin s) (k_MultiSigConfig s) (k_PlatformWallet s)
    (k_PlatformFee s) (k_Initialized s) (k_Event s) (k_OrganizerEvent s)
    (k_OrganizerEventIndex s) (k_TicketPaymentContract s)
    (k_BlacklistedOrganizer s) (k_BlacklistLog s) (k_GlobalPromoBps s)
    (k_PromoExpiry s) (k_EventReceipt s) (k_OrganizerReceipt s)
    (k_OrganizerReceiptIndex s) (k_ProposalCounter s) (k_Proposal s)
    (k_ActiveProposals s) (k_AuthorizedScanner s) (k_Series s) (k_SeriesPass s)
    (k_HolderSeriesPass s) (k_SeriesEvent s) (k_GuestProfile s)
    (k_OrganizerStake s) (k_MinStakeAmount s) (k_StakingToken s)
    (k_TotalStaked s) (k_StakersList s) (k_TokenWhitelist s)
    (k_EventTokenWhitelist s) (k_GlobalEventCount s)
    (k_GlobalActiveEventCount s) (k_GlobalTicketsSold s) (k_UserTicketCount s)
    (k_Waitlist s) (k_EventPaused s) (k_ContractAdmin s)
    (k_ApprovedOrganizer s) (k_CategoryEvents s) (k_EventTeamRole s)
    (k_Dispute s) (k_DisputeVote s) (k_DisputeVoteIndex s) (k_BridgeConfig s)
    (k_Teleport s) (log s).

(** A freshly deployed contract. *)
Definition init_state : State :=
  mkState None None None None None None ∅ ∅ empty_index None ∅ None None None ∅ ∅
    empty_index None ∅ None ∅ ∅ ∅ ∅ ∅ ∅ ∅ None None None None ∅ ∅ None None
    None ∅ ∅ ∅ None ∅ ∅ ∅ ∅ ∅ empty_index None ∅ [].

(** The registry's computations. *)
Abbreviation R := (M State EventRegistryError).

(** [env.events().publish((topic,), data)]. *)
Definition publish (e : AgoraEvent.AgoraEvent) : R unit :=
  modify (fun s => s <| log := log s ++ [e] |>).

Module storage.

(** ** Global counters *)
Definition get_global_event_count (s : State) : Z := default 0 (k_GlobalEventCount s).

Definition increment_global_event_count : R unit :=
  current ← gets get_global_event_count;
  c ← add_ U32 current 1;
  modify (fun s => s <| k_GlobalEventCount := Some c |>).

Definition get_global_active_event_count (s : State) : Z :=
  default 0 (k_GlobalActiveEventCount s).

Definition increment_global_active_event_count : R unit :=
  current ← gets get_global_active_event_count;
  c ← add_ U32 current 1;
  modify (fun s => s <| k_GlobalActiveEventCount := Some c |>).

Definition decrement_global_active_event_count (s : State) : State :=
  s <| k_GlobalActiveEventCount :=
         Some (saturating_sub U32 (get_global_active_event_count s) 1) |>.

Definition get_global_tickets_sold (s : State) : Z := default 0 (k_GlobalTicketsSold s).

Definition add_to_global_tickets_sold (quantity : Z) (s : State) : State :=
  s <| k_GlobalTicketsSold :=
         Some (saturating_add I128 (get_global_tickets_sold s) quantity) |>.

Definition subtract_from_global_tickets_sold (quantity : Z) (s : State) : State :=
  s <| k_GlobalTicketsSold :=
         Some (saturating_sub I128 (get_global_tickets_sold s) quantity) |>.

(** ** Series *)
Definition store_series (series : SeriesRegistry) (s : State) : State :=
  let s := s <| k_Series := <[sr_series_id series := series]> (k_Series s) |> in
  foldl (fun s event_id =>
           s <| k_SeriesEvent :=
                  <[(sr_series_id series, event_id) := true]> (k_SeriesEvent s) |>)
        s (sr_event_ids series).

Definition get_series (series_id : string) (s : State) : option SeriesRegistry :=
  k_Series s !! series_id.

Definition series_contains_event (series_id event_id : string) (s : State) : bool :=
  bool_decide (is_Some (k_SeriesEvent s !! (series_id, event_id))).

Definition store_series_pass (pass : SeriesPass) (s : State) : State :=
  let s := s <| k_SeriesPass := <[sp_pass_id pass := pass]> (k_SeriesPass s) |> in
  s <| k_HolderSeriesPass :=
         <[(sp_holder pass, sp_series_id pass) := sp_pass_id pass]>
           (k_HolderSeriesPass s) |>.

Definition get_series_pass (pass_id : string) (s : State) : option SeriesPass :=
  k_SeriesPass s !! pass_id.

Definition get_holder_series_pass (holder : Address) (series_id : string) (s : State)
    : option SeriesPass :=
  match k_HolderSeriesPass s !! (holder, series_id) with
  | Some pass_id => k_SeriesPass s !! pass_id
  | None => None
  end.

Definition increment_series_pass_usage (pass_id : string) : R (option SeriesPass) :=
  o ← gets (get_series_pass pass_id);
  match o with
  | Some pass =>
      if sp_usage_count pass <? sp_usage_limit pass then
        c ← add_ U32 (sp_usage_count pass) 1;
        let pass := pass <| sp_usage_count := c |> in
        modify (store_series_pass pass);; mret (Some pass)
      else mret None
  | None => mret None
  end.

(** ** Administration *)
Definition set_admin (admin : Address) (s : State) : State :=
  s <| k_Admin := Some admin |>.
Definition get_admin (s : State) : option Address := k_Admin s.
Definition set_pending_admin (admin : Address) (s : State) : State :=
  s <| k_PendingAdmin := Some admin |>.
Definition get_pending_admin (s : State) : option Address := k_PendingAdmin s.
Definition clear_pending_admin (s : State) : State := s <| k_PendingAdmin := None |>.
Definition set_multisig_config (config : MultiSigConfig) (s : State) : State :=
  s <| k_MultiSigConfig := Some config |>.
Definition get_multisig_config (s : State) : option MultiSigConfig := k_MultiSigConfig s.

Definition is_admin (address : Address) (s : State) : bool :=
  match get_multisig_config s with
  | Some config => existsb (fun admin => bool_decide (admin = address)) (cfg_admins config)
  | None => false
  end.

Definition set_platform_wallet (wallet : Address) (s : State) : State :=
  s <| k_PlatformWallet := Some wallet |>.
Definition get_platform_wallet (s : State) : option Address := k_PlatformWallet s.
Definition set_platform_fee (fee : Z) (s : State) : State :=
  s <| k_PlatformFee := Some fee |>.
Definition get_platform_fee (s : State) : Z := default 0 (k_PlatformFee s).
Definition has_platform_fee (s : State) : bool :=
  bool_decide (is_Some (k_PlatformFee s)).
Definition set_initialized (value : bool) (s : State) : State :=
  s <| k_Initialized := Some value |>.
Definition is_initialized (s : State) : bool := default false (k_Initialized s).

(** ** Governance proposals *)
Definition get_next_proposal_id : R Z :=
  current ← gets (fun s => default 0 (k_ProposalCounter s));
  next ← add_ U64 current 1;
  modify (fun s => s <| k_ProposalCounter := Some next |>);; mret current.

Definition get_proposal_counter (s : State) : Z := default 0 (k_ProposalCounter s).
Definition set_proposal_counter (counter : Z) (s : State) : State :=
  s <| k_ProposalCounter := Some counter |>.
Definition set_proposal (proposal : Proposal) (s : State) : State :=
  s <| k_Proposal := <[prop_proposal_id proposal := proposal]> (k_Proposal s) |>.
Definition get_proposal (proposal_id : Z) (s : State) : option Proposal :=
  k_Proposal s !! proposal_id.
Definition get_active_proposals (s : State) : list Z := default [] (k_ActiveProposals s).

Definition add_active_proposal (proposal_id : Z) (s : State) : State :=
  if bool_decide (proposal_id ∈ get_active_proposals s) then s
  else s <| k_ActiveProposals := Some (get_active_proposals s ++ [proposal_id]) |>.

Definition store_proposal (proposal : Proposal) (s : State) : State :=
  let s := set_proposal proposal s in
  if negb (prop_executed proposal) then add_active_proposal (prop_proposal_id proposal) s
  else s.

Definition remove_active_proposal (proposal_id : Z) (s : State) : State :=
  s <| k_ActiveProposals := Some (filter (.≠ proposal_id) (get_active_proposals s)) |>.

Definition remove_from_active_proposals (proposal_id : Z) (s : State) : State :=
  s <| k_ActiveProposals := Some (filter (.≠ proposal_id) (get_active_proposals s)) |>.

(** ** Events *)
Definition SHARD_SIZE : Z := 50.

Definition sync_active_event_count (existing : option EventInfo) (updated : EventInfo)
    : R unit :=
  if ev_is_private updated then
    match existing with
    | Some prev =>
        if negb (ev_is_private prev) && ev_is_active prev
        then modify decrement_global_active_event_count else mret tt
    | None => mret tt
    end
  else
    match existing with
    | Some previous =>
        if ev_is_active previous && negb (ev_is_active updated) then
          modify decrement_global_active_event_count
        else if negb (ev_is_active previous) && ev_is_active updated then
          increment_global_active_event_count
        else if ev_is_private previous && ev_is_active updated then
          increment_global_active_event_count
        else mret tt
    | None =>
        if ev_is_active updated then increment_global_active_event_count else mret tt
    end.

Definition get_event (event_id : string) (s : State) : option EventInfo :=
  k_Event s !! event_id.

Definition event_exists (event_id : string) (s : State) : bool :=
  bool_decide (is_Some (k_Event s !! event_id)).

Definition get_organizer_event_count (organizer : Address) (s : State) : Z :=
  count (k_OrganizerEventIndex s) organizer.

Definition has_organizer_event (organizer : Address) (event_id : string) (s : State) : bool :=
  bool_decide (is_Some (k_OrganizerEvent s !! (organizer, event_id))).

Definition store_event (event_info : EventInfo) : R unit :=
  let event_id := ev_event_id event_info in
  let organizer := ev_organizer_address event_info in
  existing ← gets (get_event event_id);
  sync_active_event_count existing event_info;;
  modify (fun s => s <| k_Event := <[event_id := event_info]> (k_Event s) |>);;
  known ← gets (has_organizer_event organizer event_id);
  when (negb known) (
    idx ← gets k_OrganizerEventIndex;
    idx' ← unwrap (push SHARD_SIZE organizer event_id idx);
    modify (fun s => s <| k_OrganizerEventIndex := idx' |>);;
    modify (fun s => s <| k_OrganizerEvent :=
                            <[(organizer, event_id) := true]> (k_OrganizerEvent s) |>);;
    when (negb (ev_is_private event_info)) increment_global_event_count).

Definition update_event (event_info : EventInfo) : R unit :=
  let event_id := ev_event_id event_info in
  existing ← gets (get_event event_id);
  sync_active_event_count existing event_info;;
  modify (fun s => s <| k_Event := <[event_id := event_info]> (k_Event s) |>).

Definition remove_from_organizer_index (organizer : Address) (event_id : string) (s : State)
    : State :=
  s <| k_OrganizerEventIndex :=
         remove SHARD_SIZE organizer event_id (k_OrganizerEventIndex s) |>.

Definition remove_event (event_id : string) (s : State) : State :=
  match get_event event_id s with
  | Some event_info =>
      let organizer := ev_organizer_address event_info in
      let s := if ev_is_active event_info && negb (ev_is_private event_info)
               then decrement_global_active_event_count s else s in
      let s := s <| k_Event := delete event_id (k_Event s) |> in
      let s := s <| k_OrganizerEvent :=
                      delete (organizer, event_id) (k_OrganizerEvent s) |> in
      remove_from_organizer_index organizer event_id s
  | None => s
  end.

Definition has_organizer_receipt (organizer : Address) (event_id : string) (s : State)
    : bool :=
  bool_decide (is_Some (k_OrganizerReceipt s !! (organizer, event_id))).

Definition get_organizer_receipt_count (organizer : Address) (s : State) : Z :=
  count (k_OrganizerReceiptIndex s) organizer.

Definition store_event_receipt (receipt : EventReceipt) : R unit :=
  let organizer := rcpt_organizer_address receipt in
  let event_id := rcpt_event_id receipt in
  modify (fun s => s <| k_EventReceipt := <[event_id := receipt]> (k_EventReceipt s) |>);;
  known ← gets (has_organizer_receipt organizer event_id);
  when (negb known) (
    idx ← gets k_OrganizerReceiptIndex;
    idx' ← unwrap (push SHARD_SIZE organizer event_id idx);
    modify (fun s => s <| k_OrganizerReceiptIndex := idx' |>);;
    modify (fun s => s <| k_OrganizerReceipt :=
                            <[(organizer, event_id) := true]> (k_OrganizerReceipt s) |>)).

Definition get_event_receipt (event_id : string) (s : State) : option EventReceipt :=
  k_EventReceipt s !! event_id.

Definition get_organizer_receipts (organizer : Address) (s : State) : list EventReceipt :=
  omap (fun event_id => get_event_receipt event_id s)
       (to_list SHARD_SIZE (k_OrganizerReceiptIndex s) organizer).

Definition get_organizer_events (organizer caller : Address) (s : State) : list string :=
  let is_owner := bool_decide (organizer = caller) in
  List.filter
    (fun id =>
       if is_owner then true
       else match get_event id s with
            | Some event_info => negb (ev_is_private event_info)
            | None => false
            end)
    (to_list SHARD_SIZE (k_OrganizerEventIndex s) organizer).

Definition get_organizer_event_shard (organizer : Address) (shard_id : Z) (s : State)
    : list string :=
  shard (k_OrganizerEventIndex s) organizer shard_id.

(** ** Ticket payment contract, blacklist, promotion, scanners *)
Definition set_ticket_payment_contract (address : Address) (s : State) : State :=
  s <| k_TicketPaymentContract := Some address |>.
Definition get_ticket_payment_contract (s : State) : option Address :=
  k_TicketPaymentContract s.

Definition is_blacklisted (organizer : Address) (s : State) : bool :=
  default false (k_BlacklistedOrganizer s !! organizer).
Definition add_to_blacklist (organizer : Address) (s : State) : State :=
  s <| k_BlacklistedOrganizer := <[organizer := true]> (k_BlacklistedOrganizer s) |>.
Definition remove_from_blacklist (organizer : Address) (s : State) : State :=
  s <| k_BlacklistedOrganizer := delete organizer (k_BlacklistedOrganizer s) |>.
Definition get_blacklist_audit_log (s : State) : list BlacklistAuditEntry :=
  default [] (k_BlacklistLog s).
Definition add_blacklist_audit_entry (entry : BlacklistAuditEntry) (s : State) : State :=
  s <| k_BlacklistLog := Some (get_blacklist_audit_log s ++ [entry]) |>.

Definition set_global_promo_bps (bps : Z) (s : State) : State :=
  s <| k_GlobalPromoBps := Some bps |>.
Definition get_global_promo_bps (s : State) : Z := default 0 (k_GlobalPromoBps s).
Definition set_promo_expiry (expiry : Z) (s : State) : State :=
  s <| k_PromoExpiry := Some expiry |>.
Definition get_promo_expiry (s : State) : Z := default 0 (k_PromoExpiry s).

Definition authorize_scanner (event_id : string) (scanner : Address) (s : State) : State :=
  s <| k_AuthorizedScanner := <[(event_id, scanner) := true]> (k_AuthorizedScanner s) |>.
Definition remove_scanner (event_id : string) (scanner : Address) (s : State) : State :=
  s <| k_AuthorizedScanner := delete (event_id, scanner) (k_AuthorizedScanner s) |>.
Definition is_scanner_authorized (event_id : string) (scanner : Address) (s : State) : bool :=
  default false (k_AuthorizedScanner s !! (event_id, scanner)).

(** ** Loyalty and staking *)
Definition get_guest_profile (guest : Address) (s : State) : option GuestProfile :=
  k_GuestProfile s !! guest.
Definition set_guest_profile (profile : GuestProfile) (s : State) : State :=
  s <| k_GuestProfile := <[guest_guest_address profile := profile]> (k_GuestProfile s) |>.
Definition get_organizer_stake (organizer : Address) (s : State) : option OrganizerStake :=
  k_OrganizerStake s !! organizer.
Definition set_organizer_stake (stake : OrganizerStake) (s : State) : State :=
  s <| k_OrganizerStake := <[stake_organizer stake := stake]> (k_OrganizerStake s) |>.
Definition set_contract_admin (admin : Address) (s : State) : State :=
  s <| k_ContractAdmin := Some admin |>.
Definition get_contract_admin (s : State) : option Address := k_ContractAdmin s.
Definition set_approved_organizer (organizer : Address) (approved : bool) (s : State)
    : State :=
  if approved
  then s <| k_ApprovedOrganizer := <[organizer := true]> (k_ApprovedOrganizer s) |>
  else s <| k_ApprovedOrganizer := delete organizer (k_ApprovedOrganizer s) |>.
Definition is_approved_organizer (addr : Address) (s : State) : bool :=
  default false (k_ApprovedOrganizer s !! addr).
Definition remove_organizer_stake (organizer : Address) (s : State) : State :=
  s <| k_OrganizerStake := delete organizer (k_OrganizerStake s) |>.
Definition get_min_stake_amount (s : State) : Z := default 0 (k_MinStakeAmount s).
Definition set_min_stake_amount (amount : Z) (s : State) : State :=
  s <| k_MinStakeAmount := Some amount |>.
Definition get_staking_token (s : State) : option Address := k_StakingToken s.
Definition set_staking_token (token : Address) (s : State) : State :=
  s <| k_StakingToken := Some token |>.
Definition get_total_staked (s : State) : Z := default 0 (k_TotalStaked s).

Definition add_to_total_staked (amount : Z) : R unit :=
  current ← gets get_total_staked;
  total ← add_ I128 current amount;
  modify (fun s => s <| k_TotalStaked := Some total |>).

Definition subtract_from_total_staked (amount : Z) (s : State) : State :=
  s <| k_TotalStaked := Some (saturating_sub I128 (get_total_staked s) amount) |>.

Definition get_stakers_list (s : State) : list Address := default [] (k_StakersList s).

Definition add_to_stakers_list (organizer : Address) (s : State) : State :=
  if bool_decide (organizer ∈ get_stakers_list s) then s
  else s <| k_StakersList := Some (get_stakers_list s ++ [organizer]) |>.

Definition remove_from_stakers_list (organizer : Address) (s : State) : State :=
  s <| k_StakersList := Some (filter (.≠ organizer) (get_stakers_list s)) |>.

(** ** Token whitelists *)
Definition add_to_token_whitelist (token : Address) (s : State) : State :=
  s <| k_TokenWhitelist := <[token := true]> (k_TokenWhitelist s) |>.
Definition remove_from_token_whitelist (token : Address) (s : State) : State :=
  s <| k_TokenWhitelist := delete token (k_TokenWhitelist s) |>.
Definition is_token_whitelisted (token : Address) (s : State) : bool :=
  default false (k_TokenWhitelist s !! token).
Definition add_event_token_whitelist (event_id : string) (token : Address) (s : State)
    : State :=
  s <| k_EventTokenWhitelist := <[(event_id, token) := true]> (k_EventTokenWhitelist s) |>.
Definition remove_event_token_whitelist (event_id : string) (token : Address) (s : State)
    : State :=
  s <| k_EventTokenWhitelist := delete (event_id, token) (k_EventTokenWhitelist s) |>.
Definition is_event_token_whitelisted (event_id : string) (token : Address) (s : State)
    : bool :=
  default false (k_EventTokenWhitelist s !! (event_id, token)).

Definition is_token_accepted_for_event (event_id : string) (token : Address)
    (use_global_whitelist : bool) (accepted_tokens : list Address) (s : State) : bool :=
  if use_global_whitelist then is_token_whitelisted token s
  else if bool_decide (accepted_tokens = []) then is_token_whitelisted token s
  else bool_decide (token ∈ accepted_tokens).

(** ** Per-user ticket counts *)
Definition get_user_ticket_count (event_id tier_id : string) (user : Address) (s : State)
    : Z :=
  default 0 (k_UserTicketCount s !! (event_id, tier_id, user)).
Definition set_user_ticket_count (event_id tier_id : string) (user : Address) (c : Z)
    (s : State) : State :=
  s <| k_UserTicketCount := <[(event_id, tier_id, user) := c]> (k_UserTicketCount s) |>.
Definition add_to_user_ticket_count (event_id tier_id : string) (user : Address)
    (quantity : Z) (s : State) : State :=
  let current := get_user_ticket_count event_id tier_id user s in
  set_user_ticket_count event_id tier_id user (saturating_add U32 current quantity) s.
Definition subtract_from_user_ticket_count (event_id tier_id : string) (user : Address)
    (quantity : Z) (s : State) : State :=
  let current := get_user_ticket_count event_id tier_id user s in
  set_user_ticket_count event_id tier_id user (saturating_sub U32 current quantity) s.

(** ** Waitlist, pause flag, categories and team roles *)
Definition is_on_waitlist (event_id : string) (user : Address) (s : State) : bool :=
  default false (k_Waitlist s !! (event_id, user)).
Definition add_to_waitlist (event_id : string) (user : Address) (s : State) : State :=
  s <| k_Waitlist := <[(event_id, user) := true]> (k_Waitlist s) |>.
Definition remove_from_waitlist (event_id : string) (user : Address) (s : State) : State :=
  s <| k_Waitlist := delete (event_id, user) (k_Waitlist s) |>.
Definition is_event_paused (event_id : string) (s : State) : bool :=
  default false (k_EventPaused s !! event_id).
Definition set_event_paused (event_id : string) (is_paused : bool) (s : State) : State :=
  s <| k_EventPaused := <[event_id := is_paused]> (k_EventPaused s) |>.
Definition get_events_by_category (category_id : Z) (s : State) : list string :=
  default [] (k_CategoryEvents s !! category_id).
Definition index_event_category (category_id : Z) (event_id : string) (s : State) : State :=
  s <| k_CategoryEvents :=
         <[category_id := get_events_by_category category_id s ++ [event_id]]>
           (k_CategoryEvents s) |>.
Definition set_event_team_role (event_id : string) (member : Address) (role : Role.Role)
    (s : State) : State :=
  s <| k_EventTeamRole := <[(event_id, member) := role]> (k_EventTeamRole s) |>.
Definition get_event_team_role (event_id : string) (member : Address) (s : State)
    : option Role.Role :=
  k_EventTeamRole s !! (event_id, member).
Definition remove_event_team_role (event_id : string) (member : Address) (s : State)
    : State :=
  s <| k_EventTeamRole := delete (event_id, member) (k_EventTeamRole s) |>.
Definition has_event_role (event_id : string) (member : Address) (required_role : Role.Role)
    (s : State) : bool :=
  match get_event_team_role event_id member s with
  | Some member_role => role_id member_role <=? role_id required_role
  | None => false
  end.

(** ** Disputes *)
Definition DISPUTE_SHARD_SIZE : Z := 50.

Definition store_dispute (dispute : Dispute) (s : State) : State :=
  s <| k_Dispute := <[disp_event_id dispute := dispute]> (k_Dispute s) |>.
Definition get_dispute (event_id : string) (s : State) : option Dispute :=
  k_Dispute s !! event_id.

Definition add_dispute_vote (event_id : string) (voter : Address) : R unit :=
  idx ← gets k_DisputeVoteIndex;
  idx' ← unwrap (push DISPUTE_SHARD_SIZE event_id voter idx);
  modify (fun s => s <| k_DisputeVoteIndex := idx' |>).

Definition get_dispute_votes (event_id : string) (s : State) : list DisputeVote :=
  omap (fun voter => k_DisputeVote s !! (event_id, voter))
       (to_list DISPUTE_SHARD_SIZE (k_DisputeVoteIndex s) event_id).

Definition get_dispute_vote_count (event_id : string) (s : State) : Z :=
  count (k_DisputeVoteIndex s) event_id.

Definition has_voted (event_id : string) (voter : Address) (s : State) : bool :=
  bool_decide (is_Some (k_DisputeVote s !! (event_id, voter))).

Definition store_dispute_vote (event_id : string) (voter : Address) (vote : DisputeVote)
    (s : State) : State :=
  s <| k_DisputeVote := <[(event_id, voter) := vote]> (k_DisputeVote s) |>.

(** ** Bridge and teleportation (instance storage) *)
Definition set_bridge_config (config : BridgeConfig) (s : State) : State :=
  s <| k_BridgeConfig := Some config |>.
Definition get_bridge_config (s : State) : option BridgeConfig := k_BridgeConfig s.
Definition track_teleport (tx_hash : Bytes) (s : State) : State :=
  s <| k_Teleport := <[tx_hash := true]> (k_Teleport s) |>.
Definition is_teleport_processed (tx_hash : Bytes) (s : State) : bool :=
  default false (k_Teleport s !! tx_hash).

End storage.

(** ** The ticket counter ([ticket.rs]): the counter of [storage], returning the
    new total. *)
Module ticket.
Definition get_tickets_sold (s : State) : Z := storage.get_global_tickets_sold s.

Definition increment_tickets_sold (quantity : Z) : R Z :=
  current ← gets (fun s => default 0 (k_GlobalTicketsSold s));
  let new_total := saturating_add I128 current quantity in
  modify (fun s => s <| k_GlobalTicketsSold := Some new_total |>);;
  mret new_total.

Definition decrement_tickets_sold (quantity : Z) : R Z :=
  current ← gets (fun s => default 0 (k_GlobalTicketsSold s));
  let new_total := saturating_sub I128 current quantity in
  modify (fun s => s <| k_GlobalTicketsSold := Some new_total |>);;
  mret new_total.
End ticket.

(** ** The active-event counter *)

(** 1 for an event that the public active counter counts. *)
Definition pub_active (e : EventInfo) : Z :=
  if ev_is_active e && negb (ev_is_private e) then 1 else 0.

(** What [sync_active_event_count] adds to the counter. *)
Definition sync_delta (existing : option EventInfo) (updated : EventInfo) : Z :=
  match existing with
  | None => pub_active updated
  | Some prev =>
      if ev_is_private updated then - pub_active prev
      else if ev_is_active prev && negb (ev_is_active updated) then -1
      else pub_active updated - pub_active prev
  end.

Lemma pub_active_range e : 0 <= pub_active e <= 1.
Proof. unfold pub_active. case_match; lia. Qed.

(** The counter follows the events, except when a private active event is
    made public and inactive at once. *)
Lemma sync_delta_exact existing updated :
  (forall prev, existing = Some prev -> ev_is_private prev = true ->
     ev_is_active prev = true -> ev_is_private updated = false ->
     ev_is_active updated = true) ->
  sync_delta existing updated = pub_active updated - from_option pub_active 0 existing.
Proof.
  intros Hex. unfold sync_delta, pub_active.
  destruct existing as [prev|]; cbn; [specialize (Hex prev eq_refl)|lia].
  destruct (ev_is_private updated), (ev_is_active updated), (ev_is_active prev),
    (ev_is_private prev); cbn; lia.
Qed.

Section StorageFacts.
Implicit Types (s : State) (e : EventInfo).

Lemma sync_Done existing updated env s u s' :
  storage.sync_active_event_count existing updated env s = Done u s' ->
  exists c, s' = s <| k_GlobalActiveEventCount := c |> /\
    (storage.get_global_active_event_count s ∈ᵢ U32 ->
     default 0 c ∈ᵢ U32 /\
     default 0 c
     = Z.max 0 (storage.get_global_active_event_count s + sync_delta existing updated)).
Proof.
  set (c0 := storage.get_global_active_event_count s).
  assert (forall env v s1, storage.increment_global_active_event_count env s = Done v s1 ->
    exists c, s1 = s <| k_GlobalActiveEventCount := c |> /\
      (c0 ∈ᵢ U32 -> default 0 c ∈ᵢ U32 /\ default 0 c = Z.max 0 (c0 + 1))) as Hinc.
  { intros ??? Hi. unfold storage.increment_global_active_event_count in Hi. exec.
    eexists. split; [reflexivity|]. cbn [default from_option id int_min] in *. unfold c0. lia. }
  assert (exists c, s = s <| k_GlobalActiveEventCount := c |> /\
    (c0 ∈ᵢ U32 -> default 0 c ∈ᵢ U32 /\ default 0 c = Z.max 0 (c0 + 0))) as Hid.
  { exists (k_GlobalActiveEventCount s). split; [by destruct s|].
    unfold c0, storage.get_global_active_event_count. cbn [int_min]. lia. }
  assert (exists c, storage.decrement_global_active_event_count s
    = s <| k_GlobalActiveEventCount := c |> /\
    (c0 ∈ᵢ U32 -> default 0 c ∈ᵢ U32 /\ default 0 c = Z.max 0 (c0 + -1))) as Hdec.
  { eexists. split; [done|]. fold c0. unfold saturating_sub, saturate. cbn. lia. }
  unfold storage.sync_active_event_count, sync_delta, pub_active.
  intros Hrun. destruct existing as [prev|];
    [destruct (ev_is_private updated), (ev_is_active updated), (ev_is_active prev),
       (ev_is_private prev)
    |destruct (ev_is_private updated), (ev_is_active updated)];
    cbn in *; exec; naive_solver.
Qed.

(** [c] is the counter after an update of an event from [existing] to [e]. *)
Definition synced s existing e (c : option Z) : Prop :=
  storage.get_global_active_event_count s ∈ᵢ U32 ->
  default 0 c ∈ᵢ U32 /\
  default 0 c
  = Z.max 0 (storage.get_global_active_event_count s + sync_delta existing e).

Lemma update_event_Done e env s u s' :
  storage.update_event e env s = Done u s' ->
  exists c, synced s (k_Event s !! ev_event_id e) e c /\
    s' = s <| k_GlobalActiveEventCount := c |>
           <| k_Event := <[ev_event_id e := e]> (k_Event s) |>.
Proof.
  intros Hrun. unfold storage.update_event in Hrun. exec.
  apply sync_Done in Hrun1 as (c & -> & Hc). exists c. split; [done|]. by upd_simpl.
Qed.

Lemma store_event_Done e env s u s' :
  storage.store_event e env s = Done u s' ->
  exists c s1, synced s (k_Event s !! ev_event_id e) e c /\
    s1 = s <| k_GlobalActiveEventCount := c |>
           <| k_Event := <[ev_event_id e := e]> (k_Event s) |> /\
    if storage.has_organizer_event (ev_organizer_address e) (ev_event_id e) s
    then s' = s1
    else exists idx n,
      push storage.SHARD_SIZE (ev_organizer_address e) (ev_event_id e)
        (k_OrganizerEventIndex s) = Some idx /\
      s' = s1 <| k_OrganizerEventIndex := idx |>
              <| k_OrganizerEvent :=
                   <[(ev_organizer_address e, ev_event_id e) := true]> (k_OrganizerEvent s) |>
              <| k_GlobalEventCount := n |>.
Proof.
  intros Hrun. unfold storage.store_event in Hrun. exec.
  apply sync_Done in Hrun1 as (c & -> & Hc). exists c. eexists. split; [done|].
  split; [done|]. unfold storage.has_organizer_event in *. upd_simpl.
  destruct (bool_decide _); cbn in Hrun; exec; [done|].
  unfold storage.increment_global_event_count in Hrun. upd_simpl.
  destruct (ev_is_private e); cbn in Hrun; exec; upd_simpl.
  - eexists _, (k_GlobalEventCount s). split; [done|]. by destruct s.
  - eexists _, _. split; [done|]. reflexivity.
Qed.

End StorageFacts.

(** An update that keeps the event's visibility always succeeds. *)
Lemma update_event_ok e e0 env s :
  k_Event s !! ev_event_id e = Some e0 ->
  ev_is_active e = ev_is_active e0 -> ev_is_private e = ev_is_private e0 ->
  storage.update_event e env s
  = Done tt (s <| k_Event := <[ev_event_id e := e]> (k_Event s) |>).
Proof.
  intros He Ha Hp. unfold storage.update_event. run_step. unfold storage.get_event.
  rewrite He. unfold storage.sync_active_event_count. rewrite Ha, Hp.
  by destruct (ev_is_private e0), (ev_is_active e0).
Qed.

Lemma publish_Done ev env s u s' :
  publish ev env s = Done u s' <-> s' = s <| log := log s ++ [ev] |>.
Proof. unfold publish. by rewrite modify_Done. Qed.

(** [exec] for the registry: also through [publish] and [update_event]. *)
Ltac rexec1 :=
  match goal with
  | H : publish _ _ _ = Done _ _ |- _ => apply publish_Done in H
  | H : storage.update_event _ _ _ = Done _ _ |- _ =>
      apply update_event_Done in H as (? & ? & ?)
  | _ => exec1
  end.
Ltac rexec := repeat rexec1.

(** Every event is stored under its own identifier. *)
Definition keyed (m : gmap string EventInfo) : Prop :=
  forall id e, m !! id = Some e -> ev_event_id e = id.

Lemma keyed_insert m id e : keyed m -> ev_event_id e = id -> keyed (<[id := e]> m).
Proof. intros Hm Hid id' e' [[<- <-]|[? ?]]%lookup_insert_Some; eauto. Qed.

Lemma keyed_delete m id : keyed m -> keyed (delete id m).
Proof. intros Hm id' e [_ ?]%lookup_delete_Some. eauto. Qed.

#[export] Hint Resolve keyed_insert keyed_delete : agora.

(** ** Sample data

    Concrete values on which the witnesses of the theorems evaluate. *)
Module Sample.

Definition tier : TicketTier := {|
  tier_name := "General"; tier_price := 100; tier_tier_limit := 10;
  tier_current_sold := 2; tier_is_refundable := true; tier_auction_config := [];
  tier_loyalty_multiplier := 1; tier_max_per_user := 5;
|}.

Definition event : EventInfo := {|
  ev_event_id := "e1"; ev_name := "Launch"; ev_organizer_address := "ORG";
  ev_payment_address := "PAY"; ev_platform_fee_percent := 500; ev_is_active := true;
  ev_status := Active; ev_created_at := 50;
  ev_metadata_cid := "QmPK1s3pNYLi9ERiq3BDxKa4XosgWwFRQUydHUtz4YgpqB";
  ev_max_supply := 20; ev_current_supply := 2; ev_milestone_plan := None;
  ev_tiers := {[ "gen" := tier ]}; ev_refund_deadline := 900; ev_restocking_fee := 5;
  ev_resale_cap_bps := Some 1000; ev_is_postponed := false; ev_grace_period_end := 0;
  ev_min_sales_target := 4; ev_target_deadline := 800; ev_goal_met := false;
  ev_custom_fee_bps := None; ev_banner_cid := None; ev_tags := None;
  ev_category_ids := None; ev_start_time := 500; ev_is_private := false;
  ev_end_time := 600; ev_transfer_lock_duration := 0; ev_accepted_tokens := ["USDC"];
  ev_use_global_whitelist := false; ev_feedback_cid := None;
  ev_cancellation_reason := None; ev_referral_rate_bps := 0;
|}.

Definition state : State :=
  init_state
    <| k_Admin := Some "ADM" |> <| k_Initialized := Some true |>
    <| k_MultiSigConfig := Some {| cfg_admins := ["ADM"]; cfg_threshold := 1 |} |>
    <| k_PlatformWallet := Some "WAL" |> <| k_PlatformFee := Some 500 |>
    <| k_TicketPaymentContract := Some "TP" |>
    <| k_Event := {[ "e1" := event ]} |>
    <| k_OrganizerEvent := {[ ("ORG", "e1") := true ]} |>
    <| k_OrganizerEventIndex :=
         mkIndex {[ ("ORG", 0) := ["e1"] ]} {[ "ORG" := 1 ]} |>
    <| k_GlobalEventCount := Some 1 |> <| k_GlobalActiveEventCount := Some 1 |>
    <| k_GlobalTicketsSold := Some 2 |>
    <| k_UserTicketCount := {[ ("e1", "gen", "ALICE") := 2 ]} |>.

(** An invocation at time [t] authorised by [who]. *)
Definition env (t : Z) (who : list Address) : Env :=
  {| current_contract_address := "REG"; timestamp := t; auths := who |}.

Lemma state_keyed : keyed (k_Event state).
Proof.
  intros id e Hid. change (({[ "e1" := event ]} : gmap string EventInfo) !! id = Some e) in Hid.
  by apply lookup_singleton_Some in Hid as [<- <-].
Qed.

End Sample.
