(* ===== verification/RegistryEvents.v ===== *)
(** * Event registry: events

    Registration, status, metadata, cancellation, archival and tiers of events
    ([event_registry/src/lib.rs] and [auth.rs]), with the validation helpers
    they share. *)

From Stdlib Require Import Ascii.
From stdpp Require Import base tactics numbers list strings gmap sorting.
From S2P Require Import Prelude.
From S2P Require Import Soroban.
From S2P Require Import Sharded.
From S2P Require Import RegistryTypes.
From S2P Require Import RegistryStorage.

Definition MAX_TIERS_PER_EVENT : Z := 20.
Definition MAX_BATCH_SIZE : Z := 50.

(** [Map::values]: the host keeps a map sorted by key. *)
Definition key_le {A} (x y : string * A) : Prop := String.leb x.1 y.1 = true.

#[export] Instance key_le_dec {A} : RelDecision (@key_le A).
Proof. intros x y. unfold key_le. apply _. Defined.

Definition map_values {A} (m : gmap string A) : list A :=
  snd <$> merge_sort key_le (map_to_list m).

(** ** Authorisation ([auth.rs]) *)
Definition require_admin : R Address :=
  o ← gets storage.get_admin;
  admin ← ok_or o NotInitialized;
  require_auth admin;; mret admin.

Definition require_organizer (event_id : string) (caller : Address) : R unit :=
  o ← gets (storage.get_event event_id);
  event_info ← ok_or o EventNotFound;
  throw_if (bool_decide (ev_organizer_address event_info <> caller)) Unauthorized;;
  require_auth caller.

(** ** Validation *)
Definition validate_address (address : Address) : R unit :=
  self ← contract_address;
  throw_if (bool_decide (address = self)) InvalidAddress.

Definition validate_tier_price (tier : TicketTier) : R unit :=
  throw_if (tier_price tier <? 0) InvalidPrice.

Definition byte_at (s : string) (i : nat) (c : ascii) : bool :=
  bool_decide (String.get i s = Some c).

Definition valid_metadata_cid (cid : string) : bool :=
  ((46 <=? str_len cid) && byte_at cid 0 "Q"%char && byte_at cid 1 "m"%char)
  || ((59 <=? str_len cid) && byte_at cid 0 "b"%char && byte_at cid 1 "a"%char
      && byte_at cid 2 "f"%char && byte_at cid 3 "y"%char).

Definition validate_metadata_cid (cid : string) : R unit :=
  throw_if (negb (valid_metadata_cid cid)) InvalidMetadataCid.

Definition valid_tag_byte (byte : Z) : bool :=
  negb ((byte <? 32) || ((127 <=? byte) && (byte <? 192))).

Definition byte_value (c : ascii) : Z := Z.of_N (Ascii.N_of_ascii c).

Definition valid_tag (tag : string) : bool :=
  (str_len tag <=? 32)
  && forallb (fun c => valid_tag_byte (byte_value c)) (String.list_ascii_of_string tag).

Definition validate_tags (tags : list string) : R unit :=
  throw_if (negb (forallb valid_tag tags)) InvalidTags.

Definition require_event_ended (event_info : EventInfo) : R unit :=
  now ← ledger_timestamp;
  throw_if ((ev_end_time event_info =? 0) || (now <=? ev_end_time event_info)) EventNotEnded.

Definition resale_cap_ok (cap : option Z) : bool :=
  match cap with Some cap => cap <=? 10000 | None => true end.

(** The checked sum of the tier limits, in the map's order. *)
Definition total_tier_limit (tiers : list TicketTier) : R Z :=
  foldM (fun total tier =>
           ok_or (checked_add I128 total (tier_tier_limit tier)) SupplyOverflow) 0 tiers.

(** ** Registration *)
Definition new_event (now platform_fee_percent : Z) (args : EventRegistrationArgs)
    : EventInfo := {|
  ev_event_id := args_event_id args;
  ev_name := args_name args;
  ev_organizer_address := args_organizer_address args;
  ev_payment_address := args_payment_address args;
  ev_platform_fee_percent := platform_fee_percent;
  ev_is_active := true;
  ev_status := Active;
  ev_created_at := now;
  ev_metadata_cid := args_metadata_cid args;
  ev_max_supply := args_max_supply args;
  ev_current_supply := 0;
  ev_milestone_plan := args_milestone_plan args;
  ev_tiers := args_tiers args;
  ev_refund_deadline := args_refund_deadline args;
  ev_restocking_fee := args_restocking_fee args;
  ev_resale_cap_bps := args_resale_cap_bps args;
  ev_is_postponed := false;
  ev_grace_period_end := 0;
  ev_min_sales_target := default 0 (args_min_sales_target args);
  ev_target_deadline := default 0 (args_target_deadline args);
  ev_goal_met := false;
  ev_custom_fee_bps := None;
  ev_banner_cid := args_banner_cid args;
  ev_tags := args_tags args;
  ev_category_ids := args_category_ids args;
  ev_start_time := args_start_time args;
  ev_is_private := args_is_private args;
  ev_end_time := args_end_time args;
  ev_transfer_lock_duration := args_transfer_lock_duration args;
  ev_accepted_tokens := args_accepted_tokens args;
  ev_use_global_whitelist := args_use_global_whitelist args;
  ev_feedback_cid := None;
  ev_cancellation_reason := None;
  ev_referral_rate_bps := default 0 (args_referral_rate_bps args);
|}.

(** The checked sum of the milestones' release percentages. *)
Definition total_release_bps (milestones : list Milestone) : R Z :=
  foldM (fun total m =>
           ok_or (checked_add U32 total (ms_release_percent m)) InvalidMilestonePlan)
        0 milestones.

Definition register_event (args : EventRegistrationArgs) : R unit :=
  init ← gets storage.is_initialized;
  throw_if (negb init) NotInitialized;;
  require_auth (args_organizer_address args);;
  black ← gets (storage.is_blacklisted (args_organizer_address args));
  throw_if black OrganizerBlacklisted;;
  validate_metadata_cid (args_metadata_cid args);;
  match args_tags args with Some tags => validate_tags tags | None => mret tt end;;
  exists_ ← gets (storage.event_exists (args_event_id args));
  throw_if exists_ EventAlreadyExists;;
  throw_if (MAX_TIERS_PER_EVENT <? map_len (args_tiers args)) TooManyTiers;;
  foldM (fun _ tier => validate_tier_price tier) tt (map_values (args_tiers args));;
  when (0 <? args_max_supply args) (
    total ← total_tier_limit (map_values (args_tiers args));
    throw_if (args_max_supply args <? total) TierLimitExceeds);;
  throw_if (negb (resale_cap_ok (args_resale_cap_bps args))) InvalidResaleCapBps;;
  match args_milestone_plan args with
  | Some milestones =>
      total ← total_release_bps milestones;
      throw_if (10000 <? total) InvalidMilestonePlan
  | None => mret tt
  end;;
  throw_if (negb (args_start_time args =? 0) && negb (args_end_time args =? 0)
            && (args_end_time args <=? args_start_time args)) InvalidDeadline;;
  platform_fee_percent ← gets storage.get_platform_fee;
  now ← ledger_timestamp;
  storage.store_event (new_event now platform_fee_percent args);;
  publish (AgoraEvent.EventRegistered (args_event_id args) (args_organizer_address args)
             (args_payment_address args) now).

(** ** Queries *)
Definition get_event_payment_info (event_id : string) : R PaymentInfo :=
  o ← gets (storage.get_event event_id);
  match o with
  | Some event_info =>
      throw_if (negb (ev_is_active event_info)) EventInactive;;
      mret {| pay_payment_address := ev_payment_address event_info;
              pay_platform_fee_percent := ev_platform_fee_percent event_info;
              pay_custom_fee_bps := ev_custom_fee_bps event_info;
              pay_tiers := ev_tiers event_info;
              pay_referral_rate_bps := ev_referral_rate_bps event_info |}
  | None => throw EventNotFound
  end.

Definition get_event_capacity (event_id : string) : R EventCapacity :=
  o ← gets (storage.get_event event_id);
  event_info ← ok_or o EventNotFound;
  let available :=
    if 0 <? ev_max_supply event_info
    then Some (saturating_sub I128 (ev_max_supply event_info) (ev_current_supply event_info))
    else None in
  mret {| cap_max_supply := ev_max_supply event_info;
          cap_current_supply := ev_current_supply event_info;
          cap_available := available |}.

Definition get_events_batch (event_ids : list string) : R (list (option EventInfo)) :=
  throw_if (MAX_BATCH_SIZE <? len event_ids) BatchSizeExceeded;;
  foldM (fun results id =>
           o ← gets (storage.get_event id); mret (results ++ [o])) [] event_ids.

(** ** Organizer operations *)
Definition update_event_status (event_id : string) (is_active : bool) : R unit :=
  o ← gets (storage.get_event event_id);
  match o with
  | Some event_info =>
      require_organizer event_id (ev_organizer_address event_info);;
      throw_if (is_cancelled (ev_status event_info)) EventCancelled;;
      if Bool.eqb (ev_is_active event_info) is_active then mret tt
      else
        let event_info := event_info <| ev_is_active := is_active |> in
        storage.update_event event_info;;
        now ← ledger_timestamp;
        publish (AgoraEvent.EventStatusUpdated event_id is_active
                   (ev_organizer_address event_info) now)
  | None => throw EventNotFound
  end.

Definition cancel_event (event_id : string) (reason : option string) : R unit :=
  o ← gets (storage.get_event event_id);
  match o with
  | Some event_info =>
      require_organizer event_id (ev_organizer_address event_info);;
      throw_if (is_cancelled (ev_status event_info)) EventAlreadyCanceled;;
      let event_info := event_info <| ev_status := Cancelled |>
                                   <| ev_is_active := false |>
                                   <| ev_cancellation_reason := reason |> in
      storage.update_event event_info;;
      now ← ledger_timestamp;
      publish (AgoraEvent.EventCancelled event_id (ev_organizer_address event_info)
                 now reason)
  | None => throw EventNotFound
  end.

Definition archive_event (event_id : string) : R unit :=
  o ← gets (storage.get_event event_id);
  match o with
  | Some event_info =>
      require_organizer event_id (ev_organizer_address event_info);;
      throw_if (ev_is_active event_info) EventIsActive;;
      modify (storage.remove_event event_id);;
      now ← ledger_timestamp;
      storage.store_event_receipt
        {| rcpt_event_id := event_id;
           rcpt_organizer_address := ev_organizer_address event_info;
           rcpt_total_sold := ev_current_supply event_info;
           rcpt_archived_at := now |};;
      publish (AgoraEvent.EventArchived event_id (ev_organizer_address event_info) now)
  | None => throw EventNotFound
  end.

Definition update_metadata (event_id new_metadata_cid : string) : R unit :=
  o ← gets (storage.get_event event_id);
  match o with
  | Some event_info =>
      require_organizer event_id (ev_organizer_address event_info);;
      validate_metadata_cid new_metadata_cid;;
      if bool_decide (ev_metadata_cid event_info = new_metadata_cid) then mret tt
      else
        let old_metadata_cid := ev_metadata_cid event_info in
        let event_info := event_info <| ev_metadata_cid := new_metadata_cid |> in
        storage.update_event event_info;;
        now ← ledger_timestamp;
        publish (AgoraEvent.MetadataUpdated event_id old_metadata_cid new_metadata_cid
                   (ev_organizer_address event_info) now)
  | None => throw EventNotFound
  end.

Definition set_feedback_cid (event_id feedback_cid : string) : R unit :=
  o ← gets (storage.get_event event_id);
  match o with
  | Some event_info =>
      require_organizer event_id (ev_organizer_address event_info);;
      require_event_ended event_info;;
      validate_metadata_cid feedback_cid;;
      if bool_decide (ev_feedback_cid event_info = Some feedback_cid) then mret tt
      else
        let event_info := event_info <| ev_feedback_cid := Some feedback_cid |> in
        storage.update_event event_info;;
        now ← ledger_timestamp;
        publish (AgoraEvent.FeedbackCidSet event_id feedback_cid
                   (ev_organizer_address event_info) now)
  | None => throw EventNotFound
  end.

(** The legacy entry point; its failures are panics. *)
Definition store_event (event_info : EventInfo) : R unit :=
  unwrap_result (require_organizer (ev_event_id event_info)
                   (ev_organizer_address event_info));;
  when (bool_decide (is_Some (ev_feedback_cid event_info)))
    (unwrap_result (require_event_ended event_info));;
  panic_if (negb (resale_cap_ok (ev_resale_cap_bps event_info)));;
  storage.store_event event_info.

Definition set_resale_cap_bps (event_id : string) (resale_cap_bps : option Z) : R unit :=
  o ← gets (storage.get_event event_id);
  event_info ← ok_or o EventNotFound;
  require_organizer event_id (ev_organizer_address event_info);;
  throw_if (negb (resale_cap_ok resale_cap_bps)) InvalidResaleCapBps;;
  storage.update_event (event_info <| ev_resale_cap_bps := resale_cap_bps |>).

Definition postpone_event (event_id : string) (new_start_time grace_period_end : Z) : R unit :=
  o ← gets (storage.get_event event_id);
  event_info ← ok_or o EventNotFound;
  require_organizer event_id (ev_organizer_address event_info);;
  now ← ledger_timestamp;
  throw_if (new_start_time <=? now) InvalidDeadline;;
  throw_if (grace_period_end <=? now) InvalidGracePeriod;;
  let event_info := event_info <| ev_start_time := new_start_time |>
                               <| ev_is_postponed := true |>
                               <| ev_grace_period_end := grace_period_end |> in
  storage.update_event event_info;;
  publish (AgoraEvent.EventPostponed event_id (ev_organizer_address event_info)
             new_start_time grace_period_end now).

Definition set_custom_event_fee (event_id : string) (custom_fee_bps : option Z) : R unit :=
  admin ← require_admin;
  throw_if (match custom_fee_bps with Some fee => 10000 <? fee | None => false end)
    InvalidFeePercent;;
  o ← gets (storage.get_event event_id);
  event_info ← ok_or o EventNotFound;
  storage.update_event (event_info <| ev_custom_fee_bps := custom_fee_bps |>);;
  now ← ledger_timestamp;
  publish (AgoraEvent.CustomFeeSet event_id custom_fee_bps admin now).

(** ** Tiers *)
Definition is_tier_sold_out (event_id tier_id : string) : R bool :=
  o ← gets (storage.get_event event_id);
  event_info ← ok_or o EventNotFound;
  tier ← ok_or (ev_tiers event_info !! tier_id) TierNotFound;
  mret (tier_tier_limit tier <=? tier_current_sold tier).

Definition add_tier (event_id tier_id : string) (tier : TicketTier) : R unit :=
  o ← gets (storage.get_event event_id);
  event_info ← ok_or o EventNotFound;
  require_auth (ev_organizer_address event_info);;
  validate_tier_price tier;;
  throw_if (bool_decide (ev_tiers event_info !! tier_id = None)
            && (MAX_TIERS_PER_EVENT <=? map_len (ev_tiers event_info))) TooManyTiers;;
  when (0 <? ev_max_supply event_info) (
    total ← total_tier_limit (map_values (ev_tiers event_info));
    total ← ok_or (checked_add I128 total (tier_tier_limit tier)) SupplyOverflow;
    throw_if (ev_max_supply event_info <? total) TierLimitExceeds);;
  storage.update_event
    (event_info <| ev_tiers := <[tier_id := tier]> (ev_tiers event_info) |>).

Definition deactivate_tier (event_id tier_id : string) : R unit :=
  o ← gets (storage.get_event event_id);
  event_info ← ok_or o EventNotFound;
  require_auth (ev_organizer_address event_info);;
  tier ← ok_or (ev_tiers event_info !! tier_id) TierNotFound;
  let tier := tier <| tier_tier_limit := tier_current_sold tier |> in
  storage.update_event
    (event_info <| ev_tiers := <[tier_id := tier]> (ev_tiers event_info) |>).

(** ** Facts about the helpers *)
Section HelperFacts.
Implicit Types (env : Env) (s : State).

Lemma require_admin_Done env s a s' :
  require_admin env s = Done a s' <-> k_Admin s = Some a /\ a ∈ auths env /\ s' = s.
Proof.
  unfold require_admin, storage.get_admin. split.
  - intros Hrun. by rexec.
  - intros (Ha & Hin & ->). run_step. run_step; [done|]. by run_step.
Qed.

Lemma require_organizer_Done id caller env s u s' :
  require_organizer id caller env s = Done u s' <->
  s' = s /\ caller ∈ auths env /\
  exists e, k_Event s !! id = Some e /\ ev_organizer_address e = caller.
Proof.
  unfold require_organizer, storage.get_event. split.
  - intros Hrun. rexec. bools. split_and!; [done..|]. eexists. split; [done|].
    by apply dec_stable.
  - intros (-> & Hin & e & He & Ho). run_step. run_step; [done|].
    run_step; [by rewrite bool_decide_false by auto|]. destruct u. by apply require_auth_ok.
Qed.

Lemma validate_address_Done a env s u s' :
  validate_address a env s = Done u s' <-> s' = s /\ a <> current_contract_address env.
Proof.
  unfold validate_address. split.
  - intros Hrun. rexec. by bools.
  - intros [-> Ha]. destruct u. unfold contract_address, mbind, M_bind.
    apply throw_if_ok. by rewrite bool_decide_false.
Qed.

Lemma validate_metadata_cid_Done cid env s u s' :
  validate_metadata_cid cid env s = Done u s' <-> s' = s /\ valid_metadata_cid cid = true.
Proof. unfold validate_metadata_cid. rewrite throw_if_Done, negb_false_iff. tauto. Qed.

Lemma validate_tier_price_Done t env s u s' :
  validate_tier_price t env s = Done u s' <-> s' = s /\ 0 <= tier_price t.
Proof. unfold validate_tier_price. rewrite throw_if_Done, Z.ltb_ge. tauto. Qed.

Lemma validate_tags_Done tags env s u s' :
  validate_tags tags env s = Done u s' <-> s' = s /\ forallb valid_tag tags = true.
Proof. unfold validate_tags. rewrite throw_if_Done, negb_false_iff. tauto. Qed.

Lemma require_event_ended_Done e env s u s' :
  require_event_ended e env s = Done u s' <->
  s' = s /\ ev_end_time e <> 0 /\ ev_end_time e < timestamp env.
Proof.
  unfold require_event_ended. split.
  - intros Hrun. rexec. bools. split_and!; [done|lia..].
  - intros (-> & ? & ?). destruct u. run_step. apply throw_if_ok.
    apply orb_false_iff. split; lia.
Qed.

Lemma total_tier_limit_Done ts env s z s' :
  total_tier_limit ts env s = Done z s' -> s' = s /\ z = sum_by tier_tier_limit ts.
Proof.
  unfold total_tier_limit. enough (forall acc, foldM
    (fun total tier => ok_or (checked_add I128 total (tier_tier_limit tier)) SupplyOverflow)
    acc ts env s = Done z s' -> s' = s /\ z = acc + sum_by tier_tier_limit ts) as Hgen
    by apply Hgen.
  induction ts as [|t ts IH]; cbn [foldM]; intros acc Hrun; exec.
  - split; [done|]. unfold sum_by. cbn. lia.
  - apply IH in Hrun as [-> ->]. rewrite sum_by_cons. split; [done|lia].
Qed.

Lemma map_values_sum {A} (f : A -> Z) (m : gmap string A) :
  sum_by f (map_values m) = sum_map f m.
Proof.
  rewrite sum_map_to_list. apply sum_by_Permutation. unfold map_values.
  by rewrite merge_sort_Permutation.
Qed.

(** The check of the tier limits against the maximum supply. *)
Lemma tier_limit_check_Done (max : Z) (m : gmap string TicketTier) env s u s' :
  when (0 <? max) (total ← total_tier_limit (map_values m);
                   throw_if (max <? total) TierLimitExceeds) env s = Done u s' ->
  s' = s /\ (0 < max -> sum_map tier_tier_limit m <= max).
Proof.
  destruct (0 <? max) eqn:Hm; cbn [when]; intros Hrun; exec; bools; [|split; [done|lia]].
  match goal with H : total_tier_limit _ _ _ = _ |- _ =>
    apply total_tier_limit_Done in H as [-> ->] end.
  rewrite <- map_values_sum. split; [done|lia].
Qed.

End HelperFacts.

(** [exec] for the entry points: also through the helpers. *)
Ltac run1 :=
  match goal with
  | H : require_admin _ _ = Done _ _ |- _ => apply require_admin_Done in H as (? & ? & ?)
  | H : require_organizer _ _ _ _ = Done _ _ |- _ =>
      apply require_organizer_Done in H as (? & ? & ? & ? & ?)
  | H : validate_address _ _ _ = Done _ _ |- _ =>
      apply validate_address_Done in H as (? & ?)
  | H : validate_metadata_cid _ _ _ = Done _ _ |- _ =>
      apply validate_metadata_cid_Done in H as (? & ?)
  | H : validate_tags _ _ _ = Done _ _ |- _ => apply validate_tags_Done in H as (? & ?)
  | H : validate_tier_price _ _ _ = Done _ _ |- _ =>
      apply validate_tier_price_Done in H as (? & ?)
  | H : require_event_ended _ _ _ = Done _ _ |- _ =>
      apply require_event_ended_Done in H as (? & ? & ?)
  | _ => rexec1
  end.
Ltac run := repeat run1.
