(* ===== verification/RegistryInventory.v ===== *)
(** * Event registry: ticket inventory

    [increment_inventory] and [decrement_inventory], which the ticket payment
    contract calls on a sale and on a refund, and the cross-chain mint
    ([event_registry/src/lib.rs]).  The theorems show that a sale moves the
    three counters of an event by exactly its quantity, never past the event's
    supply, the tier's limit or the buyer's limit, and that nothing else
    fails a sale. *)

From stdpp Require Import base tactics numbers list strings gmap.
From S2P Require Import Prelude.
From S2P Require Import Soroban.
From S2P Require Import Sharded.
From S2P Require Import RegistryTypes.
From S2P Require Import RegistryStorage.
From S2P Require Import RegistryEvents.

Definition increment_inventory (event_id tier_id : string) (user : Address) (quantity : Z)
    (payment_token : Address) : R unit :=
  o ← gets storage.get_ticket_payment_contract;
  ticket_payment_addr ← ok_or o NotInitialized;
  require_auth ticket_payment_addr;;
  throw_if (quantity =? 0) InvalidQuantity;;
  o ← gets (storage.get_event event_id);
  event_info ← ok_or o EventNotFound;
  throw_if (negb (ev_is_active event_info) || is_cancelled (ev_status event_info))
    EventInactive;;
  throw_if (negb (bool_decide (ev_accepted_tokens event_info = []))
            && negb (bool_decide (payment_token ∈ ev_accepted_tokens event_info)))
    TokenNotAccepted;;
  when (0 <? ev_max_supply event_info) (
    new_total_supply ← ok_or (checked_add I128 (ev_current_supply event_info) quantity)
                         SupplyOverflow;
    throw_if (ev_max_supply event_info <? new_total_supply) MaxSupplyExceeded);;
  tier ← ok_or (ev_tiers event_info !! tier_id) TierNotFound;
  new_tier_sold ← ok_or (checked_add I128 (tier_current_sold tier) quantity) SupplyOverflow;
  throw_if (tier_tier_limit tier <? new_tier_sold) TierSoldOut;;
  when (0 <? tier_max_per_user tier) (
    user_count ← gets (storage.get_user_ticket_count event_id tier_id user);
    new_user_count ← ok_or (checked_add U32 user_count quantity) SupplyOverflow;
    throw_if (tier_max_per_user tier <? new_user_count) PerUserLimitExceeded);;
  let tier := tier <| tier_current_sold := new_tier_sold |> in
  let event_info :=
    event_info <| ev_tiers := <[tier_id := tier]> (ev_tiers event_info) |> in
  new_supply ← ok_or (checked_add I128 (ev_current_supply event_info) quantity)
                 SupplyOverflow;
  let event_info := event_info <| ev_current_supply := new_supply |> in
  when (0 <? tier_max_per_user tier)
    (modify (storage.add_to_user_ticket_count event_id tier_id user quantity));;
  modify (storage.add_to_global_tickets_sold quantity);;
  now ← ledger_timestamp;
  event_info ←
    (if negb (ev_goal_met event_info) && (0 <? ev_min_sales_target event_info)
        && (ev_min_sales_target event_info <=? ev_current_supply event_info)
     then publish (AgoraEvent.GoalMet event_id (ev_min_sales_target event_info)
                     (ev_current_supply event_info) now);;
          mret (event_info <| ev_goal_met := true |>)
     else mret event_info);
  storage.update_event event_info;;
  publish (AgoraEvent.InventoryIncremented event_id new_supply now).

Definition decrement_inventory (event_id tier_id : string) : R unit :=
  o ← gets storage.get_ticket_payment_contract;
  ticket_payment_addr ← ok_or o NotInitialized;
  require_auth ticket_payment_addr;;
  o ← gets (storage.get_event event_id);
  event_info ← ok_or o EventNotFound;
  tier ← ok_or (ev_tiers event_info !! tier_id) TierNotFound;
  throw_if (tier_current_sold tier <=? 0) SupplyUnderflow;;
  sold ← ok_or (checked_sub I128 (tier_current_sold tier) 1) SupplyUnderflow;
  let tier := tier <| tier_current_sold := sold |> in
  let event_info :=
    event_info <| ev_tiers := <[tier_id := tier]> (ev_tiers event_info) |> in
  throw_if (ev_current_supply event_info <=? 0) SupplyUnderflow;;
  new_supply ← ok_or (checked_sub I128 (ev_current_supply event_info) 1) SupplyUnderflow;
  let event_info := event_info <| ev_current_supply := new_supply |> in
  storage.update_event event_info;;
  now ← ledger_timestamp;
  publish (AgoraEvent.InventoryDecremented event_id new_supply now).

(** ** Cross-chain mint *)
Definition execute_teleport_mint (recipient : Address) (tier_id event_id : string)
    (quantity : Z) : R unit :=
  o ← gets (storage.get_event event_id);
  event_info ← ok_or o EventNotFound;
  throw_if (negb (ev_is_active event_info) || is_cancelled (ev_status event_info))
    EventInactive;;
  when (0 <? ev_max_supply event_info) (
    new_total_supply ← ok_or (checked_add I128 (ev_current_supply event_info) quantity)
                         SupplyOverflow;
    throw_if (ev_max_supply event_info <? new_total_supply) MaxSupplyExceeded);;
  tier ← ok_or (ev_tiers event_info !! tier_id) TierNotFound;
  new_tier_sold ← ok_or (checked_add I128 (tier_current_sold tier) quantity) SupplyOverflow;
  throw_if (tier_tier_limit tier <? new_tier_sold) TierSoldOut;;
  let tier := tier <| tier_current_sold := new_tier_sold |> in
  let event_info :=
    event_info <| ev_tiers := <[tier_id := tier]> (ev_tiers event_info) |> in
  new_supply ← ok_or (checked_add I128 (ev_current_supply event_info) quantity)
                 SupplyOverflow;
  let event_info := event_info <| ev_current_supply := new_supply |> in
  modify (storage.add_to_global_tickets_sold quantity);;
  storage.update_event event_info;;
  now ← ledger_timestamp;
  publish (AgoraEvent.InventoryIncremented event_id new_supply now).

Definition mint_cross_chain_ticket (origin_chain_id : Z) (origin_tx_hash : Bytes)
    (recipient_stellar_addr : Address) (ticket_tier_id : string) (signatures : list Bytes)
    (event_id : string) (quantity : Z) : R unit :=
  processed ← gets (storage.is_teleport_processed origin_tx_hash);
  throw_if processed ReplayAttackDetected;;
  o ← gets storage.get_bridge_config;
  bridge_config ← ok_or o NotInitialized;
  throw_if (len signatures <? br_threshold bridge_config) InsufficientSignatures;;
  modify (storage.track_teleport origin_tx_hash);;
  execute_teleport_mint recipient_stellar_addr ticket_tier_id event_id quantity.

(** ** What a sale does *)

(** The event after [quantity] tickets of [tier_id] were sold. *)
Definition sell (tier_id : string) (tier : TicketTier) (quantity : Z) (e : EventInfo)
    : EventInfo :=
  e <| ev_tiers := <[tier_id := tier <| tier_current_sold :=
                                   tier_current_sold tier + quantity |>]> (ev_tiers e) |>
    <| ev_current_supply := ev_current_supply e + quantity |>.

(** The sales goal after a sale that brings the supply to [supply]. *)
Definition goal_after (e : EventInfo) (supply : Z) : bool :=
  ev_goal_met e || ((0 <? ev_min_sales_target e) && (ev_min_sales_target e <=? supply)).

(** The admission rules of a sale, in the order of the code. *)
Record sale_admitted (env : Env) (s : State) (event_id tier_id : string) (user : Address)
    (quantity : Z) (payment_token : Address) (e : EventInfo) (t : TicketTier) : Prop := {
  adm_auth : exists tp, k_TicketPaymentContract s = Some tp /\ tp ∈ auths env;
  adm_quantity : quantity <> 0;
  adm_event : k_Event s !! event_id = Some e;
  adm_active : ev_is_active e = true;
  adm_status : ev_status e <> Cancelled;
  adm_token : ev_accepted_tokens e = [] \/ payment_token ∈ ev_accepted_tokens e;
  adm_supply : 0 < ev_max_supply e -> ev_current_supply e + quantity <= ev_max_supply e;
  adm_supply_range : ev_current_supply e + quantity ∈ᵢ I128;
  adm_tier : ev_tiers e !! tier_id = Some t;
  adm_sold_range : tier_current_sold t + quantity ∈ᵢ I128;
  adm_limit : tier_current_sold t + quantity <= tier_tier_limit t;
  adm_user : 0 < tier_max_per_user t ->
    let c := storage.get_user_ticket_count event_id tier_id user s in
    c + quantity ∈ᵢ U32 /\ c + quantity <= tier_max_per_user t;
}.

(** What a sale leaves behind. *)
Record sale_effect (s s' : State) (event_id tier_id : string) (user : Address)
    (quantity : Z) (e : EventInfo) (t : TicketTier) : Prop := {
  eff_event : k_Event s' = <[event_id := sell tier_id t quantity e
                <| ev_goal_met := goal_after e (ev_current_supply e + quantity) |>]> (k_Event s);
  eff_users : k_UserTicketCount s' =
    if 0 <? tier_max_per_user t
    then <[(event_id, tier_id, user) :=
             storage.get_user_ticket_count event_id tier_id user s + quantity]>
           (k_UserTicketCount s)
    else k_UserTicketCount s;
  eff_global : storage.get_global_tickets_sold s'
               = saturating_add I128 (storage.get_global_tickets_sold s) quantity;
}.

Lemma goal_branch e env s e' s' ev :
  (if negb (ev_goal_met e) && (0 <? ev_min_sales_target e)
      && (ev_min_sales_target e <=? ev_current_supply e)
   then publish ev;; mret (e <| ev_goal_met := true |>)
   else mret e) env s = Done e' s' ->
  e' = e <| ev_goal_met := goal_after e (ev_current_supply e) |> /\
  exists l, s' = s <| log := l |>.
Proof.
  unfold goal_after. intros Hrun.
  destruct (ev_goal_met e) eqn:Hg, (0 <? _), (_ <=? _); cbn in *; rexec;
    (split; [by destruct e; cbn in *; subst|]);
    solve [by eexists|exists (log s); by destruct s].
Qed.

(** A guard [when (0 < bound)] of the sale. *)
Lemma guard_bound (t : int_ty) (bound a b : Z) :
  ((0 <? bound) = true -> exists x, checked_add t a b = Some x /\ (bound <? x) = false) ->
  0 < bound -> a + b ∈ᵢ t /\ a + b <= bound.
Proof.
  intros Hg Hpos. destruct Hg as (x & [-> ?]%checked_Some & ?); [lia|]. split; lia.
Qed.

Lemma token_guard (l : list Address) x :
  negb (bool_decide (l = [])) && negb (bool_decide (x ∈ l)) = false -> l = [] \/ x ∈ l.
Proof. destruct (decide (l = [])); [by left|]. intros Hg. rewrite bool_decide_false in Hg by done. right. by case_bool_decide. Qed.

Lemma increment_inventory_Done event_id tier_id user quantity payment_token env s u s' :
  keyed (k_Event s) ->
  increment_inventory event_id tier_id user quantity payment_token env s = Done u s' ->
  exists e t, sale_admitted env s event_id tier_id user quantity payment_token e t /\
              sale_effect s s' event_id tier_id user quantity e t.
Proof.
  intros Hkey Hrun. unfold increment_inventory in Hrun. rexec.
  match goal with
  | H : _ = Done ?ex _, _ : storage.get_event _ _ = Some ?e0,
    _ : ev_tiers ?e0 !! _ = Some ?t0 |- _ =>
      apply goal_branch in H as (-> & l & ->); rename e0 into e; rename t0 into t
  end.
  exists e, t. upd_simpl. assert (ev_event_id e = event_id) by eauto. split.
  - split; eauto; try (bools; lia).
    + bools. by destruct (ev_is_active e).
    + bools. by destruct (ev_status e).
    + by apply token_guard.
    + intros. eapply (guard_bound I128); eauto.
    + intros. eapply (guard_bound U32); eauto.
  - split; unfold storage.add_to_global_tickets_sold; upd_simpl.
    + destruct (0 <? tier_max_per_user t); by subst.
    + case_match eqn:Hm; [|done].
      unfold storage.add_to_user_ticket_count, storage.set_user_ticket_count. upd_simpl.
      unfold saturating_add. rewrite saturate_in; [done|].
      eapply guard_bound; [eauto|lia].
    + destruct (0 <? tier_max_per_user t); done.
Qed.

Lemma increment_inventory_ok event_id tier_id user quantity payment_token env s e t :
  keyed (k_Event s) ->
  sale_admitted env s event_id tier_id user quantity payment_token e t ->
  exists s', increment_inventory event_id tier_id user quantity payment_token env s = Done tt s'.
Proof.
  intros Hkey []. destruct adm_auth0 as (tp & Htp & Hauth).
  assert (ev_event_id e = event_id) as Hid by eauto.
  unfold increment_inventory.
  run_step. run_step. { done. }
  run_step. { done. }
  run_step. { lia. }
  run_step. run_step. { done. }
  run_step. { rewrite adm_active0. by destruct (ev_status e). }
  run_step. { destruct adm_token0 as [->|]; [done|].
              rewrite (bool_decide_true (payment_token ∈ _)) by done. apply andb_false_r. }
  run_step. { intros. eexists. split; [by apply checked_in|]. lia. }
  run_step. { done. }
  run_step. { by apply checked_in. }
  run_step. { lia. }
  eapply bind_total.
  { rewrite when_gets. apply when_throw_if_ok. intros Hm. destruct adm_user0; [lia|].
    eexists. split; [by apply checked_in|]. lia. }
  run_step. { by apply checked_in. }
  eapply (bind_total _ _ _ _ tt). { by apply when_modify_Done. }
  run_step. run_step.
  match goal with |- context [((if ?b then _ else _) ≫= _) _ ?s1] => destruct b; set (s0 := s1) end.
  - eapply bind_total; [done|].
    eapply bind_total; [|by eexists].
    apply (update_event_ok _ e); upd_simpl; [|done..].
    subst s0. rewrite Hid. by destruct (0 <? _).
  - eapply bind_total; [done|].
    eapply bind_total; [|by eexists].
    apply (update_event_ok _ e); upd_simpl; [|done..].
    subst s0. rewrite Hid. by destruct (0 <? _).
Qed.

(** ** What a refund does *)

Lemma decrement_inventory_Done event_id tier_id env s u s' :
  keyed (k_Event s) ->
  decrement_inventory event_id tier_id env s = Done u s' ->
  exists e t, k_Event s !! event_id = Some e /\ ev_tiers e !! tier_id = Some t /\
    0 < tier_current_sold t /\ 0 < ev_current_supply e /\
    (exists tp, k_TicketPaymentContract s = Some tp /\ tp ∈ auths env) /\
    k_Event s' = <[event_id := sell tier_id t (-1) e]> (k_Event s) /\
    k_UserTicketCount s' = k_UserTicketCount s /\
    k_GlobalTicketsSold s' = k_GlobalTicketsSold s.
Proof.
  intros Hkey Hrun. unfold decrement_inventory in Hrun. rexec. upd_simpl. bools.
  match goal with
  | _ : storage.get_event _ _ = Some ?e0, _ : ev_tiers ?e0 !! _ = Some ?t0 |- _ =>
      exists e0, t0; assert (ev_event_id e0 = event_id) as -> by eauto
  end.
  eauto 12 with lia.
Qed.

Lemma execute_teleport_mint_Done recipient tier_id event_id quantity env s u s' :
  keyed (k_Event s) ->
  execute_teleport_mint recipient tier_id event_id quantity env s = Done u s' ->
  exists e t, k_Event s !! event_id = Some e /\ ev_tiers e !! tier_id = Some t /\
    ev_is_active e = true /\ ev_status e <> Cancelled /\
    (0 < ev_max_supply e -> ev_current_supply e + quantity <= ev_max_supply e) /\
    tier_current_sold t + quantity <= tier_tier_limit t /\
    k_Event s' = <[event_id := sell tier_id t quantity e]> (k_Event s) /\
    k_Teleport s' = k_Teleport s.
Proof.
  intros Hkey Hrun. unfold execute_teleport_mint in Hrun. rexec.
  unfold storage.add_to_global_tickets_sold in *. upd_simpl. bools.
  match goal with
  | _ : storage.get_event _ _ = Some ?e0, _ : ev_tiers ?e0 !! _ = Some ?t0 |- _ =>
      exists e0, t0; assert (ev_event_id e0 = event_id) as -> by eauto;
      destruct (ev_is_active e0), (ev_status e0); try done
  end;
  (split_and!; try done; try lia; intros; eapply (guard_bound I128); eauto).
Qed.

(** ** Consistent events *)

(** Every tier is within its limit, the tiers account for the whole supply,
    and the limits fit the event's maximum. *)
Record ledger_ok (e : EventInfo) : Prop := {
  lo_tier id t : ev_tiers e !! id = Some t -> 0 <= tier_current_sold t <= tier_tier_limit t;
  lo_sum : sum_map tier_current_sold (ev_tiers e) = ev_current_supply e;
  lo_limit : 0 < ev_max_supply e -> sum_map tier_tier_limit (ev_tiers e) <= ev_max_supply e;
}.

Lemma sell_ok tier_id t quantity e :
  ev_tiers e !! tier_id = Some t ->
  0 <= tier_current_sold t + quantity <= tier_tier_limit t ->
  ledger_ok e -> ledger_ok (sell tier_id t quantity e).
Proof.
  intros Ht Hq [Htier Hsum Hlim]. split; unfold sell; upd_simpl.
  - intros id t' [[<- <-]|[? ?]]%lookup_insert_Some; [by upd_simpl|eauto].
  - rewrite sum_map_insert, Ht. cbn [from_option]. upd_simpl. lia.
  - rewrite sum_map_insert, Ht. cbn [from_option]. upd_simpl. lia.
Qed.

Lemma ledger_ok_goal e g : ledger_ok e -> ledger_ok (e <| ev_goal_met := g |>).
Proof. intros [Htier Hsum Hlim]. by split. Qed.

(** A consistent event never exceeds its maximum. *)
Lemma ledger_ok_supply e :
  ledger_ok e -> 0 <= ev_current_supply e /\
  (0 < ev_max_supply e -> ev_current_supply e <= ev_max_supply e).
Proof.
  intros [Htier Hsum Hlim]. rewrite <- Hsum. split.
  - apply sum_map_nonneg. intros id t Ht. apply (Htier id t Ht).
  - intros Hmax. transitivity (sum_map tier_tier_limit (ev_tiers e)); [|auto].
    apply sum_map_le. intros id t Ht. apply (Htier id t Ht).
Qed.

Lemma sell_sell tier_id t q e :
  ev_tiers e !! tier_id = Some t ->
  sell tier_id (t <| tier_current_sold := tier_current_sold t + q |>) (- q)
       (sell tier_id t q e) = e.
Proof.
  intros Ht. unfold sell. upd_simpl. rewrite insert_insert_eq.
  destruct t as [tn tp tl ts tr ta tm tu], e; cbn in *.
  replace (ts + q + - q) with ts by lia. rewrite insert_id by done.
  by replace (ev_current_supply + q + - q) with ev_current_supply by lia.
Qed.

(** ** Properties *)

(** The inventory accepts exactly the admissible sales.  A sale the rules
    admit (the registered payment contract calls; the event exists, is active,
    not cancelled and accepts the token; the quantity is positive and fits the
    supply, the tier's limit and the buyer's limit) succeeds, raises the
    supply, the tier's count, the buyer's count and the global counter by
    exactly its quantity, sets the goal flag exactly when the target is
    reached, and changes no other event, tier or buyer; and no other sale
    succeeds. *)
Theorem increment_inventory_correct event_id tier_id user quantity payment_token env s :
  keyed (k_Event s) ->
  (forall e t, sale_admitted env s event_id tier_id user quantity payment_token e t ->
     exists s', increment_inventory event_id tier_id user quantity payment_token env s
                = Done tt s' /\ sale_effect s s' event_id tier_id user quantity e t) /\
  (forall u s', increment_inventory event_id tier_id user quantity payment_token env s
                = Done u s' ->
     exists e t, sale_admitted env s event_id tier_id user quantity payment_token e t).
Proof.
  intros Hkey. split.
  - intros e t Hadm. destruct (increment_inventory_ok _ _ _ _ _ _ _ _ _ Hkey Hadm) as [s' Hs'].
    exists s'. split; [done|].
    destruct (increment_inventory_Done _ _ _ _ _ _ _ _ _ Hkey Hs') as (e' & t' & Hadm' & Heff).
    destruct Hadm, Hadm'. by simplify_eq.
  - intros u s' Hs'.
    destruct (increment_inventory_Done _ _ _ _ _ _ _ _ _ Hkey Hs') as (e & t & Hadm & _). eauto.
Qed.

Lemma increment_inventory_correct_witness :
  exists s', increment_inventory "e1" "gen" "ALICE" 3 "USDC"
               (Sample.env 100 ["TP"]) Sample.state = Done tt s' /\
             sale_effect Sample.state s' "e1" "gen" "ALICE" 3 Sample.event Sample.tier.
Proof.
  apply (increment_inventory_correct "e1" "gen" "ALICE" 3 "USDC" (Sample.env 100 ["TP"])
           Sample.state Sample.state_keyed).
  split; try done.
  - exists "TP". split; [done|]. by left.
  - right. by left.
Defined.

(** A refund undoes a sale on the event: selling one ticket and then
    decrementing the same tier leaves the supply and every tier as they were
    (only the goal flag may have been set).  The buyer's count and the global
    counter keep the sale: [decrement_inventory] does not give them back. *)
Theorem sale_then_refund event_id tier_id user payment_token env env' s u s1 v s2 :
  keyed (k_Event s) ->
  increment_inventory event_id tier_id user 1 payment_token env s = Done u s1 ->
  decrement_inventory event_id tier_id env' s1 = Done v s2 ->
  exists e g, k_Event s !! event_id = Some e /\
    k_Event s2 = <[event_id := e <| ev_goal_met := g |>]> (k_Event s) /\
    k_UserTicketCount s2 = k_UserTicketCount s1 /\
    k_GlobalTicketsSold s2 = k_GlobalTicketsSold s1.
Proof.
  intros Hkey H1 H2. apply increment_inventory_Done in H1 as (e & t & Hadm & Heff); [|done].
  destruct Hadm, Heff. assert (ev_event_id e = event_id) as Hid by eauto.
  assert (keyed (k_Event s1)) as Hkey1 by (rewrite eff_event0; by apply keyed_insert).
  apply decrement_inventory_Done in H2 as (e1 & t1 & He1 & Ht1 & _ & _ & _ & -> & -> & ->);
    [|done].
  rewrite eff_event0, lookup_insert_eq in He1. simplify_eq.
  unfold sell in Ht1. upd_simpl. rewrite lookup_insert_eq in Ht1. simplify_eq.
  exists e, (goal_after e (ev_current_supply e + 1)). split_and!; [done| |done|done].
  rewrite eff_event0, insert_insert_eq. f_equal.
  rewrite <- (sell_sell tier_id t 1 e) at 2 by done. done.
Qed.

Lemma sale_then_refund_witness :
  let env1 := Sample.env 100 ["TP"] in
  let env2 := Sample.env 200 ["TP"] in
  let s1 := invoke (increment_inventory "e1" "gen" "ALICE" 1 "USDC") env1 Sample.state in
  let s2 := invoke (decrement_inventory "e1" "gen") env2 s1 in
  exists e g, k_Event Sample.state !! "e1" = Some e /\
    k_Event s2 = <["e1" := e <| ev_goal_met := g |>]> (k_Event Sample.state) /\
    k_UserTicketCount s2 = k_UserTicketCount s1 /\
    k_GlobalTicketsSold s2 = k_GlobalTicketsSold s1.
Proof.
  intros env1 env2 s1 s2.
  apply (sale_then_refund "e1" "gen" "ALICE" "USDC" env1 env2 Sample.state tt s1 tt s2).
  - apply Sample.state_keyed.
  - apply (returned_invoke (increment_inventory "e1" "gen" "ALICE" 1 "USDC")).
    vm_compute. reflexivity.
  - apply (returned_invoke (decrement_inventory "e1" "gen")). vm_compute. reflexivity.
Defined.
