(* ===== verification/RegistryAdmin.v ===== *)
(** * Event registry: administration

    Initialisation, the payment-token whitelist, the two-step transfer of the
    administrator, the registered payment contract, the blacklist with its
    suspension of events, the platform-wide promotion and the scanners
    ([event_registry/src/lib.rs]). *)

From stdpp Require Import base tactics numbers list strings gmap.
From S2P Require Import Prelude.
From S2P Require Import Soroban.
From S2P Require Import Sharded.
From S2P Require Import RegistryTypes.
From S2P Require Import RegistryStorage.
From S2P Require Import RegistryEvents.

Definition initialize (admin platform_wallet : Address) (platform_fee_percent : Z)
    (usdc_token : Address) : R unit :=
  init ← gets storage.is_initialized;
  throw_if init AlreadyInitialized;;
  validate_address admin;;
  validate_address platform_wallet;;
  validate_address usdc_token;;
  throw_if (10000 <? platform_fee_percent) InvalidFeePercent;;
  modify (storage.set_admin admin);;
  modify (storage.set_multisig_config {| cfg_admins := [admin]; cfg_threshold := 1 |});;
  modify (storage.set_platform_wallet platform_wallet);;
  modify (storage.set_platform_fee platform_fee_percent);;
  modify (storage.add_to_token_whitelist usdc_token);;
  modify (storage.set_initialized true);;
  now ← ledger_timestamp;
  publish (AgoraEvent.ContractInitialized admin platform_wallet platform_fee_percent now).

(** ** Token whitelist *)
Definition add_to_token_whitelist (token : Address) : R unit :=
  require_admin;;
  validate_address token;;
  modify (storage.add_to_token_whitelist token).

Definition remove_from_token_whitelist (token : Address) : R unit :=
  require_admin;;
  modify (storage.remove_from_token_whitelist token).

(** ** Administrator *)
Definition get_admin : R Address :=
  o ← gets storage.get_admin; ok_or o NotInitialized.

Definition propose_admin (new_admin : Address) : R unit :=
  current_admin ← require_admin;
  validate_address new_admin;;
  modify (storage.set_pending_admin new_admin);;
  now ← ledger_timestamp;
  publish (AgoraEvent.AdminProposed current_admin new_admin now).

Definition accept_admin : R unit :=
  o ← gets storage.get_pending_admin;
  proposed_admin ← ok_or o Unauthorized;
  require_auth proposed_admin;;
  o ← gets storage.get_admin;
  previous_admin ← ok_or o NotInitialized;
  modify (storage.set_admin proposed_admin);;
  o ← gets storage.get_multisig_config;
  match o with
  | Some config =>
      let updated_admins :=
        (fun admin => if bool_decide (admin = previous_admin) then proposed_admin else admin)
          <$> cfg_admins config in
      modify (storage.set_multisig_config (config <| cfg_admins := updated_admins |>))
  | None => mret tt
  end;;
  modify storage.clear_pending_admin;;
  now ← ledger_timestamp;
  publish (AgoraEvent.AdminTransferred previous_admin proposed_admin now).

Definition cancel_admin_proposal : R unit :=
  current_admin ← require_admin;
  o ← gets storage.get_pending_admin;
  proposed_admin ← ok_or o Unauthorized;
  modify storage.clear_pending_admin;;
  now ← ledger_timestamp;
  publish (AgoraEvent.AdminProposalCancelled current_admin proposed_admin now).

Definition get_platform_wallet : R Address :=
  o ← gets storage.get_platform_wallet; ok_or o NotInitialized.

Definition set_ticket_payment_contract (ticket_payment_address : Address) : R unit :=
  require_admin;;
  validate_address ticket_payment_address;;
  modify (storage.set_ticket_payment_contract ticket_payment_address).

Definition get_ticket_payment_contract : R Address :=
  o ← gets storage.get_ticket_payment_contract; ok_or o NotInitialized.

(** ** Blacklist *)
Definition suspend_one (suspended_count : Z) (event_id : string) : R Z :=
  o ← gets (storage.get_event event_id);
  match o with
  | Some event_info =>
      if ev_is_active event_info then
        storage.store_event (event_info <| ev_is_active := false |>);;
        add_ U32 suspended_count 1
      else mret suspended_count
  | None => mret suspended_count
  end.

Definition suspend_organizer_events (organizer_address : Address) : R unit :=
  organizer_events ← gets (storage.get_organizer_events organizer_address organizer_address);
  suspended_count ← foldM suspend_one 0 organizer_events;
  when (0 <? suspended_count) (
    o ← gets storage.get_admin;
    admin ← ok_or o NotInitialized;
    now ← ledger_timestamp;
    publish (AgoraEvent.EventsSuspended organizer_address suspended_count admin now)).

Definition blacklist_organizer (organizer_address : Address) (reason : string) : R unit :=
  admin ← require_admin;
  validate_address organizer_address;;
  black ← gets (storage.is_blacklisted organizer_address);
  if (black : bool) then mret tt
  else
    modify (storage.add_to_blacklist organizer_address);;
    now ← ledger_timestamp;
    modify (storage.add_blacklist_audit_entry
              {| bl_organizer_address := organizer_address; bl_added_to_blacklist := true;
                 bl_admin_address := admin; bl_reason := reason; bl_timestamp := now |});;
    publish (AgoraEvent.OrganizerBlacklisted organizer_address admin reason now);;
    suspend_organizer_events organizer_address.

Definition remove_from_blacklist (organizer_address : Address) (reason : string) : R unit :=
  admin ← require_admin;
  validate_address organizer_address;;
  black ← gets (storage.is_blacklisted organizer_address);
  throw_if (negb black) OrgNotBlacklisted;;
  modify (storage.remove_from_blacklist organizer_address);;
  now ← ledger_timestamp;
  modify (storage.add_blacklist_audit_entry
            {| bl_organizer_address := organizer_address; bl_added_to_blacklist := false;
               bl_admin_address := admin; bl_reason := reason; bl_timestamp := now |});;
  publish (AgoraEvent.OrganizerRemovedFromBlacklist organizer_address admin reason now).

(** ** Promotion *)
Definition set_global_promo (global_promo_bps promo_expiry : Z) : R unit :=
  admin ← require_admin;
  throw_if (10000 <? global_promo_bps) InvalidPromoBps;;
  modify (storage.set_global_promo_bps global_promo_bps);;
  modify (storage.set_promo_expiry promo_expiry);;
  now ← ledger_timestamp;
  publish (AgoraEvent.GlobalPromoUpdated global_promo_bps promo_expiry admin now).

Definition get_global_promo_bps : R Z :=
  expiry ← gets storage.get_promo_expiry;
  now ← ledger_timestamp;
  if expiry <=? now then mret 0 else gets storage.get_global_promo_bps.

Definition get_global_promo : R (option (Z * Z)) :=
  expiry ← gets storage.get_promo_expiry;
  now ← ledger_timestamp;
  if expiry <=? now then mret None
  else bps ← gets storage.get_global_promo_bps; mret (Some (bps, expiry)).

(** ** Scanners *)
Definition authorize_scanner (event_id : string) (scanner : Address) : R unit :=
  o ← gets (storage.get_event event_id);
  event_info ← ok_or o EventNotFound;
  require_organizer event_id (ev_organizer_address event_info);;
  modify (storage.authorize_scanner event_id scanner);;
  now ← ledger_timestamp;
  publish (AgoraEvent.ScannerAuthorized event_id scanner
             (ev_organizer_address event_info) now).

Definition revoke_scanner (event_id : string) (scanner : Address) : R unit :=
  o ← gets (storage.get_event event_id);
  event_info ← ok_or o EventNotFound;
  require_organizer event_id (ev_organizer_address event_info);;
  modify (storage.remove_scanner event_id scanner);;
  now ← ledger_timestamp;
  publish (AgoraEvent.ScannerRevoked event_id scanner (ev_organizer_address event_info) now).
