(* ===== verification/RegistryLifecycle.v ===== *)
(** * Event registry: the life of an event

    What registration, cancellation, archival and the blacklist do to events,
    their indexes and their counters. *)

From stdpp Require Import base tactics numbers list strings gmap sorting.
From S2P Require Import Prelude.
From S2P Require Import Soroban.
From S2P Require Import Sharded.
From S2P Require Import RegistryTypes.
From S2P Require Import RegistryStorage.
From S2P Require Import RegistryEvents.
From S2P Require Import RegistryInventory.
From S2P Require Import RegistryAdmin.

(** ** Registration *)

(** The validation rules of a registration. *)
Record args_valid (args : EventRegistrationArgs) : Prop := {
  av_cid : valid_metadata_cid (args_metadata_cid args) = true;
  av_tags tags : args_tags args = Some tags -> forallb valid_tag tags = true;
  av_tiers : map_len (args_tiers args) <= MAX_TIERS_PER_EVENT;
  av_price id t : args_tiers args !! id = Some t -> 0 <= tier_price t;
  av_limit : 0 < args_max_supply args ->
    sum_map tier_tier_limit (args_tiers args) <= args_max_supply args;
  av_resale cap : args_resale_cap_bps args = Some cap -> cap <= 10000;
  av_milestones plan : args_milestone_plan args = Some plan ->
    sum_by ms_release_percent plan <= 10000;
  av_times : args_start_time args <> 0 -> args_end_time args <> 0 ->
    args_start_time args < args_end_time args;
}.

Lemma prices_Done ts env s u s' :
  foldM (fun _ tier => validate_tier_price tier) tt ts env s = Done u s' ->
  s' = s /\ Forall (fun t => 0 <= tier_price t) ts.
Proof.
  induction ts as [|t ts IH]; cbn [foldM]; intros Hrun; [by run|]. run.
  destruct a. apply IH in Hrun as [-> ?]. auto.
Qed.

Lemma total_release_Done ms env s z s' :
  total_release_bps ms env s = Done z s' -> s' = s /\ z = sum_by ms_release_percent ms.
Proof.
  unfold total_release_bps. enough (forall acc, foldM
    (fun total m => ok_or (checked_add U32 total (ms_release_percent m)) InvalidMilestonePlan)
    acc ms env s = Done z s' -> s' = s /\ z = acc + sum_by ms_release_percent ms) as Hgen
    by apply Hgen.
  induction ms as [|m ms IH]; cbn [foldM]; intros acc Hrun; run.
  - split; [done|]. unfold sum_by. cbn. lia.
  - apply IH in Hrun as [-> ->]. rewrite sum_by_cons. split; [done|lia].
Qed.

Lemma map_values_Forall {A} (P : A -> Prop) (m : gmap string A) :
  Forall P (map_values m) -> forall id x, m !! id = Some x -> P x.
Proof.
  intros HP id x Hx. rewrite Forall_forall in HP. apply HP. unfold map_values.
  apply list_elem_of_fmap. exists (id, x). split; [done|].
  rewrite merge_sort_Permutation. by apply elem_of_map_to_list.
Qed.

Lemma register_event_Done args env s u s' :
  register_event args env s = Done u s' ->
  args_valid args /\ storage.is_initialized s = true /\
  args_organizer_address args ∈ auths env /\
  storage.is_blacklisted (args_organizer_address args) s = false /\
  k_Event s !! args_event_id args = None /\
  exists v s1,
    storage.store_event (new_event (timestamp env) (storage.get_platform_fee s) args) env s
      = Done v s1 /\
    s' = s1 <| log := log s1 ++ [AgoraEvent.EventRegistered (args_event_id args)
           (args_organizer_address args) (args_payment_address args) (timestamp env)] |>.
Proof.
  intros Hrun. unfold register_event, storage.event_exists in Hrun. run.
  assert (forall tags, args_tags args = Some tags -> forallb valid_tag tags = true) as Htags
    by (intros tags Ht; rewrite Ht in *; by run).
  match goal with H : match args_tags args with _ => _ end _ _ = Done _ ?s1 |- _ =>
    assert (s1 = s) as -> by (destruct (args_tags args); by run) end.
  run.
  match goal with H : foldM _ _ _ _ _ = _ |- _ => apply prices_Done in H as [-> Hprice] end.
  match goal with H : when _ _ _ _ = _ |- _ => apply tier_limit_check_Done in H as [-> Hlim] end.
  run.
  assert (forall plan, args_milestone_plan args = Some plan ->
    sum_by ms_release_percent plan <= 10000) as Hms.
  { intros plan Hp. rewrite Hp in *. run. bools.
    match goal with H : total_release_bps _ _ _ = _ |- _ =>
      apply total_release_Done in H as [-> ->] end. lia. }
  match goal with H : match args_milestone_plan args with _ => _ end _ _ = Done _ ?s1 |- _ =>
    assert (s1 = s) as -> end.
  { destruct (args_milestone_plan args); run; [|done].
    match goal with H : total_release_bps _ _ _ = _ |- _ =>
      by apply total_release_Done in H as [-> _] end. }
  run.
  repeat match goal with H : negb ?b = false |- _ => apply negb_false_iff in H end.
  match goal with H : bool_decide (is_Some _) = false |- _ =>
    apply bool_decide_eq_false, eq_None_not_Some in H end.
  split; [|split_and!; [done..|]; eexists _, _; by split].
  split; try done.
  - by apply Z.ltb_ge.
  - by apply map_values_Forall.
  - intros cap Hcap. unfold resale_cap_ok in *. rewrite Hcap in *. by apply Z.leb_le.
  - intros Hs He. match goal with H : _ && _ && (_ <=? _) = false |- _ => rename H into Ht end.
    rewrite (proj2 (Z.eqb_neq _ 0) Hs), (proj2 (Z.eqb_neq _ 0) He) in Ht. cbn in Ht. lia.
Qed.

(** ** The event table *)

(** Events are stored under their identifiers, the organizer flags are exactly
    the events, and the index counters are not negative. *)
Record events_inv (s : State) : Prop := {
  ei_keyed : keyed (k_Event s);
  ei_flags o id : is_Some (k_OrganizerEvent s !! (o, id)) <->
    exists e, k_Event s !! id = Some e /\ ev_organizer_address e = o;
  ei_counts o : 0 <= count (k_OrganizerEventIndex s) o;
}.

(** The public counter of active events is exact. *)
Record active_inv (s : State) : Prop := {
  ai_range : storage.get_global_active_event_count s ∈ᵢ U32;
  ai_count : storage.get_global_active_event_count s = sum_map pub_active (k_Event s);
}.

Definition events_view (s : State) :=
  (k_Event s, k_OrganizerEvent s, k_OrganizerEventIndex s, k_GlobalActiveEventCount s).

Lemma events_inv_frame s s' : events_view s' = events_view s -> events_inv s -> events_inv s'.
Proof.
  unfold events_view. intros [= HE HO HI _] []. split; rewrite ?HE, ?HO, ?HI; auto.
Qed.

Lemma active_inv_frame s s' : events_view s' = events_view s -> active_inv s -> active_inv s'.
Proof.
  unfold events_view. intros [= HE HO HI HG] [].
  split; unfold storage.get_global_active_event_count in *; rewrite ?HE, ?HG; auto.
Qed.

Lemma events_inv_init : events_inv init_state.
Proof.
  split; [done| |done]. intros o id. split; [by intros [? ?]|by intros (? & ? & ?)].
Qed.

Lemma active_inv_init : active_inv init_state.
Proof. by split. Qed.

(** The public-active status of an update does not hide a decrement. *)
Definition visible_step (s : State) (e : EventInfo) : Prop :=
  forall prev, k_Event s !! ev_event_id e = Some prev ->
    ev_is_private prev = true -> ev_is_active prev = true ->
    ev_is_private e = false -> ev_is_active e = true.

Lemma active_synced s e c :
  visible_step s e -> active_inv s -> synced s (k_Event s !! ev_event_id e) e c ->
  default 0 c ∈ᵢ U32 /\
  default 0 c = sum_map pub_active (<[ev_event_id e := e]> (k_Event s)).
Proof.
  intros Hvis [Hr Hc] Hs. destruct (Hs Hr) as [Hrange Heq]. split; [done|].
  rewrite Heq, sync_delta_exact by done. rewrite sum_map_insert, Hc.
  set (m := k_Event s). set (x := from_option pub_active 0 (m !! ev_event_id e)).
  enough (x <= sum_map pub_active m) by (pose proof (pub_active_range e); lia).
  unfold x. destruct (m !! ev_event_id e) as [e0|] eqn:He0; cbn.
  - eapply sum_map_elem; [|done]. intros ? y _. pose proof (pub_active_range y). lia.
  - apply sum_map_nonneg. intros ? y _. pose proof (pub_active_range y). lia.
Qed.

(** Updating an event of the table. *)
Lemma update_event_inv e e0 env s u s' :
  events_inv s -> k_Event s !! ev_event_id e = Some e0 ->
  ev_organizer_address e = ev_organizer_address e0 ->
  storage.update_event e env s = Done u s' -> events_inv s'.
Proof.
  intros [] He0 Ho (c & _ & ->)%update_event_Done. split; upd_simpl.
  - by apply keyed_insert.
  - intros o id. rewrite ei_flags0.
    destruct (decide (id = ev_event_id e)) as [->|Hne].
    + rewrite lookup_insert_eq. naive_solver congruence.
    + by rewrite lookup_insert_ne.
  - done.
Qed.

Lemma update_event_active e env s u s' :
  active_inv s -> visible_step s e ->
  storage.update_event e env s = Done u s' -> active_inv s'.
Proof.
  intros Hinv Hvis (c & Hs & ->)%update_event_Done.
  destruct (active_synced s e c Hvis Hinv Hs).
  by split; unfold storage.get_global_active_event_count; upd_simpl.
Qed.

Lemma push_counts k v (idx idx' : Index Address string) o :
  push storage.SHARD_SIZE k v idx = Some idx' ->
  0 <= count idx o -> 0 <= count idx k -> 0 <= count idx' o.
Proof.
  intros (_ & ->)%push_Some Ho Hk. unfold count. cbn [counts].
  destruct (decide (k = o)) as [->|Hne].
  - rewrite lookup_insert_eq. cbn. unfold count in *. lia.
  - by rewrite lookup_insert_ne.
Qed.

Lemma remove_counts k v (idx : Index Address string) o :
  (forall o, 0 <= count idx o) -> 0 <= count (remove storage.SHARD_SIZE k v idx) o.
Proof.
  intros Hc. unfold remove. case_match eqn:Hz; [done|]. bools.
  pose proof (remove_loop_spec storage.SHARD_SIZE eq_refl k v
    (seqZ 0 (div_ceil (count idx k) storage.SHARD_SIZE)) idx) as Hl.
  destruct (remove_loop _ _ _ _) as [idx'|]; [|done]. destruct Hl as (i & _ & _ & ->).
  unfold count at 1. cbn [counts]. destruct (decide (k = o)) as [->|Hne].
  - rewrite lookup_insert_eq. cbn. specialize (Hc o). lia.
  - rewrite lookup_insert_ne by done. apply Hc.
Qed.

Lemma store_event_inv e env s u s' :
  events_inv s ->
  (forall e0, k_Event s !! ev_event_id e = Some e0 ->
     ev_organizer_address e = ev_organizer_address e0) ->
  storage.store_event e env s = Done u s' -> events_inv s'.
Proof.
  intros [] Ho (c & s1 & _ & -> & Hrest)%store_event_Done.
  assert (forall o id, o <> ev_organizer_address e \/ id <> ev_event_id e ->
    (exists e1, k_Event s !! id = Some e1 /\ ev_organizer_address e1 = o) <->
    (exists e1, <[ev_event_id e := e]> (k_Event s) !! id = Some e1 /\
                ev_organizer_address e1 = o)) as Hother.
  { intros o id Hne. destruct (decide (id = ev_event_id e)) as [->|Hid];
      [|by rewrite lookup_insert_ne].
    rewrite lookup_insert_eq. naive_solver congruence. }
  case_match eqn:Hhas; [subst s'|destruct Hrest as (idx & n & Hpush & ->)]; split; upd_simpl;
    eauto using keyed_insert, push_counts.
  - unfold storage.has_organizer_event in Hhas. apply bool_decide_eq_true in Hhas.
    intros o id. destruct (decide (o = ev_organizer_address e /\ id = ev_event_id e)) as [[-> ->]|Hne].
    + split; [|done]. intros _. exists e. by rewrite lookup_insert_eq.
    + rewrite ei_flags0. apply Hother. destruct (decide (o = ev_organizer_address e)); naive_solver.
  - intros o id. destruct (decide (o = ev_organizer_address e /\ id = ev_event_id e)) as [[-> ->]|Hne].
    + rewrite !lookup_insert_eq. split; [|by intros]. intros _. by exists e.
    + rewrite lookup_insert_ne by naive_solver. rewrite ei_flags0. apply Hother.
      destruct (decide (o = ev_organizer_address e)); naive_solver.
Qed.

Lemma store_event_active e env s u s' :
  active_inv s -> visible_step s e ->
  storage.store_event e env s = Done u s' -> active_inv s'.
Proof.
  intros Hinv Hvis (c & s1 & Hs & -> & Hrest)%store_event_Done.
  destruct (active_synced s e c Hvis Hinv Hs).
  case_match; [subst s'|destruct Hrest as (idx & n & _ & ->)];
    by split; unfold storage.get_global_active_event_count; upd_simpl.
Qed.

(** ** Archival *)

Lemma archive_event_Done id env s u s' :
  archive_event id env s = Done u s' ->
  exists e, k_Event s !! id = Some e /\ ev_organizer_address e ∈ auths env /\
    ev_is_active e = false /\
    k_Event s' = delete id (k_Event s) /\
    k_OrganizerEvent s' = delete (ev_organizer_address e, id) (k_OrganizerEvent s) /\
    k_OrganizerEventIndex s' = remove storage.SHARD_SIZE (ev_organizer_address e) id
                                 (k_OrganizerEventIndex s) /\
    k_GlobalActiveEventCount s' = k_GlobalActiveEventCount s /\
    k_EventReceipt s' = <[id := {| rcpt_event_id := id;
                                   rcpt_organizer_address := ev_organizer_address e;
                                   rcpt_total_sold := ev_current_supply e;
                                   rcpt_archived_at := timestamp env |}]> (k_EventReceipt s) /\
    is_Some (k_OrganizerReceipt s' !! (ev_organizer_address e, id)) /\
    (k_OrganizerReceipt s !! (ev_organizer_address e, id) = None ->
     push storage.SHARD_SIZE (ev_organizer_address e) id (k_OrganizerReceiptIndex s)
       = Some (k_OrganizerReceiptIndex s')).
Proof.
  intros Hrun. unfold archive_event, storage.get_event in Hrun. run.
  destruct (k_Event s !! id) as [e|] eqn:He; run.
  unfold storage.store_event_receipt, storage.remove_event, storage.get_event in *.
  rewrite He in *.
  match goal with H : ev_is_active e = false |- _ => rewrite H in * end. cbn [andb] in *. run.
  unfold storage.remove_from_organizer_index, storage.has_organizer_receipt in *.
  upd_simpl. exists e. cbn [rcpt_event_id rcpt_organizer_address] in *.
  match goal with H : when (negb ?b) _ _ _ = _ |- _ => destruct b eqn:Hb end;
    cbn [negb when] in *; run; upd_simpl; split_and!; try done.
  - by apply bool_decide_eq_true in Hb.
  - intros Hn. rewrite Hn in Hb. done.
  - rewrite lookup_insert_eq. done.
Qed.

Lemma archive_event_inv id env s u s' :
  events_inv s -> archive_event id env s = Done u s' -> events_inv s'.
Proof.
  intros [] (e & He & _ & _ & HE & HF & HI & _)%archive_event_Done.
  split; rewrite ?HE, ?HF, ?HI.
  - by apply keyed_delete.
  - intros o id'. rewrite !lookup_delete_is_Some, ei_flags0.
    setoid_rewrite lookup_delete_Some. split.
    + intros (Hne & e' & He' & Ho'). exists e'. split_and!; try done. intros <-. naive_solver.
    + intros (e' & [Hne He'] & Ho'). split; [naive_solver|eauto].
  - intros o. by apply remove_counts.
Qed.

Lemma archive_event_active id env s u s' :
  active_inv s -> archive_event id env s = Done u s' -> active_inv s'.
Proof.
  intros [] (e & He & _ & Ha & HE & _ & _ & HG & _)%archive_event_Done.
  unfold storage.get_global_active_event_count in *.
  split; unfold storage.get_global_active_event_count; rewrite ?HE, ?HG; [done|].
  rewrite sum_map_delete, He. cbn. unfold pub_active at 2. rewrite Ha. cbn. lia.
Qed.

(** ** Suspension *)

Definition deactivate (e : EventInfo) : EventInfo := e <| ev_is_active := false |>.

Lemma deactivate_id e : ev_is_active e = false -> deactivate e = e.
Proof. destruct e. cbn. by intros ->. Qed.

Lemma suspend_one_Done n id env s n' s' :
  keyed (k_Event s) -> suspend_one n id env s = Done n' s' ->
  (forall x, k_Event s' !! x
     = if bool_decide (x = id) then deactivate <$> k_Event s !! x else k_Event s !! x) /\
  k_BlacklistedOrganizer s' = k_BlacklistedOrganizer s /\
  k_BlacklistLog s' = k_BlacklistLog s.
Proof.
  intros Hkey Hrun. unfold suspend_one, storage.get_event in Hrun. run.
  destruct (k_Event s !! id) as [e|] eqn:He.
  2: { run. split; [|done]. intros x. case_bool_decide; [|done]. subst. by rewrite He. }
  destruct (ev_is_active e) eqn:Ha; run.
  2: { split; [|done]. intros x. case_bool_decide; [|done]. subst. rewrite He. cbn.
       by rewrite deactivate_id. }
  match goal with H : storage.store_event _ _ _ = _ |- _ =>
    apply store_event_Done in H as (c & s1 & _ & -> & Hrest) end.
  assert (ev_event_id e = id) as Hid by eauto. upd_simpl.
  match type of Hrest with if ?b then _ else _ => destruct b end;
    [rewrite Hrest; clear Hrest|destruct Hrest as (idx & k & _ & ->)]; upd_simpl.
  all: split; [|done]; intros x; rewrite Hid; case_bool_decide as Hx;
    [subst; rewrite lookup_insert_eq, He|rewrite lookup_insert_ne]; done.
Qed.

Lemma suspend_loop_Done ids env : forall n s n' s',
  keyed (k_Event s) -> foldM suspend_one n ids env s = Done n' s' ->
  (forall x, k_Event s' !! x
     = if bool_decide (x ∈ ids) then deactivate <$> k_Event s !! x else k_Event s !! x) /\
  k_BlacklistedOrganizer s' = k_BlacklistedOrganizer s /\
  k_BlacklistLog s' = k_BlacklistLog s.
Proof.
  induction ids as [|id ids IH]; intros n s n' s' Hkey Hrun; cbn [foldM] in Hrun; run; [done|].
  match goal with H : suspend_one _ _ _ _ = Done _ ?s1 |- _ =>
    apply suspend_one_Done in H as (Hs1 & Hb1 & Hl1); [|done]; rename s1 into sm end.
  apply IH in Hrun as (Hs' & -> & ->).
  - split; [|done]. intros x. rewrite Hs', Hs1.
    destruct (decide (x = id)) as [->|Hne].
    + rewrite (bool_decide_true (id = id)), (bool_decide_true (id ∈ id :: ids)) by set_solver.
      case_bool_decide; [|done]. by destruct (k_Event s !! id).
    + rewrite (bool_decide_false (x = id)) by done.
      by rewrite (bool_decide_ext (x ∈ id :: ids) (x ∈ ids)) by set_solver.
  - intros x e. rewrite Hs1. case_bool_decide; [|apply Hkey].
    intros (e0 & He0 & ->)%fmap_Some. apply (Hkey _ _ He0).
Qed.

(** An organizer sees the whole index. *)
Lemma get_organizer_events_own o s :
  storage.get_organizer_events o o s
  = to_list storage.SHARD_SIZE (k_OrganizerEventIndex s) o.
Proof.
  unfold storage.get_organizer_events. rewrite bool_decide_true by done.
  induction (to_list _ _ _) as [|x l IH]; [done|]. cbn. by rewrite IH.
Qed.

Lemma blacklist_Done o reason env s u s' :
  keyed (k_Event s) -> storage.is_blacklisted o s = false ->
  blacklist_organizer o reason env s = Done u s' ->
  exists admin, k_Admin s = Some admin /\ admin ∈ auths env /\
    k_BlacklistedOrganizer s' = <[o := true]> (k_BlacklistedOrganizer s) /\
    storage.get_blacklist_audit_log s' = storage.get_blacklist_audit_log s ++
      [{| bl_organizer_address := o; bl_added_to_blacklist := true; bl_admin_address := admin;
          bl_reason := reason; bl_timestamp := timestamp env |}] /\
    (forall x, k_Event s' !! x =
       if bool_decide (x ∈ storage.get_organizer_events o o s)
       then deactivate <$> k_Event s !! x else k_Event s !! x).
Proof.
  intros Hkey Hb Hrun. unfold blacklist_organizer, suspend_organizer_events in Hrun. run.
  rewrite Hb in *. run.
  match goal with H : foldM suspend_one _ _ _ _ = _ |- _ =>
    apply suspend_loop_Done in H as (Hev & Hbl & Hlog); [|exact Hkey] end.
  unfold storage.add_to_blacklist, storage.add_blacklist_audit_entry in *. upd_simpl.
  unfold storage.get_blacklist_audit_log in *. upd_simpl.
  match goal with H : when _ _ _ ?s1 = Done _ s' |- _ =>
    assert (k_BlacklistedOrganizer s' = k_BlacklistedOrganizer s1 /\
            k_BlacklistLog s' = k_BlacklistLog s1 /\ k_Event s' = k_Event s1) as (-> & -> & ->)
      by (destruct (0 <? _); cbn [when] in H; run; by upd_simpl) end.
  eexists. rewrite Hbl, Hlog. split_and!; try done.
Qed.

(** ** Properties *)

(** A registration is accepted only when it obeys the rules and records
    exactly the event asked for.  The contract is initialised; the organizer
    signed and is not blacklisted; the identifier is new; the metadata CID and
    tags are well formed; there are at most 20 tiers, none with a negative
    price, whose limits fit the maximum supply (when positive); the resale cap
    and the milestones are within 100%; the event ends after it starts.  The
    stored event is active, unsold and charges the current platform fee, other
    events are untouched, and the organizer's list shows it. *)
Theorem register_event_sound args env s u s' :
  events_inv s ->
  register_event args env s = Done u s' ->
  args_valid args /\ storage.is_initialized s = true /\
  args_organizer_address args ∈ auths env /\
  storage.is_blacklisted (args_organizer_address args) s = false /\
  k_Event s !! args_event_id args = None /\
  k_Event s' = <[args_event_id args :=
    new_event (timestamp env) (storage.get_platform_fee s) args]> (k_Event s) /\
  args_event_id args ∈ storage.get_organizer_events (args_organizer_address args)
                         (args_organizer_address args) s'.
Proof.
  intros Hinv (Hval & Hinit & Hau & Hbl & Hnew & v & s1 & Hst & ->)%register_event_Done.
  split_and!; try done; upd_simpl.
  - apply store_event_Done in Hst as (c & s2 & _ & -> & Hrest).
    case_match; [subst|destruct Hrest as (idx & n & _ & ->)]; by upd_simpl.
  - apply store_event_Done in Hst as (c & s2 & _ & -> & Hrest).
    assert (storage.has_organizer_event (args_organizer_address args) (args_event_id args) s
            = false) as Hflag.
    { unfold storage.has_organizer_event. apply bool_decide_eq_false.
      rewrite (ei_flags s Hinv). intros (e & He & _). congruence. }
    cbn [new_event ev_organizer_address ev_event_id] in Hrest. rewrite Hflag in Hrest.
    destruct Hrest as (idx & n & Hpush & ->).
    rewrite get_organizer_events_own. upd_simpl.
    exact (proj1 (push_visible storage.SHARD_SIZE eq_refl _ _ _ _ (ei_counts s Hinv _) Hpush)).
Qed.

Definition sample_args : EventRegistrationArgs := {|
  args_event_id := "e2"; args_name := "Encore"; args_organizer_address := "ORG";
  args_payment_address := "PAY";
  args_metadata_cid := "QmPK1s3pNYLi9ERiq3BDxKa4XosgWwFRQUydHUtz4YgpqB";
  args_max_supply := 50; args_milestone_plan := None;
  args_tiers := {[ "gen" := Sample.tier <| tier_current_sold := 0 |> ]};
  args_refund_deadline := 0; args_restocking_fee := 0; args_resale_cap_bps := Some 500;
  args_min_sales_target := None; args_target_deadline := None; args_banner_cid := None;
  args_tags := Some ["Music"]; args_category_ids := None; args_start_time := 500;
  args_is_private := false; args_end_time := 600; args_transfer_lock_duration := 0;
  args_accepted_tokens := []; args_use_global_whitelist := true;
  args_referral_rate_bps := None |}.

Lemma sample_events_inv : events_inv Sample.state.
Proof.
  split.
  - apply Sample.state_keyed.
  - intros o id.
    change (is_Some (({[ ("ORG", "e1") := true ]} : gmap (Address * string) bool) !! (o, id)) <->
      exists e, ({[ "e1" := Sample.event ]} : gmap string EventInfo) !! id = Some e /\
                ev_organizer_address e = o).
    setoid_rewrite lookup_singleton_Some. split.
    + intros [b [[= <- <-] _]%lookup_singleton_Some]. by exists Sample.event.
    + intros (e & [<- <-] & <-). cbn. by rewrite lookup_singleton_eq.
  - intros o. unfold count. change (counts (k_OrganizerEventIndex Sample.state))
      with ({[ "ORG" := 1 ]} : gmap Address Z).
    destruct (decide ("ORG" = o)) as [<-|Hne]; [by rewrite lookup_singleton_eq|].
    by rewrite lookup_singleton_ne.
Qed.

Lemma register_event_sound_witness :
  let env := Sample.env 100 ["ORG"] in
  let s' := invoke (register_event sample_args) env Sample.state in
  args_valid sample_args /\
  k_Event s' = <["e2" := new_event 100 500 sample_args]> (k_Event Sample.state).
Proof.
  intros env s'.
  destruct (register_event_sound sample_args env Sample.state tt s') as (Hv & _ & _ & _ & _ & He & _).
  - apply sample_events_inv.
  - apply (returned_invoke (register_event sample_args)). vm_compute. reflexivity.
  - split; [exact Hv|exact He].
Defined.

(** Archiving removes a finished event and keeps its receipt: only the
    organizer can archive, only an inactive event; afterwards the event is gone,
    the receipt tells how many tickets were sold and when it was archived, the
    organizer's receipts include it, and the public counter of active events is
    unchanged. *)
Theorem archive_event_sound id env s u s' :
  (forall o, 0 <= storage.get_organizer_receipt_count o s) ->
  archive_event id env s = Done u s' ->
  exists e, k_Event s !! id = Some e /\ ev_organizer_address e ∈ auths env /\
    ev_is_active e = false /\ k_Event s' = delete id (k_Event s) /\
    let r := {| rcpt_event_id := id; rcpt_organizer_address := ev_organizer_address e;
                rcpt_total_sold := ev_current_supply e; rcpt_archived_at := timestamp env |} in
    storage.get_event_receipt id s' = Some r /\
    (k_OrganizerReceipt s !! (ev_organizer_address e, id) = None ->
     r ∈ storage.get_organizer_receipts (ev_organizer_address e) s') /\
    storage.get_global_active_event_count s' = storage.get_global_active_event_count s.
Proof.
  intros Hc (e & He & Hau & Ha & HE & _ & _ & HG & HR & _ & HP)%archive_event_Done.
  exists e. unfold storage.get_event_receipt, storage.get_global_active_event_count.
  rewrite HE, HR, HG, lookup_insert_eq. split_and!; try done.
  intros Hnew. apply list_elem_of_omap. exists id. split.
  - exact (proj1 (push_visible storage.SHARD_SIZE eq_refl _ _ _ _ (Hc _) (HP Hnew))).
  - unfold storage.get_event_receipt. by rewrite HR, lookup_insert_eq.
Qed.

Lemma archive_event_sound_witness :
  let s := Sample.state <| k_Event := {[ "e1" := deactivate Sample.event ]} |> in
  let env := Sample.env 900 ["ORG"] in
  let s' := invoke (archive_event "e1") env s in
  exists e, k_Event s !! "e1" = Some e /\ ev_is_active e = false /\
    k_Event s' = delete "e1" (k_Event s).
Proof.
  intros s env s'.
  destruct (archive_event_sound "e1" env s tt s') as (e & He & _ & Ha & HE & _).
  - intros o. vm_compute. destruct o; discriminate.
  - apply (returned_invoke (archive_event "e1")). vm_compute. reflexivity.
  - exists e. split; [exact He|]. split; [exact Ha|exact HE].
Defined.

(** Blacklisting an organizer suspends every event its list shows: only the
    administrator can do it; afterwards the organizer is blacklisted, the audit
    log has a new entry, every listed event is inactive and otherwise unchanged,
    every other event is untouched, and the organizer can register no event. *)
Theorem blacklist_suspends o reason env s u s' :
  keyed (k_Event s) -> storage.is_blacklisted o s = false ->
  blacklist_organizer o reason env s = Done u s' ->
  (exists admin, k_Admin s = Some admin /\ admin ∈ auths env) /\
  storage.is_blacklisted o s' = true /\
  len (storage.get_blacklist_audit_log s') = len (storage.get_blacklist_audit_log s) + 1 /\
  (forall id, id ∈ storage.get_organizer_events o o s ->
     k_Event s' !! id = deactivate <$> k_Event s !! id) /\
  (forall id, id ∉ storage.get_organizer_events o o s -> k_Event s' !! id = k_Event s !! id) /\
  (forall args env' v s'', args_organizer_address args = o ->
     register_event args env' s' <> Done v s'').
Proof.
  intros Hkey Hb Hrun. destruct (blacklist_Done _ _ _ _ _ _ Hkey Hb Hrun)
    as (admin & Ha & Hau & Hbl & Hlog & Hev).
  assert (storage.is_blacklisted o s' = true) as Hb'
    by (unfold storage.is_blacklisted; by rewrite Hbl, lookup_insert_eq).
  split_and!; eauto.
  - rewrite Hlog, length_app. cbn. lia.
  - intros id Hid. by rewrite Hev, bool_decide_true.
  - intros id Hid. by rewrite Hev, bool_decide_false.
  - intros args env' v s'' Hargs (_ & _ & _ & Hnb & _)%register_event_Done. congruence.
Qed.

Lemma blacklist_suspends_witness :
  let env := Sample.env 100 ["ADM"] in
  let s' := invoke (blacklist_organizer "ORG" "fraud") env Sample.state in
  storage.is_blacklisted "ORG" s' = true /\
  k_Event s' !! "e1" = deactivate <$> k_Event Sample.state !! "e1".
Proof.
  intros env s'.
  destruct (blacklist_suspends "ORG" "fraud" env Sample.state tt s')
    as (_ & Hb & _ & Hev & _).
  - apply Sample.state_keyed.
  - reflexivity.
  - apply (returned_invoke (blacklist_organizer "ORG" "fraud")). vm_compute. reflexivity.
  - split; [exact Hb|]. apply Hev. vm_compute. left.
Defined.

(** Archiving can hide another event.  When an organizer's index holds 51
    events, archiving one of the first 50 lowers the counter to 50 without
    moving the 51st, which the readers then no longer reach: it disappears from
    the organizer's list although it is still stored and unchanged (and
    blacklisting, which walks the same list, would leave it active). *)
Theorem archive_hides_event id w l env s u s' e :
  k_Event s !! id = Some e ->
  dense storage.SHARD_SIZE (k_OrganizerEventIndex s) (ev_organizer_address e) (l ++ [w]) ->
  len l = storage.SHARD_SIZE -> id ∈ l -> w ∉ l ->
  archive_event id env s = Done u s' ->
  w ∈ storage.get_organizer_events (ev_organizer_address e) (ev_organizer_address e) s /\
  w ∉ storage.get_organizer_events (ev_organizer_address e) (ev_organizer_address e) s' /\
  k_Event s' !! w = k_Event s !! w.
Proof.
  intros He Hd Hlen Hid Hw (e0 & He0 & _ & _ & HE & _ & HI & _)%archive_event_Done.
  simplify_eq. rewrite !get_organizer_events_own, HE, HI.
  destruct (remove_hides_last storage.SHARD_SIZE eq_refl _ id w _ l 1 Hd) as [Hhid _];
    try done.
  split_and!.
  - rewrite (to_list_dense storage.SHARD_SIZE eq_refl _ _ _ Hd). set_solver.
  - done.
  - rewrite lookup_delete_ne; [done|]. congruence.
Qed.

(** 51 events of one organizer, all but the first two without a record. *)
Definition sample_ids : list string :=
  (fun n => String (Ascii.ascii_of_nat n) EmptyString) <$> seq 40 50.

Definition sample_last : string := "last".

Definition sample_index : Index Address string :=
  foldl (fun idx id => default idx (push storage.SHARD_SIZE "ORG" id idx)) empty_index
        (sample_ids ++ [sample_last]).

Definition sample_full : State :=
  Sample.state
    <| k_Event := {[ "(" := deactivate Sample.event <| ev_event_id := "(" |> ]} |>
    <| k_OrganizerEventIndex := sample_index |>.

Lemma sample_index_dense :
  dense storage.SHARD_SIZE sample_index "ORG" (sample_ids ++ [sample_last]).
Proof.
  enough (forall l l0 (idx : Index Address string),
    dense storage.SHARD_SIZE idx "ORG" l0 -> len (l0 ++ l) < int_max U32 ->
    dense storage.SHARD_SIZE
      (foldl (fun idx id => default idx (push storage.SHARD_SIZE "ORG" id idx)) idx l)
      "ORG" (l0 ++ l)) as Hgen.
  { apply (Hgen _ []); [apply dense_empty; done|vm_compute; reflexivity]. }
  induction l as [|x l IH]; intros l0 idx Hd Hlen; cbn [foldl]; [by rewrite app_nil_r|].
  rewrite length_app in Hlen. cbn in Hlen.
  replace (l0 ++ x :: l) with ((l0 ++ [x]) ++ l) by (by rewrite <- app_assoc).
  apply IH; [|rewrite !length_app; cbn in *; lia].
  destruct (push storage.SHARD_SIZE "ORG" x idx) as [idx'|] eqn:Hp; cbn.
  - by eapply (push_dense storage.SHARD_SIZE eq_refl).
  - exfalso. unfold push, checked_add in Hp. destruct Hd as [Hc _]. rewrite Hc in Hp.
    rewrite checked_in in Hp; [done|]. cbn in *. lia.
Qed.

Lemma archive_hides_event_witness :
  let env := Sample.env 900 ["ORG"] in
  let s' := invoke (archive_event "(") env sample_full in
  sample_last ∈ storage.get_organizer_events "ORG" "ORG" sample_full /\
  sample_last ∉ storage.get_organizer_events "ORG" "ORG" s'.
Proof.
  intros env s'.
  destruct (archive_hides_event "(" sample_last sample_ids env sample_full tt s'
              (deactivate Sample.event <| ev_event_id := "(" |>)) as (H1 & H2 & _).
  - vm_compute. reflexivity.
  - apply sample_index_dense.
  - vm_compute. reflexivity.
  - vm_compute. left.
  - apply (bool_decide_unpack _). vm_compute. exact I.
  - apply (returned_invoke (archive_event "(")). vm_compute. reflexivity.
  - split; [exact H1|exact H2].
Defined.

(** Cancellation is documented as irreversible, but the legacy entry point
    [store_event] lets the organizer overwrite a cancelled event with an active
    one. *)
Theorem cancelled_event_revived :
  let env := Sample.env 100 ["ORG"] in
  let s1 := invoke (cancel_event "e1" None) env Sample.state in
  let s2 := invoke (store_event Sample.event) env s1 in
  (ev_status <$> k_Event s1 !! "e1") = Some Cancelled /\
  (ev_status <$> k_Event s2 !! "e1") = Some Active /\
  (ev_is_active <$> k_Event s2 !! "e1") = Some true.
Proof. vm_compute. auto. Qed.

(** The public counter of active events can fall behind: with a public
    active event and a private active one, the counter says 1; rewriting the
    private event as public and inactive takes the counter to 0 while the public
    event is still active. *)
Theorem active_count_drifts :
  let env := Sample.env 100 ["ORG"] in
  let private_event := Sample.event <| ev_event_id := "e9" |> <| ev_is_private := true |> in
  let s0 := Sample.state
    <| k_Event := <["e9" := private_event]> (k_Event Sample.state) |>
    <| k_OrganizerEvent := <[("ORG", "e9") := true]> (k_OrganizerEvent Sample.state) |> in
  let s1 := invoke (store_event
    (private_event <| ev_is_private := false |> <| ev_is_active := false |>)) env s0 in
  storage.get_global_active_event_count s0 = 1 /\ sum_map pub_active (k_Event s0) = 1 /\
  storage.get_global_active_event_count s1 = 0 /\ sum_map pub_active (k_Event s1) = 1.
Proof. vm_compute. auto. Qed.

(** No tag with a UTF-8 continuation byte (0x80 to 0xBF) is accepted, and
    every non-ASCII character contains one, so the tag rule accepts printable
    ASCII only (the comment announces Unicode letters). *)
Theorem non_ascii_tags_rejected tag c :
  c ∈ String.list_ascii_of_string tag -> 128 <= byte_value c < 192 -> valid_tag tag = false.
Proof.
  intros Hc Hr. unfold valid_tag. apply andb_false_iff. right.
  apply not_true_iff_false. intros Hall. rewrite List.forallb_forall in Hall.
  apply list_elem_of_In in Hc. specialize (Hall c Hc). unfold valid_tag_byte in Hall.
  bools. match goal with H : _ \/ _ |- _ => destruct H end; bools; lia.
Qed.

Lemma non_ascii_tags_rejected_witness :
  let tag := String (Ascii.ascii_of_nat 195) (String (Ascii.ascii_of_nat 169) EmptyString) in
  valid_tag tag = false.
Proof.
  intros tag. apply (non_ascii_tags_rejected tag (Ascii.ascii_of_nat 169)).
  - vm_compute. right. left.
  - vm_compute. split; congruence.
Defined.
