(* ===== verification/RegistryGovernance.v ===== *)
(** * Event registry: multi-signature governance

    Proposals of parameter changes: creation, approval, execution,
    cancellation and expiry, and the platform fee, whose direct setter consumes
    an approved proposal when more than one signature is required
    ([event_registry/src/lib.rs]). *)

From stdpp Require Import base tactics numbers list strings gmap.
From S2P Require Import Prelude.
From S2P Require Import Soroban.
From S2P Require Import RegistryTypes.
From S2P Require Import RegistryStorage.
From S2P Require Import RegistryEvents.

(** ** Queries *)
Definition get_multisig_config : R MultiSigConfig :=
  o ← gets storage.get_multisig_config;
  mret (default {| cfg_admins := []; cfg_threshold := 1 |} o).

Definition is_admin (address : Address) : R bool :=
  o ← gets storage.get_multisig_config;
  match o with
  | Some config => mret (bool_decide (address ∈ cfg_admins config))
  | None => mret false
  end.

(** ** Proposals *)

(** The validation of a proposed change against the configuration. *)
Definition validate_change (config : MultiSigConfig) (change : ParameterChange) : R unit :=
  match change with
  | AddAdmin addr =>
      validate_address addr;;
      throw_if (bool_decide (addr ∈ cfg_admins config)) Unauthorized
  | RemoveAdmin addr =>
      throw_if (bool_decide (addr ∉ cfg_admins config)) Unauthorized;;
      throw_if (len (cfg_admins config) <=? 1) Unauthorized
  | SetThreshold threshold =>
      throw_if (threshold =? 0) InvalidThreshold;;
      throw_if (len (cfg_admins config) <? threshold) InvalidThreshold
  | UpdatePlatformWallet addr => validate_address addr
  | SetPlatformFee fee => throw_if (10000 <? fee) InvalidFeePercent
  | SetMinStakeAmount amount => throw_if (amount <=? 0) InvalidStakeAmount
  end.

Definition default_expiry : Z := 100800.

Definition propose_parameter_change (proposer : Address) (change : ParameterChange)
    (expiry_ledgers : Z) : R Z :=
  require_auth proposer;;
  o ← gets storage.get_multisig_config;
  config ← ok_or o NotInitialized;
  throw_if (bool_decide (proposer ∉ cfg_admins config)) Unauthorized;;
  validate_change config change;;
  proposal_id ← gets storage.get_proposal_counter;
  next ← add_ U64 proposal_id 1;
  modify (storage.set_proposal_counter next);;
  let expiry := if expiry_ledgers =? 0 then default_expiry else expiry_ledgers in
  now ← ledger_timestamp;
  expires_at ← add_ U64 now expiry;
  let proposal := {|
    prop_proposal_id := proposal_id; prop_proposer := proposer; prop_change := change;
    prop_approvals := [proposer]; prop_executed := false; prop_cancelled := false;
    prop_created_at := now; prop_expires_at := expires_at |} in
  modify (storage.set_proposal proposal);;
  modify (storage.add_active_proposal proposal_id);;
  mret proposal_id.

Definition propose_add_admin (proposer new_admin : Address) (expiry_ledgers : Z) : R Z :=
  propose_parameter_change proposer (AddAdmin new_admin) expiry_ledgers.

Definition propose_remove_admin (proposer admin_to_remove : Address) (expiry_ledgers : Z)
    : R Z :=
  propose_parameter_change proposer (RemoveAdmin admin_to_remove) expiry_ledgers.

Definition propose_set_threshold (proposer : Address) (new_threshold expiry_ledgers : Z)
    : R Z :=
  propose_parameter_change proposer (SetThreshold new_threshold) expiry_ledgers.

Definition propose_set_platform_wallet (proposer new_wallet : Address) (expiry_ledgers : Z)
    : R Z :=
  propose_parameter_change proposer (UpdatePlatformWallet new_wallet) expiry_ledgers.

Definition propose_set_platform_fee (proposer : Address) (new_fee_percent expiry_ledgers : Z)
    : R Z :=
  propose_parameter_change proposer (SetPlatformFee new_fee_percent) expiry_ledgers.

Definition approve_proposal (approver : Address) (proposal_id : Z) : R unit :=
  require_auth approver;;
  o ← gets storage.get_multisig_config;
  config ← ok_or o NotInitialized;
  throw_if (bool_decide (approver ∉ cfg_admins config)) Unauthorized;;
  o ← gets (storage.get_proposal proposal_id);
  proposal ← ok_or o MultisigError;
  now ← ledger_timestamp;
  throw_if (prop_expires_at proposal <? now) ProposalExpired;;
  throw_if (prop_executed proposal) PropAlreadyExecuted;;
  throw_if (prop_cancelled proposal) PropAlreadyCanceled;;
  if bool_decide (approver ∈ prop_approvals proposal) then mret tt
  else modify (storage.set_proposal
                 (proposal <| prop_approvals := prop_approvals proposal ++ [approver] |>)).

(** The effect of an executed change. *)
Definition apply_change (config : MultiSigConfig) (change : ParameterChange) (s : State)
    : State :=
  match change with
  | AddAdmin new_admin =>
      let s := storage.set_multisig_config
                 (config <| cfg_admins := cfg_admins config ++ [new_admin] |>) s in
      storage.set_admin new_admin s
  | RemoveAdmin admin_to_remove =>
      let new_admins := filter (.≠ admin_to_remove) (cfg_admins config) in
      let new_config := config <| cfg_admins := new_admins |> in
      let new_config :=
        if len (cfg_admins new_config) <? cfg_threshold new_config
        then new_config <| cfg_threshold := len (cfg_admins new_config) |>
        else new_config in
      storage.set_multisig_config new_config s
  | SetThreshold new_threshold =>
      storage.set_multisig_config (config <| cfg_threshold := new_threshold |>) s
  | UpdatePlatformWallet new_wallet => storage.set_platform_wallet new_wallet s
  | SetPlatformFee fee => storage.set_platform_fee fee s
  | SetMinStakeAmount new_amount => storage.set_min_stake_amount new_amount s
  end.

Definition execute_proposal (executor : Address) (proposal_id : Z) : R unit :=
  require_auth executor;;
  o ← gets storage.get_multisig_config;
  config ← ok_or o NotInitialized;
  throw_if (bool_decide (executor ∉ cfg_admins config)) Unauthorized;;
  o ← gets (storage.get_proposal proposal_id);
  proposal ← ok_or o MultisigError;
  throw_if (prop_executed proposal) PropAlreadyExecuted;;
  throw_if (prop_cancelled proposal) PropAlreadyCanceled;;
  now ← ledger_timestamp;
  throw_if (prop_expires_at proposal <? now) ProposalExpired;;
  throw_if (len (prop_approvals proposal) <? cfg_threshold config) MultisigError;;
  modify (apply_change config (prop_change proposal));;
  modify (storage.set_proposal (proposal <| prop_executed := true |>));;
  modify (storage.remove_active_proposal proposal_id).

Definition cancel_proposal (proposer : Address) (proposal_id : Z) : R unit :=
  require_auth proposer;;
  o ← gets (storage.get_proposal proposal_id);
  proposal ← ok_or o MultisigError;
  throw_if (bool_decide (prop_proposer proposal <> proposer)) Unauthorized;;
  throw_if (prop_executed proposal) PropAlreadyExecuted;;
  throw_if (prop_cancelled proposal) PropAlreadyCanceled;;
  modify (storage.set_proposal (proposal <| prop_cancelled := true |>));;
  modify (storage.remove_active_proposal proposal_id);;
  now ← ledger_timestamp;
  publish (AgoraEvent.ProposalCancelled proposal_id proposer now).

Definition cleanup_one (now removed proposal_id : Z) : R Z :=
  o ← gets (storage.get_proposal proposal_id);
  match o with
  | Some proposal =>
      if (prop_expires_at proposal <? now) && negb (prop_executed proposal)
         && negb (prop_cancelled proposal)
      then modify (storage.remove_active_proposal proposal_id);; add_ U32 removed 1
      else mret removed
  | None => mret removed
  end.

Definition cleanup_expired_proposals : R Z :=
  require_admin;;
  now ← ledger_timestamp;
  active ← gets storage.get_active_proposals;
  foldM (cleanup_one now) 0 active.

(** ** Platform fee *)

(** An approved, unexpired, unexecuted proposal of this fee. *)
Definition fee_approved (now threshold new_fee_percent : Z) (p : Proposal) : bool :=
  negb (prop_executed p || prop_cancelled p || (prop_expires_at p <? now))
  && match prop_change p with
     | SetPlatformFee fee =>
         (fee =? new_fee_percent) && (threshold <=? len (prop_approvals p))
     | _ => false
     end.

(** The first active proposal that approves the fee. *)
Definition find_approved_fee (now threshold new_fee_percent : Z) (s : State) : option Z :=
  List.find (fun pid => match storage.get_proposal pid s with
                        | Some p => fee_approved now threshold new_fee_percent p
                        | None => false
                        end) (storage.get_active_proposals s).

Definition set_platform_fee (new_fee_percent : Z) : R unit :=
  require_admin;;
  throw_if (10000 <? new_fee_percent) InvalidFeePercent;;
  o ← gets storage.get_multisig_config;
  config ← ok_or o NotInitialized;
  now ← ledger_timestamp;
  when (1 <? cfg_threshold config) (
    o ← gets (find_approved_fee now (cfg_threshold config) new_fee_percent);
    proposal_id ← ok_or o MultisigError;
    o ← gets (storage.get_proposal proposal_id);
    proposal ← unwrap o;
    modify (storage.set_proposal (proposal <| prop_executed := true |>));;
    modify (storage.remove_active_proposal proposal_id));;
  modify (storage.set_platform_fee new_fee_percent);;
  publish (AgoraEvent.FeeUpdated new_fee_percent).

(** ** The governance invariant *)

(** What the validation of a proposal guarantees for good. *)
Definition change_ok (c : ParameterChange) : Prop :=
  match c with
  | SetThreshold threshold => threshold <> 0
  | SetPlatformFee fee => fee <= 10000
  | SetMinStakeAmount amount => 0 < amount
  | _ => True
  end.

Record proposal_ok (counter pid : Z) (p : Proposal) : Prop := {
  po_id : prop_proposal_id p = pid;
  po_bound : pid < counter;
  po_approvals : NoDup (prop_approvals p);
  po_proposer : prop_proposer p ∈ prop_approvals p;
  po_exclusive : prop_executed p && prop_cancelled p = false;
  po_change : change_ok (prop_change p);
}.

Definition live (p : Proposal) : Prop := prop_executed p = false /\ prop_cancelled p = false.

Record gov_inv (s : State) : Prop := {
  gi_proposals pid p : k_Proposal s !! pid = Some p ->
    proposal_ok (storage.get_proposal_counter s) pid p;
  gi_nodup : NoDup (storage.get_active_proposals s);
  gi_live pid : pid ∈ storage.get_active_proposals s ->
    exists p, k_Proposal s !! pid = Some p /\ live p;
  gi_fee : storage.get_platform_fee s <= 10000;
}.

Lemma gov_inv_init : gov_inv init_state.
Proof. split; [done|constructor| |done]. intros pid Hpid. by apply not_elem_of_nil in Hpid. Qed.

(** The part of the storage the invariant reads. *)
Definition gov_view (s : State) :=
  (k_Proposal s, k_ActiveProposals s, k_ProposalCounter s, k_PlatformFee s).

Lemma gov_inv_frame s s' : gov_view s' = gov_view s -> gov_inv s -> gov_inv s'.
Proof.
  unfold gov_view. intros [= HP HA HC HF] [H1 H2 H3 H4].
  split; unfold storage.get_proposal_counter, storage.get_active_proposals,
    storage.get_platform_fee in *; rewrite ?HP, ?HA, ?HC, ?HF; eauto.
Qed.

Lemma gov_inv_log s l : gov_inv s -> gov_inv (s <| log := l |>).
Proof. by apply gov_inv_frame. Qed.

(** Replacing a proposal by a finished version of it and dropping it from the
    active list. *)
Lemma gov_inv_finish s p p' :
  gov_inv s -> k_Proposal s !! prop_proposal_id p = Some p -> 
  prop_proposal_id p' = prop_proposal_id p ->
  proposal_ok (storage.get_proposal_counter s) (prop_proposal_id p) p' ->
  gov_inv (storage.remove_active_proposal (prop_proposal_id p) (storage.set_proposal p' s)).
Proof.
  intros [H1 H2 H3 H4] Hp Hid Hok. 
  unfold storage.remove_active_proposal, storage.set_proposal. split; upd_simpl.
  - rewrite Hid. intros pid q [[<- <-]|[? ?]]%lookup_insert_Some; [done|by apply H1].
  - by apply NoDup_filter.
  - cbn. intros pid [Hne Hin]%list_elem_of_filter. destruct (H3 pid Hin) as (q & Hq & Hl).
    exists q. rewrite Hid, lookup_insert_ne by done. done.
  - done.
Qed.

Lemma validate_change_Done config change env s u s' :
  validate_change config change env s = Done u s' -> s' = s /\ change_ok change.
Proof. destruct change; cbn [validate_change]; intros Hrun; run; bools; cbn; split; try done; lia. Qed.

Lemma propose_inv proposer change expiry env s pid s' :
  gov_inv s -> propose_parameter_change proposer change expiry env s = Done pid s' -> gov_inv s'.
Proof.
  intros [H1 H2 H3 H4] Hrun. unfold propose_parameter_change in Hrun. run.
  match goal with H : validate_change _ _ _ _ = _ |- _ =>
    apply validate_change_Done in H as [-> Hch] end.
  assert (storage.get_proposal_counter s ∉ storage.get_active_proposals s) as Hnew.
  { intros Hin. destruct (H3 _ Hin) as (p & Hp & _). destruct (H1 _ _ Hp). lia. }
  unfold storage.add_active_proposal, storage.set_proposal, storage.set_proposal_counter.
  unfold storage.get_active_proposals at 1. upd_simpl. rewrite bool_decide_false by done.
  split; unfold storage.get_proposal_counter at 1; upd_simpl; cbn [default from_option id].
  - cbn [prop_proposal_id]. intros pid p [[<- <-]|[? Hp]]%lookup_insert_Some.
    + split; try done; cbn; [apply Z.lt_succ_diag_r|apply NoDup_singleton|by left].
    + destruct (H1 _ _ Hp). split; try done. unfold storage.get_proposal_counter in *. upd_simpl. cbn. lia.
  - unfold storage.get_active_proposals in *. upd_simpl. cbn [default from_option id].
    apply NoDup_app. split_and!; [done| |apply NoDup_singleton]. set_solver.
  - unfold storage.get_active_proposals in *. upd_simpl. cbn [default from_option id].
    intros pid [Hin| ->%list_elem_of_singleton]%elem_of_app.
    + destruct (H3 pid Hin) as (p & Hp & Hl). exists p. split; [|done].
      rewrite lookup_insert_ne; [done|]. cbn. set_solver.
    + eexists. cbn. rewrite lookup_insert_eq. by split.
  - done.
Qed.

Lemma approve_inv approver pid env s u s' :
  gov_inv s -> approve_proposal approver pid env s = Done u s' -> gov_inv s'.
Proof.
  intros [H1 H2 H3 H4] Hrun. unfold approve_proposal, storage.get_proposal in Hrun. run.
  case_bool_decide as Hin; run; [done|].
  match goal with H : k_Proposal s !! _ = Some ?q |- _ => rename q into p; rename H into Hp end.
  destruct (H1 _ _ Hp). unfold storage.set_proposal. split; try done; upd_simpl.
  - intros pid' q [[<- <-]|[? ?]]%lookup_insert_Some; [|by apply H1].
    split; upd_simpl; try done; [subst; exact po_bound0| |set_solver].
    apply NoDup_app. split_and!; [done| |apply NoDup_singleton]. set_solver.
  - intros pid' Hpid'. destruct (H3 pid' Hpid') as (q & Hq & Hl).
    destruct (decide (prop_proposal_id p = pid')) as [<-|Hne].
    + eexists. rewrite lookup_insert_eq. split; [done|]. unfold live. upd_simpl.
      simplify_eq. done.
    + exists q. by rewrite lookup_insert_ne.
Qed.

Lemma apply_change_inv config c s :
  gov_inv s -> change_ok c -> gov_inv (apply_change config c s).
Proof.
  intros Hinv Hc. destruct c; cbn [apply_change];
    try (eapply gov_inv_frame; [|exact Hinv]; repeat case_match; reflexivity).
  destruct Hinv as [H1 H2 H3 H4]. by split.
Qed.

Lemma apply_change_proposals config c s :
  k_Proposal (apply_change config c s) = k_Proposal s /\
  k_ProposalCounter (apply_change config c s) = k_ProposalCounter s /\
  k_ActiveProposals (apply_change config c s) = k_ActiveProposals s.
Proof. destruct c; cbn [apply_change]; repeat case_match; done. Qed.

Lemma execute_inv executor pid env s u s' :
  gov_inv s -> execute_proposal executor pid env s = Done u s' -> gov_inv s'.
Proof.
  intros Hinv Hrun. unfold execute_proposal, storage.get_proposal in Hrun. run.
  match goal with H : k_Proposal s !! _ = Some ?q |- _ => rename q into p; rename H into Hp end.
  destruct (gi_proposals s Hinv _ _ Hp).
  destruct (apply_change_proposals a1 (prop_change p) s) as (HP & HC & _).
  subst pid. apply gov_inv_finish; [by apply apply_change_inv|by rewrite HP|done|].
  unfold storage.get_proposal_counter. rewrite HC.
  match goal with H : prop_cancelled p = false |- _ => rename H into Hcan end.
  split; upd_simpl; try done; by rewrite Hcan.
Qed.

Lemma cancel_proposal_inv proposer pid env s u s' :
  gov_inv s -> cancel_proposal proposer pid env s = Done u s' -> gov_inv s'.
Proof.
  intros Hinv Hrun. unfold cancel_proposal, storage.get_proposal in Hrun. run.
  match goal with H : k_Proposal s !! _ = Some ?q |- _ => rename q into p; rename H into Hp end.
  destruct (gi_proposals s Hinv _ _ Hp). subst pid.
  match goal with H : prop_executed p = false |- _ => rename H into Hex end.
  apply gov_inv_log.
  eapply (gov_inv_finish s p (p <| prop_cancelled := true |>)); try done.
  split; upd_simpl; try done; by rewrite Hex.
Qed.

Lemma remove_active_inv pid s : gov_inv s -> gov_inv (storage.remove_active_proposal pid s).
Proof.
  intros [H1 H2 H3 H4]. unfold storage.remove_active_proposal. split; upd_simpl; try done.
  - by apply NoDup_filter.
  - cbn. intros pid' [_ Hin]%list_elem_of_filter. eauto.
Qed.

Lemma cleanup_inv env s n s' :
  gov_inv s -> cleanup_expired_proposals env s = Done n s' -> gov_inv s'.
Proof.
  intros Hinv Hrun. unfold cleanup_expired_proposals in Hrun. run.
  eapply (foldM_inv (fun _ s => gov_inv s)); [exact Hrun| |done].
  intros acc pid s1 acc' s2 _ Hstep Hi. unfold cleanup_one in Hstep. run.
  repeat case_match; run; auto using remove_active_inv.
Qed.

Lemma find_approved_fee_Some now threshold fee s pid :
  find_approved_fee now threshold fee s = Some pid ->
  pid ∈ storage.get_active_proposals s /\
  exists p, k_Proposal s !! pid = Some p /\ fee_approved now threshold fee p = true.
Proof.
  unfold find_approved_fee. intros [Hin Hp]%List.find_some.
  split; [by apply list_elem_of_In|]. unfold storage.get_proposal in Hp.
  case_match; [|done]. eauto.
Qed.

Lemma set_platform_fee_inv fee env s u s' :
  gov_inv s -> set_platform_fee fee env s = Done u s' -> gov_inv s'.
Proof.
  intros Hinv Hrun. unfold set_platform_fee in Hrun. run. bools.
  match goal with H : when _ _ _ _ = Done _ ?s1 |- _ => assert (gov_inv s1) as Hinv1 end.
  { destruct (1 <? _); cbn [when] in *; run; [|done].
    match goal with H : find_approved_fee _ _ _ _ = _ |- _ =>
      apply find_approved_fee_Some in H as (_ & p & Hp & Happ) end.
    unfold storage.get_proposal in *. simplify_eq.
    destruct (gi_proposals s Hinv _ _ Hp). subst.
    eapply (gov_inv_finish s p); try done. split; upd_simpl; try done.
    unfold fee_approved in Happ. by destruct (prop_cancelled p), (prop_executed p). }
  apply gov_inv_log. destruct Hinv1. by split.
Qed.

(** ** What execution needs and does *)

Lemma execute_proposal_Done executor pid env s u s' :
  execute_proposal executor pid env s = Done u s' ->
  exists config p,
    executor ∈ auths env /\ k_MultiSigConfig s = Some config /\
    executor ∈ cfg_admins config /\ k_Proposal s !! pid = Some p /\ live p /\
    timestamp env <= prop_expires_at p /\ cfg_threshold config <= len (prop_approvals p) /\
    s' = storage.remove_active_proposal pid
           (storage.set_proposal (p <| prop_executed := true |>)
              (apply_change config (prop_change p) s)).
Proof.
  intros Hrun. unfold execute_proposal, storage.get_proposal, storage.get_multisig_config in Hrun.
  run. bools. eexists _, _. split_and!; try done; try lia. by apply dec_stable.
Qed.

(** ** Properties *)

(** A proposal is executed only by an authenticated admin, before it
    expires, while it is neither executed nor cancelled, and with at least the
    threshold of approvals by distinct addresses; execution applies exactly the
    proposed change, marks the proposal as executed and takes it off the active
    list, and a second execution is refused. *)
Theorem execute_proposal_quorum executor pid env s u s' :
  gov_inv s ->
  execute_proposal executor pid env s = Done u s' ->
  exists config p,
    executor ∈ auths env /\ k_MultiSigConfig s = Some config /\
    executor ∈ cfg_admins config /\ k_Proposal s !! pid = Some p /\ live p /\
    timestamp env <= prop_expires_at p /\
    NoDup (prop_approvals p) /\ cfg_threshold config <= len (prop_approvals p) /\
    s' = (apply_change config (prop_change p) s)
           <| k_Proposal := <[pid := p <| prop_executed := true |>]> (k_Proposal s) |>
           <| k_ActiveProposals :=
                Some (filter (.≠ pid) (storage.get_active_proposals s)) |> /\
    (forall env' config' s'',
       k_Proposal s'' !! pid = k_Proposal s' !! pid ->
       k_MultiSigConfig s'' = Some config' -> executor ∈ cfg_admins config' ->
       executor ∈ auths env' ->
       execute_proposal executor pid env' s'' = Fail PropAlreadyExecuted).
Proof.
  intros Hinv Hrun. apply execute_proposal_Done in Hrun
    as (config & p & Hau & Hcfg & Had & Hp & Hl & Hexp & Hthr & ->).
  exists config, p. destruct (gi_proposals s Hinv _ _ Hp).
  destruct (apply_change_proposals config (prop_change p) s) as (HP & _ & HA).
  unfold storage.remove_active_proposal, storage.set_proposal,
    storage.get_active_proposals. upd_simpl. rewrite HP, HA, po_id0.
  split_and!; try done.
  intros env' config' s'' Hs'' Hc' Ha' Hauth. rewrite lookup_insert_eq in Hs''.
  unfold execute_proposal, storage.get_proposal. run_step; [done|]. run_step. run_step; [done|].
  run_step. { rewrite bool_decide_false; [done|]. by intros ?. }
  run_step. run_step; [done|]. by upd_simpl.
Qed.

(** A configuration with two admins and a threshold of two, and a proposal
    that both approved. *)
Definition sample_gov : State :=
  Sample.state
    <| k_MultiSigConfig := Some {| cfg_admins := ["ADM"; "BOB"]; cfg_threshold := 2 |} |>
    <| k_ProposalCounter := Some 1 |>
    <| k_ActiveProposals := Some [0] |>
    <| k_Proposal := {[ 0 := {|
         prop_proposal_id := 0; prop_proposer := "ADM"; prop_change := SetPlatformFee 250;
         prop_approvals := ["ADM"; "BOB"]; prop_executed := false; prop_cancelled := false;
         prop_created_at := 10; prop_expires_at := 5000 |} ]} |>.

Lemma sample_gov_inv : gov_inv sample_gov.
Proof.
  split; unfold sample_gov; upd_simpl.
  - intros pid p [<- <-]%lookup_singleton_Some. split; cbn; try done.
    + apply (bool_decide_unpack _). vm_compute. exact I.
    + by left.
  - apply NoDup_singleton.
  - intros pid ->%list_elem_of_singleton. eexists. split; [apply lookup_singleton_eq|]. done.
  - cbn. lia.
Qed.

Lemma execute_proposal_quorum_witness :
  let env := Sample.env 100 ["BOB"] in
  let s' := invoke (execute_proposal "BOB" 0) env sample_gov in
  execute_proposal "BOB" 0 env sample_gov = Done tt s' /\
  exists config p, k_MultiSigConfig sample_gov = Some config /\
    k_Proposal sample_gov !! 0 = Some p /\ cfg_threshold config <= len (prop_approvals p).
Proof.
  intros env s'. assert (execute_proposal "BOB" 0 env sample_gov = Done tt s') as Hrun
    by (apply returned_invoke; vm_compute; reflexivity).
  split; [exact Hrun|].
  destruct (execute_proposal_quorum _ _ _ _ _ _ sample_gov_inv Hrun)
    as (config & p & _ & ? & _ & ? & _ & _ & _ & ? & _).
  eauto.
Defined.

(** With a threshold above one, the administrator cannot set the platform
    fee alone: the setter succeeds only if an active, unexpired proposal of
    exactly this fee has at least the threshold of approvals, and it consumes
    that proposal (it is marked executed and leaves the active list), so one
    approval round pays for one change.  The fee never exceeds 10000 basis
    points. *)
Theorem set_platform_fee_multisig fee env s u s' config :
  gov_inv s ->
  k_MultiSigConfig s = Some config -> 1 < cfg_threshold config ->
  set_platform_fee fee env s = Done u s' ->
  exists pid p, k_Proposal s !! pid = Some p /\ pid ∈ storage.get_active_proposals s /\
    live p /\ timestamp env <= prop_expires_at p /\ prop_change p = SetPlatformFee fee /\
    NoDup (prop_approvals p) /\ cfg_threshold config <= len (prop_approvals p) /\
    k_Proposal s' = <[pid := p <| prop_executed := true |>]> (k_Proposal s) /\
    pid ∉ storage.get_active_proposals s' /\
    k_PlatformFee s' = Some fee /\ fee <= 10000.
Proof.
  intros Hinv Hcfg Hthr Hrun. unfold set_platform_fee, storage.get_multisig_config in Hrun.
  run. simplify_eq. rewrite (proj2 (Z.ltb_lt 1 (cfg_threshold config)) Hthr) in *.
  cbn [when] in *. run. bools.
  match goal with H : find_approved_fee _ _ _ _ = Some ?i |- _ =>
    apply find_approved_fee_Some in H as (Hin & p & Hp & Happ); exists i, p end.
  unfold storage.get_proposal in *. simplify_eq. destruct (gi_proposals s Hinv _ _ Hp). subst.
  unfold fee_approved in Happ. bools. unfold live.
  destruct (prop_executed p), (prop_cancelled p); try done.
  destruct (prop_change p); try done. bools. subst.
  unfold storage.set_platform_fee, storage.remove_active_proposal, storage.set_proposal.
  unfold storage.get_active_proposals. upd_simpl. cbn [default from_option id].
  split_and!; try done; try lia.
  intros [? _]%list_elem_of_filter. done.
Qed.

Lemma set_platform_fee_multisig_witness :
  let env := Sample.env 100 ["ADM"] in
  let s' := invoke (set_platform_fee 250) env sample_gov in
  set_platform_fee 250 env sample_gov = Done tt s' /\
  exists pid p, k_Proposal sample_gov !! pid = Some p /\ prop_change p = SetPlatformFee 250 /\
    k_Proposal s' = <[pid := p <| prop_executed := true |>]> (k_Proposal sample_gov).
Proof.
  intros env s'. assert (set_platform_fee 250 env sample_gov = Done tt s') as Hrun
    by (apply returned_invoke; vm_compute; reflexivity).
  split; [exact Hrun|].
  destruct (set_platform_fee_multisig 250 env sample_gov tt s'
              {| cfg_admins := ["ADM"; "BOB"]; cfg_threshold := 2 |}
              sample_gov_inv eq_refl eq_refl Hrun)
    as (pid & p & ? & _ & _ & _ & ? & _ & _ & ? & _).
  eauto.
Defined.

(** The check that keeps the last admin is made when a removal is proposed,
    not when it is executed: with two admins, two removals proposed while both
    are present can both be executed, and the contract is left without any
    admin and with a threshold of zero. *)
Theorem stale_removals_empty_admins :
  let env := Sample.env 100 ["ADM"; "BOB"] in
  let s0 := Sample.state <| k_MultiSigConfig :=
              Some {| cfg_admins := ["ADM"; "BOB"]; cfg_threshold := 1 |} |> in
  let s1 := invoke (propose_remove_admin "ADM" "ADM" 0) env s0 in
  let s2 := invoke (propose_remove_admin "BOB" "BOB" 0) env s1 in
  let s3 := invoke (execute_proposal "ADM" 0) env s2 in
  let s4 := invoke (execute_proposal "BOB" 1) env s3 in
  k_MultiSigConfig s4 = Some {| cfg_admins := []; cfg_threshold := 0 |}.
Proof. vm_compute. reflexivity. Qed.
