(* ===== verification/RegistryStaking.v ===== *)
(** * Event registry: collateral staking

    Staking configuration, staking and unstaking of collateral, proportional
    distribution of rewards and their claim ([event_registry/src/lib.rs]).
    The operations move tokens, so they run on a [World]: the registry's
    storage and the state [T] of the token contracts, behind the [Token]
    interface. *)

From stdpp Require Import base tactics numbers list strings gmap.
From S2P Require Import Prelude.
From S2P Require Import Soroban.
From S2P Require Import Token.
From S2P Require Import RegistryTypes.
From S2P Require Import RegistryStorage.
From S2P Require Import RegistryEvents.

(** ** Configuration *)
Definition set_staking_config (token : Address) (min_amount : Z) : R unit :=
  admin ← require_admin;
  throw_if (min_amount <=? 0) InvalidStakeAmount;;
  old_token ← gets storage.get_staking_token;
  old_amount ← gets storage.get_min_stake_amount;
  modify (storage.set_staking_token token);;
  modify (storage.set_min_stake_amount min_amount);;
  publish (AgoraEvent.StakingTokenUpdated old_token token admin);;
  publish (AgoraEvent.MinStakeAmountUpdated old_amount min_amount admin).

Definition get_staking_config : R StakingConfig :=
  token ← gets storage.get_staking_token;
  min_amount ← gets storage.get_min_stake_amount;
  mret {| sc_token := token; sc_min_amount := min_amount |}.

(** The reward of a stake: [total_reward * amount / total_staked], and 0 when
    the product overflows. *)
Definition reward_share (total_reward total_staked amount : Z) : Z :=
  default 0 (v ← checked_mul I128 total_reward amount; checked_div I128 v total_staked).

(** One iteration of the distribution. *)
Definition distribute_one (total_reward total_staked : Z) (s : State) (organizer : Address)
    : State :=
  match storage.get_organizer_stake organizer s with
  | Some stake =>
      let reward := reward_share total_reward total_staked (stake_amount stake) in
      if 0 <? reward then
        storage.set_organizer_stake
          (stake <| stake_reward_balance :=
                      saturating_add I128 (stake_reward_balance stake) reward |>) s
      else s
  | None => s
  end.

Section Staking.
Context {T : Type} `{Token T}.

Definition World : Type := State * T.

Definition on_registry {A} (m : R A) : M World EventRegistryError A :=
  zoom fst (fun s w => (s, w.2)) m.

(** A token call: it traps when the token contract rejects it. *)
Definition on_token (f : T -> option T) : M World EventRegistryError unit :=
  fun _ w => match f w.2 with Some t => Done tt (w.1, t) | None => Trap end.

Definition stake_collateral (organizer : Address) (amount : Z)
    : M World EventRegistryError unit :=
  require_auth organizer;;
  throw_if (amount <=? 0) InvalidStakeAmount;;
  existing ← on_registry (gets (storage.get_organizer_stake organizer));
  throw_if (bool_decide (is_Some existing)) AlreadyStaked;;
  o ← on_registry (gets storage.get_staking_token);
  token ← ok_or o StakingNotConfigured;
  min_amount ← on_registry (gets storage.get_min_stake_amount);
  self ← contract_address;
  on_token (transfer_from token self organizer self amount);;
  let is_verified := min_amount <=? amount in
  now ← ledger_timestamp;
  let stake := {|
    stake_organizer := organizer; stake_token := token; stake_amount := amount;
    stake_staked_at := now; stake_is_verified := is_verified;
    stake_reward_balance := 0; stake_total_rewards_claimed := 0 |} in
  on_registry (modify (storage.set_organizer_stake stake));;
  on_registry (storage.add_to_total_staked amount);;
  on_registry (modify (storage.add_to_stakers_list organizer));;
  on_registry (publish (AgoraEvent.CollateralStaked organizer token amount is_verified now)).

Definition unstake_collateral (organizer : Address) : M World EventRegistryError unit :=
  require_auth organizer;;
  o ← on_registry (gets (storage.get_organizer_stake organizer));
  stake ← ok_or o NotStaked;
  self ← contract_address;
  on_token (transfer (stake_token stake) self organizer (stake_amount stake));;
  on_registry (modify (storage.subtract_from_total_staked (stake_amount stake)));;
  on_registry (modify (storage.remove_organizer_stake organizer));;
  on_registry (modify (storage.remove_from_stakers_list organizer));;
  now ← ledger_timestamp;
  on_registry (publish (AgoraEvent.CollateralUnstaked organizer (stake_token stake)
                          (stake_amount stake) now)).

Definition distribute_staker_rewards (caller : Address) (total_reward : Z)
    : M World EventRegistryError unit :=
  require_auth caller;;
  o ← on_registry (gets storage.get_admin);
  admin ← ok_or o NotInitialized;
  throw_if (bool_decide (caller <> admin)) Unauthorized;;
  throw_if (total_reward <=? 0) InvalidRewardAmount;;
  o ← on_registry (gets storage.get_staking_token);
  token ← ok_or o StakingNotConfigured;
  total_staked ← on_registry (gets storage.get_total_staked);
  throw_if (total_staked =? 0) NotStaked;;
  self ← contract_address;
  on_token (transfer_from token self caller self total_reward);;
  stakers ← on_registry (gets storage.get_stakers_list);
  on_registry (modify (fun s => foldl (distribute_one total_reward total_staked) s stakers));;
  now ← ledger_timestamp;
  on_registry (publish (AgoraEvent.StakerRewardsDistributed total_reward (len stakers) now)).

Definition claim_staker_rewards (organizer : Address) : M World EventRegistryError Z :=
  require_auth organizer;;
  o ← on_registry (gets (storage.get_organizer_stake organizer));
  stake ← ok_or o NotStaked;
  throw_if (stake_reward_balance stake =? 0) NoRewardsAvailable;;
  let reward_to_claim := stake_reward_balance stake in
  self ← contract_address;
  on_token (transfer (stake_token stake) self organizer reward_to_claim);;
  let stake :=
    stake <| stake_total_rewards_claimed :=
               saturating_add I128 (stake_total_rewards_claimed stake) reward_to_claim |>
          <| stake_reward_balance := 0 |> in
  on_registry (modify (storage.set_organizer_stake stake));;
  now ← ledger_timestamp;
  on_registry (publish (AgoraEvent.StakerRewardsClaimed organizer reward_to_claim now));;
  mret reward_to_claim.
End Staking.
Arguments World T : clear implicits.

Lemma on_registry_Done {T A} (m : R A) env (w : World T) a w' :
  on_registry m env w = Done a w' <-> exists s, m env w.1 = Done a s /\ w' = (s, w.2).
Proof. unfold on_registry. by rewrite zoom_Done. Qed.

Lemma on_token_Done {T} (f : T -> option T) env (w : World T) u w' :
  on_token f env w = Done u w' <-> exists t, f w.2 = Some t /\ w' = (w.1, t).
Proof. unfold on_token. destruct u, (f w.2); naive_solver. Qed.

(** [exec] on a world. *)
Ltac wrun1 :=
  match goal with
  | H : on_registry _ _ _ = Done _ _ |- _ => apply on_registry_Done in H as (? & H & ?)
  | H : on_token _ _ _ = Done _ _ |- _ => apply on_token_Done in H as (? & H & ?)
  | _ => run1
  end.
Ltac wrun := repeat wrun1; cbn [fst snd] in *.

(** ** The staking ledger *)

Record stake_inv (s : State) : Prop := {
  si_key o st : k_OrganizerStake s !! o = Some st -> stake_organizer st = o;
  si_amount o st : k_OrganizerStake s !! o = Some st -> 0 < stake_amount st;
  si_reward o st : k_OrganizerStake s !! o = Some st -> 0 <= stake_reward_balance st;
  si_nodup : NoDup (storage.get_stakers_list s);
  si_list o : o ∈ storage.get_stakers_list s <-> is_Some (k_OrganizerStake s !! o);
  si_total : storage.get_total_staked s = sum_map stake_amount (k_OrganizerStake s);
  si_range : storage.get_total_staked s ∈ᵢ I128;
}.

Lemma stake_inv_init : stake_inv init_state.
Proof.
  split; try done; [apply NoDup_nil_2|].
  intros o. split; [by intros ?%not_elem_of_nil|by intros [? ?]].
Qed.

(** The part of the storage the invariant reads. *)
Definition stake_view (s : State) := (k_OrganizerStake s, k_StakersList s, k_TotalStaked s).

Lemma stake_inv_frame s s' : stake_view s' = stake_view s -> stake_inv s -> stake_inv s'.
Proof.
  unfold stake_view. intros [= HO HL HT] [].
  split; unfold storage.get_stakers_list, storage.get_total_staked in *;
    rewrite ?HO, ?HL, ?HT; auto.
Qed.

Lemma total_nonneg s : stake_inv s -> 0 <= storage.get_total_staked s.
Proof.
  intros []. rewrite si_total0. apply sum_map_nonneg. intros o st Hst.
  specialize (si_amount0 o st Hst). lia.
Qed.

(** *** Distribution *)

(** The stake after a distribution. *)
Definition credited (total_reward total_staked : Z) (st : OrganizerStake) : OrganizerStake :=
  let reward := reward_share total_reward total_staked (stake_amount st) in
  if 0 <? reward
  then st <| stake_reward_balance := saturating_add I128 (stake_reward_balance st) reward |>
  else st.

Lemma credited_fields r t st :
  stake_organizer (credited r t st) = stake_organizer st /\
  stake_amount (credited r t st) = stake_amount st /\
  stake_token (credited r t st) = stake_token st.
Proof. unfold credited. by case_match. Qed.

Lemma distribute_one_stakes r t s o o' :
  (forall o st, k_OrganizerStake s !! o = Some st -> stake_organizer st = o) ->
  k_OrganizerStake (distribute_one r t s o) !! o'
  = if bool_decide (o' = o) then credited r t <$> k_OrganizerStake s !! o'
    else k_OrganizerStake s !! o'.
Proof.
  intros Hkey. unfold distribute_one, storage.get_organizer_stake, credited.
  destruct (k_OrganizerStake s !! o) as [st|] eqn:Hst.
  - specialize (Hkey _ _ Hst). case_bool_decide as Ho.
    + subst. rewrite Hst. cbn. case_match; [|by rewrite Hst].
      unfold storage.set_organizer_stake. upd_simpl. apply lookup_insert_eq.
    + case_match; [|done]. unfold storage.set_organizer_stake. upd_simpl.
      rewrite lookup_insert_ne; [done|]. congruence.
  - case_bool_decide; [|done]. subst. by rewrite Hst.
Qed.

Lemma distribute_one_frame r t s o :
  k_StakersList (distribute_one r t s o) = k_StakersList s /\
  k_TotalStaked (distribute_one r t s o) = k_TotalStaked s.
Proof. unfold distribute_one. by repeat case_match. Qed.

Lemma distribute_stakes r t l : forall s,
  NoDup l ->
  (forall o st, k_OrganizerStake s !! o = Some st -> stake_organizer st = o) ->
  forall o, k_OrganizerStake (foldl (distribute_one r t) s l) !! o
  = if bool_decide (o ∈ l) then credited r t <$> k_OrganizerStake s !! o
    else k_OrganizerStake s !! o.
Proof.
  induction l as [|x l IH]; intros s Hnd Hkey o; [done|]. cbn [foldl].
  apply NoDup_cons in Hnd as [Hx Hnd]. rewrite IH; [|done|].
  - rewrite distribute_one_stakes by done.
    destruct (decide (o = x)) as [->|Hne].
    + rewrite (bool_decide_false (x ∈ l)), !bool_decide_true by set_solver. done.
    + rewrite (bool_decide_false (o = x)) by done.
      by rewrite (bool_decide_ext (o ∈ x :: l) (o ∈ l)) by set_solver.
  - intros o' st. rewrite distribute_one_stakes by done.
    case_bool_decide; [|apply Hkey]. intros (st0 & Hst0 & ->)%fmap_Some.
    destruct (credited_fields r t st0) as (-> & _). by apply Hkey.
Qed.

Lemma distribute_frame r t l : forall s,
  k_StakersList (foldl (distribute_one r t) s l) = k_StakersList s /\
  k_TotalStaked (foldl (distribute_one r t) s l) = k_TotalStaked s.
Proof.
  induction l as [|x l IH]; intros s; [done|]. cbn [foldl].
  destruct (IH (distribute_one r t s x)) as [-> ->]. apply distribute_one_frame.
Qed.

(** A distribution credits every stake, and nothing else. *)
Lemma distribute_all r t s :
  stake_inv s ->
  k_OrganizerStake (foldl (distribute_one r t) s (storage.get_stakers_list s))
  = credited r t <$> k_OrganizerStake s.
Proof.
  intros []. apply map_eq. intros o. rewrite distribute_stakes by auto.
  rewrite lookup_fmap. case_bool_decide as Ho; [done|].
  rewrite si_list0 in Ho. destruct (k_OrganizerStake s !! o) eqn:Hs; [|done].
  exfalso. apply Ho. eauto.
Qed.

Lemma reward_share_bound r t a :
  0 <= r -> 0 < t -> 0 <= a -> 0 <= reward_share r t a /\ reward_share r t a * t <= r * a.
Proof.
  intros Hr Ht Ha. unfold reward_share, checked_mul.
  destruct (checked I128 (r * a)) as [v|] eqn:Hv; cbn; [|nia].
  apply checked_Some in Hv as [-> _]. unfold checked_div.
  rewrite (proj2 (Z.eqb_neq t 0)) by lia.
  destruct (checked I128 _) as [v|] eqn:Hq; cbn; [|nia].
  apply checked_Some in Hq as [-> _].
  rewrite Z.quot_div_nonneg by nia. split; [apply Z.div_pos; nia|].
  rewrite Z.mul_comm. apply Z.mul_div_le. lia.
Qed.

(** The shares of a distribution never add up to more than what came in. *)
Lemma shares_bound s r :
  stake_inv s -> 0 <= r -> storage.get_total_staked s <> 0 ->
  sum_map (fun st => reward_share r (storage.get_total_staked s) (stake_amount st))
          (k_OrganizerStake s) <= r.
Proof.
  intros Hinv Hr Ht. pose proof (total_nonneg s Hinv) as Hnn. destruct Hinv.
  set (t := storage.get_total_staked s) in *.
  enough (t * sum_map (fun st => reward_share r t (stake_amount st)) (k_OrganizerStake s)
          <= t * r) by nia.
  assert (t * r = sum_map (fun st => r * stake_amount st) (k_OrganizerStake s)) as ->
    by (rewrite sum_map_scale, <- si_total0; lia).
  rewrite <- sum_map_scale.
  apply sum_map_le. intros o st Hst. specialize (si_amount0 o st Hst).
  destruct (reward_share_bound r t (stake_amount st)); lia.
Qed.

Lemma credited_reward r t st :
  0 <= stake_reward_balance st -> 0 <= reward_share r t (stake_amount st) ->
  0 <= stake_reward_balance (credited r t st)
    <= stake_reward_balance st + reward_share r t (stake_amount st).
Proof.
  intros Hb Hs. unfold credited. case_match; bools; [|lia]. upd_simpl.
  unfold saturating_add, saturate. cbn. lia.
Qed.

(** ** What the operations do *)
Section StakingFacts.
Context {T : Type} `{TokenLaws T}.
Implicit Types (s : State) (t : T) (w : World T) (env : Env).

Lemma stake_collateral_Done organizer amount env s t u w' :
  stake_collateral organizer amount env (s, t) = Done u w' ->
  exists token t' st s',
    w' = (s', t') /\ organizer ∈ auths env /\ 0 < amount /\
    k_OrganizerStake s !! organizer = None /\ k_StakingToken s = Some token /\
    transfer_from token (current_contract_address env) organizer
      (current_contract_address env) amount t = Some t' /\
    stake_organizer st = organizer /\ stake_token st = token /\ stake_amount st = amount /\
    stake_reward_balance st = 0 /\
    stake_is_verified st = (storage.get_min_stake_amount s <=? amount) /\
    k_OrganizerStake s' = <[organizer := st]> (k_OrganizerStake s) /\
    storage.get_total_staked s' = storage.get_total_staked s + amount /\
    storage.get_total_staked s + amount ∈ᵢ I128 /\
    storage.get_stakers_list s' =
      (if bool_decide (organizer ∈ storage.get_stakers_list s)
       then storage.get_stakers_list s else storage.get_stakers_list s ++ [organizer]) /\
    k_StakingToken s' = k_StakingToken s.
Proof.
  intros Hrun. unfold stake_collateral, storage.add_to_total_staked,
    storage.get_organizer_stake, storage.get_staking_token in Hrun. wrun. bools.
  match goal with H : ~ is_Some _ |- _ => apply eq_None_not_Some in H end.
  unfold storage.add_to_stakers_list, storage.get_stakers_list.
  unfold storage.set_organizer_stake. upd_simpl.
  eexists _, _, _, _. split; [reflexivity|].
  case_bool_decide; upd_simpl; split_and!; try done; try lia.
  all: unfold storage.get_total_staked, storage.set_organizer_stake in *; upd_simpl; done || lia.
Qed.

Lemma unstake_collateral_Done organizer env s t u w' :
  unstake_collateral organizer env (s, t) = Done u w' ->
  exists st t' s',
    w' = (s', t') /\ organizer ∈ auths env /\
    k_OrganizerStake s !! organizer = Some st /\
    transfer (stake_token st) (current_contract_address env) organizer (stake_amount st) t
      = Some t' /\
    k_OrganizerStake s' = delete organizer (k_OrganizerStake s) /\
    storage.get_total_staked s'
      = saturating_sub I128 (storage.get_total_staked s) (stake_amount st) /\
    storage.get_stakers_list s' = filter (.≠ organizer) (storage.get_stakers_list s) /\
    k_StakingToken s' = k_StakingToken s.
Proof.
  intros Hrun. unfold unstake_collateral, storage.get_organizer_stake in Hrun. wrun.
  eexists _, _, _. split; [reflexivity|]. by split_and!.
Qed.

Lemma distribute_Done caller r env s t u w' :
  distribute_staker_rewards caller r env (s, t) = Done u w' ->
  exists token t' s',
    w' = (s', t') /\ caller ∈ auths env /\ k_Admin s = Some caller /\ 0 < r /\
    k_StakingToken s = Some token /\ storage.get_total_staked s <> 0 /\
    transfer_from token (current_contract_address env) caller
      (current_contract_address env) r t = Some t' /\
    k_OrganizerStake s' = k_OrganizerStake
      (foldl (distribute_one r (storage.get_total_staked s)) s (storage.get_stakers_list s)) /\
    k_StakersList s' = k_StakersList s /\ k_TotalStaked s' = k_TotalStaked s.
Proof.
  intros Hrun. unfold distribute_staker_rewards, storage.get_admin,
    storage.get_staking_token in Hrun. wrun. bools.
  match goal with H : ~ (caller <> ?a) |- _ => apply dec_stable in H; subst a end.
  eexists _, _, _. split; [reflexivity|]. upd_simpl.
  destruct (distribute_frame r (storage.get_total_staked s) (storage.get_stakers_list s) s)
    as [-> ->].
  split_and!; try done; lia.
Qed.

Lemma claim_Done organizer env s t r w' :
  claim_staker_rewards organizer env (s, t) = Done r w' ->
  exists st t' s',
    w' = (s', t') /\ organizer ∈ auths env /\
    k_OrganizerStake s !! organizer = Some st /\
    r = stake_reward_balance st /\ r <> 0 /\
    transfer (stake_token st) (current_contract_address env) organizer r t = Some t' /\
    k_OrganizerStake s' = <[stake_organizer st := st
      <| stake_total_rewards_claimed :=
           saturating_add I128 (stake_total_rewards_claimed st) r |>
      <| stake_reward_balance := 0 |>]> (k_OrganizerStake s) /\
    k_StakersList s' = k_StakersList s /\ k_TotalStaked s' = k_TotalStaked s /\
    k_StakingToken s' = k_StakingToken s.
Proof.
  intros Hrun. unfold claim_staker_rewards, storage.get_organizer_stake in Hrun. wrun. bools.
  eexists _, _, _. split; [reflexivity|]. by split_and!.
Qed.

(** *** The ledger is consistent *)

Lemma stake_preserves organizer amount env s t u s' t' :
  stake_inv s -> stake_collateral organizer amount env (s, t) = Done u (s', t') -> stake_inv s'.
Proof.
  intros [] (token & t1 & st & s1 & [= <- <-] & _ & Ha & Hnone & _ & _ & Ho & _ & Hst & Hr & _
    & HO & HT & HR & HL & _)%stake_collateral_Done.
  assert (organizer ∉ storage.get_stakers_list s) as Hnew
    by (rewrite si_list0, Hnone; by intros [? ?]).
  rewrite bool_decide_false in HL by done.
  split; rewrite ?HO, ?HT, ?HL.
  - intros o st' [[<- <-]|[? ?]]%lookup_insert_Some; auto.
  - intros o st' [[<- <-]|[? ?]]%lookup_insert_Some; [lia|eauto].
  - intros o st' [[<- <-]|[? ?]]%lookup_insert_Some; [lia|eauto].
  - apply NoDup_app. split_and!; [done| |apply NoDup_singleton]. set_solver.
  - intros o. rewrite elem_of_app, list_elem_of_singleton, si_list0, lookup_insert_is_Some'.
    naive_solver.
  - rewrite sum_map_insert_None by done. lia.
  - done.
Qed.

Lemma unstake_preserves organizer env s t u s' t' :
  stake_inv s ->
  unstake_collateral organizer env (s, t) = Done u (s', t') -> stake_inv s'.
Proof.
  intros Hinv (st & t1 & s1 & [= <- <-] & _ & Hst & _ & HO & HT & HL & _)%unstake_collateral_Done.
  destruct Hinv. assert (0 <= storage.get_total_staked s - stake_amount st) as Hsub.
  { pose proof (si_amount0 _ _ Hst). rewrite si_total0.
    pose proof (sum_map_elem stake_amount (k_OrganizerStake s) organizer st) as Helem.
    enough (stake_amount st <= sum_map stake_amount (k_OrganizerStake s)) by lia.
    apply Helem; [|done]. intros o x Hx. specialize (si_amount0 o x Hx). lia. }
  split; rewrite ?HO, ?HT, ?HL.
  - intros o st' [_ ?]%lookup_delete_Some. auto.
  - intros o st' [_ ?]%lookup_delete_Some. eauto.
  - intros o st' [_ ?]%lookup_delete_Some. eauto.
  - by apply NoDup_filter.
  - intros o. rewrite list_elem_of_filter, si_list0, lookup_delete_is_Some. naive_solver.
  - rewrite sum_map_delete, Hst. cbn. unfold saturating_sub.
    rewrite saturate_in, si_total0; [done|]. pose proof (si_amount0 _ _ Hst).
    unfold int_min, int_max in *. lia.
  - apply saturate_range.
Qed.

Lemma distribute_preserves caller r env s t u s' t' :
  stake_inv s -> distribute_staker_rewards caller r env (s, t) = Done u (s', t') -> stake_inv s'.
Proof.
  intros Hinv (token & t1 & s1 & [= <- <-] & _ & _ & Hr & _ & Hne & _ & HO & HL & HT)%distribute_Done.
  rewrite distribute_all in HO by done.
  pose proof (total_nonneg s Hinv) as Hnn. destruct Hinv.
  unfold storage.get_stakers_list, storage.get_total_staked in *.
  split; unfold storage.get_stakers_list, storage.get_total_staked; rewrite ?HO, ?HT, ?HL.
  - intros o st'. rewrite lookup_fmap. intros (st0 & Hst0 & ->)%fmap_Some.
    destruct (credited_fields r (default 0 (k_TotalStaked s)) st0) as (-> & _). auto.
  - intros o st'. rewrite lookup_fmap. intros (st0 & Hst0 & ->)%fmap_Some.
    destruct (credited_fields r (default 0 (k_TotalStaked s)) st0) as (_ & -> & _). eauto.
  - intros o st'. rewrite lookup_fmap. intros (st0 & Hst0 & ->)%fmap_Some.
    pose proof (si_amount0 _ _ Hst0). apply credited_reward; [eauto|].
    apply reward_share_bound; lia.
  - done.
  - intros o. rewrite lookup_fmap, fmap_is_Some. auto.
  - rewrite sum_map_fmap, si_total0. apply sum_map_ext. intros o st0 _.
    by destruct (credited_fields r (sum_map stake_amount (k_OrganizerStake s)) st0) as (_ & -> & _).
  - done.
Qed.

Lemma claim_preserves organizer env s t r s' t' :
  stake_inv s -> claim_staker_rewards organizer env (s, t) = Done r (s', t') -> stake_inv s'.
Proof.
  intros [] (st & t1 & s1 & [= <- <-] & _ & Hst & _ & _ & _ & HO & HL & HT & _)%claim_Done.
  pose proof (si_key0 _ _ Hst) as Hk. rewrite Hk in HO.
  unfold storage.get_stakers_list, storage.get_total_staked in *.
  split; unfold storage.get_stakers_list, storage.get_total_staked; rewrite ?HO, ?HT, ?HL.
  - intros o st' [[<- <-]|[? ?]]%lookup_insert_Some; [done|auto].
  - intros o st' [[<- <-]|[? ?]]%lookup_insert_Some; upd_simpl; eauto.
  - intros o st' [[<- <-]|[? ?]]%lookup_insert_Some; upd_simpl; [lia|eauto].
  - done.
  - intros o. rewrite si_list0, lookup_insert_is_Some'. split; [auto|].
    intros [<-|?]; [by rewrite Hst|done].
  - rewrite sum_map_insert, Hst. cbn [from_option]. upd_simpl. lia.
  - done.
Qed.
End StakingFacts.

(** *** The contract can pay *)

(** What the contract owes in the token [tk]: collateral and unclaimed rewards. *)
Definition owed (tk : Address) (s : State) : Z :=
  sum_map (fun st => if bool_decide (stake_token st = tk)
                     then stake_amount st + stake_reward_balance st else 0)
          (k_OrganizerStake s).

Definition solvent {T} `{Token T} (self : Address) (w : World T) : Prop :=
  forall tk, owed tk w.1 <= balance w.2 tk self.

(** All collateral is in the configured token. *)
Definition one_token (s : State) : Prop :=
  forall o st, k_OrganizerStake s !! o = Some st -> k_StakingToken s = Some (stake_token st).

Section Solvency.
Context {T : Type} `{TokenLaws T}.
Implicit Types (s : State) (t : T) (env : Env).

Lemma moved_in token from to amount tk :
  from <> to -> moved token from to amount tk to = if bool_decide (token = tk) then amount else 0.
Proof.
  intros Hne. unfold moved. rewrite (bool_decide_false (_ /\ to = from)) by naive_solver.
  repeat case_bool_decide; naive_solver lia.
Qed.

Lemma moved_out token from to amount tk :
  to <> from -> moved token from to amount tk from = if bool_decide (token = tk) then - amount else 0.
Proof.
  intros Hne. unfold moved. rewrite (bool_decide_false (_ /\ from = to)) by naive_solver.
  repeat case_bool_decide; naive_solver lia.
Qed.

Lemma stake_solvent organizer amount env s t u w' :
  current_contract_address env ∉ auths env ->
  stake_collateral organizer amount env (s, t) = Done u w' ->
  solvent (current_contract_address env) (s, t) ->
  solvent (current_contract_address env) w'.
Proof.
  intros Hself (token & t1 & st & s1 & -> & Hau & Ha & Hnone & _ & Htr & _ & Htk & Hst & Hr & _
    & HO & _)%stake_collateral_Done Hsol tk.
  apply transfer_from_law in Htr as [_ Hbal]. specialize (Hsol tk). unfold owed in *. cbn in *.
  rewrite HO, sum_map_insert_None, Hbal, moved_in, Htk, Hst, Hr by (done || set_solver).
  case_bool_decide; lia.
Qed.

Lemma unstake_solvent organizer env s t u w' :
  stake_inv s -> current_contract_address env ∉ auths env ->
  unstake_collateral organizer env (s, t) = Done u w' ->
  solvent (current_contract_address env) (s, t) ->
  solvent (current_contract_address env) w'.
Proof.
  intros Hinv Hself (st & t1 & s1 & -> & Hau & Hst & Htr & HO & _)%unstake_collateral_Done Hsol tk.
  apply transfer_law in Htr as [_ Hbal]. specialize (Hsol tk). unfold owed in *. cbn in *.
  rewrite HO, sum_map_delete, Hst, Hbal, moved_out by set_solver. cbn.
  pose proof (si_reward s Hinv _ _ Hst). case_bool_decide; lia.
Qed.

Lemma claim_solvent organizer env s t r w' :
  stake_inv s -> current_contract_address env ∉ auths env ->
  claim_staker_rewards organizer env (s, t) = Done r w' ->
  solvent (current_contract_address env) (s, t) ->
  solvent (current_contract_address env) w'.
Proof.
  intros Hinv Hself (st & t1 & s1 & -> & Hau & Hst & -> & _ & Htr & HO & _)%claim_Done Hsol tk.
  apply transfer_law in Htr as [_ Hbal]. specialize (Hsol tk). unfold owed in *. cbn in *.
  rewrite HO, (si_key s Hinv _ _ Hst), sum_map_insert, Hst, Hbal, moved_out by set_solver.
  cbn [from_option]. upd_simpl. case_bool_decide; lia.
Qed.

Lemma distribute_solvent caller r env s t u w' :
  stake_inv s -> one_token s -> current_contract_address env ∉ auths env ->
  distribute_staker_rewards caller r env (s, t) = Done u w' ->
  solvent (current_contract_address env) (s, t) ->
  solvent (current_contract_address env) w'.
Proof.
  intros Hinv Hone Hself
    (token & t1 & s1 & -> & Hau & _ & Hr & Htk & Hne & Htr & HO & _)%distribute_Done Hsol tk.
  apply transfer_from_law in Htr as [_ Hbal]. specialize (Hsol tk). unfold owed in *. cbn in *.
  rewrite distribute_all in HO by done.
  rewrite HO, sum_map_fmap, Hbal, moved_in by set_solver.
  pose proof (shares_bound s r Hinv ltac:(lia) Hne) as Hshares.
  pose proof (total_nonneg s Hinv) as Hnn.
  set (tot := storage.get_total_staked s) in *.
  enough (sum_map (fun st => if bool_decide (stake_token (credited r tot st) = tk)
      then stake_amount (credited r tot st) + stake_reward_balance (credited r tot st) else 0)
      (k_OrganizerStake s) <=
    sum_map (fun st => (if bool_decide (stake_token st = tk)
      then stake_amount st + stake_reward_balance st else 0)
      + (if bool_decide (token = tk) then reward_share r tot (stake_amount st) else 0))
      (k_OrganizerStake s)) as Hle.
  { rewrite sum_map_add in Hle. case_bool_decide; [lia|].
    rewrite (sum_map_ext (fun _ => 0) (fun _ => 0 * 0)), sum_map_scale in Hle by done. lia. }
  apply sum_map_le. intros o st Hst. destruct (credited_fields r tot st) as (_ & -> & ->).
  pose proof (si_amount s Hinv _ _ Hst). pose proof (si_reward s Hinv _ _ Hst).
  specialize (Hone _ _ Hst). simplify_eq.
  destruct (reward_share_bound r tot (stake_amount st)); [lia..|].
  pose proof (credited_reward r tot st). case_bool_decide; lia.
Qed.
End Solvency.

(** ** Properties *)

(** A distribution is proportional and never hands out more than came in.
    Every stake is credited with the reward times its amount divided by the
    total staked, rounded down (when the product and the new balance fit an
    [i128]); collateral, tokens and holders are untouched; and the credited
    rewards together do not exceed the distributed amount. *)
Theorem distribution_fair {T} `{TokenLaws T} caller r env s (t : T) u s' t' :
  stake_inv s ->
  distribute_staker_rewards caller r env (s, t) = Done u (s', t') ->
  (forall o st, k_OrganizerStake s !! o = Some st ->
     r * stake_amount st ∈ᵢ I128 ->
     stake_reward_balance st + r * stake_amount st / storage.get_total_staked s ∈ᵢ I128 ->
     k_OrganizerStake s' !! o = Some (st <| stake_reward_balance :=
       stake_reward_balance st + r * stake_amount st / storage.get_total_staked s |>)) /\
  sum_map stake_reward_balance (k_OrganizerStake s')
    <= sum_map stake_reward_balance (k_OrganizerStake s) + r.
Proof.
  intros Hinv Hrun. pose proof (total_nonneg s Hinv) as Hnn.
  apply distribute_Done in Hrun
    as (token & t1 & s1 & [= <- <-] & _ & _ & Hr & _ & Hne & _ & HO & _).
  rewrite distribute_all in HO by done. rewrite HO.
  set (tot := storage.get_total_staked s) in *. split.
  - intros o st Hst Hmul Hadd. rewrite lookup_fmap, Hst. cbn. f_equal.
    pose proof (si_amount s Hinv _ _ Hst) as Ha.
    assert (0 <= r * stake_amount st / tot <= r * stake_amount st) as Hq
      by (split; [apply Z.div_pos; nia|apply Z.div_le_upper_bound; nia]).
    assert (reward_share r tot (stake_amount st) = r * stake_amount st / tot) as Hsh.
    { unfold reward_share, checked_mul. rewrite checked_in by done. cbn. unfold checked_div.
      rewrite (proj2 (Z.eqb_neq tot 0)), Z.quot_div_nonneg, checked_in by (cbn in *; lia || nia).
      done. }
    unfold credited. rewrite Hsh. case_match eqn:Hpos; bools.
    + unfold saturating_add. by rewrite saturate_in.
    + assert (r * stake_amount st / tot = 0) as -> by lia. rewrite Z.add_0_r.
      by destruct st.
  - rewrite sum_map_fmap. pose proof (shares_bound s r Hinv ltac:(lia) Hne) as Hb.
    fold tot in Hb. etransitivity; [|apply Z.add_le_mono_l, Hb]. rewrite <- sum_map_add.
    apply sum_map_le. intros o st Hst. pose proof (si_amount s Hinv _ _ Hst).
    pose proof (si_reward s Hinv _ _ Hst).
    apply credited_reward; [done|]. apply reward_share_bound; lia.
Qed.

(** Two stakers, 30 and 10 units of collateral. *)
Definition sample_stake (o : Address) (amount reward : Z) : OrganizerStake := {|
  stake_organizer := o; stake_token := "USDC"; stake_amount := amount; stake_staked_at := 1;
  stake_is_verified := true; stake_reward_balance := reward; stake_total_rewards_claimed := 0 |}.

Definition sample_stakes : State :=
  Sample.state
    <| k_StakingToken := Some "USDC" |> <| k_MinStakeAmount := Some 20 |>
    <| k_TotalStaked := Some 40 |> <| k_StakersList := Some ["ORG"; "EVE"] |>
    <| k_OrganizerStake := <["ORG" := sample_stake "ORG" 30 5]>
                             {[ "EVE" := sample_stake "EVE" 10 0 ]} |>.

Definition sample_ledger : Ledger := {|
  balances := <[("USDC", "REG") := 45]> {[ ("USDC", "ADM") := 500 ]};
  allowances := {[ ("USDC", "ADM", "REG") := 500 ]} |}.

Lemma sample_stakes_lookup o st :
  k_OrganizerStake sample_stakes !! o = Some st ->
  (o = "ORG" /\ st = sample_stake "ORG" 30 5) \/ (o = "EVE" /\ st = sample_stake "EVE" 10 0).
Proof.
  unfold sample_stakes. upd_simpl.
  intros [[<- <-]|[_ [<- <-]%lookup_singleton_Some]]%lookup_insert_Some; auto.
Qed.

Lemma sample_stakes_inv : stake_inv sample_stakes.
Proof.
  split.
  1-3: intros o st [[-> ->]|[-> ->]]%sample_stakes_lookup; cbn; done || lia.
  - apply (bool_decide_unpack _). vm_compute. exact I.
  - intros o. change (storage.get_stakers_list sample_stakes) with ["ORG"; "EVE"]. split.
    + intros Ho. apply elem_of_cons in Ho as [->| ->%list_elem_of_singleton]; vm_compute; eauto.
    + intros [st [[-> _]|[-> _]]%sample_stakes_lookup]; set_solver.
  - vm_compute. reflexivity.
  - vm_compute. intuition congruence.
Qed.

Lemma distribution_fair_witness :
  let env := Sample.env 100 ["ADM"] in
  let w' := invoke (distribute_staker_rewards "ADM" 100) env (sample_stakes, sample_ledger) in
  k_OrganizerStake w'.1 !! "ORG" = Some (sample_stake "ORG" 30 (5 + 100 * 30 / 40)) /\
  sum_map stake_reward_balance (k_OrganizerStake w'.1)
    <= sum_map stake_reward_balance (k_OrganizerStake sample_stakes) + 100.
Proof.
  intros env w'.
  destruct (distribution_fair "ADM" 100 env sample_stakes sample_ledger tt w'.1 w'.2) as [Hall Hsum].
  - apply sample_stakes_inv.
  - rewrite <- surjective_pairing.
    apply (returned_invoke (distribute_staker_rewards "ADM" 100)). vm_compute. reflexivity.
  - split; [|exact Hsum]. apply (Hall "ORG" (sample_stake "ORG" 30 5)); vm_compute; intuition congruence.
Defined.

(** A claim pays the accrued rewards exactly once: the organizer receives
    the whole reward balance in the stake's token from the contract, the
    balance is zeroed, and claiming again is refused until new rewards are
    distributed. *)
Theorem claim_pays_once {T} `{TokenLaws T} organizer env s (t : T) r s' t' :
  stake_inv s ->
  organizer <> current_contract_address env ->
  claim_staker_rewards organizer env (s, t) = Done r (s', t') ->
  exists st, k_OrganizerStake s !! organizer = Some st /\ r = stake_reward_balance st /\ 0 < r /\
    balance t' (stake_token st) organizer = balance t (stake_token st) organizer + r /\
    balance t' (stake_token st) (current_contract_address env)
      = balance t (stake_token st) (current_contract_address env) - r /\
    (forall env' t'', organizer ∈ auths env' ->
       claim_staker_rewards organizer env' (s', t'') = Fail NoRewardsAvailable).
Proof.
  intros Hinv Hself (st & t1 & s1 & [= <- <-] & Hau & Hst & -> & Hne & Htr & HO & _)%claim_Done.
  exists st. pose proof (si_reward s Hinv _ _ Hst). apply transfer_law in Htr as [_ Hbal].
  rewrite !Hbal, moved_in, moved_out, !bool_decide_true by auto.
  split_and!; try done; [lia|].
  intros env' t'' Hau'. unfold claim_staker_rewards. run_step; [done|].
  eapply bind_total; [reflexivity|]. cbn [fst]. unfold storage.get_organizer_stake.
  rewrite HO, (si_key s Hinv _ _ Hst). rewrite lookup_insert_eq. done.
Qed.

Lemma claim_pays_once_witness :
  let env := Sample.env 100 ["ORG"] in
  let w' := invoke (claim_staker_rewards "ORG") env (sample_stakes, sample_ledger) in
  exists st, k_OrganizerStake sample_stakes !! "ORG" = Some st /\
    balance w'.2 (stake_token st) "ORG" = balance sample_ledger (stake_token st) "ORG" + 5.
Proof.
  intros env w'.
  destruct (claim_pays_once "ORG" env sample_stakes sample_ledger 5 w'.1 w'.2)
    as (st & Hst & _ & _ & Hbal & _).
  - apply sample_stakes_inv.
  - done.
  - rewrite <- surjective_pairing.
    apply (returned_invoke (claim_staker_rewards "ORG")). vm_compute. reflexivity.
  - exists st. split; [exact Hst|exact Hbal].
Defined.

(** Unstaking returns exactly the collateral and forfeits unclaimed rewards:
    the organizer's balance grows by the staked amount only, whatever the
    reward balance was, and the stake record is gone, so the rewards can no
    longer be claimed (the entry point's documentation says rewards must be
    claimed first; nothing enforces it). *)
Theorem unstake_forfeits_rewards {T} `{TokenLaws T} organizer env s (t : T) u s' t' :
  organizer <> current_contract_address env ->
  unstake_collateral organizer env (s, t) = Done u (s', t') ->
  exists st, k_OrganizerStake s !! organizer = Some st /\
    balance t' (stake_token st) organizer
      = balance t (stake_token st) organizer + stake_amount st /\
    k_OrganizerStake s' = delete organizer (k_OrganizerStake s) /\
    (forall env' t'', organizer ∈ auths env' ->
       claim_staker_rewards organizer env' (s', t'') = Fail NotStaked).
Proof.
  intros Hself (st & t1 & s1 & [= <- <-] & Hau & Hst & Htr & HO & _)%unstake_collateral_Done.
  exists st. apply transfer_law in Htr as [_ Hbal].
  rewrite Hbal, moved_in, bool_decide_true by auto. split_and!; try done.
  intros env' t'' Hau'. unfold claim_staker_rewards. run_step; [done|].
  eapply bind_total; [reflexivity|]. cbn [fst]. unfold storage.get_organizer_stake.
  rewrite HO, lookup_delete_eq. done.
Qed.

Lemma unstake_forfeits_rewards_witness :
  let env := Sample.env 100 ["ORG"] in
  let w' := invoke (unstake_collateral "ORG") env (sample_stakes, sample_ledger) in
  exists st, k_OrganizerStake sample_stakes !! "ORG" = Some st /\
    0 < stake_reward_balance st /\
    balance w'.2 (stake_token st) "ORG"
      = balance sample_ledger (stake_token st) "ORG" + stake_amount st.
Proof.
  intros env w'.
  destruct (unstake_forfeits_rewards "ORG" env sample_stakes sample_ledger tt w'.1 w'.2)
    as (st & Hst & Hbal & _).
  - done.
  - rewrite <- surjective_pairing.
    apply (returned_invoke (unstake_collateral "ORG")). vm_compute. reflexivity.
  - exists st. split; [exact Hst|]. split; [|exact Hbal].
    apply sample_stakes_lookup in Hst as [[_ ->]|[[=] _]]. reflexivity.
Defined.
