(* ===== verification/RegistryDispute.v ===== *)
(** * Event registry: disputes

    Opening, voting on and resolving a dispute about an event
    ([event_registry/src/dispute.rs]).  Whether an address holds a confirmed
    ticket is asked of the payment contract, a cross-contract call that is a
    parameter here ([None] when the call traps). *)

From stdpp Require Import base tactics numbers list strings gmap.
From S2P Require Import Prelude.
From S2P Require Import Soroban.
From S2P Require Import Sharded.
From S2P Require Import RegistryTypes.
From S2P Require Import RegistryStorage.
From S2P Require Import RegistryEvents.

Definition DISPUTE_VOTING_DURATION : Z := 172800.
Definition DEFAULT_QUORUM_BPS : Z := 3000.

Section Dispute.
(** [has_confirmed_ticket contract event_id address]. *)
Variable has_confirmed_ticket : Address -> string -> Address -> option bool.

Definition open_dispute (event_id : string) (opened_by : Address) : R unit :=
  require_auth opened_by;;
  o ← gets (storage.get_event event_id);
  event_info ← ok_or o EventNotFound;
  existing ← gets (storage.get_dispute event_id);
  throw_if (bool_decide (is_Some existing)) EventAlreadyExists;;
  now ← ledger_timestamp;
  throw_if (ev_end_time event_info =? 0) EventNotEnded;;
  deadline ← add_ U64 (ev_end_time event_info) 172800;
  throw_if (deadline <? now) EventNotEnded;;
  o ← gets storage.get_ticket_payment_contract;
  ticket_payment_addr ← ok_or o NotInitialized;
  holder ← unwrap (has_confirmed_ticket ticket_payment_addr event_id opened_by);
  throw_if (negb holder) NotTicketHolder;;
  closes_at ← add_ U64 now DISPUTE_VOTING_DURATION;
  modify (storage.store_dispute {|
    disp_event_id := event_id; disp_opened_by := opened_by; disp_opened_at := now;
    disp_closes_at := closes_at; disp_status := Open; disp_total_votes := 0;
    disp_buyer_votes := 0; disp_organizer_votes := 0;
    disp_quorum_threshold_bps := DEFAULT_QUORUM_BPS; disp_total_eligible_tickets := 0 |});;
  publish (AgoraEvent.DisputeOpened event_id opened_by now).
End Dispute.

(** The checked increment of the tally the vote goes to. *)
Definition count_vote (vote : DisputeVote) (dispute : Dispute) : R Dispute :=
  match vote with
  | BuyerFavor =>
      c ← ok_or (checked_add U32 (disp_buyer_votes dispute) 1) SupplyOverflow;
      mret (dispute <| disp_buyer_votes := c |>)
  | OrganizerFavor =>
      c ← ok_or (checked_add U32 (disp_organizer_votes dispute) 1) SupplyOverflow;
      mret (dispute <| disp_organizer_votes := c |>)
  end.

Definition vote_on_dispute (event_id : string) (voter : Address) (vote : DisputeVote)
    : R unit :=
  require_auth voter;;
  o ← gets (storage.get_dispute event_id);
  dispute ← ok_or o DisputeNotFound;
  throw_if (bool_decide (disp_status dispute <> Open)
            && bool_decide (disp_status dispute <> Voting)) DisputeNotOpen;;
  now ← ledger_timestamp;
  throw_if (disp_closes_at dispute <=? now) ProposalExpired;;
  voted ← gets (storage.has_voted event_id voter);
  throw_if voted AlreadyVoted;;
  let dispute :=
    if bool_decide (disp_status dispute = Open)
    then dispute <| disp_status := Voting |> else dispute in
  total ← ok_or (checked_add U32 (disp_total_votes dispute) 1) SupplyOverflow;
  let dispute := dispute <| disp_total_votes := total |> in
  dispute ← count_vote vote dispute;
  modify (storage.store_dispute_vote event_id voter vote);;
  storage.add_dispute_vote event_id voter;;
  modify (storage.store_dispute dispute);;
  publish (AgoraEvent.DisputeVoted event_id voter vote now).

Definition resolve_dispute (event_id : string) : R DisputeStatus :=
  o ← gets (storage.get_dispute event_id);
  dispute ← ok_or o DisputeNotFound;
  now ← ledger_timestamp;
  throw_if (now <=? disp_closes_at dispute) ProposalExpired;;
  if bool_decide (disp_status dispute = ResolvedBuyer)
     || bool_decide (disp_status dispute = ResolvedOrganizer)
  then mret (disp_status dispute)
  else
    let total := disp_total_votes dispute in
    buyer_bps ← ok_or (checked_mul U32 (disp_buyer_votes dispute) 10000) SupplyOverflow;
    let meets_quorum :=
      if 0 <? total then disp_quorum_threshold_bps dispute <=? buyer_bps / total
      else false in
    let dispute :=
      dispute <| disp_status :=
                   if meets_quorum
                      && (disp_organizer_votes dispute <? disp_buyer_votes dispute)
                   then ResolvedBuyer else ResolvedOrganizer |> in
    modify (storage.store_dispute dispute);;
    publish (AgoraEvent.DisputeResolved event_id (disp_status dispute)
               (disp_buyer_votes dispute) (disp_organizer_votes dispute)
               (disp_total_votes dispute) now);;
    mret (disp_status dispute).

(** ** The tally *)

(** The voters of [l] that voted [v] on [id]. *)
Definition tally (votes : gmap (string * Address) DisputeVote) (id : string)
    (v : DisputeVote) (l : list Address) : Z :=
  len (filter (fun a => votes !! (id, a) = Some v) l).

Definition tally_ok (votes : gmap (string * Address) DisputeVote) (id : string)
    (l : list Address) (d : Dispute) : Prop :=
  disp_event_id d = id /\ disp_total_votes d = len l /\
  disp_buyer_votes d = tally votes id BuyerFavor l /\
  disp_organizer_votes d = tally votes id OrganizerFavor l /\
  disp_quorum_threshold_bps d = DEFAULT_QUORUM_BPS.

(** The voters of a dispute are exactly the indexed ones, each once, and the
    counters of the dispute count them. *)
Definition dispute_inv (s : State) : Prop :=
  forall id, exists l,
    dense storage.DISPUTE_SHARD_SIZE (k_DisputeVoteIndex s) id l /\ NoDup l /\
    (forall a, a ∈ l <-> is_Some (k_DisputeVote s !! (id, a))) /\
    match k_Dispute s !! id with Some d => tally_ok (k_DisputeVote s) id l d | None => l = [] end.

Definition dispute_view (s : State) := (k_Dispute s, k_DisputeVote s, k_DisputeVoteIndex s).

Lemma dispute_inv_frame s s' :
  dispute_view s' = dispute_view s -> dispute_inv s -> dispute_inv s'.
Proof.
  unfold dispute_view, dispute_inv. intros [= HD HV HI] Hinv id. rewrite HD, HV, HI. apply Hinv.
Qed.

Lemma dispute_inv_init : dispute_inv init_state.
Proof.
  intros id. exists []. split_and!; [apply dense_empty; done|apply NoDup_nil_2| |done].
  intros a. split; [by intros ?%not_elem_of_nil|by intros [? ?]].
Qed.

Lemma tally_snoc votes id v l a x :
  a ∉ l -> tally (<[(id, a) := x]> votes) id v (l ++ [a])
  = tally votes id v l + if bool_decide (x = v) then 1 else 0.
Proof.
  intros Ha. unfold tally. rewrite filter_app, length_app, Nat2Z.inj_add. f_equal.
  - do 2 f_equal. apply filter_ext_in. intros y Hy.
    rewrite lookup_insert_ne; [done|]. intros [= <-]. done.
  - rewrite filter_cons, filter_nil, lookup_insert_eq.
    case_bool_decide as Hx; case_decide as Hd; try done; congruence.
Qed.

Lemma tally_other votes id id' v l a x :
  id' <> id -> tally (<[(id', a) := x]> votes) id v l = tally votes id v l.
Proof.
  intros Hid. unfold tally. do 2 f_equal. apply list_filter_iff. intros y.
  rewrite lookup_insert_ne; [done|]. congruence.
Qed.

(** Storing a dispute that keeps the counters of the old one. *)
Lemma dispute_inv_store s d :
  dispute_inv s ->
  (forall l, (forall a, a ∈ l <-> is_Some (k_DisputeVote s !! (disp_event_id d, a))) ->
     match k_Dispute s !! disp_event_id d with
     | Some d0 => tally_ok (k_DisputeVote s) (disp_event_id d) l d0
     | None => l = []
     end -> tally_ok (k_DisputeVote s) (disp_event_id d) l d) ->
  dispute_inv (storage.store_dispute d s).
Proof.
  intros Hinv Hd id. destruct (Hinv id) as (l & Hdense & Hnd & Hmem & Ht).
  exists l. unfold storage.store_dispute. upd_simpl. split_and!; try done.
  destruct (decide (disp_event_id d = id)) as [<-|Hne].
  - rewrite lookup_insert_eq. by apply Hd.
  - by rewrite lookup_insert_ne.
Qed.

Lemma open_dispute_inv hct id by_ env s u s' :
  dispute_inv s -> open_dispute hct id by_ env s = Done u s' -> dispute_inv s'.
Proof.
  intros Hinv Hrun. unfold open_dispute, storage.get_dispute in Hrun. run. bools.
  match goal with H : ~ is_Some _ |- _ => apply eq_None_not_Some in H; rename H into Hnone end.
  eapply (dispute_inv_frame (storage.store_dispute _ s)); [reflexivity|].
  apply dispute_inv_store; [done|]. cbn. rewrite Hnone. intros l _ ->. done.
Qed.

Lemma count_vote_Done v d env s d' s' :
  count_vote v d env s = Done d' s' ->
  s' = s /\ disp_event_id d' = disp_event_id d /\ disp_status d' = disp_status d /\
  disp_total_votes d' = disp_total_votes d /\ disp_closes_at d' = disp_closes_at d /\
  disp_quorum_threshold_bps d' = disp_quorum_threshold_bps d /\
  disp_buyer_votes d' = disp_buyer_votes d + (if bool_decide (v = BuyerFavor) then 1 else 0) /\
  disp_organizer_votes d'
    = disp_organizer_votes d + (if bool_decide (v = OrganizerFavor) then 1 else 0).
Proof.
  intros Hrun. destruct v; cbn [count_vote] in Hrun; exec;
    repeat (rewrite bool_decide_true by done); repeat (rewrite bool_decide_false by done);
    upd_simpl; split_and!; try done; lia.
Qed.

Lemma vote_on_dispute_Done id voter v env s u s' :
  vote_on_dispute id voter v env s = Done u s' ->
  exists d d' idx,
    voter ∈ auths env /\ k_Dispute s !! id = Some d /\
    (disp_status d = Open \/ disp_status d = Voting) /\
    timestamp env < disp_closes_at d /\ k_DisputeVote s !! (id, voter) = None /\
    disp_event_id d' = disp_event_id d /\ disp_status d' = Voting /\
    disp_closes_at d' = disp_closes_at d /\
    disp_quorum_threshold_bps d' = disp_quorum_threshold_bps d /\
    disp_total_votes d' = disp_total_votes d + 1 /\
    disp_buyer_votes d' = disp_buyer_votes d + (if bool_decide (v = BuyerFavor) then 1 else 0) /\
    disp_organizer_votes d'
      = disp_organizer_votes d + (if bool_decide (v = OrganizerFavor) then 1 else 0) /\
    push storage.DISPUTE_SHARD_SIZE id voter (k_DisputeVoteIndex s) = Some idx /\
    k_DisputeVote s' = <[(id, voter) := v]> (k_DisputeVote s) /\
    k_DisputeVoteIndex s' = idx /\
    k_Dispute s' = <[disp_event_id d := d']> (k_Dispute s).
Proof.
  intros Hrun. unfold vote_on_dispute, storage.get_dispute, storage.has_voted,
    storage.add_dispute_vote in Hrun. run.
  match goal with H : count_vote _ _ _ _ = _ |- _ =>
    apply count_vote_Done in H as (-> & Hid & Hst & Htot & Hcl & Hq & Hb & Ho) end.
  match goal with H : k_Dispute s !! id = Some ?x |- _ => rename x into d end.
  match goal with H : bool_decide (is_Some _) = false |- _ =>
    apply bool_decide_eq_false, eq_None_not_Some in H end.
  unfold storage.store_dispute, storage.store_dispute_vote in *. upd_simpl.
  assert (disp_status d = Open \/ disp_status d = Voting) as Hstat.
  { destruct (disp_status d); auto; done. }
  eexists d, _, _. bools.
  case_bool_decide as Hop; upd_simpl; rewrite Hid; upd_simpl; split_and!; try done; try lia.
  all: try (rewrite Hst; destruct Hstat; done). 
Qed.

Lemma vote_inv id voter v env s u s' :
  dispute_inv s -> vote_on_dispute id voter v env s = Done u s' -> dispute_inv s'.
Proof.
  intros Hinv (d & d' & idx & _ & Hd & _ & _ & Hnv & Hid & _ & _ & Hq & Ht & Hb & Ho & Hpush & HV & HI
    & HD)%vote_on_dispute_Done id'.
  assert (disp_event_id d = id) as Hdid.
  { destruct (Hinv id) as (l & _ & _ & _ & Hm). rewrite Hd in Hm. apply Hm. }
  rewrite HV, HI, HD, Hdid. destruct (Hinv id') as (l & Hdense & Hnd & Hmem & Hm).
  destruct (decide (id' = id)) as [->|Hne].
  - assert (voter ∉ l) as Hnew by (rewrite Hmem, Hnv; by intros [? ?]).
    exists (l ++ [voter]). split_and!.
    + by eapply push_dense.
    + apply NoDup_app. split_and!; [done| |apply NoDup_singleton]. set_solver.
    + intros a. rewrite elem_of_app, list_elem_of_singleton, Hmem, lookup_insert_is_Some'.
      naive_solver.
    + rewrite lookup_insert_eq. rewrite Hd in Hm. destruct Hm as (_ & Hm1 & Hm2 & Hm3 & Hm4).
      unfold tally_ok. rewrite !tally_snoc, length_app by done. cbn. split_and!; try congruence; lia.
  - exists l. destruct (push_other _ _ id' _ _ _ Hpush Hne) as [Hc Hs].
    split_and!; try done.
    + destruct Hdense as [Hd1 Hd2]. split; [by rewrite Hc|]. intros i Hi. by rewrite Hs, Hd2.
    + intros a. rewrite Hmem, lookup_insert_ne; [done|]. congruence.
    + rewrite lookup_insert_ne by done. destruct (k_Dispute s !! id'); [|done].
      unfold tally_ok in *. by rewrite !tally_other by done.
Qed.

(** *** Resolution *)

(** The outcome the code computes. *)
Definition outcome_of (d : Dispute) : DisputeStatus :=
  let buyer_bps := disp_buyer_votes d * 10000 in
  let meets_quorum :=
    if 0 <? disp_total_votes d
    then disp_quorum_threshold_bps d <=? buyer_bps / disp_total_votes d else false in
  if meets_quorum && (disp_organizer_votes d <? disp_buyer_votes d)
  then ResolvedBuyer else ResolvedOrganizer.

Definition resolved (d : Dispute) : bool :=
  bool_decide (disp_status d = ResolvedBuyer) || bool_decide (disp_status d = ResolvedOrganizer).

Lemma resolve_dispute_Done id env s st s' :
  resolve_dispute id env s = Done st s' ->
  exists d, k_Dispute s !! id = Some d /\ disp_closes_at d < timestamp env /\
    if resolved d then st = disp_status d /\ s' = s
    else st = outcome_of d /\
         exists l, s' = (storage.store_dispute (d <| disp_status := outcome_of d |>) s) <| log := l |>.
Proof.
  intros Hrun. unfold resolve_dispute, storage.get_dispute in Hrun. run. bools.
  eexists. split; [done|]. split; [lia|]. unfold resolved.
  case_match; run; [done|]. split; [done|]. eexists. reflexivity.
Qed.

Lemma resolve_inv id env s st s' :
  dispute_inv s -> resolve_dispute id env s = Done st s' -> dispute_inv s'.
Proof.
  intros Hinv (d & Hd & _ & Hres)%resolve_dispute_Done.
  destruct (resolved d); destruct Hres as [_ Hs']; [by subst|].
  destruct Hs' as [l ->]. eapply (dispute_inv_frame (storage.store_dispute _ s)); [reflexivity|].
  assert (disp_event_id d = id) as Hid.
  { destruct (Hinv id) as (l' & _ & _ & _ & Hm). rewrite Hd in Hm. apply Hm. }
  apply dispute_inv_store; [done|]. upd_simpl. rewrite Hid, Hd. by intros l' _.
Qed.

(** Every vote is for one of the two sides. *)
Lemma tally_total votes id l :
  (forall a, a ∈ l -> is_Some (votes !! (id, a))) ->
  tally votes id BuyerFavor l + tally votes id OrganizerFavor l = len l.
Proof.
  unfold tally. induction l as [|a l IH]; intros Hl; [done|].
  rewrite !filter_cons. destruct (Hl a) as [[] Hv]; [set_solver|..]; rewrite Hv;
    (rewrite decide_True by done; rewrite decide_False by done)
    || (rewrite decide_False by done; rewrite decide_True by done);
    specialize (IH ltac:(set_solver)); cbn [length]; lia.
Qed.

Lemma dispute_inv_total s id d :
  dispute_inv s -> k_Dispute s !! id = Some d ->
  disp_total_votes d = disp_buyer_votes d + disp_organizer_votes d /\
  0 <= disp_buyer_votes d /\ 0 <= disp_organizer_votes d /\
  disp_quorum_threshold_bps d = DEFAULT_QUORUM_BPS /\ disp_event_id d = id.
Proof.
  intros Hinv Hd. destruct (Hinv id) as (l & _ & _ & Hmem & Ht). rewrite Hd in Ht.
  destruct Ht as (He & -> & -> & -> & Hq).
  rewrite (tally_total (k_DisputeVote s) id l) by (intros; by apply Hmem).
  unfold tally. split_and!; try done; lia.
Qed.

(** The votes read through the index. *)
Lemma omap_tally votes id l :
  (forall a, a ∈ l -> is_Some (votes !! (id, a))) ->
  len (omap (fun a => votes !! (id, a)) l) = len l /\
  forall v, tally votes id v l = len (filter (.= v) (omap (fun a => votes !! (id, a)) l)).
Proof.
  unfold tally. induction l as [|a l IH]; intros Hl; [done|].
  destruct (Hl a) as [x Hx]; [set_solver|]. destruct IH as [IH1 IH2]; [set_solver|].
  cbn [omap list_omap]. rewrite Hx. split; [cbn [length]; lia|]. intros v.
  specialize (IH2 v). rewrite !filter_cons, Hx.
  destruct (decide (x = v)); [rewrite decide_True by congruence|rewrite decide_False by congruence];
    cbn [length]; lia.
Qed.

(** A strict majority of the votes cast is more than 30% of them. *)
Lemma outcome_majority (b o : Z) :
  0 <= b -> 0 <= o ->
  (if (if 0 <? b + o then DEFAULT_QUORUM_BPS <=? b * 10000 / (b + o) else false) && (o <? b)
   then ResolvedBuyer else ResolvedOrganizer) = ResolvedBuyer <-> o < b.
Proof.
  intros Hb Ho. destruct (o <? b) eqn:Hlt; bools; [|rewrite andb_false_r; split; [done|lia]].
  rewrite (proj2 (Z.ltb_lt 0 (b + o))), (proj2 (Z.leb_le DEFAULT_QUORUM_BPS _)); [done| |lia].
  apply Z.div_le_lower_bound; unfold DEFAULT_QUORUM_BPS; lia.
Qed.

(** ** Properties *)

(** The outcome of a dispute is the majority of its votes: resolving is only
    possible after voting closed, and the buyers win exactly when they have
    strictly more votes than the organizer (a strict majority always meets the
    30% quorum, which is taken of the votes cast, so the quorum never decides).
    The outcome is final: resolving again returns it and changes nothing, and
    no further vote is accepted. *)
Theorem resolve_dispute_majority id env s st s' d :
  dispute_inv s -> k_Dispute s !! id = Some d -> resolved d = false ->
  resolve_dispute id env s = Done st s' ->
  disp_closes_at d < timestamp env /\
  (st = ResolvedBuyer <-> disp_organizer_votes d < disp_buyer_votes d) /\
  (st = ResolvedOrganizer <-> disp_buyer_votes d <= disp_organizer_votes d) /\
  k_Dispute s' !! id = Some (d <| disp_status := st |>) /\
  (forall env', disp_closes_at d < timestamp env' -> resolve_dispute id env' s' = Done st s') /\
  (forall env' voter v, voter ∈ auths env' ->
     vote_on_dispute id voter v env' s' = Fail DisputeNotOpen).
Proof.
  intros Hinv Hd Hres (d0 & Hd0 & Hcl & Hst)%resolve_dispute_Done. simplify_eq.
  rewrite Hres in Hst. destruct Hst as (-> & l & ->).
  destruct (dispute_inv_total s id d Hinv Hd) as (Ht & Hb & Ho & Hq & Hid).
  set (st := outcome_of d). set (s' := _ <| log := l |>).
  assert (k_Dispute s' !! id = Some (d <| disp_status := st |>)) as Hs'.
  { unfold s', storage.store_dispute. upd_simpl. rewrite Hid. apply lookup_insert_eq. }
  assert (st = ResolvedBuyer <-> disp_organizer_votes d < disp_buyer_votes d) as Hmaj
    by (unfold st, outcome_of; rewrite Hq, Ht; apply outcome_majority; lia).
  assert (st = ResolvedBuyer \/ st = ResolvedOrganizer) as Hcases
    by (unfold st, outcome_of; case_match; auto).
  clearbody s' st.
  split; [done|]. split; [|split; [|split; [done|split]]].
  - exact Hmaj.
  - destruct Hcases as [Hc|Hc]; rewrite Hc in *; split; try done; intros; destruct Hmaj as [H1 H2];
      [specialize (H1 eq_refl); lia|destruct (Z.lt_ge_cases (disp_organizer_votes d) (disp_buyer_votes d)); [by specialize (H2 ltac:(done))|done]].
  - intros env' Hcl'. unfold resolve_dispute, storage.get_dispute. run_step.
    run_step; [done|]. run_step. run_step; [upd_simpl; lia|].
    upd_simpl. by destruct Hcases as [-> | ->].
  - intros env' voter v Hau. unfold vote_on_dispute, storage.get_dispute.
    run_step; [done|]. run_step. run_step; [done|]. upd_simpl.
    by destruct Hcases as [-> | ->].
Qed.

(** A dispute opened at time 700 with three votes, two of them for the buyers. *)
Definition sample_dispute : State :=
  let env := Sample.env 700 ["ALICE"; "BOB"; "EVE"] in
  let s1 := invoke (open_dispute (fun _ _ _ => Some true) "e1" "ALICE") env Sample.state in
  let s2 := invoke (vote_on_dispute "e1" "ALICE" BuyerFavor) env s1 in
  let s3 := invoke (vote_on_dispute "e1" "BOB" OrganizerFavor) env s2 in
  invoke (vote_on_dispute "e1" "EVE" BuyerFavor) env s3.

Lemma sample_dispute_inv : dispute_inv sample_dispute.
Proof.
  unfold sample_dispute. cbv zeta.
  repeat (apply invoke_pres; [eauto using vote_inv, open_dispute_inv|]).
  eapply (dispute_inv_frame init_state); [reflexivity|apply dispute_inv_init].
Qed.

Lemma resolve_dispute_majority_witness :
  let env := Sample.env 200000 [] in
  let s' := invoke (resolve_dispute "e1") env sample_dispute in
  exists d, k_Dispute sample_dispute !! "e1" = Some d /\
    disp_organizer_votes d < disp_buyer_votes d /\
    k_Dispute s' !! "e1" = Some (d <| disp_status := ResolvedBuyer |>).
Proof.
  intros env s'. destruct (k_Dispute sample_dispute !! "e1") as [d|] eqn:Hd;
    [|vm_compute in Hd; discriminate Hd].
  exists d. split; [reflexivity|].
  destruct (resolve_dispute_majority "e1" env sample_dispute ResolvedBuyer s' d)
    as (_ & Hmaj & _ & Hs' & _).
  - apply sample_dispute_inv.
  - exact Hd.
  - vm_compute in Hd. injection Hd as <-. reflexivity.
  - apply (returned_invoke (resolve_dispute "e1")). vm_compute. reflexivity.
  - split; [apply Hmaj; reflexivity|exact Hs'].
Defined.

(** The counters of a dispute are exactly its recorded votes: the list of
    votes has as many entries as [total_votes], as many of each side as the two
    tallies, every address votes at most once, and a vote after the first is
    refused. *)
Theorem dispute_votes_counted id s d :
  dispute_inv s -> k_Dispute s !! id = Some d ->
  let votes := storage.get_dispute_votes id s in
  disp_total_votes d = len votes /\
  disp_buyer_votes d = len (filter (.= BuyerFavor) votes) /\
  disp_organizer_votes d = len (filter (.= OrganizerFavor) votes) /\
  NoDup (to_list storage.DISPUTE_SHARD_SIZE (k_DisputeVoteIndex s) id) /\
  (forall env voter v, k_DisputeVote s !! (id, voter) <> None -> voter ∈ auths env ->
     timestamp env < disp_closes_at d -> resolved d = false -> disp_status d <> Expired ->
     vote_on_dispute id voter v env s = Fail AlreadyVoted).
Proof.
  intros Hinv Hd votes. destruct (Hinv id) as (l & Hdense & Hnd & Hmem & Ht).
  rewrite Hd in Ht. destruct Ht as (_ & Ht & Hb & Ho & _).
  unfold votes, storage.get_dispute_votes.
  rewrite (to_list_dense storage.DISPUTE_SHARD_SIZE eq_refl _ _ _ Hdense), Ht, Hb, Ho.
  destruct (omap_tally (k_DisputeVote s) id l) as (-> & Htal); [intros; by apply Hmem|].
  rewrite <- !Htal. split_and!; try done.
  intros env voter v Hv Hau Hcl Hres Hex. unfold vote_on_dispute, storage.get_dispute.
  run_step; [done|]. run_step. run_step; [done|].
  run_step. { unfold resolved in Hres. by destruct (disp_status d). }
  run_step. run_step; [lia|]. run_step. unfold storage.has_voted.
  destruct (k_DisputeVote s !! (id, voter)) eqn:Hvv; done.
Qed.

Lemma dispute_votes_counted_witness :
  exists d, k_Dispute sample_dispute !! "e1" = Some d /\ disp_total_votes d = 3 /\
    disp_total_votes d = len (storage.get_dispute_votes "e1" sample_dispute).
Proof.
  destruct (k_Dispute sample_dispute !! "e1") as [d|] eqn:Hd;
    [|vm_compute in Hd; discriminate Hd].
  exists d. split; [reflexivity|]. split.
  - vm_compute in Hd. injection Hd as <-. reflexivity.
  - apply (dispute_votes_counted "e1" sample_dispute d sample_dispute_inv Hd).
Defined.

(** A dispute with more than 429496 votes for the buyers can never be
    resolved: the quorum test multiplies the tally by 10000 in 32 bits, so the
    entry point fails with [SupplyOverflow] at any time after the vote closed. *)
Theorem resolve_dispute_overflow id env s d :
  k_Dispute s !! id = Some d -> resolved d = false ->
  429496 < disp_buyer_votes d -> disp_closes_at d < timestamp env ->
  resolve_dispute id env s = Fail SupplyOverflow.
Proof.
  intros Hd Hres Hb Hcl. unfold resolve_dispute, storage.get_dispute.
  run_step. run_step; [done|]. run_step. run_step; [lia|].
  unfold resolved in Hres. rewrite Hres. unfold checked_mul.
  rewrite (proj2 (checked_None U32 _)); [done|]. cbn. lia.
Qed.

Lemma resolve_dispute_overflow_witness :
  let d := {| disp_event_id := "e1"; disp_opened_by := "ALICE"; disp_opened_at := 700;
              disp_closes_at := 800; disp_status := Voting; disp_total_votes := 500000;
              disp_buyer_votes := 430000; disp_organizer_votes := 70000;
              disp_quorum_threshold_bps := 3000; disp_total_eligible_tickets := 0 |} in
  resolve_dispute "e1" (Sample.env 900 []) (storage.store_dispute d Sample.state)
  = Fail SupplyOverflow.
Proof.
  intros d. apply (resolve_dispute_overflow "e1" (Sample.env 900 []) _ d);
    vm_compute; reflexivity.
Defined.

(** A dispute can be opened before its event has ended: at time 100, with
    the event ending at 600, a ticket holder's call succeeds, although the entry
    point is documented as callable within 48 hours after the event. *)
Theorem dispute_opens_before_end :
  let s' := invoke (open_dispute (fun _ _ _ => Some true) "e1" "ALICE")
              (Sample.env 100 ["ALICE"]) Sample.state in
  ev_end_time Sample.event = 600 /\ is_Some (k_Dispute s' !! "e1").
Proof. split; [reflexivity|]. vm_compute. eauto. Qed.
