(* ===== verification/RegistryCommunity.v ===== *)
(** * Event registry: series passes, waitlist and loyalty

    Series of events and their season passes, the waitlist of an event and the
    loyalty score of guests ([event_registry/src/lib.rs]). *)

From stdpp Require Import base tactics numbers list strings gmap.
From S2P Require Import Prelude.
From S2P Require Import Soroban.
From S2P Require Import RegistryTypes.
From S2P Require Import RegistryStorage.
From S2P Require Import RegistryEvents.

(** ** Series *)
Definition register_series (series_id name : string) (event_ids : list string)
    (organizer_address : Address) (metadata_cid : option string) : R unit :=
  require_auth organizer_address;;
  foldM (fun _ event_id =>
           o ← gets (storage.get_event event_id);
           event ← ok_or o EventNotFound;
           throw_if (bool_decide (ev_organizer_address event <> organizer_address))
             Unauthorized) tt event_ids;;
  modify (storage.store_series
            {| sr_series_id := series_id; sr_name := name; sr_event_ids := event_ids;
               sr_organizer_address := organizer_address; sr_metadata_cid := metadata_cid |}).

Definition issue_series_pass (pass_id series_id : string) (holder : Address)
    (usage_limit expires_at : Z) : R unit :=
  o ← gets (storage.get_series series_id);
  series ← ok_or o EventNotFound;
  require_auth (sr_organizer_address series);;
  now ← ledger_timestamp;
  modify (storage.store_series_pass
            {| sp_pass_id := pass_id; sp_series_id := series_id; sp_holder := holder;
               sp_usage_limit := usage_limit; sp_usage_count := 0; sp_issued_at := now;
               sp_expires_at := expires_at |}).

Definition has_valid_series_pass (holder : Address) (series_id : string) : R bool :=
  o ← gets (storage.get_holder_series_pass holder series_id);
  match o with
  | Some pass =>
      now ← ledger_timestamp;
      if (0 <? sp_usage_limit pass) && (sp_usage_limit pass <=? sp_usage_count pass)
      then mret false
      else if (0 <? sp_expires_at pass) && (sp_expires_at pass <=? now)
      then mret false
      else mret true
  | None => mret false
  end.

Definition increment_series_pass_usage (pass_id : string) : R unit :=
  o ← storage.increment_series_pass_usage pass_id;
  ok_or o EventNotFound;; mret tt.

(** ** Waitlist *)
Definition join_waitlist (event_id : string) (user : Address) : R unit :=
  require_auth user;;
  exists_ ← gets (storage.event_exists event_id);
  throw_if (negb exists_) EventNotFound;;
  on_list ← gets (storage.is_on_waitlist event_id user);
  throw_if on_list AlreadyOnWaitlist;;
  modify (storage.add_to_waitlist event_id user);;
  now ← ledger_timestamp;
  publish (AgoraEvent.WaitlistJoined event_id user now).

Definition leave_waitlist (event_id : string) (user : Address) : R unit :=
  require_auth user;;
  exists_ ← gets (storage.event_exists event_id);
  throw_if (negb exists_) EventNotFound;;
  on_list ← gets (storage.is_on_waitlist event_id user);
  throw_if (negb on_list) NotOnWaitlist;;
  modify (storage.remove_from_waitlist event_id user);;
  now ← ledger_timestamp;
  publish (AgoraEvent.WaitlistLeft event_id user now).

(** ** Loyalty *)
Definition new_profile (guest : Address) : GuestProfile :=
  {| guest_guest_address := guest; guest_loyalty_score := 0;
     guest_total_tickets_purchased := 0; guest_total_spent := 0; guest_last_updated := 0 |}.

(** 10 points per ticket times the multiplier, where 0 counts as 1. *)
Definition points_earned (tickets_purchased loyalty_multiplier : Z) : Z :=
  let effective_multiplier := if loyalty_multiplier =? 0 then 1 else loyalty_multiplier in
  saturating_mul U64 (saturating_mul U64 tickets_purchased 10) effective_multiplier.

Definition update_loyalty_score (caller guest : Address)
    (tickets_purchased amount_spent loyalty_multiplier : Z) : R unit :=
  require_auth caller;;
  o ← gets storage.get_admin;
  admin ← ok_or o NotInitialized;
  ticket_payment_contract ← gets storage.get_ticket_payment_contract;
  let is_authorized :=
    bool_decide (caller = admin)
    || match ticket_payment_contract with
       | Some c => bool_decide (c = caller) | None => false
       end in
  throw_if (negb is_authorized) Unauthorized;;
  throw_if (tickets_purchased =? 0) InvalidQuantity;;
  o ← gets (storage.get_guest_profile guest);
  let profile := default (new_profile guest) o in
  now ← ledger_timestamp;
  let score := saturating_add U64 (guest_loyalty_score profile)
                 (points_earned tickets_purchased loyalty_multiplier) in
  let profile :=
    profile <| guest_loyalty_score := score |>
            <| guest_total_tickets_purchased :=
                 saturating_add U32 (guest_total_tickets_purchased profile)
                   tickets_purchased |>
            <| guest_total_spent :=
                 saturating_add I128 (guest_total_spent profile) amount_spent |>
            <| guest_last_updated := now |> in
  modify (storage.set_guest_profile profile);;
  publish (AgoraEvent.LoyaltyScoreUpdated guest score tickets_purchased now).

Definition discount_of_score (score : Z) : Z :=
  if 1000 <=? score then 1000 else if 500 <=? score then 500
  else if 100 <=? score then 250 else 0.

Definition get_loyalty_discount_bps (guest : Address) : R Z :=
  o ← gets (storage.get_guest_profile guest);
  mret (discount_of_score (from_option guest_loyalty_score 0 o)).

(** ** Passes *)

(** Every pass is stored under its identifier and is used within its limit. *)
Record passes_ok (s : State) : Prop := {
  ps_key id p : k_SeriesPass s !! id = Some p -> sp_pass_id p = id;
  ps_used id p : k_SeriesPass s !! id = Some p -> 0 <= sp_usage_count p;
  ps_limit id p : k_SeriesPass s !! id = Some p ->
    sp_usage_limit p <> 0 -> sp_usage_count p <= sp_usage_limit p;
}.

Definition passes_view (s : State) := k_SeriesPass s.

Lemma passes_ok_frame s s' : passes_view s' = passes_view s -> passes_ok s -> passes_ok s'.
Proof. unfold passes_view. intros HP []. by split; rewrite ?HP. Qed.

Lemma passes_ok_init : passes_ok init_state.
Proof. by split. Qed.

Lemma store_pass_ok s p :
  passes_ok s -> 0 <= sp_usage_count p ->
  (sp_usage_limit p <> 0 -> sp_usage_count p <= sp_usage_limit p) ->
  passes_ok (storage.store_series_pass p s).
Proof.
  intros [] Hc Hl. unfold storage.store_series_pass. split; upd_simpl;
    intros id q [[<- <-]|[? ?]]%lookup_insert_Some; eauto.
Qed.

Lemma issue_pass_ok pass_id series_id holder limit exp env s u s' :
  0 <= limit -> passes_ok s ->
  issue_series_pass pass_id series_id holder limit exp env s = Done u s' -> passes_ok s'.
Proof.
  intros Hl Hinv Hrun. unfold issue_series_pass in Hrun. run.
  apply store_pass_ok; cbn; [done|lia|lia].
Qed.

Lemma use_pass_Done pass_id env s u s' :
  passes_ok s ->
  increment_series_pass_usage pass_id env s = Done u s' ->
  exists p, k_SeriesPass s !! pass_id = Some p /\ sp_usage_count p < sp_usage_limit p /\
    s' = storage.store_series_pass (p <| sp_usage_count := sp_usage_count p + 1 |>) s.
Proof.
  intros Hinv Hrun. unfold increment_series_pass_usage, storage.increment_series_pass_usage,
    storage.get_series_pass in Hrun. run.
  destruct (k_SeriesPass s !! pass_id) as [p|] eqn:Hp; run; [|done].
  case_match eqn:Hlt; run; [|done]. bools. eauto.
Qed.

Lemma use_pass_ok pass_id env s u s' :
  passes_ok s -> increment_series_pass_usage pass_id env s = Done u s' -> passes_ok s'.
Proof.
  intros Hinv Hrun. destruct (use_pass_Done _ _ _ _ _ Hinv Hrun) as (p & Hp & Hlt & ->).
  pose proof (ps_used s Hinv _ _ Hp). apply store_pass_ok; upd_simpl; [done|lia|lia].
Qed.

(** [n] redemptions in a row. *)
Fixpoint use_pass (n : nat) (pass_id : string) : R unit :=
  match n with
  | O => mret tt
  | S n => increment_series_pass_usage pass_id;; use_pass n pass_id
  end.

Lemma increment_pass_run pass_id env s p :
  k_SeriesPass s !! pass_id = Some p -> sp_pass_id p = pass_id ->
  sp_usage_limit p ∈ᵢ U32 -> 0 <= sp_usage_count p ->
  if sp_usage_count p <? sp_usage_limit p
  then exists s', increment_series_pass_usage pass_id env s = Done tt s' /\
         k_SeriesPass s' !! pass_id = Some (p <| sp_usage_count := sp_usage_count p + 1 |>)
  else increment_series_pass_usage pass_id env s = Fail EventNotFound.
Proof.
  intros Hp Hid Hl Hc. unfold increment_series_pass_usage,
    storage.increment_series_pass_usage, storage.get_series_pass.
  destruct (sp_usage_count p <? sp_usage_limit p) eqn:Hlt; bools.
  - exists (storage.store_series_pass (p <| sp_usage_count := sp_usage_count p + 1 |>) s). split.
    + unfold mbind, M_bind, gets. cbn beta iota. rewrite Hp.
      rewrite (proj2 (Z.ltb_lt _ _) Hlt). unfold add_, checked_add.
      rewrite checked_in; [done|]. cbn in *. lia.
    + unfold storage.store_series_pass. upd_simpl. rewrite Hid. apply lookup_insert_eq.
  - unfold mbind, M_bind, gets. cbn beta iota. rewrite Hp.
    rewrite (proj2 (Z.ltb_ge _ _) Hlt). done.
Qed.

(** ** Properties *)

(** A season pass is good for exactly its limit: a pass used [c] times out of
    a limit [l] can be redeemed [n] more times if and only if [c + n <= l]. *)
Theorem pass_used_exactly_limit n : forall pass_id env s p,
  k_SeriesPass s !! pass_id = Some p -> sp_pass_id p = pass_id ->
  sp_usage_limit p ∈ᵢ U32 -> 0 <= sp_usage_count p <= sp_usage_limit p ->
  (exists s', use_pass n pass_id env s = Done tt s') <->
  sp_usage_count p + Z.of_nat n <= sp_usage_limit p.
Proof.
  induction n as [|n IH]; intros pass_id env s p Hp Hid Hl Hc; cbn [use_pass].
  - split; [lia|]. intros _. by exists s.
  - pose proof (increment_pass_run pass_id env s p Hp Hid Hl ltac:(lia)) as Hrun.
    case_match eqn:Hlt; bools.
    + destruct Hrun as (s1 & Hs1 & Hp1). unfold mbind, M_bind. rewrite Hs1.
      rewrite (IH pass_id env s1 _ Hp1); upd_simpl; [lia|done|done|lia].
    + unfold mbind, M_bind. rewrite Hrun. split; [by intros [? ?]|lia].
Qed.

Definition sample_pass : SeriesPass := {|
  sp_pass_id := "p1"; sp_series_id := "s1"; sp_holder := "ALICE"; sp_usage_limit := 3;
  sp_usage_count := 1; sp_issued_at := 10; sp_expires_at := 0 |}.

Lemma pass_used_exactly_limit_witness :
  let s := storage.store_series_pass sample_pass Sample.state in
  (exists s', use_pass 2 "p1" (Sample.env 100 []) s = Done tt s') /\
  ~ (exists s', use_pass 3 "p1" (Sample.env 100 []) s = Done tt s').
Proof.
  intros s. assert (k_SeriesPass s !! "p1" = Some sample_pass) as Hp by reflexivity.
  split.
  - apply (pass_used_exactly_limit 2 "p1" _ s sample_pass Hp eq_refl); cbn; lia.
  - intros Hs. apply (pass_used_exactly_limit 3 "p1" _ s sample_pass Hp eq_refl) in Hs;
      cbn in *; lia.
Defined.

(** A pass without limit is valid but unusable: [has_valid_series_pass] takes
    a limit of 0 as unlimited and reports a holder's unexpired pass as valid,
    while redeeming it always fails, because the redemption compares the count
    with the limit. *)
Theorem unlimited_pass_unusable holder series_id env s p :
  storage.get_holder_series_pass holder series_id s = Some p ->
  sp_usage_limit p = 0 -> sp_expires_at p = 0 -> 0 <= sp_usage_count p ->
  has_valid_series_pass holder series_id env s = Done true s /\
  (k_SeriesPass s !! sp_pass_id p = Some p ->
   increment_series_pass_usage (sp_pass_id p) env s = Fail EventNotFound).
Proof.
  intros Hp Hl He Hc. split.
  - unfold has_valid_series_pass, mbind, M_bind, gets, ledger_timestamp.
    rewrite Hp, Hl, He. done.
  - intros Hs. pose proof (increment_pass_run (sp_pass_id p) env s p Hs eq_refl) as Hrun.
    rewrite Hl in Hrun. rewrite (proj2 (Z.ltb_ge (sp_usage_count p) 0) Hc) in Hrun.
    apply Hrun; cbn; lia.
Qed.

Lemma unlimited_pass_unusable_witness :
  let p := sample_pass <| sp_usage_limit := 0 |> <| sp_usage_count := 0 |> in
  let s := storage.store_series_pass p Sample.state in
  has_valid_series_pass "ALICE" "s1" (Sample.env 100 []) s = Done true s /\
  increment_series_pass_usage "p1" (Sample.env 100 []) s = Fail EventNotFound.
Proof.
  intros p s.
  destruct (unlimited_pass_unusable "ALICE" "s1" (Sample.env 100 []) s p) as [Hv Hi];
    [reflexivity..|].
  split; [exact Hv|exact (Hi eq_refl)].
Defined.

(** Profiles are stored under their guest. *)
Definition profiles_keyed (s : State) : Prop :=
  forall g p, k_GuestProfile s !! g = Some p ->
    guest_guest_address p = g /\ guest_loyalty_score p ∈ᵢ U64.

Lemma discount_mono a b : a <= b -> discount_of_score a <= discount_of_score b.
Proof. intros. unfold discount_of_score. repeat case_match; bools; lia. Qed.

(** A purchase never costs a guest loyalty: only the administrator or the
    payment contract can record it; the score grows by 10 points per ticket
    times the tier's multiplier (0 counts as 1), saturating at the 64-bit
    maximum; and the platform-fee discount derived from the score does not
    decrease and never exceeds 10%. *)
Theorem loyalty_monotone caller guest n spent mult env s u s' :
  profiles_keyed s -> n ∈ᵢ U32 -> mult ∈ᵢ U32 ->
  update_loyalty_score caller guest n spent mult env s = Done u s' ->
  let score s := from_option guest_loyalty_score 0 (k_GuestProfile s !! guest) in
  caller ∈ auths env /\
  (k_Admin s = Some caller \/ k_TicketPaymentContract s = Some caller) /\
  score s' = Z.min (int_max U64) (score s + n * 10 * (if mult =? 0 then 1 else mult)) /\
  score s <= score s' /\
  discount_of_score (score s) <= discount_of_score (score s') <= 1000 /\
  (forall g, g <> guest -> k_GuestProfile s' !! g = k_GuestProfile s !! g).
Proof.
  intros Hkey Hn Hm Hrun. unfold update_loyalty_score, storage.get_admin,
    storage.get_ticket_payment_contract, storage.get_guest_profile in Hrun. run.
  set (p := default (new_profile guest) (k_GuestProfile s !! guest)) in *.
  assert (guest_guest_address p = guest /\ guest_loyalty_score p ∈ᵢ U64 /\
    guest_loyalty_score p = from_option guest_loyalty_score 0 (k_GuestProfile s !! guest))
    as (Hg & Hr & Hsc).
  { unfold p. destruct (k_GuestProfile s !! guest) as [q|] eqn:Hq; cbn; [|done].
    by destruct (Hkey _ _ Hq). }
  cbv zeta. unfold storage.set_guest_profile. upd_simpl. rewrite Hg, lookup_insert_eq, <- Hsc.
  cbn [from_option]. upd_simpl.
  assert (0 <= n * 10 * (if mult =? 0 then 1 else mult)) as Hpts.
  { cbn [int_min] in *. apply Z.mul_nonneg_nonneg; [lia|]. destruct (mult =? 0); lia. }
  assert (saturating_add U64 (guest_loyalty_score p) (points_earned n mult)
    = Z.min (int_max U64) (guest_loyalty_score p + n * 10 * (if mult =? 0 then 1 else mult)))
    as Heq.
  { unfold points_earned, saturating_add, saturating_mul.
    rewrite (saturate_in U64 (n * 10)) by (unfold int_min, int_max in *; lia).
    unfold saturate, int_min in *. lia. }
  assert (guest_loyalty_score p
    <= saturating_add U64 (guest_loyalty_score p) (points_earned n mult)) as Hle.
  { rewrite Heq. lia. }
  split_and!.
  - done.
  - bools. match goal with H : _ \/ _ |- _ => destruct H as [Hc|Hc] end;
      [bools; left; congruence|].
    destruct (k_TicketPaymentContract s); [|done]. bools. right. congruence.
  - exact Heq.
  - exact Hle.
  - by apply discount_mono.
  - unfold discount_of_score. repeat case_match; lia.
  - intros g Hne. by rewrite lookup_insert_ne.
Qed.

Lemma loyalty_monotone_witness :
  let env := Sample.env 100 ["TP"] in
  let s' := invoke (update_loyalty_score "TP" "ALICE" 4 1000 2) env Sample.state in
  from_option guest_loyalty_score 0 (k_GuestProfile s' !! "ALICE")
  = Z.min (int_max U64) (0 + 4 * 10 * 2).
Proof.
  intros env s'.
  apply (loyalty_monotone "TP" "ALICE" 4 1000 2 env Sample.state tt s').
  - intros g p Hp. vm_compute in Hp. destruct g; discriminate Hp.
  - cbn. lia.
  - cbn. lia.
  - apply (returned_invoke (update_loyalty_score "TP" "ALICE" 4 1000 2)).
    vm_compute. reflexivity.
Defined.

(** Leaving the waitlist undoes joining it: after a user joined and left,
    everybody's membership of every waitlist is as before; joining twice is
    refused. *)
Theorem waitlist_roundtrip event_id user env env' s u s1 v s2 :
  join_waitlist event_id user env s = Done u s1 ->
  leave_waitlist event_id user env' s1 = Done v s2 ->
  (forall e a, storage.is_on_waitlist e a s2 = storage.is_on_waitlist e a s) /\
  (forall env'', user ∈ auths env'' ->
     join_waitlist event_id user env'' s1 = Fail AlreadyOnWaitlist).
Proof.
  intros H1 H2. unfold join_waitlist, leave_waitlist in H1, H2. run. split.
  - intros e x. unfold storage.is_on_waitlist, storage.remove_from_waitlist,
      storage.add_to_waitlist in *. upd_simpl.
    destruct (decide ((e, x) = (event_id, user))) as [[= -> ->]|Hne].
    + rewrite lookup_delete_eq. by symmetry.
    + by rewrite lookup_delete_ne, lookup_insert_ne by congruence.
  - intros env'' Hau. unfold join_waitlist. run_step; [done|]. run_step.
    unfold storage.add_to_waitlist, storage.event_exists, storage.is_on_waitlist in *. upd_simpl.
    run_step; [done|]. run_step. upd_simpl. rewrite lookup_insert_eq. done.
Qed.

Lemma waitlist_roundtrip_witness :
  let env := Sample.env 100 ["EVE"] in
  let s1 := invoke (join_waitlist "e1" "EVE") env Sample.state in
  let s2 := invoke (leave_waitlist "e1" "EVE") env s1 in
  storage.is_on_waitlist "e1" "EVE" s1 = true /\
  forall e a, storage.is_on_waitlist e a s2 = storage.is_on_waitlist e a Sample.state.
Proof.
  intros env s1 s2. split; [vm_compute; reflexivity|].
  apply (waitlist_roundtrip "e1" "EVE" env env Sample.state tt s1 tt s2).
  - apply (returned_invoke (join_waitlist "e1" "EVE")). vm_compute. reflexivity.
  - apply (returned_invoke (leave_waitlist "e1" "EVE")). vm_compute. reflexivity.
Defined.
