(* ===== verification/Registry.v ===== *)
(** * Event registry: the whole contract

    The entry points that change the ledger as one type [Call] with its
    dispatcher [run], the step relation of the contract and the states it
    reaches.  The theorems are invariants of every reachable state and
    properties of every step, by rule induction over the calls of all
    components. *)

From stdpp Require Import base tactics numbers list strings gmap.
From S2P Require Import Prelude.
From S2P Require Import Soroban.
From S2P Require Import Token.
From S2P Require Import Sharded.
From S2P Require Import RegistryTypes.
From S2P Require Import RegistryStorage.
From S2P Require Import RegistryEvents.
From S2P Require Import RegistryInventory.
From S2P Require Import RegistryAdmin.
From S2P Require Import RegistryLifecycle.
From S2P Require Import RegistryGovernance.
From S2P Require Import RegistryStaking.
From S2P Require Import RegistryDispute.
From S2P Require Import RegistryCommunity.

Inductive Call :=
  (* administration *)
  | Initialize (admin platform_wallet : Address) (platform_fee_percent : Z) (usdc_token : Address)
  | AddToTokenWhitelist (token : Address)
  | RemoveFromTokenWhitelist (token : Address)
  | ProposeAdmin (new_admin : Address)
  | AcceptAdmin
  | CancelAdminProposal
  | SetTicketPaymentContract (address : Address)
  | BlacklistOrganizer (organizer : Address) (reason : string)
  | RemoveFromBlacklist (organizer : Address) (reason : string)
  | SetGlobalPromo (bps expiry : Z)
  | AuthorizeScanner (event_id : string) (scanner : Address)
  | RevokeScanner (event_id : string) (scanner : Address)
  (* events *)
  | RegisterEvent (args : EventRegistrationArgs)
  | UpdateEventStatus (event_id : string) (is_active : bool)
  | CancelEvent (event_id : string) (reason : option string)
  | ArchiveEvent (event_id : string)
  | UpdateMetadata (event_id cid : string)
  | SetFeedbackCid (event_id cid : string)
  | StoreEvent (event_info : EventInfo)
  | SetResaleCapBps (event_id : string) (cap : option Z)
  | PostponeEvent (event_id : string) (new_start_time grace_period_end : Z)
  | SetCustomEventFee (event_id : string) (fee : option Z)
  | AddTier (event_id tier_id : string) (tier : TicketTier)
  | DeactivateTier (event_id tier_id : string)
  (* inventory *)
  | IncrementInventory (event_id tier_id : string) (user : Address) (quantity : Z) (token : Address)
  | DecrementInventory (event_id tier_id : string)
  | MintCrossChainTicket (chain : Z) (tx_hash : Bytes) (recipient : Address) (tier_id : string)
      (signatures : list Bytes) (event_id : string) (quantity : Z)
  (* governance *)
  | SetPlatformFeeCall (fee : Z)
  | ProposeParameterChange (proposer : Address) (change : ParameterChange) (expiry : Z)
  | ApproveProposal (approver : Address) (proposal_id : Z)
  | ExecuteProposal (executor : Address) (proposal_id : Z)
  | CancelProposal (proposer : Address) (proposal_id : Z)
  | CleanupExpiredProposals
  (* staking *)
  | SetStakingConfig (token : Address) (min_amount : Z)
  | StakeCollateral (organizer : Address) (amount : Z)
  | UnstakeCollateral (organizer : Address)
  | DistributeStakerRewards (caller : Address) (total_reward : Z)
  | ClaimStakerRewards (organizer : Address)
  (* disputes *)
  | OpenDispute (event_id : string) (opened_by : Address)
  | VoteOnDispute (event_id : string) (voter : Address) (vote : DisputeVote)
  | ResolveDispute (event_id : string)
  (* series, waitlist, loyalty *)
  | RegisterSeries (series_id name : string) (event_ids : list string) (organizer : Address)
      (metadata_cid : option string)
  | IssueSeriesPass (pass_id series_id : string) (holder : Address) (limit expires_at : Z)
  | IncrementSeriesPassUsage (pass_id : string)
  | JoinWaitlist (event_id : string) (user : Address)
  | LeaveWaitlist (event_id : string) (user : Address)
  | UpdateLoyaltyScore (caller guest : Address) (tickets spent multiplier : Z).

Section Registry.
Context {T : Type} `{Token T}.
(** The payment contract's answer to [has_confirmed_ticket]. *)
Variable has_confirmed_ticket : Address -> string -> Address -> option bool.

Definition run_call (c : Call) : M (World T) EventRegistryError unit :=
  match c with
  | Initialize a w f u => on_registry (initialize a w f u)
  | AddToTokenWhitelist t => on_registry (add_to_token_whitelist t)
  | RemoveFromTokenWhitelist t => on_registry (remove_from_token_whitelist t)
  | ProposeAdmin a => on_registry (propose_admin a)
  | AcceptAdmin => on_registry accept_admin
  | CancelAdminProposal => on_registry cancel_admin_proposal
  | SetTicketPaymentContract a => on_registry (set_ticket_payment_contract a)
  | BlacklistOrganizer o r => on_registry (blacklist_organizer o r)
  | RemoveFromBlacklist o r => on_registry (remove_from_blacklist o r)
  | SetGlobalPromo b e => on_registry (set_global_promo b e)
  | AuthorizeScanner e sc => on_registry (authorize_scanner e sc)
  | RevokeScanner e sc => on_registry (revoke_scanner e sc)
  | RegisterEvent args => on_registry (register_event args)
  | UpdateEventStatus e b => on_registry (update_event_status e b)
  | CancelEvent e r => on_registry (cancel_event e r)
  | ArchiveEvent e => on_registry (archive_event e)
  | UpdateMetadata e c => on_registry (update_metadata e c)
  | SetFeedbackCid e c => on_registry (set_feedback_cid e c)
  | StoreEvent e => on_registry (store_event e)
  | SetResaleCapBps e c => on_registry (set_resale_cap_bps e c)
  | PostponeEvent e a b => on_registry (postpone_event e a b)
  | SetCustomEventFee e f => on_registry (set_custom_event_fee e f)
  | AddTier e t tier => on_registry (add_tier e t tier)
  | DeactivateTier e t => on_registry (deactivate_tier e t)
  | IncrementInventory e t u q p => on_registry (increment_inventory e t u q p)
  | DecrementInventory e t => on_registry (decrement_inventory e t)
  | MintCrossChainTicket ch h r t sg e q =>
      on_registry (mint_cross_chain_ticket ch h r t sg e q)
  | SetPlatformFeeCall f => on_registry (set_platform_fee f)
  | ProposeParameterChange p c e =>
      on_registry (propose_parameter_change p c e;; mret tt)
  | ApproveProposal a p => on_registry (approve_proposal a p)
  | ExecuteProposal e p => on_registry (execute_proposal e p)
  | CancelProposal a p => on_registry (cancel_proposal a p)
  | CleanupExpiredProposals => on_registry (cleanup_expired_proposals;; mret tt)
  | SetStakingConfig t m => on_registry (set_staking_config t m)
  | StakeCollateral o a => stake_collateral o a
  | UnstakeCollateral o => unstake_collateral o
  | DistributeStakerRewards c r => distribute_staker_rewards c r
  | ClaimStakerRewards o => claim_staker_rewards o;; mret tt
  | OpenDispute e o => on_registry (open_dispute has_confirmed_ticket e o)
  | VoteOnDispute e v x => on_registry (vote_on_dispute e v x)
  | ResolveDispute e => on_registry (resolve_dispute e;; mret tt)
  | RegisterSeries i n es o m => on_registry (register_series i n es o m)
  | IssueSeriesPass p i h l x => on_registry (issue_series_pass p i h l x)
  | IncrementSeriesPassUsage p => on_registry (increment_series_pass_usage p)
  | JoinWaitlist e u => on_registry (join_waitlist e u)
  | LeaveWaitlist e u => on_registry (leave_waitlist e u)
  | UpdateLoyaltyScore c g n a m => on_registry (update_loyalty_score c g n a m)
  end.

End Registry.

Section Histories.
Context {T : Type} `{Token T}.

(** The histories of the contract: sequences of calls that satisfy [ok]; a call
    that fails leaves the ledger as it was, so only successful calls are steps.
    The answers of the payment contract may change from call to call, and between
    the calls the token contracts may move on their own, as [others] allows. *)
Inductive steps (ok : Call -> Env -> World T -> Prop) (others : T -> T -> Prop) (w0 : World T)
    : World T -> Prop :=
  | steps_refl : steps ok others w0 w0
  | steps_call hct c env w w' :
      steps ok others w0 w -> ok c env w -> run_call hct c env w = Done tt w' ->
      steps ok others w0 w'
  | steps_tokens s t t' :
      steps ok others w0 (s, t) -> others t t' -> steps ok others w0 (s, t').

(** The states it reaches from its deployment. *)
Definition reachable ok others (t0 : T) : World T -> Prop :=
  steps ok others (init_state, t0).

Definition any_call (_ : Call) (_ : Env) (_ : World T) : Prop := True.

(** A property of the storage that the calls keep. *)
Lemma steps_inv (P : State -> Prop) ok others w0 :
  P w0.1 ->
  (forall hct c env s t s' t', ok c env (s, t) -> run_call hct c env (s, t) = Done tt (s', t') ->
     P s -> P s') ->
  forall w, steps ok others w0 w -> P w.1.
Proof.
  intros Hinit Hstep w. induction 1 as [|hct c env [s t] [s' t'] _ IH Hok Hrun|]; cbn in *; eauto.
Qed.

Lemma steps_weaken ok ok' others w0 w :
  (forall c env w, ok c env w -> ok' c env w) -> steps ok others w0 w -> steps ok' others w0 w.
Proof. intros Hok. induction 1; eauto using steps. Qed.

Lemma steps_trans ok others w0 w1 w2 :
  steps ok others w0 w1 -> steps ok others w1 w2 -> steps ok others w0 w2.
Proof. intros H1. induction 1; eauto using steps. Qed.

(** Replaying a list of calls. *)
Variable hct : Address -> string -> Address -> option bool.

Fixpoint replay (calls : list (Env * Call)) (w : World T) : option (World T) :=
  match calls with
  | [] => Some w
  | (env, c) :: calls =>
      match run_call hct c env w with Done _ w' => replay calls w' | Fail _ | Trap => None end
  end.

Lemma replay_cons env c calls w w' :
  replay ((env, c) :: calls) w = Some w' ->
  exists w1, run_call hct c env w = Done tt w1 /\ replay calls w1 = Some w'.
Proof. cbn. destruct (run_call hct c env w) as [[] w1|e|]; [|done..]. eauto. Qed.

Lemma replay_steps ok others calls : forall w w',
  (forall env c w, (env, c) ∈ calls -> ok c env w) ->
  replay calls w = Some w' -> steps ok others w w'.
Proof.
  induction calls as [|[env c] calls IH]; intros w w' Hok Hrun.
  - injection Hrun as ->. apply steps_refl.
  - apply replay_cons in Hrun as (w1 & H1 & Hrun).
    eapply steps_trans; [eapply steps_call; [apply steps_refl|apply Hok; by left|exact H1]|].
    apply IH; [|done]. intros env' c' w2 Hin. apply Hok. by right.
Qed.
End Histories.

(** ** Footprints of the calls *)
Lemma respects_on_registry {T A} (R : State -> State -> Prop) (m : RegistryStorage.R A) :
  respects R m -> respects (along R) (on_registry (T := T) m).
Proof. apply respects_along. Qed.

Lemma respects_on_token {T} (R : State -> State -> Prop) `{!PreOrder R} (f : T -> option T) :
  respects (along R) (on_token f).
Proof.
  intros env [s t] u [s' t']. unfold on_token, along. cbn.
  destruct (f t); intros [=]; subst. reflexivity.
Qed.

Ltac frame_step :=
  first
    [ frame1
    | lazymatch goal with
      | |- respects _ (on_registry _) => apply respects_on_registry
      | |- respects _ (on_token _) => apply respects_on_token; typeclasses eauto
      | |- respects _ ?m => unfold_head m; cbv beta
      end ].
(** [frame] reduces a footprint to the writes of the call. *)
Ltac frame := repeat frame_step.

(** [writes] closes the footprints of single writes. *)
Ltac writes1 := repeat case_match; reflexivity.
Ltac writes :=
  try unfold storage.store_series;
  lazymatch goal with
  | |- ?R ?s (foldl ?f ?s1 ?l) =>
      transitivity s1; [reflexivity|apply (foldl_along R)]; intros ? ?; unfold distribute_one; writes1
  | |- _ =>
      first [ reflexivity
            | unfold storage.remove_event, storage.add_to_stakers_list, storage.add_active_proposal,
                apply_change;
              writes1 ]
  end.

Section Calls.
Context {T : Type} `{TokenLaws T}.
Variable hct : Address -> string -> Address -> option bool.

(** A part of the storage that a call does not touch, and what reads no more
    than that part. *)
Definition leaves {V} (f : State -> V) (c : Call) : Prop :=
  respects (along (keeps f)) (run_call (T := T) hct c).

Definition maintains (P : State -> Prop) (c : Call) : Prop :=
  respects (along (pres P)) (run_call (T := T) hct c).

Lemma leaves_maintains {V} (f : State -> V) P c :
  (forall s s', f s' = f s -> P s -> P s') -> leaves f c -> maintains P c.
Proof. intros HP. apply respects_impl. intros w w' Hf. exact (HP w.1 w'.1 Hf). Qed.

(** *** Governance *)
Definition touches_gov (c : Call) : bool :=
  match c with
  | Initialize _ _ _ _ | SetPlatformFeeCall _ | ProposeParameterChange _ _ _
  | ApproveProposal _ _ | ExecuteProposal _ _ | CancelProposal _ _
  | CleanupExpiredProposals => true
  | _ => false
  end.

Lemma gov_frame c : touches_gov c = false -> leaves gov_view c.
Proof.
  unfold leaves. intros Hc. destruct c; try discriminate Hc; cbn [run_call]; clear Hc; frame; writes.
Qed.

Lemma initialize_gov a w f u : respects (pres gov_inv) (initialize a w f u).
Proof.
  intros env s x s' Hrun [H1 H2 H3 H4]. unfold initialize in Hrun. run. bools. by split.
Qed.

Lemma maintains_on_registry P c (m : RegistryStorage.R unit) :
  run_call (T := T) hct c = on_registry m ->
  respects (pres P) m -> maintains P c.
Proof. intros Hc Hm. unfold maintains. rewrite Hc. by apply respects_on_registry. Qed.

Lemma gov_maintained c : maintains gov_inv c.
Proof.
  destruct (touches_gov c) eqn:Hc; [|eapply leaves_maintains, gov_frame; [apply gov_inv_frame|done]].
  destruct c; try discriminate Hc; eapply maintains_on_registry; try reflexivity.
  - apply initialize_gov.
  - intros env s u s' Hrun Hinv. by eapply set_platform_fee_inv.
  - intros env s u s' Hrun Hinv. exec. by eapply propose_inv.
  - intros env s u s' Hrun Hinv. by eapply approve_inv.
  - intros env s u s' Hrun Hinv. by eapply execute_inv.
  - intros env s u s' Hrun Hinv. by eapply cancel_proposal_inv.
  - intros env s u s' Hrun Hinv. exec. by eapply cleanup_inv.
Qed.

(** *** Staking *)
Definition touches_stakes (c : Call) : bool :=
  match c with
  | StakeCollateral _ _ | UnstakeCollateral _ | DistributeStakerRewards _ _
  | ClaimStakerRewards _ => true
  | _ => false
  end.

Lemma stake_frame c : touches_stakes c = false -> leaves stake_view c.
Proof.
  unfold leaves. intros Hc. destruct c; try discriminate Hc; cbn [run_call]; clear Hc; frame; writes.
Qed.

Lemma stake_maintained c : maintains stake_inv c.
Proof.
  destruct (touches_stakes c) eqn:Hc;
    [|eapply leaves_maintains, stake_frame; [apply stake_inv_frame|done]].
  destruct c; try discriminate Hc; intros env [s t] u [s' t'] Hrun Hinv; cbn [run_call] in Hrun.
  - by eapply stake_preserves.
  - by eapply unstake_preserves.
  - by eapply distribute_preserves.
  - exec. by eapply claim_preserves.
Qed.

(** *** Disputes *)
Definition touches_disputes (c : Call) : bool :=
  match c with
  | OpenDispute _ _ | VoteOnDispute _ _ _ | ResolveDispute _ => true
  | _ => false
  end.

Lemma dispute_frame c : touches_disputes c = false -> leaves dispute_view c.
Proof.
  unfold leaves. intros Hc. destruct c; try discriminate Hc; cbn [run_call]; clear Hc; frame; writes.
Qed.

Lemma dispute_maintained c : maintains dispute_inv c.
Proof.
  destruct (touches_disputes c) eqn:Hc;
    [|eapply leaves_maintains, dispute_frame; [apply dispute_inv_frame|done]].
  destruct c; try discriminate Hc; eapply maintains_on_registry; try reflexivity;
    intros env s u s' Hrun Hinv.
  - by eapply open_dispute_inv.
  - by eapply vote_inv.
  - exec. by eapply resolve_inv.
Qed.

(** *** Series passes *)
Definition touches_passes (c : Call) : bool :=
  match c with
  | IssueSeriesPass _ _ _ _ _ | IncrementSeriesPassUsage _ => true
  | _ => false
  end.

Lemma passes_frame c : touches_passes c = false -> leaves passes_view c.
Proof.
  unfold leaves. intros Hc. destruct c; try discriminate Hc; cbn [run_call]; clear Hc; frame; writes.
Qed.

(** *** Events *)
Definition touches_events (c : Call) : bool :=
  match c with
  | BlacklistOrganizer _ _ | RegisterEvent _ | UpdateEventStatus _ _ | CancelEvent _ _
  | ArchiveEvent _ | UpdateMetadata _ _ | SetFeedbackCid _ _ | StoreEvent _
  | SetResaleCapBps _ _ | PostponeEvent _ _ _ | SetCustomEventFee _ _ | AddTier _ _ _
  | DeactivateTier _ _ | IncrementInventory _ _ _ _ _ | DecrementInventory _ _
  | MintCrossChainTicket _ _ _ _ _ _ _ => true
  | _ => false
  end.

Lemma events_frame c : touches_events c = false -> leaves events_view c.
Proof.
  unfold leaves. intros Hc. destruct c; try discriminate Hc; cbn [run_call]; clear Hc; frame; writes.
Qed.
End Calls.

Lemma maintains_steps {T} `{Token T} P ok others (w0 w : World T) :
  (forall hct c, maintains (T := T) hct P c) -> P w0.1 -> steps ok others w0 w -> P w.1.
Proof.
  intros Hc Hinit. apply steps_inv; [done|]. intros hct c env s t s' t' _ Hrun HP.
  exact (Hc hct c env (s, t) tt (s', t') Hrun HP).
Qed.
