(* ===== verification/RegistryHistory.v ===== *)
(** * Event registry: histories

    What a call does to the event it names ([edited]), and the invariants of
    every state the contract reaches by any sequence of calls. *)

From stdpp Require Import base tactics numbers list strings gmap.
From S2P Require Import Prelude.
From S2P Require Import Soroban.
From S2P Require Import Token.
From S2P Require Import Sharded.
From S2P Require Import RegistryTypes.
From S2P Require Import RegistryStorage.
From S2P Require Import RegistryEvents.
From S2P Require Import RegistryInventory.
From S2P Require Import RegistryAdmin.
From S2P Require Import RegistryLifecycle.
From S2P Require Import RegistryGovernance.
From S2P Require Import RegistryStaking.
From S2P Require Import RegistryDispute.
From S2P Require Import RegistryCommunity.
From S2P Require Import Registry.

(** ** Calls that edit one event *)

(** The event a call edits. *)
Definition edit_target (c : Call) : option string :=
  match c with
  | UpdateEventStatus id _ | CancelEvent id _ | UpdateMetadata id _ | SetFeedbackCid id _
  | SetResaleCapBps id _ | PostponeEvent id _ _ | SetCustomEventFee id _ | AddTier id _ _
  | DeactivateTier id _ | IncrementInventory id _ _ _ _ | DecrementInventory id _
  | MintCrossChainTicket _ _ _ _ _ id _ => Some id
  | _ => None
  end.

(** Who must have authorised the edit. *)
Definition edit_authorised (c : Call) (env : Env) (s : State) (e : EventInfo) : Prop :=
  match c with
  | SetCustomEventFee _ _ => exists admin, k_Admin s = Some admin /\ admin ∈ auths env
  | IncrementInventory _ _ _ _ _ | DecrementInventory _ _ =>
      exists tp, k_TicketPaymentContract s = Some tp /\ tp ∈ auths env
  | MintCrossChainTicket _ h _ _ sigs _ _ =>
      storage.is_teleport_processed h s = false /\
      exists b, storage.get_bridge_config s = Some b /\ br_threshold b <= len sigs
  | _ => ev_organizer_address e ∈ auths env
  end.

(** The event [e] with an identity that stays: identifier, organizer and
    visibility. *)
Definition same_identity (e e' : EventInfo) : Prop :=
  ev_event_id e' = ev_event_id e /\ ev_organizer_address e' = ev_organizer_address e /\
  ev_is_private e' = ev_is_private e.

(** What the call makes of the event. *)
Definition edited (c : Call) (env : Env) (e e' : EventInfo) : Prop :=
  match c with
  | UpdateEventStatus _ b => ev_status e <> Cancelled /\ e' = e <| ev_is_active := b |>
  | CancelEvent _ reason => ev_status e <> Cancelled /\
      e' = e <| ev_status := Cancelled |> <| ev_is_active := false |>
             <| ev_cancellation_reason := reason |>
  | UpdateMetadata _ cid => valid_metadata_cid cid = true /\ e' = e <| ev_metadata_cid := cid |>
  | SetFeedbackCid _ cid => valid_metadata_cid cid = true /\
      ev_end_time e <> 0 /\ ev_end_time e < timestamp env /\
      e' = e <| ev_feedback_cid := Some cid |>
  | SetResaleCapBps _ cap => resale_cap_ok cap = true /\ e' = e <| ev_resale_cap_bps := cap |>
  | PostponeEvent _ start grace => timestamp env < start /\ timestamp env < grace /\
      e' = e <| ev_start_time := start |> <| ev_is_postponed := true |>
             <| ev_grace_period_end := grace |>
  | SetCustomEventFee _ fee => (forall f, fee = Some f -> f <= 10000) /\
      e' = e <| ev_custom_fee_bps := fee |>
  | AddTier _ tid tier => 0 <= tier_price tier /\
      (0 < ev_max_supply e ->
       sum_map tier_tier_limit (ev_tiers e) + tier_tier_limit tier <= ev_max_supply e) /\
      (ev_tiers e !! tid = None -> map_len (ev_tiers e) < MAX_TIERS_PER_EVENT) /\
      e' = e <| ev_tiers := <[tid := tier]> (ev_tiers e) |>
  | DeactivateTier _ tid => exists t, ev_tiers e !! tid = Some t /\
      e' = e <| ev_tiers := <[tid := t <| tier_tier_limit := tier_current_sold t |>]> (ev_tiers e) |>
  | IncrementInventory _ tid _ q _ => exists t, ev_tiers e !! tid = Some t /\
      ev_is_active e = true /\ ev_status e <> Cancelled /\ q <> 0 /\
      (0 < ev_max_supply e -> ev_current_supply e + q <= ev_max_supply e) /\
      tier_current_sold t + q <= tier_tier_limit t /\
      e' = sell tid t q e <| ev_goal_met := goal_after e (ev_current_supply e + q) |>
  | DecrementInventory _ tid => exists t, ev_tiers e !! tid = Some t /\
      0 < tier_current_sold t /\ 0 < ev_current_supply e /\ e' = sell tid t (-1) e
  | MintCrossChainTicket _ _ _ tid _ _ q => exists t, ev_tiers e !! tid = Some t /\
      ev_is_active e = true /\ ev_status e <> Cancelled /\
      (0 < ev_max_supply e -> ev_current_supply e + q <= ev_max_supply e) /\
      tier_current_sold t + q <= tier_tier_limit t /\
      e' = sell tid t q e
  | _ => False
  end.

Lemma edited_identity c env e e' : edited c env e e' -> same_identity e e'.
Proof.
  destruct c; cbn; try done; intros Hed.
  all: try (destruct Hed as (t & Hed)).
  all: repeat match goal with Hx : _ /\ _ |- _ => destruct Hx end; by subst.
Qed.

(** One event was replaced, the indexes stayed. *)
Record replaced (s s' : State) (id : string) (e e' : EventInfo) : Prop := {
  rp_old : k_Event s !! id = Some e;
  rp_event : k_Event s' = <[id := e']> (k_Event s);
  rp_flags : k_OrganizerEvent s' = k_OrganizerEvent s;
  rp_index : k_OrganizerEventIndex s' = k_OrganizerEventIndex s;
  rp_active : active_inv s -> active_inv s';
}.

Lemma replaced_refl s id e : k_Event s !! id = Some e -> replaced s s id e e.
Proof. intros He. split; try done. by rewrite insert_id. Qed.

Lemma replaced_synced s s0 s' id e e' c :
  keyed (k_Event s) -> k_Event s !! id = Some e -> same_identity e e' ->
  events_view s0 = events_view s ->
  synced s0 (k_Event s0 !! ev_event_id e') e' c ->
  events_view s' = (<[ev_event_id e' := e']> (k_Event s0), k_OrganizerEvent s0,
                    k_OrganizerEventIndex s0, c) ->
  replaced s s' id e e'.
Proof.
  intros Hkey He (Hid & Ho & Hp) Hs0 Hc Hs'. assert (ev_event_id e = id) as Hk by eauto.
  pose proof Hs0 as [= HE0 HO0 HI0 HG0]. pose proof Hs' as [= HE1 HO1 HI1 HG1].
  split; [done| | | |].
  - by rewrite HE1, HE0, Hid, Hk.
  - by rewrite HO1, HO0.
  - by rewrite HI1, HI0.
  - intros Hinv. assert (active_inv s0) as Hinv0 by by eapply active_inv_frame.
    destruct (active_synced s0 e' c) as [Hr Heq]; [|done..|].
    + intros prev. rewrite HE0, Hid, Hk, He. intros [= <-]. congruence.
    + split; unfold storage.get_global_active_event_count; by rewrite HG1, ?HE1.
Qed.

(** The call performed an authorised edit. *)
Definition performed (c : Call) (env : Env) (s s' : State) (id : string) : Prop :=
  exists e e', replaced s s' id e e' /\ edit_authorised c env s e /\ edited c env e e'.

Lemma not_cancelled st : is_cancelled st = false -> st <> Cancelled.
Proof. by destruct st. Qed.

(** [replace_with]: the update that the run of the call left in the context. *)
Ltac replace_with :=
  match goal with
  | Hs : synced ?s0 _ ?e' ?c |- replaced ?s _ _ _ _ =>
      eapply (replaced_synced s s0 _ _ _ e' c);
      [assumption|eassumption|by split_and!|reflexivity|exact Hs|reflexivity]
  end.

Section Edits.
Implicit Types (s : State) (env : Env).

Lemma update_event_status_edit id b env s u s' :
  keyed (k_Event s) -> update_event_status id b env s = Done u s' ->
  performed (UpdateEventStatus id b) env s s' id.
Proof.
  intros Hkey Hrun. unfold update_event_status, storage.get_event in Hrun. run.
  destruct (k_Event s !! id) as [e|] eqn:He; run.
  destruct (Bool.eqb (ev_is_active e) b) eqn:Heq; run.
  - apply Bool.eqb_prop in Heq. exists e, e. split_and!; [by apply replaced_refl|done|].
    split; [by apply not_cancelled|]. destruct e; cbn in *. by subst.
  - exists e. eexists. split_and!; [replace_with|done|]. split; [by apply not_cancelled|done].
Qed.

Lemma cancel_event_edit id reason env s u s' :
  keyed (k_Event s) -> cancel_event id reason env s = Done u s' ->
  performed (CancelEvent id reason) env s s' id.
Proof.
  intros Hkey Hrun. unfold cancel_event, storage.get_event in Hrun. run.
  destruct (k_Event s !! id) as [e|] eqn:He; run.
  exists e. eexists. split_and!; [replace_with|done|]. split; [by apply not_cancelled|done].
Qed.

Lemma update_metadata_edit id cid env s u s' :
  keyed (k_Event s) -> update_metadata id cid env s = Done u s' ->
  performed (UpdateMetadata id cid) env s s' id.
Proof.
  intros Hkey Hrun. unfold update_metadata, storage.get_event in Hrun. run.
  destruct (k_Event s !! id) as [e|] eqn:He; run. case_bool_decide as Heq; run.
  - exists e, e. split_and!; [by apply replaced_refl|done|]. split; [done|].
    destruct e; cbn in *. by subst.
  - exists e. eexists. split_and!; [replace_with|done|]. by split.
Qed.

Lemma set_feedback_cid_edit id cid env s u s' :
  keyed (k_Event s) -> set_feedback_cid id cid env s = Done u s' ->
  performed (SetFeedbackCid id cid) env s s' id.
Proof.
  intros Hkey Hrun. unfold set_feedback_cid, storage.get_event in Hrun. run.
  destruct (k_Event s !! id) as [e|] eqn:He; run. case_bool_decide as Heq; run.
  - exists e, e. split_and!; [by apply replaced_refl|done|]. split_and!; try done.
    destruct e; cbn in *. by subst.
  - exists e. eexists. split_and!; [replace_with|done|]. by split_and!.
Qed.

Lemma set_resale_cap_edit id cap env s u s' :
  keyed (k_Event s) -> set_resale_cap_bps id cap env s = Done u s' ->
  performed (SetResaleCapBps id cap) env s s' id.
Proof.
  intros Hkey Hrun. unfold set_resale_cap_bps, storage.get_event in Hrun. run. bools. simplify_eq.
  eexists _, _. split_and!; [replace_with|done|]. by split.
Qed.

Lemma postpone_event_edit id start grace env s u s' :
  keyed (k_Event s) -> postpone_event id start grace env s = Done u s' ->
  performed (PostponeEvent id start grace) env s s' id.
Proof.
  intros Hkey Hrun. unfold postpone_event, storage.get_event in Hrun. run. bools. simplify_eq.
  eexists _, _. split_and!; [replace_with|done|]. split_and!; [lia..|done].
Qed.

Lemma set_custom_event_fee_edit id fee env s u s' :
  keyed (k_Event s) -> set_custom_event_fee id fee env s = Done u s' ->
  performed (SetCustomEventFee id fee) env s s' id.
Proof.
  intros Hkey Hrun. unfold set_custom_event_fee, storage.get_event in Hrun. run. simplify_eq.
  eexists _, _. split_and!; [replace_with|by eexists|]. split; [|done].
  intros f ->. bools. lia.
Qed.

Lemma add_tier_edit id tid tier env s u s' :
  keyed (k_Event s) -> add_tier id tid tier env s = Done u s' ->
  performed (AddTier id tid tier) env s s' id.
Proof.
  intros Hkey Hrun. unfold add_tier, storage.get_event in Hrun. run.
  match goal with Hx : when (0 <? ev_max_supply ?e0) _ _ _ = Done _ ?s1 |- _ =>
    rename e0 into e; assert (s1 = s /\ (0 < ev_max_supply e ->
      sum_map tier_tier_limit (ev_tiers e) + tier_tier_limit tier <= ev_max_supply e)) as [-> Hlim]
  end.
  { destruct (0 <? ev_max_supply e) eqn:Hm; cbn [when] in *; run; [|split; [done|lia]].
    match goal with Hx : total_tier_limit _ _ _ = _ |- _ =>
      apply total_tier_limit_Done in Hx as [-> ->] end.
    rewrite <- map_values_sum. bools. split; [done|lia]. }
  exists e. eexists. split_and!; [replace_with|done|]. split_and!; try done.
  intros Hnone. match goal with Hx : _ && _ = false |- _ =>
    rewrite bool_decide_true in Hx by done; cbn in Hx end. lia.
Qed.

Lemma deactivate_tier_edit id tid env s u s' :
  keyed (k_Event s) -> deactivate_tier id tid env s = Done u s' ->
  performed (DeactivateTier id tid) env s s' id.
Proof.
  intros Hkey Hrun. unfold deactivate_tier, storage.get_event in Hrun. run. simplify_eq.
  eexists _, _. split_and!; [replace_with|done|]. eexists. by split.
Qed.

Lemma increment_inventory_edit id tid user q token env s u s' :
  keyed (k_Event s) -> increment_inventory id tid user q token env s = Done u s' ->
  performed (IncrementInventory id tid user q token) env s s' id.
Proof.
  intros Hkey Hrun.
  destruct (increment_inventory_Done _ _ _ _ _ _ _ _ _ Hkey Hrun) as (e & t & [] & _).
  unfold increment_inventory, storage.get_event in Hrun. run. simplify_eq.
  match goal with Hg : (if _ then _ else _) _ _ = Done _ _ |- _ =>
    apply goal_branch in Hg as (-> & l & ->) end.
  match goal with |- context [if 0 <? ?b then storage.add_to_user_ticket_count _ _ _ _ _ else _] =>
    destruct (0 <? b) end.
  all: eexists _, _; split_and!; [replace_with|by eexists|]; eexists; by split_and!.
Qed.

Lemma decrement_inventory_edit id tid env s u s' :
  keyed (k_Event s) -> decrement_inventory id tid env s = Done u s' ->
  performed (DecrementInventory id tid) env s s' id.
Proof.
  intros Hkey Hrun. unfold decrement_inventory, storage.get_event in Hrun. run. bools. simplify_eq.
  eexists _, _. split_and!; [replace_with|by eexists|]. eexists. split_and!; [done|done|done|done].
Qed.

Lemma mint_edit ch h r tid sigs id q env s u s' :
  keyed (k_Event s) -> mint_cross_chain_ticket ch h r tid sigs id q env s = Done u s' ->
  performed (MintCrossChainTicket ch h r tid sigs id q) env s s' id.
Proof.
  intros Hkey Hrun. unfold mint_cross_chain_ticket in Hrun. run. 
  match goal with Hm : execute_teleport_mint _ _ _ _ _ ?s1 = _ |- _ =>
    destruct (execute_teleport_mint_Done _ _ _ _ env s1 _ _ Hkey Hm)
      as (e & t & He & Ht & Ha & Hst & Hmax & Hlim & _);
    unfold execute_teleport_mint, storage.get_event in Hm end.
  run. simplify_eq. bools.
  eexists _, _. split_and!; [replace_with|split; [done|by eexists]|]. eexists. by split_and!.
Qed.
End Edits.

Section History.
Context {T : Type} `{TokenLaws T}.
Variable hct : Address -> string -> Address -> option bool.

Lemma edit_performed c id env s (t : T) u s' t' :
  keyed (k_Event s) -> edit_target c = Some id ->
  run_call hct c env (s, t) = Done u (s', t') -> performed c env s s' id.
Proof.
  intros Hkey Hc Hrun. destruct c; try discriminate Hc; injection Hc as ->; cbn [run_call] in Hrun;
    apply on_registry_Done in Hrun as (sx & Hrun & [= -> ->]).
  - by eapply update_event_status_edit.
  - by eapply cancel_event_edit.
  - by eapply update_metadata_edit.
  - by eapply set_feedback_cid_edit.
  - by eapply set_resale_cap_edit.
  - by eapply postpone_event_edit.
  - by eapply set_custom_event_fee_edit.
  - by eapply add_tier_edit.
  - by eapply deactivate_tier_edit.
  - by eapply increment_inventory_edit.
  - by eapply decrement_inventory_edit.
  - by eapply mint_edit.
Qed.

(** ** The life cycle of an event *)

(** What one call may do to the entry [id] of the event table. *)
Inductive transition (c : Call) (env : Env) (s : State) (id : string)
    : option EventInfo -> option EventInfo -> Prop :=
  | tr_same o : transition c env s id o o
  | tr_register args :
      c = RegisterEvent args -> args_event_id args = id -> args_valid args ->
      args_organizer_address args ∈ auths env ->
      storage.is_blacklisted (args_organizer_address args) s = false ->
      transition c env s id None
        (Some (new_event (timestamp env) (storage.get_platform_fee s) args))
  | tr_edit e e' :
      edit_target c = Some id -> edit_authorised c env s e -> edited c env e e' ->
      transition c env s id (Some e) (Some e')
  | tr_suspend o reason e admin :
      c = BlacklistOrganizer o reason -> k_Admin s = Some admin -> admin ∈ auths env ->
      transition c env s id (Some e) (Some (deactivate e))
  | tr_archive e :
      c = ArchiveEvent id -> ev_organizer_address e ∈ auths env -> ev_is_active e = false ->
      transition c env s id (Some e) None
  | tr_store e e' :
      c = StoreEvent e' -> ev_event_id e' = id -> ev_organizer_address e ∈ auths env ->
      ev_organizer_address e' = ev_organizer_address e -> resale_cap_ok (ev_resale_cap_bps e') = true ->
      transition c env s id (Some e) (Some e').

Lemma insert_transition c env s id x o' (m m' : gmap string EventInfo) :
  m' = partial_alter (fun _ => o') x m ->
  (x = id -> transition c env s id (m !! id) o') ->
  transition c env s id (m !! id) (m' !! id).
Proof.
  intros -> Htr. destruct (decide (x = id)) as [->|Hne].
  - rewrite lookup_partial_alter_eq. auto.
  - rewrite lookup_partial_alter_ne by done. constructor.
Qed.

Lemma store_event_table e env s u s' :
  storage.store_event e env s = Done u s' -> k_Event s' = <[ev_event_id e := e]> (k_Event s).
Proof.
  intros (c & s1 & _ & -> & Hrest)%store_event_Done.
  case_match; [subst|destruct Hrest as (idx & n & _ & ->)]; by upd_simpl.
Qed.

Lemma store_event_entry e env s u s' :
  store_event e env s = Done u s' ->
  storage.store_event e env s = Done u s' /\ resale_cap_ok (ev_resale_cap_bps e) = true /\
  exists e0, k_Event s !! ev_event_id e = Some e0 /\ ev_organizer_address e0 = ev_organizer_address e /\
    ev_organizer_address e ∈ auths env.
Proof.
  intros Hrun. unfold store_event in Hrun. run.
  match goal with Hw : when _ _ _ _ = Done _ ?s1 |- _ => assert (s1 = s) as -> end.
  { destruct (bool_decide _); cbn [when] in *; run; reflexivity. }
  bools. eauto 10.
Qed.

Lemma blacklist_step o reason env s u s' :
  keyed (k_Event s) -> blacklist_organizer o reason env s = Done u s' ->
  exists admin, k_Admin s = Some admin /\ admin ∈ auths env /\
  forall id, k_Event s' !! id = k_Event s !! id \/
             k_Event s' !! id = deactivate <$> k_Event s !! id.
Proof.
  intros Hkey Hrun. destruct (storage.is_blacklisted o s) eqn:Hb.
  - unfold blacklist_organizer in Hrun. run. rewrite Hb in *. run. eauto 6.
  - apply blacklist_Done in Hrun as (admin & Ha & Hau & _ & _ & Hev); [|done..].
    exists admin. split_and!; [done..|]. intros id. rewrite Hev. case_bool_decide; auto.
Qed.

Lemma event_transition c env s (t : T) u s' t' id :
  events_inv s -> run_call hct c env (s, t) = Done u (s', t') ->
  transition c env s id (k_Event s !! id) (k_Event s' !! id).
Proof.
  intros Hinv Hrun. pose proof (ei_keyed s Hinv) as Hkey.
  destruct (edit_target c) as [x|] eqn:Hx.
  { destruct (edit_performed c x env s t u s' t') as (e & e' & Hrep & Hau & Hed); [done..|].
    destruct Hrep. eapply insert_transition; [exact rp_event0|]. intros ->.
    rewrite rp_old0. by eapply tr_edit. }
  destruct (touches_events c) eqn:Hc.
  2: { pose proof (events_frame hct c Hc env (s, t) u (s', t') Hrun) as [= -> _ _ _].
       constructor. }
  destruct c; try discriminate; cbn [run_call] in Hrun;
    apply on_registry_Done in Hrun as (sx & Hrun & [= -> ->]); cbn [fst] in *.
  - apply blacklist_step in Hrun as (admin & Ha & Hau & Hev); [|done].
    destruct (Hev id) as [-> | ->]; [constructor|]. destruct (k_Event s !! id); [|constructor].
    by eapply tr_suspend.
  - apply register_event_Done in Hrun as (Hval & _ & Hau & Hbl & Hnew & v & s1 & Hst & ->).
    upd_simpl. eapply insert_transition; [by eapply store_event_table|]. intros <-.
    cbn [new_event ev_event_id] in *. rewrite Hnew. by eapply tr_register.
  - apply archive_event_Done in Hrun as (e & He & Hau & Ha & HE & _).
    eapply insert_transition; [exact HE|]. intros <-. rewrite He. by eapply tr_archive.
  - apply store_event_entry in Hrun as (Hst & Hcap & e0 & He0 & Ho & Hau).
    eapply insert_transition; [by eapply store_event_table|]. intros <-. rewrite He0.
    eapply tr_store; [done..|by rewrite Ho|done|done].
Qed.

(** ** The event table is consistent *)

Lemma replaced_inv s s' id e e' :
  same_identity e e' -> replaced s s' id e e' -> events_inv s -> events_inv s'.
Proof.
  intros (Hid & Ho & _) [] []. split; rewrite ?rp_event0, ?rp_flags0, ?rp_index0; [| |done].
  - apply keyed_insert; [done|]. rewrite Hid. eauto.
  - intros o x. rewrite ei_flags. destruct (decide (x = id)) as [->|Hne].
    + rewrite lookup_insert_eq. naive_solver congruence.
    + by rewrite lookup_insert_ne.
Qed.

(** Suspending keeps every property of the storage that storing a deactivated
    event and publishing keep. *)
Lemma blacklist_maintains (P : State -> Prop) o reason env s u s' :
  (forall s s', events_view s' = events_view s -> P s -> P s') ->
  (forall e env s u s', P s -> k_Event s !! ev_event_id e = Some e -> ev_is_active e = true ->
     storage.store_event (deactivate e) env s = Done u s' -> P s') ->
  (forall s, P s -> keyed (k_Event s)) ->
  P s -> blacklist_organizer o reason env s = Done u s' -> P s'.
Proof.
  intros Hframe Hstore Hkeyed HP Hrun. unfold blacklist_organizer in Hrun. run.
  destruct (storage.is_blacklisted o s) eqn:Hb; run; [done|].
  unfold suspend_organizer_events in Hrun. run.
  match goal with Hf : foldM _ _ _ _ _ = Done _ ?s1 |- _ => assert (P s1) as HP1 end.
  { eapply (foldM_inv (fun _ sx => P sx)); [eassumption| |].
    - intros acc x sa acc' sb _ Hone Hsa. unfold suspend_one, storage.get_event in Hone. run.
      destruct (k_Event sa !! x) as [e|] eqn:He; run; [|done].
      destruct (ev_is_active e) eqn:Hact; run; [|done].
      eapply Hstore; [exact Hsa| |done|eassumption].
      by rewrite (Hkeyed sa Hsa _ _ He).
    - eapply Hframe; [|exact HP]. reflexivity. }
  destruct (0 <? _); cbn [when] in *; run; [|done]. eapply Hframe; [|exact HP1]. reflexivity.
Qed.

Lemma events_maintained c : maintains (T := T) hct events_inv c.
Proof.
  intros env [s t] u [s' t'] Hrun Hinv. cbn [fst] in *.
  destruct (edit_target c) as [x|] eqn:Hx.
  { destruct (edit_performed c x env s t u s' t') as (e & e' & Hrep & _ & Hed);
      [apply Hinv|done..|].
    eapply replaced_inv; [by eapply edited_identity|done..]. }
  destruct (touches_events c) eqn:Hc.
  2: { eapply events_inv_frame; [|exact Hinv]. exact (events_frame hct c Hc env (s, t) u (s', t') Hrun). }
  destruct c; try discriminate; cbn [run_call] in Hrun;
    apply on_registry_Done in Hrun as (sx & Hrun & [= -> ->]); cbn [fst] in *.
  - eapply (blacklist_maintains events_inv); [apply events_inv_frame| |by intros ? []|exact Hinv|exact Hrun].
    intros e env1 s1 v s2 Hinv1 He _ Hst. eapply store_event_inv; [exact Hinv1| |exact Hst].
    intros e0. cbn [deactivate]. change (ev_event_id (deactivate e)) with (ev_event_id e).
    rewrite He. by intros [= <-].
  - apply register_event_Done in Hrun as (_ & _ & _ & _ & Hnew & v & s1 & Hst & ->).
    eapply (events_inv_frame s1); [done|]. eapply store_event_inv; [done| |done].
    cbn. rewrite Hnew. by intros e0.
  - by eapply archive_event_inv.
  - apply store_event_entry in Hrun as (Hst & _ & e0 & He0 & Ho & _).
    eapply store_event_inv; [done| |done]. rewrite He0. by intros ? [= <-].
Qed.

(** Calls other than the legacy [store_event]. *)
Definition not_store (c : Call) : bool := match c with StoreEvent _ => false | _ => true end.

Lemma active_maintained c env s (t : T) u s' t' :
  not_store c = true -> run_call hct c env (s, t) = Done u (s', t') ->
  events_inv s -> active_inv s -> active_inv s'.
Proof.
  intros Hns Hrun Hinv Hact.
  destruct (edit_target c) as [x|] eqn:Hx.
  { destruct (edit_performed c x env s t u s' t') as (e & e' & [] & _ & Hed);
      [apply Hinv|done..|auto]. }
  destruct (touches_events c) eqn:Hc.
  2: { eapply active_inv_frame; [|exact Hact]. exact (events_frame hct c Hc env (s, t) u (s', t') Hrun). }
  destruct c; try discriminate; cbn [run_call] in Hrun;
    apply on_registry_Done in Hrun as (sx & Hrun & [= -> ->]); cbn [fst] in *.
  - eapply (blacklist_maintains (fun s => events_inv s /\ active_inv s));
      [| | |split; [exact Hinv|exact Hact]|exact Hrun].
    + intros s1 s2 Hv [H1 H2]. eauto using events_inv_frame, active_inv_frame.
    + intros e env1 s1 v s2 [Hinv1 Hact1] He _ Hst. split.
      * eapply store_event_inv; [exact Hinv1| |exact Hst]. intros e0.
        change (ev_event_id (deactivate e)) with (ev_event_id e). rewrite He. by intros [= <-].
      * eapply store_event_active; [exact Hact1| |exact Hst]. intros prev.
        change (ev_event_id (deactivate e)) with (ev_event_id e). rewrite He. intros [= <-]. 
        change (ev_is_private (deactivate e)) with (ev_is_private e). congruence.
    + by intros s1 [[] _].
  - apply register_event_Done in Hrun as (_ & _ & _ & _ & Hnew & v & s1 & Hst & ->).
    eapply (active_inv_frame s1); [done|]. eapply store_event_active; [done| |done].
    intros prev. cbn. rewrite Hnew. done.
  - by eapply archive_event_active.
Qed.

(** ** Terms and supply of every event *)

(** The terms the entry points guarantee for every event. *)
Record terms_ok (e : EventInfo) : Prop := {
  tm_cancelled : ev_status e = Cancelled -> ev_is_active e = false;
  tm_fee : ev_platform_fee_percent e <= 10000;
  tm_custom f : ev_custom_fee_bps e = Some f -> f <= 10000;
  tm_resale cap : ev_resale_cap_bps e = Some cap -> cap <= 10000;
  tm_tiers : map_len (ev_tiers e) <= MAX_TIERS_PER_EVENT;
  tm_price id t : ev_tiers e !! id = Some t -> 0 <= tier_price t;
}.

Lemma map_len_insert {A} (m : gmap string A) k x y :
  m !! k = Some y -> map_len (<[k := x]> m) = map_len m.
Proof. intros Hk. rewrite map_size_insert, Hk. done. Qed.

Lemma sell_terms tid t q e :
  ev_tiers e !! tid = Some t -> terms_ok e -> terms_ok (sell tid t q e).
Proof.
  intros Ht []. split; unfold sell; upd_simpl; try done.
  - by erewrite map_len_insert.
  - intros id t' [[<- <-]|[? ?]]%lookup_insert_Some; upd_simpl; eauto.
Qed.

Ltac open_edit :=
  repeat match goal with
  | Hx : _ /\ _ |- _ => destruct Hx
  | Hx : exists _, _ |- _ => destruct Hx
  end; subst.

Lemma edited_terms c env e e' : edited c env e e' -> terms_ok e -> terms_ok e'.
Proof.
  intros Hed Hok. pose proof Hok as [].
  destruct c; cbn in Hed; try done; open_edit; try by split.
  - split; try done. intros z Hz. upd_simpl. subst. by apply Z.leb_le.
  - split; upd_simpl; try done.
    + destruct (ev_tiers e !! tier_id) as [t|] eqn:Ht; [by erewrite map_len_insert|].
      rewrite map_size_insert, Ht. cbn. match goal with Hx : None = None -> _ |- _ =>
        specialize (Hx eq_refl) end. lia.
    + intros id t [[<- <-]|[? ?]]%lookup_insert_Some; eauto.
  - split; upd_simpl; try done; [by erewrite map_len_insert|].
    intros id t' [[<- <-]|[? ?]]%lookup_insert_Some; upd_simpl; eauto.
  - apply sell_terms; [done|]. by split.
  - by apply sell_terms.
  - by apply sell_terms.
Qed.

Lemma new_event_terms now fee args :
  fee <= 10000 -> args_valid args -> terms_ok (new_event now fee args).
Proof. intros Hfee []. by split. Qed.

Lemma deactivate_terms e : terms_ok e -> terms_ok (deactivate e).
Proof. intros []. by split. Qed.

(** The organizers' side of the supply rules, which the contract does not
    check: tiers are created unsold, with a limit that is not negative, and are
    not replaced.  Quantities are [u32]. *)
Definition tier_fresh (t : TicketTier) : Prop := tier_current_sold t = 0 /\ 0 <= tier_tier_limit t.

Definition fair (c : Call) (s : State) : Prop :=
  match c with
  | RegisterEvent args => forall id t, args_tiers args !! id = Some t -> tier_fresh t
  | AddTier id tid tier => tier_fresh tier /\
      forall e, k_Event s !! id = Some e -> ev_tiers e !! tid = None
  | IncrementInventory _ _ _ q _ | MintCrossChainTicket _ _ _ _ _ _ q => 0 <= q
  | StoreEvent _ => False
  | _ => True
  end.

Lemma edited_ledger c env s id e e' :
  edit_target c = Some id -> k_Event s !! id = Some e -> fair c s ->
  edited c env e e' -> ledger_ok e -> ledger_ok e'.
Proof.
  intros Hid He Hfair Hed Hok. pose proof Hok as [Htier Hsum Hlim].
  destruct c; try discriminate Hid; injection Hid as ->; cbn in Hed, Hfair; open_edit; try by split.
  - match goal with Hx : tier_fresh _ |- _ => destruct Hx as [Hs Hl] end.
    assert (ev_tiers e !! tier_id = None) as Hnew by eauto. split; upd_simpl.
    + intros x t [[<- <-]|[? ?]]%lookup_insert_Some; [lia|eauto].
    + rewrite sum_map_insert_None by done. lia.
    + rewrite sum_map_insert_None by done. lia.
  - match goal with Hx : ev_tiers e !! _ = Some ?tx |- _ =>
      rename tx into t0; rename Hx into Ht; pose proof (Htier _ _ Ht) end.
    split; upd_simpl.
    + intros y t [[<- <-]|[? ?]]%lookup_insert_Some; [upd_simpl; lia|eauto].
    + rewrite sum_map_insert, Ht. cbn [from_option]. upd_simpl. lia.
    + rewrite sum_map_insert, Ht. cbn [from_option]. upd_simpl. lia.
  - apply sell_ok; [done| |by apply ledger_ok_goal]. match goal with Hx : ev_tiers e !! _ = Some _ |- _ =>
      pose proof (Htier _ _ Hx) end. lia.
  - apply sell_ok; [done| |done]. match goal with Hx : ev_tiers e !! _ = Some _ |- _ =>
      pose proof (Htier _ _ Hx) end. lia.
  - apply sell_ok; [done| |done]. match goal with Hx : ev_tiers e !! _ = Some _ |- _ =>
      pose proof (Htier _ _ Hx) end. lia.
Qed.

Lemma new_event_ledger now fee args :
  (forall id t, args_tiers args !! id = Some t -> tier_fresh t) -> args_valid args ->
  ledger_ok (new_event now fee args).
Proof.
  intros Hfresh []. split; cbn.
  - intros id t Ht. destruct (Hfresh id t Ht). lia.
  - rewrite (sum_map_ext _ (fun _ => 0 * 0)); [by rewrite sum_map_scale|].
    intros id t Ht. by destruct (Hfresh id t Ht).
  - done.
Qed.

Lemma deactivate_ledger e : ledger_ok e -> ledger_ok (deactivate e).
Proof. intros []. by split. Qed.

(** A cancelled event under a call other than [store_event] and its archival. *)
Lemma cancelled_step (c : Call) env s id e o :
  not_store c = true -> c <> ArchiveEvent id ->
  transition c env s id (Some e) o -> ev_status e = Cancelled -> ev_is_active e = false ->
  exists e', o = Some e' /\ ev_status e' = Cancelled /\ ev_is_active e' = false /\
    ev_current_supply e' <= ev_current_supply e.
Proof.
  intros Hns Hna Htr Hst Hact. inversion Htr; subst; try done; eexists; (split; [reflexivity|]).
  - done.
  - destruct c; cbn in *; try done; open_edit; try done. unfold sell. cbn. split_and!; [done..|lia].
  - done.
Qed.

End History.

Section Histories.
Context {T : Type} `{TokenLaws T}.

(** ** Invariants of histories *)

Lemma steps_events ok others (w0 : World T) w :
  events_inv w0.1 -> steps ok others w0 w -> events_inv w.1.
Proof. apply maintains_steps. apply events_maintained. Qed.

(** A property of single events, kept by every way an event can change. *)
Lemma steps_all_events (P : EventInfo -> Prop) (ok : Call -> Env -> World T -> Prop) others w0 w :
  (forall c env s t id e', ok c env (s, t) -> gov_inv s ->
     transition c env s id None (Some e') -> P e') ->
  (forall c env s t id e e', ok c env (s, t) -> k_Event s !! id = Some e ->
     transition c env s id (Some e) (Some e') -> P e -> P e') ->
  events_inv w0.1 -> gov_inv w0.1 -> (forall id e, k_Event w0.1 !! id = Some e -> P e) ->
  steps ok others w0 w -> forall id e, k_Event w.1 !! id = Some e -> P e.
Proof.
  intros Hnew Hchg Hev Hgov Hall Hsteps.
  enough (events_inv w.1 /\ gov_inv w.1 /\ forall id e, k_Event w.1 !! id = Some e -> P e)
    as (_ & _ & ?) by done.
  eapply (steps_inv (fun s => events_inv s /\ gov_inv s /\
    forall id e, k_Event s !! id = Some e -> P e)); [done| |exact Hsteps].
  intros hct c env s t s' t' Hok Hrun (Hev1 & Hgov1 & Hall1). split_and!.
  - exact (events_maintained hct c env (s, t) tt (s', t') Hrun Hev1).
  - exact (gov_maintained hct c env (s, t) tt (s', t') Hrun Hgov1).
  - intros id e' He'. pose proof (event_transition hct c env s t tt s' t' id Hev1 Hrun) as Htr.
    rewrite He' in Htr. destruct (k_Event s !! id) as [e|] eqn:He; eauto.
Qed.

Lemma terms_new (c : Call) env s id e' :
  gov_inv s -> transition c env s id None (Some e') -> terms_ok e'.
Proof. intros [] Htr. inversion Htr; subst. by apply new_event_terms. Qed.

Lemma terms_step (c : Call) env s id e e' :
  not_store c = true -> transition c env s id (Some e) (Some e') -> terms_ok e -> terms_ok e'.
Proof.
  intros Hns Htr Hok. inversion Htr; subst; try done.
  - by eapply edited_terms.
  - by apply deactivate_terms.
Qed.

(** The sales of every event of a fair history. *)
Lemma ledger_reached others t0 (w : World T) id e :
  reachable (fun c _ w => fair c w.1) others t0 w -> k_Event w.1 !! id = Some e -> ledger_ok e.
Proof.
  intros Hr. revert id e.
  eapply (steps_all_events ledger_ok); [| | | | |exact Hr];
    [| |apply events_inv_init|apply gov_inv_init|done].
  - intros c env s t id e' Hfair _ Htr. inversion Htr; subst. by apply new_event_ledger.
  - intros c env s t id e e' Hfair He Htr Hok. cbn in Hfair.
    inversion Htr; subst; try done; [by eapply edited_ledger|by apply deactivate_ledger].
Qed.

Lemma fair_not_store c s : fair c s -> not_store c = true.
Proof. by destruct c. Qed.

(** ** Properties *)

(** C1: The contract is consistent in every state it reaches, whatever calls
    are made, by whom and when: events are stored under their identifiers and
    are exactly the ones their organizers' flags record; proposals are
    numbered, deduplicated and finished at most once, the active list holds
    only live ones, and the platform fee is at most 100%; stakes are positive,
    listed once and add up to the recorded total; the votes of every dispute
    are counted once each. *)
Theorem registry_consistent others t0 (w : World T) :
  reachable any_call others t0 w ->
  events_inv w.1 /\ gov_inv w.1 /\ stake_inv w.1 /\ dispute_inv w.1.
Proof.
  intros Hr. split_and!.
  - eapply steps_events; [|exact Hr]. apply events_inv_init.
  - eapply maintains_steps; [apply gov_maintained| |exact Hr]. apply gov_inv_init.
  - eapply maintains_steps; [apply stake_maintained| |exact Hr]. apply stake_inv_init.
  - eapply maintains_steps; [apply dispute_maintained| |exact Hr]. apply dispute_inv_init.
Qed.

(** C15: The life cycle of an event.  In a reachable state, a successful call
    changes the entry of an event only by: a registration signed by an
    organizer that is not blacklisted; an edit of the event it names, allowed
    to its organizer, the administrator, the payment contract or the bridge,
    that changes exactly the fields of that edit; the suspension of a
    blacklisted organizer's events by the administrator; the archival of an
    inactive event by its organizer; or the legacy [store_event] by its
    organizer.  Every other event stays as it was. *)
Theorem event_life_cycle hct others t0 (w w' : World T) c env id :
  reachable any_call others t0 w ->
  run_call hct c env w = Done tt w' ->
  transition c env w.1 id (k_Event w.1 !! id) (k_Event w'.1 !! id).
Proof.
  intros Hr Hrun. destruct w as [s t], w' as [s' t'].
  eapply event_transition; [|exact Hrun]. eapply steps_events; [|exact Hr]. apply events_inv_init.
Qed.

(** As long as [store_event] is not called, the public counter of active
    events is exact, and every event keeps to the terms: a cancelled event is
    inactive, fees and resale caps are at most 100%, there are at most 20 tiers
    and no price is negative. *)
Theorem event_terms_kept others t0 (w : World T) :
  reachable (fun c _ _ => not_store c = true) others t0 w ->
  active_inv w.1 /\ (forall id e, k_Event w.1 !! id = Some e -> terms_ok e).
Proof.
  intros Hr. split.
  - enough (events_inv w.1 /\ active_inv w.1) as [_ ?] by done.
    eapply (steps_inv (fun s => events_inv s /\ active_inv s)); [| |exact Hr].
    + split; [apply events_inv_init|apply active_inv_init].
    + intros hct c env s t s' t' Hns Hrun [Hev Ha]. split; [|exact (active_maintained hct c env s t tt s' t' Hns Hrun Hev Ha)].
      exact (events_maintained hct c env (s, t) tt (s', t') Hrun Hev).
  - eapply steps_all_events; [| | | | |exact Hr];
    [| |apply events_inv_init|apply gov_inv_init|done].
    + intros c env s t id e' _. apply terms_new.
    + intros c env s t id e e' Hns _. by apply terms_step.
Qed.

(** C2: No event is ever oversold.  When tiers are created unsold and
    with limits that are not negative, are not replaced, and [store_event] is
    not used, then in every reachable state every tier has sold between zero
    and its limit, the tiers' sales add up to the event's supply, and the
    supply is at most the event's maximum. *)
Theorem never_oversold others t0 (w : World T) id e :
  reachable (fun c _ w => fair c w.1) others t0 w ->
  k_Event w.1 !! id = Some e ->
  ledger_ok e /\ 0 <= ev_current_supply e /\
  (0 < ev_max_supply e -> ev_current_supply e <= ev_max_supply e).
Proof.
  intros Hr He. pose proof (ledger_reached others t0 w id e Hr He) as Hok.
  split; [done|by apply ledger_ok_supply].
Qed.

(** Cancellation is final.  From any reachable state, after any further
    calls other than [store_event] and the archival of the event, a cancelled
    event is still cancelled and inactive, and no ticket of it was sold in
    between. *)
Theorem cancellation_final others t0 (w w' : World T) id e :
  reachable any_call others t0 w ->
  k_Event w.1 !! id = Some e -> ev_status e = Cancelled -> ev_is_active e = false ->
  steps (fun c _ _ => not_store c = true /\ c <> ArchiveEvent id) others w w' ->
  exists e', k_Event w'.1 !! id = Some e' /\ ev_status e' = Cancelled /\
    ev_is_active e' = false /\ ev_current_supply e' <= ev_current_supply e.
Proof.
  intros Hr He Hst Hact Hsteps.
  assert (events_inv w.1) as Hev by (eapply steps_events; [|exact Hr]; apply events_inv_init).
  enough (events_inv w'.1 /\ exists e', k_Event w'.1 !! id = Some e' /\ ev_status e' = Cancelled /\
    ev_is_active e' = false /\ ev_current_supply e' <= ev_current_supply e) as [_ ?] by done.
  eapply (steps_inv (fun s => events_inv s /\ exists e', k_Event s !! id = Some e' /\
    ev_status e' = Cancelled /\ ev_is_active e' = false /\
    ev_current_supply e' <= ev_current_supply e)); [| |exact Hsteps];
    [split; [done|]; exists e; by split_and!|].
  intros hct c env s t s' t' [Hns Hna] Hrun (Hev1 & e1 & He1 & Hst1 & Hact1 & Hsup).
  split; [exact (events_maintained hct c env (s, t) tt (s', t') Hrun Hev1)|].
  pose proof (event_transition hct c env s t tt s' t' id Hev1 Hrun) as Htr. rewrite He1 in Htr.
  destruct (cancelled_step c env s id e1 (k_Event s' !! id)) as (e2 & He2 & ? & ? & ?); [done..|].
  exists e2. split_and!; [done..|lia].
Qed.
End Histories.

(** ** A sample history *)
Module Trace.
Definition ticket_confirmed (_ : Address) (_ : string) (_ : Address) : option bool := Some true.
Definition still (t t' : Ledger) : Prop := t' = t.
Definition tokens : Ledger := mkLedger ∅ ∅.

(** Deployment, registration of the payment contract and an event, a sale and
    the cancellation of the event. *)
Definition sale_calls : list (Env * Call) :=
  [ (Sample.env 10 ["ADM"], Initialize "ADM" "WALLET" 500 "USDC");
    (Sample.env 20 ["ADM"], SetTicketPaymentContract "TP");
    (Sample.env 30 ["ORG"], RegisterEvent sample_args);
    (Sample.env 40 ["TP"], IncrementInventory "e2" "gen" "ALICE" 2 "USDC") ].
Definition cancel_calls : list (Env * Call) :=
  [ (Sample.env 50 ["ORG"], CancelEvent "e2" (Some "rain")) ].
Definition later_calls : list (Env * Call) :=
  [ (Sample.env 60 ["TP"], DecrementInventory "e2" "gen") ].

Definition world (calls : list (Env * Call)) : World Ledger :=
  default (init_state, tokens) (replay ticket_confirmed calls (init_state, tokens)).

Lemma world_reachable ok others calls :
  (forall env c w, (env, c) ∈ calls -> ok c env w) ->
  bool_decide (is_Some (replay ticket_confirmed calls (init_state, tokens))) = true ->
  reachable ok others tokens (world calls).
Proof.
  intros Hok [w Hw]%bool_decide_eq_true. unfold world. rewrite Hw. by eapply replay_steps.
Qed.
End Trace.

Lemma registry_consistent_witness :
  let w := Trace.world (Trace.sale_calls ++ Trace.cancel_calls) in
  events_inv w.1 /\ gov_inv w.1 /\ stake_inv w.1 /\ dispute_inv w.1.
Proof.
  apply (registry_consistent Trace.still Trace.tokens).
  apply Trace.world_reachable; [done|]. vm_compute. reflexivity.
Defined.

Lemma event_life_cycle_witness :
  let w := Trace.world Trace.sale_calls in
  let w' := Trace.world (Trace.sale_calls ++ Trace.cancel_calls) in
  transition (CancelEvent "e2" (Some "rain")) (Sample.env 50 ["ORG"]) w.1 "e2"
    (k_Event w.1 !! "e2") (k_Event w'.1 !! "e2").
Proof.
  intros w w'.
  apply (event_life_cycle Trace.ticket_confirmed Trace.still Trace.tokens w w').
  - apply Trace.world_reachable; [done|]. vm_compute. reflexivity.
  - vm_compute. reflexivity.
Defined.

Lemma event_terms_kept_witness :
  let w := Trace.world (Trace.sale_calls ++ Trace.cancel_calls) in
  active_inv w.1 /\ (forall id e, k_Event w.1 !! id = Some e -> terms_ok e).
Proof.
  apply (event_terms_kept Trace.still Trace.tokens).
  apply Trace.world_reachable; [|vm_compute; reflexivity].
  intros env c w Hin. cbn in Hin. by repeat (apply elem_of_cons in Hin as [[= -> ->]|Hin]); [..|set_solver].
Defined.

Lemma never_oversold_witness :
  exists e, k_Event (Trace.world Trace.sale_calls).1 !! "e2" = Some e /\
    ev_current_supply e = 2 /\ ledger_ok e /\ 0 <= ev_current_supply e /\
    (0 < ev_max_supply e -> ev_current_supply e <= ev_max_supply e).
Proof.
  eexists. split; [vm_compute; reflexivity|]. split; [reflexivity|].
  eapply (never_oversold Trace.still Trace.tokens
            (Trace.world Trace.sale_calls) "e2"); [|vm_compute; reflexivity].
  apply Trace.world_reachable; [|vm_compute; reflexivity].
  intros env c w Hin. cbn in Hin.
  repeat (apply elem_of_cons in Hin as [[= -> ->]|Hin]); [done|done| |done|set_solver].
  cbn. intros id t [<- <-]%lookup_singleton_Some. done.
Defined.

Lemma cancellation_final_witness :
  let w := Trace.world (Trace.sale_calls ++ Trace.cancel_calls) in
  let w' := Trace.world (Trace.sale_calls ++ Trace.cancel_calls ++ Trace.later_calls) in
  exists e e', k_Event w.1 !! "e2" = Some e /\ k_Event w'.1 !! "e2" = Some e' /\
    ev_status e' = Cancelled /\ ev_is_active e' = false /\
    ev_current_supply e' <= ev_current_supply e.
Proof.
  intros w w'. eexists.
  edestruct (cancellation_final Trace.still Trace.tokens w w' "e2")
    as (e' & He'); [..|exists e'; split; [|exact He']]; [| | | | |vm_compute; reflexivity].
  - apply Trace.world_reachable; [done|]. vm_compute. reflexivity.
  - vm_compute. reflexivity.
  - reflexivity.
  - reflexivity.
  - apply (replay_steps Trace.ticket_confirmed _ _ Trace.later_calls); [|vm_compute; reflexivity].
    intros env c w1 Hin. cbn in Hin.
    by repeat (apply elem_of_cons in Hin as [[= -> ->]|Hin]); [|set_solver].
Defined.
