(* ===== verification/RegistryControl.v ===== *)
(** * Event registry: custody and control

    The theorems of the whole contract about money and authority: that the
    contract can always pay its stakers, who can become administrator, how a
    proposal moves through its states, that series passes stay within their
    limits, that a cross-chain message is not replayed, and that the published
    log only grows. *)

From stdpp Require Import base tactics numbers list strings gmap.
From S2P Require Import Prelude.
From S2P Require Import Soroban.
From S2P Require Import Token.
From S2P Require Import Sharded.
From S2P Require Import RegistryTypes.
From S2P Require Import RegistryStorage.
From S2P Require Import RegistryEvents.
From S2P Require Import RegistryInventory.
From S2P Require Import RegistryAdmin.
From S2P Require Import RegistryLifecycle.
From S2P Require Import RegistryGovernance.
From S2P Require Import RegistryStaking.
From S2P Require Import RegistryDispute.
From S2P Require Import RegistryCommunity.
From S2P Require Import Registry.
From S2P Require Import RegistryHistory.

(** ** Custody *)

(** The collateral of one staker is part of what the contract owes. *)
Lemma owed_covers s o st :
  stake_inv s -> k_OrganizerStake s !! o = Some st ->
  stake_amount st <= owed (stake_token st) s.
Proof.
  intros Hinv Hst. pose proof (si_reward s Hinv _ _ Hst).
  unfold owed. set (f := fun x => if bool_decide (stake_token x = stake_token st)
                                  then stake_amount x + stake_reward_balance x else 0).
  assert (f st <= sum_map f (k_OrganizerStake s)) as Hle.
  { eapply sum_map_elem; [|exact Hst]. intros k x Hx. subst f. cbn.
    pose proof (si_reward s Hinv _ _ Hx). pose proof (si_amount s Hinv _ _ Hx).
    case_bool_decide; lia. }
  subst f. cbn in *. rewrite bool_decide_true in Hle by done. lia.
Qed.

Section Custody.
Context {T : Type} `{TokenLaws T}.
Variable hct : Address -> string -> Address -> option bool.
(** The address of the contract. *)
Variable self : Address.

(** The calls under which custody is guaranteed: they run in this contract,
    which never authorises on its own behalf, and the staking token is only
    changed while nobody has collateral in another one. *)
Definition custody (c : Call) (env : Env) (w : World T) : Prop :=
  current_contract_address env = self /\ self ∉ auths env /\
  match c with
  | SetStakingConfig token _ =>
      forall o st, k_OrganizerStake w.1 !! o = Some st -> stake_token st = token
  | _ => True
  end.

(** The rest of the world does not take tokens out of the contract. *)
Definition respectful (t t' : T) : Prop := forall tk, balance t tk self <= balance t' tk self.

Lemma tokens_frame c : touches_stakes c = false ->
  respects (fun w w' => w'.2 = w.2) (run_call (T := T) hct c).
Proof.
  intros Hc. destruct c; try discriminate Hc; cbn [run_call];
    apply (respects_zoom _ (fun _ _ => True)); done.
Qed.

Definition sets_staking_token (c : Call) : bool :=
  match c with SetStakingConfig _ _ => true | _ => false end.

Lemma staking_token_frame c : sets_staking_token c = false -> leaves (T := T) hct k_StakingToken c.
Proof.
  unfold leaves. intros Hc. destruct c; try discriminate Hc; cbn [run_call]; clear Hc; frame; writes.
Qed.

Lemma one_token_step c env s (t : T) u s' t' :
  stake_inv s -> custody c env (s, t) -> run_call hct c env (s, t) = Done u (s', t') ->
  one_token s -> one_token s'.
Proof.
  intros Hinv (Hself & Hauth & Hok) Hrun Hone.
  destruct (sets_staking_token c) eqn:Hsets.
  { destruct c; try discriminate Hsets. cbn [run_call] in Hrun. unfold set_staking_config in Hrun.
    wrun. simplify_eq. intros o st Hst. cbn. f_equal. symmetry. exact (Hok o st Hst). }
  pose proof (staking_token_frame c Hsets env (s, t) u (s', t') Hrun) as Htk.
  unfold along, keeps in Htk. cbn [fst] in Htk.
  destruct (touches_stakes c) eqn:Hc.
  2: { pose proof (stake_frame hct c Hc env (s, t) u (s', t') Hrun) as [= HO _ _].
       intros o st. rewrite HO, Htk. apply Hone. }
  destruct c; try discriminate Hc; cbn [run_call] in Hrun.
  - apply stake_collateral_Done in Hrun as (token & t1 & st & s1 & [= <- <-] & _ & _ & _ & Htok & _
      & _ & Hstk & _ & _ & _ & HO & _).
    intros o st'. rewrite HO, Htk. intros [[<- <-]|[? ?]]%lookup_insert_Some; [congruence|eauto].
  - apply unstake_collateral_Done in Hrun as (st & t1 & s1 & [= <- <-] & _ & _ & _ & HO & _).
    intros o st'. rewrite HO, Htk. intros [? ?]%lookup_delete_Some. eauto.
  - apply distribute_Done in Hrun as (token & t1 & s1 & [= <- <-] & _ & _ & _ & _ & _ & _ & HO & _).
    rewrite distribute_all in HO by done. intros o st'. rewrite HO, Htk, lookup_fmap.
    intros (st & Hst & ->)%fmap_Some.
    destruct (credited_fields total_reward (storage.get_total_staked s) st) as (_ & _ & ->). eauto.
  - exec. apply claim_Done in Hrun0 as (st & t1 & s1 & [= <- <-] & _ & Hst & _ & _ & _ & HO & _).
    intros o st'. rewrite HO, Htk. intros [[_ <-]|[? ?]]%lookup_insert_Some; [|by eauto].
    upd_simpl. eauto.
Qed.

Lemma solvent_step c env s (t : T) u w' :
  stake_inv s -> one_token s -> custody c env (s, t) ->
  run_call hct c env (s, t) = Done u w' -> solvent self (s, t) -> solvent self w'.
Proof.
  intros Hinv Hone (<- & Hauth & _) Hrun Hsol. destruct w' as [s' t'].
  destruct (touches_stakes c) eqn:Hc.
  2: { pose proof (stake_frame hct c Hc env (s, t) u (s', t') Hrun) as [= HO _ _].
       pose proof (tokens_frame c Hc env (s, t) u (s', t') Hrun) as Ht. cbn in Ht. subst t'.
       intros tk. unfold owed. cbn. rewrite HO. apply Hsol. }
  destruct c; try discriminate Hc; cbn [run_call] in Hrun.
  - by eapply stake_solvent.
  - by eapply unstake_solvent.
  - by eapply distribute_solvent.
  - exec. by eapply claim_solvent.
Qed.

End Custody.

Section Solvency.
Context {T : Type} `{TokenLaws T}.
Variable self : Address.
Abbreviation custody := (custody (T := T) self).
Abbreviation respectful := (respectful (T := T) self).

Lemma steps_solvent (w0 w : World T) :
  steps custody respectful w0 w ->
  stake_inv w0.1 -> one_token w0.1 -> solvent self w0 ->
  stake_inv w.1 /\ one_token w.1 /\ solvent self w.
Proof.
  intros Hsteps Hinv0 Hone0 Hsol0.
  induction Hsteps as [|hct c env [s t] [s' t'] _ IH Hok Hrun|s t t' _ IH Ht]; [done| |].
  - destruct IH as (Hinv & Hone & Hsol). split_and!.
    + exact (stake_maintained hct c env (s, t) tt (s', t') Hrun Hinv).
    + by eapply one_token_step.
    + by eapply solvent_step.
  - destruct IH as (Hinv & Hone & Hsol). split_and!; [done..|].
    intros tk. specialize (Hsol tk). specialize (Ht tk). cbn in *. lia.
Qed.

Lemma init_solvent (t0 : T) : (forall tk, 0 <= balance t0 tk self) -> solvent self (init_state, t0).
Proof. intros Ht tk. unfold owed. cbn. rewrite sum_map_empty. apply Ht. Qed.

(** C9: The contract never owes more than it holds.  In every state reachable
    under custody, for every token, the collateral and the unclaimed rewards
    the contract owes its stakers are covered by its balance, whatever the
    order of stakes, distributions, claims and withdrawals. *)
Theorem registry_solvent (t0 : T) (w : World T) tk :
  (forall tk, 0 <= balance t0 tk self) ->
  reachable custody respectful t0 w ->
  owed tk w.1 <= balance w.2 tk self.
Proof.
  intros Ht0 Hr. eapply steps_solvent; [exact Hr|apply stake_inv_init|by intros o st|].
  by apply init_solvent.
Qed.

(** Every staker can leave.  In every state reachable under custody, an
    organizer with collateral that signs [unstake_collateral] gets exactly its
    collateral back and is no staker any more: the withdrawal cannot fail, as
    long as the token executes covered transfers. *)
Theorem staker_can_exit `{!TokenTotal T} (t0 : T) s (t : T) o st env :
  (forall tk, 0 <= balance t0 tk self) ->
  reachable custody respectful t0 (s, t) ->
  k_OrganizerStake s !! o = Some st -> o <> self ->
  current_contract_address env = self -> o ∈ auths env ->
  exists s' t', unstake_collateral o env (s, t) = Done tt (s', t') /\
    k_OrganizerStake s' = delete o (k_OrganizerStake s) /\
    balance t' (stake_token st) o = balance t (stake_token st) o + stake_amount st.
Proof.
  intros Ht0 Hr Hst Hne Henv Hau.
  destruct (steps_solvent (init_state, t0) (s, t)) as (Hinv & _ & Hsol);
    [exact Hr|apply stake_inv_init|by intros ? ?|by apply init_solvent|]. cbn [fst snd] in *.
  pose proof (si_amount s Hinv _ _ Hst) as Ha. pose proof (owed_covers s o st Hinv Hst) as Hcov.
  specialize (Hsol (stake_token st)). cbn [fst snd] in Hsol.
  destruct (transfer_total (stake_token st) self o (stake_amount st) t) as [t' Ht']; [lia|].
  apply transfer_law in Ht' as Hlaw. destruct Hlaw as [_ Hbal].
  eexists _, t'. split; [|split; [|by rewrite Hbal, moved_in, bool_decide_true by auto]].
  - unfold unstake_collateral. run_step; [done|].
    eapply bind_total; [reflexivity|]. run_step; [exact Hst|].
    eapply bind_total; [reflexivity|].
    eapply bind_total; [unfold on_token; cbn [snd]; by rewrite Henv, Ht'|]. reflexivity.
  - done.
Qed.
End Solvency.

(** ** Proposals *)

(** What one call may do to the proposal [pid]. *)
Inductive prop_transition (c : Call) (env : Env) (s : State) (pid : Z)
    : option Proposal -> option Proposal -> Prop :=
  | pt_same o : prop_transition c env s pid o o
  | pt_propose proposer change expiry config p :
      c = ProposeParameterChange proposer change expiry ->
      proposer ∈ auths env -> k_MultiSigConfig s = Some config -> proposer ∈ cfg_admins config ->
      pid = storage.get_proposal_counter s -> prop_change p = change -> change_ok change ->
      prop_approvals p = [proposer] -> live p -> timestamp env <= prop_expires_at p ->
      prop_transition c env s pid None (Some p)
  | pt_approve approver config p :
      c = ApproveProposal approver pid ->
      approver ∈ auths env -> k_MultiSigConfig s = Some config -> approver ∈ cfg_admins config ->
      live p -> timestamp env <= prop_expires_at p -> approver ∉ prop_approvals p ->
      prop_transition c env s pid (Some p)
        (Some (p <| prop_approvals := prop_approvals p ++ [approver] |>))
  | pt_execute config p :
      (exists executor, c = ExecuteProposal executor pid /\ executor ∈ auths env /\
                        executor ∈ cfg_admins config) \/
      (exists fee admin, c = SetPlatformFeeCall fee /\ k_Admin s = Some admin /\
                         admin ∈ auths env /\ prop_change p = SetPlatformFee fee) ->
      k_MultiSigConfig s = Some config -> live p -> timestamp env <= prop_expires_at p ->
      cfg_threshold config <= len (prop_approvals p) ->
      prop_transition c env s pid (Some p) (Some (p <| prop_executed := true |>))
  | pt_cancel p :
      c = CancelProposal (prop_proposer p) pid -> prop_proposer p ∈ auths env -> live p ->
      prop_transition c env s pid (Some p) (Some (p <| prop_cancelled := true |>)).

Lemma prop_insert c env s pid x p (m m' : gmap Z Proposal) :
  m' = <[x := p]> m ->
  (x = pid -> prop_transition c env s pid (m !! pid) (Some p)) ->
  prop_transition c env s pid (m !! pid) (m' !! pid).
Proof.
  intros -> Htr. destruct (decide (x = pid)) as [->|Hne].
  - rewrite lookup_insert_eq. auto.
  - rewrite lookup_insert_ne by done. constructor.
Qed.

Section Proposals.
Implicit Types (s : State) (env : Env).

Lemma propose_transition proposer change expiry env s a s' pid :
  gov_inv s -> 0 <= expiry -> propose_parameter_change proposer change expiry env s = Done a s' ->
  prop_transition (ProposeParameterChange proposer change expiry) env s pid
    (k_Proposal s !! pid) (k_Proposal s' !! pid).
Proof.
  intros Hinv Hexp Hrun. unfold propose_parameter_change, storage.get_multisig_config in Hrun. run.
  match goal with Hv : validate_change _ _ _ _ = _ |- _ =>
    apply validate_change_Done in Hv as [-> Hch] end.
  assert (k_Proposal s !! storage.get_proposal_counter s = None) as Hnone.
  { apply eq_None_not_Some. intros [p Hp]. destruct (gi_proposals s Hinv _ _ Hp). lia. }
  unfold storage.add_active_proposal. bools. case_bool_decide;
    (eapply prop_insert; [reflexivity|]; cbn [prop_proposal_id]; intros <-; rewrite Hnone;
     eapply pt_propose; try done; [by apply dec_stable|]; cbn; case_match;
     unfold default_expiry; bools; lia).
Qed.

Lemma approve_transition approver x env s u s' pid :
  gov_inv s -> approve_proposal approver x env s = Done u s' ->
  prop_transition (ApproveProposal approver x) env s pid
    (k_Proposal s !! pid) (k_Proposal s' !! pid).
Proof.
  intros Hinv Hrun.
  unfold approve_proposal, storage.get_multisig_config, storage.get_proposal in Hrun. run. bools.
  case_bool_decide; run; [constructor|].
  match goal with Hp : k_Proposal s !! x = Some ?q |- _ => rename q into p; rename Hp into Hpx end.
  destruct (gi_proposals s Hinv _ _ Hpx) as [Hid _ _ _ _ _].
  eapply prop_insert; [reflexivity|]. upd_simpl. rewrite Hid. intros ->. rewrite Hpx.
  eapply pt_approve; try done; by apply dec_stable.
Qed.

Lemma execute_transition executor x env s u s' pid :
  gov_inv s -> execute_proposal executor x env s = Done u s' ->
  prop_transition (ExecuteProposal executor x) env s pid
    (k_Proposal s !! pid) (k_Proposal s' !! pid).
Proof.
  intros Hinv (config & p & Hau & Hcfg & Had & Hp & Hl & Hexp & Hthr & ->)%execute_proposal_Done.
  destruct (gi_proposals s Hinv _ _ Hp) as [Hid _ _ _ _ _].
  destruct (apply_change_proposals config (prop_change p) s) as (HP & _ & _).
  eapply prop_insert; [cbn; by rewrite HP|]. upd_simpl. rewrite Hid. intros ->. rewrite Hp.
  eapply pt_execute; try done. left. by eexists.
Qed.

Lemma cancel_transition proposer x env s u s' pid :
  gov_inv s -> cancel_proposal proposer x env s = Done u s' ->
  prop_transition (CancelProposal proposer x) env s pid
    (k_Proposal s !! pid) (k_Proposal s' !! pid).
Proof.
  intros Hinv Hrun. unfold cancel_proposal, storage.get_proposal in Hrun. run. bools.
  match goal with Hp : k_Proposal s !! x = Some ?q |- _ => rename q into p; rename Hp into Hpx end.
  match goal with Hn : ~ (_ <> _) |- _ => apply dec_stable in Hn; subst proposer end.
  destruct (gi_proposals s Hinv _ _ Hpx) as [Hid _ _ _ _ _].
  eapply prop_insert; [reflexivity|]. upd_simpl. rewrite Hid. intros ->. rewrite Hpx.
  by eapply pt_cancel.
Qed.

Lemma fee_transition fee env s u s' pid :
  gov_inv s -> set_platform_fee fee env s = Done u s' ->
  prop_transition (SetPlatformFeeCall fee) env s pid
    (k_Proposal s !! pid) (k_Proposal s' !! pid).
Proof.
  intros Hinv Hrun. unfold set_platform_fee, storage.get_multisig_config in Hrun. run.
  destruct (1 <? _); cbn [when] in *; run; [|constructor].
  match goal with Hf : find_approved_fee _ _ _ _ = Some ?y |- _ =>
    apply find_approved_fee_Some in Hf as (_ & p & Hp & Happ); rename y into x end.
  unfold storage.get_proposal in *. simplify_eq.
  destruct (gi_proposals s Hinv _ _ Hp) as [Hid _ _ _ _ _].
  eapply prop_insert; [reflexivity|]. upd_simpl. rewrite Hid. intros ->. rewrite Hp.
  unfold fee_approved in Happ. destruct (prop_change p) eqn:Hch; bools; try done.
  subst. by eapply pt_execute; [right; by eexists _, _|..].
Qed.

Lemma cleanup_transition env s n s' :
  cleanup_expired_proposals env s = Done n s' -> k_Proposal s' = k_Proposal s.
Proof.
  assert (respects (keeps k_Proposal) cleanup_expired_proposals) as Hk by (frame; reflexivity).
  apply Hk.
Qed.
End Proposals.

(** Who may replace the administrator, and with whom. *)
Definition admin_change (c : Call) (env : Env) (s : State) (a : Address) : Prop :=
  (exists w f u, c = Initialize a w f u /\ storage.is_initialized s = false) \/
  (c = AcceptAdmin /\ k_PendingAdmin s = Some a /\ a ∈ auths env) \/
  (exists executor pid p config, c = ExecuteProposal executor pid /\
     k_Proposal s !! pid = Some p /\ prop_change p = AddAdmin a /\ live p /\
     k_MultiSigConfig s = Some config /\ executor ∈ cfg_admins config /\ executor ∈ auths env /\
     cfg_threshold config <= len (prop_approvals p)).

(** Who may name a successor. *)
Definition successor_named (c : Call) (env : Env) (s : State) (a : Address) : Prop :=
  c = ProposeAdmin a /\ exists admin, k_Admin s = Some admin /\ admin ∈ auths env.

Definition touches_admin (c : Call) : bool :=
  match c with
  | Initialize _ _ _ _ | AcceptAdmin | ExecuteProposal _ _ => true
  | _ => false
  end.
Definition touches_pending (c : Call) : bool :=
  match c with ProposeAdmin _ | AcceptAdmin | CancelAdminProposal => true | _ => false end.

Lemma steps_respects {T} `{Token T} (R : State -> State -> Prop) `{!PreOrder R} ok others
    (w0 w : World T) :
  (forall hct c, respects (along R) (run_call (T := T) hct c)) ->
  steps ok others w0 w -> R w0.1 w.1.
Proof.
  intros Hc. apply (steps_inv (R w0.1)); [reflexivity|].
  intros hct c env s t s' t' _ Hrun Hs. etrans; [exact Hs|]. exact (Hc hct c env (s, t) tt (s', t') Hrun).
Qed.

Section Control.
Context {T : Type} `{TokenLaws T}.
Variable hct : Address -> string -> Address -> option bool.

Lemma admin_frame c : touches_admin c = false -> leaves (T := T) hct k_Admin c.
Proof.
  unfold leaves. intros Hc. destruct c; try discriminate Hc; cbn [run_call]; clear Hc; frame; writes.
Qed.

Lemma pending_frame c : touches_pending c = false -> leaves (T := T) hct k_PendingAdmin c.
Proof.
  unfold leaves. intros Hc. destruct c; try discriminate Hc; cbn [run_call]; clear Hc; frame; writes.
Qed.

Lemma admin_step c env s (t : T) u s' t' :
  run_call hct c env (s, t) = Done u (s', t') ->
  k_Admin s' = k_Admin s \/ exists a, k_Admin s' = Some a /\ admin_change c env s a.
Proof.
  intros Hrun. destruct (touches_admin c) eqn:Hc.
  2: { left. exact (admin_frame c Hc env (s, t) u (s', t') Hrun). }
  destruct c; try discriminate Hc; cbn [run_call] in Hrun;
    apply on_registry_Done in Hrun as (sx & Hrun & [= -> ->]); cbn [fst] in *.
  - right. unfold initialize in Hrun. run. eexists. split; [reflexivity|]. left. eauto.
  - right. unfold accept_admin, storage.get_pending_admin in Hrun. run.
    match goal with Hp : k_PendingAdmin s = Some ?x |- _ => exists x end.
    split; [|right; left; done]. repeat case_match; run; reflexivity.
  - apply execute_proposal_Done in Hrun
      as (config & p & Hau & Hcfg & Had & Hp & Hl & Hexp & Hthr & ->).
    destruct (prop_change p) eqn:Hch; cbn [apply_change];
      try (left; unfold storage.set_multisig_config; repeat case_match; reflexivity).
    right. eexists. split; [reflexivity|]. right. right. by eexists _, _, _, _.
Qed.

Lemma pending_step c env s (t : T) u s' t' :
  run_call hct c env (s, t) = Done u (s', t') ->
  k_PendingAdmin s' = k_PendingAdmin s \/ k_PendingAdmin s' = None \/
  exists a, k_PendingAdmin s' = Some a /\ successor_named c env s a.
Proof.
  intros Hrun. destruct (touches_pending c) eqn:Hc.
  2: { left. exact (pending_frame c Hc env (s, t) u (s', t') Hrun). }
  destruct c; try discriminate Hc; cbn [run_call] in Hrun;
    apply on_registry_Done in Hrun as (sx & Hrun & [= -> ->]); cbn [fst] in *.
  - right. right. unfold propose_admin in Hrun. run. eexists. split; [reflexivity|]. split; [done|]. eauto.
  - right. left. unfold accept_admin in Hrun. run. reflexivity.
  - right. left. unfold cancel_admin_proposal in Hrun. run. reflexivity.
Qed.

(** The arguments are in the range of their types. *)
Definition typed (c : Call) : Prop :=
  match c with
  | ProposeParameterChange _ _ expiry => 0 <= expiry
  | IssueSeriesPass _ _ _ limit _ => 0 <= limit
  | _ => True
  end.

Lemma proposal_transition c env s (t : T) u s' t' pid :
  gov_inv s -> typed c -> run_call hct c env (s, t) = Done u (s', t') ->
  prop_transition c env s pid (k_Proposal s !! pid) (k_Proposal s' !! pid).
Proof.
  intros Hinv Hty Hrun. destruct (touches_gov c) eqn:Hc.
  2: { pose proof (gov_frame hct c Hc env (s, t) u (s', t') Hrun) as [= -> _ _ _]. constructor. }
  destruct c; try discriminate Hc; cbn [run_call] in Hrun;
    apply on_registry_Done in Hrun as (sx & Hrun & [= -> ->]); cbn [fst] in *.
  - unfold initialize in Hrun. run. constructor.
  - by eapply fee_transition.
  - exec. by eapply propose_transition.
  - by eapply approve_transition.
  - by eapply execute_transition.
  - by eapply cancel_transition.
  - exec. match goal with Hcl : cleanup_expired_proposals _ _ = _ |- _ =>
      apply cleanup_transition in Hcl; rewrite Hcl end. constructor.
Qed.

(** *** What stays for good *)

(** Processed messages stay processed, and the contract stays initialised. *)
Definition remembers (s s' : State) : Prop :=
  (forall h, storage.is_teleport_processed h s = true ->
             storage.is_teleport_processed h s' = true) /\
  (storage.is_initialized s = true -> storage.is_initialized s' = true).

#[export] Instance remembers_preorder : PreOrder remembers.
Proof. unfold remembers. split; [done|]. intros s1 s2 s3 [] []. split; eauto. Qed.

Lemma keeps_remembers s s' :
  keeps (fun s => (k_Teleport s, k_Initialized s)) s s' -> remembers s s'.
Proof.
  intros [= HT HI]. unfold remembers, storage.is_teleport_processed, storage.is_initialized.
  by rewrite HT, HI.
Qed.

Definition touches_memory (c : Call) : bool :=
  match c with
  | Initialize _ _ _ _ | MintCrossChainTicket _ _ _ _ _ _ _ => true | _ => false
  end.

Lemma memory_frame c : touches_memory c = false ->
  leaves (T := T) hct (fun s => (k_Teleport s, k_Initialized s)) c.
Proof.
  unfold leaves. intros Hc. destruct c; try discriminate Hc; cbn [run_call]; clear Hc; frame; writes.
Qed.

Lemma mint_remembers ch h r tid sigs id q env s u s' :
  mint_cross_chain_ticket ch h r tid sigs id q env s = Done u s' ->
  k_Teleport s' = <[h := true]> (k_Teleport s) /\ k_Initialized s' = k_Initialized s /\
  is_Some (k_BridgeConfig s).
Proof.
  intros Hrun. unfold mint_cross_chain_ticket in Hrun. run.
  assert (respects (keeps (fun s => (k_Teleport s, k_Initialized s)))
            (execute_teleport_mint r tid id q)) as Hk by (frame; reflexivity).
  apply Hk in Hrun as [= -> ->]. eauto.
Qed.

Lemma remembers_call c : respects (along remembers) (run_call (T := T) hct c).
Proof.
  intros env [s t] u [s' t'] Hrun. unfold along. cbn [fst].
  destruct (touches_memory c) eqn:Hc.
  2: { apply keeps_remembers. exact (memory_frame c Hc env (s, t) u (s', t') Hrun). }
  destruct c; try discriminate Hc; cbn [run_call] in Hrun;
    apply on_registry_Done in Hrun as (sx & Hrun & [= -> ->]); cbn [fst] in *.
  - unfold initialize in Hrun. run. by split.
  - apply mint_remembers in Hrun as (HT & HI & _).
    unfold remembers, storage.is_teleport_processed, storage.is_initialized. rewrite HT, HI.
    split; [|done]. intros h Hh. destruct (decide (tx_hash = h)) as [->|Hne].
    + by rewrite lookup_insert_eq.
    + by rewrite lookup_insert_ne.
Qed.

Lemma bridge_frame c : leaves (T := T) hct k_BridgeConfig c.
Proof. unfold leaves. destruct c; cbn [run_call]; frame; writes. Qed.

End Control.

Section Theorems.
Context {T : Type} `{TokenLaws T}.
Variable hct : Address -> string -> Address -> option bool.

(** ** Properties *)

(** C29: The life cycle of a proposal.  In a reachable state a successful call
    changes a proposal only by: creating it under the next number, by an
    authenticated admin and with that admin's approval alone; adding the
    approval of an authenticated admin that had not approved it; marking it as
    executed, with at least the threshold of approvals and before it expires;
    or cancelling it, by its proposer.  Executed and cancelled proposals never
    change again. *)
Theorem proposal_life_cycle others t0 (w w' : World T) c env pid :
  reachable any_call others t0 w -> typed c ->
  run_call hct c env w = Done tt w' ->
  prop_transition c env w.1 pid (k_Proposal w.1 !! pid) (k_Proposal w'.1 !! pid) /\
  (forall p, k_Proposal w.1 !! pid = Some p -> ~ live p -> k_Proposal w'.1 !! pid = Some p).
Proof.
  intros Hr Hty Hrun. destruct w as [s t], w' as [s' t']. cbn [fst].
  assert (gov_inv s) as Hinv.
  { change (gov_inv (s, t).1). eapply maintains_steps; [apply gov_maintained| |exact Hr].
    apply gov_inv_init. }
  pose proof (proposal_transition hct c env s t tt s' t' pid Hinv Hty Hrun) as Htr. split; [done|].
  intros p Hp Hl. rewrite Hp in Htr. by inversion Htr; subst.
Qed.

(** The administrator changes hands only by the one initialisation, by an
    address the administrator had named and that accepted with its own
    signature, or by an executed proposal with the threshold of approvals; and
    only the authenticated administrator names a successor. *)
Theorem admin_succession c env s (t : T) s' t' :
  run_call hct c env (s, t) = Done tt (s', t') ->
  (k_Admin s' = k_Admin s \/ exists a, k_Admin s' = Some a /\ admin_change c env s a) /\
  (k_PendingAdmin s' = k_PendingAdmin s \/ k_PendingAdmin s' = None \/
   exists a, k_PendingAdmin s' = Some a /\ successor_named c env s a).
Proof. intros Hrun. split; [by eapply admin_step|by eapply pending_step]. Qed.

(** The contract is initialised once: after a successful [initialize] and
    any further calls, every [initialize] is refused. *)
Theorem initialized_once a0 w0 f0 u0 env0 (w1 w2 w3 : World T) others a wa f u env :
  run_call hct (Initialize a0 w0 f0 u0) env0 w1 = Done tt w2 ->
  steps any_call others w2 w3 ->
  run_call hct (Initialize a wa f u) env w3 = Fail AlreadyInitialized.
Proof.
  intros Hrun Hsteps.
  destruct (steps_respects remembers _ _ _ _ remembers_call Hsteps) as [_ Hinit].
  destruct w1 as [s1 t1], w2 as [s2 t2], w3 as [s3 t3]. cbn [run_call fst] in *.
  apply on_registry_Done in Hrun as (sx & Hrun & [= -> ->]).
  unfold initialize in Hrun. run. unfold on_registry, zoom, initialize. cbn [fst].
  run_step. by rewrite Hinit.
Qed.

(** A cross-chain message mints at most once: after a mint for a
    transaction hash and any further calls, every mint for the same hash is
    refused as a replay, whatever its other arguments. *)
Theorem teleport_not_replayed ch h r tid sigs id q env0 (w1 w2 w3 : World T) others
    ch' r' tid' sigs' id' q' env :
  run_call hct (MintCrossChainTicket ch h r tid sigs id q) env0 w1 = Done tt w2 ->
  steps any_call others w2 w3 ->
  run_call hct (MintCrossChainTicket ch' h r' tid' sigs' id' q') env w3
    = Fail ReplayAttackDetected.
Proof.
  intros Hrun Hsteps.
  destruct (steps_respects remembers _ _ _ _ remembers_call Hsteps) as [Htele _].
  destruct w1 as [s1 t1], w2 as [s2 t2], w3 as [s3 t3]. cbn [run_call fst] in *.
  apply on_registry_Done in Hrun as (sx & Hrun & [= -> ->]).
  apply mint_remembers in Hrun as (HT & _ & _).
  unfold on_registry, zoom, mint_cross_chain_ticket. cbn [fst]. run_step. rewrite Htele; [done|].
  unfold storage.is_teleport_processed. by rewrite HT, lookup_insert_eq.
Qed.

(** The cross-chain mint is unreachable: no entry point stores a bridge
    configuration, so in every state a deployed contract reaches,
    [mint_cross_chain_ticket] fails with [NotInitialized]. *)
Theorem bridge_unreachable others t0 (w : World T) ch h r tid sigs id q env :
  reachable any_call others t0 w ->
  run_call hct (MintCrossChainTicket ch h r tid sigs id q) env w = Fail NotInitialized.
Proof.
  intros Hr.
  assert (k_BridgeConfig w.1 = None /\ k_Teleport w.1 = ∅) as [Hb Ht].
  { eapply (steps_inv (fun s => k_BridgeConfig s = None /\ k_Teleport s = ∅));
      [| |exact Hr]; [by split|].
    intros hct' c env1 s t s' t' _ Hrun [Hb Ht].
    pose proof (bridge_frame hct' c env1 (s, t) tt (s', t') Hrun) as Hb'. unfold along, keeps in Hb'.
    cbn [fst] in Hb'. split; [congruence|]. destruct (touches_memory c) eqn:Hc.
    - destruct c; try discriminate Hc; cbn [run_call] in Hrun;
        apply on_registry_Done in Hrun as (sx & Hrun & [= -> ->]); cbn [fst] in *.
      + unfold initialize in Hrun. run. exact Ht.
      + apply mint_remembers in Hrun as (_ & _ & [b Hb2]). congruence.
    - pose proof (memory_frame hct' c Hc env1 (s, t) tt (s', t') Hrun) as [= HT _]. congruence. }
  destruct w as [s t]. cbn [fst run_call] in *. unfold on_registry, zoom, mint_cross_chain_ticket.
  cbn [fst]. run_step. unfold storage.is_teleport_processed. rewrite Ht, lookup_empty.
  run_step; [done|]. run_step. unfold storage.get_bridge_config. by rewrite Hb.
Qed.

(** A pass is never used beyond its limit: in every reachable state, every
    series pass is stored under its identifier, with a usage count between zero
    and its limit (when it has one). *)
Theorem passes_within_limits others t0 (w : World T) :
  reachable (fun c _ _ => typed c) others t0 w -> passes_ok w.1.
Proof.
  intros Hr. eapply (steps_inv passes_ok); [| |exact Hr]; [apply passes_ok_init|].
  intros hct' c env s t s' t' Hty Hrun Hok. destruct (touches_passes c) eqn:Hc.
  2: { eapply passes_ok_frame; [|exact Hok]. exact (passes_frame hct' c Hc env (s, t) tt (s', t') Hrun). }
  destruct c; try discriminate Hc; cbn [run_call] in Hrun;
    apply on_registry_Done in Hrun as (sx & Hrun & [= -> ->]); cbn [fst typed] in *.
  - by eapply issue_pass_ok.
  - by eapply use_pass_ok.
Qed.
End Theorems.

(** ** Witnesses *)
Module Custody.
Definition tokens : Ledger :=
  mkLedger {[ ("USDC", "ORG") := 1000; ("USDC", "ADM") := 500 ]}
           {[ ("USDC", "ORG", "REG") := 1000; ("USDC", "ADM", "REG") := 500 ]}.
Definition calls : list (Env * Call) :=
  [ (Sample.env 10 ["ADM"], Initialize "ADM" "WALLET" 500 "USDC");
    (Sample.env 20 ["ADM"], SetStakingConfig "USDC" 100);
    (Sample.env 30 ["ORG"], StakeCollateral "ORG" 300);
    (Sample.env 40 ["ADM"], DistributeStakerRewards "ADM" 50) ].
Definition world : World Ledger :=
  default (init_state, tokens) (replay Trace.ticket_confirmed calls (init_state, tokens)).

Lemma covered tk : 0 <= balance tokens tk "REG".
Proof.
  cbn. unfold Ledger.bal, tokens. cbn.
  destruct (_ !! _) as [z|] eqn:Hz; [|done].
  apply lookup_insert_Some in Hz as [[[=] _]|[_ [[=] _]%lookup_singleton_Some]].
Qed.

Lemma world_reached :
  replay Trace.ticket_confirmed calls (init_state, tokens) = Some world.
Proof. vm_compute. reflexivity. Qed.

Lemma calls_reach w :
  replay Trace.ticket_confirmed calls (init_state, tokens) = Some w ->
  reachable (custody "REG") (respectful "REG") tokens w.
Proof.
  intros Hrun. unfold calls in Hrun.
  apply replay_cons in Hrun as (w1 & H1 & Hrun). apply replay_cons in Hrun as (w2 & H2 & Hrun).
  apply replay_cons in Hrun as (w3 & H3 & Hrun). apply replay_cons in Hrun as (w4 & H4 & Hrun).
  injection Hrun as <-.
  eapply steps_call; [| |exact H4]; [|split_and!; [reflexivity|set_solver|done]].
  eapply steps_call; [| |exact H3]; [|split_and!; [reflexivity|set_solver|done]].
  eapply steps_call; [| |exact H2]; [|split_and!; [reflexivity|set_solver|]].
  - eapply steps_call; [apply steps_refl| |exact H1]. split_and!; [reflexivity|set_solver|done].
  - intros o st Hst. pose proof (stake_frame Trace.ticket_confirmed (Initialize "ADM" "WALLET" 500 "USDC")
      eq_refl _ _ _ _ H1) as [= HO _ _]. rewrite HO in Hst. by apply lookup_empty_Some in Hst.
Qed.

Lemma custody_reachable :
  reachable (custody "REG") (respectful "REG") tokens world.
Proof. apply calls_reach, world_reached. Qed.
End Custody.

Lemma registry_solvent_witness :
  owed "USDC" Custody.world.1 = 350 /\
  owed "USDC" Custody.world.1 <= balance Custody.world.2 "USDC" "REG".
Proof.
  split; [vm_compute; reflexivity|].
  apply (registry_solvent "REG" Custody.tokens Custody.world "USDC").
  - apply Custody.covered.
  - apply Custody.custody_reachable.
Defined.

Lemma staker_can_exit_witness :
  exists st s' t',
    unstake_collateral "ORG" (Sample.env 60 ["ORG"]) (Custody.world.1, Custody.world.2)
      = Done tt (s', t') /\
    k_OrganizerStake s' = delete "ORG" (k_OrganizerStake Custody.world.1) /\
    balance t' (stake_token st) "ORG"
      = balance Custody.world.2 (stake_token st) "ORG" + stake_amount st.
Proof.
  destruct (k_OrganizerStake Custody.world.1 !! "ORG") as [st|] eqn:Hst;
    [|vm_compute in Hst; discriminate Hst].
  exists st.
  apply (staker_can_exit "REG" Custody.tokens Custody.world.1
           Custody.world.2 "ORG" st (Sample.env 60 ["ORG"])).
  - apply Custody.covered.
  - rewrite <- surjective_pairing. apply Custody.custody_reachable.
  - exact Hst.
  - done.
  - done.
  - by left.
Defined.

Lemma proposal_life_cycle_witness :
  let w := Trace.world Trace.sale_calls in
  let c := ProposeParameterChange "ADM" (SetPlatformFee 300) 0 in
  let env := Sample.env 50 ["ADM"] in
  let w' := Trace.world (Trace.sale_calls ++ [(env, c)]) in
  prop_transition c env w.1 0 (k_Proposal w.1 !! 0) (k_Proposal w'.1 !! 0) /\
  (forall p, k_Proposal w.1 !! 0 = Some p -> ~ live p -> k_Proposal w'.1 !! 0 = Some p).
Proof.
  intros w c env w'.
  apply (proposal_life_cycle Trace.ticket_confirmed Trace.still Trace.tokens w w').
  - apply Trace.world_reachable; [done|]. vm_compute. reflexivity.
  - done.
  - vm_compute. reflexivity.
Defined.

Lemma admin_succession_witness :
  let s := Sample.state <| k_PendingAdmin := Some "NEW" |> in
  let env := Sample.env 50 ["NEW"] in
  let s' := invoke accept_admin env s in
  (k_Admin s' = k_Admin s \/ exists a, k_Admin s' = Some a /\ admin_change AcceptAdmin env s a) /\
  (k_PendingAdmin s' = k_PendingAdmin s \/ k_PendingAdmin s' = None \/
   exists a, k_PendingAdmin s' = Some a /\ successor_named AcceptAdmin env s a).
Proof.
  intros s env s'.
  apply (admin_succession Trace.ticket_confirmed AcceptAdmin env s Trace.tokens s' Trace.tokens).
  vm_compute. reflexivity.
Defined.

Lemma initialized_once_witness :
  let w3 := Trace.world Trace.sale_calls in
  run_call Trace.ticket_confirmed (Initialize "EVE" "EVE" 10000 "USDC")
    (Sample.env 99 ["EVE"]) w3 = Fail AlreadyInitialized.
Proof.
  intros w3.
  apply (initialized_once Trace.ticket_confirmed "ADM" "WALLET" 500 "USDC"
           (Sample.env 10 ["ADM"]) (init_state, Trace.tokens)
           (Trace.world (take 1 Trace.sale_calls)) w3 Trace.still).
  - vm_compute. reflexivity.
  - apply (replay_steps Trace.ticket_confirmed _ _ (drop 1 Trace.sale_calls)); [done|]. vm_compute. reflexivity.
Defined.

Lemma teleport_not_replayed_witness :
  let s := Sample.state <| k_BridgeConfig :=
    Some {| br_relayer_pubkeys := ["R1"]; br_threshold := 1; br_nonce := 0 |} |> in
  let w2 := invoke (run_call Trace.ticket_confirmed
              (MintCrossChainTicket 1 "h7" "BOB" "gen" ["s9"] "e1" 1)) (Sample.env 60 []) (s, Trace.tokens) in
  run_call Trace.ticket_confirmed (MintCrossChainTicket 2 "h7" "EVE" "gen" ["s1"] "e1" 3)
    (Sample.env 70 ["EVE"]) w2 = Fail ReplayAttackDetected.
Proof.
  intros s w2.
  apply (teleport_not_replayed Trace.ticket_confirmed 1 "h7" "BOB" "gen" ["s9"] "e1" 1
           (Sample.env 60 []) (s, Trace.tokens) w2 w2 Trace.still).
  - apply returned_invoke. vm_compute. reflexivity.
  - apply steps_refl.
Defined.

Lemma bridge_unreachable_witness :
  run_call Trace.ticket_confirmed (MintCrossChainTicket 1 "h7" "BOB" "gen" ["s9"] "e2" 1)
    (Sample.env 60 ["ADM"]) (Trace.world Trace.sale_calls) = Fail NotInitialized.
Proof.
  apply (bridge_unreachable Trace.ticket_confirmed Trace.still Trace.tokens).
  apply Trace.world_reachable; [done|]. vm_compute. reflexivity.
Defined.

Lemma passes_within_limits_witness :
  let calls := Trace.sale_calls ++
    [ (Sample.env 50 ["ORG"], RegisterSeries "sr" "Tour" ["e2"] "ORG" None);
      (Sample.env 60 ["ORG"], IssueSeriesPass "p1" "sr" "BOB" 2 900);
      (Sample.env 70 ["BOB"], IncrementSeriesPassUsage "p1") ] in
  passes_ok (Trace.world calls).1.
Proof.
  intros calls. apply (passes_within_limits Trace.still Trace.tokens).
  apply Trace.world_reachable; [|vm_compute; reflexivity].
  intros env c w Hin. cbn in Hin. by repeat (apply elem_of_cons in Hin as [[= -> ->]|Hin]); [..|set_solver].
Defined.
