(* ===== verification/RegistrySeats.v ===== *)
(** * Event registry: the sold seats of a tier

    What single calls do to the counter of a tier, in the form in which another
    contract relies on it. *)

From stdpp Require Import base tactics numbers list strings gmap.
From S2P Require Import Prelude.
From S2P Require Import Soroban.
From S2P Require Import Token.
From S2P Require Import RegistryTypes.
From S2P Require Import RegistryStorage.
From S2P Require Import RegistryEvents.
From S2P Require Import RegistryInventory.
From S2P Require Import RegistryAdmin.
From S2P Require Import RegistryLifecycle.
From S2P Require Import RegistryStaking.
From S2P Require Import RegistryDispute.
From S2P Require Import RegistryCommunity.
From S2P Require Import Registry.
From S2P Require Import RegistryHistory.

(** The seats that an event has sold in a tier. *)
Definition event_sold (o : option EventInfo) (tid : string) : Z :=
  from_option (fun e => from_option tier_current_sold 0 (ev_tiers e !! tid)) 0 o.
Definition seats_sold (s : State) (k : string * string) : Z := event_sold (k_Event s !! k.1) k.2.

Lemma event_sold_sell tid t q e tid' :
  ev_tiers e !! tid = Some t ->
  event_sold (Some (sell tid t q e)) tid'
  = event_sold (Some e) tid' + (if bool_decide (tid' = tid) then q else 0).
Proof.
  intros Ht. unfold event_sold, sell. cbn [from_option]. upd_simpl. case_bool_decide as Heq.
  - subst tid'. rewrite lookup_insert_eq, Ht. done.
  - rewrite lookup_insert_ne by done. lia.
Qed.

(** One event is replaced by its sale. *)
Lemma seats_sold_sell s s' id tid t q e e' k :
  k_Event s !! id = Some e -> ev_tiers e !! tid = Some t -> ev_tiers e' = ev_tiers (sell tid t q e) ->
  k_Event s' = <[id := e']> (k_Event s) ->
  seats_sold s' k = seats_sold s k + (if bool_decide (k = (id, tid)) then q else 0).
Proof.
  intros He Ht Hsell Hs'. destruct k as [id' tid']. unfold seats_sold. cbn [fst snd]. rewrite Hs'.
  destruct (decide (id' = id)) as [->|Hne].
  - rewrite lookup_insert_eq, He. pose proof (event_sold_sell tid t q e tid' Ht) as Hse.
    unfold event_sold in *. cbn [from_option] in *. rewrite Hsell, Hse. f_equal.
    by repeat case_bool_decide; simplify_eq.
  - rewrite lookup_insert_ne by done. rewrite bool_decide_false by congruence. lia.
Qed.

Lemma increment_seats id tid user q token env s u s' :
  keyed (k_Event s) -> increment_inventory id tid user q token env s = Done u s' ->
  forall k, seats_sold s' k = seats_sold s k + (if bool_decide (k = (id, tid)) then q else 0).
Proof.
  intros Hk (e & t & Hadm & [He _ _])%increment_inventory_Done k; [|done].
  eapply seats_sold_sell; [apply (adm_event _ _ _ _ _ _ _ _ _ Hadm)|apply (adm_tier _ _ _ _ _ _ _ _ _ Hadm)
    | |exact He]. done.
Qed.

Lemma decrement_seats id tid env s u s' :
  keyed (k_Event s) -> decrement_inventory id tid env s = Done u s' ->
  forall k, seats_sold s' k = seats_sold s k + (if bool_decide (k = (id, tid)) then -1 else 0).
Proof.
  intros Hk (e & t & He & Ht & _ & _ & _ & Hs & _)%decrement_inventory_Done k; [|done].
  by eapply seats_sold_sell.
Qed.

Section Calls.
Context {T : Type} `{TokenLaws T}.
Variable hct : Address -> string -> Address -> option bool.

(** A fair call that the registered payment contract did not sign takes no seat
    back, unless it archives the event. *)
Lemma seats_kept c env s (t : T) u s' t' k :
  events_inv s -> fair c s -> c <> ArchiveEvent k.1 ->
  (forall tp, k_TicketPaymentContract s = Some tp -> tp ∉ auths env) ->
  run_call hct c env (s, t) = Done u (s', t') -> seats_sold s k <= seats_sold s' k.
Proof.
  intros Hinv Hfair Hna Hau Hrun. unfold seats_sold.
  pose proof (event_transition hct c env s t u s' t' k.1 Hinv Hrun) as Htr.
  assert (He : forall e, k_Event s !! k.1 = Some e -> k_Event s !! k.1 = Some e) by done.
  revert Htr He. generalize (k_Event s !! k.1) at 1 2 4 as o. intros o Htr He.
  inversion Htr; subst; cbn [event_sold from_option]; try done.
  - unfold new_event. cbn [ev_tiers]. destruct (args_tiers args !! k.2) as [x|] eqn:Hx; [|done].
    cbn. by destruct (Hfair _ _ Hx) as [-> _].
  - destruct c; try discriminate; cbn in *; simplify_eq.
    all: repeat match goal with
      | Hx : exists _, _ |- _ => destruct Hx | Hx : _ /\ _ |- _ => destruct Hx end; subst; upd_simpl; try done.
    + destruct (decide (k.2 = tier_id)) as [->|?]; [|by rewrite lookup_insert_ne].
      rewrite lookup_insert_eq. match goal with Hx : forall e, _ -> ev_tiers e !! _ = None |- _ =>
        rewrite (Hx e (He e eq_refl)) end.
      cbn. match goal with Hx : tier_fresh _ |- _ => by destruct Hx as [-> _] end.
    + destruct (decide (k.2 = tier_id)) as [->|?]; [|by rewrite lookup_insert_ne].
      rewrite lookup_insert_eq. match goal with Hx : ev_tiers e !! _ = Some _ |- _ => by rewrite Hx end.
    + exfalso. by eapply Hau.
    + exfalso. by eapply Hau.
    + change (event_sold (Some e) k.2 <= event_sold (Some (sell tier_id x quantity e)) k.2).
      rewrite event_sold_sell by done. case_bool_decide; lia.
Qed.
End Calls.
