(* ===== verification/ProSubscription.v ===== *)
(** * The Pro subscription contract

    [pro_subscription/src]: organizers pay for Pro membership by the month.  The
    storage is the record [State] (one field per key of [types.rs]), the token
    contracts are the interface [Token], and each entry point is a computation
    over both.  Expiry is lazy: whoever reads a subscription first takes an
    expired member off the list ([get_subscription_with_expiration]). *)

From stdpp Require Import base tactics numbers list strings gmap.
From S2P Require Import Prelude.
From S2P Require Import Soroban.
From S2P Require Import Token.

(** ** Data *)
Inductive ProSubscriptionError :=
  | AlreadyInitialized | NotInitialized | SubscriptionNotFound | SubscriptionExpired
  | InvalidPrice | ArithmeticError | InvalidAddress | SubscriptionAlreadyActive | SameAdmin.

Definition SECONDS_PER_MONTH : Z := 30 * 24 * 60 * 60.
Definition MAX_BPS : Z := 10000.
Definition DISCOUNT_BPS_3_MONTHS : Z := 500.
Definition DISCOUNT_BPS_6_MONTHS : Z := 1000.
Definition DISCOUNT_BPS_12_MONTHS : Z := 2000.

Inductive SubscriptionTier := Basic | Pro.
#[export] Instance SubscriptionTier_eq_dec : EqDecision SubscriptionTier.
Proof. solve_decision. Defined.

Record Subscription := mkSubscription {
  sub_organizer : Address;
  sub_tier : SubscriptionTier;
  sub_started_at : Z; (* u64 *)
  sub_expires_at : Z; (* u64 *)
  sub_is_active : bool;
  sub_amount_paid : Z; (* i128 *)
  sub_payment_token : Address;
}.
#[export] Instance Subscription_eta : Eta Subscription := fun x =>
  mkSubscription (sub_organizer x) (sub_tier x) (sub_started_at x) (sub_expires_at x)
    (sub_is_active x) (sub_amount_paid x) (sub_payment_token x).

Inductive ProSubscriptionEvent :=
  | ContractInitialized (admin platform_wallet payment_token : Address) (price timestamp : Z)
  | SubscriptionCreated (organizer : Address) (tier : SubscriptionTier)
      (amount_paid expires_at timestamp : Z)
  | SubscriptionRenewed (organizer : Address) (amount_paid new_expiry timestamp : Z)
  | SubscriptionCancelled (organizer cancelled_by : Address) (timestamp : Z)
  | SubscriptionExpiredEvent (organizer : Address) (expires_at timestamp : Z)
  | PriceUpdated (old_price new_price : Z) (updated_by : Address) (timestamp : Z)
  | ProMemberAdded (organizer : Address) (timestamp : Z)
  | ProMemberRemoved (organizer : Address) (timestamp : Z)
  | AdminUpdated (old_admin new_admin updated_by : Address) (timestamp : Z)
  | PlatformWalletUpdated (old_wallet new_wallet updated_by : Address) (timestamp : Z)
  | PaymentTokenUpdated (old_token new_token updated_by : Address) (timestamp : Z).

(** The storage, by the keys of [DataKey], and the published events. *)
Record State := mkState {
  p_Admin : option Address;
  p_Initialized : option bool;
  p_PlatformWallet : option Address;
  p_ProMonthlyPrice : option Z;
  p_Subscription : gmap Address Subscription;
  p_ProMembersList : option (list Address);
  p_TotalProSubscriptions : option Z;
  p_PaymentToken : option Address;
  p_log : list ProSubscriptionEvent;
}.
#[export] Instance State_eta : Eta State := fun s =>
  mkState (p_Admin s) (p_Initialized s) (p_PlatformWallet s) (p_ProMonthlyPrice s)
    (p_Subscription s) (p_ProMembersList s) (p_TotalProSubscriptions s) (p_PaymentToken s)
    (p_log s).

Definition empty_state : State := mkState None None None None ∅ None None None [].

Abbreviation R := (M State ProSubscriptionError).

Definition publish (e : ProSubscriptionEvent) : R unit :=
  modify (fun s => s <| p_log := p_log s ++ [e] |>).

(** ** Storage ([storage.rs]) *)
Definition get_admin (s : State) : option Address := p_Admin s.
Definition set_admin (admin : Address) (s : State) : State := s <| p_Admin := Some admin |>.
Definition is_initialized (s : State) : bool := default false (p_Initialized s).
Definition set_initialized (b : bool) (s : State) : State := s <| p_Initialized := Some b |>.
Definition get_platform_wallet (s : State) : option Address := p_PlatformWallet s.
Definition set_platform_wallet (w : Address) (s : State) : State :=
  s <| p_PlatformWallet := Some w |>.
Definition get_payment_token (s : State) : option Address := p_PaymentToken s.
Definition set_payment_token (t : Address) (s : State) : State :=
  s <| p_PaymentToken := Some t |>.
Definition get_pro_monthly_price (s : State) : Z := default 0 (p_ProMonthlyPrice s).
Definition set_pro_monthly_price (price : Z) (s : State) : State :=
  s <| p_ProMonthlyPrice := Some price |>.

Definition get_subscription (organizer : Address) (s : State) : option Subscription :=
  p_Subscription s !! organizer.
Definition set_subscription (x : Subscription) (s : State) : State :=
  s <| p_Subscription := <[sub_organizer x := x]> (p_Subscription s) |>.
Definition remove_subscription (organizer : Address) (s : State) : State :=
  s <| p_Subscription := delete organizer (p_Subscription s) |>.

Definition get_pro_members_list (s : State) : list Address := default [] (p_ProMembersList s).

Definition add_to_pro_members_list (organizer : Address) (s : State) : State :=
  let list := get_pro_members_list s in
  if bool_decide (organizer ∈ list) then s
  else s <| p_ProMembersList := Some (list ++ [organizer]) |>.

(** [list.remove(index)] of the first position that holds [x]. *)
Fixpoint remove_first (x : Address) (l : list Address) : list Address :=
  match l with
  | [] => []
  | y :: l => if bool_decide (y = x) then l else y :: remove_first x l
  end.

Definition remove_from_pro_members_list (organizer : Address) (s : State) : State :=
  let list := get_pro_members_list s in
  if bool_decide (organizer ∈ list)
  then s <| p_ProMembersList := Some (remove_first organizer list) |> else s.

Definition get_total_pro_subscriptions (s : State) : Z := default 0 (p_TotalProSubscriptions s).

Definition increment_total_pro_subscriptions : R unit :=
  current ← gets get_total_pro_subscriptions;
  count ← add_ U32 current 1;
  modify (fun s => s <| p_TotalProSubscriptions := Some count |>).

Definition decrement_total_pro_subscriptions (s : State) : State :=
  s <| p_TotalProSubscriptions := Some (saturating_sub U32 (get_total_pro_subscriptions s) 1) |>.

(** ** Helpers *)
Definition validate_address (addr : Address) : R unit :=
  self ← contract_address;
  throw_if (bool_decide (addr = self)) InvalidAddress.

Definition require_admin : R Address :=
  o ← gets get_admin;
  admin ← ok_or o NotInitialized;
  require_auth admin;;
  mret admin.

Definition discount_bps (months : Z) : Z :=
  if 12 <=? months then DISCOUNT_BPS_12_MONTHS
  else if 6 <=? months then DISCOUNT_BPS_6_MONTHS
  else if 3 <=? months then DISCOUNT_BPS_3_MONTHS
  else 0.

(** The price of [months] months; [None] is [ArithmeticError]. *)
Definition subscription_price (monthly_price months : Z) : option Z :=
  v ← checked_mul I128 monthly_price months;
  v ← checked_mul I128 v (MAX_BPS - discount_bps months);
  checked_div I128 v MAX_BPS.

Definition calculate_subscription_price (monthly_price months : Z) : R Z :=
  ok_or (subscription_price monthly_price months) ArithmeticError.

Definition get_subscription_with_expiration (organizer : Address) : R (option Subscription) :=
  o ← gets (get_subscription organizer);
  match o with
  | None => mret None
  | Some subscription =>
      now ← ledger_timestamp;
      if bool_decide (sub_tier subscription = Pro) && sub_is_active subscription
         && (sub_expires_at subscription <=? now)
      then
        let subscription := subscription <| sub_is_active := false |> in
        modify (set_subscription subscription);;
        modify (remove_from_pro_members_list organizer);;
        modify decrement_total_pro_subscriptions;;
        publish (SubscriptionExpiredEvent organizer (sub_expires_at subscription) now);;
        mret (Some subscription)
      else mret (Some subscription)
  end.

(** ** Entry points *)
Definition initialize (admin platform_wallet payment_token : Address) (pro_monthly_price : Z)
    : R unit :=
  init ← gets is_initialized;
  throw_if init AlreadyInitialized;;
  validate_address admin;;
  validate_address platform_wallet;;
  validate_address payment_token;;
  throw_if (pro_monthly_price <=? 0) InvalidPrice;;
  modify (set_admin admin);;
  modify (set_platform_wallet platform_wallet);;
  modify (set_payment_token payment_token);;
  modify (set_pro_monthly_price pro_monthly_price);;
  modify (set_initialized true);;
  now ← ledger_timestamp;
  publish (ContractInitialized admin platform_wallet payment_token pro_monthly_price now).

Section Entry.
Context {T : Type} `{Token T}.

(** The contract's storage and the token contracts. *)
Definition World : Type := State * T.

Definition on_storage {A} (m : R A) : M World ProSubscriptionError A :=
  zoom fst (fun s w => (s, w.2)) m.

Definition on_token (f : T -> option T) : M World ProSubscriptionError unit :=
  fun _ w => match f w.2 with Some t => Done tt (w.1, t) | None => Trap end.

Definition subscribe_pro (organizer : Address) (months : Z) : M World ProSubscriptionError unit :=
  init ← on_storage (gets is_initialized);
  throw_if (negb init) NotInitialized;;
  require_auth organizer;;
  throw_if (months =? 0) InvalidPrice;;
  o ← on_storage (get_subscription_with_expiration organizer);
  now ← ledger_timestamp;
  throw_if (match o with
            | Some existing => sub_is_active existing && (now <? sub_expires_at existing)
            | None => false
            end) SubscriptionAlreadyActive;;
  monthly_price ← on_storage (gets get_pro_monthly_price);
  total_amount ← on_storage (calculate_subscription_price monthly_price months);
  o ← on_storage (gets get_payment_token);
  payment_token ← ok_or o NotInitialized;
  o ← on_storage (gets get_platform_wallet);
  platform_wallet ← ok_or o NotInitialized;
  on_token (transfer payment_token organizer platform_wallet total_amount);;
  current_time ← ledger_timestamp;
  period ← mul_ U64 SECONDS_PER_MONTH months;
  expires_at ← ok_or (checked_add U64 current_time period) ArithmeticError;
  let subscription := {|
    sub_organizer := organizer; sub_tier := Pro; sub_started_at := current_time;
    sub_expires_at := expires_at; sub_is_active := true; sub_amount_paid := total_amount;
    sub_payment_token := payment_token |} in
  on_storage (modify (set_subscription subscription));;
  on_storage (modify (add_to_pro_members_list organizer));;
  on_storage increment_total_pro_subscriptions;;
  on_storage (publish (ProMemberAdded organizer current_time));;
  on_storage (publish (SubscriptionCreated organizer Pro total_amount expires_at current_time)).

Definition renew_subscription (organizer : Address) (months : Z)
    : M World ProSubscriptionError unit :=
  init ← on_storage (gets is_initialized);
  throw_if (negb init) NotInitialized;;
  require_auth organizer;;
  throw_if (months =? 0) InvalidPrice;;
  o ← on_storage (gets (get_subscription organizer));
  subscription ← ok_or o SubscriptionNotFound;
  monthly_price ← on_storage (gets get_pro_monthly_price);
  total_amount ← on_storage (calculate_subscription_price monthly_price months);
  o ← on_storage (gets get_payment_token);
  payment_token ← ok_or o NotInitialized;
  o ← on_storage (gets get_platform_wallet);
  platform_wallet ← ok_or o NotInitialized;
  on_token (transfer payment_token organizer platform_wallet total_amount);;
  current_time ← ledger_timestamp;
  let base_time := if sub_expires_at subscription <? current_time then current_time
                   else sub_expires_at subscription in
  period ← mul_ U64 SECONDS_PER_MONTH months;
  new_expiry ← ok_or (checked_add U64 base_time period) ArithmeticError;
  amount_paid ← ok_or (checked_add I128 (sub_amount_paid subscription) total_amount)
                  ArithmeticError;
  let subscription := subscription <| sub_expires_at := new_expiry |>
                        <| sub_is_active := true |> <| sub_amount_paid := amount_paid |> in
  on_storage (modify (set_subscription subscription));;
  on_storage (modify (add_to_pro_members_list organizer));;
  on_storage (publish (ProMemberAdded organizer current_time));;
  on_storage (publish (SubscriptionRenewed organizer total_amount new_expiry current_time)).
End Entry.
Arguments World : clear implicits.

(** Taking an active member off, as both cancellations do. *)
Definition end_membership (organizer : Address) (subscription : Subscription)
    (cancelled_by : Address) : R unit :=
  modify (set_subscription (subscription <| sub_is_active := false |>));;
  modify (remove_from_pro_members_list organizer);;
  modify decrement_total_pro_subscriptions;;
  timestamp ← ledger_timestamp;
  publish (ProMemberRemoved organizer timestamp);;
  publish (SubscriptionCancelled organizer cancelled_by timestamp).

Definition cancel_subscription (organizer : Address) : R unit :=
  admin ← require_admin;
  o ← get_subscription_with_expiration organizer;
  match o with
  | None => throw SubscriptionNotFound
  | Some subscription =>
      if negb (sub_is_active subscription) then mret tt
      else end_membership organizer subscription admin
  end.

Definition cancel_my_subscription (organizer : Address) : R unit :=
  init ← gets is_initialized;
  throw_if (negb init) NotInitialized;;
  require_auth organizer;;
  o ← get_subscription_with_expiration organizer;
  match o with
  | None => throw SubscriptionNotFound
  | Some subscription =>
      if negb (sub_is_active subscription) then mret tt
      else
        throw_if (bool_decide (sub_tier subscription <> Pro)) SubscriptionNotFound;;
        end_membership organizer subscription organizer
  end.

Definition is_pro_member (organizer : Address) : R bool :=
  o ← get_subscription_with_expiration organizer;
  now ← ledger_timestamp;
  mret (match o with
        | Some subscription => sub_is_active subscription && (now <? sub_expires_at subscription)
        | None => false
        end).

Definition get_subscription_expiry (organizer : Address) : R (option Z) :=
  o ← get_subscription_with_expiration organizer;
  mret (sub_expires_at <$> o).

Definition get_pro_members_count (s : State) : Z := len (get_pro_members_list s).

Definition register_basic (organizer : Address) : R unit :=
  init ← gets is_initialized;
  throw_if (negb init) NotInitialized;;
  require_auth organizer;;
  o ← gets (get_subscription organizer);
  throw_if (match o with
            | Some existing => bool_decide (sub_tier existing = Pro) && sub_is_active existing
            | None => false
            end) SubscriptionAlreadyActive;;
  now ← ledger_timestamp;
  self ← contract_address;
  token ← gets get_payment_token;
  modify (set_subscription {|
    sub_organizer := organizer; sub_tier := Basic; sub_started_at := now;
    sub_expires_at := 0; sub_is_active := true; sub_amount_paid := 0;
    sub_payment_token := default self token |}).

Definition update_pro_price (new_price : Z) : R unit :=
  admin ← require_admin;
  throw_if (new_price <=? 0) InvalidPrice;;
  old_price ← gets get_pro_monthly_price;
  modify (set_pro_monthly_price new_price);;
  now ← ledger_timestamp;
  publish (PriceUpdated old_price new_price admin now).

(** The code compares with [current_admin], a name it does not define; it is
    an argument here. *)
Definition update_admin (current_admin new_admin : Address) : R unit :=
  old_admin ← require_admin;
  validate_address new_admin;;
  throw_if (bool_decide (new_admin = current_admin)) SameAdmin;;
  modify (set_admin new_admin);;
  now ← ledger_timestamp;
  publish (AdminUpdated old_admin new_admin old_admin now).

Definition update_platform_wallet (new_wallet : Address) : R unit :=
  admin ← require_admin;
  validate_address new_wallet;;
  o ← gets get_platform_wallet;
  old_wallet ← ok_or o NotInitialized;
  modify (set_platform_wallet new_wallet);;
  now ← ledger_timestamp;
  publish (PlatformWalletUpdated old_wallet new_wallet admin now).

Definition update_payment_token (new_token : Address) : R unit :=
  admin ← require_admin;
  validate_address new_token;;
  o ← gets get_payment_token;
  old_token ← ok_or o NotInitialized;
  modify (set_payment_token new_token);;
  now ← ledger_timestamp;
  publish (PaymentTokenUpdated old_token new_token admin now).

(** ** The contract as a whole *)
Inductive ProCall :=
  | Initialize (admin platform_wallet payment_token : Address) (price : Z)
  | Subscribe (organizer : Address) (months : Z)
  | Renew (organizer : Address) (months : Z)
  | Cancel (organizer : Address)
  | CancelMine (organizer : Address)
  | IsProMember (organizer : Address)
  | RegisterBasic (organizer : Address)
  | UpdateProPrice (new_price : Z)
  | UpdateAdmin (current_admin new_admin : Address)
  | UpdatePlatformWallet (new_wallet : Address)
  | UpdatePaymentToken (new_token : Address).

Definition run_pro {T} `{Token T} (c : ProCall) : M (World T) ProSubscriptionError unit :=
  match c with
  | Initialize a w t p => on_storage (initialize a w t p)
  | Subscribe o m => subscribe_pro o m
  | Renew o m => renew_subscription o m
  | Cancel o => on_storage (cancel_subscription o)
  | CancelMine o => on_storage (cancel_my_subscription o)
  | IsProMember o => on_storage (is_pro_member o;; mret tt)
  | RegisterBasic o => on_storage (register_basic o)
  | UpdateProPrice p => on_storage (update_pro_price p)
  | UpdateAdmin c a => on_storage (update_admin c a)
  | UpdatePlatformWallet w => on_storage (update_platform_wallet w)
  | UpdatePaymentToken t => on_storage (update_payment_token t)
  end.

(** ** Memberships *)

(** Whether the stored subscription makes [o] a member at time [now]. *)
Definition member_at (now : Z) (o : Address) (s : State) : bool :=
  match p_Subscription s !! o with
  | Some x => sub_is_active x && (now <? sub_expires_at x)
  | None => false
  end.

Definition active_pro (s : State) (o : Address) : Prop :=
  exists x, p_Subscription s !! o = Some x /\ sub_tier x = Pro /\ sub_is_active x = true.

Definition keyed (s : State) : Prop :=
  forall o x, p_Subscription s !! o = Some x -> sub_organizer x = o.

(** The members list is exactly the active Pro subscriptions, and the counter
    counts it. *)
Record members_ok (s : State) : Prop := {
  mo_keyed : keyed s;
  mo_nodup : NoDup (get_pro_members_list s);
  mo_list o : o ∈ get_pro_members_list s <-> active_pro s o;
  mo_total : get_total_pro_subscriptions s = len (get_pro_members_list s);
  mo_range : get_total_pro_subscriptions s ∈ᵢ U32;
}.

Definition members_view (s : State) :=
  (p_Subscription s, p_ProMembersList s, p_TotalProSubscriptions s).

Lemma members_ok_frame s s' : members_view s' = members_view s -> members_ok s -> members_ok s'.
Proof.
  unfold members_view. intros [= HS HL HT] [].
  split; unfold keyed, active_pro, get_pro_members_list, get_total_pro_subscriptions in *;
    rewrite ?HS, ?HL, ?HT; auto.
Qed.

Lemma members_ok_init : members_ok empty_state.
Proof.
  split; try done; [constructor|]. intros o. cbn. split; [by intros ?%not_elem_of_nil|].
  by intros (x & ? & _).
Qed.

Lemma remove_first_in x l y :
  NoDup l -> y ∈ remove_first x l <-> y ∈ l /\ y <> x.
Proof.
  induction l as [|z l IH]; cbn; intros Hnd.
  - split; [by intros ?%not_elem_of_nil|]. by intros [?%not_elem_of_nil _].
  - apply NoDup_cons in Hnd as [Hz Hnd]. case_bool_decide as Hzx.
    + subst. rewrite elem_of_cons. split; [|naive_solver]. intros Hy. split; [auto|]. by intros ->.
    + rewrite !elem_of_cons, IH by done. split; [|naive_solver]. intros [->|[? ?]]; auto.
Qed.

Lemma remove_first_nodup x l : NoDup l -> NoDup (remove_first x l).
Proof.
  induction l as [|z l IH]; cbn; [done|]. intros Hnd. pose proof Hnd as [Hz Hnd']%NoDup_cons.
  case_bool_decide; [done|]. apply NoDup_cons. split; [|auto].
  by rewrite remove_first_in by done; intros [? _].
Qed.

Lemma remove_first_len x l : x ∈ l -> len (remove_first x l) = len l - 1.
Proof.
  induction l as [|z l IH]; cbn; [by intros ?%not_elem_of_nil|].
  intros [->|Hx]%elem_of_cons.
  - rewrite bool_decide_true by done. lia.
  - case_bool_decide; [lia|]. cbn [length]. rewrite Nat2Z.inj_succ, IH by done. lia.
Qed.

(** Storing the subscription [x] of [o]. *)
Lemma active_pro_set x s o :
  active_pro (set_subscription x s) o <->
  (o = sub_organizer x /\ sub_tier x = Pro /\ sub_is_active x = true) \/
  (o <> sub_organizer x /\ active_pro s o).
Proof.
  unfold active_pro, set_subscription. upd_simpl. split.
  - intros (y & [[<- <-]|[? ?]]%lookup_insert_Some & ? & ?); [by left|right; eauto].
  - intros [(-> & ? & ?)|(? & y & ? & ? & ?)].
    + exists x. by rewrite lookup_insert_eq.
    + exists y. by rewrite lookup_insert_ne.
Qed.

Lemma keyed_set x s : keyed s -> keyed (set_subscription x s).
Proof.
  intros Hk o y. unfold set_subscription. upd_simpl.
  intros [[<- <-]|[? ?]]%lookup_insert_Some; eauto.
Qed.

(** An inactive record replaces an inactive one. *)
Lemma members_overwrite s x :
  members_ok s -> ~ active_pro s (sub_organizer x) ->
  (sub_tier x = Pro -> sub_is_active x = false) ->
  members_ok (set_subscription x s).
Proof.
  intros [] Hno Hx. split; try done; [by apply keyed_set|]. intros o.
  change (get_pro_members_list (set_subscription x s)) with (get_pro_members_list s).
  rewrite active_pro_set, mo_list0. split; [|naive_solver congruence].
  intros Ho. right. split; [|done]. by intros ->.
Qed.

(** A membership ends. *)
Lemma members_end s x :
  members_ok s -> active_pro s (sub_organizer x) -> sub_is_active x = false ->
  members_ok (decrement_total_pro_subscriptions
    (remove_from_pro_members_list (sub_organizer x) (set_subscription x s))).
Proof.
  intros [] Hact Hx. set (o := sub_organizer x) in *.
  assert (o ∈ get_pro_members_list s) as Hin by by apply mo_list0.
  unfold remove_from_pro_members_list.
  change (get_pro_members_list (set_subscription x s)) with (get_pro_members_list s).
  rewrite bool_decide_true by done.
  unfold decrement_total_pro_subscriptions, get_total_pro_subscriptions. upd_simpl.
  change (p_TotalProSubscriptions (set_subscription x s)) with (p_TotalProSubscriptions s).
  change (default 0 (p_TotalProSubscriptions s)) with (get_total_pro_subscriptions s).
  assert (0 < len (get_pro_members_list s)) as Hpos
    by (destruct (get_pro_members_list s); [by apply not_elem_of_nil in Hin|cbn; lia]).
  assert (saturating_sub U32 (get_total_pro_subscriptions s) 1
          = len (get_pro_members_list s) - 1) as Hsub.
  { unfold saturating_sub. rewrite saturate_in; [lia|]. destruct mo_range0. cbn in *. lia. }
  rewrite Hsub. generalize dependent (get_pro_members_list s). intros L Hnd HL Htot Hin Hpos _.
  split; unfold get_pro_members_list, get_total_pro_subscriptions; upd_simpl;
    cbn [default from_option id].
  - by apply (keyed_set x s).
  - by apply remove_first_nodup.
  - intros o'. rewrite remove_first_in, HL by done.
    rewrite (active_pro_set x s o'). naive_solver congruence.
  - by rewrite remove_first_len.
  - destruct mo_range0. cbn in *. lia.
Qed.

(** A membership starts. *)
Lemma members_start s x env u s' :
  members_ok s -> ~ active_pro s (sub_organizer x) -> sub_tier x = Pro ->
  sub_is_active x = true ->
  increment_total_pro_subscriptions env
    (add_to_pro_members_list (sub_organizer x) (set_subscription x s)) = Done u s' ->
  members_ok s'.
Proof.
  intros [] Hno Hp Ha Hrun. set (o := sub_organizer x) in *.
  assert (o ∉ get_pro_members_list s) as Hin by by rewrite mo_list0.
  unfold increment_total_pro_subscriptions in Hrun. exec.
  unfold add_to_pro_members_list in *.
  change (get_pro_members_list (set_subscription x s)) with (get_pro_members_list s) in *.
  rewrite bool_decide_false in * by done.
  change (get_total_pro_subscriptions ((set_subscription x s)
    <| p_ProMembersList := Some (get_pro_members_list s ++ [o]) |>))
    with (get_total_pro_subscriptions s) in *.
  rewrite mo_total0 in *. clear mo_total0 mo_range0.
  generalize dependent (get_pro_members_list s). intros L Hnd HL Hin Hr.
  split; unfold get_pro_members_list, get_total_pro_subscriptions; upd_simpl;
    cbn [default from_option id].
  - by apply (keyed_set x s).
  - apply NoDup_app. split_and!; [done| |apply NoDup_singleton]. set_solver.
  - intros o'. rewrite elem_of_app, list_elem_of_singleton, HL, (active_pro_set x s o').
    destruct (decide (o' = o)); naive_solver.
  - rewrite length_app. cbn. lia.
  - done.
Qed.

(** An active membership is extended. *)
Lemma members_extend s x :
  members_ok s -> active_pro s (sub_organizer x) -> sub_tier x = Pro -> sub_is_active x = true ->
  members_ok (add_to_pro_members_list (sub_organizer x) (set_subscription x s)).
Proof.
  intros [] Hact Hp Ha. unfold add_to_pro_members_list.
  change (get_pro_members_list (set_subscription x s)) with (get_pro_members_list s).
  rewrite bool_decide_true by by apply mo_list0.
  split; try done; [by apply keyed_set|]. intros o.
  change (get_pro_members_list (set_subscription x s)) with (get_pro_members_list s).
  rewrite mo_list0, active_pro_set.
  destruct (decide (o = sub_organizer x)) as [->|]; naive_solver.
Qed.

(** ** Lazy expiry *)

(** What reading a subscription does: the record it returns is the stored one
    afterwards, and it is not an expired active Pro one. *)
Lemma expiration_Done o env s r s' :
  get_subscription_with_expiration o env s = Done r s' ->
  (s' = s /\ r = p_Subscription s !! o /\
   forall x, r = Some x -> sub_tier x = Pro -> sub_is_active x = true ->
     timestamp env < sub_expires_at x) \/
  (exists x, p_Subscription s !! o = Some x /\ sub_tier x = Pro /\ sub_is_active x = true /\
     sub_expires_at x <= timestamp env /\ r = Some (x <| sub_is_active := false |>) /\
     exists l, s' = (decrement_total_pro_subscriptions (remove_from_pro_members_list o
       (set_subscription (x <| sub_is_active := false |>) s))) <| p_log := l |>).
Proof.
  intros Hrun. unfold get_subscription_with_expiration, get_subscription in Hrun. exec.
  destruct (p_Subscription s !! o) as [x|] eqn:Hx; [|exec; left; by split_and!].
  exec. case_match eqn:Hc; exec.
  - right. exists x. bools. unfold publish in *. exec. split_and!; try done. by eexists.
  - left. split_and!; try done. intros y [= <-] Hp Ha. rewrite Ha, bool_decide_true in Hc by done. cbn in Hc. lia.
Qed.

Lemma expiration_active o env s x s' :
  get_subscription_with_expiration o env s = Done (Some x) s' -> sub_is_active x = true ->
  s' = s /\ p_Subscription s !! o = Some x.
Proof.
  intros [(-> & Hx & _)|(y & _ & _ & _ & _ & [= ->] & _)]%expiration_Done Ha; [done|].
  by upd_simpl.
Qed.

Lemma expiration_ok o env s r s' :
  members_ok s -> get_subscription_with_expiration o env s = Done r s' ->
  members_ok s' /\ r = p_Subscription s' !! o /\
  (forall x, r = Some x -> sub_tier x = Pro -> sub_is_active x = true ->
     timestamp env < sub_expires_at x).
Proof.
  intros Hok [(-> & -> & Hx)|(x & Hx & Hp & Ha & Hexp & -> & l & ->)]%expiration_Done.
  - by split_and!.
  - assert (sub_organizer x = o) as Ho by by apply (mo_keyed s Hok).
    split_and!.
    + eapply (members_ok_frame (decrement_total_pro_subscriptions (remove_from_pro_members_list o
        (set_subscription (x <| sub_is_active := false |>) s)))); [done|].
      pose proof (members_end s (x <| sub_is_active := false |>)) as Hend. upd_simpl.
      rewrite Ho in Hend. apply Hend; [done| |done]. by exists x.
    + unfold decrement_total_pro_subscriptions, remove_from_pro_members_list. upd_simpl.
      case_bool_decide; unfold set_subscription; upd_simpl; by rewrite Ho, lookup_insert_eq.
    + intros y [= <-]. by upd_simpl.
Qed.

(** ** Calls of the contract *)
Section Calls.
Context {T : Type} `{TokenLaws T}.
Implicit Types (s : State) (t : T) (w : World T) (env : Env).

Lemma pro_on_storage_Done {A} (m : R A) env w a w' :
  on_storage m env w = Done a w' <-> exists s', m env w.1 = Done a s' /\ w' = (s', w.2).
Proof. unfold on_storage. rewrite zoom_Done. done. Qed.

Lemma pro_on_token_Done (f : T -> option T) env w u w' :
  on_token f env w = Done u w' <-> exists t', f w.2 = Some t' /\ w' = (w.1, t').
Proof. unfold on_token. destruct u, (f w.2); naive_solver. Qed.

Ltac pro_run :=
  repeat first
    [ match goal with
      | Hs : on_storage _ _ _ = Done _ _ |- _ => apply pro_on_storage_Done in Hs as (? & Hs & ?)
      | Ht : on_token _ _ _ = Done _ _ |- _ => apply pro_on_token_Done in Ht as (? & Ht & ?)
      | Hp : publish _ _ _ = Done _ _ |- _ => unfold publish in Hp
      | Hp : calculate_subscription_price _ _ _ _ = Done _ _ |- _ =>
          unfold calculate_subscription_price in Hp
      | Hp : validate_address _ _ _ = Done _ _ |- _ => unfold validate_address in Hp
      | Hp : require_admin _ _ = Done _ _ |- _ => unfold require_admin in Hp
      end
    | progress exec ];
  cbn [fst snd] in *.

(** What a successful subscription did. *)
Lemma subscribe_Done o months env s t u w' :
  subscribe_pro o months env (s, t) = Done u w' ->
  exists r s1 price token wallet t' x s2 l,
    get_subscription_with_expiration o env s = Done r s1 /\
    (forall y, r = Some y -> sub_is_active y && (timestamp env <? sub_expires_at y) = false) /\
    o ∈ auths env /\ months <> 0 /\
    subscription_price (get_pro_monthly_price s1) months = Some price /\
    p_PaymentToken s1 = Some token /\ p_PlatformWallet s1 = Some wallet /\
    transfer token o wallet price t = Some t' /\
    x = {| sub_organizer := o; sub_tier := Pro; sub_started_at := timestamp env;
           sub_expires_at := timestamp env + SECONDS_PER_MONTH * months;
           sub_is_active := true; sub_amount_paid := price; sub_payment_token := token |} /\
    increment_total_pro_subscriptions env
      (add_to_pro_members_list o (set_subscription x s1)) = Done tt s2 /\
    w' = (s2 <| p_log := l |>, t').
Proof.
  intros Hrun. unfold subscribe_pro in Hrun. pro_run. bools.
  match goal with Hi : increment_total_pro_subscriptions _ _ = Done ?a _ |- _ => destruct a end.
  do 9 eexists. split_and!; try done; [|by symmetry..]. by intros y ->.
Qed.

(** What a successful renewal did. *)
Lemma renew_Done o months env s t u w' :
  renew_subscription o months env (s, t) = Done u w' ->
  exists x price token wallet t' y l,
    p_Subscription s !! o = Some x /\ o ∈ auths env /\ months <> 0 /\
    subscription_price (get_pro_monthly_price s) months = Some price /\
    p_PaymentToken s = Some token /\ p_PlatformWallet s = Some wallet /\
    transfer token o wallet price t = Some t' /\
    y = x <| sub_expires_at := Z.max (timestamp env) (sub_expires_at x)
                               + SECONDS_PER_MONTH * months |>
          <| sub_is_active := true |> <| sub_amount_paid := sub_amount_paid x + price |> /\
    w' = ((add_to_pro_members_list o (set_subscription y s)) <| p_log := l |>, t').
Proof.
  intros Hrun. unfold renew_subscription, get_subscription in Hrun. pro_run. bools.
  do 7 eexists. split_and!; try done; try by symmetry.
  match goal with |- context [if ?b <? ?c then _ else _] =>
    assert ((if b <? c then c else b) = Z.max c b) as -> by (case_match; lia) end.
  reflexivity.
Qed.

(** *** Members are exact *)

(** Renewals of running Pro subscriptions and cancellations of Pro ones. *)
Definition regular (c : ProCall) (_ : Env) (w : World T) : Prop :=
  match c with
  | Renew o _ => active_pro w.1 o
  | Cancel o => forall x, p_Subscription w.1 !! o = Some x -> sub_tier x = Pro
  | _ => True
  end.

Lemma end_membership_ok o x by_ env s u s' :
  members_ok s -> p_Subscription s !! o = Some x -> sub_tier x = Pro -> sub_is_active x = true ->
  end_membership o x by_ env s = Done u s' -> members_ok s'.
Proof.
  intros Hok Hx Hp Ha Hrun. unfold end_membership in Hrun. pro_run.
  assert (sub_organizer x = o) as Ho by by apply (mo_keyed s Hok).
  pose proof (members_end s (x <| sub_is_active := false |>)) as Hend. upd_simpl.
  rewrite Ho in Hend. eapply members_ok_frame; [|apply Hend; [done| |done]; by exists x].
  reflexivity.
Qed.

Lemma members_subscribe o months env s t u s' t' :
  members_ok s -> subscribe_pro o months env (s, t) = Done u (s', t') -> members_ok s'.
Proof.
  intros Hok (r & s1 & price & token & wallet & t1 & x & s2 & l & Hexp & Hr & _ & _ & _ & _ & _
    & _ & Hx & Hinc & [= -> ->])%subscribe_Done.
  destruct (expiration_ok _ _ _ _ _ Hok Hexp) as (Hok1 & Hs1 & Hlive).
  eapply (members_ok_frame s2); [done|].
  assert (sub_organizer x = o) as Ho by by subst. rewrite <- Ho in Hinc.
  eapply (members_start s1 x); [done| |by subst..|exact Hinc].
  intros (y & Hy & Hp & Ha). rewrite Ho, <- Hs1 in Hy. subst r.
  specialize (Hr y Hy). specialize (Hlive y Hy Hp Ha). rewrite Ha in Hr. cbn in Hr. lia.
Qed.

Lemma members_renew o months env s t u s' t' :
  members_ok s -> active_pro s o ->
  renew_subscription o months env (s, t) = Done u (s', t') -> members_ok s'.
Proof.
  intros Hok Hact (x & price & token & wallet & t1 & y & l & Hx & _ & _ & _ & _ & _ & _ & Hy
    & [= -> ->])%renew_Done.
  assert (sub_organizer y = o) as Ho by (subst y; upd_simpl; by apply (mo_keyed s Hok)).
  eapply (members_ok_frame (add_to_pro_members_list o (set_subscription y s))); [done|].
  rewrite <- Ho. apply members_extend; [done|by rewrite Ho| |by subst].
  destruct Hact as (x' & Hx' & Hp & _). subst y. upd_simpl. congruence.
Qed.

Lemma members_step c env w w' :
  regular c env w -> run_pro c env w = Done tt w' -> members_ok w.1 -> members_ok w'.1.
Proof.
  intros Hreg Hrun Hok. destruct w as [s t], w' as [s' t']. cbn [fst] in *.
  destruct c; cbn [run_pro regular] in *.
  - unfold initialize in Hrun. pro_run. simplify_eq. by eapply members_ok_frame; [|exact Hok].
  - by eapply members_subscribe.
  - by eapply members_renew.
  - unfold cancel_subscription in Hrun. pro_run. simplify_eq.
    match goal with He : get_subscription_with_expiration _ _ _ = Done ?r _ |- _ =>
      destruct r as [y|]; pro_run; rename He into Hexp end.
    destruct (sub_is_active y) eqn:Ha; cbn [negb] in *; pro_run.
    + apply expiration_active in Hexp as [-> Hx]; [|done].
      eapply end_membership_ok; [exact Hok|exact Hx|by apply Hreg|done|eassumption].
    + by apply expiration_ok in Hexp as (? & _).
  - unfold cancel_my_subscription in Hrun. pro_run. simplify_eq.
    match goal with He : get_subscription_with_expiration _ _ _ = Done ?r _ |- _ =>
      destruct r as [y|]; pro_run; rename He into Hexp end.
    destruct (sub_is_active y) eqn:Ha; cbn [negb] in *; pro_run.
    + apply expiration_active in Hexp as [-> Hx]; [|done]. bools.
      eapply end_membership_ok; [exact Hok|exact Hx|by apply dec_stable|done|eassumption].
    + by apply expiration_ok in Hexp as (? & _).
  - unfold is_pro_member in Hrun. pro_run. simplify_eq.
    match goal with He : get_subscription_with_expiration _ _ _ = _ |- _ =>
      by apply expiration_ok in He as (? & _) end.
  - unfold register_basic, get_subscription in Hrun. pro_run. simplify_eq.
    apply members_overwrite; [done| |done]. cbn. intros (x & Hx & Hp & Ha).
    rewrite Hx, Hp, Ha in *. by cbn in *.
  - unfold update_pro_price in Hrun. pro_run. simplify_eq. by eapply members_ok_frame; [|exact Hok].
  - unfold update_admin in Hrun. pro_run. simplify_eq. by eapply members_ok_frame; [|exact Hok].
  - unfold update_platform_wallet in Hrun. pro_run. simplify_eq.
    by eapply members_ok_frame; [|exact Hok].
  - unfold update_payment_token in Hrun. pro_run. simplify_eq.
    by eapply members_ok_frame; [|exact Hok].
Qed.

(** *** Membership is paid for *)

(** The call was signed and paid for by [o], at the current price. *)
Definition paid (c : ProCall) (env : Env) (s : State) (t t' : T) (o : Address) : Prop :=
  exists months price token wallet,
    (c = Subscribe o months \/ c = Renew o months) /\ o ∈ auths env /\
    p_PaymentToken s = Some token /\ p_PlatformWallet s = Some wallet /\
    subscription_price (get_pro_monthly_price s) months = Some price /\
    transfer token o wallet price t = Some t'.

(** A record that makes nobody a member. *)
Definition dormant (r : option Subscription) : Prop :=
  exists x, r = Some x /\ (sub_is_active x = false \/ sub_expires_at x = 0).

Lemma set_other x s o :
  o <> sub_organizer x -> p_Subscription (set_subscription x s) !! o = p_Subscription s !! o.
Proof. intros Ho. unfold set_subscription. upd_simpl. by rewrite lookup_insert_ne. Qed.

Lemma set_same x s : p_Subscription (set_subscription x s) !! sub_organizer x = Some x.
Proof. unfold set_subscription. upd_simpl. by rewrite lookup_insert_eq. Qed.

Lemma list_subscriptions o s :
  p_Subscription (add_to_pro_members_list o s) = p_Subscription s /\
  p_Subscription (remove_from_pro_members_list o s) = p_Subscription s.
Proof.
  unfold add_to_pro_members_list, remove_from_pro_members_list. by case_bool_decide.
Qed.

Lemma expiration_others o env s r s' o' :
  keyed s -> get_subscription_with_expiration o env s = Done r s' ->
  (p_Subscription s' !! o' = p_Subscription s !! o' \/ dormant (p_Subscription s' !! o')) /\
  (o' <> o -> p_Subscription s' !! o' = p_Subscription s !! o') /\
  p_PaymentToken s' = p_PaymentToken s /\ p_PlatformWallet s' = p_PlatformWallet s /\
  p_ProMonthlyPrice s' = p_ProMonthlyPrice s.
Proof.
  intros Hk [(-> & _ & _)|(x & Hx & _ & _ & _ & _ & l & ->)]%expiration_Done; [by split_and!; auto|].
  assert (sub_organizer x = o) as Ho by by apply Hk.
  unfold decrement_total_pro_subscriptions. upd_simpl.
  set (y := x <| sub_is_active := false |>). assert (sub_organizer y = o) as Hoy by done.
  destruct (list_subscriptions o (set_subscription y s)) as [_ ->]. split_and!.
  - destruct (decide (o' = o)) as [->|Hne]; [|left; apply set_other; congruence].
    right. exists y. rewrite <- Hoy, set_same. auto.
  - intros Hne. apply set_other. congruence.
  - unfold remove_from_pro_members_list. by case_bool_decide.
  - unfold remove_from_pro_members_list. by case_bool_decide.
  - unfold remove_from_pro_members_list. by case_bool_decide.
Qed.

Lemma end_membership_dormant o x by_ env s u s' o' :
  keyed s -> p_Subscription s !! o = Some x -> end_membership o x by_ env s = Done u s' ->
  p_Subscription s' !! o' = p_Subscription s !! o' \/ dormant (p_Subscription s' !! o').
Proof.
  intros Hk Hx Hrun. unfold end_membership in Hrun. pro_run.
  assert (sub_organizer x = o) as Ho by by apply Hk.
  unfold decrement_total_pro_subscriptions. upd_simpl.
  set (y := x <| sub_is_active := false |>). assert (sub_organizer y = o) as Hoy by done.
  destruct (list_subscriptions o (set_subscription y s)) as [_ ->].
  destruct (decide (o' = o)) as [->|Hne]; [|left; apply set_other; congruence].
  right. exists y. rewrite <- Hoy, set_same. auto.
Qed.

Lemma subscription_step c env s t s' t' o :
  keyed s -> run_pro c env (s, t) = Done tt (s', t') ->
  p_Subscription s' !! o = p_Subscription s !! o \/ dormant (p_Subscription s' !! o) \/
  paid c env s t t' o.
Proof.
  intros Hk Hrun. destruct c; cbn [run_pro] in Hrun.
  - unfold initialize in Hrun. pro_run. simplify_eq. by left.
  - apply subscribe_Done in Hrun as (r & s1 & price & token & wallet & t1 & x & s2 & l & Hexp & Hr
      & Hau & _ & Hpr & Htok & Hwal & Htr & Hx & Hinc & [= -> ->]).
    destruct (expiration_others _ _ _ _ _ o Hk Hexp) as (Hs1 & Hs1' & Htk & Hwl & Hmp).
    destruct (decide (o = organizer)) as [->|Hne].
    + right. right. exists months, price, token, wallet.
      unfold get_pro_monthly_price in *. rewrite Hmp in Hpr. split_and!; try congruence; auto.
    + left. unfold increment_total_pro_subscriptions in Hinc. exec. upd_simpl.
      rewrite (proj1 (list_subscriptions organizer _)), set_other by done. auto.
  - apply renew_Done in Hrun as (x & price & token & wallet & t1 & y & l & Hx & Hau & _ & Hpr & Htok
      & Hwal & Htr & Hy & [= -> ->]).
    destruct (decide (o = organizer)) as [->|Hne].
    + right. right. exists months, price, token, wallet. split_and!; auto.
    + left. upd_simpl. rewrite (proj1 (list_subscriptions organizer _)). apply set_other. subst y. upd_simpl. rewrite (Hk _ _ Hx). done.
  - unfold cancel_subscription in Hrun. pro_run. simplify_eq.
    match goal with He : get_subscription_with_expiration _ _ _ = Done ?r _ |- _ =>
      destruct r as [y|]; pro_run; rename He into Hexp end.
    destruct (sub_is_active y) eqn:Ha; cbn [negb] in *; pro_run.
    + apply expiration_active in Hexp as [-> Hy]; [|done].
      destruct (end_membership_dormant _ _ _ _ _ _ _ o Hk Hy Hrun) as [?|?]; auto.
    + destruct (expiration_others _ _ _ _ _ o Hk Hexp) as ([?|?] & _); auto.
  - unfold cancel_my_subscription in Hrun. pro_run. simplify_eq.
    match goal with He : get_subscription_with_expiration _ _ _ = Done ?r _ |- _ =>
      destruct r as [y|]; pro_run; rename He into Hexp end.
    destruct (sub_is_active y) eqn:Ha; cbn [negb] in *; pro_run.
    + apply expiration_active in Hexp as [-> Hy]; [|done].
      destruct (end_membership_dormant _ _ _ _ _ _ _ o Hk Hy Hrun) as [?|?]; auto.
    + destruct (expiration_others _ _ _ _ _ o Hk Hexp) as ([?|?] & _); auto.
  - unfold is_pro_member in Hrun. pro_run. simplify_eq.
    match goal with He : get_subscription_with_expiration _ _ _ = _ |- _ =>
      destruct (expiration_others _ _ _ _ _ o Hk He) as ([?|?] & _); auto end.
  - unfold register_basic in Hrun. pro_run. simplify_eq.
    destruct (decide (o = organizer)) as [->|Hne]; [|left; by apply set_other].
    right. left. eexists. unfold set_subscription. upd_simpl. cbn [sub_organizer].
    rewrite lookup_insert_eq. auto.
  - unfold update_pro_price in Hrun. pro_run. simplify_eq. by left.
  - unfold update_admin in Hrun. pro_run. simplify_eq. by left.
  - unfold update_platform_wallet in Hrun. pro_run. simplify_eq. by left.
  - unfold update_payment_token in Hrun. pro_run. simplify_eq. by left.
Qed.

Lemma pro_respects_on_token f : respects (along (pres keyed)) (on_token (T := T) f).
Proof.
  intros env [s t] u [s' t']. unfold on_token, along. cbn. case_match; intros [=]; subst.
  reflexivity.
Qed.

Lemma keyed_step c env w w' :
  run_pro c env w = Done tt w' -> keyed w.1 -> keyed w'.1.
Proof.
  enough (respects (along (pres keyed)) (run_pro c)) as Hall
    by (intros Hrun; exact (Hall env w tt w' Hrun)).
  destruct c; cbn [run_pro].
  all: repeat first [ frame1 | apply respects_along | apply pro_respects_on_token
    | lazymatch goal with |- respects _ ?m => unfold_head m; cbv beta end ].
  all: intros Hk; first [ exact Hk | by apply keyed_set
    | unfold keyed; by rewrite (proj1 (list_subscriptions _ _))
    | unfold keyed; by rewrite (proj2 (list_subscriptions _ _)) ].
Qed.

Lemma price_value p months price :
  0 <= p -> 0 < months -> subscription_price p months = Some price ->
  price = p * months * (MAX_BPS - discount_bps months) / MAX_BPS.
Proof.
  intros Hp Hm. unfold subscription_price, checked_mul, checked_div. intros Hpr.
  apply bind_Some in Hpr as (v & [-> _]%checked_Some & Hpr).
  apply bind_Some in Hpr as (v & [-> _]%checked_Some & Hpr).
  case_match; [done|]. apply checked_Some in Hpr as [-> _]. apply Z.quot_div_nonneg; [|done].
  assert (0 <= MAX_BPS - discount_bps months) as Hd.
  { unfold discount_bps, MAX_BPS, DISCOUNT_BPS_12_MONTHS, DISCOUNT_BPS_6_MONTHS,
      DISCOUNT_BPS_3_MONTHS. repeat case_match; lia. }
  nia.
Qed.

(** What the membership query answers. *)
Lemma is_pro_member_value o env s :
  returned (is_pro_member o) env s
  = Some match p_Subscription s !! o with
         | Some x => sub_is_active x && (timestamp env <? sub_expires_at x)
         | None => false
         end.
Proof.
  unfold returned, is_pro_member, get_subscription_with_expiration, get_subscription.
  unfold mbind, M_bind, gets, mret, M_ret, ledger_timestamp, modify, publish.
  destruct (p_Subscription s !! o) as [x|]; [|done].
  destruct (bool_decide _ && _ && (sub_expires_at x <=? timestamp env)) eqn:Hc; [|done].
  cbn. bools. f_equal. destruct (_ <? _) eqn:Hlt; [lia|]. by rewrite andb_false_r.
Qed.

(** ** Properties *)

(** Nobody becomes a Pro member without paying.  In every state the
    contract reaches, if a call makes [o] a member at some time at which it was
    none before, then the call is a subscription or renewal that [o] signed,
    and it moved exactly the current price of its months from [o] to the
    platform wallet. *)
Theorem membership_paid env c o now s t s' t' t0 :
  history run_pro (fun _ _ _ => True) (empty_state, t0) (s, t) ->
  run_pro c env (s, t) = Done tt (s', t') -> 0 <= now ->
  member_at now o s = false -> member_at now o s' = true ->
  paid c env s t t' o.
Proof.
  intros Hh Hrun Hnow Hno Hyes.
  assert (keyed s) as Hk.
  { apply (history_inv run_pro (fun w => keyed w.1)) in Hh; [done|done|].
    intros. by eapply keyed_step. }
  destruct (subscription_step c env s t s' t' o Hk Hrun) as [Heq|[(x & Hx & Hd)|Hp]]; [| |done].
  - unfold member_at in *. rewrite Heq in Hyes. congruence.
  - unfold member_at in Hyes. rewrite Hx in Hyes. bools. destruct Hd as [Hd|Hd]; [congruence|lia].
Qed.

(** The members list is exact.  As long as renewals are made of running Pro
    subscriptions and cancellations by the administrator of Pro ones, in every
    state the contract reaches the list of members holds exactly the organizers
    with an active Pro subscription, each once, and the public counter is its
    length. *)
Theorem members_exact t0 w :
  history run_pro regular (empty_state, t0) w -> members_ok w.1.
Proof.
  apply (history_inv run_pro (fun w => members_ok w.1)); [apply members_ok_init|].
  intros. by eapply members_step.
Qed.

(** A subscription buys what it says.  After [subscribe_pro] for [months]
    the organizer has paid the price of the months with their discount to the
    platform wallet, and [is_pro_member] answers true exactly until [months]
    times 30 days have passed. *)
Theorem subscribe_pro_correct o months env s t s' t' env' :
  members_ok s -> 0 < months -> 0 <= get_pro_monthly_price s ->
  subscribe_pro o months env (s, t) = Done tt (s', t') ->
  exists token wallet,
    p_PaymentToken s = Some token /\ p_PlatformWallet s = Some wallet /\
    transfer token o wallet
      (get_pro_monthly_price s * months * (MAX_BPS - discount_bps months) / MAX_BPS) t = Some t' /\
    returned (is_pro_member o) env' s'
      = Some (bool_decide (timestamp env' < timestamp env + SECONDS_PER_MONTH * months)).
Proof.
  intros Hok Hm Hprice (r & s1 & price & token & wallet & t1 & x & s2 & l & Hexp & Hr & Hau & _
    & Hpr & Htok & Hwal & Htr & Hx & Hinc & [= -> ->])%subscribe_Done.
  destruct (expiration_others _ _ _ _ _ o (mo_keyed s Hok) Hexp) as (_ & _ & Htk & Hwl & Hmp).
  exists token, wallet. rewrite Htok in Htk. rewrite Hwal in Hwl.
  assert (get_pro_monthly_price s1 = get_pro_monthly_price s) as Hmp'
    by (unfold get_pro_monthly_price; by rewrite Hmp).
  rewrite Hmp' in Hpr. apply price_value in Hpr as ->; [|done..].
  split_and!; [done..|].
  assert (p_Subscription (s2 <| p_log := l |>) !! o = Some x) as Hsub.
  { unfold increment_total_pro_subscriptions in Hinc. exec. upd_simpl.
    rewrite (proj1 (list_subscriptions o _)). exact (set_same _ s1). }
  rewrite is_pro_member_value, Hsub. subst x. cbn [sub_is_active sub_expires_at andb].
  f_equal. case_bool_decide; lia.
Qed.
End Calls.

(** ** Samples *)
Module Sample.
Definition env (t : Z) (who : list Address) : Env :=
  {| current_contract_address := "PRO"; timestamp := t; auths := who |}.
Definition tokens : Ledger := mkLedger {[ ("USDC", "ORG") := 1000 ]} ∅.
Definition setup : list (Env * ProCall) :=
  [ (env 10 ["ADM"], Initialize "ADM" "WALLET" "USDC" 100) ].
Definition joined : list (Env * ProCall) :=
  setup ++ [ (env 20 ["ORG"], Subscribe "ORG" 3) ].
Definition world (calls : list (Env * ProCall)) : World Ledger :=
  default (empty_state, tokens) (run_all run_pro calls (empty_state, tokens)).

Lemma world_history ok calls :
  (forall env c w, (env, c) ∈ calls -> ok c env w) ->
  bool_decide (is_Some (run_all run_pro calls (empty_state, tokens))) = true ->
  history run_pro ok (empty_state, tokens) (world calls).
Proof.
  intros Hok [w Hw]%bool_decide_eq_true. unfold world. rewrite Hw.
  eapply run_all_history; [exact Hok|apply history_nil|exact Hw].
Qed.
End Sample.

Lemma membership_paid_witness :
  let '(s, t) := Sample.world Sample.setup in
  let '(s', t') := Sample.world Sample.joined in
  paid (Subscribe "ORG" 3) (Sample.env 20 ["ORG"]) s t t' "ORG".
Proof.
  pose proof (Sample.world_history (fun _ _ _ => True) Sample.setup) as Hh.
  destruct (Sample.world Sample.setup) as [s t] eqn:H0.
  destruct (Sample.world Sample.joined) as [s' t'] eqn:H1.
  vm_compute in H0, H1. injection H0 as <- <-. injection H1 as <- <-.
  eapply (membership_paid (Sample.env 20 ["ORG"]) (Subscribe "ORG" 3) "ORG" 30).
  - apply Hh; [done|]. vm_compute. reflexivity.
  - vm_compute. reflexivity.
  - done.
  - vm_compute. reflexivity.
  - vm_compute. reflexivity.
Defined.

Lemma members_exact_witness :
  let calls := Sample.joined ++ [ (Sample.env 30 ["BOB"], RegisterBasic "BOB");
    (Sample.env 9999999 [], IsProMember "ORG") ] in
  members_ok (Sample.world calls).1.
Proof.
  intros calls. apply (members_exact Sample.tokens (Sample.world calls)).
  apply Sample.world_history; [|vm_compute; reflexivity].
  intros env c w Hin. cbn in Hin.
  by repeat (apply elem_of_cons in Hin as [[= -> ->]|Hin]); [..|set_solver].
Defined.

Lemma subscribe_pro_correct_witness :
  let w := Sample.world Sample.setup in
  let env := Sample.env 20 ["ORG"] in
  let w' := invoke (subscribe_pro "ORG" 3) env (w.1, w.2) in
  exists token wallet,
    p_PaymentToken w.1 = Some token /\ p_PlatformWallet w.1 = Some wallet /\
    transfer token "ORG" wallet
      (get_pro_monthly_price w.1 * 3 * (MAX_BPS - discount_bps 3) / MAX_BPS) w.2 = Some w'.2 /\
    returned (is_pro_member "ORG") (Sample.env 30 []) w'.1
      = Some (bool_decide (30 < 20 + SECONDS_PER_MONTH * 3)).
Proof.
  intros w env w'.
  apply (subscribe_pro_correct "ORG" 3 env w.1 w.2 w'.1 w'.2 (Sample.env 30 [])).
  - apply (history_inv run_pro (fun w => members_ok w.1) regular (empty_state, Sample.tokens));
      [apply members_ok_init|intros; by eapply members_step|].
    apply Sample.world_history; [|vm_compute; reflexivity].
    intros env1 c w1 Hin. cbn in Hin.
    by repeat (apply elem_of_cons in Hin as [[= -> ->]|Hin]); [..|set_solver].
  - done.
  - vm_compute. discriminate.
  - vm_compute. reflexivity.
Defined.

(** Renewals are not counted.  After a membership has expired and was taken
    off the list, a renewal puts the organizer back on the list and makes it a
    member again, but the counter of active Pro subscriptions stays at zero; a
    renewal of a Basic record is paid, but leaves the tier at Basic, so the
    member can not cancel it. *)
Theorem renewal_not_counted :
  let late := Sample.env 9999999 ["ORG"] in
  let calls := Sample.joined ++ [ (late, IsProMember "ORG"); (late, Renew "ORG" 1) ] in
  let basic := Sample.setup ++ [ (late, RegisterBasic "ORG"); (late, Renew "ORG" 1) ] in
  let s := (Sample.world calls).1 in
  let b := (Sample.world basic).1 in
  get_pro_members_list s = ["ORG"] /\ member_at 9999999 "ORG" s = true /\
  get_total_pro_subscriptions s = 0 /\
  get_pro_members_list b = ["ORG"] /\ member_at 9999999 "ORG" b = true /\
  cancel_my_subscription "ORG" late b = Fail SubscriptionNotFound.
Proof. vm_compute. repeat split. Qed.
