(* ===== verification/PaymentTypes.v ===== *)
(** * Ticket payment: data

    The errors, records and enums of the payment contract ([error.rs],
    [types.rs], [payment_types.rs], [governance.rs], [escrow.rs], [resale.rs]),
    the events it publishes ([events.rs], one constructor per topic with its
    payload), and the types of the contracts it calls as [interfaces.rs]
    declares them. *)

From stdpp Require Import base tactics numbers list strings gmap.
From S2P Require Import Prelude.

(** ** Errors ([error.rs]) *)
Inductive TicketPaymentError :=
  | AlreadyInitialized | InvalidAddress | NotInitialized | EventNotFound | EventInactive
  | TokenNotWhitelisted | MaxSupplyExceeded | PaymentNotFound | InvalidPaymentStatus
  | TicketNotRefundable | TierNotFound | InsufficientAllowance | TransferVerificationFailed
  | ArithmeticError | SelfReferralNotAllowed | PriceMismatch | InvalidPrice
  | InvalidDiscountCode | DiscountCodeUsed | EventNotCompleted | NoFundsAvailable
  | RefundDeadlinePassed | WithdrawalCapExceeded | InsufficientFees | ResalePriceExceedsCap
  | ContractPaused | InvalidSecret | CommitExpired | DiscountExpired
  | DiscountMaxUsesReached | DisputeNotResolved | EscrowNotInitialized | InvalidAmount
  | EventCancelled | EventDisputed | UnauthorizedScanner | TicketAlreadyUsed | GoalNotMet
  | OracleNotConfigured | OraclePriceUnavailable | PriceOutsideSlippage
  | InvalidSlippageBps | AuctionNotActive | BidTooLow | AuctionEnded | AuctionNotEnded
  | NotAuctionTier | NotGovernor | InvalidProposal | ProposalNotActive | AlreadyVoted
  | VotingPeriodNotMet | InsufficientVotes | ProposalExpired | OraclePriceStale
  | CannotRemoveLastGovernor | InvalidFeePercent | EventEnded | TicketAlreadyListed
  | ResaleListingNotFound | ResaleListingNotActive | NonTransferable | InvalidRoyaltyBps
  | EmptyBatch | BatchTooLarge | PaymentAlreadyExists | WalletLimitExceeded.
#[export] Instance TicketPaymentError_eq_dec : EqDecision TicketPaymentError.
Proof. solve_decision. Defined.

(** The numbers of the errors. *)
Definition error_code (e : TicketPaymentError) : Z :=
  match e with
  | AlreadyInitialized => 1 | InvalidAddress => 2 | NotInitialized => 3
  | EventNotFound => 4 | EventInactive => 5 | TokenNotWhitelisted => 6
  | MaxSupplyExceeded => 7 | PaymentNotFound => 8 | InvalidPaymentStatus => 9
  | TicketNotRefundable => 10 | TierNotFound => 11 | InsufficientAllowance => 12
  | TransferVerificationFailed => 13 | ArithmeticError => 14 | SelfReferralNotAllowed => 15
  | PriceMismatch => 16 | InvalidPrice => 17 | InvalidDiscountCode => 18
  | DiscountCodeUsed => 19 | EventNotCompleted => 21 | NoFundsAvailable => 22
  | RefundDeadlinePassed => 23 | WithdrawalCapExceeded => 24 | InsufficientFees => 25
  | ResalePriceExceedsCap => 26 | ContractPaused => 27 | InvalidSecret => 28
  | CommitExpired => 29 | DiscountExpired => 30 | DiscountMaxUsesReached => 31
  | DisputeNotResolved => 32 | EscrowNotInitialized => 33 | InvalidAmount => 34
  | EventCancelled => 35 | EventDisputed => 36 | UnauthorizedScanner => 37
  | TicketAlreadyUsed => 38 | GoalNotMet => 39 | OracleNotConfigured => 40
  | OraclePriceUnavailable => 41 | PriceOutsideSlippage => 42 | InvalidSlippageBps => 43
  | AuctionNotActive => 44 | BidTooLow => 45 | AuctionEnded => 46 | AuctionNotEnded => 47
  | NotAuctionTier => 48 | NotGovernor => 49 | InvalidProposal => 50
  | ProposalNotActive => 51 | AlreadyVoted => 52 | VotingPeriodNotMet => 53
  | InsufficientVotes => 54 | ProposalExpired => 55 | OraclePriceStale => 56
  | CannotRemoveLastGovernor => 57 | InvalidFeePercent => 58 | EventEnded => 59
  | TicketAlreadyListed => 60 | ResaleListingNotFound => 61 | ResaleListingNotActive => 62
  | NonTransferable => 63 | InvalidRoyaltyBps => 64 | EmptyBatch => 65
  | BatchTooLarge => 66 | PaymentAlreadyExists => 67 | WalletLimitExceeded => 68
  end.

(** [From<soroban_sdk::Error>]. *)
Definition error_of_code (code : Z) : TicketPaymentError :=
  match code with
  | 1 => AlreadyInitialized | 2 => InvalidAddress | 3 => NotInitialized
  | 4 => EventNotFound | 5 => EventInactive | 6 => TokenNotWhitelisted
  | 7 => MaxSupplyExceeded | 8 => PaymentNotFound | 9 => InvalidPaymentStatus
  | 10 => TicketNotRefundable | 11 => TierNotFound | 12 => InsufficientAllowance
  | 13 => TransferVerificationFailed | 14 => ArithmeticError | 15 => SelfReferralNotAllowed
  | 16 => PriceMismatch | 17 => InvalidPrice | 18 => InvalidDiscountCode
  | 19 => DiscountCodeUsed | 21 => EventNotCompleted | 22 => NoFundsAvailable
  | 23 => RefundDeadlinePassed | 24 => WithdrawalCapExceeded | 25 => InsufficientFees
  | 26 => ResalePriceExceedsCap | 27 => ContractPaused | 28 => InvalidSecret
  | 29 => CommitExpired | 30 => DiscountExpired | 31 => DiscountMaxUsesReached
  | 32 => DisputeNotResolved | 33 => EscrowNotInitialized | 34 => InvalidAmount
  | 35 => EventCancelled | 36 => EventDisputed | 37 => UnauthorizedScanner
  | 38 => TicketAlreadyUsed | 39 => GoalNotMet | 40 => OracleNotConfigured
  | 41 => OraclePriceUnavailable | 42 => PriceOutsideSlippage | 43 => InvalidSlippageBps
  | 44 => AuctionNotActive | 45 => BidTooLow | 46 => AuctionEnded | 47 => AuctionNotEnded
  | 48 => NotAuctionTier | 49 => NotGovernor | 50 => InvalidProposal
  | 51 => ProposalNotActive | 52 => AlreadyVoted | 53 => VotingPeriodNotMet
  | 54 => InsufficientVotes | 55 => ProposalExpired | 56 => OraclePriceStale
  | 57 => CannotRemoveLastGovernor | 58 => InvalidFeePercent | 59 => EventEnded
  | 60 => TicketAlreadyListed | 61 => ResaleListingNotFound | 62 => ResaleListingNotActive
  | 63 => NonTransferable | 64 => InvalidRoyaltyBps | 65 => EmptyBatch
  | 66 => BatchTooLarge | 67 => PaymentAlreadyExists | 68 => WalletLimitExceeded
  | _ => ArithmeticError
  end.

(** The conversion to the host's error numbers loses nothing. *)
Lemma error_code_roundtrip e : error_of_code (error_code e) = e.
Proof. by destruct e. Qed.

(** ** Constants *)
Definition TRANSFER_FEE_BPS : Z := 100.
Definition MAX_BPS : Z := 10000.

(** ** Payments ([types.rs], [payment_types.rs]) *)
Inductive PaymentStatus := Pending | Confirmed | Refunded | Failed | CheckedIn.
#[export] Instance PaymentStatus_eq_dec : EqDecision PaymentStatus.
Proof. solve_decision. Defined.
Definition status_id (p : PaymentStatus) : Z :=
  match p with Pending => 0 | Confirmed => 1 | Refunded => 2 | Failed => 3 | CheckedIn => 4 end.
#[export] Instance PaymentStatus_countable : Countable PaymentStatus.
Proof.
  apply (inj_countable' status_id (fun z =>
    match z with 0 => Pending | 1 => Confirmed | 2 => Refunded | 3 => Failed | _ => CheckedIn end)).
  by intros [].
Defined.

Record PriceSchedule := mkPriceSchedule {
  ps_price : Z; (* i128 *)
  ps_valid_until : Z; (* u64 *)
}.

Record Payment := mkPayment {
  pay_payment_id : string;
  pay_event_id : string;
  pay_buyer_address : Address;
  pay_owner_address : Address;
  pay_ticket_tier_id : string;
  pay_token_address : Address;
  pay_amount : Z; (* i128 *)
  pay_platform_fee : Z; (* i128 *)
  pay_organizer_amount : Z; (* i128 *)
  pay_status : PaymentStatus;
  pay_transaction_hash : string;
  pay_created_at : Z; (* u64 *)
  pay_confirmed_at : option Z;
  pay_refunded_amount : Z; (* i128 *)
  pay_is_soulbound : bool;
  pay_last_checked_in_at : Z; (* u64 *)
  pay_referral_amount : Z; (* i128 *)
  pay_referrer : option Address;
}.
#[export] Instance Payment_eta : Eta Payment := fun p =>
  mkPayment (pay_payment_id p) (pay_event_id p) (pay_buyer_address p) (pay_owner_address p)
    (pay_ticket_tier_id p) (pay_token_address p) (pay_amount p) (pay_platform_fee p)
    (pay_organizer_amount p) (pay_status p) (pay_transaction_hash p) (pay_created_at p)
    (pay_confirmed_at p) (pay_refunded_amount p) (pay_is_soulbound p)
    (pay_last_checked_in_at p) (pay_referral_amount p) (pay_referrer p).

Record EventBalance := mkEventBalance {
  eb_organizer_amount : Z; (* i128 *)
  eb_total_withdrawn : Z; (* i128 *)
  eb_platform_fee : Z; (* i128 *)
}.
#[export] Instance EventBalance_eta : Eta EventBalance := fun b =>
  mkEventBalance (eb_organizer_amount b) (eb_total_withdrawn b) (eb_platform_fee b).

Record DiscountData := mkDiscountData {
  dd_percentage : Z; (* u32 *)
  dd_expires_at : Z; (* u64 *)
  dd_max_uses : Z; (* u32 *)
  dd_current_uses : Z; (* u32 *)
}.
#[export] Instance DiscountData_eta : Eta DiscountData := fun d =>
  mkDiscountData (dd_percentage d) (dd_expires_at d) (dd_max_uses d) (dd_current_uses d).

Record PurchaseOptions := mkPurchaseOptions {
  po_code_preimage : option Bytes;
  po_referrer : option Address;
  po_discount_code : option string;
  po_affiliate_address : option Address;
}.

Record HighestBid := mkHighestBid {
  hb_bidder : Address;
  hb_token_address : Address;
  hb_amount : Z; (* i128 *)
}.

(** ** Governance ([governance.rs]) *)
Inductive ParameterChange :=
  | AddGovernor (governor : Address)
  | RemoveGovernor (governor : Address)
  | AddTokenToWhitelist (token : Address)
  | RemoveTokenFromWhitelist (token : Address)
  | UpdateWithdrawalCap (token : Address) (cap : Z)
  | UpdateSlippage (bps : Z)
  | UpdateTransferFee (event_id : string) (fee : Z)
  | EscrowWithdrawal (event_id : string) (amount : Z).

Module ProposalStatus.
Inductive ProposalStatus := Pending | Executed | Rejected.
#[global] Instance eq_dec : EqDecision ProposalStatus.
Proof. solve_decision. Defined.
End ProposalStatus.

Record ParameterProposal := mkParameterProposal {
  pp_id : Z; (* u64 *)
  pp_proposer : Address;
  pp_change : ParameterChange;
  pp_status : ProposalStatus.ProposalStatus;
  pp_created_at : Z; (* u64 *)
  pp_expires_at : Z; (* u64 *)
  pp_vote_count : Z; (* u32 *)
  pp_voters : list Address;
}.
#[export] Instance ParameterProposal_eta : Eta ParameterProposal := fun p =>
  mkParameterProposal (pp_id p) (pp_proposer p) (pp_change p) (pp_status p)
    (pp_created_at p) (pp_expires_at p) (pp_vote_count p) (pp_voters p).

(** ** Escrow milestones ([escrow.rs]) *)
Record EscrowMilestone := mkEscrowMilestone {
  em_sales_threshold : Z; (* i128 *)
  em_release_percent : Z; (* u32 *)
  em_released : bool;
}.

Record EscrowState := mkEscrowState {
  es_total_collected : Z; (* i128 *)
  es_total_released : Z; (* i128 *)
  es_milestones_reached : Z; (* u32 *)
}.
#[export] Instance EscrowState_eta : Eta EscrowState := fun e =>
  mkEscrowState (es_total_collected e) (es_total_released e) (es_milestones_reached e).

(** ** Resale ([resale.rs]) *)
Module ResaleStatus.
Inductive ResaleStatus := Active | Cancelled | Completed | Sold.
#[global] Instance eq_dec : EqDecision ResaleStatus.
Proof. solve_decision. Defined.
End ResaleStatus.

Record ResaleListing := mkResaleListing {
  rl_payment_id : string;
  rl_event_id : string;
  rl_seller : Address;
  rl_ask_price : Z; (* i128 *)
  rl_price : Z; (* i128 *)
  rl_max_price : Z; (* i128 *)
  rl_royalty_bps : Z; (* u32 *)
  rl_status : ResaleStatus.ResaleStatus;
  rl_listed_at : Z; (* u64 *)
}.
#[export] Instance ResaleListing_eta : Eta ResaleListing := fun l =>
  mkResaleListing (rl_payment_id l) (rl_event_id l) (rl_seller l) (rl_ask_price l)
    (rl_price l) (rl_max_price l) (rl_royalty_bps l) (rl_status l) (rl_listed_at l).

(** ** The contracts it calls ([interfaces.rs]) *)
Module price_oracle.
Record PriceData := mkPriceData {
  price : Z; (* i128 *)
  timestamp : Z; (* u64 *)
}.
End price_oracle.

(** The event registry, with the shape of the records that the payment contract
    decodes. *)
Module event_registry.
Inductive EventStatus := Active | Inactive | Cancelled.
#[global] Instance EventStatus_eq_dec : EqDecision EventStatus.
Proof. solve_decision. Defined.

Inductive DisputeStatus := Open | Voting | ResolvedBuyer | ResolvedOrganizer | Expired.
#[global] Instance DisputeStatus_eq_dec : EqDecision DisputeStatus.
Proof. solve_decision. Defined.

Record Dispute := mkDispute {
  d_event_id : string;
  d_opened_by : Address;
  d_opened_at : Z; (* u64 *)
  d_closes_at : Z; (* u64 *)
  d_status : DisputeStatus;
  d_total_votes : Z; (* u32 *)
  d_buyer_votes : Z; (* u32 *)
  d_organizer_votes : Z; (* u32 *)
  d_quorum_threshold_bps : Z; (* u32 *)
  d_total_eligible_tickets : Z; (* i128 *)
}.

Record AuctionConfig := mkAuctionConfig {
  ac_start_price : Z; (* i128 *)
  ac_end_time : Z; (* u64 *)
  ac_min_increment : Z; (* i128 *)
}.

Record TicketTier := mkTicketTier {
  tt_name : string;
  tt_price : Z; (* i128 *)
  tt_early_bird_price : Z; (* i128 *)
  tt_early_bird_deadline : Z; (* u64 *)
  tt_usd_price : Z; (* i128 *)
  tt_tier_limit : Z; (* i128 *)
  tt_current_sold : Z; (* i128 *)
  tt_is_refundable : bool;
  tt_auction_config : list AuctionConfig;
  tt_loyalty_multiplier : Z; (* u32 *)
}.

Record Milestone := mkMilestone {
  ms_sales_threshold : Z; (* i128 *)
  ms_release_percent : Z; (* u32 *)
}.

Record EventInfo := mkEventInfo {
  ei_event_id : string;
  ei_name : string;
  ei_organizer_address : Address;
  ei_payment_address : Address;
  ei_platform_fee_percent : Z; (* u32 *)
  ei_is_active : bool;
  ei_status : EventStatus;
  ei_created_at : Z; (* u64 *)
  ei_metadata_cid : string;
  ei_max_supply : Z; (* i128 *)
  ei_current_supply : Z; (* i128 *)
  ei_milestone_plan : option (list Milestone);
  ei_tiers : gmap string TicketTier;
  ei_refund_deadline : Z; (* u64 *)
  ei_restocking_fee : Z; (* i128 *)
  ei_resale_cap_bps : option Z;
  ei_min_sales_target : Z; (* i128 *)
  ei_target_deadline : Z; (* u64 *)
  ei_goal_met : bool;
  ei_custom_fee_bps : option Z;
  ei_banner_cid : option string;
  ei_tags : option (list string);
  ei_start_time : Z; (* u64 *)
  ei_end_time : Z; (* u64 *)
  ei_accepted_tokens : list Address;
  ei_use_global_whitelist : bool;
  ei_referral_rate_bps : Z; (* u32 *)
}.
End event_registry.

(** ** Published events ([events.rs]) *)
Module events.
Inductive AgoraEvent :=
  | PaymentProcessed (payment_id event_id : string) (buyer_address : Address)
      (amount platform_fee timestamp : Z)
  | PaymentStatusChanged (payment_id : string) (old_status new_status : PaymentStatus)
      (transaction_hash : string) (timestamp : Z)
  | ContractInitialized (usdc_token platform_wallet event_registry : Address)
  | TicketTransferred (payment_id : string) (from to : Address) (transfer_fee timestamp : Z)
  | PriceSwitched (event_id tier_id : string) (new_price timestamp : Z)
  | BulkRefundProcessed (event_id : string) (refund_count total_refunded timestamp : Z)
  | DiscountCodeApplied (payment_id event_id : string) (code_hash : Bytes)
      (discount_amount timestamp : Z)
  | RevenueClaimed (event_id : string) (organizer_address : Address) (amount timestamp : Z)
  | FeeSettled (event_id : string) (platform_wallet : Address)
      (fee_amount fee_bps timestamp : Z)
  | GlobalPromoApplied (payment_id event_id : string) (promo_bps discount_amount timestamp : Z)
  | ContractPaused (paused : bool) (timestamp : Z)
  | DisputeStatusChanged (event_id : string) (is_disputed : bool) (timestamp : Z)
  | PartialRefundProcessed (event_id : string)
      (refund_count total_refunded percentage_bps timestamp : Z)
  | TicketCheckedIn (payment_id event_id : string) (attendee scanner : Address) (timestamp : Z)
  | BidPlaced (event_id tier_id : string) (bidder : Address) (amount timestamp : Z)
  | AuctionClosed (event_id tier_id : string) (winner : Address) (amount timestamp : Z)
  | ProposalCreated (proposal_id : Z) (proposer : Address) (change : ParameterChange)
      (timestamp : Z)
  | ProposalVoted (proposal_id : Z) (voter : Address) (timestamp : Z)
  | GovernanceActionExecuted (proposal_id : Z) (change : ParameterChange) (timestamp : Z)
  | ResaleListed (payment_id : string) (seller : Address) (ask_price timestamp : Z)
  | ResaleCancelled (payment_id : string) (seller : Address) (timestamp : Z)
  | ResalePurchased (payment_id : string) (seller buyer : Address)
      (price royalty timestamp : Z)
  | EventCancelled (event_id : string) (organizer : Address) (timestamp : Z)
  | CancellationRefundClaimed (payment_id event_id : string) (buyer : Address)
      (amount timestamp : Z)
  | PoapMinted (payment_id event_id : string) (attendee : Address) (timestamp : Z)
  | MilestoneReleased (event_id : string) (milestone_index amount_released timestamp : Z)
  | EscrowWithdrawalProposed (proposal_id : Z) (event_id : string) (amount : Z)
      (proposer : Address) (timestamp : Z)
  | EscrowWithdrawalApproved (proposal_id : Z) (approver : Address) (timestamp : Z)
  | EscrowWithdrawalExecuted (proposal_id : Z) (event_id : string) (amount : Z)
      (executor : Address) (timestamp : Z).
End events.
