(* ===== verification/Pricing.v ===== *)
(** * Ticket payment: pricing

    The two pricing engines of the payment contract
    ([ticket_payment/src/auction.rs] and [bonding_curve.rs]): the Dutch auction
    with its commit-reveal purchase, and the polynomial bonding curve.  Their
    storage is the record [Pricing] (the keys of [PricingKey]).  A price is an
    [option]: [None] is a trap of the checked 128-bit arithmetic.  The host's
    hash function and the encoding of addresses are parameters. *)

From stdpp Require Import base tactics numbers list strings gmap.
From S2P Require Import Prelude.
From S2P Require Import Soroban.
From S2P Require Import PaymentTypes.

(** ** Data *)
Definition MAX_BPS : Z := 10000.

Record PendingCommit := mkPendingCommit {
  pc_hash : Bytes;
  pc_expires_at : Z; (* u64 *)
  pc_committed_price : Z; (* i128 *)
  pc_max_slippage_bps : Z; (* u32 *)
}.

Record DutchAuctionConfig := mkDutchAuctionConfig {
  da_start_price : Z; (* i128 *)
  da_reserve_price : Z; (* i128 *)
  da_start_time : Z; (* u64 *)
  da_end_time : Z; (* u64 *)
  da_exponential : bool;
}.

Record BondingCurveConfig := mkBondingCurveConfig {
  bc_a_scaled : Z; (* i128 *)
  bc_b_exponent : Z; (* u32 *)
  bc_c_base : Z; (* i128 *)
  bc_initial_supply : Z; (* u32 *)
}.

(** The storage, by the keys of [PricingKey]. *)
Record Pricing := mkPricing {
  k_DutchAuction : gmap (string * string) DutchAuctionConfig;
  k_BondingCurve : gmap (string * string) BondingCurveConfig;
  k_PendingCommit : gmap (string * string * Address) PendingCommit;
}.
#[export] Instance Pricing_eta : Eta Pricing := fun s =>
  mkPricing (k_DutchAuction s) (k_BondingCurve s) (k_PendingCommit s).

Abbreviation R := (M Pricing TicketPaymentError).

(** The plain operators on [i128]; the result [None] is a trap. *)
Definition div_i128 (a b : Z) : option Z := checked_div I128 a b.

(** ** Dutch auction ([auction.rs]) *)
Module auction.
Definition COMMIT_EXPIRY_SECS : Z := 300.

Definition set_dutch_auction (event_id tier_id : string) (config : DutchAuctionConfig)
    (s : Pricing) : Pricing :=
  s <| k_DutchAuction := <[(event_id, tier_id) := config]> (k_DutchAuction s) |>.

Definition get_dutch_auction (event_id tier_id : string) (s : Pricing)
    : option DutchAuctionConfig :=
  k_DutchAuction s !! (event_id, tier_id).

Definition set_pending_commit (event_id tier_id : string) (buyer : Address)
    (commit : PendingCommit) (s : Pricing) : Pricing :=
  s <| k_PendingCommit := <[(event_id, tier_id, buyer) := commit]> (k_PendingCommit s) |>.

Definition take_pending_commit (event_id tier_id : string) (buyer : Address)
    : R (option PendingCommit) :=
  commit ← gets (fun s => k_PendingCommit s !! (event_id, tier_id, buyer));
  when (bool_decide (is_Some commit))
    (modify (fun s => s <| k_PendingCommit :=
                            delete (event_id, tier_id, buyer) (k_PendingCommit s) |>));;
  mret commit.

Definition validate_dutch_auction_config (cfg : DutchAuctionConfig) : R unit :=
  throw_if (da_reserve_price cfg <=? 0) InvalidPrice;;
  throw_if (da_start_price cfg <=? da_reserve_price cfg) InvalidPrice;;
  throw_if (da_end_time cfg <=? da_start_time cfg) InvalidPrice;;
  now ← ledger_timestamp;
  throw_if (da_end_time cfg <=? now) AuctionEnded.

Definition current_dutch_price_linear (cfg : DutchAuctionConfig) (now : Z) : option Z :=
  if da_end_time cfg <=? now then Some (da_reserve_price cfg)
  else if now <=? da_start_time cfg then Some (da_start_price cfg)
  else
    let elapsed := now - da_start_time cfg in
    let total := da_end_time cfg - da_start_time cfg in
    spread ← checked_sub I128 (da_start_price cfg) (da_reserve_price cfg);
    p ← checked_mul I128 elapsed spread;
    q ← div_i128 p total;
    checked_sub I128 (da_start_price cfg) q.

Definition current_dutch_price_exponential (cfg : DutchAuctionConfig) (now : Z) : option Z :=
  if da_end_time cfg <=? now then Some (da_reserve_price cfg)
  else if now <=? da_start_time cfg then Some (da_start_price cfg)
  else
    let elapsed := now - da_start_time cfg in
    let total := da_end_time cfg - da_start_time cfg in
    let scale := 1000000 in
    remaining ← checked_sub I128 total elapsed;
    rs ← checked_mul I128 remaining scale;
    f ← div_i128 rs total;
    two_f ← checked_mul I128 2 f;
    ff ← checked_mul I128 f f;
    ffs ← div_i128 ff scale;
    factor ← checked_sub I128 two_f ffs;
    spread ← checked_sub I128 (da_start_price cfg) (da_reserve_price cfg);
    sf ← checked_mul I128 spread factor;
    sfs ← div_i128 sf scale;
    checked_add I128 (da_reserve_price cfg) sfs.

Definition current_dutch_price (cfg : DutchAuctionConfig) (now : Z) : option Z :=
  if da_exponential cfg then current_dutch_price_exponential cfg now
  else current_dutch_price_linear cfg now.

Definition commit_purchase (event_id tier_id : string) (buyer : Address) (commit_hash : Bytes)
    (max_slippage_bps : Z) : R Z :=
  require_auth buyer;;
  throw_if (MAX_BPS <? max_slippage_bps) InvalidSlippageBps;;
  o ← gets (get_dutch_auction event_id tier_id);
  cfg ← ok_or o AuctionNotActive;
  now ← ledger_timestamp;
  throw_if (da_end_time cfg <=? now) AuctionEnded;;
  throw_if (now <? da_start_time cfg) AuctionNotActive;;
  committed_price ← unwrap (current_dutch_price cfg now);
  expires_at ← add_ U64 now COMMIT_EXPIRY_SECS;
  modify (set_pending_commit event_id tier_id buyer
            {| pc_hash := commit_hash; pc_expires_at := expires_at;
               pc_committed_price := committed_price;
               pc_max_slippage_bps := max_slippage_bps |});;
  mret committed_price.

(** [i128::to_le_bytes]: the 16 bytes of the two's complement, lowest first. *)
Fixpoint le_bytes (n : nat) (z : Z) : string :=
  match n with
  | O => EmptyString
  | S n => String (Ascii.ascii_of_N (Z.to_N (z mod 256))) (le_bytes n (z / 256))
  end.
Definition i128_to_le_bytes (value : Z) : Bytes := le_bytes 16 value.

Section Reveal.
(** The host's SHA-256 and the XDR encoding of an address. *)
Variable sha256 : Bytes -> Bytes.
Variable to_xdr : Address -> Bytes.

Definition build_commit_hash (secret : Bytes) (buyer : Address) (price_stroops : Z) : Bytes :=
  sha256 (secret +:+ to_xdr buyer +:+ i128_to_le_bytes price_stroops).

Definition reveal_purchase (event_id tier_id : string) (buyer : Address) (secret : Bytes)
    (price_stroops : Z) : R Z :=
  require_auth buyer;;
  o ← take_pending_commit event_id tier_id buyer;
  commit ← ok_or o InvalidSecret;
  now ← ledger_timestamp;
  throw_if (pc_expires_at commit <? now) CommitExpired;;
  let expected_hash := build_commit_hash secret buyer price_stroops in
  throw_if (bool_decide (expected_hash <> pc_hash commit)) InvalidSecret;;
  throw_if (bool_decide (price_stroops <> pc_committed_price commit)) PriceMismatch;;
  o ← gets (get_dutch_auction event_id tier_id);
  cfg ← ok_or o AuctionNotActive;
  current_price ← unwrap (current_dutch_price cfg now);
  slack ← mul_ I128 (pc_committed_price commit) (pc_max_slippage_bps commit);
  slack ← unwrap (div_i128 slack MAX_BPS);
  ceiling ← add_ I128 (pc_committed_price commit) slack;
  throw_if (ceiling <? current_price) PriceOutsideSlippage;;
  mret (Z.min current_price (pc_committed_price commit)).
End Reveal.
End auction.

(** ** Bonding curve ([bonding_curve.rs]) *)
Module bonding_curve.
Definition PARAM_SCALE : Z := 1000000.
Definition MAX_EXPONENT : Z := 4.

Definition set_bonding_curve (event_id tier_id : string) (config : BondingCurveConfig)
    (s : Pricing) : Pricing :=
  s <| k_BondingCurve := <[(event_id, tier_id) := config]> (k_BondingCurve s) |>.

Definition get_bonding_curve (event_id tier_id : string) (s : Pricing)
    : option BondingCurveConfig :=
  k_BondingCurve s !! (event_id, tier_id).

(** [None] is [Ok(())]. *)
Definition validate_bonding_curve_config (cfg : BondingCurveConfig)
    : option TicketPaymentError :=
  if bc_a_scaled cfg <=? 0 then Some InvalidPrice
  else if (bc_b_exponent cfg =? 0) || (MAX_EXPONENT <? bc_b_exponent cfg) then Some InvalidPrice
  else if bc_c_base cfg <? 0 then Some InvalidPrice
  else if bc_initial_supply cfg =? 0 then Some MaxSupplyExceeded
  else None.

(** The loop [for _ in 0..exp]. *)
Fixpoint pow_loop (n : nat) (base result : Z) : Z :=
  match n with
  | O => result
  | S n => pow_loop n base (saturating_mul I128 result base)
  end.
Definition integer_pow (base exp : Z) : Z :=
  if exp =? 0 then 1 else pow_loop (Z.to_nat exp) base 1.

Definition bonding_curve_price (cfg : BondingCurveConfig) (remaining_supply : Z) : option Z :=
  let s_pow_b := integer_pow remaining_supply (bc_b_exponent cfg) in
  p ← checked_mul I128 (bc_a_scaled cfg) s_pow_b;
  variable_component ← div_i128 p PARAM_SCALE;
  checked_add I128 variable_component (bc_c_base cfg).

(** The antiderivative at [s]. *)
Definition integral_at (cfg : BondingCurveConfig) (s : Z) : option Z :=
  b_plus_1 ← checked_add U32 (bc_b_exponent cfg) 1;
  let s_pow := integer_pow s b_plus_1 in
  p ← checked_mul I128 (bc_a_scaled cfg) s_pow;
  q ← div_i128 p b_plus_1;
  r ← div_i128 q PARAM_SCALE;
  c ← checked_mul I128 (bc_c_base cfg) s;
  checked_add I128 r c.

Definition bonding_curve_integral_cost (cfg : BondingCurveConfig) (remaining_supply quantity : Z)
    : R Z :=
  if quantity =? 0 then mret 0
  else
    throw_if (remaining_supply <? quantity) MaxSupplyExceeded;;
    hi ← unwrap (integral_at cfg remaining_supply);
    lo ← unwrap (integral_at cfg (remaining_supply - quantity));
    cost ← sub_ I128 hi lo;
    throw_if (cost <? 0) ArithmeticError;;
    mret cost.

Definition check_slippage (actual_price buyer_quoted_price max_slippage_bps : Z) : R unit :=
  throw_if (MAX_BPS <? max_slippage_bps) InvalidSlippageBps;;
  slack ← mul_ I128 buyer_quoted_price max_slippage_bps;
  slack ← unwrap (div_i128 slack MAX_BPS);
  ceiling ← add_ I128 buyer_quoted_price slack;
  throw_if (ceiling <? actual_price) PriceOutsideSlippage.
End bonding_curve.

(** ** The Dutch auction price *)

(** The parameters as their types have them, and a spread below [2 ^ 63]: with
    it no product of the price functions leaves the 128 bits, whatever the
    duration. *)
Record auction_typed (cfg : DutchAuctionConfig) : Prop := {
  at_start : da_start_price cfg ∈ᵢ I128;
  at_reserve : da_reserve_price cfg ∈ᵢ I128;
  at_from : da_start_time cfg ∈ᵢ U64;
  at_to : da_end_time cfg ∈ᵢ U64;
  at_spread : da_start_price cfg - da_reserve_price cfg < 2 ^ 63;
}.

(** What [validate_dutch_auction_config] establishes. *)
Record auction_valid (cfg : DutchAuctionConfig) : Prop := {
  av_typed : auction_typed cfg;
  av_reserve : 0 < da_reserve_price cfg;
  av_prices : da_reserve_price cfg < da_start_price cfg;
  av_times : da_start_time cfg < da_end_time cfg;
}.

Lemma validate_valid cfg env s s' :
  auction_typed cfg -> auction.validate_dutch_auction_config cfg env s = Done tt s' ->
  auction_valid cfg.
Proof.
  intros Ht. unfold auction.validate_dutch_auction_config. intros H. exec. bools.
  by split; [|lia..].
Qed.

Lemma div_i128_ok a b :
  0 <= a -> a <= int_max I128 -> 0 < b -> div_i128 a b = Some (a / b).
Proof.
  intros. unfold div_i128, checked_div. destruct (Z.eqb_spec b 0); [lia|].
  rewrite Z.quot_div_nonneg by lia. apply checked_in.
  assert (0 <= a / b <= a) by (split; [apply Z.div_pos|apply Z.div_le_upper_bound]; nia).
  cbn in *. lia.
Qed.

Lemma option_bind_ok {A B} (m : option A) (k : A -> option B) a :
  m = Some a -> m ≫= k = k a.
Proof. by intros ->. Qed.

Ltac int_ops :=
  repeat first
    [ erewrite option_bind_ok; [|apply checked_in; cbn in *; nia]
    | erewrite option_bind_ok; [|apply div_i128_ok; cbn in *; nia]
    | apply checked_in; cbn in *; nia ].

(** The decay inside of the auction, as exact formulas. *)
Definition linear_decay (spread total elapsed : Z) : Z := spread - elapsed * spread / total.

Definition concave (scale f : Z) : Z := 2 * f - f * f / scale.

Definition concave_decay (spread total elapsed : Z) : Z :=
  spread * concave 1000000 ((total - elapsed) * 1000000 / total) / 1000000.

Lemma concave_mono scale f g :
  0 < scale -> 0 <= f <= g -> g <= scale -> 0 <= concave scale f <= concave scale g.
Proof.
  intros Hs Hf Hg. unfold concave.
  assert (g * g / scale <= (f * f + 2 * (g - f) * scale) / scale)
    by (apply Z.div_le_mono; nia).
  rewrite Z.div_add in * by lia.
  assert (f * f / scale <= f) by (apply Z.div_le_upper_bound; nia). lia.
Qed.

Lemma concave_max scale : 0 < scale -> concave scale scale = scale.
Proof. intros. unfold concave. rewrite Z.div_mul by lia. lia. Qed.

(** A decay starts at the spread, ends at zero and never rises. *)
Record decays (d : Z -> Z) (spread total : Z) : Prop := {
  dc_mono : forall e e', 0 <= e <= e' -> e' <= total -> d e' <= d e;
  dc_zero : d 0 = spread;
  dc_total : d total = 0;
}.

Lemma linear_decays spread total :
  0 < spread -> 0 < total -> decays (linear_decay spread total) spread total.
Proof.
  intros Hs Ht. unfold linear_decay. split.
  - intros e e' He He'. enough (e * spread / total <= e' * spread / total) by lia.
    apply Z.div_le_mono; nia.
  - rewrite Z.div_0_l; lia.
  - rewrite Z.mul_comm, Z.div_mul; lia.
Qed.

Lemma concave_decays spread total :
  0 < spread -> 0 < total -> decays (concave_decay spread total) spread total.
Proof.
  intros Hs Ht. unfold concave_decay. split.
  - intros e e' He He'. apply Z.div_le_mono; [lia|]. apply Z.mul_le_mono_nonneg_l; [lia|].
    apply concave_mono; [lia| |].
    + split; [apply Z.div_pos|apply Z.div_le_mono]; nia.
    + apply Z.div_le_upper_bound; nia.
  - rewrite Z.sub_0_r, (Z.mul_comm total), Z.div_mul, concave_max, Z.div_mul by lia. done.
  - replace ((total - total) * 1000000) with 0 by lia. rewrite Z.div_0_l by lia.
    unfold concave. cbn. rewrite Z.mul_0_r. done.
Qed.

Definition decay (cfg : DutchAuctionConfig) : Z -> Z :=
  let spread := da_start_price cfg - da_reserve_price cfg in
  let total := da_end_time cfg - da_start_time cfg in
  if da_exponential cfg then concave_decay spread total else linear_decay spread total.

(** The time since the start, clamped to the auction. *)
Definition clamped (cfg : DutchAuctionConfig) (now : Z) : Z :=
  Z.min (Z.max now (da_start_time cfg)) (da_end_time cfg) - da_start_time cfg.

Lemma decay_decays cfg :
  auction_valid cfg ->
  decays (decay cfg) (da_start_price cfg - da_reserve_price cfg)
    (da_end_time cfg - da_start_time cfg).
Proof.
  intros [_ Hr Hp Ht]. unfold decay.
  destruct (da_exponential cfg); [apply concave_decays|apply linear_decays]; lia.
Qed.

Lemma linear_inside cfg now :
  auction_valid cfg -> da_start_time cfg < now < da_end_time cfg ->
  auction.current_dutch_price_linear cfg now =
  Some (da_reserve_price cfg
        + linear_decay (da_start_price cfg - da_reserve_price cfg)
            (da_end_time cfg - da_start_time cfg) (now - da_start_time cfg)).
Proof.
  intros Hv Hnow. pose proof (decay_decays cfg Hv) as Hd. destruct Hv as [[Hs Hr Hf Ht Hsp] H0 Hp Htm].
  unfold auction.current_dutch_price_linear, linear_decay.
  rewrite (proj2 (Z.leb_gt _ now)), (proj2 (Z.leb_gt now _)) by lia. cbv zeta.
  set (el := now - da_start_time cfg). set (tot := da_end_time cfg - da_start_time cfg).
  set (sp := da_start_price cfg - da_reserve_price cfg).
  assert (0 <= el * sp / tot <= sp)
    by (split; [apply Z.div_pos|apply Z.div_le_upper_bound]; nia).
  unfold checked_sub, checked_mul. fold sp.
  assert (0 <= el * sp <= int_max I128) by (cbn in *; nia).
  int_ops. erewrite checked_in by (cbn in *; lia). f_equal. lia.
Qed.

Lemma exponential_inside cfg now :
  auction_valid cfg -> da_start_time cfg < now < da_end_time cfg ->
  auction.current_dutch_price_exponential cfg now =
  Some (da_reserve_price cfg
        + concave_decay (da_start_price cfg - da_reserve_price cfg)
            (da_end_time cfg - da_start_time cfg) (now - da_start_time cfg)).
Proof.
  intros [[Hs Hr Hf Ht Hsp] H0 Hp Htm] Hnow.
  unfold auction.current_dutch_price_exponential, concave_decay.
  rewrite (proj2 (Z.leb_gt _ now)), (proj2 (Z.leb_gt now _)) by lia. cbv zeta.
  set (tot := da_end_time cfg - da_start_time cfg).
  set (el := now - da_start_time cfg).
  set (sp := da_start_price cfg - da_reserve_price cfg).
  set (f := (tot - el) * 1000000 / tot).
  assert (0 <= f <= 1000000) as Hfr
    by (split; [apply Z.div_pos|apply Z.div_le_upper_bound]; nia).
  pose proof (concave_mono 1000000 f 1000000) as Hc. rewrite concave_max in Hc by lia.
  set (g := concave 1000000 f) in *.
  assert (0 <= sp * g / 1000000 <= sp)
    by (split; [apply Z.div_pos|apply Z.div_le_upper_bound]; nia).
  assert (0 <= f * f / 1000000 <= f)
    by (split; [apply Z.div_pos|apply Z.div_le_upper_bound]; nia).
  unfold checked_sub, checked_mul, checked_add. fold sp.
  assert (0 <= tot - el <= int_max U64) by (cbn in *; lia).
  erewrite option_bind_ok by (apply checked_in; cbn in *; lia).
  erewrite option_bind_ok by (apply checked_in; cbn in *; lia).
  erewrite option_bind_ok by (apply div_i128_ok; cbn in *; lia). fold f.
  erewrite option_bind_ok by (apply checked_in; cbn in *; lia).
  erewrite option_bind_ok by (apply checked_in; cbn in *; nia).
  erewrite option_bind_ok by (apply div_i128_ok; cbn in *; nia).
  change (2 * f - f * f / 1000000) with g.
  int_ops.
Qed.

(** The price is the reserve plus the decay of the clamped time, and the
    arithmetic never traps. *)
Lemma dutch_price_formula cfg now :
  auction_valid cfg ->
  auction.current_dutch_price cfg now = Some (da_reserve_price cfg + decay cfg (clamped cfg now)).
Proof.
  intros Hv. pose proof (decay_decays cfg Hv) as [Hm Hz Ht]. pose proof (av_times cfg Hv).
  unfold auction.current_dutch_price, clamped.
  destruct (decide (da_start_time cfg < now < da_end_time cfg)) as [Hin|Hout].
  - rewrite linear_inside, exponential_inside by done.
    rewrite Z.max_l, Z.min_l by lia. unfold decay. by destruct (da_exponential cfg).
  - unfold auction.current_dutch_price_exponential, auction.current_dutch_price_linear.
    destruct (Z.leb_spec (da_end_time cfg) now).
    + rewrite Z.max_l, Z.min_r, Ht by lia. destruct (da_exponential cfg); f_equal; lia.
    + rewrite (proj2 (Z.leb_le now _)), Z.max_r, Z.min_l by lia.
      replace (da_start_time cfg - da_start_time cfg) with 0 by lia. rewrite Hz.
      destruct (da_exponential cfg); f_equal; lia.
Qed.

Lemma decay_range cfg now :
  auction_valid cfg ->
  0 <= decay cfg (clamped cfg now) <= da_start_price cfg - da_reserve_price cfg.
Proof.
  intros Hv. pose proof (decay_decays cfg Hv) as [Hm Hz Ht]. pose proof (av_times cfg Hv).
  assert (0 <= clamped cfg now <= da_end_time cfg - da_start_time cfg) by (unfold clamped; lia).
  pose proof (Hm 0 (clamped cfg now)). pose proof (Hm (clamped cfg now) _ ltac:(eassumption)). lia.
Qed.

(** A Dutch auction decays.  For a configuration that passed validation, the
    price exists at every time (no step of the integer arithmetic traps), stays
    between the reserve and the start price, never rises, is the start price
    until the start and the reserve from the end on, for both decays. *)
Theorem dutch_price_decays cfg env s s' now now' :
  auction_typed cfg -> auction.validate_dutch_auction_config cfg env s = Done tt s' ->
  now <= now' ->
  exists p p',
    auction.current_dutch_price cfg now = Some p /\
    auction.current_dutch_price cfg now' = Some p' /\
    da_reserve_price cfg <= p' <= p /\ p <= da_start_price cfg /\
    (now <= da_start_time cfg -> p = da_start_price cfg) /\
    (da_end_time cfg <= now' -> p' = da_reserve_price cfg).
Proof.
  intros Ht Hval Hle. pose proof (validate_valid cfg env s s' Ht Hval) as Hv.
  eexists _, _. rewrite !dutch_price_formula by done. split_and!; try done.
  - pose proof (decay_range cfg now' Hv). lia.
  - pose proof (decay_decays cfg Hv) as [Hm _ _]. pose proof (av_times cfg Hv).
    apply Zplus_le_compat_l, Hm; unfold clamped; lia.
  - pose proof (decay_range cfg now Hv). lia.
  - intros. pose proof (av_times cfg Hv). pose proof (dc_zero _ _ _ (decay_decays cfg Hv)) as Hz.
    replace (clamped cfg now) with 0 by (unfold clamped; lia). rewrite Hz. lia.
  - intros. pose proof (av_times cfg Hv). pose proof (dc_total _ _ _ (decay_decays cfg Hv)) as Hz.
    replace (clamped cfg now') with (da_end_time cfg - da_start_time cfg)
      by (unfold clamped; lia). rewrite Hz. lia.
Qed.

(** ** Commit and reveal *)
Section CommitReveal.
Variable sha256 : Bytes -> Bytes.
Variable to_xdr : Address -> Bytes.
Context (event_id tier_id : string) (buyer : Address).

Abbreviation commit_purchase := (auction.commit_purchase event_id tier_id buyer).
Abbreviation reveal_purchase := (auction.reveal_purchase sha256 to_xdr event_id tier_id buyer).
Abbreviation key := (event_id, tier_id, buyer).

Lemma take_pending_eq env s :
  auction.take_pending_commit event_id tier_id buyer env s =
  Done (k_PendingCommit s !! key)
    (s <| k_PendingCommit := delete key (k_PendingCommit s) |>).
Proof.
  unfold auction.take_pending_commit, gets, modify, mbind, M_bind, when.
  destruct (k_PendingCommit s !! key) as [c|] eqn:Hc; [done|].
  rewrite delete_id by done. by destruct s.
Qed.

(** What a successful commit did. *)
Lemma commit_Done h bps env s p s' :
  commit_purchase h bps env s = Done p s' ->
  exists cfg,
    k_DutchAuction s !! (event_id, tier_id) = Some cfg /\
    da_start_time cfg <= timestamp env < da_end_time cfg /\
    auction.current_dutch_price cfg (timestamp env) = Some p /\
    bps <= MAX_BPS /\
    s' = s <| k_PendingCommit := <[ key := {| pc_hash := h;
           pc_expires_at := timestamp env + auction.COMMIT_EXPIRY_SECS;
           pc_committed_price := p; pc_max_slippage_bps := bps |} ]> (k_PendingCommit s) |>.
Proof.
  unfold auction.commit_purchase. intros H. exec. bools. eexists. split_and!; done.
Qed.

(** Without a pending commit a reveal is refused. *)
Lemma reveal_refused secret price env s :
  buyer ∈ auths env -> k_PendingCommit s !! key = None ->
  reveal_purchase secret price env s = Fail InvalidSecret.
Proof.
  intros Hau Hno. unfold auction.reveal_purchase. run_step; [done|].
  unfold mbind at 1, M_bind at 1. by rewrite take_pending_eq, Hno.
Qed.

(** A reveal needs its own commit.  A reveal that succeeds consumed a
    pending commit of the same buyer, event and tier that had not expired, whose
    hash is the hash of the revealed secret, buyer and price and whose committed
    price is the revealed price; the approved price is the smaller one of the
    committed price and the current price; the commit is gone afterwards, so a
    second reveal is refused, and nothing else of the storage has changed. *)
Theorem reveal_consumes_commit secret price env s r s' :
  reveal_purchase secret price env s = Done r s' ->
  (exists c cfg p,
    k_PendingCommit s !! key = Some c /\ timestamp env <= pc_expires_at c /\
    pc_hash c = auction.build_commit_hash sha256 to_xdr secret buyer price /\
    pc_committed_price c = price /\
    k_DutchAuction s !! (event_id, tier_id) = Some cfg /\
    auction.current_dutch_price cfg (timestamp env) = Some p /\ r = Z.min p price) /\
  s' = s <| k_PendingCommit := delete key (k_PendingCommit s) |> /\
  (forall secret' price' env', buyer ∈ auths env' ->
    reveal_purchase secret' price' env' s' = Fail InvalidSecret).
Proof.
  intros H. unfold auction.reveal_purchase in H. exec1. exec1. exec1. subst.
  rewrite take_pending_eq in Hrun0. injection Hrun0 as <- <-. exec. bools.
  split; [|split].
  - repeat match goal with H : ~ (_ <> _) |- _ => apply dec_stable in H end.
    eexists _, _, _. split_and!; try done. by f_equal.
  - done.
  - intros. apply reveal_refused; [done|]. upd_simpl. apply lookup_delete_eq.
Qed.

(** A commit can be revealed.  After a commit whose hash was computed from a
    secret and the price the commit returned, the buyer's reveal within the five
    minutes succeeds, approves the current price of the auction, which is at most
    the committed one (the slippage ceiling is never the reason of a refusal),
    and leaves the storage as it was before the commit, up to the buyer's old
    commit; after the five minutes it is refused as expired. *)
Theorem commit_then_reveal cfg secret bps env1 s p s1 env2 :
  auction_valid cfg -> da_start_price cfg <= 2 ^ 100 -> 0 <= bps ->
  k_DutchAuction s !! (event_id, tier_id) = Some cfg ->
  commit_purchase (auction.build_commit_hash sha256 to_xdr secret buyer p) bps env1 s = Done p s1 ->
  buyer ∈ auths env2 -> timestamp env1 <= timestamp env2 ->
  if timestamp env2 <=? timestamp env1 + auction.COMMIT_EXPIRY_SECS then
    exists r,
      auction.current_dutch_price cfg (timestamp env2) = Some r /\ r <= p /\
      reveal_purchase secret p env2 s1
        = Done r (s <| k_PendingCommit := delete key (k_PendingCommit s) |>)
  else reveal_purchase secret p env2 s1 = Fail CommitExpired.
Proof.
  intros Hv Hmax Hbps Hcfg (cfg' & Hcfg' & Hin & Hp & Hb & ->)%commit_Done Hau Hle.
  rewrite Hcfg in Hcfg'. injection Hcfg' as <-.
  rewrite dutch_price_formula in Hp by done. injection Hp as Hp.
  destruct (Z.leb_spec (timestamp env2) (timestamp env1 + auction.COMMIT_EXPIRY_SECS)) as [Ht|Ht].
  - pose proof (decay_range cfg (timestamp env1) Hv). pose proof (av_reserve cfg Hv).
    pose proof (decay_decays cfg Hv) as [Hm _ _].
    assert (decay cfg (clamped cfg (timestamp env2)) <= decay cfg (clamped cfg (timestamp env1)))
      by (apply Hm; unfold clamped; lia).
    pose proof (decay_range cfg (timestamp env2) Hv).
    set (r := da_reserve_price cfg + decay cfg (clamped cfg (timestamp env2))).
    assert (Hr : r <= p) by lia.
    exists r. split_and!; [by apply dutch_price_formula|done|].
    unfold auction.reveal_purchase. run_step; [done|].
    eapply bind_total; [apply take_pending_eq|]. upd_simpl. rewrite lookup_insert_eq.
    run_step; [done|]. run_step. run_step; [cbn; lia|].
    run_step; [by apply bool_decide_eq_false; intros []|]. run_step; [by apply bool_decide_eq_false; intros []|].
    run_step. unfold auction.get_dutch_auction. upd_simpl. run_step; [done|].
    run_step; [by apply dutch_price_formula|]. cbn [pc_committed_price pc_max_slippage_bps].
    unfold MAX_BPS in *. assert (0 <= p * bps <= 2 ^ 100 * 10000) by nia.
    assert (0 <= p * bps / 10000 <= 2 ^ 100)
      by (split; [apply Z.div_pos|apply Z.div_le_upper_bound]; lia).
    unfold mul_, add_, checked_mul, checked_add. run_step; [apply checked_in; cbn in *; lia|].
    run_step; [apply div_i128_ok; cbn in *; lia|]. run_step; [apply checked_in; cbn in *; lia|].
    run_step; [apply Z.ltb_ge; lia|]. rewrite Z.min_l by lia.
    unfold mret, M_ret. f_equal. destruct s; cbn. by rewrite delete_insert_eq.
  - unfold auction.reveal_purchase. run_step; [done|].
    eapply bind_total; [apply take_pending_eq|]. upd_simpl. rewrite lookup_insert_eq.
    run_step; [done|]. run_step. cbn [pc_expires_at].
    by rewrite (proj2 (Z.ltb_lt _ _)) by lia.
Qed.
End CommitReveal.

(** ** The bonding curve *)

(** What [validate_bonding_curve_config] establishes. *)
Record curve_valid (cfg : BondingCurveConfig) : Prop := {
  cv_a : 0 < bc_a_scaled cfg;
  cv_b : 1 <= bc_b_exponent cfg <= bonding_curve.MAX_EXPONENT;
  cv_c : 0 <= bc_c_base cfg;
}.

Lemma validate_curve_valid cfg :
  0 <= bc_b_exponent cfg -> bonding_curve.validate_bonding_curve_config cfg = None ->
  curve_valid cfg.
Proof.
  intros Hb. unfold bonding_curve.validate_bonding_curve_config.
  repeat case_match; try done. intros _. bools. split; lia.
Qed.

(** The saturating loop computes the power, cut off at the largest [i128]. *)
Lemma pow_loop_spec n base result :
  0 <= base -> 0 <= result <= int_max I128 ->
  bonding_curve.pow_loop n base result = Z.min (result * base ^ Z.of_nat n) (int_max I128).
Proof.
  intros Hb. revert result. induction n as [|n IH]; intros result Hr.
  { cbn [bonding_curve.pow_loop]. rewrite Z.mul_1_r. lia. }
  cbn [bonding_curve.pow_loop]. unfold saturating_mul, saturate.
  assert (0 <= result * base) by nia. rewrite Z.max_r by (cbn in *; lia).
  rewrite IH by (cbn in *; lia).
  rewrite Nat2Z.inj_succ, Z.pow_succ_r by lia.
  assert (0 <= base ^ Z.of_nat n) by (apply Z.pow_nonneg; lia).
  destruct (decide (result * base <= int_max I128)); [rewrite (Z.min_r (int_max I128)) by lia; f_equal; lia|].
  rewrite (Z.min_l (int_max I128)) by lia.
  destruct (decide (base ^ Z.of_nat n = 0)) as [Hz|Hz].
  - exfalso. apply Z.pow_eq_0 in Hz; [|lia]. subst. cbn in *. lia.
  - rewrite !Z.min_r; nia.
Qed.

Lemma integer_pow_spec base exp :
  0 <= base -> 0 <= exp ->
  bonding_curve.integer_pow base exp = Z.min (base ^ exp) (int_max I128).
Proof.
  intros Hb He. unfold bonding_curve.integer_pow. destruct (Z.eqb_spec exp 0) as [->|].
  { by rewrite Z.pow_0_r. }
  rewrite pow_loop_spec by (cbn; lia). rewrite Z2Nat.id by lia. by rewrite Z.mul_1_l.
Qed.

Lemma integer_pow_mono base base' exp :
  0 <= base <= base' -> 0 <= exp ->
  0 <= bonding_curve.integer_pow base exp <= bonding_curve.integer_pow base' exp.
Proof.
  intros. rewrite !integer_pow_spec by lia.
  assert (base ^ exp <= base' ^ exp) by (apply Z.pow_le_mono_l; lia).
  assert (0 <= base ^ exp) by (apply Z.pow_nonneg; lia). cbn in *. lia.
Qed.

Lemma div_i128_Some a b q : 0 <= a -> 0 < b -> div_i128 a b = Some q -> q = a / b.
Proof.
  intros Ha Hb. unfold div_i128, checked_div. destruct (Z.eqb_spec b 0); [lia|].
  rewrite Z.quot_div_nonneg by lia. intros H. exec. done.
Qed.

(** The variable part of a price or of the integral, for a power that does not
    grow: defined where the larger one is, and not larger. *)
Lemma price_eq cfg s p :
  curve_valid cfg -> 0 <= s ->
  bonding_curve.bonding_curve_price cfg s = Some p <->
  bc_a_scaled cfg * bonding_curve.integer_pow s (bc_b_exponent cfg) <= int_max I128 /\
  p <= int_max I128 /\
  p = bc_a_scaled cfg * bonding_curve.integer_pow s (bc_b_exponent cfg)
      / bonding_curve.PARAM_SCALE + bc_c_base cfg.
Proof.
  intros [Ha Hb Hc] Hs. unfold bonding_curve.bonding_curve_price. cbv zeta.
  pose proof (integer_pow_mono s s (bc_b_exponent cfg) ltac:(lia) ltac:(lia)).
  set (P := bonding_curve.integer_pow _ _) in *.
  assert (0 <= bc_a_scaled cfg * P) by nia.
  assert (0 <= bc_a_scaled cfg * P / bonding_curve.PARAM_SCALE) by (apply Z.div_pos; done).
  split.
  - intros H'. apply bind_Some in H' as (x & Hx & H'). apply bind_Some in H' as (y & Hy & H').
    exec. apply div_i128_Some in Hy as ->; [|done..]. lia.
  - intros (Hm & Hp & ->). unfold checked_mul, checked_add.
    erewrite option_bind_ok by (apply checked_in; cbn in *; lia).
    erewrite option_bind_ok by (by apply div_i128_ok).
    apply checked_in. cbn in *. lia.
Qed.

(** The curve price follows the supply.  For a validated curve, the price at
    a remaining supply exists whenever the price at a larger one does, is not
    larger, is never below the base price and is the base price when nothing
    remains: tickets get cheaper as they sell. *)
Theorem curve_price_monotone cfg s s' p' :
  0 <= bc_b_exponent cfg -> bonding_curve.validate_bonding_curve_config cfg = None ->
  0 <= s <= s' -> bonding_curve.bonding_curve_price cfg s' = Some p' ->
  exists p, bonding_curve.bonding_curve_price cfg s = Some p /\
    bc_c_base cfg <= p <= p' /\ (s = 0 -> p = bc_c_base cfg).
Proof.
  intros Hb0 Hval Hs Hp'. pose proof (validate_curve_valid cfg Hb0 Hval) as Hv.
  apply price_eq in Hp' as (Hm & Hp & ->); [|done|lia]. pose proof Hv as [Ha Hb Hc].
  pose proof (integer_pow_mono s s' (bc_b_exponent cfg) Hs ltac:(lia)).
  set (P := bonding_curve.integer_pow s _) in *. set (P' := bonding_curve.integer_pow s' _) in *.
  assert (0 <= bc_a_scaled cfg * P <= bc_a_scaled cfg * P') by nia.
  assert (0 <= bc_a_scaled cfg * P / bonding_curve.PARAM_SCALE
            <= bc_a_scaled cfg * P' / bonding_curve.PARAM_SCALE)
    by (split; [apply Z.div_pos|apply Z.div_le_mono]; done || lia).
  exists (bc_a_scaled cfg * P / bonding_curve.PARAM_SCALE + bc_c_base cfg).
  split_and!; [apply price_eq; [done|lia|]; split_and!; [lia|lia|done]|lia..|].
  intros ->. subst P. rewrite integer_pow_spec, Z.pow_0_l by lia. cbn. by rewrite Z.mul_0_r.
Qed.

(** The antiderivative as one formula. *)
Lemma integral_eq cfg s v :
  curve_valid cfg -> 0 <= s ->
  let p := bc_a_scaled cfg * bonding_curve.integer_pow s (bc_b_exponent cfg + 1) in
  bonding_curve.integral_at cfg s = Some v <->
  p <= int_max I128 /\ v <= int_max I128 /\
  v = p / (bc_b_exponent cfg + 1) / bonding_curve.PARAM_SCALE + bc_c_base cfg * s.
Proof.
  intros [Ha Hb Hc] Hs p. unfold bonding_curve.MAX_EXPONENT in Hb.
  unfold bonding_curve.integral_at. cbv zeta.
  pose proof (integer_pow_mono s s (bc_b_exponent cfg + 1) ltac:(lia) ltac:(lia)).
  assert (0 <= p) by (subst p; nia).
  assert (0 <= p / (bc_b_exponent cfg + 1) <= p)
    by (split; [apply Z.div_pos|apply Z.div_le_upper_bound]; nia).
  assert (0 <= p / (bc_b_exponent cfg + 1) / bonding_curve.PARAM_SCALE)
    by (apply Z.div_pos; [lia|done]).
  assert (0 <= bc_c_base cfg * s) by nia.
  unfold checked_add at 1. erewrite option_bind_ok by (apply checked_in; cbn; lia).
  change (checked_mul I128 (bc_a_scaled cfg) _) with (checked I128 p).
  clearbody p. split.
  - intros H'. repeat (apply bind_Some in H' as (? & ? & H')). exec.
    repeat match goal with
    | H : div_i128 _ _ = Some _ |- _ => apply div_i128_Some in H; [subst|first [done|lia]..]
    end. lia.
  - intros (Hm & Hp & ->). unfold checked_mul, checked_add.
    erewrite option_bind_ok by (apply checked_in; cbn in *; lia).
    erewrite option_bind_ok by (apply div_i128_ok; cbn in *; lia).
    erewrite option_bind_ok by (apply div_i128_ok; unfold bonding_curve.PARAM_SCALE; cbn in *; lia).
    erewrite option_bind_ok by (apply checked_in; cbn in *; lia).
    apply checked_in. cbn in *. lia.
Qed.

(** Defined at every smaller supply, and growing by at least the base price. *)
Lemma integral_mono cfg s s' v' :
  curve_valid cfg -> 0 <= s <= s' -> bonding_curve.integral_at cfg s' = Some v' ->
  exists v, bonding_curve.integral_at cfg s = Some v /\
    0 <= v /\ bc_c_base cfg * (s' - s) <= v' - v.
Proof.
  intros Hv Hs Hi. apply integral_eq in Hi as (Hm & Hp & ->); [|done|lia].
  pose proof Hv as [Ha Hb Hc].
  pose proof (integer_pow_mono s s' (bc_b_exponent cfg + 1) Hs ltac:(lia)).
  set (P := bonding_curve.integer_pow s _) in *. set (P' := bonding_curve.integer_pow s' _) in *.
  assert (0 <= bc_a_scaled cfg * P <= bc_a_scaled cfg * P') by nia.
  set (v := bc_a_scaled cfg * P / (bc_b_exponent cfg + 1) / bonding_curve.PARAM_SCALE).
  assert (0 <= v <= bc_a_scaled cfg * P' / (bc_b_exponent cfg + 1) / bonding_curve.PARAM_SCALE).
  { split; [apply Z.div_pos; [apply Z.div_pos|done]; lia|].
    apply Z.div_le_mono; [done|]. apply Z.div_le_mono; lia. }
  exists (v + bc_c_base cfg * s). split_and!; [|nia..].
  apply integral_eq; [done|lia|]. split_and!; [lia|nia|done].
Qed.

(** A successful quote is the difference of the antiderivative, and it is given
    exactly when the antiderivative at the supply does not trap. *)
Lemma cost_Done cfg r q env s c s' :
  curve_valid cfg -> 0 <= q <= r ->
  bonding_curve.bonding_curve_integral_cost cfg r q env s = Done c s' ->
  s' = s /\ (q = 0 /\ c = 0 \/
    exists hi lo, bonding_curve.integral_at cfg r = Some hi /\
      bonding_curve.integral_at cfg (r - q) = Some lo /\ c = hi - lo).
Proof.
  intros Hv Hq. unfold bonding_curve.bonding_curve_integral_cost.
  destruct (Z.eqb_spec q 0) as [->|]; intros H; exec; [by auto|].
  split; [done|]. right. eauto 10.
Qed.

Lemma cost_ok cfg r q env s hi :
  curve_valid cfg -> 0 <= q <= r -> bonding_curve.integral_at cfg r = Some hi ->
  exists lo, bonding_curve.integral_at cfg (r - q) = Some lo /\
    bc_c_base cfg * q <= hi - lo /\
    bonding_curve.bonding_curve_integral_cost cfg r q env s = Done (hi - lo) s.
Proof.
  intros Hv Hq Hhi. destruct (integral_mono cfg (r - q) r hi Hv ltac:(lia) Hhi) as (lo & Hlo & H0 & Hc).
  exists lo. split_and!; [done|lia|]. unfold bonding_curve.bonding_curve_integral_cost.
  destruct (Z.eqb_spec q 0) as [->|].
  { rewrite Z.sub_0_r, Hhi in Hlo. injection Hlo as ->. by rewrite Z.sub_diag. }
  pose proof (cv_c cfg Hv). apply integral_eq in Hhi as Hhi'; [|done|lia].
  run_step; [apply Z.ltb_ge; lia|]. run_step; [done|]. run_step; [done|].
  unfold sub_, checked_sub. run_step; [apply checked_in; cbn in *; nia|].
  run_step; [apply Z.ltb_ge; nia|]. done.
Qed.

(** Splitting an order changes nothing.  For a validated curve, when an order
    of [q1 + q2] tickets is quoted, the order of [q1] tickets and then the order
    of [q2] tickets at the supply the first one leaves are quoted too, and their
    quotes add up to the quote of the whole order exactly, rounding included;
    every ticket costs at least the base price. *)
Theorem curve_split_orders cfg r q1 q2 env s c :
  0 <= bc_b_exponent cfg -> bonding_curve.validate_bonding_curve_config cfg = None ->
  0 <= q1 -> 0 <= q2 -> q1 + q2 <= r ->
  bonding_curve.bonding_curve_integral_cost cfg r (q1 + q2) env s = Done c s ->
  exists c1 c2,
    bonding_curve.bonding_curve_integral_cost cfg r q1 env s = Done c1 s /\
    bonding_curve.bonding_curve_integral_cost cfg (r - q1) q2 env s = Done c2 s /\
    c = c1 + c2 /\ bc_c_base cfg * (q1 + q2) <= c.
Proof.
  intros Hb Hval H1 H2 Hr Hc. pose proof (validate_curve_valid cfg Hb Hval) as Hv.
  apply cost_Done in Hc as (_ & [[H0 ->]|(hi & lo & Hhi & Hlo & ->)]); [| |done|lia].
  { assert (q1 = 0) as -> by lia. assert (q2 = 0) as -> by lia. exists 0, 0.
    split_and!; [done..|]. lia. }
  destruct (cost_ok cfg r q1 env s hi Hv ltac:(lia) Hhi) as (mid & Hmid & Hc1 & E1).
  destruct (cost_ok cfg (r - q1) q2 env s mid Hv ltac:(lia) Hmid) as (lo' & Hlo' & Hc2 & E2).
  rewrite <- Z.sub_add_distr, Hlo in Hlo'. injection Hlo' as <-.
  exists (hi - mid), (mid - lo). split_and!; [done..|lia|lia].
Qed.

(** A difference of powers lies between its tangents. *)
Lemma pow_tangents (n : nat) x y :
  0 <= y <= x ->
  (Z.of_nat n + 1) * y ^ Z.of_nat n * (x - y)
    <= x ^ (Z.of_nat n + 1) - y ^ (Z.of_nat n + 1)
    <= (Z.of_nat n + 1) * x ^ Z.of_nat n * (x - y).
Proof.
  intros Hxy. induction n as [|n IH]; [cbn; lia|].
  rewrite Nat2Z.inj_succ, !Z.add_1_r in *.
  rewrite !(Z.pow_succ_r _ (Z.succ (Z.of_nat n))) by lia.
  assert (y ^ Z.succ (Z.of_nat n) <= x ^ Z.succ (Z.of_nat n)) by (apply Z.pow_le_mono_l; lia).
  assert (0 <= y ^ Z.succ (Z.of_nat n)) by (apply Z.pow_nonneg; lia).
  set (X := x ^ Z.succ (Z.of_nat n)) in *. set (Y := y ^ Z.succ (Z.of_nat n)) in *.
  replace (x * X - y * Y) with (x * (X - Y) + Y * (x - y)) by lia.
  assert (X = x * x ^ Z.of_nat n) as EX by (apply Z.pow_succ_r; lia).
  assert (Y = y * y ^ Z.of_nat n) as EY by (apply Z.pow_succ_r; lia).
  split.
  - enough (y * (X - Y) >= Z.succ (Z.of_nat n) * Y * (x - y)) by nia. rewrite EY at 2. nia.
  - enough (x * (X - Y) <= Z.succ (Z.of_nat n) * X * (x - y)) by nia. rewrite EX at 2. nia.
Qed.

Lemma div_diff_bounds A B K L U :
  0 < K -> L * K <= A - B -> A - B <= U -> L <= A / K - B / K <= U / K + 1.
Proof.
  intros HK Hl Hu. pose proof (Z.div_mod A K ltac:(lia)). pose proof (Z.div_mod B K ltac:(lia)).
  pose proof (Z.div_mod U K ltac:(lia)). pose proof (Z.mod_pos_bound A K HK).
  pose proof (Z.mod_pos_bound B K HK). pose proof (Z.mod_pos_bound U K HK). nia.
Qed.

Lemma scaled_bounds A S q :
  0 < S -> 0 < q -> 0 <= A -> A * q / S + 1 <= q * (A / S + 1).
Proof.
  intros HS Hq HA. pose proof (Z.div_mod A S ltac:(lia)). pose proof (Z.mod_pos_bound A S HS).
  enough (A * q / S < q * (A / S + 1)) by lia. apply Z.div_lt_upper_bound; nia.
Qed.

(** The variable part of a quote, for exact powers. *)
Lemma quote_bounds a b S x y :
  0 < a -> 0 <= b -> 0 < S -> 0 <= y < x ->
  (x - y) * (a * y ^ b / S)
    <= a * x ^ (b + 1) / (b + 1) / S - a * y ^ (b + 1) / (b + 1) / S
    <= (x - y) * (a * x ^ b / S + 1).
Proof.
  intros Ha Hb HS Hxy. rewrite !Z.div_div by lia.
  pose proof (pow_tangents (Z.to_nat b) x y ltac:(lia)) as [Hl Hu]. rewrite Z2Nat.id in * by lia.
  assert (0 <= x ^ b) by (apply Z.pow_nonneg; lia).
  assert (S * (a * y ^ b / S) <= a * y ^ b) by (apply Z.mul_div_le; lia).
  destruct (div_diff_bounds (a * x ^ (b + 1)) (a * y ^ (b + 1)) ((b + 1) * S)
    ((x - y) * (a * y ^ b / S)) ((b + 1) * (a * x ^ b * (x - y)))) as [H1 H2].
  - nia.
  - transitivity (a * ((b + 1) * y ^ b * (x - y))); [|nia].
    transitivity ((x - y) * (b + 1) * (S * (a * y ^ b / S))); [nia|].
    transitivity ((x - y) * (b + 1) * (a * y ^ b)); [|nia].
    apply Z.mul_le_mono_nonneg_l; nia.
  - transitivity (a * ((b + 1) * x ^ b * (x - y))); nia.
  - split; [done|]. rewrite Z.div_mul_cancel_l in H2 by lia.
    pose proof (scaled_bounds (a * x ^ b) S (x - y) HS ltac:(lia) ltac:(nia)). lia.
Qed.

(** A quote is fair against the spot price.  For a validated curve whose
    powers fit, the quote of [q] tickets is at least [q] times the spot price at
    the supply it leaves and at most [q] times the spot price at the supply it
    starts from, up to one unit of rounding per ticket. *)
Theorem curve_quote_near_spot cfg r q env s c p p' :
  0 <= bc_b_exponent cfg -> bonding_curve.validate_bonding_curve_config cfg = None ->
  0 < q <= r -> r ^ (bc_b_exponent cfg + 1) <= int_max I128 ->
  bonding_curve.bonding_curve_integral_cost cfg r q env s = Done c s ->
  bonding_curve.bonding_curve_price cfg r = Some p ->
  bonding_curve.bonding_curve_price cfg (r - q) = Some p' ->
  q * p' <= c <= q * (p + 1).
Proof.
  intros Hb0 Hval Hq Hfit Hc Hp Hp'. pose proof (validate_curve_valid cfg Hb0 Hval) as Hv.
  apply cost_Done in Hc as (_ & [?|(hi & lo & Hhi & Hlo & ->)]); [lia| |done|lia].
  apply integral_eq in Hhi as (_ & _ & ->); [|done|lia].
  apply integral_eq in Hlo as (_ & _ & ->); [|done|lia].
  apply price_eq in Hp as (_ & _ & ->); [|done|lia].
  apply price_eq in Hp' as (_ & _ & ->); [|done|lia].
  pose proof (cv_a cfg Hv) as Ha.
  assert (r ^ bc_b_exponent cfg <= r ^ (bc_b_exponent cfg + 1)) by (apply Z.pow_le_mono_r; lia).
  assert ((r - q) ^ (bc_b_exponent cfg + 1) <= r ^ (bc_b_exponent cfg + 1))
    by (apply Z.pow_le_mono_l; lia).
  assert ((r - q) ^ bc_b_exponent cfg <= r ^ bc_b_exponent cfg) by (apply Z.pow_le_mono_l; lia).
  rewrite !integer_pow_spec, !Z.min_l by lia.
  pose proof (quote_bounds (bc_a_scaled cfg) (bc_b_exponent cfg) bonding_curve.PARAM_SCALE r (r - q)
    ltac:(lia) ltac:(lia) ltac:(done) ltac:(lia)) as Hbd.
  replace (r - (r - q)) with q in Hbd by lia. lia.
Qed.

(** ** Samples *)
Module PricingSample.
Definition env (t : Z) : Env :=
  {| current_contract_address := "PAY"; timestamp := t; auths := ["BUYER"] |}.
Definition auction (exponential : bool) : DutchAuctionConfig :=
  mkDutchAuctionConfig 1000000 100000 100 1100 exponential.
Definition curve : BondingCurveConfig := mkBondingCurveConfig 2500000 2 500000 1000.
Definition state : Pricing :=
  mkPricing {[ ("EVENT", "VIP") := auction true ]} {[ ("EVENT", "VIP") := curve ]} ∅.

(** Stand-ins of the host functions. *)
Definition sha256 (b : Bytes) : Bytes := ("#" +:+ b)%string.
Definition to_xdr (a : Address) : Bytes := a.
Definition hash (price : Z) : Bytes := auction.build_commit_hash sha256 to_xdr "secret" "BUYER" price.
(** A commit at the price 775000 of time 600. *)
Definition committed : Pricing :=
  invoke (auction.commit_purchase "EVENT" "VIP" "BUYER" (hash 775000) 300) (env 600) state.

Lemma auction_ok exponential : auction_typed (auction exponential).
Proof. by split. Qed.
Lemma auction_fine exponential : auction_valid (auction exponential).
Proof. by split; [apply auction_ok|..]. Qed.
End PricingSample.

Lemma dutch_price_decays_witness :
  let cfg := PricingSample.auction false in
  exists p p',
    auction.current_dutch_price cfg 350 = Some p /\
    auction.current_dutch_price cfg 2000 = Some p' /\
    da_reserve_price cfg <= p' <= p /\ p <= da_start_price cfg /\
    (350 <= da_start_time cfg -> p = da_start_price cfg) /\
    (da_end_time cfg <= 2000 -> p' = da_reserve_price cfg).
Proof.
  intros cfg. apply (dutch_price_decays cfg (PricingSample.env 50) PricingSample.state
    PricingSample.state); [apply PricingSample.auction_ok|vm_compute; reflexivity|lia].
Defined.

Lemma commit_then_reveal_witness :
  let cfg := PricingSample.auction true in
  exists r,
    auction.current_dutch_price cfg 700 = Some r /\ r <= 775000 /\
    auction.reveal_purchase PricingSample.sha256 PricingSample.to_xdr "EVENT" "VIP" "BUYER"
      "secret" 775000 (PricingSample.env 700) PricingSample.committed
      = Done r PricingSample.state.
Proof.
  intros cfg.
  apply (commit_then_reveal PricingSample.sha256 PricingSample.to_xdr "EVENT" "VIP" "BUYER"
    cfg "secret" 300 (PricingSample.env 600) PricingSample.state 775000 PricingSample.committed
    (PricingSample.env 700)).
  - apply PricingSample.auction_fine.
  - vm_compute. discriminate.
  - done.
  - vm_compute. reflexivity.
  - vm_compute. reflexivity.
  - cbn. set_solver.
  - vm_compute. discriminate.
Defined.

Lemma reveal_consumes_commit_witness :
  auction.reveal_purchase PricingSample.sha256 PricingSample.to_xdr "EVENT" "VIP" "BUYER"
    "secret" 775000 (PricingSample.env 710) PricingSample.state = Fail InvalidSecret.
Proof.
  destruct (reveal_consumes_commit PricingSample.sha256 PricingSample.to_xdr "EVENT" "VIP" "BUYER"
    "secret" 775000 (PricingSample.env 700) PricingSample.committed 676000 PricingSample.state)
    as (_ & _ & Hagain); [vm_compute; reflexivity|].
  apply Hagain. cbn. set_solver.
Defined.

Lemma curve_price_monotone_witness :
  exists p, bonding_curve.bonding_curve_price PricingSample.curve 0 = Some p /\
    500000 <= p <= 3000000 /\ (0 = 0 -> p = 500000).
Proof.
  apply (curve_price_monotone PricingSample.curve 0 1000);
    [done|vm_compute; reflexivity|lia|vm_compute; reflexivity].
Defined.

Lemma curve_split_orders_witness :
  let quote r q := bonding_curve.bonding_curve_integral_cost PricingSample.curve r q
    (PricingSample.env 1) PricingSample.state in
  exists c1 c2,
    quote 1000 4 = Done c1 PricingSample.state /\ quote 996 6 = Done c2 PricingSample.state /\
    29750833 = c1 + c2 /\ 500000 * 10 <= 29750833.
Proof.
  apply (curve_split_orders PricingSample.curve 1000 4 6);
    [done|vm_compute; reflexivity|lia..|vm_compute; reflexivity].
Defined.

Lemma curve_quote_near_spot_witness : 10 * 2950250 <= 29750833 <= 10 * (3000000 + 1).
Proof.
  apply (curve_quote_near_spot PricingSample.curve 1000 10 (PricingSample.env 1)
    PricingSample.state); first [lia | vm_compute; reflexivity | vm_compute; discriminate].
Defined.

(** The concave decay is not above the linear one at every interior point: in the
    last second of an auction longer than the scale of a million seconds its
    factor is rounded to zero, and the price is the reserve already. *)
Lemma exponential_below_linear :
  let cfg := mkDutchAuctionConfig 1000000000000 1 0 10000000 in
  auction.current_dutch_price (cfg true) 9999999 = Some 1 /\
  auction.current_dutch_price (cfg false) 9999999 = Some 100001.
Proof. vm_compute. done. Qed.
