(* ===== verification/PaymentStorage.v ===== *)
(** * Ticket payment: storage

    The storage of the payment contract, one field per key of [DataKey] and
    [WalletLimitKey] ([keys.rs]), and every function of [storage.rs] and the
    storage functions of [resale.rs] and [escrow.rs].  The three sharded indexes
    are the [Index] of the library at the shard size of this contract.  The
    extension of lifetimes ([bump_persistent], [bump_instance]) changes no
    value. *)

From stdpp Require Import base tactics numbers list strings gmap.
From S2P Require Import Prelude.
From S2P Require Import Soroban.
From S2P Require Import Sharded.
From S2P Require Import PaymentTypes.

Record State := mkState {
  t_Payment : gmap string Payment;
  t_EventPayment : gmap (string * string) bool;
  t_EventPaymentIndex : Index string string;
  t_BuyerPayment : gmap (Address * string) bool;
  t_BuyerPaymentIndex : Index Address string;
  t_Admin : option Address;
  t_UsdcToken : option Address;
  t_PlatformWallet : option Address;
  t_EventRegistry : option Address;
  t_ProSubscriptionContract : option Address;
  t_Initialized : option bool;
  t_TokenWhitelist : gmap Address bool;
  t_Balances : gmap string EventBalance;
  t_TransferFee : gmap string Z;
  t_BulkRefundIndex : gmap string Z;
  t_PriceSwitched : gmap (string * string) bool;
  t_TotalVolumeProcessed : option Z;
  t_TotalFeesCollected : gmap Address Z;
  t_ActiveEscrowTotal : option Z;
  t_ActiveEscrowByToken : gmap Address Z;
  t_DiscountCodeHash : gmap Bytes bool;
  t_DiscountCodeUsed : gmap Bytes bool;
  t_DiscountCode : gmap (string * string) DiscountData;
  t_WithdrawalCap : gmap Address Z;
  t_DailyWithdrawalAmount : gmap (Address * Z) Z;
  t_IsPaused : option bool;
  t_EventCancelledForRefund : gmap string bool;
  t_PartialRefundIndex : gmap string Z;
  t_PartialRefundPercentage : gmap string Z;
  t_OracleAddress : option Address;
  t_SlippageBps : option Z;
  t_HighestBid : gmap (string * string) HighestBid;
  t_AuctionClosed : gmap (string * string) bool;
  t_Governor : gmap Address bool;
  t_TotalGovernors : option Z;
  t_Proposal : gmap Z ParameterProposal;
  t_ProposalCount : option Z;
  t_EventPaymentStatus : gmap (string * PaymentStatus) (list string);
  t_EventPaymentStatusEntry : gmap (string * PaymentStatus * string) bool;
  t_ValidationHash : gmap string Bytes;
  t_AffiliateRate : gmap (string * Address) Z;
  t_PoapMinted : gmap string bool;
  t_PoapsByAttendee : Index Address string;
  t_ResaleListing : gmap string ResaleListing;
  t_ResaleRoyaltyBps : gmap string Z;
  t_EscrowState : gmap string EscrowState;
  t_EscrowMilestone : gmap (string * Z) EscrowMilestone;
  t_MaxTicketsPerWallet : gmap string Z;
  t_WalletTicketCount : gmap (string * Address) Z;
  t_log : list events.AgoraEvent;
}.
#[export] Instance State_eta : Eta State := fun s =>
  mkState (t_Payment s) (t_EventPayment s) (t_EventPaymentIndex s) (t_BuyerPayment s)
    (t_BuyerPaymentIndex s) (t_Admin s) (t_UsdcToken s) (t_PlatformWallet s)
    (t_EventRegistry s) (t_ProSubscriptionContract s) (t_Initialized s)
    (t_TokenWhitelist s) (t_Balances s) (t_TransferFee s) (t_BulkRefundIndex s)
    (t_PriceSwitched s) (t_TotalVolumeProcessed s) (t_TotalFeesCollected s)
    (t_ActiveEscrowTotal s) (t_ActiveEscrowByToken s) (t_DiscountCodeHash s)
    (t_DiscountCodeUsed s) (t_DiscountCode s) (t_WithdrawalCap s)
    (t_DailyWithdrawalAmount s) (t_IsPaused s) (t_EventCancelledForRefund s)
    (t_PartialRefundIndex s) (t_PartialRefundPercentage s) (t_OracleAddress s)
    (t_SlippageBps s) (t_HighestBid s) (t_AuctionClosed s) (t_Governor s)
    (t_TotalGovernors s) (t_Proposal s) (t_ProposalCount s) (t_EventPaymentStatus s)
    (t_EventPaymentStatusEntry s) (t_ValidationHash s) (t_AffiliateRate s)
    (t_PoapMinted s) (t_PoapsByAttendee s) (t_ResaleListing s) (t_ResaleRoyaltyBps s)
    (t_EscrowState s) (t_EscrowMilestone s) (t_MaxTicketsPerWallet s)
    (t_WalletTicketCount s) (t_log s).

Definition empty_state : State := mkState
  ∅ ∅ empty_index ∅ empty_index None None None None None None ∅ ∅ ∅ ∅ ∅ None ∅ None
  ∅ ∅ ∅ ∅ ∅ ∅ None ∅ ∅ ∅ None None ∅ ∅ ∅ None ∅ None ∅ ∅ ∅ ∅ ∅ empty_index ∅ ∅ ∅ ∅ ∅
  ∅ [].

Abbreviation R := (M State TicketPaymentError).

Definition publish (e : events.AgoraEvent) : R unit :=
  modify (fun s => s <| t_log := t_log s ++ [e] |>).

Module storage.
Definition SHARD_SIZE : Z := 100.
Definition MAX_ALLOWED_SLIPPAGE_BPS : Z := 500.
Definition DEFAULT_RESALE_ROYALTY_BPS : Z := 500.
Definition MAX_RESALE_ROYALTY_BPS : Z := 5000.

(** *** Configuration *)
Definition set_admin (admin : Address) (s : State) : State :=
  s <| t_Admin := Some admin |>.

Definition get_admin (s : State) : option Address := t_Admin s.

Definition set_usdc_token (address : Address) (s : State) : State :=
  s <| t_UsdcToken := Some address |>.

Definition get_usdc_token : R Address := a ← gets t_UsdcToken; unwrap a.

Definition set_platform_wallet (address : Address) (s : State) : State :=
  s <| t_PlatformWallet := Some address |>.

Definition get_platform_wallet : R Address := a ← gets t_PlatformWallet; unwrap a.

Definition set_event_registry (address : Address) (s : State) : State :=
  s <| t_EventRegistry := Some address |>.

Definition get_event_registry : R Address := a ← gets t_EventRegistry; unwrap a.

Definition set_pro_subscription_contract (address : Address) (s : State) : State :=
  s <| t_ProSubscriptionContract := Some address |>.

Definition get_pro_subscription_contract (s : State) : option Address := t_ProSubscriptionContract s.

Definition set_initialized (value : bool) (s : State) : State :=
  s <| t_Initialized := Some value |>.

Definition is_initialized (s : State) : bool := default false (t_Initialized s).

Definition set_is_paused (paused : bool) (s : State) : State :=
  s <| t_IsPaused := Some paused |>.

Definition is_paused (s : State) : bool := default false (t_IsPaused s).

Definition add_token_to_whitelist (token : Address) (s : State) : State :=
  s <| t_TokenWhitelist := <[token := true]> (t_TokenWhitelist s) |>.

Definition remove_token_from_whitelist (token : Address) (s : State) : State :=
  s <| t_TokenWhitelist := delete token (t_TokenWhitelist s) |>.

Definition is_token_whitelisted (token : Address) (s : State) : bool := default false (t_TokenWhitelist s !! token).

Definition set_oracle_address (address : Address) (s : State) : State :=
  s <| t_OracleAddress := Some address |>.

Definition get_oracle_address (s : State) : option Address := t_OracleAddress s.

Definition set_slippage_bps (bps : Z) : R unit :=
  throw_if (MAX_ALLOWED_SLIPPAGE_BPS <? bps) InvalidSlippageBps;;
  modify (fun s => s <| t_SlippageBps := Some bps |>).

Definition get_slippage_bps (s : State) : Z := default 200 (t_SlippageBps s).

(** *** Payment indexes *)
Definition get_payment (payment_id : string) (s : State) : option Payment :=
  t_Payment s !! payment_id.

Definition get_event_payment_count (event_id : string) (s : State) : Z :=
  count (t_EventPaymentIndex s) event_id.
Definition get_event_payments (event_id : string) (s : State) : list string :=
  to_list SHARD_SIZE (t_EventPaymentIndex s) event_id.
Definition get_buyer_payment_count (buyer : Address) (s : State) : Z :=
  count (t_BuyerPaymentIndex s) buyer.
Definition get_buyer_payments (buyer : Address) (s : State) : list string :=
  to_list SHARD_SIZE (t_BuyerPaymentIndex s) buyer.

Definition add_payment_to_event_index (event_id payment_id : string) : R unit :=
  s ← gets id;
  if bool_decide (is_Some (t_EventPayment s !! (event_id, payment_id))) then mret tt
  else
    idx ← unwrap (push SHARD_SIZE event_id payment_id (t_EventPaymentIndex s));
    modify (fun s => s <| t_EventPaymentIndex := idx |>
                       <| t_EventPayment := <[(event_id, payment_id) := true]> (t_EventPayment s) |>).

Definition add_payment_to_buyer_index (buyer : Address) (payment_id : string) : R unit :=
  s ← gets id;
  if bool_decide (is_Some (t_BuyerPayment s !! (buyer, payment_id))) then mret tt
  else
    idx ← unwrap (push SHARD_SIZE buyer payment_id (t_BuyerPaymentIndex s));
    modify (fun s => s <| t_BuyerPaymentIndex := idx |>
                       <| t_BuyerPayment := <[(buyer, payment_id) := true]> (t_BuyerPayment s) |>).

(** The marker is removed when the loop over the shards found the payment. *)
Definition remove_payment_from_buyer_index (buyer : Address) (payment_id : string) (s : State)
    : State :=
  let found := bool_decide (payment_id ∈ to_list SHARD_SIZE (t_BuyerPaymentIndex s) buyer) in
  if found
  then s <| t_BuyerPaymentIndex := remove SHARD_SIZE buyer payment_id (t_BuyerPaymentIndex s) |>
         <| t_BuyerPayment := delete (buyer, payment_id) (t_BuyerPayment s) |>
  else s.

Definition get_payments_by_status (event_id : string) (status : PaymentStatus) (s : State)
    : list string :=
  default [] (t_EventPaymentStatus s !! (event_id, status)).

Definition add_payment_to_status_index (event_id : string) (status : PaymentStatus)
    (payment_id : string) (s : State) : State :=
  if bool_decide (is_Some (t_EventPaymentStatusEntry s !! (event_id, status, payment_id))) then s
  else
    s <| t_EventPaymentStatus :=
           <[(event_id, status) := get_payments_by_status event_id status s ++ [payment_id]]>
             (t_EventPaymentStatus s) |>
      <| t_EventPaymentStatusEntry :=
           <[(event_id, status, payment_id) := true]> (t_EventPaymentStatusEntry s) |>.

Definition remove_payment_from_status_index (event_id : string) (status : PaymentStatus)
    (payment_id : string) (s : State) : State :=
  s <| t_EventPaymentStatus :=
         <[(event_id, status) := filter (.≠ payment_id) (get_payments_by_status event_id status s)]>
           (t_EventPaymentStatus s) |>
    <| t_EventPaymentStatusEntry :=
         delete (event_id, status, payment_id) (t_EventPaymentStatusEntry s) |>.

Definition update_payment_status_index (event_id : string) (old_status new_status : PaymentStatus)
    (payment_id : string) (s : State) : State :=
  add_payment_to_status_index event_id new_status payment_id
    (remove_payment_from_status_index event_id old_status payment_id s).

(** [persistent().set(&DataKey::Payment(payment_id), &payment)]. *)
Definition put_payment (payment_id : string) (payment : Payment) (s : State) : State :=
  s <| t_Payment := <[payment_id := payment]> (t_Payment s) |>.

Definition store_payment (payment : Payment) : R unit :=
  exists_ ← gets (fun s => bool_decide (is_Some (t_Payment s !! pay_payment_id payment)));
  modify (put_payment (pay_payment_id payment) payment);;
  when (negb exists_)
    (add_payment_to_event_index (pay_event_id payment) (pay_payment_id payment);;
     add_payment_to_buyer_index (pay_buyer_address payment) (pay_payment_id payment);;
     modify (add_payment_to_status_index (pay_event_id payment) (pay_status payment)
               (pay_payment_id payment))).

Definition update_payment_status (payment_id : string) (status : PaymentStatus)
    (confirmed_at : option Z) (s : State) : State :=
  match get_payment payment_id s with
  | Some payment =>
      let s1 := put_payment payment_id
        (payment <| pay_status := status |> <| pay_confirmed_at := confirmed_at |>) s in
      if bool_decide (pay_status payment <> status)
      then update_payment_status_index (pay_event_id payment) (pay_status payment) status
             payment_id s1
      else s1
  | None => s
  end.

(** *** Escrow balances and statistics *)
Definition get_event_balance (event_id : string) (s : State) : EventBalance :=
  default (mkEventBalance 0 0 0) (t_Balances s !! event_id).

Definition set_event_balance (event_id : string) (balance : EventBalance) (s : State) : State :=
  s <| t_Balances := <[event_id := balance]> (t_Balances s) |>.

Definition update_event_balance (event_id : string) (organizer_amount platform_fee : Z) : R unit :=
  balance ← gets (get_event_balance event_id);
  org ← unwrap (checked_add I128 (eb_organizer_amount balance) organizer_amount);
  fee ← unwrap (checked_add I128 (eb_platform_fee balance) platform_fee);
  modify (set_event_balance event_id
            (balance <| eb_organizer_amount := org |> <| eb_platform_fee := fee |>)).

Definition get_total_volume_processed (s : State) : Z := default 0 (t_TotalVolumeProcessed s).

Definition add_to_total_volume_processed (amount : Z) : R unit :=
  current ← gets get_total_volume_processed;
  total ← unwrap (checked_add I128 current amount);
  modify (fun s => s <| t_TotalVolumeProcessed := Some total |>).

Definition get_total_fees_collected_by_token (token : Address) (s : State) : Z := default 0 (t_TotalFeesCollected s !! token).

Definition add_to_total_fees_collected_by_token (token : Address) (amount : Z) : R unit :=
  current ← gets (get_total_fees_collected_by_token token);
  total ← unwrap (checked_add I128 current amount);
  modify (fun s => s <| t_TotalFeesCollected := <[token := total]> (t_TotalFeesCollected s) |>).

Definition subtract_from_total_fees_collected_by_token (token : Address) (amount : Z) : R unit :=
  current ← gets (get_total_fees_collected_by_token token);
  total ← unwrap (checked_sub I128 current amount);
  modify (fun s => s <| t_TotalFeesCollected := <[token := total]> (t_TotalFeesCollected s) |>).

Definition get_active_escrow_total (s : State) : Z := default 0 (t_ActiveEscrowTotal s).

Definition add_to_active_escrow_total (amount : Z) : R unit :=
  current ← gets get_active_escrow_total;
  total ← unwrap (checked_add I128 current amount);
  modify (fun s => s <| t_ActiveEscrowTotal := Some total |>).

Definition subtract_from_active_escrow_total (amount : Z) : R unit :=
  current ← gets get_active_escrow_total;
  total ← unwrap (checked_sub I128 current amount);
  modify (fun s => s <| t_ActiveEscrowTotal := Some total |>).

Definition get_active_escrow_by_token (token : Address) (s : State) : Z := default 0 (t_ActiveEscrowByToken s !! token).

Definition add_to_active_escrow_by_token (token : Address) (amount : Z) : R unit :=
  current ← gets (get_active_escrow_by_token token);
  total ← unwrap (checked_add I128 current amount);
  modify (fun s => s <| t_ActiveEscrowByToken := <[token := total]> (t_ActiveEscrowByToken s) |>).

Definition subtract_from_active_escrow_by_token (token : Address) (amount : Z) : R unit :=
  current ← gets (get_active_escrow_by_token token);
  total ← unwrap (checked_sub I128 current amount);
  modify (fun s => s <| t_ActiveEscrowByToken := <[token := total]> (t_ActiveEscrowByToken s) |>).

Definition set_withdrawal_cap (token : Address) (amount : Z) (s : State) : State :=
  s <| t_WithdrawalCap := <[token := amount]> (t_WithdrawalCap s) |>.

Definition get_withdrawal_cap (token : Address) (s : State) : Z := default 0 (t_WithdrawalCap s !! token).

Definition get_daily_withdrawn_amount (token : Address) (day : Z) (s : State) : Z := default 0 (t_DailyWithdrawalAmount s !! (token, day)).

Definition add_to_daily_withdrawn_amount (token : Address) (day : Z) (amount : Z) : R unit :=
  current ← gets (get_daily_withdrawn_amount token day);
  total ← unwrap (checked_add I128 current amount);
  modify (fun s => s <| t_DailyWithdrawalAmount := <[(token, day) := total]> (t_DailyWithdrawalAmount s) |>).

(** *** Per-event settings *)
Definition set_transfer_fee (event_id : string) (fee : Z) (s : State) : State :=
  s <| t_TransferFee := <[event_id := fee]> (t_TransferFee s) |>.

Definition get_transfer_fee (event_id : string) (s : State) : option Z := t_TransferFee s !! event_id.

Definition set_max_tickets_per_wallet (event_id : string) (max : Z) (s : State) : State :=
  s <| t_MaxTicketsPerWallet := <[event_id := max]> (t_MaxTicketsPerWallet s) |>.

Definition get_max_tickets_per_wallet (event_id : string) (s : State) : Z := default 0 (t_MaxTicketsPerWallet s !! event_id).

Definition get_wallet_ticket_count (event_id : string) (buyer : Address) (s : State) : Z := default 0 (t_WalletTicketCount s !! (event_id, buyer)).

Definition set_wallet_ticket_count (event_id : string) (buyer : Address) (count : Z) (s : State) : State :=
  s <| t_WalletTicketCount := <[(event_id, buyer) := count]> (t_WalletTicketCount s) |>.

Definition set_bulk_refund_index (event_id : string) (index : Z) (s : State) : State :=
  s <| t_BulkRefundIndex := <[event_id := index]> (t_BulkRefundIndex s) |>.

Definition get_bulk_refund_index (event_id : string) (s : State) : Z := default 0 (t_BulkRefundIndex s !! event_id).

Definition set_partial_refund_index (event_id : string) (index : Z) (s : State) : State :=
  s <| t_PartialRefundIndex := <[event_id := index]> (t_PartialRefundIndex s) |>.

Definition get_partial_refund_index (event_id : string) (s : State) : Z := default 0 (t_PartialRefundIndex s !! event_id).

Definition set_partial_refund_percentage (event_id : string) (percentage_bps : Z) (s : State) : State :=
  s <| t_PartialRefundPercentage := <[event_id := percentage_bps]> (t_PartialRefundPercentage s) |>.

Definition get_partial_refund_percentage (event_id : string) (s : State) : Z := default 0 (t_PartialRefundPercentage s !! event_id).

Definition has_price_switched (event_id : string) (tier_id : string) (s : State) : bool := default false (t_PriceSwitched s !! (event_id, tier_id)).

Definition set_price_switched (event_id : string) (tier_id : string) (s : State) : State :=
  s <| t_PriceSwitched := <[(event_id, tier_id) := true]> (t_PriceSwitched s) |>.

Definition add_discount_hash (hash : Bytes) (s : State) : State :=
  s <| t_DiscountCodeHash := <[hash := true]> (t_DiscountCodeHash s) |>.

Definition is_discount_hash_valid (hash : Bytes) (s : State) : bool := default false (t_DiscountCodeHash s !! hash).

Definition is_discount_hash_used (hash : Bytes) (s : State) : bool := default false (t_DiscountCodeUsed s !! hash).

Definition mark_discount_hash_used (hash : Bytes) (s : State) : State :=
  s <| t_DiscountCodeUsed := <[hash := true]> (t_DiscountCodeUsed s) |>.

Definition is_event_cancelled_for_refund (event_id : string) (s : State) : bool := default false (t_EventCancelledForRefund s !! event_id).

Definition set_event_cancelled_for_refund (event_id : string) (s : State) : State :=
  s <| t_EventCancelledForRefund := <[event_id := true]> (t_EventCancelledForRefund s) |>.

Definition set_discount_code (event_id : string) (code : string) (data : DiscountData) (s : State) : State :=
  s <| t_DiscountCode := <[(event_id, code) := data]> (t_DiscountCode s) |>.

Definition get_discount_code (event_id : string) (code : string) (s : State) : option DiscountData := t_DiscountCode s !! (event_id, code).

Definition set_affiliate_rate (event_id : string) (affiliate : Address) (rate_bps : Z) (s : State) : State :=
  s <| t_AffiliateRate := <[(event_id, affiliate) := rate_bps]> (t_AffiliateRate s) |>.

Definition get_affiliate_rate (event_id : string) (affiliate : Address) (s : State) : option Z := t_AffiliateRate s !! (event_id, affiliate).

(** *** Auctions, governance, tickets *)
Definition set_highest_bid (event_id : string) (tier_id : string) (bid : HighestBid) (s : State) : State :=
  s <| t_HighestBid := <[(event_id, tier_id) := bid]> (t_HighestBid s) |>.

Definition get_highest_bid (event_id : string) (tier_id : string) (s : State) : option HighestBid := t_HighestBid s !! (event_id, tier_id).

Definition set_auction_closed (event_id : string) (tier_id : string) (s : State) : State :=
  s <| t_AuctionClosed := <[(event_id, tier_id) := true]> (t_AuctionClosed s) |>.

Definition is_auction_closed (event_id : string) (tier_id : string) (s : State) : bool := default false (t_AuctionClosed s !! (event_id, tier_id)).

Definition is_governor (address : Address) (s : State) : bool := default false (t_Governor s !! address).

Definition set_governor (address : Address) (status : bool) (s : State) : State :=
  s <| t_Governor := <[address := status]> (t_Governor s) |>.

Definition get_total_governors (s : State) : Z := default 0 (t_TotalGovernors s).

Definition set_total_governors (total : Z) (s : State) : State :=
  s <| t_TotalGovernors := Some total |>.

Definition get_proposal (id : Z) (s : State) : option ParameterProposal := t_Proposal s !! id.

Definition set_proposal (proposal : ParameterProposal) (s : State) : State :=
  s <| t_Proposal := <[pp_id proposal := proposal]> (t_Proposal s) |>.

Definition get_proposal_count (s : State) : Z := default 0 (t_ProposalCount s).

Definition increment_proposal_count : R Z :=
  n ← gets get_proposal_count;
  count ← add_ U64 n 1;
  modify (fun s => s <| t_ProposalCount := Some count |>);;
  mret count.

Definition store_validation_hash (payment_id : string) (hash : Bytes) (s : State) : State :=
  s <| t_ValidationHash := <[payment_id := hash]> (t_ValidationHash s) |>.

Definition get_validation_hash (payment_id : string) (s : State) : option Bytes := t_ValidationHash s !! payment_id.

(** [sha256] is the host's hash function. *)
Definition verify_secret (sha256 : Bytes -> Bytes) (payment_id : string) (raw_secret : Bytes)
    (s : State) : bool :=
  match get_validation_hash payment_id s with
  | Some stored_hash => bool_decide (sha256 raw_secret = stored_hash)
  | None => false
  end.

Definition is_poap_minted (payment_id : string) (s : State) : bool := default false (t_PoapMinted s !! payment_id).

Definition mark_poap_minted (payment_id : string) (attendee : Address) : R unit :=
  modify (fun s => s <| t_PoapMinted := <[payment_id := true]> (t_PoapMinted s) |>);;
  o ← gets (fun s => push SHARD_SIZE attendee payment_id (t_PoapsByAttendee s));
  idx ← unwrap o;
  modify (fun s => s <| t_PoapsByAttendee := idx |>).

Definition get_poaps_by_attendee (attendee : Address) (s : State) : list string :=
  to_list SHARD_SIZE (t_PoapsByAttendee s) attendee.

(** *** Resale ([resale.rs]) and escrow milestones *)
Definition get_resale_listing (payment_id : string) (s : State) : option ResaleListing := t_ResaleListing s !! payment_id.

Definition store_resale_listing (listing : ResaleListing) (s : State) : State :=
  s <| t_ResaleListing := <[rl_payment_id listing := listing]> (t_ResaleListing s) |>.

Definition remove_resale_listing (payment_id : string) (s : State) : State :=
  s <| t_ResaleListing := delete payment_id (t_ResaleListing s) |>.

Definition get_resale_royalty_bps (event_id : string) (s : State) : Z := default DEFAULT_RESALE_ROYALTY_BPS (t_ResaleRoyaltyBps s !! event_id).

Definition set_resale_royalty_bps (event_id : string) (bps : Z) : R unit :=
  throw_if (MAX_RESALE_ROYALTY_BPS <? bps) InvalidRoyaltyBps;;
  modify (fun s => s <| t_ResaleRoyaltyBps := <[event_id := bps]> (t_ResaleRoyaltyBps s) |>).

Definition get_escrow_state (event_id : string) (s : State) : option EscrowState := t_EscrowState s !! event_id.

Definition set_escrow_state (event_id : string) (state : EscrowState) (s : State) : State :=
  s <| t_EscrowState := <[event_id := state]> (t_EscrowState s) |>.

Definition store_escrow_milestone (event_id : string) (index : Z) (milestone : EscrowMilestone) (s : State) : State :=
  s <| t_EscrowMilestone := <[(event_id, index) := milestone]> (t_EscrowMilestone s) |>.

Definition get_escrow_milestone (event_id : string) (index : Z) (s : State) : option EscrowMilestone := t_EscrowMilestone s !! (event_id, index).

Definition init_escrow_state (event_id : string) (s : State) : EscrowState * State :=
  let state := mkEscrowState 0 0 0 in (state, set_escrow_state event_id state s).
End storage.
