(* ===== verification/PaymentWorld.v ===== *)
(** * Ticket payment: the contracts around it

    The payment contract calls the event registry, the Pro subscription
    contract, a price oracle and token contracts.  [Clients] is the interface of
    [interfaces.rs] over the state [W] of the other contracts; a [try_*] call
    that fails, and a plain call that traps, are both [None] here, and the
    caller decides what becomes of it.  The operations run on a [World]: the
    storage of the contract, the tokens and the other contracts. *)

From stdpp Require Import base tactics numbers list strings gmap.
From S2P Require Import Prelude.
From S2P Require Import Soroban.
From S2P Require Import Token.
From S2P Require Import PaymentTypes.
From S2P Require Import PaymentStorage.

(** [token::Client::allowance]. *)
Class TokenAllowance (T : Type) := allowance : T -> Address -> Address -> Address -> Z.
#[export] Instance Ledger_allowance : TokenAllowance Ledger :=
  fun t token owner spender => default 0 (allowances t !! (token, owner, spender)).

(** The first argument of a call is the address of the contract that is
    called, an [Env] is the one of the caller. *)
Class Clients (W : Type) := {
  get_event : Address -> string -> W -> option event_registry.EventInfo;
  get_dispute : Address -> string -> W -> option event_registry.Dispute;
  get_global_promo_bps : Address -> Env -> W -> option Z;
  get_promo_expiry : Address -> W -> option Z;
  get_loyalty_discount_bps : Address -> Address -> W -> option Z;
  is_scanner_authorized : Address -> string -> Address -> W -> option bool;
  increment_inventory : Address -> Env -> string -> string -> Address -> Z -> Address -> W -> option W;
  decrement_inventory : Address -> Env -> string -> string -> Address -> W -> option W;
  update_loyalty_score : Address -> Env -> Address -> Address -> Z -> Z -> Z -> W -> option W;
  is_pro_member : Address -> Env -> Address -> W -> option (bool * W);
  lastprice : Address -> Address -> W -> option (option price_oracle.PriceData);
}.

Record World (T W : Type) := mkWorld { w_store : State; w_tokens : T; w_others : W }.
Arguments mkWorld {T W} _ _ _.
Arguments w_store {T W} _.
Arguments w_tokens {T W} _.
Arguments w_others {T W} _.

(** A computation of the contract. *)
Abbreviation C T W := (M (World T W) TicketPaymentError).

Section World.
Context {T W : Type}.
Abbreviation C := (C T W).

(** The storage of the contract. *)
Definition on_store {A} (m : R A) : C A :=
  zoom w_store (fun s w => mkWorld s (w_tokens w) (w_others w)) m.
Definition read {A} (f : State -> A) : C A := gets (fun w => f (w_store w)).
Definition write (f : State -> State) : C unit :=
  modify (fun w => mkWorld (f (w_store w)) (w_tokens w) (w_others w)).

(** A call of a token contract; it traps when the token rejects it. *)
Definition token_call (f : T -> option T) : C unit := fun _ w =>
  match f (w_tokens w) with
  | Some t => Done tt (mkWorld (w_store w) t (w_others w))
  | None => Trap
  end.
Definition token_read {A} (f : T -> A) : C A := gets (fun w => f (w_tokens w)).

(** A call of another contract, and a query. *)
Definition call (f : Env -> W -> option W) : C unit := fun env w =>
  match f env (w_others w) with
  | Some o => Done tt (mkWorld (w_store w) (w_tokens w) o)
  | None => Trap
  end.
Definition query {A} (f : W -> A) : C A := gets (fun w => f (w_others w)).

(** A query whose answer depends on the time. *)
Definition query_at {A} (f : Env -> W -> A) : C A := fun env w => Done (f env (w_others w)) w.

(** [try_*] whose result is ignored. *)
Definition try_call (f : Env -> W -> option W) : C unit := fun env w =>
  Done tt (mkWorld (w_store w) (w_tokens w) (default (w_others w) (f env (w_others w)))).

(** ** What they do *)
Lemma on_store_Done {A} (m : R A) env (w : World T W) a w' :
  on_store m env w = Done a w' <->
  exists s, m env (w_store w) = Done a s /\ w' = mkWorld s (w_tokens w) (w_others w).
Proof. apply zoom_Done. Qed.

Lemma read_Done {A} (f : State -> A) env (w : World T W) a w' :
  read f env w = Done a w' <-> a = f (w_store w) /\ w' = w.
Proof. exact (gets_Done _ env w a w'). Qed.

Lemma write_Done f env (w : World T W) u w' :
  write f env w = Done u w' <-> w' = mkWorld (f (w_store w)) (w_tokens w) (w_others w).
Proof. exact (modify_Done _ env w u w'). Qed.

Lemma token_call_Done f env (w : World T W) u w' :
  token_call f env w = Done u w' <->
  exists t, f (w_tokens w) = Some t /\ w' = mkWorld (w_store w) t (w_others w).
Proof. unfold token_call. destruct u, (f (w_tokens w)); naive_solver. Qed.

Lemma token_read_Done {A} (f : T -> A) env (w : World T W) a w' :
  token_read f env w = Done a w' <-> a = f (w_tokens w) /\ w' = w.
Proof. exact (gets_Done _ env w a w'). Qed.

Lemma call_Done f env (w : World T W) u w' :
  call f env w = Done u w' <->
  exists o, f env (w_others w) = Some o /\ w' = mkWorld (w_store w) (w_tokens w) o.
Proof. unfold call. destruct u, (f env (w_others w)); naive_solver. Qed.

Lemma query_Done {A} (f : W -> A) env (w : World T W) a w' :
  query f env w = Done a w' <-> a = f (w_others w) /\ w' = w.
Proof. exact (gets_Done _ env w a w'). Qed.

Lemma query_at_Done {A} (f : Env -> W -> A) env (w : World T W) a w' :
  query_at f env w = Done a w' <-> a = f env (w_others w) /\ w' = w.
Proof. unfold query_at. naive_solver. Qed.

Lemma try_call_Done f env (w : World T W) u w' :
  try_call f env w = Done u w' <->
  w' = mkWorld (w_store w) (w_tokens w) (default (w_others w) (f env (w_others w))).
Proof. unfold try_call. destruct u. naive_solver. Qed.
End World.

(** [pay] decomposes the successful runs of the context. *)
Ltac pay1 :=
  match goal with
  | H : on_store _ _ _ = Done _ _ |- _ => apply on_store_Done in H as (? & H & ?)
  | H : read _ _ _ = Done _ _ |- _ => apply read_Done in H as [? ?]
  | H : write _ _ _ = Done _ _ |- _ => apply write_Done in H
  | H : token_call _ _ _ = Done _ _ |- _ => apply token_call_Done in H as (? & ? & ?)
  | H : token_read _ _ _ = Done _ _ |- _ => apply token_read_Done in H as [? ?]
  | H : call _ _ _ = Done _ _ |- _ => apply call_Done in H as (? & ? & ?)
  | H : query _ _ _ = Done _ _ |- _ => apply query_Done in H as [? ?]
  | H : query_at _ _ _ = Done _ _ |- _ => apply query_at_Done in H as [? ?]
  | H : try_call _ _ _ = Done _ _ |- _ => apply try_call_Done in H
  | _ => exec1
  end.
Ltac pay := repeat (pay1; cbn [w_store w_tokens w_others] in *).

(** ** Footprints over the three parts of the world *)
Section Footprints.
Context {T W : Type}.

Definition moves (RS : State -> State -> Prop) (RT : T -> T -> Prop) (RW : W -> W -> Prop)
    (w w' : World T W) : Prop :=
  RS (w_store w) (w_store w') /\ RT (w_tokens w) (w_tokens w') /\ RW (w_others w) (w_others w').

#[export] Instance moves_preorder RS RT RW :
  PreOrder RS -> PreOrder RT -> PreOrder RW -> PreOrder (moves RS RT RW).
Proof.
  intros [HS1 HS2] [HT1 HT2] [HW1 HW2]. split.
  - intros w. by split_and!.
  - intros w1 w2 w3 (? & ? & ?) (? & ? & ?). split_and!; [by eapply HS2|by eapply HT2|by eapply HW2].
Qed.

Context (RS : State -> State -> Prop) (RT : T -> T -> Prop) (RW : W -> W -> Prop).
Context `{!PreOrder RS} `{!PreOrder RT} `{!PreOrder RW}.

Lemma moves_on_store {A} (m : R A) : respects RS m -> respects (moves RS RT RW) (on_store m).
Proof. intros Hm env w a w' (s & Hs & ->)%on_store_Done. split; [by eapply Hm|]. split; done. Qed.

Lemma moves_write f : (forall s, RS s (f s)) -> respects (moves RS RT RW) (write f).
Proof. intros Hf env w a w' ->%write_Done. split; [apply Hf|]. split; done. Qed.

Lemma moves_token_call f :
  (forall t t', f t = Some t' -> RT t t') -> respects (moves RS RT RW) (token_call f).
Proof. intros Hf env w a w' (t & Ht & ->)%token_call_Done. split; [done|]. split; [eauto|done]. Qed.

Lemma moves_call f :
  (forall env o o', f env o = Some o' -> RW o o') -> respects (moves RS RT RW) (call f).
Proof. intros Hf env w a w' (o & Ho & ->)%call_Done. split; [done|]. split; [done|eauto]. Qed.

Lemma moves_try_call f :
  (forall env o o', f env o = Some o' -> RW o o') -> respects (moves RS RT RW) (try_call f).
Proof.
  intros Hf env w a w' ->%try_call_Done. split; [done|]. split; [done|]. cbn.
  destruct (f env (w_others w)) eqn:Ho; cbn; [eauto|done].
Qed.
End Footprints.

Lemma reads_read {T W A} (f : State -> A) : reads (read (T := T) (W := W) f).
Proof. intros env w a w' [_ ->]%read_Done. done. Qed.
Lemma reads_token_read {T W A} (f : T -> A) : reads (token_read (W := W) f).
Proof. intros env w a w' [_ ->]%token_read_Done. done. Qed.
Lemma reads_query {T W A} (f : W -> A) : reads (query (T := T) f).
Proof. intros env w a w' [_ ->]%query_Done. done. Qed.
Lemma reads_query_at {T W A} (f : Env -> W -> A) : reads (query_at (T := T) f).
Proof. intros env w a w' [_ ->]%query_at_Done. done. Qed.
#[export] Hint Resolve reads_read reads_token_read reads_query reads_query_at : reads.

(** The relation that allows everything. *)
Definition anything {A} (x y : A) : Prop := True.
#[export] Instance anything_preorder {A} : PreOrder (@anything A).
Proof. by split. Qed.

Ltac pframe1 :=
  lazymatch goal with
  | |- respects (moves _ _ _) (on_store _) => apply moves_on_store; [typeclasses eauto..|]
  | |- respects (moves _ _ _) (write _) => apply moves_write; [typeclasses eauto..|intros ?]
  | |- respects (moves _ _ _) (token_call _) => apply moves_token_call; [typeclasses eauto..|intros ? ?]
  | |- respects (moves _ _ _) (call _) => apply moves_call; [typeclasses eauto..|intros ? ? ?]
  | |- respects (moves _ _ _) (try_call _) => apply moves_try_call; [typeclasses eauto..|intros ? ? ?]
  | |- _ => frame1
  end.
