(* ===== verification/PaymentSale.v ===== *)
(** * Ticket payment: sales

    [process_payment] with its parts, [confirm_payment], [check_in] and
    [mint_poap] of [contract.rs].  The parts of [process_payment] are named after
    what they compute: the promotion and the two kinds of discount codes, the
    limit per wallet, the price rule, the split of the charged amount between
    organizer, platform and referrer, and the ticket records. *)

From stdpp Require Import base tactics numbers list strings gmap.
From S2P Require Import Prelude.
From S2P Require Import Soroban.
From S2P Require Import Token.
From S2P Require Import PaymentTypes.
From S2P Require Import PaymentStorage.
From S2P Require Import PaymentWorld.

Definition MAX_ORACLE_PRICE_AGE_SECS : Z := 3600.

(** [a.checked_mul(b).and_then(|v| v.checked_div(d))]. *)
Definition mul_div (a b d : Z) : option Z :=
  v ← checked_mul I128 a b; checked_div I128 v d.

(** The scheduled price: the first schedule that has not ended. *)
Fixpoint get_scheduled_price (schedules : list PriceSchedule) (current_time final_price : Z) : Z :=
  match schedules with
  | [] => final_price
  | s :: schedules =>
      if current_time <? ps_valid_until s then ps_price s
      else get_scheduled_price schedules current_time final_price
  end.

(** How an effective total is divided. *)
Record Split := mkSplit {
  sp_charged : Z;
  sp_organizer : Z;
  sp_fee : Z;
  sp_reward : Z;
}.

(** [rate] is the commission of the referrer, if there is one. *)
Definition fee_split (effective_total fee_bps loyalty_bps : Z) (rate : option Z)
    : option Split :=
  fee ← mul_div effective_total fee_bps MAX_BPS;
  discount ← (if 0 <? loyalty_bps
              then x ← mul_div fee loyalty_bps MAX_BPS; Some (Z.min x fee)
              else Some 0);
  fee ← checked_sub I128 fee discount;
  charged ← checked_sub I128 effective_total discount;
  org ← checked_sub I128 charged fee;
  '(reward, fee) ← (match rate with
    | Some rate_bps =>
        reward ← mul_div fee rate_bps MAX_BPS;
        let reward := Z.min reward fee in
        fee' ← checked_sub I128 fee reward;
        Some (Z.min reward org, fee')
    | None => Some (0, fee)
    end);
  org ← checked_sub I128 org reward;
  Some (mkSplit charged org fee reward).

(** The identifiers of the tickets of one purchase. *)
Definition sub_payment_id (payment_id : string) (quantity i : Z) : string :=
  if quantity =? 1 then payment_id
  else match i with
       | 0 => "p-0" | 1 => "p-1" | 2 => "p-2" | 3 => "p-3" | 4 => "p-4"
       | _ => "p-many"
       end.

Section Sale.
Context {T W : Type} `{Token T} `{TokenAllowance T} `{Clients W}.
(** The host's SHA-256. *)
Variable sha256 : Bytes -> Bytes.

Abbreviation C := (C T W).

Definition require_initialized : C unit :=
  i ← read storage.is_initialized; panic_if (negb i).
Definition require_running : C unit :=
  p ← read storage.is_paused; throw_if p ContractPaused.
Definition require_admin : C Address :=
  o ← read storage.get_admin;
  admin ← ok_or o NotInitialized;
  require_auth admin;;
  mret admin.

(** [try_get_event], with every failure read as a missing event. *)
Definition find_event (event_id : string) : C event_registry.EventInfo :=
  registry ← on_store storage.get_event_registry;
  o ← query (get_event registry event_id);
  ok_or o EventNotFound.

Definition event_accepts_token (event_info : event_registry.EventInfo) (token : Address)
    (s : State) : bool :=
  if event_registry.ei_use_global_whitelist event_info
     || bool_decide (event_registry.ei_accepted_tokens event_info = [])
  then storage.is_token_whitelisted token s
  else bool_decide (token ∈ event_registry.ei_accepted_tokens event_info).

Definition is_cancelled (event_info : event_registry.EventInfo) : bool :=
  bool_decide (event_registry.ei_status event_info = event_registry.Cancelled).

Definition fetch_fresh_asset_price (asset : Address) : C price_oracle.PriceData :=
  o ← read storage.get_oracle_address;
  oracle ← ok_or o OracleNotConfigured;
  r ← query (lastprice oracle asset);
  r ← unwrap r;
  price_data ← ok_or r OraclePriceUnavailable;
  now ← ledger_timestamp;
  throw_if (MAX_ORACLE_PRICE_AGE_SECS <?
            saturating_sub U64 now (price_oracle.timestamp price_data)) OraclePriceStale;;
  mret price_data.

(** The platform-wide promotion: the total after it and the applied rate. *)
Definition apply_promo (total_amount : Z) : C (Z * Z) :=
  registry ← on_store storage.get_event_registry;
  o ← query_at (get_global_promo_bps registry);
  promo_bps ← unwrap o;
  o ← query (get_promo_expiry registry);
  promo_expiry ← unwrap o;
  now ← ledger_timestamp;
  if (0 <? promo_bps) && (now <? promo_expiry) then
    rest ← sub_ U32 MAX_BPS promo_bps;
    discounted ← ok_or (mul_div total_amount rest MAX_BPS) ArithmeticError;
    mret (discounted, promo_bps)
  else mret (total_amount, 0).

(** The registered one-time codes: ten percent. *)
Definition apply_code (preimage : option Bytes) (total : Z) : C (Z * option Bytes) :=
  match preimage with
  | None => mret (total, None)
  | Some preimage =>
      let hash := sha256 preimage in
      valid ← read (storage.is_discount_hash_valid hash);
      throw_if (negb valid) InvalidDiscountCode;;
      used ← read (storage.is_discount_hash_used hash);
      throw_if used DiscountCodeUsed;;
      discounted ← ok_or (mul_div total 90 100) ArithmeticError;
      mret (discounted, Some hash)
  end.

(** The limited codes of an event. *)
Definition apply_event_code (event_id : string) (code : option string) (total : Z) : C Z :=
  match code with
  | None => mret total
  | Some code =>
      o ← read (storage.get_discount_code event_id code);
      data ← ok_or o InvalidDiscountCode;
      now ← ledger_timestamp;
      throw_if (dd_expires_at data <? now) DiscountExpired;;
      throw_if (dd_max_uses data <=? dd_current_uses data)
        (if dd_max_uses data =? 1 then DiscountCodeUsed else DiscountMaxUsesReached);;
      rest ← sub_ U32 100 (dd_percentage data);
      discounted ← ok_or (mul_div total rest 100) ArithmeticError;
      uses ← add_ U32 (dd_current_uses data) 1;
      write (storage.set_discount_code event_id code (data <| dd_current_uses := uses |>));;
      mret discounted
  end.

Definition check_wallet_limit (event_id : string) (buyer : Address) (quantity : Z) : C unit :=
  max ← read (storage.get_max_tickets_per_wallet event_id);
  if 0 <? max then
    wallet_count ← read (storage.get_wallet_ticket_count event_id buyer);
    new_count ← ok_or (checked_add U32 wallet_count quantity) ArithmeticError;
    throw_if (max <? new_count) WalletLimitExceeded;;
    write (storage.set_wallet_ticket_count event_id buyer new_count)
  else mret tt.

(** The price rule of a tier: an oracle band, or the exact price. *)
Definition check_price (tier : event_registry.TicketTier) (token : Address) (amount : Z) : C unit :=
  now ← ledger_timestamp;
  if 0 <? event_registry.tt_usd_price tier then
    price_data ← fetch_fresh_asset_price token;
    expected ← ok_or (mul_div (event_registry.tt_usd_price tier) (price_oracle.price price_data)
                        10000000) ArithmeticError;
    bps ← read storage.get_slippage_bps;
    throw_if (storage.MAX_ALLOWED_SLIPPAGE_BPS <? bps) InvalidSlippageBps;;
    min_amount ← ok_or (mul_div expected (MAX_BPS - bps) MAX_BPS) ArithmeticError;
    max_amount ← ok_or (mul_div expected (MAX_BPS + bps) MAX_BPS) ArithmeticError;
    throw_if ((amount <? min_amount) || (max_amount <? amount)) PriceOutsideSlippage
  else
    let active_price := get_scheduled_price [] now (event_registry.tt_price tier) in
    let active_price :=
      if (0 <? event_registry.tt_early_bird_deadline tier)
         && (now <=? event_registry.tt_early_bird_deadline tier)
      then event_registry.tt_early_bird_price tier else active_price in
    throw_if (negb (amount =? active_price)) InvalidPrice.

Definition switch_price (event_id tier_id : string) (tier : event_registry.TicketTier) : C unit :=
  now ← ledger_timestamp;
  switched ← read (storage.has_price_switched event_id tier_id);
  when ((0 <? event_registry.tt_early_bird_deadline tier)
        && (event_registry.tt_early_bird_deadline tier <? now) && negb switched)
    (write (storage.set_price_switched event_id tier_id);;
     on_store (publish (events.PriceSwitched event_id tier_id
                          (event_registry.tt_price tier) now))).

(** [try_is_pro_member], with a failure read as no membership. *)
Definition try_is_pro_member (contract organizer : Address) : C bool := fun env w =>
  match is_pro_member contract env organizer (w_others w) with
  | Some (b, o) => Done b (mkWorld (w_store w) (w_tokens w) o)
  | None => Done false w
  end.

Definition platform_fee_bps (event_info : event_registry.EventInfo) : C Z :=
  o ← read storage.get_pro_subscription_contract;
  is_pro ← (match o with
            | Some contract =>
                try_is_pro_member contract (event_registry.ei_organizer_address event_info)
            | None => mret false
            end);
  mret (if is_pro : bool then 0
        else default (event_registry.ei_platform_fee_percent event_info)
               (event_registry.ei_custom_fee_bps event_info)).

(** The record of a sold ticket. *)
Definition new_ticket (id event_id tier_id : string) (buyer owner token : Address)
    (amount fee org referral created_at : Z) (affiliate : option Address) : Payment := {|
  pay_payment_id := id; pay_event_id := event_id; pay_buyer_address := buyer;
  pay_owner_address := owner; pay_ticket_tier_id := tier_id; pay_token_address := token;
  pay_amount := amount; pay_platform_fee := fee; pay_organizer_amount := org;
  pay_status := Pending; pay_transaction_hash := ""; pay_created_at := created_at;
  pay_confirmed_at := None; pay_refunded_amount := 0; pay_is_soulbound := false;
  pay_last_checked_in_at := 0; pay_referral_amount := referral;
  pay_referrer := affiliate |}.

(** One ticket of the purchase. *)
Definition store_ticket (payment_id event_id tier_id : string) (buyer owner token : Address)
    (amount quantity : Z) (sp : Split) (affiliate : option Address) (validation_hash : Bytes)
    (i : Z) : C unit :=
  fee ← ok_or (checked_div I128 (sp_fee sp) quantity) ArithmeticError;
  org ← ok_or (checked_div I128 (sp_organizer sp) quantity) ArithmeticError;
  referral ← ok_or (checked_div I128 (sp_reward sp) quantity) ArithmeticError;
  created_at ← ledger_timestamp;
  let id := sub_payment_id payment_id quantity i in
  on_store (storage.store_payment (new_ticket id event_id tier_id buyer owner token amount fee
                                     org referral created_at affiliate));;
  write (storage.store_validation_hash id validation_hash).

(** The escrow of the charged amount, the commission and the accounts. *)
Definition collect (event_id : string) (buyer token : Address) (total_amount : Z) (sp : Split)
    (affiliate : option Address) : C unit :=
  self ← contract_address;
  allowed ← token_read (fun t => allowance t token buyer self);
  throw_if (allowed <? sp_charged sp) InsufficientAllowance;;
  balance_before ← token_read (fun t => balance t token self);
  token_call (transfer_from token self buyer self (sp_charged sp));;
  balance_after ← token_read (fun t => balance t token self);
  received ← ok_or (checked_sub I128 balance_after balance_before) ArithmeticError;
  throw_if (negb (received =? sp_charged sp)) TransferVerificationFailed;;
  (match affiliate with
   | Some referrer =>
       when (0 <? sp_reward sp) (token_call (transfer token self referrer (sp_reward sp)))
   | None => mret tt
   end);;
  on_store (storage.update_event_balance event_id (sp_organizer sp) (sp_fee sp));;
  on_store (storage.add_to_total_volume_processed total_amount);;
  on_store (storage.add_to_total_fees_collected_by_token token (sp_fee sp));;
  on_store (storage.add_to_active_escrow_total total_amount);;
  on_store (storage.add_to_active_escrow_by_token token total_amount).

(** The events of the purchase and the loyalty points of the buyer. *)
Definition finish_sale (payment_id event_id : string) (buyer : Address)
    (quantity total_amount after_promo promo_bps : Z) (sp : Split) (code : option Bytes)
    (tier : event_registry.TicketTier) : C unit :=
  now ← ledger_timestamp;
  self ← contract_address;
  registry ← on_store storage.get_event_registry;
  on_store (publish (events.PaymentProcessed payment_id event_id buyer (sp_charged sp)
                       (sp_fee sp) now));;
  try_call (fun env => update_loyalty_score registry env self buyer quantity (sp_charged sp)
                         (event_registry.tt_loyalty_multiplier tier));;
  (match code with
   | Some hash => on_store (publish (events.DiscountCodeApplied payment_id event_id hash
                    (default 0 (checked_sub I128 total_amount (sp_charged sp))) now))
   | None => mret tt
   end);;
  when (0 <? promo_bps)
    (on_store (publish (events.GlobalPromoApplied payment_id event_id promo_bps
       (default 0 (checked_sub I128 total_amount after_promo)) now))).

(** [options.affiliate_address.or_else(|| options.referrer)]. *)
Definition affiliate_of (options : PurchaseOptions) : option Address :=
  match po_affiliate_address options with
  | Some a => Some a
  | None => po_referrer options
  end.

(** Everything before the money moves: the checks, the discounts and the
    price, and how the amount is to be divided. *)
Record Quote := mkQuote {
  q_registry : Address;
  q_tier : event_registry.TicketTier;
  q_total : Z;
  q_after_promo : Z;
  q_promo_bps : Z;
  q_code : option Bytes;
  q_split : Split;
}.

Definition quote_sale (payment_id event_id tier_id : string) (buyer token : Address)
    (amount quantity : Z) (options : PurchaseOptions) : C Quote :=
  require_initialized;;
  require_running;;
  require_auth buyer;;
  existing ← read (storage.get_payment payment_id);
  throw_if (bool_decide (is_Some existing)) PaymentAlreadyExists;;
  let affiliate := affiliate_of options in
  throw_if (bool_decide (affiliate = Some buyer)) SelfReferralNotAllowed;;
  throw_if (amount <? 0) InvalidAmount;;
  throw_if (quantity =? 0) InvalidAmount;;
  whitelisted ← read (storage.is_token_whitelisted token);
  throw_if (negb whitelisted) TokenNotWhitelisted;;
  total_amount ← ok_or (checked_mul I128 amount quantity) ArithmeticError;
  '(after_promo, promo_bps) ← apply_promo total_amount;
  '(effective_total, code) ← apply_code (po_code_preimage options) after_promo;
  effective_total ← apply_event_code event_id (po_discount_code options) effective_total;
  registry ← on_store storage.get_event_registry;
  event_info ← find_event event_id;
  throw_if (negb (event_registry.ei_is_active event_info) || is_cancelled event_info)
    EventInactive;;
  accepted ← read (event_accepts_token event_info token);
  throw_if (negb accepted) TokenNotWhitelisted;;
  cancelled ← read (storage.is_event_cancelled_for_refund event_id);
  throw_if cancelled EventCancelled;;
  check_wallet_limit event_id buyer quantity;;
  tier ← ok_or (event_registry.ei_tiers event_info !! tier_id) TierNotFound;
  check_price tier token amount;;
  switch_price event_id tier_id tier;;
  fee_bps ← platform_fee_bps event_info;
  loyalty ← query (get_loyalty_discount_bps registry buyer);
  rate ← (match affiliate with
          | Some a => o ← read (storage.get_affiliate_rate event_id a); mret (Some (default 2000 o))
          | None => mret None
          end);
  sp ← ok_or (fee_split effective_total fee_bps (default 0 loyalty) rate) ArithmeticError;
  mret (mkQuote registry tier total_amount after_promo promo_bps code sp).

Definition process_payment (payment_id event_id tier_id : string) (buyer : Address)
    (recipient : option Address) (token : Address) (amount quantity : Z)
    (options : PurchaseOptions) (validation_hash : Bytes) : C string :=
  q ← quote_sale payment_id event_id tier_id buyer token amount quantity options;
  let owner := default buyer recipient in
  let affiliate := affiliate_of options in
  let sp := q_split q in
  collect event_id buyer token (q_total q) sp affiliate;;
  (match q_code q with
   | Some hash => write (storage.mark_discount_hash_used hash)
   | None => mret tt
   end);;
  call (fun env => increment_inventory (q_registry q) env event_id tier_id owner quantity token);;
  foldM (fun _ i => store_ticket payment_id event_id tier_id buyer owner token amount quantity
                      sp affiliate validation_hash i) tt (seqZ 0 quantity);;
  finish_sale payment_id event_id buyer quantity (q_total q) (q_after_promo q) (q_promo_bps q)
    sp (q_code q) (q_tier q);;
  mret payment_id.

Definition confirm_payment (payment_id transaction_hash : string) : C unit :=
  require_initialized;;
  unwrap_result require_admin;;
  now ← ledger_timestamp;
  o ← read (storage.get_payment payment_id);
  (match o with
   | Some payment =>
       write (storage.put_payment payment_id
         (payment <| pay_status := Confirmed |> <| pay_confirmed_at := Some now |>
                  <| pay_transaction_hash := transaction_hash |>));;
       when (bool_decide (pay_status payment <> Confirmed))
         (write (storage.update_payment_status_index (pay_event_id payment)
                   (pay_status payment) Confirmed payment_id))
   | None => mret tt
   end);;
  on_store (publish (events.PaymentStatusChanged payment_id Pending Confirmed
                       transaction_hash now)).

Definition check_in (payment_id : string) (scanner : Address) (_series_id : option string)
    (_pass_holder : option Address) (raw_secret : Bytes) : C unit :=
  require_initialized;;
  require_running;;
  o ← read (storage.get_payment payment_id);
  payment ← ok_or o PaymentNotFound;
  require_auth scanner;;
  throw_if (bool_decide (pay_status payment = CheckedIn)) TicketAlreadyUsed;;
  ok ← read (storage.verify_secret sha256 payment_id raw_secret);
  throw_if (negb ok) InvalidSecret;;
  registry ← on_store storage.get_event_registry;
  event_info ← find_event (pay_event_id payment);
  let is_organizer := bool_decide (scanner = event_registry.ei_organizer_address event_info) in
  o ← query (is_scanner_authorized registry (pay_event_id payment) scanner);
  is_scanner ← unwrap o;
  throw_if (negb is_organizer && negb is_scanner) UnauthorizedScanner;;
  now ← ledger_timestamp;
  throw_if ((0 <? event_registry.ei_end_time event_info)
            && (event_registry.ei_end_time event_info <? now)) EventEnded;;
  on_store (storage.store_payment
    (payment <| pay_status := CheckedIn |> <| pay_last_checked_in_at := now |>));;
  on_store (publish (events.TicketCheckedIn payment_id (pay_event_id payment)
                       (pay_buyer_address payment) scanner now));;
  minted ← read (storage.is_poap_minted payment_id);
  when (negb minted)
    (on_store (storage.mark_poap_minted payment_id (pay_buyer_address payment));;
     on_store (publish (events.PoapMinted payment_id (pay_event_id payment)
                          (pay_buyer_address payment) now))).

Definition mint_poap (payment_id : string) : C unit :=
  i ← read storage.is_initialized;
  throw_if (negb i) NotInitialized;;
  require_running;;
  o ← read (storage.get_payment payment_id);
  payment ← ok_or o PaymentNotFound;
  throw_if (bool_decide (pay_status payment <> CheckedIn)) InvalidPaymentStatus;;
  minted ← read (storage.is_poap_minted payment_id);
  throw_if minted TicketAlreadyUsed;;
  now ← ledger_timestamp;
  on_store (storage.mark_poap_minted payment_id (pay_buyer_address payment));;
  on_store (publish (events.PoapMinted payment_id (pay_event_id payment)
                       (pay_buyer_address payment) now)).
End Sale.

(** ** The split of a payment *)
Lemma mul_div_Some a b d v :
  0 <= a -> 0 <= b -> 0 < d -> mul_div a b d = Some v -> v = a * b / d.
Proof.
  intros Ha Hb Hd. unfold mul_div, checked_div. intros (x & Hx & Hv)%bind_Some. exec.
  destruct (Z.eqb_spec d 0); [lia|]. exec. apply Z.quot_div_nonneg; nia.
Qed.

Lemma bps_share a b : 0 <= a -> 0 <= b <= MAX_BPS -> 0 <= a * b / MAX_BPS <= a.
Proof.
  intros. unfold MAX_BPS in *.
  split; [apply Z.div_pos|apply Z.div_le_upper_bound]; nia.
Qed.

(** The rates are basis points, as the registry and [set_affiliate_rate]
    enforce; a loyalty rate above all of the fee is cut off. *)
Record rates_ok (effective_total fee_bps loyalty_bps : Z) (rate : option Z) : Prop := {
  ro_total : 0 <= effective_total;
  ro_fee : 0 <= fee_bps <= MAX_BPS;
  ro_loyalty : 0 <= loyalty_bps;
  ro_rate : forall r, rate = Some r -> 0 <= r <= MAX_BPS;
}.

(** The split never hands out more than is charged.  The buyer is charged at
    most the effective total, the shares of organizer, platform and referrer are
    not negative and fit in the charge; without a referrer they are exactly the
    charge and the platform gets its rate less the loyalty discount; with
    a referrer the commission is taken from the platform fee and again from the
    organizer, so that the charge exceeds the shares by what the platform fee
    lost. *)
Lemma fee_split_sound total fee_bps loyalty_bps rate sp :
  rates_ok total fee_bps loyalty_bps rate ->
  fee_split total fee_bps loyalty_bps rate = Some sp ->
  let fee := total * fee_bps / MAX_BPS in
  let discount := Z.min (fee * loyalty_bps / MAX_BPS) fee in
  let commission := from_option (fun r => (fee - discount) * r / MAX_BPS) 0 rate in
  sp_charged sp = total - discount /\
  0 <= sp_organizer sp /\ 0 <= sp_fee sp /\ 0 <= sp_reward sp <= commission /\
  sp_fee sp = fee - discount - commission /\
  sp_organizer sp + sp_fee sp + sp_reward sp + commission = sp_charged sp.
Proof.
  intros [Ht Hf Hl Hr] Hsp fee discount commission. unfold fee_split in Hsp.
  assert (0 <= fee <= total) by (by apply bps_share).
  apply bind_Some in Hsp as (f & Hfee & Hsp).
  apply mul_div_Some in Hfee as ->; [|lia|lia|done]. fold fee in Hsp.
  apply bind_Some in Hsp as (d & Hd & Hsp).
  assert (d = discount /\ 0 <= discount <= fee) as [-> Hdisc].
  { assert (0 <= fee * loyalty_bps / MAX_BPS) by (apply Z.div_pos; [nia|done]).
    destruct (Z.ltb_spec 0 loyalty_bps).
    - apply bind_Some in Hd as (x & Hx & [= <-]).
      apply mul_div_Some in Hx as ->; [|lia|lia|done]. subst discount. lia.
    - injection Hd as <-. subst discount. replace loyalty_bps with 0 in * by lia.
      rewrite Z.mul_0_r in *. change (0 / MAX_BPS) with 0 in *. lia. }
  repeat (apply bind_Some in Hsp as (? & ? & Hsp)). destruct x2 as [reward fee'].
  repeat (apply bind_Some in Hsp as (? & ? & Hsp)). injection Hsp as <-. exec.
  cbn [sp_charged sp_organizer sp_fee sp_reward].
  destruct rate as [r|]; cbn [from_option] in commission; cbn [mbind option_bind] in *.
  - assert (0 <= commission <= fee - discount)
      by exact (bps_share (fee - discount) r ltac:(lia) (Hr r eq_refl)).
    repeat match goal with H : _ ≫= _ = Some _ |- _ => apply bind_Some in H as (? & ? & H) end.
    exec. simplify_eq.
    match goal with H : mul_div _ _ _ = Some _ |- _ =>
      apply mul_div_Some in H as ->; [|lia|naive_solver lia|done] end.
    fold commission. lia.
  - simplify_eq. lia.
Qed.

(** Its consequences for the charge. *)
Lemma fee_split_bounds total fee_bps loyalty_bps rate sp :
  rates_ok total fee_bps loyalty_bps rate ->
  fee_split total fee_bps loyalty_bps rate = Some sp ->
  sp_charged sp <= total /\ 0 <= sp_organizer sp /\ 0 <= sp_fee sp /\ 0 <= sp_reward sp /\
  sp_organizer sp + sp_fee sp + sp_reward sp <= sp_charged sp /\
  (rate = None -> sp_organizer sp + sp_fee sp = sp_charged sp).
Proof.
  intros Hro Hsp. pose proof (fee_split_sound _ _ _ _ _ Hro Hsp) as (Hc & Ho & Hf & Hr & _ & Hs).
  cbv zeta in *. destruct Hro as [Ht Hfb Hlb _].
  pose proof (bps_share total fee_bps Ht Hfb).
  assert (0 <= total * fee_bps / MAX_BPS * loyalty_bps / MAX_BPS) by (apply Z.div_pos; [nia|done]).
  split_and!; try lia. intros ->. cbn in *. lia.
Qed.

(** A sale of 20000 at five percent with a loyalty discount and a referrer. *)
Example fee_split_sample :
  rates_ok 20000 500 1000 (Some 2000) /\
  fee_split 20000 500 1000 (Some 2000) = Some (mkSplit 19900 18820 720 180) /\
  18820 + 720 + 180 + 180 = 19900.
Proof.
  assert (Hr : rates_ok 20000 500 1000 (Some 2000)) 
    by (split; [done|done|done|intros r [= <-]; done]).
  assert (Hs : fee_split 20000 500 1000 (Some 2000) = Some (mkSplit 19900 18820 720 180))
    by reflexivity.
  split; [exact Hr|]. split; [exact Hs|].
  destruct (fee_split_sound 20000 500 1000 (Some 2000) _ Hr Hs) as (_ & _ & _ & _ & _ & H).
  exact H.
Qed.
