(* ===== verification/PaymentQuote.v ===== *)
(** * Ticket payment: what a quote promises

    [quote_sale] runs every check of a sale before the money moves.  [calm] is
    the storage without the counters that it advances; [quoted] are the facts
    that hold of the world before when it returns. *)

From stdpp Require Import base tactics numbers list strings gmap.
From S2P Require Import Prelude.
From S2P Require Import Soroban.
From S2P Require Import Token.
From S2P Require Import PaymentTypes.
From S2P Require Import PaymentStorage.
From S2P Require Import PaymentWorld.
From S2P Require Import PaymentSale.

(** The storage but for the uses of discount codes, the count per wallet, the
    switched prices and the log. *)
Definition calm (s : State) : State :=
  s <| t_DiscountCode := ∅ |> <| t_WalletTicketCount := ∅ |> <| t_PriceSwitched := ∅ |>
    <| t_log := [] |>.

Section Quotes.
Context {T W : Type} `{Token T} `{TokenAllowance T} `{Clients W}.
Variable sha256 : Bytes -> Bytes.

(** The steps of a quote touch neither tokens nor accounts nor tickets. *)
Abbreviation quiet RW m := (respects (moves (keeps calm) eq RW) m).

Ltac quiet :=
  repeat first [ pframe1 | reflexivity | done
               | match goal with |- respects _ (if ?b then _ else _) => destruct b end ].

Lemma apply_promo_quiet total : quiet eq (apply_promo (T := T) (W := W) total).
Proof. unfold apply_promo, storage.get_event_registry. quiet. Qed.
Lemma apply_code_quiet o total : quiet eq (apply_code (T := T) (W := W) sha256 o total).
Proof. unfold apply_code. quiet. Qed.
Lemma apply_event_code_quiet id o total : quiet eq (apply_event_code (T := T) (W := W) id o total).
Proof. unfold apply_event_code. quiet. Qed.
Lemma find_event_reads id : reads (find_event (T := T) (W := W) id).
Proof. unfold find_event, storage.get_event_registry. intros env w e w' Hr. pay. by destruct w. Qed.
Lemma check_wallet_limit_quiet id b q : quiet eq (check_wallet_limit (T := T) (W := W) id b q).
Proof. unfold check_wallet_limit. quiet. Qed.
Lemma switch_price_quiet id tid tier : quiet eq (switch_price (T := T) (W := W) id tid tier).
Proof. unfold switch_price, publish. quiet. Qed.
Lemma check_price_reads tier token amount : reads (check_price (T := T) (W := W) tier token amount).
Proof.
  unfold check_price, fetch_fresh_asset_price. intros env w [] w' Hr. pay.
  repeat (case_match; pay; try done).
Qed.
Lemma try_pro_moves RS RT `{!PreOrder RS} `{!PreOrder RT} a b :
  respects (moves RS RT anything) (try_is_pro_member (T := T) (W := W) a b).
Proof.
  intros env w r w' Hr. unfold try_is_pro_member in Hr.
  repeat case_match; simplify_eq; split_and!; done.
Qed.
Lemma platform_fee_bps_quiet e : quiet anything (platform_fee_bps (T := T) (W := W) e).
Proof.
  unfold platform_fee_bps. quiet. apply try_pro_moves; typeclasses eauto.
Qed.

(** The price rule of a tier: the price of the moment, or for a price in
    dollars a band around the fresh price of the oracle. *)
Definition sale_price (tier : event_registry.TicketTier) (now : Z) : Z :=
  if (0 <? event_registry.tt_early_bird_deadline tier)
     && (now <=? event_registry.tt_early_bird_deadline tier)
  then event_registry.tt_early_bird_price tier else event_registry.tt_price tier.

Definition in_band (env : Env) (w : World T W) (tier : event_registry.TicketTier) (token : Address)
    (amount : Z) : Prop :=
  exists oracle data expected low high,
    t_OracleAddress (w_store w) = Some oracle /\
    lastprice oracle token (w_others w) = Some (Some data) /\
    timestamp env - price_oracle.timestamp data <= MAX_ORACLE_PRICE_AGE_SECS /\
    storage.get_slippage_bps (w_store w) <= storage.MAX_ALLOWED_SLIPPAGE_BPS /\
    mul_div (event_registry.tt_usd_price tier) (price_oracle.price data) 10000000 = Some expected /\
    mul_div expected (MAX_BPS - storage.get_slippage_bps (w_store w)) MAX_BPS = Some low /\
    mul_div expected (MAX_BPS + storage.get_slippage_bps (w_store w)) MAX_BPS = Some high /\
    low <= amount <= high.

Definition priced env w tier token amount : Prop :=
  if 0 <? event_registry.tt_usd_price tier then in_band env w tier token amount
  else amount = sale_price tier (timestamp env).

Lemma check_price_Done tier token amount env (w : World T W) u w' :
  check_price tier token amount env w = Done u w' -> priced env w tier token amount.
Proof.
  unfold check_price, fetch_fresh_asset_price, priced. intros Hr. pay.
  case_match; pay; facts.
  - eexists _, _, _, _, _. split_and!; try done.
    unfold saturating_sub, saturate, MAX_ORACLE_PRICE_AGE_SECS in *. cbn in *. lia.
  - done.
Qed.

(** What a quote establishes about the world before it. *)
Record quoted (pid eid tid : string) (buyer token : Address) (amount quantity : Z)
    (options : PurchaseOptions) (env : Env) (w : World T W) (q : Quote) : Prop := {
  qu_signed : buyer ∈ auths env;
  qu_running : storage.is_paused (w_store w) = false;
  qu_fresh : t_Payment (w_store w) !! pid = None;
  qu_referrer : affiliate_of options <> Some buyer;
  qu_amount : 0 <= amount /\ quantity <> 0;
  qu_token : storage.is_token_whitelisted token (w_store w) = true;
  qu_total : q_total q = amount * quantity /\ amount * quantity ∈ᵢ I128;
  qu_registry : t_EventRegistry (w_store w) = Some (q_registry q);
  qu_event : exists e, get_event (q_registry q) eid (w_others w) = Some e /\
    event_registry.ei_is_active e = true /\ is_cancelled e = false /\
    event_registry.ei_tiers e !! tid = Some (q_tier q);
  qu_open : storage.is_event_cancelled_for_refund eid (w_store w) = false;
  qu_price : priced env w (q_tier q) token amount;
}.

Ltac calm_eq H f := let E := fresh "E" in pose proof (f_equal f (H : calm _ = calm _)) as E; cbn in E.

Lemma quote_sale_quiet pid eid tid buyer token amount quantity options :
  quiet anything (quote_sale (T := T) (W := W) sha256 pid eid tid buyer token amount quantity options).
Proof.
  unfold quote_sale, require_initialized, require_running, storage.get_event_registry.
  assert (forall A (m : C T W A), quiet eq m -> quiet anything m) as Hw
    by (intros A m Hm; eapply respects_impl; [|exact Hm]; intros ? ? (? & ? & ?); by split_and!).
  repeat first [ pframe1 | reflexivity | done
    | apply Hw; first [apply apply_promo_quiet|apply apply_code_quiet|apply apply_event_code_quiet
                      |apply check_wallet_limit_quiet|apply switch_price_quiet]
    | apply platform_fee_bps_quiet
    | apply respects_reads; [typeclasses eauto|first [apply check_price_reads|apply find_event_reads]]
    | match goal with |- respects _ (match ?b with _ => _ end) => destruct b end ].
Qed.

Lemma priced_calm env (w w1 : World T W) tier token amount :
  moves (keeps calm) eq eq w w1 -> priced env w1 tier token amount -> priced env w tier token amount.
Proof.
  intros (Hc & _ & Ho). unfold priced, in_band, storage.get_slippage_bps. rewrite <- Ho.
  calm_eq Hc t_OracleAddress. calm_eq Hc t_SlippageBps. by rewrite E, E0.
Qed.

Lemma quote_sale_Done pid eid tid buyer token amount quantity options env w q w' :
  quote_sale (T := T) (W := W) sha256 pid eid tid buyer token amount quantity options env w = Done q w' ->
  quoted pid eid tid buyer token amount quantity options env w q.
Proof.
  intros Hr. unfold quote_sale, require_initialized, require_running in Hr. pay. facts. unit_vars.
  match goal with H : (let '(_,_) := ?a in _) _ _ = Done _ _ |- _ => destruct a as [ap pb] end. pay.
  match goal with H : (let '(_,_) := ?a in _) _ _ = Done _ _ |- _ => destruct a as [et code] end.
  unfold find_event, storage.get_event_registry in Hr. pay. facts. unit_vars.
  match goal with
  | H1 : apply_promo _ _ _ = _, H2 : apply_code _ _ _ _ _ = _, H3 : apply_event_code _ _ _ _ _ = _,
    H4 : check_wallet_limit _ _ _ _ _ = _ |- _ =>
      apply apply_promo_quiet in H1; apply apply_code_quiet in H2; apply apply_event_code_quiet in H3;
      apply check_wallet_limit_quiet in H4;
      assert (moves (keeps calm) eq eq w s0) as M0 by (etrans; [exact H1|]; etrans; [exact H2|exact H3]);
      assert (moves (keeps calm) eq eq w s8) as M1 by (etrans; [exact M0|exact H4])
  end.
  match goal with H : check_price _ _ _ _ _ = _ |- _ =>
    apply check_price_Done, (priced_calm _ _ _ _ _ _ M1) in H end.
  destruct M0 as (Hc & _ & Ho). calm_eq Hc t_EventRegistry. calm_eq Hc t_EventCancelledForRefund.
  unfold storage.is_event_cancelled_for_refund in *.
  split; cbn [q_registry q_tier q_total]; try done; try congruence.
  - by apply eq_None_not_Some.
  - eexists. split_and!; [|done..]. rewrite Ho. congruence.
  - unfold storage.is_event_cancelled_for_refund. congruence.
Qed.
End Quotes.

(** ** The charge of a quote *)

(** What the registry guarantees of the rates it reports: they are unsigned, and
    the fee of an event is at most all of it. *)
Class ClientRates (W : Type) `{Clients W} := {
  promo_unsigned registry env (o : W) bps : get_global_promo_bps registry env o = Some bps -> 0 <= bps;
  loyalty_unsigned registry buyer (o : W) bps :
    get_loyalty_discount_bps registry buyer o = Some bps -> 0 <= bps;
  event_fee_bps registry id (o : W) e : get_event registry id o = Some e ->
    0 <= default (event_registry.ei_platform_fee_percent e) (event_registry.ei_custom_fee_bps e)
      <= MAX_BPS;
}.

(** The percentages of the codes and the commissions are in their ranges. *)
Record rates_stored (s : State) : Prop := {
  rs_codes e c d : t_DiscountCode s !! (e, c) = Some d -> 0 <= dd_percentage d <= 100;
  rs_affiliates e a r : t_AffiliateRate s !! (e, a) = Some r -> 0 <= r <= MAX_BPS;
}.

Section Charge.
Context {T W : Type} `{Token T} `{TokenAllowance T} `{ClientRates W}.
Variable sha256 : Bytes -> Bytes.
Implicit Types w : World T W.

Lemma mul_div_share a b d v :
  0 <= a -> 0 <= b <= d -> 0 < d -> mul_div a b d = Some v -> 0 <= v <= a.
Proof.
  intros Ha Hb Hd ->%mul_div_Some; [|lia..].
  split; [apply Z.div_pos; nia|apply Z.div_le_upper_bound; nia].
Qed.

Lemma apply_promo_reads total : reads (apply_promo (T := T) (W := W) total).
Proof.
  unfold apply_promo, storage.get_event_registry. intros env w [v b] w' Hr. pay.
  destruct (_ && _); pay; by destruct w.
Qed.

Lemma apply_code_reads o total : reads (apply_code (T := T) (W := W) sha256 o total).
Proof. unfold apply_code. intros env w [v c] w' Hr. case_match; by pay. Qed.

Lemma apply_promo_bounds total env w v b w' :
  0 <= total -> apply_promo (T := T) (W := W) total env w = Done (v, b) w' -> 0 <= v <= total.
Proof.
  unfold apply_promo. intros Ht Hr. pay. destruct (_ && _) eqn:Hb; pay; simplify_eq; [|lia].
  match goal with H : get_global_promo_bps _ _ _ = Some _ |- _ => apply promo_unsigned in H end.
  eapply (mul_div_share _ _ MAX_BPS); [done| |done|done].
  match goal with H : _ ∈ᵢ U32 |- _ => cbn in H end. lia.
Qed.

Lemma apply_code_bounds o total env w v c w' :
  0 <= total -> apply_code (T := T) (W := W) sha256 o total env w = Done (v, c) w' -> 0 <= v <= total.
Proof.
  unfold apply_code. intros Ht Hr. case_match; pay; simplify_eq; [|lia].
  eapply (mul_div_share _ 90 100); [done|lia|lia|done].
Qed.

Lemma apply_event_code_bounds id o total env w v w' :
  (forall e c d, t_DiscountCode (w_store w) !! (e, c) = Some d -> 0 <= dd_percentage d <= 100) ->
  0 <= total -> apply_event_code (T := T) (W := W) id o total env w = Done v w' -> 0 <= v <= total.
Proof.
  unfold apply_event_code. intros Hc Ht Hr. case_match; pay; [|lia].
  match goal with H : storage.get_discount_code _ _ _ = Some _ |- _ => apply Hc in H end.
  eapply (mul_div_share _ _ 100); [done| |lia|done]. lia.
Qed.

Lemma platform_fee_bps_bounds e env w v w' :
  0 <= default (event_registry.ei_platform_fee_percent e) (event_registry.ei_custom_fee_bps e)
    <= MAX_BPS ->
  platform_fee_bps (T := T) (W := W) e env w = Done v w' -> 0 <= v <= MAX_BPS.
Proof. unfold platform_fee_bps. intros He Hr. pay. repeat case_match; unfold MAX_BPS in *; lia. Qed.

(** A quote divides a total that is at most the price of the tickets. *)
Lemma quote_sale_charge pid eid tid buyer token amount quantity options env w q w' :
  rates_stored (w_store w) -> 0 <= quantity ->
  quote_sale (T := T) (W := W) sha256 pid eid tid buyer token amount quantity options env w = Done q w' ->
  exists eff fee_bps loyalty_bps rate,
    rates_ok eff fee_bps loyalty_bps rate /\ eff <= q_total q /\
    fee_split eff fee_bps loyalty_bps rate = Some (q_split q) /\
    (rate = None <-> affiliate_of options = None).
Proof.
  intros [Hcodes Haff] Hq Hr. unfold quote_sale, require_initialized, require_running in Hr. pay. facts. unit_vars.
  match goal with H : (let '(_,_) := ?a in _) _ _ = Done _ _ |- _ => destruct a as [ap pb] end. pay.
  match goal with H : (let '(_,_) := ?a in _) _ _ = Done _ _ |- _ => destruct a as [et code] end.
  pay. facts. unit_vars. cbn [q_total q_split].
  match goal with
  | H1 : apply_promo _ _ _ = _, H2 : apply_code _ _ _ _ _ = _, H3 : apply_event_code _ _ _ _ _ = _,
    H4 : find_event _ _ _ = _, H5 : storage.get_event_registry _ _ = _ |- _ =>
      pose proof (apply_promo_reads _ _ _ _ _ H1); pose proof (apply_code_reads _ _ _ _ _ _ H2);
      subst; apply apply_promo_bounds in H1; [|nia]; apply apply_code_bounds in H2; [|lia];
      pose proof (apply_event_code_quiet _ _ _ _ _ _ _ H3) as M1;
      apply (apply_event_code_bounds _ _ _ _ _ _ _ Hcodes) in H3; [|lia];
      unfold find_event, storage.get_event_registry in H4, H5
  end. pay.
  match goal with
  | H1 : check_wallet_limit _ _ _ _ _ = _, H2 : check_price _ _ _ _ _ = _,
    H3 : switch_price _ _ _ _ _ = _, H4 : platform_fee_bps _ _ _ = _ |- _ =>
      apply check_wallet_limit_quiet in H1 as [C1 _]; apply check_price_reads in H2; subst;
      apply switch_price_quiet in H3 as [C2 _]; destruct M1 as [C0 _];
      pose proof (platform_fee_bps_quiet _ _ _ _ _ H4) as [C3 _];
      apply platform_fee_bps_bounds in H4; [|by eapply event_fee_bps]
  end. cbn [w_store] in *.
  assert (t_AffiliateRate (w_store s13) = t_AffiliateRate (w_store w)) as Ea
    by (assert (keeps calm (w_store w) (w_store s13)) as E
          by (etrans; [exact C0|]; etrans; [exact C1|]; etrans; [exact C2|exact C3]);
        exact (f_equal t_AffiliateRate E)).
  match goal with H : fee_split ?a ?b ?c ?d = Some _ |- _ => exists a, b, c, d end.
  split; [|split; [lia|split; [done|case_match; by pay]]].
  split; [lia|done| |].
  - destruct (get_loyalty_discount_bps _ _ _) eqn:Hl; cbn; [by eapply loyalty_unsigned|lia].
  - intros r ->. case_match; pay; simplify_eq.
    unfold storage.get_affiliate_rate. rewrite Ea.
    destruct (t_AffiliateRate (w_store w) !! _) eqn:Hl; cbn; [by eapply Haff|unfold MAX_BPS; lia].
Qed.
End Charge.
