(* ===== verification/PaymentAdmin.v ===== *)
(** * Ticket payment: administration and governance

    [initialize], the settings of the administrator and of the organizers, the
    governors' proposals and the proposals of escrow withdrawals of
    [contract.rs].  What they guarantee is the subject of
    [PaymentGovernance]. *)

From stdpp Require Import base tactics numbers list strings gmap.
From S2P Require Import Prelude.
From S2P Require Import Soroban.
From S2P Require Import Token.
From S2P Require Import PaymentTypes.
From S2P Require Import PaymentStorage.
From S2P Require Import PaymentWorld.
From S2P Require Import PaymentSale.

Definition MAX_BATCH_SIZE : Z := 50.

(** [Address::to_string] of the all-zero account. *)
Definition zero_address : Address := "GAAAAAAAAAAAAAAAAAAAAAAAAAAAAAAAAAAAAAAAAAAAAAAAAAAAJXFF".
Definition is_zero_address (address : Address) : bool := bool_decide (address = zero_address).

Section Admin.
Context {T W : Type} `{Token T} `{TokenAllowance T} `{Clients W}.

Abbreviation C := (C T W).

Definition validate_address (address : Address) : C unit :=
  self ← contract_address;
  throw_if (bool_decide (address = self) || is_zero_address address) InvalidAddress.

Definition initialize (admin usdc_token platform_wallet registry : Address) : C unit :=
  i ← read storage.is_initialized;
  throw_if i AlreadyInitialized;;
  validate_address admin;;
  validate_address usdc_token;;
  validate_address platform_wallet;;
  validate_address registry;;
  write (storage.set_admin admin);;
  write (storage.set_governor admin true);;
  write (storage.set_total_governors 1);;
  write (storage.set_usdc_token usdc_token);;
  write (storage.set_platform_wallet platform_wallet);;
  write (storage.set_event_registry registry);;
  write (storage.set_initialized true);;
  write (storage.add_token_to_whitelist usdc_token);;
  on_store (publish (events.ContractInitialized usdc_token platform_wallet registry)).

Definition set_pause (paused : bool) : C unit :=
  require_admin;;
  write (storage.set_is_paused paused);;
  now ← ledger_timestamp;
  on_store (publish (events.ContractPaused paused now)).

Definition set_event_dispute (event_id : string) (disputed : bool) : C unit :=
  require_admin;;
  now ← ledger_timestamp;
  on_store (publish (events.DisputeStatusChanged event_id disputed now)).

(** A dispute that is open or voted on; [try_get_dispute] failures read as
    none. *)
Definition dispute_running (o : option event_registry.Dispute) : bool :=
  match o with
  | Some d => bool_decide (event_registry.d_status d = event_registry.Open)
              || bool_decide (event_registry.d_status d = event_registry.Voting)
  | None => false
  end.

Definition is_event_disputed (event_id : string) : C bool :=
  registry ← on_store storage.get_event_registry;
  o ← query (get_dispute registry event_id);
  mret (dispute_running o).

Definition create_discount_code (event_id code : string) (percentage expires_at max_uses : Z)
    : C unit :=
  require_admin;;
  throw_if ((percentage =? 0) || (100 <? percentage)) InvalidFeePercent;;
  write (storage.set_discount_code event_id code
    {| dd_percentage := percentage; dd_expires_at := expires_at; dd_max_uses := max_uses;
       dd_current_uses := 0 |}).

Definition set_max_tickets_per_wallet (event_id : string) (max : Z) : C unit :=
  event_info ← find_event event_id;
  require_auth (event_registry.ei_organizer_address event_info);;
  write (storage.set_max_tickets_per_wallet event_id max).

Definition set_oracle (oracle_address : Address) : C unit :=
  require_admin;;
  write (storage.set_oracle_address oracle_address).

Definition set_slippage (bps : Z) : C unit :=
  require_admin;;
  on_store (storage.set_slippage_bps bps).

Definition set_withdrawal_cap (token : Address) (amount : Z) : C unit :=
  require_admin;;
  throw_if (amount <? 0) ArithmeticError;;
  write (storage.set_withdrawal_cap token amount).

Definition set_transfer_fee (event_id : string) (bps : Z) : C unit :=
  require_initialized;;
  event_info ← find_event event_id;
  require_auth (event_registry.ei_organizer_address event_info);;
  throw_if (MAX_BPS <? bps) InvalidFeePercent;;
  write (storage.set_transfer_fee event_id bps).

Definition set_affiliate_rate (event_id : string) (affiliate : Address) (rate_bps : Z) : C unit :=
  require_initialized;;
  throw_if (MAX_BPS <? rate_bps) InvalidFeePercent;;
  event_info ← find_event event_id;
  require_auth (event_registry.ei_organizer_address event_info);;
  write (storage.set_affiliate_rate event_id affiliate rate_bps).

Definition set_resale_royalty_bps (event_id : string) (bps : Z) : C unit :=
  require_admin;;
  on_store (storage.set_resale_royalty_bps event_id bps).

Definition add_discount_hashes (event_id : string) (hashes : list Bytes) : C unit :=
  require_initialized;;
  throw_if (bool_decide (hashes = [])) EmptyBatch;;
  throw_if (MAX_BATCH_SIZE <? len hashes) BatchTooLarge;;
  event_info ← find_event event_id;
  require_auth (event_registry.ei_organizer_address event_info);;
  write (fun s => foldl (fun s hash => storage.add_discount_hash hash s) s hashes).

Definition cancel_event (event_id : string) : C unit :=
  require_initialized;;
  event_info ← find_event event_id;
  require_auth (event_registry.ei_organizer_address event_info);;
  write (storage.set_event_cancelled_for_refund event_id);;
  now ← ledger_timestamp;
  on_store (publish (events.EventCancelled event_id
                       (event_registry.ei_organizer_address event_info) now)).

(** ** Governors *)
Definition require_governor (a : Address) : C unit :=
  g ← read (storage.is_governor a);
  throw_if (negb g) NotGovernor.

(** A new proposal, with the vote of its proposer. *)
Definition open_proposal (proposer : Address) (change : ParameterChange) : C Z :=
  proposal_id ← on_store storage.increment_proposal_count;
  now ← ledger_timestamp;
  expires_at ← add_ U64 now 604800;
  write (storage.set_proposal {|
    pp_id := proposal_id; pp_proposer := proposer; pp_change := change;
    pp_status := ProposalStatus.Pending; pp_created_at := now; pp_expires_at := expires_at;
    pp_vote_count := 1; pp_voters := [proposer] |});;
  mret proposal_id.

Definition propose_parameter_change (proposer : Address) (change : ParameterChange) : C Z :=
  require_auth proposer;;
  require_governor proposer;;
  proposal_id ← open_proposal proposer change;
  now ← ledger_timestamp;
  on_store (publish (events.ProposalCreated proposal_id proposer change now));;
  mret proposal_id.

Definition add_vote (proposal : ParameterProposal) (voter : Address) : C unit :=
  count ← add_ U32 (pp_vote_count proposal) 1;
  write (storage.set_proposal
    (proposal <| pp_voters := pp_voters proposal ++ [voter] |> <| pp_vote_count := count |>)).

Definition vote_on_proposal (voter : Address) (proposal_id : Z) : C unit :=
  require_auth voter;;
  require_governor voter;;
  o ← read (storage.get_proposal proposal_id);
  proposal ← ok_or o InvalidProposal;
  now ← ledger_timestamp;
  throw_if (pp_expires_at proposal <? now) ProposalExpired;;
  throw_if (bool_decide (pp_status proposal <> ProposalStatus.Pending)) ProposalNotActive;;
  throw_if (bool_decide (voter ∈ pp_voters proposal)) AlreadyVoted;;
  add_vote proposal voter;;
  on_store (publish (events.ProposalVoted proposal_id voter now)).

Definition apply_change (change : ParameterChange) (total_governors : Z) : C unit :=
  match change with
  | AddGovernor new_governor =>
      g ← read (storage.is_governor new_governor);
      when (negb g)
        (write (storage.set_governor new_governor true);;
         total ← add_ U32 total_governors 1;
         write (storage.set_total_governors total))
  | RemoveGovernor old_governor =>
      throw_if (total_governors <=? 1) CannotRemoveLastGovernor;;
      g ← read (storage.is_governor old_governor);
      when g
        (write (storage.set_governor old_governor false);;
         total ← sub_ U32 total_governors 1;
         write (storage.set_total_governors total))
  | AddTokenToWhitelist token => write (storage.add_token_to_whitelist token)
  | RemoveTokenFromWhitelist token => write (storage.remove_token_from_whitelist token)
  | UpdateWithdrawalCap token cap => write (storage.set_withdrawal_cap token cap)
  | UpdateSlippage bps => on_store (storage.set_slippage_bps bps)
  | UpdateTransferFee event_id fee => write (storage.set_transfer_fee event_id fee)
  | EscrowWithdrawal _ _ => throw InvalidPaymentStatus
  end.

Definition VOTING_PERIOD : Z := 172800.

Definition execute_proposal (executor : Address) (proposal_id : Z) : C unit :=
  require_auth executor;;
  o ← read (storage.get_proposal proposal_id);
  proposal ← ok_or o InvalidProposal;
  now ← ledger_timestamp;
  throw_if (pp_expires_at proposal <? now) ProposalExpired;;
  throw_if (bool_decide (pp_status proposal <> ProposalStatus.Pending)) ProposalNotActive;;
  unlocked ← add_ U64 (pp_created_at proposal) VOTING_PERIOD;
  throw_if (now <? unlocked) VotingPeriodNotMet;;
  total_governors ← read storage.get_total_governors;
  threshold ← add_ U32 (total_governors / 2) 1;
  throw_if (pp_vote_count proposal <? threshold) InsufficientVotes;;
  apply_change (pp_change proposal) total_governors;;
  write (storage.set_proposal (proposal <| pp_status := ProposalStatus.Executed |>));;
  on_store (publish (events.GovernanceActionExecuted proposal_id (pp_change proposal) now)).

(** ** Escrow withdrawals *)
Definition propose_escrow_withdrawal (event_id : string) (amount : Z) (_token_address : Address)
    : C Z :=
  require_initialized;;
  event_info ← find_event event_id;
  let organizer := event_registry.ei_organizer_address event_info in
  require_auth organizer;;
  throw_if (amount <=? 0) ArithmeticError;;
  proposal_id ← open_proposal organizer (EscrowWithdrawal event_id amount);
  now ← ledger_timestamp;
  on_store (publish (events.EscrowWithdrawalProposed proposal_id event_id amount organizer now));;
  mret proposal_id.

Definition approve_escrow_withdrawal (proposal_id : Z) : C unit :=
  admin ← require_admin;
  o ← read (storage.get_proposal proposal_id);
  proposal ← ok_or o InvalidProposal;
  throw_if (bool_decide (pp_status proposal <> ProposalStatus.Pending)) ProposalNotActive;;
  now ← ledger_timestamp;
  throw_if (pp_expires_at proposal <? now) ProposalExpired;;
  if bool_decide (admin ∈ pp_voters proposal) then mret tt
  else
    add_vote proposal admin;;
    on_store (publish (events.EscrowWithdrawalApproved proposal_id admin now)).

Definition execute_escrow_withdrawal (proposal_id : Z) : C unit :=
  executor ← require_admin;
  o ← read (storage.get_proposal proposal_id);
  proposal ← ok_or o InvalidProposal;
  throw_if (bool_decide (pp_status proposal <> ProposalStatus.Pending)) ProposalNotActive;;
  now ← ledger_timestamp;
  throw_if (pp_expires_at proposal <? now) ProposalExpired;;
  throw_if (pp_vote_count proposal <? 2) InsufficientVotes;;
  write (storage.set_proposal (proposal <| pp_status := ProposalStatus.Executed |>));;
  on_store (publish (events.EscrowWithdrawalExecuted proposal_id "" 0 executor now)).
End Admin.
