(* ===== verification/PaymentRefund.v ===== *)
(** * Ticket payment: refunds

    The refunds of [contract.rs]: by the guest, by the administrator, automatic
    ones after a cancellation or a missed goal, the batches of an organizer, and
    the cascade after a dispute. *)

From stdpp Require Import base tactics numbers list strings gmap.
From S2P Require Import Prelude.
From S2P Require Import Soroban.
From S2P Require Import Token.
From S2P Require Import PaymentTypes.
From S2P Require Import PaymentStorage.
From S2P Require Import PaymentWorld.
From S2P Require Import PaymentSale.
From S2P Require Import PaymentAdmin.

(** The elements [start .. end_) of a vector. *)
Definition slice {A} (start end_ : Z) (l : list A) : list A :=
  take (Z.to_nat (end_ - start)) (drop (Z.to_nat start) l).

(** The accumulated balance, amount and count of a batch. *)
Record Batch := mkBatch {
  ba_balance : EventBalance;
  ba_refunded : Z;
  ba_count : Z;
}.

(** [!goal_met && min_sales_target > 0 && now > target_deadline]. *)
Definition goal_failed (event_info : event_registry.EventInfo) (now : Z) : bool :=
  negb (event_registry.ei_goal_met event_info)
  && (0 <? event_registry.ei_min_sales_target event_info)
  && (event_registry.ei_target_deadline event_info <? now).

(** The fee an organizer keeps of a refund. *)
Definition restocking (event_info : event_registry.EventInfo) (amount now : Z) : Z :=
  if is_cancelled event_info || goal_failed event_info now then 0
  else if amount <? event_registry.ei_restocking_fee event_info then amount
  else if 0 <? event_registry.ei_restocking_fee event_info
       then event_registry.ei_restocking_fee event_info
  else 0.

Definition get_ticket_payment_id (_ticket_id : Z) : option string := None.

Section Refund.
Context {T W : Type} `{Token T} `{TokenAllowance T} `{Clients W}.

Abbreviation C := (C T W).

Definition find_payment (payment_id : string) : C Payment :=
  o ← read (storage.get_payment payment_id);
  ok_or o PaymentNotFound.

(** [-x], which traps at the smallest value. *)
Definition neg_i128 (x : Z) : C Z := sub_ I128 0 x.

Definition refund_accounts (payment : Payment) (org_adjustment refund_amount : Z) : C unit :=
  o ← neg_i128 org_adjustment;
  f ← neg_i128 (pay_platform_fee payment);
  on_store (storage.update_event_balance (pay_event_id payment) o f);;
  on_store (storage.subtract_from_active_escrow_total refund_amount);;
  on_store (storage.subtract_from_active_escrow_by_token (pay_token_address payment) refund_amount).

(** The record of a refunded ticket and its status index. *)
Definition mark_refunded (payment_id : string) (old payment : Payment) : C unit :=
  write (storage.put_payment payment_id payment);;
  when (bool_decide (pay_status old <> Refunded))
    (write (storage.update_payment_status_index (pay_event_id payment) (pay_status old)
              Refunded payment_id)).

Definition internal_refund (payment_id : string) : C unit :=
  payment ← find_payment payment_id;
  require_auth (pay_buyer_address payment);;
  throw_if (bool_decide (pay_status payment = Refunded) || bool_decide (pay_status payment = Failed))
    InvalidPaymentStatus;;
  registry ← on_store storage.get_event_registry;
  event_info ← find_event (pay_event_id payment);
  d ← query (get_dispute registry (pay_event_id payment));
  throw_if (dispute_running d) EventDisputed;;
  tier ← ok_or (event_registry.ei_tiers event_info !! pay_ticket_tier_id payment) TierNotFound;
  now ← ledger_timestamp;
  let cancelled := is_cancelled event_info in
  throw_if (negb (event_registry.tt_is_refundable tier) && negb cancelled
            && negb (goal_failed event_info now) && event_registry.ei_is_active event_info)
    TicketNotRefundable;;
  throw_if (negb cancelled && event_registry.ei_is_active event_info
            && (0 <? event_registry.ei_refund_deadline event_info)
            && (event_registry.ei_refund_deadline event_info <? now)) RefundDeadlinePassed;;
  let fee := restocking event_info (pay_amount payment) now in
  refund_amount ← ok_or (checked_sub I128 (pay_amount payment) fee) ArithmeticError;
  call (fun env => decrement_inventory registry env (pay_event_id payment)
                     (pay_ticket_tier_id payment) (pay_buyer_address payment));;
  mark_refunded payment_id payment
    (payment <| pay_status := Refunded |> <| pay_confirmed_at := Some now |>);;
  self ← contract_address;
  when (0 <? refund_amount)
    (token_call (transfer (pay_token_address payment) self (pay_buyer_address payment)
                   refund_amount));;
  org_adjustment ← ok_or (checked_sub I128 (pay_organizer_amount payment) fee) ArithmeticError;
  refund_accounts payment org_adjustment refund_amount;;
  updated ← read (storage.get_event_balance (pay_event_id payment));
  when ((eb_organizer_amount updated =? 0) && (eb_platform_fee updated =? 0))
    (on_store (storage.update_event_balance (pay_event_id payment) 0 0));;
  on_store (publish (events.PaymentStatusChanged payment_id (pay_status payment) Refunded
                       "refund" now)).

Definition request_guest_refund (payment_id : string) : C unit :=
  require_initialized;;
  require_running;;
  internal_refund payment_id.

Definition request_refund (ticket_id : Z) : C unit :=
  require_initialized;;
  require_running;;
  payment_id ← ok_or (get_ticket_payment_id ticket_id) PaymentNotFound;
  payment ← find_payment payment_id;
  throw_if (bool_decide (pay_status payment = CheckedIn)) TicketAlreadyUsed;;
  throw_if (bool_decide (pay_status payment = Refunded)) InvalidPaymentStatus;;
  event_info ← find_event (pay_event_id payment);
  now ← ledger_timestamp;
  throw_if (negb (is_cancelled event_info)
            && (0 <? event_registry.ei_refund_deadline event_info)
            && (event_registry.ei_refund_deadline event_info <? now)) RefundDeadlinePassed;;
  internal_refund payment_id.

Definition admin_refund (payment_id : string) : C unit :=
  require_admin;;
  internal_refund payment_id.

Definition claim_automatic_refund (payment_id : string) : C unit :=
  require_initialized;;
  require_running;;
  payment ← find_payment payment_id;
  event_info ← find_event (pay_event_id payment);
  now ← ledger_timestamp;
  throw_if (negb (is_cancelled event_info) && negb (goal_failed event_info now))
    InvalidPaymentStatus;;
  internal_refund payment_id.

(** ** Batches *)
Definition sub_balance (balance : EventBalance) (org fee : Z) : C EventBalance :=
  o ← sub_ I128 (eb_organizer_amount balance) org;
  f ← sub_ I128 (eb_platform_fee balance) fee;
  mret (balance <| eb_organizer_amount := o |> <| eb_platform_fee := f |>).

(** One ticket of a bulk refund. *)
Definition bulk_refund_one (acc : Batch) (payment_id : string) : C Batch :=
  o ← read (storage.get_payment payment_id);
  match o with
  | Some payment =>
      if bool_decide (pay_status payment = Confirmed) then
        self ← contract_address;
        token_call (transfer (pay_token_address payment) self (pay_buyer_address payment)
                      (pay_amount payment));;
        now ← ledger_timestamp;
        on_store (storage.store_payment
          (payment <| pay_status := Refunded |> <| pay_confirmed_at := Some now |>));;
        balance ← sub_balance (ba_balance acc) (pay_organizer_amount payment)
                    (pay_platform_fee payment);
        total ← add_ I128 (ba_refunded acc) (pay_amount payment);
        count ← add_ U32 (ba_count acc) 1;
        on_store (storage.subtract_from_active_escrow_by_token (pay_token_address payment)
                    (pay_amount payment));;
        mret (mkBatch balance total count)
      else mret acc
  | None => mret acc
  end.

(** What a batch writes at its end. *)
Definition close_batch (event_id : string) (acc : Batch) : C unit :=
  when (0 <? ba_count acc)
    (write (storage.set_event_balance event_id (ba_balance acc));;
     on_store (storage.subtract_from_active_escrow_total (ba_refunded acc))).

Definition trigger_bulk_refund (event_id : string) (batch_size : Z) : C Z :=
  require_initialized;;
  require_running;;
  event_info ← find_event event_id;
  require_auth (event_registry.ei_organizer_address event_info);;
  throw_if (event_registry.ei_is_active event_info || negb (is_cancelled event_info))
    EventNotCompleted;;
  start_index ← read (storage.get_bulk_refund_index event_id);
  payment_ids ← read (storage.get_event_payments event_id);
  let total_payments := len payment_ids in
  if total_payments <=? start_index then mret 0
  else
    e ← add_ U32 start_index batch_size;
    let end_index := Z.min e total_payments in
    balance ← read (storage.get_event_balance event_id);
    acc ← foldM bulk_refund_one (mkBatch balance 0 0) (slice start_index end_index payment_ids);
    close_batch event_id acc;;
    write (storage.set_bulk_refund_index event_id end_index);;
    now ← ledger_timestamp;
    on_store (publish (events.BulkRefundProcessed event_id (ba_count acc) (ba_refunded acc) now));;
    mret (ba_count acc).

(** One ticket of a partial refund of [pct] basis points. *)
Definition partial_refund_one (pct : Z) (acc : Batch) (payment_id : string) : C Batch :=
  o ← read (storage.get_payment payment_id);
  match o with
  | Some payment =>
      if bool_decide (pay_status payment = Confirmed) then
        p ← ok_or (checked_mul I128 (pay_amount payment) pct) ArithmeticError;
        refund_amount ← unwrap (checked_div I128 p MAX_BPS);
        if (0 <? refund_amount) && (refund_amount <=? pay_organizer_amount payment) then
          self ← contract_address;
          token_call (transfer (pay_token_address payment) self (pay_buyer_address payment)
                        refund_amount);;
          refunded ← add_ I128 (pay_refunded_amount payment) refund_amount;
          org ← sub_ I128 (pay_organizer_amount payment) refund_amount;
          on_store (storage.store_payment
            (payment <| pay_refunded_amount := refunded |> <| pay_organizer_amount := org |>));;
          b ← sub_ I128 (eb_organizer_amount (ba_balance acc)) refund_amount;
          total ← add_ I128 (ba_refunded acc) refund_amount;
          count ← add_ U32 (ba_count acc) 1;
          on_store (storage.subtract_from_active_escrow_by_token (pay_token_address payment)
                      refund_amount);;
          mret (mkBatch ((ba_balance acc) <| eb_organizer_amount := b |>) total count)
        else mret acc
      else mret acc
  | None => mret acc
  end.

Definition issue_partial_refund (event_id : string) (percentage_bps batch_size : Z) : C Z :=
  require_initialized;;
  require_running;;
  panic_if (MAX_BPS <? percentage_bps);;
  event_info ← find_event event_id;
  require_auth (event_registry.ei_organizer_address event_info);;
  start_index ← read (storage.get_partial_refund_index event_id);
  payment_ids ← read (storage.get_event_payments event_id);
  let total_payments := len payment_ids in
  if total_payments <=? start_index then
    active_pct ← read (storage.get_partial_refund_percentage event_id);
    when (0 <? active_pct)
      (write (storage.set_partial_refund_percentage event_id 0);;
       write (storage.set_partial_refund_index event_id 0));;
    mret 0
  else
    when (start_index =? 0)
      (write (storage.set_partial_refund_percentage event_id percentage_bps));;
    active_pct ← read (storage.get_partial_refund_percentage event_id);
    e ← add_ U32 start_index batch_size;
    let end_index := Z.min e total_payments in
    balance ← read (storage.get_event_balance event_id);
    acc ← foldM (partial_refund_one active_pct) (mkBatch balance 0 0)
            (slice start_index end_index payment_ids);
    close_batch event_id acc;;
    write (storage.set_partial_refund_index event_id end_index);;
    when (total_payments <=? end_index)
      (write (storage.set_partial_refund_percentage event_id 0);;
       write (storage.set_partial_refund_index event_id 0));;
    now ← ledger_timestamp;
    on_store (publish (events.PartialRefundProcessed event_id (ba_count acc) (ba_refunded acc)
                         active_pct now));;
    mret (ba_count acc).

(** ** Cancellation and dispute *)
Definition claim_cancellation_refund (payment_id : string) : C unit :=
  require_initialized;;
  require_running;;
  payment ← find_payment payment_id;
  require_auth (pay_buyer_address payment);;
  locally ← read (storage.is_event_cancelled_for_refund (pay_event_id payment));
  (if locally : bool then mret tt
   else
     event_info ← find_event (pay_event_id payment);
     throw_if (negb (is_cancelled event_info)) EventNotCompleted);;
  throw_if (bool_decide (pay_status payment = Refunded) || bool_decide (pay_status payment = Failed))
    InvalidPaymentStatus;;
  let refund_amount := pay_amount payment in
  now ← ledger_timestamp;
  mark_refunded payment_id payment
    (payment <| pay_status := Refunded |> <| pay_confirmed_at := Some now |>
             <| pay_refunded_amount := refund_amount |>);;
  registry ← on_store storage.get_event_registry;
  call (fun env => decrement_inventory registry env (pay_event_id payment)
                     (pay_ticket_tier_id payment) (pay_buyer_address payment));;
  self ← contract_address;
  token_call (transfer (pay_token_address payment) self (pay_buyer_address payment) refund_amount);;
  refund_accounts payment (pay_organizer_amount payment) refund_amount;;
  on_store (publish (events.CancellationRefundClaimed payment_id (pay_event_id payment)
                       (pay_buyer_address payment) refund_amount now)).

Definition cascade_one (event_id : string) (refunded : Z) (payment_id : string) : C Z :=
  o ← read (storage.get_payment payment_id);
  match o with
  | Some payment =>
      if bool_decide (pay_status payment = Confirmed) then
        self ← contract_address;
        token_call (transfer (pay_token_address payment) self (pay_buyer_address payment)
                      (pay_amount payment));;
        now ← ledger_timestamp;
        on_store (storage.store_payment
          (payment <| pay_status := Refunded |> <| pay_confirmed_at := Some now |>));;
        o ← neg_i128 (pay_organizer_amount payment);
        f ← neg_i128 (pay_platform_fee payment);
        on_store (storage.update_event_balance event_id o f);;
        on_store (storage.subtract_from_active_escrow_total (pay_amount payment));;
        on_store (storage.subtract_from_active_escrow_by_token (pay_token_address payment)
                    (pay_amount payment));;
        add_ U32 refunded 1
      else mret refunded
  | None => mret refunded
  end.

Definition trigger_dispute_refund_cascade (event_id : string) : C Z :=
  require_initialized;;
  require_running;;
  registry ← on_store storage.get_event_registry;
  o ← query (get_dispute registry event_id);
  dispute ← ok_or o EventNotFound;
  throw_if (bool_decide (event_registry.d_status dispute <> event_registry.ResolvedBuyer))
    DisputeNotResolved;;
  payment_ids ← read (storage.get_event_payments event_id);
  refunded ← foldM (cascade_one event_id) 0 payment_ids;
  now ← ledger_timestamp;
  on_store (publish (events.BulkRefundProcessed event_id refunded 0 now));;
  mret refunded.
End Refund.
