(* ===== verification/PaymentEscrow.v ===== *)
(** * Ticket payment: revenue and escrow

    The withdrawals of organizers and of the platform and the milestone release
    ([contract.rs], [escrow.rs]). *)

From stdpp Require Import base tactics numbers list strings gmap.
From S2P Require Import Prelude.
From S2P Require Import Soroban.
From S2P Require Import Token.
From S2P Require Import PaymentTypes.
From S2P Require Import PaymentStorage.
From S2P Require Import PaymentWorld.
From S2P Require Import PaymentSale.
From S2P Require Import PaymentAdmin.

Definition ESCROW_DELAY : Z := 86400.
Definition DUST_THRESHOLD : Z := 10000.

(** The largest share of the milestones that are reached. *)
Definition highest_met (current_supply : Z) (milestones : list event_registry.Milestone) : Z :=
  foldl (fun highest m =>
    if (event_registry.ms_sales_threshold m <=? current_supply)
       && (highest <? event_registry.ms_release_percent m)
    then event_registry.ms_release_percent m else highest) 0 milestones.

Definition release_percent (event_info : event_registry.EventInfo) : Z :=
  match event_registry.ei_milestone_plan event_info with
  | Some (m :: ms) => highest_met (event_registry.ei_current_supply event_info) (m :: ms)
  | Some [] | None => MAX_BPS
  end.

(** [get_escrow_milestones]: the loop over the indexes stops at the first missing
    one but the zeroth; it makes at most two rounds more than there are entries,
    so that [fuel] is enough ([get_escrow_milestones_fuel]). *)
Fixpoint milestones_loop (fuel : nat) (event_id : string) (i : Z) (s : State)
    : list EscrowMilestone :=
  match fuel with
  | O => []
  | S fuel =>
      if i <? int_max U32 then
        match storage.get_escrow_milestone event_id i s with
        | Some m => m :: milestones_loop fuel event_id (i + 1) s
        | None => if 0 <? i then [] else milestones_loop fuel event_id (i + 1) s
        end
      else []
  end.
Definition get_escrow_milestones (event_id : string) (s : State) : list EscrowMilestone :=
  milestones_loop (size (t_EscrowMilestone s) + 2) event_id 0 s.

Definition init_escrow_for_event (event_id : string) (s : State) : EscrowState * State :=
  let state := mkEscrowState 0 0 0 in
  (state, s <| t_EscrowState := <[event_id := state]> (t_EscrowState s) |>).

Section Escrow.
Context {T W : Type} `{Token T} `{TokenAllowance T} `{Clients W}.

Abbreviation C := (C T W).

Definition withdraw_organizer_funds (event_id : string) (token : Address) : C Z :=
  registry ← on_store storage.get_event_registry;
  event_info ← find_event event_id;
  let organizer := event_registry.ei_organizer_address event_info in
  require_auth organizer;;
  now ← ledger_timestamp;
  (if 0 <? event_registry.ei_end_time event_info then
     release ← add_ U64 (event_registry.ei_end_time event_info) ESCROW_DELAY;
     throw_if (now <? release) EventNotCompleted
   else mret tt);;
  balance ← read (storage.get_event_balance event_id);
  d ← query (get_dispute registry event_id);
  throw_if (dispute_running d) EventDisputed;;
  throw_if (is_cancelled event_info) EventCancelled;;
  throw_if ((0 <? event_registry.ei_min_sales_target event_info)
            && negb (event_registry.ei_goal_met event_info)) GoalNotMet;;
  total_revenue ← ok_or (checked_add I128 (eb_organizer_amount balance)
                           (eb_total_withdrawn balance)) ArithmeticError;
  if total_revenue =? 0 then mret 0
  else
    max_allowed ← ok_or (mul_div total_revenue (release_percent event_info) MAX_BPS)
                    ArithmeticError;
    available ← ok_or (checked_sub I128 max_allowed (eb_total_withdrawn balance)) ArithmeticError;
    if available <=? 0 then mret 0
    else
      let available := if eb_organizer_amount balance <? available
                       then eb_organizer_amount balance else available in
      self ← contract_address;
      token_call (transfer token self organizer available);;
      org ← ok_or (checked_sub I128 (eb_organizer_amount balance) available) ArithmeticError;
      withdrawn ← ok_or (checked_add I128 (eb_total_withdrawn balance) available) ArithmeticError;
      write (storage.set_event_balance event_id
               (mkEventBalance org withdrawn (eb_platform_fee balance)));;
      on_store (storage.subtract_from_active_escrow_total available);;
      on_store (storage.subtract_from_active_escrow_by_token token available);;
      mret available.

Definition settle_platform_fees (event_id : string) (_token_address : Address) : C Z :=
  require_admin;;
  balance ← read (storage.get_event_balance event_id);
  if eb_platform_fee balance =? 0 then mret 0
  else
    write (storage.set_event_balance event_id
             (mkEventBalance (eb_organizer_amount balance) (eb_total_withdrawn balance) 0));;
    wallet ← on_store storage.get_platform_wallet;
    now ← ledger_timestamp;
    on_store (publish (events.FeeSettled event_id wallet (eb_platform_fee balance) 0 now));;
    mret (eb_platform_fee balance).

Definition withdraw_platform_fees (amount : Z) (token : Address) : C unit :=
  require_admin;;
  throw_if (amount <=? 0) ArithmeticError;;
  total_accumulated ← read (storage.get_total_fees_collected_by_token token);
  throw_if (total_accumulated <? amount) InsufficientFees;;
  cap ← read (storage.get_withdrawal_cap token);
  (if 0 <? cap then
     now ← ledger_timestamp;
     let current_day := now / 86400 in
     already ← read (storage.get_daily_withdrawn_amount token current_day);
     sum ← ok_or (checked_add I128 already amount) ArithmeticError;
     throw_if (cap <? sum) WithdrawalCapExceeded;;
     on_store (storage.add_to_daily_withdrawn_amount token current_day amount)
   else mret tt);;
  wallet ← on_store storage.get_platform_wallet;
  self ← contract_address;
  token_call (transfer token self wallet amount);;
  on_store (storage.subtract_from_total_fees_collected_by_token token amount);;
  on_store (storage.subtract_from_active_escrow_total amount);;
  on_store (storage.subtract_from_active_escrow_by_token token amount).

Definition claim_revenue (event_id : string) (token : Address) : C Z :=
  require_running;;
  registry ← on_store storage.get_event_registry;
  event_info ← find_event event_id;
  require_auth (event_registry.ei_organizer_address event_info);;
  throw_if (event_registry.ei_is_active event_info
            || bool_decide (event_registry.ei_status event_info <> event_registry.Inactive))
    EventNotCompleted;;
  throw_if ((0 <? event_registry.ei_min_sales_target event_info)
            && negb (event_registry.ei_goal_met event_info)) GoalNotMet;;
  d ← query (get_dispute registry event_id);
  throw_if (dispute_running d) EventDisputed;;
  balance_ ← read (storage.get_event_balance event_id);
  throw_if ((eb_organizer_amount balance_ =? 0) && (eb_platform_fee balance_ =? 0))
    NoFundsAvailable;;
  wallet ← on_store storage.get_platform_wallet;
  self ← contract_address;
  now ← ledger_timestamp;
  let fee := eb_platform_fee balance_ in
  let org := eb_organizer_amount balance_ in
  held ← token_read (fun t => balance t token self);
  let org := if (0 <? org) && (org <=? DUST_THRESHOLD) && (org <=? held)
             then Z.max (default org (checked_sub I128 held fee)) org else org in
  when (0 <? fee)
    (on_store (publish (events.FeeSettled event_id wallet fee
       (default (event_registry.ei_platform_fee_percent event_info)
          (event_registry.ei_custom_fee_bps event_info)) now)));;
  when (0 <? org)
    (token_call (transfer token self (event_registry.ei_payment_address event_info) org));;
  withdrawn ← add_ I128 (eb_total_withdrawn balance_) org;
  write (storage.set_event_balance event_id (mkEventBalance 0 withdrawn 0));;
  when (0 <? org)
    (on_store (storage.subtract_from_active_escrow_total org);;
     on_store (storage.subtract_from_active_escrow_by_token token org));;
  on_store (publish (events.RevenueClaimed event_id
                       (event_registry.ei_organizer_address event_info) org now));;
  mret org.

(** One milestone of the release: the amount, the released total and the number
    of milestones so far.  The balance is not changed inside of the loop. *)
Definition release_one (balance_ : EventBalance) (current_supply reached : Z)
    (acc : Z * Z * Z) (im : Z * EscrowMilestone) : C (Z * Z * Z) :=
  let '(amount_released, total_released, newly_reached) := acc in
  let '(i, m) := im in
  if i <? reached then mret acc
  else if negb (em_released m) && (em_sales_threshold m <=? current_supply) then
    release_amount ← ok_or (mul_div (eb_organizer_amount balance_) (em_release_percent m) 10000)
                       ArithmeticError;
    '(amount_released, total_released) ←
      (if 0 <? release_amount then
         a ← ok_or (checked_add I128 amount_released release_amount) ArithmeticError;
         t ← ok_or (checked_add I128 total_released release_amount) ArithmeticError;
         mret (a, t)
       else mret (amount_released, total_released));
    n ← ok_or (checked_add U32 newly_reached 1) ArithmeticError;
    mret (amount_released, total_released, n)
  else mret acc.

Definition release_escrow_milestone (event_id : string) (_token_address : Address) : C Z :=
  event_info ← find_event event_id;
  throw_if (event_registry.ei_is_active event_info
            || bool_decide (event_registry.ei_status event_info = event_registry.Active))
    EventInactive;;
  require_auth (event_registry.ei_organizer_address event_info);;
  o ← read (storage.get_escrow_state event_id);
  escrow_state ← ok_or o EscrowNotInitialized;
  milestones ← read (get_escrow_milestones event_id);
  balance_ ← read (storage.get_event_balance event_id);
  let indexed := zip (seqZ 0 (len milestones)) milestones in
  '(amount_released, total_released, newly_reached) ←
    foldM (release_one balance_ (event_registry.ei_current_supply event_info)
             (es_milestones_reached escrow_state))
      (0, es_total_released escrow_state, 0) indexed;
  if amount_released =? 0 then mret 0
  else
    reached ← ok_or (checked_add U32 (es_milestones_reached escrow_state) newly_reached)
                ArithmeticError;
    org ← ok_or (checked_sub I128 (eb_organizer_amount balance_) amount_released) ArithmeticError;
    withdrawn ← ok_or (checked_add I128 (eb_total_withdrawn balance_) amount_released)
                  ArithmeticError;
    write (storage.set_event_balance event_id
             (balance_ <| eb_organizer_amount := org |> <| eb_total_withdrawn := withdrawn |>));;
    write (storage.set_escrow_state event_id
             (escrow_state <| es_total_released := total_released |>
                           <| es_milestones_reached := reached |>));;
    now ← ledger_timestamp;
    on_store (publish (events.MilestoneReleased event_id reached amount_released now));;
    mret amount_released.

Definition release_milestone_escrow : string -> Address -> C Z := release_escrow_milestone.
End Escrow.

(** The entries from an index on. *)
Definition later_milestones (i : Z) (s : State) : gset (string * Z) :=
  filter (fun k => i <= k.2) (dom (t_EscrowMilestone s)).

(** The fuel of [get_escrow_milestones] is enough: more of it changes nothing. *)
Lemma milestones_loop_fuel fuel : forall n e i s, 0 < i ->
  (size (later_milestones i s) < fuel)%nat ->
  milestones_loop (fuel + n) e i s = milestones_loop fuel e i s.
Proof.
  induction fuel as [|fuel IH]; intros n e i s Hi Hf; [lia|]. cbn [milestones_loop Nat.add].
  case_match; [|done]. destruct (storage.get_escrow_milestone e i s) as [m|] eqn:Hm.
  - f_equal. apply IH; [lia|].
    enough (size (later_milestones (i + 1) s) < size (later_milestones i s))%nat by lia.
    apply subset_size. split; [unfold later_milestones; set_solver by lia|].
    intros Hsub. specialize (Hsub (e, i)). unfold later_milestones in Hsub.
    rewrite !elem_of_filter, elem_of_dom in Hsub. cbn in Hsub.
    destruct Hsub as [? _]; [split; [lia | by exists m] | lia].
  - by rewrite (proj2 (Z.ltb_lt 0 i)).
Qed.

Lemma get_escrow_milestones_fuel n e s :
  milestones_loop (size (t_EscrowMilestone s) + 2 + n) e 0 s = get_escrow_milestones e s.
Proof.
  unfold get_escrow_milestones. set (k := size (t_EscrowMilestone s)).
  assert (Hk : (size (later_milestones 1 s) < k + 1)%nat).
  { unfold later_milestones, k. rewrite <- (size_dom (D := gset (string * Z))).
    rewrite Nat.add_1_r. apply Nat.lt_succ_r, subseteq_size. set_solver. }
  replace (k + 2 + n)%nat with (S (k + 1 + n)) by lia. replace (k + 2)%nat with (S (k + 1)) by lia.
  pose proof (milestones_loop_fuel (k + 1) n e 1 s ltac:(lia) Hk) as Hn.
  cbn [milestones_loop]. change (0 + 1) with 1. by rewrite Hn.
Qed.
