(* ===== verification/PaymentResale.v ===== *)
(** * Ticket payment: transfers, resale and bids

    The transfer of a ticket, the secondary market and the bids of an auction
    tier ([contract.rs]). *)

From stdpp Require Import base tactics numbers list strings gmap.
From S2P Require Import Prelude.
From S2P Require Import Soroban.
From S2P Require Import Token.
From S2P Require Import PaymentTypes.
From S2P Require Import PaymentStorage.
From S2P Require Import PaymentWorld.
From S2P Require Import PaymentSale.
From S2P Require Import PaymentAdmin.
From S2P Require Import PaymentRefund.

Section Resale.
Context {T W : Type} `{Token T} `{TokenAllowance T} `{Clients W}.

Abbreviation C := (C T W).

Definition validate_recipient (address : Address) : C unit :=
  self ← contract_address;
  throw_if (bool_decide (address = self) || is_zero_address address) InvalidAddress.

(** The cap of an event on the price of a resale. *)
Definition check_resale_cap (event_info : event_registry.EventInfo) (tier_id : string) (price : Z)
    : C unit :=
  match event_registry.ei_resale_cap_bps event_info with
  | None => mret tt
  | Some cap_bps =>
      tier ← ok_or (event_registry.ei_tiers event_info !! tier_id) TierNotFound;
      let factor := default (int_max I128) (checked_add I128 MAX_BPS cap_bps) in
      p ← ok_or (checked_mul I128 (event_registry.tt_price tier) factor) ArithmeticError;
      max_price ← unwrap (checked_div I128 p MAX_BPS);
      throw_if (max_price <? price) ResalePriceExceedsCap
  end.

(** The record and the indexes of a ticket that changes hands. *)
Definition move_ticket (payment_id : string) (payment : Payment) (from to : Address) : C unit :=
  write (storage.put_payment payment_id (payment <| pay_buyer_address := to |>));;
  write (storage.remove_payment_from_buyer_index from payment_id);;
  on_store (storage.add_payment_to_buyer_index to payment_id).

Definition transfer_ticket (payment_id : string) (to : Address) (sale_price : option Z) : C unit :=
  require_initialized;;
  require_running;;
  payment ← find_payment payment_id;
  throw_if (bool_decide (pay_status payment <> Confirmed)) InvalidPaymentStatus;;
  throw_if (pay_is_soulbound payment) NonTransferable;;
  let from := pay_buyer_address payment in
  require_auth from;;
  throw_if (bool_decide (from = to)) InvalidAddress;;
  validate_recipient to;;
  (match sale_price with
   | Some price =>
       event_info ← find_event (pay_event_id payment);
       check_resale_cap event_info (pay_ticket_tier_id payment) price
   | None => mret tt
   end);;
  o ← read (storage.get_transfer_fee (pay_event_id payment));
  let transfer_fee_bps := default TRANSFER_FEE_BPS o in
  self ← contract_address;
  fee ← (if 0 <? transfer_fee_bps then
           fee ← ok_or (mul_div (pay_amount payment) transfer_fee_bps MAX_BPS) ArithmeticError;
           when (0 <? fee)
             (token_call (transfer_from (pay_token_address payment) self from self fee);;
              on_store (storage.update_event_balance (pay_event_id payment) fee 0));;
           mret fee
         else mret 0);
  move_ticket payment_id payment from to;;
  now ← ledger_timestamp;
  on_store (publish (events.TicketTransferred payment_id from to fee now)).

Definition list_for_resale (payment_id : string) (ask_price : Z) : C unit :=
  require_initialized;;
  require_running;;
  throw_if (ask_price <=? 0) InvalidPrice;;
  payment ← find_payment payment_id;
  throw_if (bool_decide (pay_status payment <> Confirmed)) InvalidPaymentStatus;;
  require_auth (pay_buyer_address payment);;
  existing ← read (storage.get_resale_listing payment_id);
  throw_if (match existing with
            | Some l => bool_decide (rl_status l = ResaleStatus.Active)
            | None => false
            end) TicketAlreadyListed;;
  registry ← on_store storage.get_event_registry;
  e ← query (get_event registry (pay_event_id payment));
  (match e with
   | Some event_info => check_resale_cap event_info (pay_ticket_tier_id payment) ask_price
   | None => mret tt
   end);;
  royalty_bps ← read (storage.get_resale_royalty_bps (pay_event_id payment));
  now ← ledger_timestamp;
  write (storage.store_resale_listing {|
    rl_payment_id := payment_id; rl_event_id := pay_event_id payment;
    rl_seller := pay_buyer_address payment; rl_ask_price := ask_price; rl_price := ask_price;
    rl_max_price := ask_price; rl_royalty_bps := royalty_bps;
    rl_status := ResaleStatus.Active; rl_listed_at := now |});;
  on_store (publish (events.ResaleListed payment_id (pay_buyer_address payment) ask_price now)).

Definition find_listing (payment_id : string) : C ResaleListing :=
  o ← read (storage.get_resale_listing payment_id);
  listing ← ok_or o ResaleListingNotFound;
  throw_if (bool_decide (rl_status listing <> ResaleStatus.Active)) ResaleListingNotActive;;
  mret listing.

Definition cancel_resale_listing (payment_id : string) : C unit :=
  require_initialized;;
  require_running;;
  listing ← find_listing payment_id;
  require_auth (rl_seller listing);;
  write (storage.store_resale_listing (listing <| rl_status := ResaleStatus.Cancelled |>));;
  now ← ledger_timestamp;
  on_store (publish (events.ResaleCancelled payment_id (rl_seller listing) now)).

Definition purchase_resale_ticket (payment_id : string) (buyer : Address) (max_price : Z) : C unit :=
  require_initialized;;
  require_running;;
  require_auth buyer;;
  listing ← find_listing payment_id;
  throw_if (bool_decide (buyer = rl_seller listing)) InvalidAddress;;
  let ask_price := rl_ask_price listing in
  throw_if (max_price <? ask_price) PriceMismatch;;
  royalty_bps ← read (storage.get_resale_royalty_bps (rl_event_id listing));
  royalty ← (if 0 <? royalty_bps
             then ok_or (mul_div ask_price royalty_bps MAX_BPS) ArithmeticError
             else mret 0);
  seller_proceeds ← ok_or (checked_sub I128 ask_price royalty) ArithmeticError;
  token ← on_store storage.get_usdc_token;
  self ← contract_address;
  allowed ← token_read (fun t => allowance t token buyer self);
  throw_if (allowed <? ask_price) InsufficientAllowance;;
  token_call (transfer_from token self buyer self ask_price);;
  when (0 <? seller_proceeds) (token_call (transfer token self (rl_seller listing) seller_proceeds));;
  when (0 <? royalty)
    (registry ← on_store storage.get_event_registry;
     e ← query (get_event registry (rl_event_id listing));
     token_call (transfer token self
       (match e with
        | Some event_info => event_registry.ei_organizer_address event_info
        | None => rl_seller listing
        end) royalty));;
  payment ← find_payment payment_id;
  write (storage.remove_payment_from_buyer_index (rl_seller listing) payment_id);;
  write (storage.put_payment payment_id (payment <| pay_buyer_address := buyer |>));;
  on_store (storage.add_payment_to_buyer_index buyer payment_id);;
  write (storage.store_resale_listing (listing <| rl_status := ResaleStatus.Completed |>));;
  now ← ledger_timestamp;
  on_store (publish (events.ResalePurchased payment_id (rl_seller listing) buyer ask_price
                       royalty now)).

(** ** Auctions *)

(** The event, if it is on sale. *)
Definition find_active_event (event_id : string) : C event_registry.EventInfo :=
  event_info ← find_event event_id;
  throw_if (negb (event_registry.ei_is_active event_info) || is_cancelled event_info)
    EventInactive;;
  mret event_info.

Definition find_auction (event_info : event_registry.EventInfo) (tier_id : string)
    : C event_registry.AuctionConfig :=
  tier ← ok_or (event_registry.ei_tiers event_info !! tier_id) TierNotFound;
  match event_registry.tt_auction_config tier with
  | config :: _ => mret config
  | [] => throw NotAuctionTier
  end.

Definition place_bid (event_id tier_id : string) (bidder token : Address) (amount : Z) : C unit :=
  require_initialized;;
  require_running;;
  require_auth bidder;;
  whitelisted ← read (storage.is_token_whitelisted token);
  throw_if (negb whitelisted) TokenNotWhitelisted;;
  event_info ← find_active_event event_id;
  accepted ← read (event_accepts_token event_info token);
  throw_if (negb accepted) TokenNotWhitelisted;;
  config ← find_auction event_info tier_id;
  now ← ledger_timestamp;
  throw_if (event_registry.ac_end_time config <? now) AuctionEnded;;
  previous ← read (storage.get_highest_bid event_id tier_id);
  min_required ← (match previous with
    | Some bid => ok_or (checked_add I128 (hb_amount bid)
                           (event_registry.ac_min_increment config)) ArithmeticError
    | None => mret (event_registry.ac_start_price config)
    end);
  throw_if (amount <? min_required) BidTooLow;;
  self ← contract_address;
  allowed ← token_read (fun t => allowance t token bidder self);
  throw_if (allowed <? amount) InsufficientAllowance;;
  token_call (transfer_from token self bidder self amount);;
  on_store (storage.add_to_active_escrow_total amount);;
  on_store (storage.add_to_active_escrow_by_token token amount);;
  (match previous with
   | Some prev =>
       token_call (transfer (hb_token_address prev) self (hb_bidder prev) (hb_amount prev));;
       on_store (storage.subtract_from_active_escrow_total (hb_amount prev));;
       on_store (storage.subtract_from_active_escrow_by_token (hb_token_address prev)
                   (hb_amount prev))
   | None => mret tt
   end);;
  write (storage.set_highest_bid event_id tier_id (mkHighestBid bidder token amount));;
  on_store (publish (events.BidPlaced event_id tier_id bidder amount now)).

(** The ticket of the highest bidder. *)
Definition auction_ticket (id event_id tier_id : string) (bid : HighestBid) (fee org now : Z)
    : Payment := {|
  pay_payment_id := id; pay_event_id := event_id;
  pay_buyer_address := hb_bidder bid; pay_owner_address := hb_bidder bid;
  pay_ticket_tier_id := tier_id; pay_token_address := hb_token_address bid;
  pay_amount := hb_amount bid; pay_platform_fee := fee; pay_organizer_amount := org;
  pay_status := Confirmed; pay_transaction_hash := ""; pay_created_at := now;
  pay_confirmed_at := Some now; pay_refunded_amount := 0; pay_is_soulbound := false;
  pay_last_checked_in_at := 0; pay_referral_amount := 0; pay_referrer := None |}.

Definition close_auction (payment_id event_id tier_id : string) : C unit :=
  require_initialized;;
  require_running;;
  registry ← on_store storage.get_event_registry;
  event_info ← find_active_event event_id;
  config ← find_auction event_info tier_id;
  now ← ledger_timestamp;
  throw_if (now <=? event_registry.ac_end_time config) AuctionNotEnded;;
  closed ← read (storage.is_auction_closed event_id tier_id);
  throw_if closed AuctionEnded;;
  o ← read (storage.get_highest_bid event_id tier_id);
  bid ← ok_or o NoFundsAvailable;
  let amount := hb_amount bid in
  write (storage.set_auction_closed event_id tier_id);;
  let fee_bps := default (event_registry.ei_platform_fee_percent event_info)
                   (event_registry.ei_custom_fee_bps event_info) in
  fee ← ok_or (mul_div amount fee_bps MAX_BPS) ArithmeticError;
  org ← ok_or (checked_sub I128 amount fee) ArithmeticError;
  on_store (storage.update_event_balance event_id org fee);;
  on_store (storage.add_to_total_volume_processed amount);;
  on_store (storage.add_to_total_fees_collected_by_token (hb_token_address bid) fee);;
  call (fun env => increment_inventory registry env event_id tier_id (hb_bidder bid) 1
                     (hb_token_address bid));;
  on_store (storage.store_payment (auction_ticket payment_id event_id tier_id bid fee org now));;
  on_store (publish (events.AuctionClosed event_id tier_id (hb_bidder bid) amount now));;
  on_store (publish (events.PaymentProcessed payment_id event_id (hb_bidder bid) amount fee now)).

(** Whether an address holds a confirmed ticket of an event. *)
Definition has_confirmed_ticket (event_id : string) (address : Address) (s : State) : bool :=
  existsb (fun payment_id =>
    match storage.get_payment payment_id s with
    | Some payment => bool_decide (pay_buyer_address payment = address)
                      && bool_decide (pay_status payment = Confirmed)
    | None => false
    end) (storage.get_event_payments event_id s).
End Resale.
