(* ===== verification/Payments.v ===== *)
(** * Ticket payment: all calls

    Every entry point of the payment contract that can change its storage is
    a [PayCall], [run_pay] is its execution, and [pays] are the worlds that calls
    reach, with arbitrary activity of tokens and other contracts in between. *)

From stdpp Require Import base tactics numbers list strings gmap.
From S2P Require Import Prelude.
From S2P Require Import Soroban.
From S2P Require Import Token.
From S2P Require Import PaymentTypes.
From S2P Require Import PaymentStorage.
From S2P Require Import PaymentWorld.
From S2P Require Import PaymentSale.
From S2P Require Import PaymentQuote.
From S2P Require Import PaymentAdmin.
From S2P Require Import PaymentRefund.
From S2P Require Import PaymentEscrow.
From S2P Require Import PaymentResale.

Inductive PayCall :=
  | Initialize (admin usdc_token platform_wallet registry : Address)
  | SetPause (paused : bool)
  | SetEventDispute (event_id : string) (disputed : bool)
  | CreateDiscountCode (event_id code : string) (percentage expires_at max_uses : Z)
  | SetMaxTicketsPerWallet (event_id : string) (max : Z)
  | SetOracle (oracle_address : Address)
  | SetSlippage (bps : Z)
  | SetWithdrawalCap (token : Address) (amount : Z)
  | SetTransferFee (event_id : string) (bps : Z)
  | SetAffiliateRate (event_id : string) (affiliate : Address) (rate_bps : Z)
  | SetResaleRoyaltyBps (event_id : string) (bps : Z)
  | AddDiscountHashes (event_id : string) (hashes : list Bytes)
  | CancelEvent (event_id : string)
  | ProposeParameterChange (proposer : Address) (change : ParameterChange)
  | VoteOnProposal (voter : Address) (proposal_id : Z)
  | ExecuteProposal (executor : Address) (proposal_id : Z)
  | ProposeEscrowWithdrawal (event_id : string) (amount : Z) (token : Address)
  | ApproveEscrowWithdrawal (proposal_id : Z)
  | ExecuteEscrowWithdrawal (proposal_id : Z)
  | ProcessPayment (payment_id event_id tier_id : string) (buyer : Address)
      (recipient : option Address) (token : Address) (amount quantity : Z)
      (options : PurchaseOptions) (validation_hash : Bytes)
  | ConfirmPayment (payment_id transaction_hash : string)
  | CheckIn (payment_id : string) (scanner : Address) (series_id : option string)
      (pass_holder : option Address) (raw_secret : Bytes)
  | MintPoap (payment_id : string)
  | RequestGuestRefund (payment_id : string)
  | RequestRefund (ticket_id : Z)
  | AdminRefund (payment_id : string)
  | ClaimAutomaticRefund (payment_id : string)
  | TriggerBulkRefund (event_id : string) (batch_size : Z)
  | IssuePartialRefund (event_id : string) (percentage_bps batch_size : Z)
  | ClaimCancellationRefund (payment_id : string)
  | TriggerDisputeRefundCascade (event_id : string)
  | WithdrawOrganizerFunds (event_id : string) (token : Address)
  | SettlePlatformFees (event_id : string) (token : Address)
  | WithdrawPlatformFees (amount : Z) (token : Address)
  | ClaimRevenue (event_id : string) (token : Address)
  | ReleaseMilestoneEscrow (event_id : string) (token : Address)
  | TransferTicket (payment_id : string) (to : Address) (sale_price : option Z)
  | ListForResale (payment_id : string) (ask_price : Z)
  | CancelResaleListing (payment_id : string)
  | PurchaseResaleTicket (payment_id : string) (buyer : Address) (max_price : Z)
  | PlaceBid (event_id tier_id : string) (bidder token : Address) (amount : Z)
  | CloseAuction (payment_id event_id tier_id : string).

Section Run.
Context {T W : Type} `{Token T} `{TokenAllowance T} `{Clients W}.
Variable sha256 : Bytes -> Bytes.

Definition run_pay (c : PayCall) : C T W unit :=
  match c with
  | Initialize a u p r => initialize a u p r
  | SetPause b => set_pause b
  | SetEventDispute e d => set_event_dispute e d
  | CreateDiscountCode e c p x m => create_discount_code e c p x m
  | SetMaxTicketsPerWallet e m => set_max_tickets_per_wallet e m
  | SetOracle a => set_oracle a
  | SetSlippage b => set_slippage b
  | SetWithdrawalCap t a => set_withdrawal_cap t a
  | SetTransferFee e b => set_transfer_fee e b
  | SetAffiliateRate e a r => set_affiliate_rate e a r
  | SetResaleRoyaltyBps e b => set_resale_royalty_bps e b
  | AddDiscountHashes e l => add_discount_hashes e l
  | CancelEvent e => cancel_event e
  | ProposeParameterChange p c => propose_parameter_change p c;; mret tt
  | VoteOnProposal v i => vote_on_proposal v i
  | ExecuteProposal e i => execute_proposal e i
  | ProposeEscrowWithdrawal e a t => propose_escrow_withdrawal e a t;; mret tt
  | ApproveEscrowWithdrawal i => approve_escrow_withdrawal i
  | ExecuteEscrowWithdrawal i => execute_escrow_withdrawal i
  | ProcessPayment p e t b r k a q o h => process_payment sha256 p e t b r k a q o h;; mret tt
  | ConfirmPayment p t => confirm_payment p t
  | CheckIn p s i h r => check_in sha256 p s i h r
  | MintPoap p => mint_poap p
  | RequestGuestRefund p => request_guest_refund p
  | RequestRefund t => request_refund t
  | AdminRefund p => admin_refund p
  | ClaimAutomaticRefund p => claim_automatic_refund p
  | TriggerBulkRefund e b => trigger_bulk_refund e b;; mret tt
  | IssuePartialRefund e p b => issue_partial_refund e p b;; mret tt
  | ClaimCancellationRefund p => claim_cancellation_refund p
  | TriggerDisputeRefundCascade e => trigger_dispute_refund_cascade e;; mret tt
  | WithdrawOrganizerFunds e t => withdraw_organizer_funds e t;; mret tt
  | SettlePlatformFees e t => settle_platform_fees e t;; mret tt
  | WithdrawPlatformFees a t => withdraw_platform_fees a t
  | ClaimRevenue e t => claim_revenue e t;; mret tt
  | ReleaseMilestoneEscrow e t => release_milestone_escrow e t;; mret tt
  | TransferTicket p t s => transfer_ticket p t s
  | ListForResale p a => list_for_resale p a
  | CancelResaleListing p => cancel_resale_listing p
  | PurchaseResaleTicket p b m => purchase_resale_ticket p b m
  | PlaceBid e t b k a => place_bid e t b k a
  | CloseAuction p e t => close_auction p e t
  end.

(** A call, or activity outside of the contract. *)
Definition step_pay (c : PayCall + T * W) : C T W unit :=
  match c with
  | inl c => run_pay c
  | inr (t, o) => fun _ w => Done tt (mkWorld (w_store w) t o)
  end.

(** The worlds reached from an empty storage by calls that satisfy [ok]. *)
Definition pays (ok : PayCall -> Env -> World T W -> Prop) (w : World T W) : Prop :=
  exists t o, history step_pay
    (fun c env w => match c with inl c => ok c env w | inr _ => True end)
    (mkWorld empty_state t o) w.

Lemma pays_inv (P : State -> Prop) ok w :
  P empty_state ->
  (forall c env w w', pays ok w -> ok c env w -> run_pay c env w = Done tt w' ->
    P (w_store w) -> P (w_store w')) ->
  pays ok w -> P (w_store w).
Proof.
  intros Hemp Hstep (t & o & Hh). induction Hh as [|c env w w' Hh IH Hok Hrun]; [done|].
  destruct c as [c|[t' o']].
  - eapply Hstep; [by exists t, o|done|done|done].
  - by injection Hrun as <-.
Qed.

(** What a call does to the storage, whatever the others do. *)
Definition stores (R : State -> State -> Prop) (c : PayCall) : Prop :=
  respects (moves R anything anything) (run_pay c).

Lemma pays_pres (P : State -> Prop) ok w :
  P empty_state -> (forall c, stores (pres P) c) -> pays ok w -> P (w_store w).
Proof.
  intros Hemp Hc. apply pays_inv; [done|]. intros c env w1 w2 _ _ Hrun HP.
  by apply (Hc c env w1 tt w2 Hrun).
Qed.
End Run.

(** [pframe] reduces a footprint to its writes. *)
Ltac pframe_step :=
  first
    [ pframe1
    | lazymatch goal with
      | |- anything _ _ => exact I
      | |- _ -> anything _ _ => intros _; exact I
      | |- respects _ (match ?x with _ => _ end) => destruct x
      | |- respects _ (let '(_, _) := ?x in _) => destruct x
      | |- respects _ (try_is_pro_member _ _) => apply try_pro_moves; typeclasses eauto
      | |- respects _ ?m => unfold_head m
      end ].
Ltac pframe := repeat pframe_step.

(** The writes of the payment contract that are more than one assignment. *)
Ltac pwrites :=
  first
    [ reflexivity
    | unfold storage.update_payment_status_index, storage.remove_payment_from_status_index,
        storage.add_payment_to_status_index, storage.remove_payment_from_buyer_index;
      repeat case_match; reflexivity
    | lazymatch goal with
      | |- ?R ?s (foldl ?f ?s ?l) => apply (foldl_along R); intros ? ?; reflexivity
      end ].

(** A part of the storage that the calls of a class leave alone. *)
Ltac untouched :=
  lazymatch goal with
  | |- context [match ?c with _ => _ end] => destruct c
  | |- _ => idtac
  end;
  try exact I; unfold stores; cbn [run_pay]; pframe; pwrites.
