(* ===== verification/PaymentSample.v ===== *)
(** * Ticket payment: a sample world

    A small instance of the interfaces of the payment contract: a table of events
    that counts the calls of the inventory, and a run from an empty storage.  It
    shows that the interfaces can be implemented and gives concrete runs. *)

From stdpp Require Import base tactics numbers list strings gmap.
From S2P Require Import Prelude.
From S2P Require Import Soroban.
From S2P Require Import Token.
From S2P Require Import PaymentTypes.
From S2P Require Import PaymentStorage.
From S2P Require Import PaymentWorld.
From S2P Require Import PaymentSale.
From S2P Require Import PaymentQuote.
From S2P Require Import PaymentAdmin.
From S2P Require Import Payments.

Module PaymentSample.
Record Others := mkOthers {
  o_events : gmap string event_registry.EventInfo;
  o_disputes : gmap string event_registry.Dispute;
  o_promo : Z * Z;
  o_price : option price_oracle.PriceData;
  o_sold : list (string * string * Address * Z);
}.

(** The table only answers with events whose fee is in range. *)
Definition fee_ok (e : event_registry.EventInfo) : bool :=
  let fee := default (event_registry.ei_platform_fee_percent e) (event_registry.ei_custom_fee_bps e) in
  (0 <=? fee) && (fee <=? MAX_BPS).

#[global] Instance Others_clients : Clients Others := {|
  get_event _ id o := e ← o_events o !! id; if fee_ok e then Some e else None;
  get_dispute _ id o := o_disputes o !! id;
  get_global_promo_bps _ _ o := Some (Z.max 0 (o_promo o).1);
  get_promo_expiry _ o := Some (o_promo o).2;
  get_loyalty_discount_bps _ _ _ := Some 0;
  is_scanner_authorized _ _ _ _ := Some false;
  increment_inventory _ _ e t u q _ o :=
    Some (mkOthers (o_events o) (o_disputes o) (o_promo o) (o_price o) ((e, t, u, q) :: o_sold o));
  decrement_inventory _ _ e t u o :=
    Some (mkOthers (o_events o) (o_disputes o) (o_promo o) (o_price o) ((e, t, u, -1) :: o_sold o));
  update_loyalty_score _ _ _ _ _ _ _ o := Some o;
  is_pro_member _ _ _ o := Some (false, o);
  lastprice _ _ o := Some (o_price o);
|}.

#[global] Instance Others_rates : ClientRates Others.
Proof.
  split; cbn.
  - intros _ _ o bps [= <-]. lia.
  - intros _ _ _ bps [= <-]. lia.
  - intros _ id o e (i & _ & Hi)%bind_Some. destruct (fee_ok i) eqn:Hf; [|done]. injection Hi as <-.
    unfold fee_ok in Hf. bools. done.
Qed.

Definition tier : event_registry.TicketTier :=
  event_registry.mkTicketTier "General" 1000 0 0 0 100 0 true
    [event_registry.mkAuctionConfig 500 1000 50] 1.
Definition event (active : bool) (status : event_registry.EventStatus) : event_registry.EventInfo :=
  event_registry.mkEventInfo "EV" "Concert" "ORG" "ORGPAY" 500 active status 1 "cid" 100 0 None
    {[ "GA" := tier ]} 0 0 None 0 0 true None None None 0 0 [] true 0.
Definition others : Others :=
  mkOthers {[ "EV" := event true event_registry.Active ]} ∅ (0, 0) None [].

Definition env (t : Z) (who : list Address) : Env :=
  {| current_contract_address := "PAY"; timestamp := t; auths := who |}.
Definition tokens : Ledger :=
  mkLedger {[ ("USDC", "ANN") := 100000; ("USDC", "BOB") := 100000 ]}
           {[ ("USDC", "ANN", "PAY") := 100000; ("USDC", "BOB", "PAY") := 100000 ]}.
Definition sha256 (b : Bytes) : Bytes := ("#" +:+ b)%string.
Definition no_options : PurchaseOptions := mkPurchaseOptions None None None None.

Definition start : World Ledger Others := mkWorld empty_state tokens others.
Definition run := run_pay (T := Ledger) (W := Others) sha256.
Definition play_from (w : World Ledger Others) (calls : list (Env * PayCall))
    : option (World Ledger Others) := run_all run calls w.
Definition play (calls : list (Env * PayCall)) : World Ledger Others :=
  default start (play_from start calls).

Lemma run_all_pays ok calls : forall w w',
  pays sha256 ok w -> (forall env c w, (env, c) ∈ calls -> ok c env w) ->
  play_from w calls = Some w' -> pays sha256 ok w'.
Proof.
  induction calls as [|[e c] calls IH]; cbn; intros w w' Hw Hok Hrun; [by injection Hrun as <-|].
  destruct (run c e w) as [[] w1|er|] eqn:H1; [|done..]. eapply IH; [| |exact Hrun].
  - destruct Hw as (t & o & Hh). exists t, o.
    eapply history_call; [exact Hh| |exact (H1 : step_pay sha256 (inl c) e w = _)].
    apply Hok. by left.
  - intros e' c' w2 Hin. apply Hok. by right.
Qed.

Lemma play_pays ok calls :
  (forall env c w, (env, c) ∈ calls -> ok c env w) ->
  bool_decide (is_Some (play_from start calls)) = true -> pays sha256 ok (play calls).
Proof.
  intros Hok [w Hw]%bool_decide_eq_true. unfold play. rewrite Hw.
  eapply run_all_pays; [|exact Hok|exact Hw]. exists tokens, others. apply history_nil.
Qed.

Lemma play_Forall ok calls :
  Forall (fun c => forall w, ok c.2 c.1 w) calls ->
  bool_decide (is_Some (play_from start calls)) = true -> pays sha256 ok (play calls).
Proof.
  intros Hok. apply play_pays. intros e c w Hin.
  by apply (proj1 (Forall_forall _ _) Hok (e, c) Hin).
Qed.

(** The contract set up, and one ticket sold to Ann and confirmed. *)
Definition setup : list (Env * PayCall) :=
  [ (env 10 ["ADM"], Initialize "ADM" "USDC" "WALLET" "REG") ].
Definition buy (id : string) (who : Address) : Env * PayCall :=
  (env 20 [who], ProcessPayment id "EV" "GA" who None "USDC" 1000 1 no_options (sha256 "s3cret")).
Definition sold : list (Env * PayCall) :=
  setup ++ [ buy "p1" "ANN"; (env 30 ["ADM"], ConfirmPayment "p1" "tx") ].
End PaymentSample.
