(* ===== verification/PaymentGovernance.v ===== *)
(** * Ticket payment: what governance guarantees

    Over all histories of the payment contract: the governors are counted
    exactly, votes are counted exactly and once per voter, a parameter changes
    through a proposal only with a majority and after the time lock, and an
    executed proposal is final. *)

From stdpp Require Import base tactics numbers list strings gmap.
From S2P Require Import Prelude.
From S2P Require Import Soroban.
From S2P Require Import Token.
From S2P Require Import PaymentTypes.
From S2P Require Import PaymentStorage.
From S2P Require Import PaymentWorld.
From S2P Require Import PaymentSale.
From S2P Require Import PaymentAdmin.
From S2P Require Import PaymentRefund.
From S2P Require Import PaymentEscrow.
From S2P Require Import PaymentResale.
From S2P Require Import Payments.
From S2P Require Import PaymentSample.

(** ** Governors *)
Definition governors (s : State) : gset Address :=
  dom (filter (fun kv => kv.2 = true) (t_Governor s)).

Record governors_ok (s : State) : Prop := {
  go_total : storage.get_total_governors s = map_len (governors s);
  go_some : storage.is_initialized s = true -> governors s <> ∅;
  go_none : storage.is_initialized s = false -> governors s = ∅;
}.

Lemma elem_of_governors a s : a ∈ governors s <-> storage.is_governor a s = true.
Proof.
  unfold governors, storage.is_governor. rewrite elem_of_dom. unfold is_Some.
  setoid_rewrite map_lookup_filter_Some. cbn. destruct (t_Governor s !! a); naive_solver.
Qed.

Lemma governors_set a b s :
  governors (storage.set_governor a b s) =
  if b then {[a]} ∪ governors s else governors s ∖ {[a]}.
Proof.
  apply set_eq. intros x. rewrite elem_of_governors. unfold storage.is_governor, storage.set_governor.
  upd_simpl. destruct (decide (x = a)) as [->|Hne].
  - rewrite lookup_insert_eq. destruct b; set_solver.
  - rewrite lookup_insert_ne by done. fold (storage.is_governor x s).
    rewrite <- elem_of_governors. destruct b; set_solver.
Qed.

Lemma governors_same s s' : t_Governor s' = t_Governor s -> governors s' = governors s.
Proof. unfold governors. by intros ->. Qed.

(** The part of the storage that governs the governors. *)
Definition govern (s : State) := (t_Governor s, t_TotalGovernors s, t_Initialized s).

Lemma governors_ok_keeps s s' : keeps govern s s' -> governors_ok s -> governors_ok s'.
Proof.
  unfold keeps, govern. intros [= H1 H2 H3] [Ht Hs Hn].
  unfold storage.get_total_governors, storage.is_initialized in *.
  split; unfold storage.get_total_governors, storage.is_initialized;
    rewrite ?(governors_same _ _ H1), ?H2, ?H3; auto.
Qed.

(** The totals that [initialize] and the governor changes write. *)
Lemma governors_ok_total s total :
  total = map_len (governors s) -> governors s <> ∅ -> storage.is_initialized s = true ->
  governors_ok (storage.set_total_governors total s).
Proof. intros -> Hne Hi. split; [done|done|]. change (storage.is_initialized s = false -> governors s = ∅). congruence. Qed.

Lemma governors_ok_with s total :
  total = map_len (governors s) -> governors s <> ∅ ->
  governors_ok (storage.set_initialized true (storage.set_total_governors total s)).
Proof. intros -> Hne. by split. Qed.

(** ** Proposals *)
Record tallied (id : Z) (p : ParameterProposal) : Prop := {
  ta_id : pp_id p = id;
  ta_once : NoDup (pp_voters p);
  ta_count : pp_vote_count p = len (pp_voters p);
}.

Record proposals_ok (s : State) : Prop := {
  po_ids : forall id p, t_Proposal s !! id = Some p -> id <= storage.get_proposal_count s;
  po_tallied : map_Forall tallied (t_Proposal s);
  po_none : storage.is_initialized s = false -> t_Proposal s = ∅;
}.

(** The ways a proposal can change in a call that the addresses of [env] signed.
    [majority] is the quorum of the governors of the storage. *)
Definition majority (s : State) (p : ParameterProposal) : Prop :=
  storage.get_total_governors s < 2 * pp_vote_count p.

Inductive proposal_step (env : Env) (s : State)
    : option ParameterProposal -> ParameterProposal -> Prop :=
  | prop_created p :
      pp_status p = ProposalStatus.Pending -> pp_voters p = [pp_proposer p] ->
      pp_vote_count p = 1 -> pp_proposer p ∈ auths env -> pp_created_at p = timestamp env ->
      storage.is_initialized s = true \/ storage.is_governor (pp_proposer p) s = true ->
      proposal_step env s None p
  | prop_voted p v :
      pp_status p = ProposalStatus.Pending -> timestamp env <= pp_expires_at p ->
      v ∉ pp_voters p -> v ∈ auths env ->
      storage.is_governor v s = true \/ storage.get_admin s = Some v ->
      proposal_step env s (Some p)
        (p <| pp_voters := pp_voters p ++ [v] |> <| pp_vote_count := pp_vote_count p + 1 |>)
  | prop_executed p :
      pp_status p = ProposalStatus.Pending -> timestamp env <= pp_expires_at p ->
      (majority s p /\ pp_created_at p + VOTING_PERIOD <= timestamp env)
      \/ (2 <= pp_vote_count p /\ exists a, storage.get_admin s = Some a /\ a ∈ auths env) ->
      proposal_step env s (Some p) (p <| pp_status := ProposalStatus.Executed |>).

(** What a call does to the proposals: nothing, or one step of one of them. *)
Definition one_proposal (env : Env) (s s' : State) : Prop :=
  storage.get_proposal_count s <= storage.get_proposal_count s' /\
  (t_Proposal s' = t_Proposal s \/
   exists p, t_Proposal s' = <[pp_id p := p]> (t_Proposal s) /\
     proposal_step env s (t_Proposal s !! pp_id p) p /\
     pp_id p <= storage.get_proposal_count s').

Section Governance.
Context {T W : Type} `{Token T} `{TokenAllowance T} `{Clients W}.
Variable sha256 : Bytes -> Bytes.
Abbreviation run := (run_pay (T := T) (W := W) sha256).
Abbreviation stores := (stores (T := T) (W := W) sha256).

Lemma govern_frame c :
  match c with
  | Initialize _ _ _ _ | ExecuteProposal _ _ => True
  | _ => stores (keeps govern) c
  end.
Proof. untouched. Qed.

Lemma initialize_governors a u p r env w w' :
  initialize (T := T) (W := W) a u p r env w = Done tt w' ->
  governors_ok (w_store w) -> governors_ok (w_store w').
Proof.
  unfold initialize, validate_address, publish. intros Hr Hok. pay. cbn [w_store].
  pose proof (go_none _ Hok ltac:(done)) as Hno.
  assert (governors (storage.set_governor a true (w_store w)) = {[a]}) as Hg
    by (rewrite governors_set, Hno; set_solver).
  eapply (governors_ok_keeps (storage.set_initialized true
    (storage.set_total_governors 1 (storage.set_governor a true (w_store w))))); [done|].
  apply governors_ok_with; [by rewrite Hg, size_singleton|rewrite Hg; set_solver].
Qed.

(** The two governor changes keep the count. *)
Lemma apply_change_governors change env w w' :
  apply_change (T := T) (W := W) change (storage.get_total_governors (w_store w)) env w = Done tt w' ->
  storage.is_initialized (w_store w) = true ->
  governors_ok (w_store w) -> governors_ok (w_store w').
Proof.
  intros Hr Hi Hok. pose proof (go_total _ Hok) as Ht. destruct change; cbn [apply_change] in Hr; pay.
  - destruct (storage.is_governor governor (w_store w)) eqn:Hg; cbn [negb when] in *; pay; [done|].
    assert (governor ∉ governors (w_store w)) by (rewrite elem_of_governors; congruence).
    apply governors_ok_total; [|rewrite governors_set; set_solver|done].
    rewrite governors_set, size_union, size_singleton by set_solver. lia.
  - destruct (storage.is_governor governor (w_store w)) eqn:Hg; cbn [when] in *; pay; [|done].
    assert (governor ∈ governors (w_store w)) by (by rewrite elem_of_governors). bools.
    assert (map_len (governors (w_store w) ∖ {[governor]}) = map_len (governors (w_store w)) - 1).
    { rewrite size_difference, size_singleton by set_solver. lia. }
    apply governors_ok_total; [rewrite governors_set; lia| |done].
    rewrite governors_set. intros He. rewrite He, size_empty in *. lia.
  - by apply (governors_ok_keeps (w_store w)).
  - by apply (governors_ok_keeps (w_store w)).
  - by apply (governors_ok_keeps (w_store w)).
  - unfold storage.set_slippage_bps in *. pay. by apply (governors_ok_keeps (w_store w)).
  - by apply (governors_ok_keeps (w_store w)).
Qed.
(** Without governors nothing is executed, so a contract that executes is
    initialised. *)
Lemma executed_Done executor id env w w' :
  execute_proposal (T := T) (W := W) executor id env w = Done tt w' ->
  exists p w1, t_Proposal (w_store w) !! id = Some p /\
    executor ∈ auths env /\ pp_status p = ProposalStatus.Pending /\
    pp_created_at p + VOTING_PERIOD <= timestamp env <= pp_expires_at p /\
    storage.get_total_governors (w_store w) / 2 + 1 <= pp_vote_count p /\
    apply_change (pp_change p) (storage.get_total_governors (w_store w)) env w = Done tt w1 /\
    exists l, w_store w' = (storage.set_proposal (p <| pp_status := ProposalStatus.Executed |>)
                              (w_store w1)) <| t_log := l |>.
Proof.
  unfold execute_proposal, publish. intros Hr. pay. facts.
  match goal with H : apply_change _ _ _ _ = Done ?u _ |- _ => destruct u end.
  eexists _, _. split_and!; try done. by eexists.
Qed.
Definition props (s : State) := (t_Proposal s, t_ProposalCount s).

Lemma props_frame c :
  match c with
  | ProposeParameterChange _ _ | VoteOnProposal _ _ | ExecuteProposal _ _
  | ProposeEscrowWithdrawal _ _ _ | ApproveEscrowWithdrawal _ | ExecuteEscrowWithdrawal _ => True
  | _ => stores (keeps props) c
  end.
Proof. untouched. Qed.

Lemma keeps_one_proposal env s s' : keeps props s s' -> one_proposal env s s'.
Proof.
  unfold keeps, props, one_proposal, storage.get_proposal_count. intros [= -> ->]. auto with lia.
Qed.

Lemma open_proposal_Done proposer change env w id w' :
  proposals_ok (w_store w) ->
  open_proposal (T := T) (W := W) proposer change env w = Done id w' ->
  proposer ∈ auths env ->
  storage.is_initialized (w_store w) = true \/ storage.is_governor proposer (w_store w) = true ->
  one_proposal env (w_store w) (w_store w').
Proof.
  intros [Hids _ _] Hr Hau Hw. unfold open_proposal, storage.increment_proposal_count in Hr. pay.
  match goal with H : storage.get_proposal_count (w_store w) + 1 ∈ᵢ U64 |- _ => clear H end.
  split; [unfold storage.get_proposal_count; cbn; lia|]. right. eexists. split; [reflexivity|].
  cbn [pp_id]. split; [|cbn; lia].
  replace (t_Proposal (w_store w) !! (storage.get_proposal_count (w_store w) + 1)) with
    (@None ParameterProposal); [by constructor|].
  destruct (t_Proposal (w_store w) !! _) eqn:He; [|done]. apply Hids in He. lia.
Qed.
Lemma add_vote_Done p v env w w' :
  add_vote (T := T) (W := W) p v env w = Done tt w' ->
  w_store w' = storage.set_proposal
    (p <| pp_voters := pp_voters p ++ [v] |> <| pp_vote_count := pp_vote_count p + 1 |>) (w_store w).
Proof. unfold add_vote. intros Hr. by pay. Qed.

(** A step of one proposal that is stored under its number. *)
Lemma one_proposal_set env s s' p p' :
  proposals_ok s -> t_Proposal s !! pp_id p = Some p -> pp_id p' = pp_id p ->
  proposal_step env s (Some p) p' ->
  keeps props (storage.set_proposal p' s) s' -> one_proposal env s s'.
Proof.
  intros [Hids _ _] Hp Hid Hstep Hk. unfold keeps, props in Hk. injection Hk as Hk1 Hk2.
  unfold one_proposal, storage.get_proposal_count. rewrite Hk1, Hk2. cbn. split; [lia|]. right.
  exists p'. split; [done|]. rewrite Hid, Hp. split; [done|]. exact (Hids _ _ Hp).
Qed.

Lemma apply_change_props change n :
  respects (moves (keeps (fun s => (t_Proposal s, t_ProposalCount s))) anything anything)
    (apply_change (T := T) (W := W) change n).
Proof. pframe; pwrites. Qed.

Lemma pay_admin_Done env w a w' :
  require_admin (T := T) (W := W) env w = Done a w' ->
  w' = w /\ storage.get_admin (w_store w) = Some a /\ a ∈ auths env.
Proof. unfold require_admin. intros Hr. by pay. Qed.

Lemma lookup_tallied s id p :
  proposals_ok s -> t_Proposal s !! id = Some p -> id = pp_id p.
Proof. intros Hok Hp. by destruct (po_tallied s Hok id p Hp). Qed.

Lemma proposals_step c env w w' :
  proposals_ok (w_store w) -> run c env w = Done tt w' ->
  one_proposal env (w_store w) (w_store w').
Proof.
  intros Hok Hr. pose proof (props_frame c) as Hf.
  destruct c; try (apply keeps_one_proposal; by apply (Hf env w tt w' Hr)); clear Hf;
    cbn [run_pay] in Hr.
  - unfold propose_parameter_change, require_governor, publish in Hr. pay. facts.
    match goal with H : open_proposal _ _ _ _ = _ |- _ =>
      apply open_proposal_Done in H; [exact H|done|done|by right] end.
  - unfold vote_on_proposal, require_governor, publish in Hr. pay. facts. unit_vars.
    match goal with H : storage.get_proposal _ _ = Some ?q, H' : add_vote _ _ _ _ = _ |- _ =>
      pose proof (lookup_tallied _ _ _ Hok H); subst; apply add_vote_Done in H';
      eapply (one_proposal_set env _ _ q); [done|done| |by apply (prop_voted env _ q voter); auto|];
      [done|]; unfold keeps; cbn; by rewrite H' end.
  - apply executed_Done in Hr
      as (p & w1 & Hp & Hau & Hst & Ht & Hm & Hc & l & Hs). apply apply_change_props in Hc as [Hc _].
    pose proof (lookup_tallied _ _ _ Hok Hp); subst. unfold keeps in Hc. injection Hc as Hc1 Hc2.
    eapply (one_proposal_set env _ _ p); [done|done| |apply prop_executed; [done|lia|left]|].
    + done.
    + unfold majority. split; [|lia].
      pose proof (Z.div_mod (storage.get_total_governors (w_store w)) 2).
      pose proof (Z.mod_pos_bound (storage.get_total_governors (w_store w)) 2). lia.
    + rewrite Hs. unfold keeps, props. cbn. by rewrite Hc1, Hc2.
  - unfold propose_escrow_withdrawal, require_initialized, find_event, publish in Hr. pay. facts.
    unfold storage.get_event_registry in *. pay.
    match goal with H : open_proposal _ _ _ _ = _ |- _ =>
      apply open_proposal_Done in H; [exact H|done|done|by left] end.
  - unfold approve_escrow_withdrawal, publish in Hr. pay. facts.
    match goal with H : require_admin _ _ = _ |- _ => apply pay_admin_Done in H as (-> & ? & ?) end.
    match goal with H : storage.get_proposal _ _ = Some ?q |- _ =>
      pose proof (lookup_tallied _ _ _ Hok H); subst end.
    case_bool_decide; pay; unit_vars; [by apply keeps_one_proposal|].
    match goal with H : storage.get_proposal _ _ = Some ?q, H' : add_vote _ ?v _ _ = _ |- _ =>
      apply add_vote_Done in H';
      eapply (one_proposal_set env _ _ q); [done|done| |by apply (prop_voted env _ q v); auto|];
      [done|]; unfold keeps; cbn; by rewrite H' end.
  - unfold execute_escrow_withdrawal, publish in Hr. pay. facts.
    match goal with H : require_admin _ _ = _ |- _ => apply pay_admin_Done in H as (-> & ? & ?) end.
    match goal with H : storage.get_proposal _ _ = Some ?q |- _ =>
      pose proof (lookup_tallied _ _ _ Hok H); subst;
      eapply (one_proposal_set env _ _ q); [done|done| |apply prop_executed; [done|done|right; eauto]|];
      done end.
Qed.

(** ** The invariant *)
Definition governance_ok (s : State) : Prop := governors_ok s /\ proposals_ok s.

Lemma tallied_step env s o p id :
  proposal_step env s o p -> pp_id p = id -> (forall q, o = Some q -> tallied id q) -> tallied id p.
Proof.
  intros Hs Hid Ho. destruct Hs as [p Hst Hv Hc Hau _ _|p v Hst Ht Hv Hau _|p Hst Ht _].
  - split; [done| |]; rewrite Hv; [apply NoDup_singleton|done].
  - destruct (Ho p eq_refl) as [_ H1' H2']. split; [done| |].
    + apply NoDup_app. split_and!; [done|set_solver|apply NoDup_singleton].
    + cbn. rewrite length_app. cbn. lia.
  - by destruct (Ho p eq_refl) as [_ H1' H2'].
Qed.

Lemma governors_step c env w w' :
  governance_ok (w_store w) -> run c env w = Done tt w' -> governors_ok (w_store w').
Proof.
  intros [Hg Hp] Hr. pose proof (govern_frame c) as Hf.
  destruct c; try (apply (governors_ok_keeps (w_store w)); [by apply (Hf env w tt w' Hr)|done]);
    clear Hf; cbn [run_pay] in Hr.
  - by eapply initialize_governors.
  - apply executed_Done in Hr
      as (p & w1 & Hl & Hau & Hst & Ht & Hm & Hc & l & Hs).
    apply (governors_ok_keeps (w_store w1)); [by rewrite Hs|].
    eapply apply_change_governors; [done| |done].
    destruct (storage.is_initialized (w_store w)) eqn:Hi; [done|].
    rewrite (po_none _ Hp Hi) in Hl. done.
Qed.

Lemma initialized_frame c :
  match c with Initialize _ _ _ _ => True | _ => stores (keeps t_Initialized) c end.
Proof. untouched. Qed.

Lemma initialized_back c env w w' :
  run c env w = Done tt w' -> storage.is_initialized (w_store w') = false ->
  storage.is_initialized (w_store w) = false.
Proof.
  intros Hr. pose proof (initialized_frame c) as Hf.
  destruct c; try (apply Hf in Hr as [Hr _]; unfold storage.is_initialized; by rewrite Hr).
  clear Hf. cbn [run_pay] in Hr. unfold initialize, validate_address in Hr. pay. done.
Qed.

Lemma proposals_ok_step c env w w' :
  governance_ok (w_store w) -> run c env w = Done tt w' -> proposals_ok (w_store w').
Proof.
  intros [Hg Hp] Hr. destruct (proposals_step c env w w' Hp Hr) as [Hcount Hone].
  destruct Hone as [Hsame|(p & Hset & Hstep & Hid)].
  { split; rewrite ?Hsame; [|apply Hp|].
    - intros id q Hq. pose proof (po_ids _ Hp id q Hq). lia.
    - intros Hi. apply (po_none _ Hp). by eapply initialized_back. }
  split; rewrite Hset.
  - intros id q Hq. apply lookup_insert_Some in Hq as [[<- _]|[_ Hq]]; [done|].
    pose proof (po_ids _ Hp id q Hq). lia.
  - apply map_Forall_insert_2; [|apply Hp].
    eapply tallied_step; [done|done|]. intros q Hq. by apply (po_tallied _ Hp).
  - intros Hi. eapply initialized_back in Hi; [|done]. exfalso.
    pose proof (go_none _ Hg Hi) as Hno. rewrite (po_none _ Hp Hi), lookup_empty in Hstep.
    inversion Hstep as [q _ _ _ _ _ Hor| |]; subst.
    destruct Hor as [?|Hgov%elem_of_governors]; [congruence|]. rewrite Hno in Hgov. set_solver.
Qed.

Lemma governance_invariant ok w :
  pays (T := T) (W := W) sha256 ok w -> governance_ok (w_store w).
Proof.
  apply pays_inv.
  - split; [by split|]. split; [done|apply map_Forall_empty|done].
  - intros c env w1 w2 _ _ Hr Hok. split; [by eapply governors_step|by eapply proposals_ok_step].
Qed.

(** C30: Governance is counted exactly.  In every reachable state the stored
    number of governors is the number of addresses that are governors, it is
    positive once the contract is initialised, every proposal is stored under its
    own number, its voters are distinct and its vote count is their number. *)
Theorem payment_governance_exact w :
  pays (T := T) (W := W) sha256 (fun _ _ _ => True) w ->
  storage.get_total_governors (w_store w) = map_len (governors (w_store w)) /\
  (storage.is_initialized (w_store w) = true -> 0 < storage.get_total_governors (w_store w)) /\
  map_Forall tallied (t_Proposal (w_store w)).
Proof.
  intros [Hg Hp]%governance_invariant. split_and!; [apply Hg| |apply Hp].
  intros Hi. rewrite (go_total _ Hg). pose proof (go_some _ Hg Hi) as Hne.
  enough (size (governors (w_store w)) <> 0%nat) by lia.
  intros Hz. apply Hne, leibniz_equiv. by apply size_empty_inv.
Qed.

(** A parameter changes by majority.  In every reachable state, when
    [execute_proposal] succeeds, more than half as many distinct addresses as
    there are governors have voted for the proposal, it was pending, the 48 hours
    of the time lock have passed and its seven days have not; the change that is
    applied is the one proposed, and the proposal is final: a second execution is
    refused. *)
Theorem execute_proposal_majority executor id env w w' :
  pays (T := T) (W := W) sha256 (fun _ _ _ => True) w ->
  execute_proposal executor id env w = Done tt w' ->
  exists p w1,
    t_Proposal (w_store w) !! id = Some p /\ pp_status p = ProposalStatus.Pending /\
    NoDup (pp_voters p) /\ map_len (governors (w_store w)) < 2 * len (pp_voters p) /\
    pp_created_at p + VOTING_PERIOD <= timestamp env <= pp_expires_at p /\
    apply_change (pp_change p) (map_len (governors (w_store w))) env w = Done tt w1 /\
    t_Proposal (w_store w') !! id = Some (p <| pp_status := ProposalStatus.Executed |>) /\
    forall env2, executor ∈ auths env2 -> timestamp env2 <= pp_expires_at p ->
      execute_proposal executor id env2 w' = Fail ProposalNotActive.
Proof.
  intros [Hg Hp]%governance_invariant
    (p & w1 & Hl & Hau & Hst & Ht & Hm & Hc & l & Hs)%executed_Done.
  pose proof (po_tallied _ Hp id p Hl) as [Hid Hnd Hct].
  rewrite <- (go_total _ Hg). exists p, w1.
  assert (t_Proposal (w_store w') !! id = Some (p <| pp_status := ProposalStatus.Executed |>)) as Hx.
  { rewrite Hs, <- Hid. cbn. apply lookup_insert_eq. }
  split_and!; try done; [|lia|lia|].
  - rewrite <- Hct.
    pose proof (Z.div_mod (storage.get_total_governors (w_store w)) 2).
    pose proof (Z.mod_pos_bound (storage.get_total_governors (w_store w)) 2). lia.
  - intros env2 Hau2 Ht2. unfold execute_proposal. run_step; [done|].
    unfold read. run_step. unfold storage.get_proposal. rewrite Hx.
    run_step; [done|]. run_step. run_step; [apply Z.ltb_ge; exact Ht2|]. done.
Qed.
End Governance.

(** ** Samples *)
Definition governed : list (Env * PayCall) :=
  PaymentSample.setup ++
  [ (PaymentSample.env 20 ["ADM"], ProposeParameterChange "ADM" (AddGovernor "EVE")) ].

Lemma payment_governance_exact_witness :
  let w := PaymentSample.play governed in
  storage.get_total_governors (w_store w) = map_len (governors (w_store w)) /\
  (storage.is_initialized (w_store w) = true -> 0 < storage.get_total_governors (w_store w)) /\
  map_Forall tallied (t_Proposal (w_store w)).
Proof.
  apply (payment_governance_exact PaymentSample.sha256 (PaymentSample.play governed)).
  apply PaymentSample.play_pays; [done|vm_compute; reflexivity].
Defined.

Lemma execute_proposal_majority_witness :
  let w := PaymentSample.play governed in
  let env := PaymentSample.env 200000 ["BOB"] in
  let w' := invoke (execute_proposal "BOB" 1) env w in
  exists p w1,
    t_Proposal (w_store w) !! 1 = Some p /\ pp_status p = ProposalStatus.Pending /\
    NoDup (pp_voters p) /\ map_len (governors (w_store w)) < 2 * len (pp_voters p) /\
    pp_created_at p + VOTING_PERIOD <= timestamp env <= pp_expires_at p /\
    apply_change (pp_change p) (map_len (governors (w_store w))) env w = Done tt w1 /\
    t_Proposal (w_store w') !! 1 = Some (p <| pp_status := ProposalStatus.Executed |>) /\
    forall env2, "BOB" ∈ auths env2 -> timestamp env2 <= pp_expires_at p ->
      execute_proposal "BOB" 1 env2 w' = Fail ProposalNotActive.
Proof.
  intros w env w'. apply (execute_proposal_majority PaymentSample.sha256).
  - apply PaymentSample.play_pays; [done|vm_compute; reflexivity].
  - vm_compute. reflexivity.
Defined.
