(* ===== verification/PaymentTickets.v ===== *)
(** * Ticket payment: the life of a ticket

    Every successful call changes a ticket record only by one of the listed,
    authorised transitions ([ticket_life_cycle]), and the sharded index of an
    event stays well formed. *)

From stdpp Require Import base tactics numbers list strings gmap.
From S2P Require Import Prelude.
From S2P Require Import Soroban.
From S2P Require Import Token.
From S2P Require Import Sharded.
From S2P Require Import PaymentTypes.
From S2P Require Import PaymentStorage.
From S2P Require Import PaymentWorld.
From S2P Require Import PaymentSale.
From S2P Require Import PaymentQuote.
From S2P Require Import PaymentAdmin.
From S2P Require Import PaymentRefund.
From S2P Require Import PaymentEscrow.
From S2P Require Import PaymentResale.
From S2P Require Import Payments.
From S2P Require Import PaymentSample.

(** ** The index of an event *)

(** The shards of every event are a list without duplicates whose elements
    are exactly the marked payments. *)
Definition event_index_ok (s : State) : Prop := forall e, exists l,
  dense storage.SHARD_SIZE (t_EventPaymentIndex s) e l /\ NoDup l /\
  forall id, id ∈ l <-> is_Some (t_EventPayment s !! (e, id)).

Lemma shard_size_pos : 0 < storage.SHARD_SIZE.
Proof. reflexivity. Qed.

Lemma event_payments_NoDup s e : event_index_ok s -> NoDup (storage.get_event_payments e s).
Proof.
  intros Hok. destruct (Hok e) as (l & Hd & Hl & _). unfold storage.get_event_payments.
  by rewrite (to_list_dense storage.SHARD_SIZE shard_size_pos _ _ _ Hd).
Qed.

Lemma elem_of_event_payments s e id :
  event_index_ok s -> id ∈ storage.get_event_payments e s <-> is_Some (t_EventPayment s !! (e, id)).
Proof.
  intros Hok. destruct (Hok e) as (l & Hd & _ & Hl). unfold storage.get_event_payments.
  by rewrite (to_list_dense storage.SHARD_SIZE shard_size_pos _ _ _ Hd).
Qed.

(** The marks of an event only grow. *)
Definition marks_grow (s s' : State) : Prop :=
  forall k, is_Some (t_EventPayment s !! k) -> is_Some (t_EventPayment s' !! k).

Definition event_index_step (s s' : State) : Prop :=
  event_index_ok s -> event_index_ok s' /\ marks_grow s s'.

#[export] Instance event_index_step_preorder : PreOrder event_index_step.
Proof.
  split.
  - intros s Hok. split; [done|]. by intros k.
  - intros s1 s2 s3 H1 H2 Hok. destruct (H1 Hok) as [Hok2 Hm]. destruct (H2 Hok2) as [Hok3 Hm2].
    split; [done|]. intros k Hk. auto.
Qed.

Definition event_index (s : State) := (t_EventPaymentIndex s, t_EventPayment s).

Lemma event_index_same s s' : keeps event_index s s' -> event_index_step s s'.
Proof.
  unfold keeps, event_index, event_index_step, event_index_ok, marks_grow. by intros [= -> ->].
Qed.

Lemma add_event_index_step e pid :
  respects (S := State) event_index_step (storage.add_payment_to_event_index e pid).
Proof.
  intros env s [] s' Hr. unfold storage.add_payment_to_event_index in Hr. exec.
  destruct (bool_decide _) eqn:Hm; bools; exec; [done|].
  intros Hok. change (id s) with s in *.
  match goal with H : push _ _ _ _ = Some ?a |- _ => rename H into Hpush, a into idx end.
  split.
  - intros e'. unfold event_index_ok in Hok. destruct (Hok e') as (l & Hd & Hnd & Hl). upd_simpl.
    destruct (decide (e' = e)) as [->|He].
    + exists (l ++ [pid]). split; [eapply push_dense; [apply shard_size_pos|done|done]|].
      assert (pid ∉ l) by (by rewrite Hl). split.
      * apply NoDup_app. split_and!; [done|set_solver|apply NoDup_singleton].
      * intros k. rewrite elem_of_app, list_elem_of_singleton, Hl.
        destruct (decide (k = pid)) as [->|Hk]; [rewrite lookup_insert_eq; naive_solver|].
        rewrite lookup_insert_ne by naive_solver. naive_solver.
    + exists l. destruct (push_other storage.SHARD_SIZE _ e' _ _ _ Hpush He) as [Hc Hs].
      split; [|split; [done|]].
      * destruct Hd as [Hd1 Hd2]. split; [by rewrite Hc|]. intros i Hi. by rewrite Hs, Hd2.
      * intros k. rewrite lookup_insert_ne by naive_solver. apply Hl.
  - intros k Hk. upd_simpl. destruct (decide (k = (e, pid))) as [->|Hne];
      [by rewrite lookup_insert_eq|by rewrite lookup_insert_ne].
Qed.

(** Every call keeps the index. *)
Section Calls.
Context {T W : Type} `{Token T} `{TokenAllowance T} `{Clients W}.
Variable sha256 : Bytes -> Bytes.

Lemma event_index_calls c : stores (T := T) (W := W) sha256 event_index_step c.
Proof.
  unfold stores. destruct c; cbn [run_pay];
  repeat first [ apply add_event_index_step | pframe_step ];
  apply event_index_same; pwrites.
Qed.

Lemma event_index_pays ok w : pays (T := T) (W := W) sha256 ok w -> event_index_ok (w_store w).
Proof.
  apply pays_pres.
  - intros e. exists []. split; [apply dense_empty|]. split; [constructor|].
    intros id. cbn. rewrite lookup_empty. split; [set_solver|by intros []].
  - intros c env w1 [] w2 Hr. split; [|split; exact I]. intros Hok.
    apply (event_index_calls c) in Hr as [Hr _]. by apply Hr in Hok as [? _].
Qed.
End Calls.

(** ** What the operations do to the tickets *)

(** A step that leaves a part of the storage alone. *)
Lemma same_C {T W A V} (f : State -> V) (m : C T W A) env w a w' :
  m env w = Done a w' -> respects (moves (keeps f) anything anything) m ->
  f (w_store w') = f (w_store w).
Proof. intros Hr Hm. by apply Hm in Hr as [? _]. Qed.

Lemma same_R {A V} (f : State -> V) (m : R A) env s a s' :
  m env s = Done a s' -> respects (keeps f) m -> f s' = f s.
Proof. intros Hr Hm. by apply Hm in Hr. Qed.

(** [same f] turns the runs of the context that leave the part [f] alone into
    equations. *)
Ltac same1 f :=
  match goal with
  | H : _ ?env _ = Done _ _ |- _ =>
      first [ apply (same_R f) in H; [|solve [pframe; pwrites]]
            | apply (same_C f) in H; [|solve [pframe; pwrites]] ]
  end.
Ltac same f := repeat (same1 f; cbn [w_store w_tokens w_others] in *).

Lemma remove_buyer_tickets a id s :
  t_Payment (storage.remove_payment_from_buyer_index a id s) = t_Payment s.
Proof. unfold storage.remove_payment_from_buyer_index. by case_match. Qed.

Ltac put1 :=
  match goal with
  | H : context [t_Payment (storage.remove_payment_from_buyer_index _ _ _)] |- _ =>
      rewrite remove_buyer_tickets in H
  | H : context [t_Payment (storage.store_resale_listing ?l ?s)] |- _ =>
      change (t_Payment (storage.store_resale_listing l s)) with (t_Payment s) in H
  | H : context [t_Payment (storage.put_payment ?k ?p ?s)] |- _ =>
      change (t_Payment (storage.put_payment k p s)) with (<[k := p]> (t_Payment s)) in H
  end.
Ltac still := repeat (first [same1 t_Payment | put1]; cbn [w_store w_tokens w_others] in *).

Lemma store_payment_tickets p env s u s' :
  storage.store_payment p env s = Done u s' ->
  t_Payment s' = <[pay_payment_id p := p]> (t_Payment s).
Proof. unfold storage.store_payment. intros Hr. exec. still. done. Qed.

(** The refunded record; a claim after a cancellation also notes the amount. *)
Definition refunded (now : Z) (p : Payment) : Payment :=
  p <| pay_status := Refunded |> <| pay_confirmed_at := Some now |>.

Definition part_refunded (r : Z) (p : Payment) : Payment :=
  p <| pay_refunded_amount := pay_refunded_amount p + r |>
    <| pay_organizer_amount := pay_organizer_amount p - r |>.

Definition confirmed (now : Z) (tx : string) (p : Payment) : Payment :=
  p <| pay_status := Confirmed |> <| pay_confirmed_at := Some now |> <| pay_transaction_hash := tx |>.

Definition checked_in (now : Z) (p : Payment) : Payment :=
  p <| pay_status := CheckedIn |> <| pay_last_checked_in_at := now |>.

Definition held_by (a : Address) (p : Payment) : Payment := p <| pay_buyer_address := a |>.

(** Records are stored under their identifier. *)
Definition keyed (s : State) : Prop := map_Forall (fun k p => pay_payment_id p = k) (t_Payment s).

(** At most the ticket [id] changes, along [change]. *)
Definition one_ticket (change : Payment -> Payment -> Prop) (id : string) (s s' : State) : Prop :=
  t_Payment s' = t_Payment s \/
  exists p p', t_Payment s !! id = Some p /\ change p p' /\ pay_payment_id p' = id /\
    t_Payment s' = <[id := p']> (t_Payment s).

(** The identifiers of a purchase of several tickets. *)
Definition batch_ids : list string := ["p-0"; "p-1"; "p-2"; "p-3"; "p-4"; "p-many"].

Lemma sub_payment_id_cases pid quantity i :
  if quantity =? 1 then sub_payment_id pid quantity i = pid
  else sub_payment_id pid quantity i ∈ batch_ids.
Proof.
  unfold sub_payment_id, batch_ids. destruct (quantity =? 1); [done|].
  repeat case_match; set_solver.
Qed.

Section Effects.
Context {T W : Type} `{Token T} `{TokenAllowance T} `{Clients W}.
Variable sha256 : Bytes -> Bytes.
Implicit Types w : World T W.

Lemma mark_refunded_tickets pid old p env w u w' :
  mark_refunded (T := T) (W := W) pid old p env w = Done u w' ->
  t_Payment (w_store w') = <[pid := p]> (t_Payment (w_store w)).
Proof. unfold mark_refunded. intros Hr. pay. still. done. Qed.

Lemma internal_refund_tickets pid env w u w' :
  internal_refund (T := T) (W := W) pid env w = Done u w' ->
  exists p, t_Payment (w_store w) !! pid = Some p /\
    pay_buyer_address p ∈ auths env /\ pay_status p <> Refunded /\ pay_status p <> Failed /\
    t_Payment (w_store w') = <[pid := refunded (timestamp env) p]> (t_Payment (w_store w)).
Proof.
  unfold internal_refund, find_payment, find_event, storage.get_event_registry, publish. intros Hr.
  pay. facts.
  match goal with H : mark_refunded _ _ _ _ _ = _ |- _ => apply mark_refunded_tickets in H end.
  still. upd_simpl. eexists. split_and!; [done..|]. unfold refunded. congruence.
Qed.

(** A loop over distinct tickets that changes each at most once. *)
Lemma foldM_tickets {B} change (step : B -> string -> C T W B) env l :
  (forall acc id w acc' w', keyed (w_store w) -> step acc id env w = Done acc' w' ->
    one_ticket change id (w_store w) (w_store w')) ->
  NoDup l -> forall acc w acc' w', keyed (w_store w) -> foldM step acc l env w = Done acc' w' ->
  forall id, t_Payment (w_store w') !! id = t_Payment (w_store w) !! id \/
    id ∈ l /\ exists p p', t_Payment (w_store w) !! id = Some p /\ change p p' /\
      t_Payment (w_store w') !! id = Some p'.
Proof.
  intros Hstep Hnd. induction Hnd as [|x l Hx Hnd IH]; intros acc w acc' w' Hk Hr id.
  - cbn [foldM] in Hr. apply ret_Done in Hr as [_ ->]. by left.
  - cbn [foldM] in Hr. apply bind_Done in Hr as (acc1 & w1 & H1' & H2').
    destruct (Hstep _ _ _ _ _ Hk H1') as [He|(p & p' & Hp & Hc & Hid & He)].
    + unfold keyed in *. rewrite <- He in Hk |- *. destruct (IH _ _ _ _ Hk H2' id) as [?|[? ?]]; [by left|right].
      split; [apply elem_of_cons; auto|done].
    + assert (Hk1 : keyed (w_store w1))
        by (unfold keyed; rewrite He; by apply map_Forall_insert_2).
      destruct (IH _ _ _ _ Hk1 H2' id) as [Hs|(Hin & q & q' & Hq & Hrest)]; rewrite He in *.
      * destruct (decide (id = x)) as [->|Hne]; [|rewrite lookup_insert_ne in Hs by done; by left].
        rewrite lookup_insert_eq in Hs. right. split; [apply elem_of_cons; auto|eauto 10].
      * assert (id <> x) by (intros ->; done). rewrite lookup_insert_ne in Hq by done.
        right. split; [apply elem_of_cons; auto|eauto].
Qed.


Ltac one_changed p p' :=
  match goal with H : storage.store_payment _ _ _ = _ |- _ => apply store_payment_tickets in H end;
  still; right; exists p, p'; split; [done|]; split; [|split; [done|upd_simpl; unfold refunded, part_refunded; congruence]].

Lemma bulk_refund_one_tickets acc id env w acc' w' :
  keyed (w_store w) -> bulk_refund_one (T := T) (W := W) acc id env w = Done acc' w' ->
  one_ticket (fun p p' => pay_status p = Confirmed /\ p' = refunded (timestamp env) p) id
    (w_store w) (w_store w').
Proof.
  unfold bulk_refund_one, sub_balance. intros Hk Hr. pay.
  destruct (storage.get_payment id (w_store w)) as [p|] eqn:Hp; [|pay; by left].
  pose proof (Hk id p Hp) as Hid. destruct (bool_decide _) eqn:Hst; pay; facts; [|by left].
  one_changed p (refunded (timestamp env) p). done.
Qed.

Lemma cascade_one_tickets e n id env w n' w' :
  keyed (w_store w) -> cascade_one (T := T) (W := W) e n id env w = Done n' w' ->
  one_ticket (fun p p' => pay_status p = Confirmed /\ p' = refunded (timestamp env) p) id
    (w_store w) (w_store w').
Proof.
  unfold cascade_one, neg_i128. intros Hk Hr. pay.
  destruct (storage.get_payment id (w_store w)) as [p|] eqn:Hp; [|pay; by left].
  pose proof (Hk id p Hp) as Hid. destruct (bool_decide _) eqn:Hst; pay; facts; [|by left].
  one_changed p (refunded (timestamp env) p). done.
Qed.

Lemma partial_refund_one_tickets pct acc id env w acc' w' :
  keyed (w_store w) -> partial_refund_one (T := T) (W := W) pct acc id env w = Done acc' w' ->
  one_ticket (fun p p' => pay_status p = Confirmed /\
      exists r, 0 < r <= pay_organizer_amount p /\ p' = part_refunded r p) id
    (w_store w) (w_store w').
Proof.
  unfold partial_refund_one. intros Hk Hr. pay.
  destruct (storage.get_payment id (w_store w)) as [p|] eqn:Hp; [|pay; by left].
  pose proof (Hk id p Hp) as Hid. destruct (bool_decide _) eqn:Hst; pay; facts; [|by left].
  destruct (_ && _) eqn:Hb; pay; facts; [|by left].
  match goal with H : checked_div _ _ _ = Some ?r |- _ => one_changed p (part_refunded r p) end. eauto.
Qed.

Lemma claim_cancellation_tickets pid env w u w' :
  claim_cancellation_refund (T := T) (W := W) pid env w = Done u w' ->
  exists p, t_Payment (w_store w) !! pid = Some p /\
    pay_buyer_address p ∈ auths env /\ pay_status p <> Refunded /\ pay_status p <> Failed /\
    t_Payment (w_store w')
    = <[pid := (refunded (timestamp env) p) <| pay_refunded_amount := pay_amount p |>]>
        (t_Payment (w_store w)).
Proof.
  unfold claim_cancellation_refund, require_initialized, require_running, find_payment. intros Hr.
  pay. facts.
  match goal with H : mark_refunded _ _ _ _ _ = _ |- _ => apply mark_refunded_tickets in H end.
  still. eexists. split_and!; [done..|]. unfold refunded. congruence.
Qed.

Lemma confirm_tickets pid tx env w u w' :
  confirm_payment (T := T) (W := W) pid tx env w = Done u w' ->
  (exists a, t_Admin (w_store w) = Some a /\ a ∈ auths env) /\
  t_Payment (w_store w')
  = match t_Payment (w_store w) !! pid with
    | Some p => <[pid := confirmed (timestamp env) tx p]> (t_Payment (w_store w))
    | None => t_Payment (w_store w)
    end.
Proof.
  unfold confirm_payment, require_initialized, require_admin. intros Hr. pay. facts.
  split; [eauto|]. unfold storage.get_payment in *.
  destruct (t_Payment (w_store w) !! pid) as [p|] eqn:Hp; pay; still; upd_simpl; [|congruence].
  unfold confirmed. congruence.
Qed.

(** The scanner is the organizer or has the role in the registry, and the event
    is not over. *)
Definition may_scan (env : Env) w (p : Payment) (scanner : Address) : Prop :=
  exists registry i, t_EventRegistry (w_store w) = Some registry /\
    get_event registry (pay_event_id p) (w_others w) = Some i /\
    (scanner = event_registry.ei_organizer_address i \/
     is_scanner_authorized registry (pay_event_id p) scanner (w_others w) = Some true) /\
    (0 < event_registry.ei_end_time i -> timestamp env <= event_registry.ei_end_time i).

Lemma check_in_tickets pid scanner si ph secret env w u w' :
  keyed (w_store w) -> check_in (T := T) (W := W) sha256 pid scanner si ph secret env w = Done u w' ->
  exists p, t_Payment (w_store w) !! pid = Some p /\
    scanner ∈ auths env /\ may_scan env w p scanner /\ pay_status p <> CheckedIn /\
    storage.verify_secret sha256 pid secret (w_store w) = true /\
    t_Payment (w_store w') = <[pid := checked_in (timestamp env) p]> (t_Payment (w_store w)).
Proof.
  unfold check_in, require_initialized, require_running, find_event, storage.get_event_registry.
  intros Hk Hr. pay. facts.
  match goal with H : storage.store_payment _ _ _ = _ |- _ => apply store_payment_tickets in H end.
  match goal with H : storage.get_payment _ _ = Some ?p |- _ =>
    exists p; pose proof (Hk _ _ H); still; split_and!; try done end.
  - simplify_eq. eexists _, _. split_and!; [done|done| |].
    + match goal with H : negb _ = false \/ negb ?b = false |- _ => destruct H, b; facts; auto; done end.
    + match goal with H : (0 <? _) = false \/ _ |- _ => destruct H; facts; lia end.
  - cbn in *. unfold checked_in. congruence.
Qed.

Lemma transfer_tickets pid to price env w u w' :
  transfer_ticket (T := T) (W := W) pid to price env w = Done u w' ->
  exists p, t_Payment (w_store w) !! pid = Some p /\
    pay_buyer_address p ∈ auths env /\ pay_status p = Confirmed /\ pay_is_soulbound p = false /\
    t_Payment (w_store w') = <[pid := held_by to p]> (t_Payment (w_store w)).
Proof.
  unfold transfer_ticket, require_initialized, require_running, find_payment, validate_recipient,
    move_ticket. intros Hr. pay. facts. still. eexists. split_and!; [done..|].
  unfold held_by. congruence.
Qed.

Lemma resale_tickets pid buyer max env w u w' :
  purchase_resale_ticket (T := T) (W := W) pid buyer max env w = Done u w' ->
  exists p l, t_Payment (w_store w) !! pid = Some p /\ buyer ∈ auths env /\
    t_ResaleListing (w_store w) !! pid = Some l /\ rl_status l = ResaleStatus.Active /\
    rl_ask_price l <= max /\
    t_Payment (w_store w') = <[pid := held_by buyer p]> (t_Payment (w_store w)).
Proof.
  unfold purchase_resale_ticket, require_initialized, require_running, find_payment, find_listing.
  intros Hr. pay. facts. still. unfold storage.get_payment in *.
  match goal with H : t_Payment _ !! _ = Some ?p, H' : storage.get_resale_listing _ _ = Some ?l |- _ =>
    exists p, l end.
  split_and!; [congruence|done..|]. unfold held_by. congruence.
Qed.

Lemma close_auction_tickets pid eid tid env w u w' :
  close_auction (T := T) (W := W) pid eid tid env w = Done u w' ->
  exists bid fee org, t_HighestBid (w_store w) !! (eid, tid) = Some bid /\
    storage.is_auction_closed eid tid (w_store w) = false /\
    t_Payment (w_store w')
    = <[pid := auction_ticket pid eid tid bid fee org (timestamp env)]> (t_Payment (w_store w)).
Proof.
  unfold close_auction, require_initialized, require_running, find_active_event, find_auction,
    find_event, storage.get_event_registry.
  intros Hr. pay. facts.
  match goal with H : storage.store_payment _ _ _ = _ |- _ => apply store_payment_tickets in H end.
  case_match; pay; still.
  match goal with H : context [auction_ticket _ _ _ ?b ?f ?o _] |- _ => exists b, f, o end.
  split_and!; [done..|]. cbn in *. congruence.
Qed.

Lemma store_ticket_tickets pid eid tid buyer owner token amount quantity sp aff vh i env w u w' :
  store_ticket (T := T) (W := W) pid eid tid buyer owner token amount quantity sp aff vh i env w
    = Done u w' ->
  let id := sub_payment_id pid quantity i in
  exists fee org referral, t_Payment (w_store w')
    = <[id := new_ticket id eid tid buyer owner token amount fee org referral (timestamp env) aff]>
        (t_Payment (w_store w)).
Proof.
  unfold store_ticket. intros Hr. pay.
  match goal with H : storage.store_payment _ _ _ = _ |- _ => apply store_payment_tickets in H end.
  eauto.
Qed.

Lemma sale_tickets pid eid tid buyer recipient token amount quantity options vh env w r w' :
  process_payment (T := T) (W := W) sha256 pid eid tid buyer recipient token amount quantity
    options vh env w = Done r w' ->
  exists q, quoted pid eid tid buyer token amount quantity options env w q /\
  forall id, t_Payment (w_store w') !! id = t_Payment (w_store w) !! id \/
    (if quantity =? 1 then id = pid else id ∈ batch_ids) /\
    exists fee org referral, t_Payment (w_store w') !! id
      = Some (new_ticket id eid tid buyer (default buyer recipient) token amount fee org referral
                (timestamp env) (affiliate_of options)).
Proof.
  unfold process_payment. intros Hr. pay.
  match goal with H : quote_sale _ _ _ _ _ _ _ _ _ _ _ = Done ?q _ |- _ =>
    exists q; split; [by apply quote_sale_Done in H|];
    apply quote_sale_quiet in H as [Hc _]; pose proof (f_equal t_Payment Hc) as E; cbn in E end.
  still. match goal with H : foldM _ _ _ _ ?w0 = Done _ ?w1 |- _ => rename H into Hloop;
    assert (t_Payment (w_store w0) = t_Payment (w_store w)) as E0 by (cbn; congruence) end.
  rewrite Hrun3. rewrite <- E0. clear - Hloop sha256.
  match type of Hloop with foldM _ _ _ _ ?w0 = _ =>
    refine (foldM_inv (fun _ w2 => forall id,
      t_Payment (w_store w2) !! id = t_Payment (w_store w0) !! id \/
      (if quantity =? 1 then id = pid else id ∈ batch_ids) /\
      exists fee org referral, t_Payment (w_store w2) !! id
      = Some (new_ticket id eid tid buyer (default buyer recipient) token amount fee org referral
                (timestamp env) (affiliate_of options)))
      _ _ _ _ _ _ _ Hloop _ (fun id => or_introl eq_refl)) end.
  intros [] i w2 [] w3 _ Hs IH id. apply store_ticket_tickets in Hs as (fee & org & ref & ->).
  destruct (decide (id = sub_payment_id pid quantity i)) as [->|Hne].
  - right. split; [apply sub_payment_id_cases|]. rewrite lookup_insert_eq. eauto.
  - rewrite lookup_insert_ne by done. apply IH.
Qed.
End Effects.

Lemma slice_sublist {A} (i j : Z) (l : list A) : slice i j l `sublist_of` l.
Proof. unfold slice. etrans; [apply sublist_take|apply sublist_drop]. Qed.

(** ** The life cycle *)
Section LifeCycle.
Context {T W : Type} `{Token T} `{TokenAllowance T} `{Clients W}.
Variable sha256 : Bytes -> Bytes.
Implicit Types w : World T W.

(** The organizer of the event [e] signed the call. *)
Definition organizer_signed (env : Env) w (e : string) (P : event_registry.EventInfo -> Prop) : Prop :=
  exists registry i, t_EventRegistry (w_store w) = Some registry /\
    get_event registry e (w_others w) = Some i /\
    event_registry.ei_organizer_address i ∈ auths env /\ P i.

(** The jury decided the dispute on the event [e] for the buyers. *)
Definition buyers_won w (e : string) : Prop :=
  exists registry d, t_EventRegistry (w_store w) = Some registry /\
    get_dispute registry e (w_others w) = Some d /\
    event_registry.d_status d = event_registry.ResolvedBuyer.

(** The refunds that the holder asks for. *)
Definition refund_call (id : string) (c : PayCall) : Prop :=
  match c with
  | RequestGuestRefund i | AdminRefund i | ClaimAutomaticRefund i | ClaimCancellationRefund i => i = id
  | _ => False
  end.

(** The transitions of the ticket [id], with the calls that make them. *)
Inductive ticket_change (env : Env) w (id : string)
    : PayCall -> option Payment -> Payment -> Prop :=
  | ticket_sold o pid eid tid buyer recipient token amount quantity options vh q fee org referral :
      quoted pid eid tid buyer token amount quantity options env w q ->
      (if quantity =? 1 then id = pid else id ∈ batch_ids) ->
      ticket_change env w id
        (ProcessPayment pid eid tid buyer recipient token amount quantity options vh) o
        (new_ticket id eid tid buyer (default buyer recipient) token amount fee org referral
           (timestamp env) (affiliate_of options))
  | ticket_won o eid tid bid fee org :
      t_HighestBid (w_store w) !! (eid, tid) = Some bid ->
      storage.is_auction_closed eid tid (w_store w) = false ->
      ticket_change env w id (CloseAuction id eid tid) o
        (auction_ticket id eid tid bid fee org (timestamp env))
  | ticket_confirmed p admin tx :
      t_Admin (w_store w) = Some admin -> admin ∈ auths env ->
      ticket_change env w id (ConfirmPayment id tx) (Some p) (confirmed (timestamp env) tx p)
  | ticket_checked_in p scanner si ph secret :
      scanner ∈ auths env -> may_scan env w p scanner -> pay_status p <> CheckedIn ->
      storage.verify_secret sha256 id secret (w_store w) = true ->
      ticket_change env w id (CheckIn id scanner si ph secret) (Some p)
        (checked_in (timestamp env) p)
  | ticket_refunded c p n :
      refund_call id c ->
      pay_buyer_address p ∈ auths env -> pay_status p <> Refunded -> pay_status p <> Failed ->
      n = pay_refunded_amount p \/ n = pay_amount p ->
      ticket_change env w id c (Some p)
        ((refunded (timestamp env) p) <| pay_refunded_amount := n |>)
  | ticket_refunded_bulk p e n :
      pay_status p = Confirmed -> id ∈ storage.get_event_payments e (w_store w) ->
      organizer_signed env w e (fun i => is_cancelled i = true) ->
      ticket_change env w id (TriggerBulkRefund e n) (Some p) (refunded (timestamp env) p)
  | ticket_refunded_dispute p e :
      pay_status p = Confirmed -> id ∈ storage.get_event_payments e (w_store w) ->
      buyers_won w e ->
      ticket_change env w id (TriggerDisputeRefundCascade e) (Some p) (refunded (timestamp env) p)
  | ticket_part_refunded p e pct n r :
      pay_status p = Confirmed -> id ∈ storage.get_event_payments e (w_store w) ->
      organizer_signed env w e (fun _ => True) -> 0 < r <= pay_organizer_amount p ->
      ticket_change env w id (IssuePartialRefund e pct n) (Some p) (part_refunded r p)
  | ticket_given p to price :
      pay_buyer_address p ∈ auths env -> pay_status p = Confirmed -> pay_is_soulbound p = false ->
      ticket_change env w id (TransferTicket id to price) (Some p) (held_by to p)
  | ticket_resold p l buyer max :
      buyer ∈ auths env -> t_ResaleListing (w_store w) !! id = Some l ->
      rl_status l = ResaleStatus.Active -> rl_ask_price l <= max ->
      ticket_change env w id (PurchaseResaleTicket id buyer max) (Some p) (held_by buyer p).

Definition tickets_step (c : PayCall) (env : Env) w w' : Prop :=
  forall id, t_Payment (w_store w') !! id = t_Payment (w_store w) !! id \/
    exists p, t_Payment (w_store w') !! id = Some p /\
      ticket_change env w id c (t_Payment (w_store w) !! id) p.

Lemma tickets_step_same c env w w' :
  t_Payment (w_store w') = t_Payment (w_store w) -> tickets_step c env w w'.
Proof. intros He id. left. by rewrite He. Qed.

Lemma tickets_step_insert c env w w' id p :
  t_Payment (w_store w') = <[id := p]> (t_Payment (w_store w)) ->
  ticket_change env w id c (t_Payment (w_store w) !! id) p -> tickets_step c env w w'.
Proof.
  intros He Hc k. rewrite He. destruct (decide (k = id)) as [->|Hk].
  - right. exists p. by rewrite lookup_insert_eq.
  - left. by rewrite lookup_insert_ne.
Qed.

Lemma tickets_frame c :
  match c with
  | ProcessPayment _ _ _ _ _ _ _ _ _ _ | ConfirmPayment _ _ | CheckIn _ _ _ _ _
  | RequestGuestRefund _ | RequestRefund _ | AdminRefund _ | ClaimAutomaticRefund _
  | TriggerBulkRefund _ _ | IssuePartialRefund _ _ _ | ClaimCancellationRefund _
  | TriggerDisputeRefundCascade _ | TransferTicket _ _ _ | PurchaseResaleTicket _ _ _
  | CloseAuction _ _ _ => True
  | _ => stores (T := T) (W := W) sha256 (keeps t_Payment) c
  end.
Proof. untouched. Qed.

Lemma refund_step c pid env w u w' :
  refund_call pid c -> internal_refund (T := T) (W := W) pid env w = Done u w' -> tickets_step c env w w'.
Proof.
  intros Hc (p & Hp & Hau & Hr & Hf & He)%internal_refund_tickets.
  apply (tickets_step_insert _ _ _ _ _ _ He). rewrite Hp.
  replace (refunded (timestamp env) p)
    with ((refunded (timestamp env) p) <| pay_refunded_amount := pay_refunded_amount p |>)
    by (by destruct p).
  apply ticket_refunded; auto.
Qed.

(** The batches over the tickets of an event. *)
Lemma batch_step {B} c (change : Payment -> Payment -> Prop) (step : B -> string -> C T W B) e l
    env w acc w1 acc' w2 w' :
  event_index_ok (w_store w) -> keyed (w_store w) ->
  l `sublist_of` storage.get_event_payments e (w_store w) ->
  (forall acc id w acc' w', keyed (w_store w) -> step acc id env w = Done acc' w' ->
    one_ticket change id (w_store w) (w_store w')) ->
  (forall id p p', id ∈ storage.get_event_payments e (w_store w) -> change p p' ->
    ticket_change env w id c (Some p) p') ->
  foldM step acc l env w1 = Done acc' w2 ->
  t_Payment (w_store w1) = t_Payment (w_store w) ->
  t_Payment (w_store w') = t_Payment (w_store w2) -> tickets_step c env w w'.
Proof.
  intros Hix Hk Hl Hstep Hch Hr H1' H2' id. unfold keyed in *. rewrite <- H1' in Hk. rewrite H2', <- H1'.
  eapply foldM_tickets in Hr; [|exact Hstep| |exact Hk].
  - destruct Hr as [Hr|(Hin & p & p' & Hp & Hc & He)]; [by left|right].
    exists p'. split; [exact He|]. rewrite Hp. eapply Hch; [|done]. eapply elem_of_submseteq; [done|by apply sublist_submseteq].
  - eapply sublist_NoDup; [|done]. by apply event_payments_NoDup.
Qed.

Lemma tickets_call c env w w' :
  event_index_ok (w_store w) -> keyed (w_store w) ->
  run_pay (T := T) (W := W) sha256 c env w = Done tt w' -> tickets_step c env w w'.
Proof.
  intros Hix Hk Hr. pose proof (tickets_frame c) as Hf.
  destruct c; try (apply tickets_step_same; by apply (Hf env w tt w' Hr)); clear Hf;
    cbn [run_pay] in Hr; pay.
  - (* process_payment *)
    match goal with H : process_payment _ _ _ _ _ _ _ _ _ _ _ _ _ = _ |- _ =>
      apply sale_tickets in H as (q & Hq & Hs) end.
    intros id. destruct (Hs id) as [?|(Hid & fee & org & ref & He)]; [by left|right].
    eexists. split; [exact He|]. by eapply ticket_sold.
  - (* confirm_payment *)
    apply confirm_tickets in Hr as [(a & Ha & Hau) He].
    destruct (t_Payment (w_store w) !! payment_id) as [p|] eqn:Hp; [|by apply tickets_step_same].
    apply (tickets_step_insert _ _ _ _ _ _ He). rewrite Hp. by eapply ticket_confirmed.
  - apply check_in_tickets in Hr as (p & Hp & Hau & Hsc & Hst & Hv & He); [|done].
    apply (tickets_step_insert _ _ _ _ _ _ He). rewrite Hp. by eapply ticket_checked_in.
  - unfold request_guest_refund, require_initialized, require_running in Hr. pay. by eapply (refund_step _ payment_id).
  - unfold request_refund, require_initialized, require_running in Hr. pay. done.
  - unfold admin_refund, require_admin in Hr. pay. by eapply (refund_step _ payment_id).
  - unfold claim_automatic_refund, require_initialized, require_running, find_payment, find_event,
      storage.get_event_registry in Hr. pay. destruct w. by eapply (refund_step _ payment_id).
  - unfold trigger_bulk_refund, require_initialized, require_running, find_event,
      storage.get_event_registry in *. pay. facts. destruct (_ <=? _); pay; [by apply tickets_step_same|].
    still. eapply (batch_step _ _ _ event_id);
      [done|done|apply slice_sublist|intros ? ? ? ? ?; apply bulk_refund_one_tickets| |done|done|cbn in *; congruence].
    intros id p p' Hin [Hst ->]. eapply ticket_refunded_bulk; [done|exact Hin|].
    eexists _, _. split_and!; done.
  - unfold issue_partial_refund, require_initialized, require_running, find_event,
      storage.get_event_registry in *. pay. facts.
    destruct (_ <=? _); pay; [by apply tickets_step_same; still|].
    still. eapply (batch_step _ _ _ event_id);
      [done|done|apply slice_sublist|intros ? ? ? ? ?; apply partial_refund_one_tickets| |done
      |cbn in *; congruence|cbn in *; congruence].
    intros id p p' Hin (Hst & r & Hr & ->). eapply ticket_part_refunded; [done|exact Hin| |done].
    eexists _, _. split_and!; done.
  - apply claim_cancellation_tickets in Hr as (p & Hp & Hau & Hst & Hf & He).
    apply (tickets_step_insert _ _ _ _ _ _ He). rewrite Hp. apply ticket_refunded; [done|auto..].
  - unfold trigger_dispute_refund_cascade, require_initialized, require_running,
      storage.get_event_registry in *. pay. facts. still.
    eapply (batch_step _ _ _ event_id);
      [done|done|reflexivity|intros ? ? ? ? ?; apply cascade_one_tickets| |done|done|cbn in *; congruence].
    intros id p p' Hin [Hst ->]. eapply ticket_refunded_dispute; [done|exact Hin|].
    eexists _, _. split_and!; done.
  - apply transfer_tickets in Hr as (p & Hp & Hau & Hst & Hs & He).
    apply (tickets_step_insert _ _ _ _ _ _ He). rewrite Hp. by apply ticket_given.
  - apply resale_tickets in Hr as (p & l & Hp & Hau & Hl & Hst & Hmax & He).
    apply (tickets_step_insert _ _ _ _ _ _ He). rewrite Hp. by eapply ticket_resold.
  - apply close_auction_tickets in Hr as (bid & fee & org & Hb & Hc & He).
    apply (tickets_step_insert _ _ _ _ _ _ He). by apply ticket_won.
Qed.

Lemma ticket_change_keyed env w id c o p :
  ticket_change env w id c o p -> (forall q, o = Some q -> pay_payment_id q = id) -> pay_payment_id p = id.
Proof. intros Hc Ho. by destruct Hc; try done; rewrite <- (Ho _ eq_refl). Qed.

Lemma keyed_pays ok w : pays (T := T) (W := W) sha256 ok w -> keyed (w_store w).
Proof.
  apply pays_inv; [apply map_Forall_empty|]. intros c env w1 w2 Hw _ Hr Hk id p Hp.
  pose proof (tickets_call c env w1 w2 (event_index_pays _ _ _ Hw) Hk Hr id) as Hs.
  destruct Hs as [Hs|(q & Hq & Hc)]; [apply Hk; congruence|]. replace p with q by congruence.
  eapply ticket_change_keyed; [exact Hc|]. intros q' Hq'. by apply Hk.
Qed.

(** C6: Every successful call of the payment contract, in every reachable state,
    changes a ticket record only by one of the transitions of [ticket_change]: a
    quoted sale signed by the buyer, the award of an auction that is not closed,
    the confirmation by the administrator, the entry with the secret of the ticket
    under the signature of the scanner, a refund that the holder signed or that
    follows a cancellation or a dispute, a partial refund by the organizer, and
    the transfer or resale of a ticket.  Nothing ever deletes a ticket. *)
Theorem ticket_life_cycle ok c env w w' :
  pays (T := T) (W := W) sha256 ok w -> run_pay sha256 c env w = Done tt w' ->
  tickets_step c env w w'.
Proof.
  intros Hw Hr. apply (tickets_call c); [by eapply event_index_pays|by eapply keyed_pays|done].
Qed.
End LifeCycle.

(** Ann's confirmed ticket is scanned at the door by the organizer. *)
Lemma ticket_life_cycle_witness :
  let w := PaymentSample.play PaymentSample.sold in
  let c := CheckIn "p1" "ORG" None None "s3cret" in
  exists w', run_pay PaymentSample.sha256 c (PaymentSample.env 40 ["ORG"]) w = Done tt w' /\
    tickets_step PaymentSample.sha256 c (PaymentSample.env 40 ["ORG"]) w w' /\
    pay_status <$> t_Payment (w_store w) !! "p1" = Some Confirmed /\
    pay_status <$> t_Payment (w_store w') !! "p1" = Some CheckedIn.
Proof.
  intros w c.
  set (w' := default w (PaymentSample.play_from w [(PaymentSample.env 40 ["ORG"], c)])).
  assert (Hr : run_pay PaymentSample.sha256 c (PaymentSample.env 40 ["ORG"]) w = Done tt w')
    by (vm_compute; reflexivity).
  exists w'. split; [exact Hr|]. split.
  - apply (ticket_life_cycle PaymentSample.sha256 (fun _ _ _ => True)); [|exact Hr].
    apply PaymentSample.play_pays; [done|vm_compute; reflexivity].
  - split; vm_compute; reflexivity.
Defined.
