(* ===== verification/PaymentSeats.v ===== *)
(** * Ticket payment: tickets and seats

    The registry counts the seats that are sold, the payment contract keeps the
    tickets.  [Seats] is what the registry promises about its counters when the
    payment contract calls it; against this interface, no call of the payment
    contract creates a live ticket without a seat ([tickets_seated]). *)

From stdpp Require Import base tactics numbers list strings gmap.
From S2P Require Import Prelude.
From S2P Require Import Soroban.
From S2P Require Import Token.
From S2P Require Import PaymentTypes.
From S2P Require Import PaymentStorage.
From S2P Require Import PaymentWorld.
From S2P Require Import PaymentSale.
From S2P Require Import PaymentQuote.
From S2P Require Import PaymentAdmin.
From S2P Require Import PaymentRefund.
From S2P Require Import PaymentEscrow.
From S2P Require Import PaymentResale.
From S2P Require Import Payments.
From S2P Require Import PaymentTickets.

(** [n] at the tier [k], nothing elsewhere. *)
Definition at_tier (k : string * string) (n : Z) (k' : string * string) : Z :=
  if bool_decide (k' = k) then n else 0.

(** The counters of sold seats per event and tier. *)
Class Seats (W : Type) `{Clients W} := {
  seats_ok : W -> Prop;
  sold : W -> string * string -> Z;
  increment_sold registry env e t u q token o o' :
    seats_ok o -> increment_inventory registry env e t u q token o = Some o' ->
    seats_ok o' /\ forall k, sold o' k = sold o k + at_tier (e, t) q k;
  decrement_sold registry env e t u o o' :
    seats_ok o -> decrement_inventory registry env e t u o = Some o' ->
    seats_ok o' /\ forall k, sold o' k = sold o k - at_tier (e, t) 1 k;
  loyalty_sold registry env a g n m l o o' :
    seats_ok o -> update_loyalty_score registry env a g n m l o = Some o' ->
    seats_ok o' /\ forall k, sold o' k = sold o k;
  pro_sold contract env a o b o' :
    seats_ok o -> is_pro_member contract env a o = Some (b, o') ->
    seats_ok o' /\ forall k, sold o' k = sold o k;
}.

(** A ticket that admits: neither refunded nor failed. *)
Definition live (p : Payment) : Prop := pay_status p <> Refunded /\ pay_status p <> Failed.

Definition tier_of (p : Payment) : string * string := (pay_event_id p, pay_ticket_tier_id p).

Definition counts (k : string * string) (p : Payment) : Z :=
  if bool_decide (tier_of p = k /\ live p) then 1 else 0.

(** The number of live tickets of a tier. *)
Definition live_tickets (k : string * string) (s : State) : Z := sum_map (counts k) (t_Payment s).

Lemma counts_range k p : 0 <= counts k p <= 1.
Proof. unfold counts. case_bool_decide; lia. Qed.

Lemma counts_tier k p : counts k p <= at_tier (tier_of p) 1 k.
Proof. unfold counts, at_tier. repeat case_bool_decide; naive_solver lia. Qed.

Lemma counts_live k p : live p -> counts k p = at_tier (tier_of p) 1 k.
Proof. intros Hl. unfold counts, at_tier. repeat case_bool_decide; naive_solver. Qed.

Lemma counts_dead k p : ~ live p -> counts k p = 0.
Proof. unfold counts. intros Hl. case_bool_decide; naive_solver. Qed.

Lemma counts_mono k p p' : tier_of p' = tier_of p -> (live p' -> live p) -> counts k p' <= counts k p.
Proof.
  unfold counts. intros Ht Hl. case_bool_decide as H'; [|case_bool_decide; lia].
  destruct H' as [<- ?]. rewrite bool_decide_true by auto. done.
Qed.

(** One record is replaced. *)
Lemma live_tickets_insert k s s' id p :
  t_Payment s' = <[id := p]> (t_Payment s) ->
  live_tickets k s' = live_tickets k s - from_option (counts k) 0 (t_Payment s !! id) + counts k p.
Proof. intros He. unfold live_tickets. rewrite He. apply sum_map_insert. Qed.

Lemma live_tickets_new k s s' id p :
  t_Payment s' = <[id := p]> (t_Payment s) -> live_tickets k s' <= live_tickets k s + counts k p.
Proof.
  intros He. rewrite (live_tickets_insert k s s' id p He).
  destruct (t_Payment s !! id) as [q|]; cbn; [pose proof (counts_range k q)|]; lia.
Qed.

(** Sums over maps with the same keys. *)
Lemma sum_map_lookup_le {K A} `{Countable K} (f : A -> Z) (m m' : gmap K A) :
  (forall x, 0 <= f x) ->
  (forall k, from_option f 0 (m' !! k) <= from_option f 0 (m !! k)) -> sum_map f m' <= sum_map f m.
Proof.
  intros Hf. revert m. induction m' as [|k x m' Hk IH] using map_ind; intros m Hle.
  - rewrite sum_map_empty. by apply sum_map_nonneg.
  - rewrite sum_map_insert_None by done. pose proof (sum_map_delete f m k) as Hd.
    pose proof (Hle k) as Hx. rewrite lookup_insert_eq in Hx. cbn in Hx.
    enough (sum_map f m' <= sum_map f (delete k m)) by lia. apply IH. intros j.
    destruct (decide (j = k)) as [->|Hj].
    + by rewrite Hk, lookup_delete_eq.
    + specialize (Hle j). by rewrite lookup_insert_ne in Hle by done; rewrite lookup_delete_ne.
Qed.

(** No ticket of a tier appears when every changed ticket keeps its tier and is
    not brought back to life. *)
Lemma live_tickets_le k s s' :
  (forall id p', t_Payment s' !! id = Some p' -> t_Payment s !! id = Some p' \/
     exists p, t_Payment s !! id = Some p /\ tier_of p' = tier_of p /\ (live p' -> live p)) ->
  live_tickets k s' <= live_tickets k s.
Proof.
  intros Hs. apply sum_map_lookup_le; [intros x; apply counts_range|]. intros id.
  destruct (t_Payment s' !! id) as [p'|] eqn:Hp'; cbn.
  - destruct (Hs id p' Hp') as [->|(p & -> & Ht & Hl)]; cbn; [lia|by apply counts_mono].
  - destruct (t_Payment s !! id) as [p|]; cbn; [pose proof (counts_range k p)|]; lia.
Qed.

(** The live tickets of an event, over all its tiers. *)
Definition live_of_event (eid : string) (s : State) : Z :=
  sum_map (fun p => if bool_decide (pay_event_id p = eid /\ live p) then 1 else 0) (t_Payment s).

(** The part of them in the tiers of [m]. *)
Definition live_in {A} (eid : string) (m : gmap string A) (p : Payment) : Z :=
  if bool_decide (pay_event_id p = eid /\ live p /\ is_Some (m !! pay_ticket_tier_id p)) then 1 else 0.

Lemma live_in_insert {A} eid (m : gmap string A) tid x p :
  m !! tid = None -> live_in eid (<[tid := x]> m) p = counts (eid, tid) p + live_in eid m p.
Proof.
  intros Hm. unfold live_in, counts, tier_of. destruct (decide (pay_ticket_tier_id p = tid)) as [<-|Hne].
  - rewrite lookup_insert_eq, Hm.
    rewrite (bool_decide_false (pay_event_id p = eid /\ live p /\ is_Some None))
      by (intros (_ & _ & [? [=]])).
    rewrite Z.add_0_r. repeat case_bool_decide; naive_solver.
  - rewrite lookup_insert_ne by done.
    rewrite (bool_decide_false (_ = (eid, tid) /\ _)) by naive_solver. done.
Qed.

Lemma live_in_le {A} eid (m : gmap string A) (f : A -> Z) s :
  (forall tid x, m !! tid = Some x -> live_tickets (eid, tid) s <= f x) ->
  sum_map (live_in eid m) (t_Payment s) <= sum_map f m.
Proof.
  induction m as [|tid x m Hm IH] using map_ind; intros Hf.
  - rewrite sum_map_empty, (sum_map_ext _ (fun _ => 0 * 0)), sum_map_scale; [lia|].
    intros id p _. unfold live_in. rewrite bool_decide_false; [done|]. rewrite lookup_empty. by intros (_ & _ & [? [=]]).
  - rewrite sum_map_insert_None by done.
    rewrite (sum_map_ext _ (fun p => counts (eid, tid) p + live_in eid m p)), sum_map_add
      by (intros; by apply live_in_insert).
    apply Z.add_le_mono; [apply Hf, lookup_insert_eq|].
    apply IH. intros tid' x' Hx. apply Hf. rewrite lookup_insert_ne; [done|]. by intros ->; rewrite Hm in Hx.
Qed.

(** Tier by tier below [f], and none in other tiers. *)
Lemma live_of_event_tiers {A} eid (m : gmap string A) (f : A -> Z) s :
  (forall tid x, m !! tid = Some x -> live_tickets (eid, tid) s <= f x) ->
  (forall tid, m !! tid = None -> live_tickets (eid, tid) s <= 0) ->
  live_of_event eid s <= sum_map f m.
Proof.
  intros Hf Hn. etrans; [|by apply live_in_le]. apply sum_map_le. intros id p Hp. unfold live_in.
  case_bool_decide as Hl; [|case_bool_decide; lia]. destruct Hl as [He Hl].
  rewrite bool_decide_true; [done|]. split_and!; [done..|]. apply not_eq_None_Some. intros Hm.
  specialize (Hn _ Hm). pose proof (sum_map_elem (counts (eid, pay_ticket_tier_id p)) (t_Payment s) id p) as Hc.
  unfold live_tickets in Hn. specialize (Hc (fun _ q _ => proj1 (counts_range _ q)) Hp).
  unfold counts at 1 in Hc. rewrite bool_decide_true in Hc; [lia|]. unfold tier_of. split; [congruence|done].
Qed.

Section Seated.
Context {T W : Type} `{Token T} `{TokenAllowance T} `{Seats W}.
Variable sha256 : Bytes -> Bytes.
Implicit Types w : World T W.

(** The number of live tickets of a tier grows at most with its sold seats. *)
Definition seated w w' : Prop :=
  seats_ok (w_others w') /\
  forall k, live_tickets k (w_store w') - live_tickets k (w_store w)
            <= sold (w_others w') k - sold (w_others w) k.

(** A call that leaves the other contracts alone. *)
Lemma seated_quiet w w' :
  w_others w' = w_others w -> seats_ok (w_others w) ->
  (forall k, live_tickets k (w_store w') <= live_tickets k (w_store w)) -> seated w w'.
Proof. intros Ho Hok Hl. split; [by rewrite Ho|]. intros k. rewrite Ho. specialize (Hl k). lia. Qed.

(** The counters stay, as far as they are consistent before. *)
Definition same_seats (o o' : W) : Prop :=
  seats_ok o -> seats_ok o' /\ forall k, sold o' k = sold o k.
#[local] Instance same_seats_preorder : PreOrder same_seats.
Proof.
  split; [by intros o|]. intros o1 o2 o3 H1' H2' [H3' E1]%H1'. destruct (H2' H3') as [? E2].
  split; [done|]. intros k. by rewrite E2, E1.
Qed.

(** A refund that gives one seat back. *)
Lemma seated_refund w w' id p p' :
  t_Payment (w_store w) !! id = Some p -> live p -> ~ live p' ->
  t_Payment (w_store w') = <[id := p']> (t_Payment (w_store w)) ->
  seats_ok (w_others w') ->
  (forall k, sold (w_others w') k = sold (w_others w) k - at_tier (tier_of p) 1 k) -> seated w w'.
Proof.
  intros Hp Hl Hd He Hok Hs. split; [done|]. intros k. rewrite Hs.
  rewrite (live_tickets_insert k _ _ id p' He), Hp, (counts_dead k p' Hd). cbn.
  rewrite (counts_live k p Hl). lia.
Qed.


(** [others] turns the runs of the context that leave the other contracts alone
    into equations. *)
Lemma same_others {A} (m : C T W A) env w a w' :
  m env w = Done a w' -> respects (moves anything anything eq) m -> w_others w' = w_others w.
Proof. intros Hr Hm. by apply Hm in Hr as (_ & _ & ?). Qed.

Ltac others :=
  repeat (match goal with
  | H : _ ?env _ = Done _ _ |- _ =>
      apply same_others in H; [|solve [pframe; try exact I; reflexivity]]
  end; cbn [w_store w_tokens w_others] in *).

Lemma same_both {A} (m : C T W A) env w a w' :
  m env w = Done a w' -> respects (moves (keeps t_Payment) anything eq) m ->
  t_Payment (w_store w') = t_Payment (w_store w) /\ w_others w' = w_others w.
Proof. intros Hr Hm. by apply Hm in Hr as (? & _ & ?). Qed.

(** The same for runs that leave the tickets alone, too. *)
Ltac aside :=
  repeat (match goal with
  | H : _ ?env _ = Done _ _ |- _ =>
      apply same_both in H; [|solve [pframe; try exact I; pwrites]]; destruct H
  end; cbn [w_store w_tokens w_others] in *).

Ltac decremented :=
  match goal with H : decrement_inventory ?r _ _ _ _ _ = Some _ |- _ => exists r; congruence end.

Lemma internal_refund_others pid p env w u w' :
  t_Payment (w_store w) !! pid = Some p ->
  internal_refund (T := T) (W := W) pid env w = Done u w' ->
  exists registry, decrement_inventory registry env (pay_event_id p) (pay_ticket_tier_id p)
    (pay_buyer_address p) (w_others w) = Some (w_others w').
Proof.
  intros Hp Hr. unfold internal_refund, find_payment, find_event, storage.get_event_registry,
    storage.get_payment in Hr. pay.
  match goal with H : t_Payment _ !! pid = Some ?a |- _ => assert (a = p) as -> by congruence end.
  others. decremented.
Qed.

Lemma claim_cancellation_others pid p env w u w' :
  t_Payment (w_store w) !! pid = Some p ->
  claim_cancellation_refund (T := T) (W := W) pid env w = Done u w' ->
  exists registry, decrement_inventory registry env (pay_event_id p) (pay_ticket_tier_id p)
    (pay_buyer_address p) (w_others w) = Some (w_others w').
Proof.
  intros Hp Hr. unfold claim_cancellation_refund, require_initialized, require_running,
    find_payment, storage.get_event_registry, storage.get_payment in Hr. pay.
  match goal with H : t_Payment _ !! pid = Some ?a |- _ => assert (a = p) as -> by congruence end.
  others. decremented.
Qed.

(** A sale. *)
Lemma try_pro_seats a b :
  respects (moves anything anything same_seats) (try_is_pro_member (T := T) (W := W) a b).
Proof.
  intros env w r w' Hr. unfold try_is_pro_member in Hr. split_and!; try exact I.
  repeat case_match; simplify_eq; [|done]. intros Hok. by eapply pro_sold.
Qed.

Lemma quote_seats pid eid tid buyer token amount quantity options :
  respects (moves anything anything same_seats)
    (quote_sale (T := T) (W := W) sha256 pid eid tid buyer token amount quantity options).
Proof. pframe; try exact I; try reflexivity. all: try apply try_pro_seats. Qed.

Lemma finish_seats pid eid buyer q total promo bps sp code tier :
  respects (moves anything anything same_seats)
    (finish_sale (T := T) (W := W) pid eid buyer q total promo bps sp code tier).
Proof. pframe; try exact I; try reflexivity. intros Hl Hok. by eapply loyalty_sold. Qed.

Lemma store_tickets_live pid eid tid buyer owner token amount quantity sp aff vh env l :
  forall w u w', foldM (fun _ i => store_ticket (T := T) (W := W) pid eid tid buyer owner token amount
    quantity sp aff vh i) tt l env w = Done u w' ->
  w_others w' = w_others w /\
  forall k, live_tickets k (w_store w') <= live_tickets k (w_store w) + at_tier (eid, tid) (len l) k.
Proof.
  induction l as [|i l IH]; cbn [foldM]; intros w u w' Hr.
  - apply ret_Done in Hr as [_ ->]. split; [done|]. intros k. unfold at_tier. case_bool_decide; cbn; lia.
  - apply bind_Done in Hr as ([] & w1 & H1' & H2'). apply IH in H2' as [Ho Hl]. split.
    + rewrite Ho. clear - H1'. others. done.
    + intros k. specialize (Hl k). apply store_ticket_tickets in H1' as (fee & org & ref & He).
      apply (live_tickets_new k) in He.
      match type of He with _ <= _ + counts k ?p => pose proof (counts_tier k p) as Hc end.
      unfold at_tier, tier_of, new_ticket in *. cbn [pay_event_id pay_ticket_tier_id] in *.
      rewrite length_cons. case_bool_decide; lia.
Qed.

Lemma sale_seated pid eid tid buyer recipient token amount quantity options vh env w r w' :
  0 <= quantity -> seats_ok (w_others w) ->
  process_payment (T := T) (W := W) sha256 pid eid tid buyer recipient token amount quantity
    options vh env w = Done r w' -> seated w w'.
Proof.
  intros Hq Hok Hr. unfold process_payment in Hr. pay.
  match goal with H : quote_sale _ _ _ _ _ _ _ _ _ _ _ = Done _ _ |- _ =>
    pose proof (quote_seats _ _ _ _ _ _ _ _ _ _ _ _ H) as (_ & _ & Hq1);
    apply quote_sale_quiet in H as [Hc _]; pose proof (f_equal t_Payment Hc) as E; cbn in E end.
  match goal with H : foldM _ _ _ _ _ = Done _ _ |- _ => apply store_tickets_live in H as [Ho Hl] end.
  match goal with H : finish_sale _ _ _ _ _ _ _ _ _ _ _ _ = Done _ _ |- _ =>
    pose proof (finish_seats _ _ _ _ _ _ _ _ _ _ _ _ _ _ H) as (_ & _ & Hq2) end.
  aside. still. rewrite length_seqZ, Z2Nat.id in Hl by done.
  destruct (Hq1 Hok) as [Hok1 Hs1].
  match goal with H : increment_inventory _ _ _ _ _ _ _ (w_others ?s) = Some ?o |- _ =>
    apply increment_sold in H as [Hok2 Hs2]; [|congruence] end.
  destruct Hq2 as [Hok3 Hs3]; [congruence|]. split; [done|]. intros k.
  specialize (Hl k). rewrite Hs3, Ho, Hs2. unfold live_tickets in *.
  repeat match goal with
  | H : t_Payment (w_store _) = t_Payment (w_store _) |- _ => rewrite H in *; clear H
  | H : w_others _ = w_others _ |- _ => rewrite H in *; clear H
  end.
  rewrite Hs1. lia.
Qed.

Lemma close_auction_seated pid eid tid env w u w' :
  seats_ok (w_others w) -> close_auction (T := T) (W := W) pid eid tid env w = Done u w' -> seated w w'.
Proof.
  intros Hok Hr. pose proof Hr as (bid & fee & org & _ & _ & He)%close_auction_tickets.
  unfold close_auction, require_initialized, require_running, find_active_event, find_auction,
    find_event, storage.get_event_registry in Hr. pay. case_match; pay. others.
  match goal with H : increment_inventory _ _ _ _ _ _ _ _ = Some _ |- _ =>
    apply increment_sold in H as [Hok' Hs]; [|congruence] end.
  split; [cbn; congruence|]. intros k. apply (live_tickets_new k) in He. cbn [w_store w_others] in *.
  match type of He with _ <= _ + counts k ?p => pose proof (counts_tier k p) as Hc end.
  rewrite Hs. change (at_tier (tier_of _) 1 k) with (at_tier (eid, tid) 1 k) in Hc. lia.
Qed.

(** The calls that leave the other contracts alone. *)
Lemma others_frame c :
  match c with
  | ProcessPayment _ _ _ _ _ _ _ _ _ _ | RequestGuestRefund _ | RequestRefund _ | AdminRefund _
  | ClaimAutomaticRefund _ | ClaimCancellationRefund _ | CloseAuction _ _ _ => True
  | _ => respects (moves anything anything eq) (run_pay (T := T) (W := W) sha256 c)
  end.
Proof. destruct c; try exact I; cbn [run_pay]; pframe; try exact I; reflexivity. Qed.

(** Confirmation and entry do not bring a refunded ticket back to life; the
    number of tickets of an order is unsigned. *)
Definition no_revival (c : PayCall) (w : World T W) : Prop :=
  match c with
  | ProcessPayment _ _ _ _ _ _ _ q _ _ => 0 <= q
  | ConfirmPayment id _ | CheckIn id _ _ _ _ =>
      forall p, t_Payment (w_store w) !! id = Some p -> live p
  | _ => True
  end.

Lemma refund_seated pid env w u w' :
  seats_ok (w_others w) -> internal_refund (T := T) (W := W) pid env w = Done u w' -> seated w w'.
Proof.
  intros Hok Hr. pose proof Hr as (p & Hp & _ & Hl1 & Hl2 & He)%internal_refund_tickets.
  destruct (internal_refund_others pid p env w u w' Hp Hr) as [registry Hd].
  apply decrement_sold in Hd as [Hok' Hs]; [|done].
  eapply (seated_refund w w' pid p); [done|by split| |exact He|done|done]. by intros [].
Qed.

Lemma cancellation_seated pid env w u w' :
  seats_ok (w_others w) -> claim_cancellation_refund (T := T) (W := W) pid env w = Done u w' ->
  seated w w'.
Proof.
  intros Hok Hr. pose proof Hr as (p & Hp & _ & Hl1 & Hl2 & He)%claim_cancellation_tickets.
  destruct (claim_cancellation_others pid p env w u w' Hp Hr) as [registry Hd].
  apply decrement_sold in Hd as [Hok' Hs]; [|done].
  eapply (seated_refund w w' pid p); [done|by split| |exact He|done|done]. by intros [].
Qed.

(** A change of an existing ticket keeps its tier and does not revive it. *)
Lemma change_keeps env w id c p p' :
  ticket_change sha256 env w id c (Some p) p' -> t_Payment (w_store w) !! id = Some p ->
  no_revival c w ->
  match c with ProcessPayment _ _ _ _ _ _ _ _ _ _ | CloseAuction _ _ _ => False | _ => True end ->
  tier_of p' = tier_of p /\ (live p' -> live p).
Proof.
  intros Hc Hp Hno Hns. inversion Hc; subst; cbn in Hno, Hns; try done; split; try done.
  all: try (intros _; by apply Hno).
  all: intros _; unfold live; intuition congruence.
Qed.

Lemma seated_call c env w w' :
  event_index_ok (w_store w) -> keyed (w_store w) -> seats_ok (w_others w) -> no_revival c w ->
  run_pay (T := T) (W := W) sha256 c env w = Done tt w' -> seated w w'.
Proof.
  intros Hix Hk Hok Hno Hr. pose proof (tickets_call sha256 c env w w' Hix Hk Hr) as Ht.
  assert (Hquiet : w_others w' = w_others w ->
    match c with ProcessPayment _ _ _ _ _ _ _ _ _ _ | CloseAuction _ _ _ => False | _ => True end ->
    seated w w').
  { intros Ho Hns. apply seated_quiet; [done..|]. intros k. apply live_tickets_le. intros id p' Hp'.
    destruct (Ht id) as [He|(q & Hq & Hc)]; [left; congruence|right].
    assert (q = p') as -> by congruence.
    destruct (t_Payment (w_store w) !! id) as [p|] eqn:Hp; [|by inversion Hc; subst].
    exists p. split; [done|]. by eapply change_keeps. }
  pose proof (others_frame c) as Hf.
  destruct c; try (apply Hquiet; [by destruct (Hf env w tt w' Hr) as (_ & _ & ?)|done]);
    clear Hf Hquiet Ht; cbn [run_pay] in Hr; pay.
  - eapply sale_seated; [exact Hno|exact Hok|eassumption].
  - unfold request_guest_refund, require_initialized, require_running in Hr. pay. by eapply refund_seated.
  - unfold request_refund, require_initialized, require_running in Hr. pay. done.
  - unfold admin_refund, require_admin in Hr. pay. by eapply refund_seated.
  - unfold claim_automatic_refund, require_initialized, require_running, find_payment, find_event,
      storage.get_event_registry in Hr. pay. destruct w. by eapply refund_seated.
  - by eapply cancellation_seated.
  - by eapply close_auction_seated.
Qed.
End Seated.
