(* ===== verification/PaymentHolders.v ===== *)
(** * Ticket payment: who holds a ticket

    The registry asks the payment contract whether an address holds a confirmed
    ticket ([has_confirmed_ticket]); the contract answers from the sharded index of
    the event.  Under [regular] calls, one ticket per purchase and a fresh
    identifier for the ticket of an auction, the index is exactly the table of
    tickets of the event, and the answer is exact. *)

From stdpp Require Import base tactics numbers list strings gmap.
From S2P Require Import Prelude.
From S2P Require Import Soroban.
From S2P Require Import Token.
From S2P Require Import PaymentTypes.
From S2P Require Import PaymentStorage.
From S2P Require Import PaymentWorld.
From S2P Require Import PaymentSale.
From S2P Require Import PaymentQuote.
From S2P Require Import PaymentAdmin.
From S2P Require Import PaymentRefund.
From S2P Require Import PaymentEscrow.
From S2P Require Import PaymentResale.
From S2P Require Import Payments.
From S2P Require Import PaymentSample.
From S2P Require Import PaymentTickets.

(** The marks of the index are the tickets of the table. *)
Definition marked (s : State) (e id : string) : Prop := is_Some (t_EventPayment s !! (e, id)).

Definition index_exact (s : State) : Prop := forall e id,
  marked s e id <-> exists p, t_Payment s !! id = Some p /\ pay_event_id p = e.

(** New marks are for identifiers that had no ticket and have one after; no
    ticket disappears. *)
Definition fresh_marks (s s' : State) : Prop :=
  (forall id, is_Some (t_Payment s !! id) -> is_Some (t_Payment s' !! id)) /\
  (forall e id, marked s e id -> marked s' e id) /\
  (forall e id, marked s' e id ->
    marked s e id \/ t_Payment s !! id = None /\ is_Some (t_Payment s' !! id)).

#[export] Instance fresh_marks_preorder : PreOrder fresh_marks.
Proof.
  split.
  - intros s. unfold fresh_marks. auto.
  - intros s1 s2 s3 (D1 & G1 & N1) (D2 & G2 & N2). split_and!; [auto..|].
    intros e id Hm. destruct (N2 e id Hm) as [Hm2|[Hno Hyes]].
    + destruct (N1 e id Hm2) as [?|[? ?]]; auto.
    + right. split; [|done]. apply eq_None_not_Some. intros ?%D1. by rewrite Hno in *.
Qed.

Definition ticket_tables (s : State) := (t_Payment s, t_EventPayment s).

Lemma fresh_marks_same s s' : keeps ticket_tables s s' -> fresh_marks s s'.
Proof.
  unfold keeps, ticket_tables, fresh_marks, marked. intros [= -> ->]. auto.
Qed.

Lemma fresh_marks_put id p s : fresh_marks s (storage.put_payment id p s).
Proof.
  unfold fresh_marks, marked. cbn. split_and!; [|auto..].
  intros k Hk. destruct (decide (k = id)) as [->|?]; [by rewrite lookup_insert_eq|].
  by rewrite lookup_insert_ne.
Qed.

Lemma add_event_index_marks e id env s u s' :
  storage.add_payment_to_event_index e id env s = Done u s' ->
  t_Payment s' = t_Payment s /\
  forall e' k, marked s' e' k <-> marked s e' k \/ (e', k) = (e, id).
Proof.
  unfold storage.add_payment_to_event_index. intros Hr. exec.
  destruct (bool_decide _) eqn:Hm; facts; exec; (split; [done|]); intros e' k.
  - split; [auto|]. intros [?|[= -> ->]]; [done|exact Hm].
  - unfold marked. cbn. destruct (decide ((e', k) = (e, id))) as [[= -> ->]|Hne].
    + rewrite lookup_insert_eq. naive_solver.
    + rewrite lookup_insert_ne by congruence. naive_solver.
Qed.

(** A stored record is marked when it is new. *)
Lemma store_payment_marks p env s u s' :
  storage.store_payment p env s = Done u s' ->
  t_Payment s' = <[pay_payment_id p := p]> (t_Payment s) /\
  forall e k, marked s' e k <-> marked s e k \/
    t_Payment s !! pay_payment_id p = None /\ (e, k) = (pay_event_id p, pay_payment_id p).
Proof.
  intros Hr. split; [by eapply store_payment_tickets|]. intros e k.
  unfold storage.store_payment in Hr. exec. destruct (bool_decide _) eqn:Hb; facts; cbn [negb when] in Hr; exec.
  - split; [auto|]. intros [?|[Hno _]]; [done|]. by rewrite Hno in Hb.
  - match goal with H : storage.add_payment_to_event_index _ _ _ _ = _ |- _ =>
      apply add_event_index_marks in H as [_ Hm] end.
    same t_EventPayment. unfold marked in *.
    assert (forall a b c, t_EventPayment (storage.add_payment_to_status_index a b c s1) = t_EventPayment s1)
      as -> by (intros; unfold storage.add_payment_to_status_index; by case_match).
    rewrite Hrun0, Hm. apply eq_None_not_Some in Hb. naive_solver.
Qed.

Lemma store_payment_fresh p : respects (S := State) fresh_marks (storage.store_payment p).
Proof.
  intros env s u s' [He Hm]%store_payment_marks. split_and!.
  - intros k Hk. rewrite He. destruct (decide (k = pay_payment_id p)) as [->|?];
      [by rewrite lookup_insert_eq|by rewrite lookup_insert_ne].
  - intros e k Hk. apply Hm. auto.
  - intros e k [?|[Hno [= -> ->]]]%Hm; [auto|right]. split; [done|]. by rewrite He, lookup_insert_eq.
Qed.

Section Holders.
Context {T W : Type} `{Token T} `{TokenAllowance T} `{Clients W}.
Variable sha256 : Bytes -> Bytes.
Implicit Types w : World T W.

Lemma fresh_marks_calls c : stores (T := T) (W := W) sha256 fresh_marks c.
Proof.
  unfold stores. destruct c; cbn [run_pay];
  repeat first [ apply store_payment_fresh | pframe_step ];
  first [apply fresh_marks_put | apply fresh_marks_same; pwrites].
Qed.

(** One ticket per purchase, and the ticket of an auction under a new
    identifier. *)
Definition regular (c : PayCall) (_ : Env) w : Prop :=
  match c with
  | ProcessPayment _ _ _ _ _ _ _ quantity _ _ => quantity = 1
  | CloseAuction payment_id _ _ => t_Payment (w_store w) !! payment_id = None
  | _ => True
  end.

(** What a new ticket [p] does to the two tables. *)
Definition issued (p : Payment) (s s' : State) : Prop :=
  t_Payment s' = <[pay_payment_id p := p]> (t_Payment s) /\
  forall e k, marked s' e k <-> marked s e k \/ (e, k) = (pay_event_id p, pay_payment_id p).

Lemma store_payment_issued p env s u s' s0 s1 :
  storage.store_payment p env s = Done u s' -> t_Payment s !! pay_payment_id p = None ->
  ticket_tables s = ticket_tables s0 -> ticket_tables s1 = ticket_tables s' -> issued p s0 s1.
Proof.
  intros [He Hm]%store_payment_marks Hno [= E1 E2] [= E3 E4].
  unfold issued, marked in *. rewrite <- E1, <- E2, E3, E4. split; [done|]. intros e k. rewrite Hm. tauto.
Qed.

Lemma sale_issued pid eid tid buyer recipient token amount options vh env w r w' :
  process_payment (T := T) (W := W) sha256 pid eid tid buyer recipient token amount 1
    options vh env w = Done r w' ->
  exists p, pay_payment_id p = pid /\ issued p (w_store w) (w_store w').
Proof.
  unfold process_payment. intros Hr. pay.
  match goal with H : quote_sale _ _ _ _ _ _ _ _ _ _ _ = Done ?q _ |- _ =>
    pose proof (quote_sale_Done _ _ _ _ _ _ _ _ _ _ _ _ _ H) as Hq;
    apply quote_sale_quiet in H as [Hc _] end.
  match goal with H : foldM _ _ _ _ _ = _ |- _ =>
    change (seqZ 0 1) with [0] in H; cbn [foldM] in H; unfold store_ticket in H end.
  pay. change (sub_payment_id pid 1 0) with pid in *.
  pose proof (f_equal ticket_tables (Hc : calm _ = calm _)) as E.
  change (ticket_tables (w_store s) = ticket_tables (w_store w)) in E.
  match goal with H : storage.store_payment _ _ _ = _ |- _ => rename H into Hst end.
  revert Hst. same ticket_tables. intros Hst. match type of Hst with storage.store_payment ?p _ _ = _ => exists p; split; [reflexivity|] end.
  eapply store_payment_issued; [exact Hst| |cbn in *; congruence|done].
  unfold ticket_tables in *. cbn in *. rewrite <- (qu_fresh _ _ _ _ _ _ _ _ _ _ _ Hq). congruence.
Qed.

Lemma auction_issued pid eid tid env w u w' :
  close_auction (T := T) (W := W) pid eid tid env w = Done u w' ->
  t_Payment (w_store w) !! pid = None ->
  exists p, pay_payment_id p = pid /\ issued p (w_store w) (w_store w').
Proof.
  unfold close_auction, require_initialized, require_running, find_active_event, find_auction,
    find_event, storage.get_event_registry. intros Hr Hno. pay. facts.
  match goal with H : storage.store_payment _ _ _ = _ |- _ => rename H into Hst end.
  revert Hst. case_match; pay. same ticket_tables. intros Hst.
  match goal with H : _ = ticket_tables (storage.set_auction_closed ?a ?b ?s) |- _ =>
    change (ticket_tables (storage.set_auction_closed a b s)) with (ticket_tables s) in H end.
  match type of Hst with storage.store_payment ?p _ _ = _ => exists p; split; [reflexivity|] end.
  eapply store_payment_issued; [exact Hst| |cbn in *; congruence|cbn in *; congruence].
  unfold ticket_tables in *. cbn in *. rewrite <- Hno. congruence.
Qed.

(** Every other call keeps the tickets and their events. *)
Definition issues (c : PayCall) : bool :=
  match c with ProcessPayment _ _ _ _ _ _ _ _ _ _ | CloseAuction _ _ _ => true | _ => false end.

Lemma tickets_step_events c env w w' :
  issues c = false -> tickets_step sha256 c env w w' ->
  forall id, pay_event_id <$> t_Payment (w_store w') !! id = pay_event_id <$> t_Payment (w_store w) !! id.
Proof.
  intros Hc Hs id. destruct (Hs id) as [->|(p & -> & Hch)]; [done|].
  revert Hch. generalize (t_Payment (w_store w) !! id). intros o Hch.
  by destruct Hch.
Qed.

Lemma issued_exact p s s' :
  t_Payment s !! pay_payment_id p = None -> issued p s s' -> index_exact s -> index_exact s'.
Proof.
  intros Hno [He Hm] Hex e k. unfold index_exact in Hex. rewrite Hm, Hex. setoid_rewrite He.
  destruct (decide (k = pay_payment_id p)) as [->|Hk].
  - setoid_rewrite lookup_insert_eq. setoid_rewrite Hno. naive_solver.
  - setoid_rewrite lookup_insert_ne; [|done]. naive_solver.
Qed.

Lemma index_exact_call c env w w' :
  event_index_ok (w_store w) -> keyed (w_store w) -> regular c env w ->
  run_pay sha256 c env w = Done tt w' -> index_exact (w_store w) -> index_exact (w_store w').
Proof.
  intros Hix Hk Hreg Hr Hex. destruct (issues c) eqn:Hc.
  - destruct c; try done; cbn [run_pay regular] in *; subst; pay.
    + match goal with H : process_payment _ _ _ _ _ _ _ _ _ _ _ _ _ = _ |- _ =>
        pose proof (sale_tickets _ _ _ _ _ _ _ _ _ _ _ _ _ _ _ H) as (q & Hq & _);
        apply sale_issued in H as (p & <- & Hi) end.
      eapply issued_exact; [exact (qu_fresh _ _ _ _ _ _ _ _ _ _ _ Hq)|done|done].
    + apply auction_issued in Hr as (p & <- & Hi); [|done]. by eapply issued_exact.
  - pose proof (tickets_step_events c env w w' Hc (tickets_call _ c env w w' Hix Hk Hr)) as Hev.
    destruct (fresh_marks_calls c env w tt w' Hr) as [(_ & Hgrow & Hnew) _].
    intros e id. specialize (Hev id). specialize (Hex e id).
    assert (marked (w_store w') e id <-> marked (w_store w) e id) as ->.
    { split; [|auto]. intros [?|[Hno Hyes]]%Hnew; [done|]. rewrite Hno in Hev.
      destruct Hyes as [p Hp]. by rewrite Hp in Hev. }
    rewrite Hex. destruct (t_Payment (w_store w') !! id), (t_Payment (w_store w) !! id);
      cbn in Hev; naive_solver congruence.
Qed.

Lemma index_exact_pays w : pays sha256 regular w -> index_exact (w_store w).
Proof.
  apply pays_inv.
  - intros e id. unfold marked. cbn. rewrite !lookup_empty. split; [by intros []|naive_solver].
  - intros c env w1 w2 Hw Hreg Hr Hex.
    eapply index_exact_call; [by eapply event_index_pays|by eapply keyed_pays|done..].
Qed.

(** [has_confirmed_ticket], which the registry asks before it opens a dispute or
    counts a vote, refines the plain question over the table of tickets: under
    [regular] calls it answers yes exactly when some confirmed ticket of the event
    has the address as its holder.  The index it walks lists every ticket of the
    event once and no other. *)
Theorem confirmed_ticket_exact w e a :
  pays (T := T) (W := W) sha256 regular w ->
  (has_confirmed_ticket e a (w_store w) = true <->
   exists id p, t_Payment (w_store w) !! id = Some p /\ pay_event_id p = e /\
     pay_buyer_address p = a /\ pay_status p = Confirmed) /\
  NoDup (storage.get_event_payments e (w_store w)) /\
  forall id, id ∈ storage.get_event_payments e (w_store w) <->
    exists p, t_Payment (w_store w) !! id = Some p /\ pay_event_id p = e.
Proof.
  intros Hw. pose proof (event_index_pays _ _ _ Hw) as Hix. pose proof (index_exact_pays _ Hw) as Hex.
  assert (forall id, id ∈ storage.get_event_payments e (w_store w) <->
    exists p, t_Payment (w_store w) !! id = Some p /\ pay_event_id p = e) as Hin
    by (intros id; rewrite elem_of_event_payments by done; apply Hex).
  split_and!; [|by apply event_payments_NoDup|exact Hin].
  unfold has_confirmed_ticket, storage.get_payment. rewrite existsb_exists.
  setoid_rewrite <- list_elem_of_In. split.
  - intros (id & (p & Hp & He)%Hin & Hb). rewrite Hp in Hb. bools. eauto 10.
  - intros (id & p & Hp & He & Ha & Hst). exists id. split; [apply Hin; eauto|].
    rewrite Hp. by rewrite !bool_decide_true.
Qed.
End Holders.

(** Ann bought and was confirmed, Bob bought and waits for the confirmation. *)
Lemma confirmed_ticket_exact_witness :
  let w := PaymentSample.play (PaymentSample.sold ++ [PaymentSample.buy "p2" "BOB"]) in
  pays PaymentSample.sha256 regular w /\
  has_confirmed_ticket "EV" "ANN" (w_store w) = true /\
  has_confirmed_ticket "EV" "BOB" (w_store w) = false /\
  exists p, t_Payment (w_store w) !! "p1" = Some p /\ pay_event_id p = "EV".
Proof.
  intros w.
  assert (Hw : pays PaymentSample.sha256 regular w).
  { apply PaymentSample.play_pays; [|vm_compute; reflexivity].
    intros env c w1 Hin. repeat (apply elem_of_cons in Hin as [[= -> ->]|Hin]; [done|]).
    by apply elem_of_nil in Hin. }
  split; [exact Hw|]. split; [vm_compute; reflexivity|]. split; [vm_compute; reflexivity|].
  destruct (confirmed_ticket_exact PaymentSample.sha256 w "EV" "ANN" Hw) as (_ & _ & Hin).
  apply (Hin "p1"). apply (bool_decide_unpack _). vm_compute. exact I.
Defined.
