(* ===== verification/PaymentAccounts.v ===== *)
(** * Ticket payment: the escrow accounts

    The contract keeps a total of the active escrow and a total per token.  Every
    call moves them together ([escrow_totals_agree]), also the batches, which move
    the totals per token ticket by ticket and the overall total at their end. *)

From stdpp Require Import base tactics numbers list strings gmap.
From S2P Require Import Prelude.
From S2P Require Import Soroban.
From S2P Require Import Token.
From S2P Require Import PaymentTypes.
From S2P Require Import PaymentStorage.
From S2P Require Import PaymentWorld.
From S2P Require Import PaymentSale.
From S2P Require Import PaymentQuote.
From S2P Require Import PaymentAdmin.
From S2P Require Import PaymentRefund.
From S2P Require Import PaymentEscrow.
From S2P Require Import PaymentResale.
From S2P Require Import Payments.
From S2P Require Import PaymentSample.
From S2P Require Import PaymentTickets.

(** What the overall total is above the sum of the totals per token. *)
Definition escrow (s : State) := (t_ActiveEscrowTotal s, t_ActiveEscrowByToken s).
Definition gap_of (e : option Z * gmap Address Z) : Z := default 0 e.1 - sum_map (fun x => x) e.2.
Definition gap (s : State) : Z := gap_of (escrow s).

Lemma escrow_gap s s' : keeps escrow s s' -> keeps gap s s'.
Proof. unfold keeps, gap. by intros ->. Qed.

Section Primitives.
Context (env : Env) (s : State).

Lemma add_total_gap a u s' :
  storage.add_to_active_escrow_total a env s = Done u s' -> gap s' = gap s + a.
Proof.
  unfold storage.add_to_active_escrow_total, storage.get_active_escrow_total. intros Hr. exec.
  unfold gap, gap_of. cbn. lia.
Qed.

Lemma subtract_total_gap a u s' :
  storage.subtract_from_active_escrow_total a env s = Done u s' -> gap s' = gap s - a.
Proof.
  unfold storage.subtract_from_active_escrow_total, storage.get_active_escrow_total. intros Hr. exec.
  unfold gap, gap_of. cbn. lia.
Qed.

Lemma by_token_gap token z :
  gap (s <| t_ActiveEscrowByToken := <[token := z]> (t_ActiveEscrowByToken s) |>)
  = gap s - (z - storage.get_active_escrow_by_token token s).
Proof.
  unfold gap, gap_of, storage.get_active_escrow_by_token. cbn.
  rewrite sum_map_insert. destruct (_ !! token); cbn; lia.
Qed.

Lemma add_token_gap token a u s' :
  storage.add_to_active_escrow_by_token token a env s = Done u s' -> gap s' = gap s - a.
Proof.
  unfold storage.add_to_active_escrow_by_token. intros Hr. exec. rewrite by_token_gap. lia.
Qed.

Lemma subtract_token_gap token a u s' :
  storage.subtract_from_active_escrow_by_token token a env s = Done u s' -> gap s' = gap s + a.
Proof.
  unfold storage.subtract_from_active_escrow_by_token. intros Hr. exec. rewrite by_token_gap. lia.
Qed.
End Primitives.

(** [gaps] turns the runs of the context into what they do to the gap. *)
Ltac gap1 :=
  match goal with
  | H : storage.add_to_active_escrow_total _ _ _ = Done _ _ |- _ => apply add_total_gap in H
  | H : storage.subtract_from_active_escrow_total _ _ _ = Done _ _ |- _ => apply subtract_total_gap in H
  | H : storage.add_to_active_escrow_by_token _ _ _ _ = Done _ _ |- _ => apply add_token_gap in H
  | H : storage.subtract_from_active_escrow_by_token _ _ _ _ = Done _ _ |- _ =>
      apply subtract_token_gap in H
  | H : context [gap (?f ?a ?s)] |- _ => change (gap (f a s)) with (gap s) in H
  | H : context [gap (?f ?a ?b ?s)] |- _ => change (gap (f a b s)) with (gap s) in H
  | H : context [gap (?f ?a ?b ?c ?s)] |- _ => change (gap (f a b c s)) with (gap s) in H
  | _ => same1 gap
  end.
Ltac gaps := repeat (gap1; cbn [w_store w_tokens w_others] in *).

Section Gaps.
Context {T W : Type} `{Token T} `{TokenAllowance T} `{Clients W}.
Variable sha256 : Bytes -> Bytes.
Implicit Types w : World T W.

(** Both totals move by the same amount. *)
Abbreviation level m := (respects (moves (keeps gap) anything anything) m).

Lemma collect_level eid buyer token total sp aff :
  level (collect (T := T) (W := W) eid buyer token total sp aff).
Proof.
  intros env w u w' Hr. split; [|done]. unfold collect in Hr. pay. gaps. unfold keeps. lia.
Qed.

Lemma refund_accounts_level p o a : level (refund_accounts (T := T) (W := W) p o a).
Proof.
  intros env w u w' Hr. split; [|done]. unfold refund_accounts, neg_i128 in Hr. pay. gaps. unfold keeps. lia.
Qed.

Lemma cascade_one_level e n id : level (cascade_one (T := T) (W := W) e n id).
Proof.
  intros env w u w' Hr. split; [|done]. unfold cascade_one, neg_i128 in Hr. pay.
  destruct (storage.get_payment _ _); pay; [|done]. destruct (bool_decide _); pay; [|done].
  gaps. unfold keeps. lia.
Qed.

Lemma withdraw_organizer_funds_level e token : level (withdraw_organizer_funds (T := T) (W := W) e token).
Proof.
  intros env w u w' Hr. split; [|done].
  unfold withdraw_organizer_funds, storage.get_event_registry, find_event in Hr. pay.
  repeat (case_match; pay); gaps; unfold keeps; cbn; lia.
Qed.

Lemma withdraw_platform_fees_level a token : level (withdraw_platform_fees (T := T) (W := W) a token).
Proof.
  intros env w u w' Hr. split; [|done]. unfold withdraw_platform_fees in Hr. pay. gaps. unfold keeps. lia.
Qed.

Lemma release_level a token :
  level (on_store (T := T) (W := W) (storage.subtract_from_active_escrow_total a);;
         on_store (storage.subtract_from_active_escrow_by_token token a)).
Proof. intros env w u w' Hr. split; [|done]. pay. gaps. unfold keeps. lia. Qed.

Lemma place_bid_level e t b k a : level (place_bid (T := T) (W := W) e t b k a).
Proof.
  intros env w u w' Hr. split; [|done]. unfold place_bid in Hr. pay. gaps.
  case_match; pay; gaps; unfold keeps; cbn in *; lia.
Qed.

(** The batches: what left the totals per token leaves the total at the end. *)
Definition batch_gap (g : Z) (acc : Batch) (w : World T W) : Prop :=
  gap (w_store w) = g + ba_refunded acc /\ 0 <= ba_count acc /\
  (ba_count acc = 0 -> ba_refunded acc = 0).

Lemma bulk_refund_one_gap g acc id env w acc' w' :
  bulk_refund_one (T := T) (W := W) acc id env w = Done acc' w' -> batch_gap g acc w -> batch_gap g acc' w'.
Proof.
  unfold bulk_refund_one, sub_balance, batch_gap. intros Hr Hg. pay.
  destruct (storage.get_payment _ _); pay; [|done]. destruct (bool_decide _); pay; [|done].
  gaps. cbn. lia.
Qed.

Lemma partial_refund_one_gap g pct acc id env w acc' w' :
  partial_refund_one (T := T) (W := W) pct acc id env w = Done acc' w' ->
  batch_gap g acc w -> batch_gap g acc' w'.
Proof.
  unfold partial_refund_one, batch_gap. intros Hr Hg. pay.
  destruct (storage.get_payment _ _); pay; [|done]. destruct (bool_decide _); pay; [|done].
  destruct (_ && _); pay; [|done]. gaps. cbn. lia.
Qed.

Lemma close_batch_gap g e acc env w u w' :
  close_batch (T := T) (W := W) e acc env w = Done u w' -> batch_gap g acc w -> gap (w_store w') = g.
Proof.
  unfold close_batch, batch_gap. intros Hr Hg. destruct (0 <? _) eqn:Hc; cbn [when] in Hr; pay; facts.
  - gaps. lia.
  - lia.
Qed.

Lemma trigger_bulk_refund_level e n : level (trigger_bulk_refund (T := T) (W := W) e n).
Proof.
  intros env w u w' Hr. split; [|done]. unfold trigger_bulk_refund in Hr. pay.
  destruct (_ <=? _); pay; gaps; [unfold keeps; congruence|].
  match goal with H : foldM _ _ _ _ ?w0 = Done _ _, H' : close_batch _ _ _ _ = _ |- _ =>
    eapply (foldM_inv (batch_gap (gap (w_store w0)))) in H;
    [eapply close_batch_gap in H'; [|exact H]| |split_and!; cbn; [lia|lia|done]] end.
  - unfold keeps. cbn in *. congruence.
  - intros. by eapply bulk_refund_one_gap.
Qed.

Lemma issue_partial_refund_level e pct n : level (issue_partial_refund (T := T) (W := W) e pct n).
Proof.
  intros env w u w' Hr. split; [|done]. unfold issue_partial_refund in Hr. pay.
  destruct (_ <=? _); pay; gaps; [unfold keeps; congruence|].
  match goal with H : foldM _ _ _ _ ?w0 = Done _ _, H' : close_batch _ _ _ _ = _ |- _ =>
    eapply (foldM_inv (batch_gap (gap (w_store w0)))) in H;
    [eapply close_batch_gap in H'; [|exact H]| |split_and!; cbn; [lia|lia|done]] end.
  - unfold keeps. cbn in *. congruence.
  - intros. by eapply partial_refund_one_gap.
Qed.

Ltac level1 :=
  lazymatch goal with
  | |- respects _ (collect _ _ _ _ _ _) => apply collect_level
  | |- respects _ (refund_accounts _ _ _) => apply refund_accounts_level
  | |- respects _ (cascade_one _ _ _) => apply cascade_one_level
  | |- respects _ (withdraw_organizer_funds _ _) => apply withdraw_organizer_funds_level
  | |- respects _ (withdraw_platform_fees _ _) => apply withdraw_platform_fees_level
  | |- respects _ (on_store (storage.subtract_from_active_escrow_total _) ≫= _) => apply release_level
  | |- respects _ (place_bid _ _ _ _ _) => apply place_bid_level
  | |- respects _ (trigger_bulk_refund _ _) => apply trigger_bulk_refund_level
  | |- respects _ (issue_partial_refund _ _ _) => apply issue_partial_refund_level
  | |- _ => pframe_step
  end.

Lemma gap_calls c : stores (T := T) (W := W) sha256 (keeps gap) c.
Proof.
  unfold stores. destruct c; cbn [run_pay]; repeat level1; apply escrow_gap; pwrites.
Qed.
End Gaps.

(** C16: In every reachable state the protocol-wide total of the active escrow is the
    sum of the totals per token. *)
Theorem escrow_totals_agree {T W} `{Token T} `{TokenAllowance T} `{Clients W} sha256 ok
    (w : World T W) :
  pays sha256 ok w ->
  storage.get_active_escrow_total (w_store w)
  = sum_map (fun x => x) (t_ActiveEscrowByToken (w_store w)).
Proof.
  intros Hw. enough (gap (w_store w) = 0) as Hg
    by (unfold gap, gap_of, storage.get_active_escrow_total in *; cbn in *; lia).
  revert Hw. apply (pays_inv sha256 (fun s => gap s = 0)); [done|].
  intros c env w1 w2 _ _ Hr Hg. destruct (gap_calls sha256 c env w1 tt w2 Hr) as [Hk _].
  unfold keeps in Hk. congruence.
Qed.

(** Two sales, a refund of one of them and an organizer that withdraws. *)
Lemma escrow_totals_agree_witness :
  let w := PaymentSample.play (PaymentSample.sold ++
    [ PaymentSample.buy "p2" "BOB";
      (PaymentSample.env 40 ["BOB"], RequestGuestRefund "p2");
      (PaymentSample.env 900000 ["ORG"], WithdrawOrganizerFunds "EV" "USDC") ]) in
  storage.get_active_escrow_total (w_store w) = 50 /\
  storage.get_active_escrow_total (w_store w)
  = sum_map (fun x => x) (t_ActiveEscrowByToken (w_store w)).
Proof.
  intros w. split; [vm_compute; reflexivity|].
  apply (escrow_totals_agree PaymentSample.sha256 (fun _ _ _ => True)).
  apply PaymentSample.play_pays; [done|vm_compute; reflexivity].
Defined.
