(* ===== verification/PaymentMoney.v ===== *)
(** * Ticket payment: the money of a sale and of a refund

    The balances that each of them moves, to the unit. *)

From stdpp Require Import base tactics numbers list strings gmap.
From S2P Require Import Prelude.
From S2P Require Import Soroban.
From S2P Require Import Token.
From S2P Require Import PaymentTypes.
From S2P Require Import PaymentStorage.
From S2P Require Import PaymentWorld.
From S2P Require Import PaymentSale.
From S2P Require Import PaymentQuote.
From S2P Require Import PaymentAdmin.
From S2P Require Import PaymentRefund.
From S2P Require Import PaymentEscrow.
From S2P Require Import PaymentResale.
From S2P Require Import Payments.
From S2P Require Import PaymentSample.
From S2P Require Import PaymentTickets.

(** The typed arguments of the calls: percentages, rates and counts are
    unsigned. *)
Definition typed {T W} (c : PayCall) (_ : Env) (_ : World T W) : Prop :=
  match c with
  | CreateDiscountCode _ _ percentage _ max_uses => 0 <= percentage /\ 0 <= max_uses
  | SetAffiliateRate _ _ rate_bps => 0 <= rate_bps
  | ProcessPayment _ _ _ _ _ _ _ quantity _ _ => 0 <= quantity
  | _ => True
  end.

(** ** Discount codes and commissions stay in their ranges *)
Definition code_ok (d : DiscountData) : Prop :=
  0 <= dd_percentage d <= 100 /\ 0 <= dd_current_uses d <= dd_max_uses d.
Definition codes_ok (s : State) : Prop := map_Forall (fun _ => code_ok) (t_DiscountCode s).
Definition affiliates_ok (s : State) : Prop :=
  map_Forall (fun _ r => 0 <= r <= MAX_BPS) (t_AffiliateRate s).

Section Codes.
Context {T W : Type} `{Token T} `{TokenAllowance T} `{Clients W}.
Variable sha256 : Bytes -> Bytes.
Implicit Types w : World T W.

Lemma apply_event_code_codes e o total :
  respects (moves (pres codes_ok) anything anything) (apply_event_code (T := T) (W := W) e o total).
Proof.
  intros env w v w' Hr. split; [|done]. unfold apply_event_code in Hr. case_match; pay; [|done]. facts.
  intros Hok. unfold codes_ok. cbn. apply map_Forall_insert_2; [|done].
  match goal with H : storage.get_discount_code _ _ _ = Some _ |- _ => apply Hok in H as [? ?] end.
  split; cbn; [done|lia].
Qed.

Lemma rates_frame c :
  match c with
  | CreateDiscountCode _ _ _ _ _ | ProcessPayment _ _ _ _ _ _ _ _ _ _ => True
  | _ => stores (T := T) (W := W) sha256 (keeps t_DiscountCode) c
  end.
Proof. untouched. Qed.

Lemma affiliates_frame c :
  match c with
  | SetAffiliateRate _ _ _ => True
  | _ => stores (T := T) (W := W) sha256 (keeps t_AffiliateRate) c
  end.
Proof. untouched. Qed.

Lemma codes_same s s' : keeps t_DiscountCode s s' -> pres codes_ok s s'.
Proof. unfold keeps, pres, codes_ok. by intros ->. Qed.

Ltac codes1 :=
  lazymatch goal with
  | |- respects _ (apply_event_code _ _ _) => apply apply_event_code_codes
  | |- _ => pframe_step
  end.

Lemma codes_ok_pays w : pays (T := T) (W := W) sha256 typed w -> codes_ok (w_store w).
Proof.
  apply pays_inv; [apply map_Forall_empty|]. intros c env w1 w2 _ Ht Hr.
  pose proof (rates_frame c) as Hf.
  destruct c; try (apply codes_same; by apply (Hf env w1 tt w2 Hr)); clear Hf; cbn [run_pay typed] in *.
  - unfold create_discount_code, require_admin in Hr. pay. facts. intros Hok.
    apply map_Forall_insert_2; [|done]. split; cbn; lia.
  - pose proof (ltac:(repeat codes1; apply codes_same; pwrites) :
      respects (moves (pres codes_ok) anything anything)
        (process_payment (T := T) (W := W) sha256 payment_id event_id tier_id buyer recipient token amount
           quantity options validation_hash)) as Hp.
    pay. match goal with H : process_payment _ _ _ _ _ _ _ _ _ _ _ _ _ = _ |- _ => by apply Hp in H as [? _] end.
Qed.

Lemma affiliates_ok_pays w : pays (T := T) (W := W) sha256 typed w -> affiliates_ok (w_store w).
Proof.
  apply pays_inv; [apply map_Forall_empty|]. intros c env w1 w2 _ Ht Hr.
  pose proof (affiliates_frame c) as Hf. unfold affiliates_ok.
  destruct c; try (apply Hf in Hr as [Hr _]; unfold keeps in Hr; by rewrite Hr); clear Hf; cbn [run_pay typed] in *.
  unfold set_affiliate_rate, require_initialized, find_event, storage.get_event_registry in Hr. pay. facts.
  intros Hok. by apply map_Forall_insert_2.
Qed.

Lemma rates_stored_pays w : pays (T := T) (W := W) sha256 typed w -> rates_stored (w_store w).
Proof.
  intros Hw. split.
  - intros e c d Hd. by apply (codes_ok_pays w Hw) in Hd as [? _].
  - intros e a r Hr. by apply (affiliates_ok_pays w Hw) in Hr.
Qed.
End Codes.

(** ** Sales *)
Definition books (s : State) :=
  (t_Balances s, t_TotalVolumeProcessed s, t_TotalFeesCollected s).

(** The commission of a referrer. *)
Definition commission (token self : Address) (affiliate : option Address) (reward : Z)
    (tk a : Address) : Z :=
  match affiliate with
  | Some referrer => if 0 <? reward then moved token self referrer reward tk a else 0
  | None => 0
  end.

(** What a sale books for the event and the platform. *)
Record booked (eid : string) (token : Address) (total : Z) (sp : Split) (s s' : State) : Prop := {
  bk_event : t_Balances s' = <[eid := mkEventBalance
      (eb_organizer_amount (storage.get_event_balance eid s) + sp_organizer sp)
      (eb_total_withdrawn (storage.get_event_balance eid s))
      (eb_platform_fee (storage.get_event_balance eid s) + sp_fee sp)]> (t_Balances s);
  bk_volume : storage.get_total_volume_processed s' = storage.get_total_volume_processed s + total;
  bk_fees : forall tk, storage.get_total_fees_collected_by_token tk s'
    = storage.get_total_fees_collected_by_token tk s + (if bool_decide (tk = token) then sp_fee sp else 0);
}.

Lemma booked_same eid token total sp s s' s0 s1 :
  booked eid token total sp s s' -> books s = books s0 -> books s1 = books s' ->
  booked eid token total sp s0 s1.
Proof.
  intros [H1 H2 H3] [= E1 E2 E3] [= E4 E5 E6].
  unfold storage.get_event_balance, storage.get_total_volume_processed,
    storage.get_total_fees_collected_by_token in *. split;
  unfold storage.get_event_balance, storage.get_total_volume_processed,
    storage.get_total_fees_collected_by_token in *;
  rewrite ?E4, ?E5, ?E6, <- ?E1, <- ?E2, <- ?E3; done.
Qed.

Lemma update_event_balance_Done e o f env s u s' :
  storage.update_event_balance e o f env s = Done u s' ->
  s' = storage.set_event_balance e (mkEventBalance
      (eb_organizer_amount (storage.get_event_balance e s) + o)
      (eb_total_withdrawn (storage.get_event_balance e s))
      (eb_platform_fee (storage.get_event_balance e s) + f)) s.
Proof. unfold storage.update_event_balance. intros Hr. exec. done. Qed.

Section Sales.
Context {T W : Type} `{TokenLaws T} `{TokenAllowance T} `{ClientRates W}.
Variable sha256 : Bytes -> Bytes.
Implicit Types w : World T W.

Lemma tokens_C {A} (m : C T W A) env w a w' :
  m env w = Done a w' -> respects (moves anything eq anything) m -> w_tokens w' = w_tokens w.
Proof. intros Hr Hm. by apply Hm in Hr as (_ & ? & _). Qed.

Lemma pay_commission token self aff reward env w u w' :
  (match aff with
   | Some referrer => when (0 <? reward) (token_call (transfer token self referrer reward))
   | None => mret tt
   end : C T W unit) env w = Done u w' ->
  (forall tk a, balance (w_tokens w') tk a
     = balance (w_tokens w) tk a + commission token self aff reward tk a) /\
  w_store w' = w_store w.
Proof.
  unfold commission. intros Hr. destruct aff as [f|]; pay; [|split; [intros; lia|done]].
  destruct (0 <? reward); cbn [when] in Hr; pay; [|split; [intros; lia|done]].
  match goal with H : transfer _ _ _ _ _ = Some _ |- _ => apply transfer_law in H as [_ Hb] end.
  by split.
Qed.

Lemma collect_money eid buyer token total sp aff env w u w' :
  collect (T := T) (W := W) eid buyer token total sp aff env w = Done u w' ->
  let self := current_contract_address env in
  (forall tk a, balance (w_tokens w') tk a = balance (w_tokens w) tk a
     + moved token buyer self (sp_charged sp) tk a + commission token self aff (sp_reward sp) tk a) /\
  booked eid token total sp (w_store w) (w_store w').
Proof.
  unfold collect. intros Hr. pay.
  match goal with H : transfer_from _ _ _ _ _ _ = Some _ |- _ => apply transfer_from_law in H as [Ha Hb] end.
  match goal with H : storage.update_event_balance _ _ _ _ _ = _ |- _ =>
    apply update_event_balance_Done in H; subst end.
  match goal with H : _ = Done _ _ |- _ => apply pay_commission in H as [Hc Es] end. rewrite Es in *.
  unfold storage.add_to_total_volume_processed, storage.add_to_total_fees_collected_by_token,
    storage.add_to_active_escrow_total, storage.add_to_active_escrow_by_token in *. exec. cbn [w_store w_tokens] in *.
  split; [intros tk a; rewrite Hc, Hb; lia|]. split; [done|done|]. intros tk.
  unfold storage.get_total_fees_collected_by_token. cbn. destruct (decide (tk = token)) as [->|Hne].
  - by rewrite lookup_insert_eq, bool_decide_true.
  - rewrite lookup_insert_ne, bool_decide_false by done. lia.
Qed.

(** [tokens] turns the runs of the context that leave the tokens alone into
    equations. *)
Ltac tokens1 :=
  match goal with
  | H : _ ?env _ = Done _ _ |- _ =>
      apply tokens_C in H; [|solve [pframe; pwrites]]; cbn [w_store w_tokens w_others] in H
  end.
Ltac tokens := repeat tokens1.

End Sales.


(** ** Refunds *)
Section Refunds.
Context {T W : Type} `{TokenLaws T} `{Clients W}.
Implicit Types w : World T W.

(** The rules under which the holder gets a refund. *)
Record refundable (p : Payment) (i : event_registry.EventInfo) (env : Env) w : Prop := {
  rf_signed : pay_buyer_address p ∈ auths env;
  rf_status : pay_status p <> Refunded /\ pay_status p <> Failed;
  rf_event : exists registry, t_EventRegistry (w_store w) = Some registry /\
    get_event registry (pay_event_id p) (w_others w) = Some i /\
    dispute_running (get_dispute registry (pay_event_id p) (w_others w)) = false;
  rf_tier : exists tier, event_registry.ei_tiers i !! pay_ticket_tier_id p = Some tier /\
    (event_registry.tt_is_refundable tier = true \/ is_cancelled i = true \/
     goal_failed i (timestamp env) = true \/ event_registry.ei_is_active i = false);
  rf_deadline : is_cancelled i = true \/ event_registry.ei_is_active i = false \/
    event_registry.ei_refund_deadline i <= 0 \/ timestamp env <= event_registry.ei_refund_deadline i;
}.

Lemma restocking_bounds i amount now :
  0 <= amount -> 0 <= restocking i amount now <= amount.
Proof. intros Ha. unfold restocking. repeat case_match; bools; lia. Qed.

(** [-x] on the way into an account. *)
Lemma refund_accounts_Done p o a env w u w' :
  refund_accounts (T := T) (W := W) p o a env w = Done u w' ->
  w_tokens w' = w_tokens w /\ w_others w' = w_others w /\
  t_Payment (w_store w') = t_Payment (w_store w) /\
  t_Balances (w_store w') = <[pay_event_id p := mkEventBalance
      (eb_organizer_amount (storage.get_event_balance (pay_event_id p) (w_store w)) - o)
      (eb_total_withdrawn (storage.get_event_balance (pay_event_id p) (w_store w)))
      (eb_platform_fee (storage.get_event_balance (pay_event_id p) (w_store w)) - pay_platform_fee p)]>
    (t_Balances (w_store w)).
Proof.
  unfold refund_accounts, neg_i128. intros Hr. pay.
  match goal with H : storage.update_event_balance _ _ _ _ _ = _ |- _ =>
    apply update_event_balance_Done in H; subst end.
  unfold storage.subtract_from_active_escrow_total, storage.subtract_from_active_escrow_by_token in *. exec.
  split_and!; [done..|]. cbn. by rewrite !Z.sub_0_l, !Z.add_opp_r.
Qed.

Lemma when_transfer token from to n env w u w' :
  when (0 <? n) (token_call (T := T) (W := W) (transfer token from to n)) env w = Done u w' ->
  (forall tk a, balance (w_tokens w') tk a
     = balance (w_tokens w) tk a + moved token from to (Z.max 0 n) tk a) /\
  w_store w' = w_store w /\ w_others w' = w_others w.
Proof.
  destruct (0 <? n) eqn:Hn; bools; cbn [when]; intros Hr; pay.
  - match goal with H : transfer _ _ _ _ _ = Some _ |- _ => apply transfer_law in H as [_ Hb] end.
    rewrite Z.max_r by lia. done.
  - split; [|done]. intros tk a. rewrite Z.max_l by lia. unfold moved. repeat case_match; lia.
Qed.

Lemma zero_update b e env w u w' :
  when b (on_store (T := T) (W := W) (storage.update_event_balance e 0 0)) env w = Done u w' ->
  is_Some (t_Balances (w_store w) !! e) ->
  w_tokens w' = w_tokens w /\ t_Balances (w_store w') = t_Balances (w_store w).
Proof.
  destruct b; cbn [when]; intros Hr [v Hv]; pay; [|done].
  match goal with H : storage.update_event_balance _ _ _ _ _ = _ |- _ =>
    apply update_event_balance_Done in H; subst end.
  split; [done|]. cbn. unfold storage.get_event_balance. rewrite Hv. cbn. rewrite !Z.add_0_r.
  apply insert_id. rewrite Hv. by destruct v.
Qed.

Lemma internal_refund_Done pid env w u w' :
  internal_refund (T := T) (W := W) pid env w = Done u w' ->
  exists p i, t_Payment (w_store w) !! pid = Some p /\ refundable p i env w /\
    let n := pay_amount p - restocking i (pay_amount p) (timestamp env) in
    (forall tk a, balance (w_tokens w') tk a = balance (w_tokens w) tk a
       + moved (pay_token_address p) (current_contract_address env) (pay_buyer_address p) (Z.max 0 n) tk a) /\
    t_Payment (w_store w') = <[pid := refunded (timestamp env) p]> (t_Payment (w_store w)) /\
    t_Balances (w_store w') = <[pay_event_id p := mkEventBalance
        (eb_organizer_amount (storage.get_event_balance (pay_event_id p) (w_store w))
         - (pay_organizer_amount p - restocking i (pay_amount p) (timestamp env)))
        (eb_total_withdrawn (storage.get_event_balance (pay_event_id p) (w_store w)))
        (eb_platform_fee (storage.get_event_balance (pay_event_id p) (w_store w)) - pay_platform_fee p)]>
      (t_Balances (w_store w)).
Proof.
  intros Hr. pose proof (internal_refund_tickets _ _ _ _ _ Hr) as (p0 & Hp0 & _ & _ & _ & He0).
  unfold internal_refund, find_payment, find_event, storage.get_event_registry, publish in Hr. pay.
  facts.
  match goal with H : storage.get_payment _ _ = Some ?p, H' : get_event _ _ _ = Some ?i |- _ =>
    exists p, i; assert (p0 = p) as -> by (unfold storage.get_payment in H; congruence);
    rename p into q, i into e end.
  match goal with H : mark_refunded _ _ _ _ _ = _ |- _ =>
    pose proof (tokens_C _ _ _ _ _ H ltac:(pframe; pwrites)) as Et; apply (same_C t_Balances) in H as Eb;
    [|pframe; pwrites] end.
  match goal with H : refund_accounts _ _ _ _ _ = _ |- _ => apply refund_accounts_Done in H as (Et2 & _ & _ & Eb2) end.
  match goal with H : when _ (token_call _) _ _ = _ |- _ => apply when_transfer in H as (Hm & Es & _) end.
  match goal with H : when _ (on_store (storage.update_event_balance _ 0 0)) _ _ = _ |- _ =>
    apply zero_update in H as [Et3 Eb3]; [|rewrite Eb2; apply lookup_insert_is_Some; auto] end.
  cbn [w_tokens w_store] in *. split; [done|]. split; [|split; [|split]].
  - split; [done|done| | |].
    + simplify_eq. eauto.
    + eexists. split; [done|]. destruct (event_registry.tt_is_refundable _), (is_cancelled e),
        (goal_failed e _), (event_registry.ei_is_active e); tauto || naive_solver.
    + destruct (is_cancelled e); [auto|]. destruct (event_registry.ei_is_active e); [|auto]. right. right.
      destruct (Z.ltb_spec 0 (event_registry.ei_refund_deadline e)); [right|by left].
      match goal with H : _ \/ (_ <? timestamp _) = false |- _ => destruct H as [H|H]; cbn in H; bools; lia end.
  - intros tk b. rewrite Et3, Et2, Hm, Et. done.
  - done.
  - upd_simpl. rewrite Eb3, Eb2. unfold storage.get_event_balance. by rewrite Es, Eb.
Qed.

End Refunds.

