(* ===== verification/PaymentTrade.v ===== *)
(** * Ticket payment: resale, auctions and withdrawals

    A resale passes the price on to seller and organizer to the unit, a bid
    replaces the one before it and repays it, and the withdrawals of organizer and
    platform stay within what was released and collected. *)

From stdpp Require Import base tactics numbers list strings gmap.
From S2P Require Import Prelude.
From S2P Require Import Soroban.
From S2P Require Import Token.
From S2P Require Import PaymentTypes.
From S2P Require Import PaymentStorage.
From S2P Require Import PaymentWorld.
From S2P Require Import PaymentSale.
From S2P Require Import PaymentQuote.
From S2P Require Import PaymentAdmin.
From S2P Require Import PaymentRefund.
From S2P Require Import PaymentEscrow.
From S2P Require Import PaymentResale.
From S2P Require Import Payments.
From S2P Require Import PaymentSample.
From S2P Require Import PaymentTickets.
From S2P Require Import PaymentMoney.

(** ** Resale *)

(** Asking prices are positive and royalties at most half. *)
Definition resale_ok (s : State) : Prop :=
  map_Forall (fun _ l => 0 < rl_ask_price l) (t_ResaleListing s) /\
  map_Forall (fun _ r => 0 <= r <= storage.MAX_RESALE_ROYALTY_BPS) (t_ResaleRoyaltyBps s).

Definition shop (s : State) := (t_ResaleListing s, t_ResaleRoyaltyBps s).

Lemma resale_ok_same s s' : shop s' = shop s -> resale_ok s -> resale_ok s'.
Proof. unfold resale_ok, shop. by intros [= -> ->]. Qed.

Lemma resale_ok_store l s s0 s' :
  0 < rl_ask_price l -> resale_ok s0 -> shop s = shop s0 ->
  shop s' = shop (storage.store_resale_listing l s) -> resale_ok s'.
Proof.
  intros Hl [H1 H2] E E'. apply (resale_ok_same _ _ E'). injection E as E1 E2.
  split; cbn; [rewrite E1; by apply map_Forall_insert_2|by rewrite E2].
Qed.

Lemma resale_ok_ask l s s0 pid :
  resale_ok s0 -> shop s = shop s0 -> storage.get_resale_listing pid s = Some l -> 0 < rl_ask_price l.
Proof. intros [H1 _] [= E1 _] Hl. unfold storage.get_resale_listing in Hl. rewrite E1 in Hl. by eapply H1. Qed.

Definition unsigned_royalty {T W} (c : PayCall) (_ : Env) (_ : World T W) : Prop :=
  match c with SetResaleRoyaltyBps _ bps => 0 <= bps | _ => True end.

Lemma bought_shop pid p a s :
  shop (storage.put_payment pid p (storage.remove_payment_from_buyer_index a pid s)) = shop s.
Proof. unfold storage.remove_payment_from_buyer_index. by case_match. Qed.

Lemma bought_listing pid p a s :
  t_ResaleListing (storage.put_payment pid p (storage.remove_payment_from_buyer_index a pid s))
  = t_ResaleListing s.
Proof. exact (f_equal fst (bought_shop pid p a s)). Qed.

Section Resale.
Context {T W : Type} `{TokenLaws T} `{TokenAllowance T} `{Clients W}.
Variable sha256 : Bytes -> Bytes.
Implicit Types w : World T W.

Lemma resale_frame c :
  match c with
  | ListForResale _ _ | CancelResaleListing _ | PurchaseResaleTicket _ _ _ | SetResaleRoyaltyBps _ _ => True
  | _ => stores (T := T) (W := W) sha256 (keeps shop) c
  end.
Proof. untouched. Qed.

Lemma resale_ok_pays w : pays (T := T) (W := W) sha256 unsigned_royalty w -> resale_ok (w_store w).
Proof.
  apply pays_inv; [split; apply map_Forall_empty|]. intros c env w1 w2 _ Ht Hr Hok.
  pose proof (resale_frame c) as Hf.
  destruct c; try (apply Hf in Hr as [Hr _]; by eapply resale_ok_same); clear Hf; cbn [run_pay unsigned_royalty] in *.
  - unfold set_resale_royalty_bps, require_admin, storage.set_resale_royalty_bps in Hr. pay. facts.
    split; [apply Hok|]. cbn. apply map_Forall_insert_2; [done|apply Hok].
  - unfold list_for_resale in Hr. pay. facts. same shop.
    eapply resale_ok_store; [|exact Hok| |done]; [done|congruence].
  - unfold cancel_resale_listing, find_listing in Hr. pay. facts. same shop.
    eapply resale_ok_store; [|exact Hok| |done]; [|congruence].
    cbn. eapply (resale_ok_ask _ _ (w_store w1)); [done| |done]. congruence.
  - unfold purchase_resale_ticket, find_listing in Hr. pay. facts. same shop.
    eapply resale_ok_store; [|exact Hok| |done].
    + cbn. eapply (resale_ok_ask _ _ (w_store w1)); [done| |done]. congruence.
    + etrans; [eassumption|]. etrans; [apply bought_shop|]. congruence.
Qed.

(** Who gets a royalty: the organizer, or the seller of an unknown event. *)
Definition royalty_payee w (l : ResaleListing) (royalty : Z) (payee : Address) : Prop :=
  0 < royalty -> exists registry, t_EventRegistry (w_store w) = Some registry /\
    payee = match get_event registry (rl_event_id l) (w_others w) with
            | Some i => event_registry.ei_organizer_address i
            | None => rl_seller l
            end.

Lemma royalty_range e s :
  map_Forall (fun _ r => 0 <= r <= storage.MAX_RESALE_ROYALTY_BPS) (t_ResaleRoyaltyBps s) ->
  0 <= storage.get_resale_royalty_bps e s <= storage.MAX_RESALE_ROYALTY_BPS.
Proof.
  intros Hr. unfold storage.get_resale_royalty_bps.
  destruct (t_ResaleRoyaltyBps s !! e) as [r|] eqn:He; cbn; [by apply (Hr e)|].
  unfold storage.MAX_RESALE_ROYALTY_BPS, storage.DEFAULT_RESALE_ROYALTY_BPS. lia.
Qed.

Lemma royalty_Done ask bps env w r w' :
  0 <= ask -> 0 <= bps ->
  (if 0 <? bps then ok_or (mul_div ask bps MAX_BPS) ArithmeticError else mret 0 : C T W Z) env w = Done r w' ->
  r = ask * bps / MAX_BPS /\ w' = w.
Proof.
  intros Ha Hb Hr. destruct (0 <? bps) eqn:Hn; pay; bools.
  - split; [|done]. by apply mul_div_Some.
  - replace bps with 0 by lia. by rewrite Z.mul_0_r.
Qed.

Lemma pay_royalty token self l royalty env w u w' :
  0 <= royalty ->
  when (0 <? royalty)
    (registry ← on_store storage.get_event_registry;
     e ← query (get_event registry (rl_event_id l));
     token_call (T := T) (W := W) (transfer token self
       (match e with
        | Some event_info => event_registry.ei_organizer_address event_info
        | None => rl_seller l
        end) royalty)) env w = Done u w' ->
  exists payee, royalty_payee w l royalty payee /\ w_store w' = w_store w /\
    forall tk a, balance (w_tokens w') tk a = balance (w_tokens w) tk a + moved token self payee royalty tk a.
Proof.
  intros H0' Hr. destruct (0 <? royalty) eqn:Hn; bools; cbn [when] in Hr; unfold storage.get_event_registry in *; pay.
  - match goal with H : transfer _ _ ?p _ _ = Some _ |- _ => exists p; apply transfer_law in H as [_ Hb] end.
    split; [intros _; eauto|]. by split.
  - exists self. split; [unfold royalty_payee; lia|]. split; [done|]. intros tk a.
    replace royalty with 0 by lia. unfold moved. repeat case_match; lia.
Qed.

(** A payment that passes through the contract. *)
Lemma moved_through token a b c d x y tk z :
  moved token a b (x + y) tk z + moved token b c x tk z + moved token b d y tk z
  = moved token a c x tk z + moved token a d y tk z.
Proof. unfold moved. repeat case_bool_decide; naive_solver lia. Qed.

(** The purchase of a listed ticket passes the asking price on to the unit.  In
    every reachable state, when it succeeds, the listing was active and the buyer,
    who signed, is not the seller and pays at most the given price; the seller gets
    the price less the royalty and the organizer the royalty, at most half of the
    price; the contract keeps nothing of it and no other balance changes; only this
    ticket changes hands, and the listing is used up. *)
Theorem resale_conserves pid buyer max env w u w' :
  pays (T := T) (W := W) sha256 unsigned_royalty w ->
  purchase_resale_ticket pid buyer max env w = Done u w' ->
  exists l p token payee, let ask := rl_ask_price l in
    let royalty := ask * storage.get_resale_royalty_bps (rl_event_id l) (w_store w) / MAX_BPS in
    t_ResaleListing (w_store w) !! pid = Some l /\ rl_status l = ResaleStatus.Active /\
    buyer ∈ auths env /\ buyer <> rl_seller l /\ ask <= max /\
    t_UsdcToken (w_store w) = Some token /\ royalty_payee w l royalty payee /\
    0 <= royalty /\ 2 * royalty <= ask /\
    (forall tk a, balance (w_tokens w') tk a = balance (w_tokens w) tk a
       + moved token buyer (rl_seller l) (ask - royalty) tk a + moved token buyer payee royalty tk a) /\
    t_Payment (w_store w) !! pid = Some p /\
    t_Payment (w_store w') = <[pid := held_by buyer p]> (t_Payment (w_store w)) /\
    t_ResaleListing (w_store w')
    = <[rl_payment_id l := l <| rl_status := ResaleStatus.Completed |>]> (t_ResaleListing (w_store w)).
Proof.
  intros Hw Hr. pose proof (resale_ok_pays _ Hw) as [Hask Hroy].
  pose proof (resale_tickets _ _ _ _ _ _ _ Hr) as (p & l & Hp & Hau & Hl & Hst & Hmax & He).
  unfold purchase_resale_ticket, require_initialized, require_running, find_payment, find_listing,
    storage.get_usdc_token in Hr. pay. facts.
  match goal with H : storage.get_resale_listing _ _ = Some ?l' |- _ =>
    assert (l' = l) as -> by (unfold storage.get_resale_listing in H; congruence) end.
  pose proof (Hask _ _ Hl) as Ha. cbn beta in Ha.
  pose proof (royalty_range (rl_event_id l) (w_store w) Hroy) as Hb.
  match goal with H : (if _ then _ else _) _ _ = Done _ _ |- _ => apply royalty_Done in H as [-> ->]; [|lia..] end.
  set (royalty := rl_ask_price l * _ / MAX_BPS) in *.
  assert (0 <= royalty /\ 2 * royalty <= rl_ask_price l) as [Hr0 Hr2].
  { subst royalty. unfold MAX_BPS, storage.MAX_RESALE_ROYALTY_BPS in *.
    pose proof (Z.mul_div_le (rl_ask_price l * storage.get_resale_royalty_bps (rl_event_id l) (w_store w)) 10000).
    split; [apply Z.div_pos; nia|nia]. }
  match goal with H : transfer_from ?t _ _ _ _ _ = Some _ |- _ =>
    apply transfer_from_law in H as [_ Hm1]; rename t into usdc; exists l, p, usdc end.
  match goal with H : when _ (token_call _) _ _ = _ |- _ => apply when_transfer in H as (Hm2 & Es2 & Eo2) end.
  match goal with H : when _ (on_store storage.get_event_registry ≫= _) _ ?s = _ |- _ =>
    apply pay_royalty in H as (payee & Hpay & Es3 & Hm3); [|done] end.
  cbn [w_store w_tokens w_others] in *. exists payee. cbv zeta. fold royalty.
  split_and!; try done.
  - unfold royalty_payee in *. by rewrite <- Es2, <- Eo2.
  - intros tk b. rewrite Hm3, Hm2, Hm1, Z.max_r by lia.
    pose proof (moved_through usdc buyer (current_contract_address env) (rl_seller l) payee
      (rl_ask_price l - royalty) royalty tk b) as Hmt.
    rewrite Z.sub_add in Hmt. lia.
  - same t_ResaleListing. rewrite bought_listing in *. etrans; [exact Hr|]. cbn. congruence.
Qed.
End Resale.

(** Bob buys Ann's listed ticket for 2000, of which the organizer gets 100. *)
Lemma resale_conserves_witness :
  let w := PaymentSample.play (PaymentSample.sold ++
    [ (PaymentSample.env 40 ["ANN"], ListForResale "p1" 2000) ]) in
  exists w', purchase_resale_ticket "p1" "BOB" 2500 (PaymentSample.env 50 ["BOB"]) w = Done tt w' /\
    balance (w_tokens w') "USDC" "ANN" = balance (w_tokens w) "USDC" "ANN" + 1900 /\
    balance (w_tokens w') "USDC" "ORG" = balance (w_tokens w) "USDC" "ORG" + 100 /\
    exists l, t_ResaleListing (w_store w) !! "p1" = Some l /\ rl_status l = ResaleStatus.Active.
Proof.
  intros w.
  set (w' := default w (PaymentSample.play_from w
    [(PaymentSample.env 50 ["BOB"], PurchaseResaleTicket "p1" "BOB" 2500)])).
  assert (Hr : purchase_resale_ticket "p1" "BOB" 2500 (PaymentSample.env 50 ["BOB"]) w = Done tt w')
    by (vm_compute; reflexivity).
  exists w'. split; [exact Hr|]. split; [vm_compute; reflexivity|]. split; [vm_compute; reflexivity|].
  destruct (resale_conserves PaymentSample.sha256 "p1" "BOB" 2500 (PaymentSample.env 50 ["BOB"]) w tt w')
    as (l & p & token & payee & Hl & Hst & _); [|exact Hr|].
  - apply PaymentSample.play_Forall; [repeat constructor|vm_compute; reflexivity].
  - exists l. split; [exact Hl|exact Hst].
Defined.

(** ** Auctions *)
Section Bids.
Context {T W : Type} `{TokenLaws T} `{TokenAllowance T} `{Clients W}.
Implicit Types w : World T W.

(** A bid is accepted only while the auction runs, signed by the bidder and at least
    an increment above the highest bid (or at the start price); it moves the amount
    from the bidder into the contract, pays the previous bid back to its bidder in
    full and in its own token, and is the highest bid afterwards.  No other balance
    and no other auction changes. *)
Theorem place_bid_outbids eid tid bidder token amount env w u w' :
  place_bid (T := T) (W := W) eid tid bidder token amount env w = Done u w' ->
  let self := current_contract_address env in
  let previous := t_HighestBid (w_store w) !! (eid, tid) in
  bidder ∈ auths env /\ storage.is_token_whitelisted token (w_store w) = true /\
  (exists registry i tier config rest, t_EventRegistry (w_store w) = Some registry /\
    get_event registry eid (w_others w) = Some i /\
    event_registry.ei_is_active i = true /\ is_cancelled i = false /\
    event_registry.ei_tiers i !! tid = Some tier /\
    event_registry.tt_auction_config tier = config :: rest /\
    timestamp env <= event_registry.ac_end_time config /\
    from_option (fun b => hb_amount b + event_registry.ac_min_increment config)
      (event_registry.ac_start_price config) previous <= amount) /\
  (forall tk a, balance (w_tokens w') tk a = balance (w_tokens w) tk a
     + moved token bidder self amount tk a
     + from_option (fun b => moved (hb_token_address b) self (hb_bidder b) (hb_amount b) tk a) 0 previous) /\
  t_HighestBid (w_store w')
  = <[(eid, tid) := mkHighestBid bidder token amount]> (t_HighestBid (w_store w)).
Proof.
  intros Hr self previous. unfold place_bid, require_initialized, require_running, find_active_event,
    find_auction, find_event, storage.get_event_registry in Hr. pay. facts.
  destruct (event_registry.tt_auction_config _) as [|config rest] eqn:Hcfg; pay.
  match goal with H : transfer_from _ _ _ _ _ _ = Some _ |- _ => apply transfer_from_law in H as [_ Hm] end.
  subst previous self. unfold storage.get_highest_bid in *. cbn [w_store] in *.
  destruct (t_HighestBid (w_store w) !! (eid, tid)) as [prev|] eqn:Hprev; pay; same t_HighestBid.
  all: split_and!; [done|done|eexists _, _, _, _, _; by split_and!| |].
  all: try (etrans; [exact Hr|]; cbn; congruence).
  all: cbn [from_option]; intros tk b.
  - match goal with H : transfer _ _ _ _ _ = Some _ |- _ => apply transfer_law in H as [_ Hm2] end.
    rewrite Hm2, Hm. cbn in *. lia.
  - rewrite Hm. cbn in *. lia.
Qed.
End Bids.

(** Bob outbids Ann, who gets her bid back. *)
Lemma place_bid_outbids_witness :
  let w := PaymentSample.play (PaymentSample.setup ++
    [ (PaymentSample.env 20 ["ANN"], PlaceBid "EV" "GA" "ANN" "USDC" 600) ]) in
  exists w', place_bid "EV" "GA" "BOB" "USDC" 700 (PaymentSample.env 30 ["BOB"]) w = Done tt w' /\
    balance (w_tokens w) "USDC" "ANN" = 99400 /\ balance (w_tokens w') "USDC" "ANN" = 100000 /\
    t_HighestBid (w_store w')
    = <[("EV", "GA") := mkHighestBid "BOB" "USDC" 700]> (t_HighestBid (w_store w)).
Proof.
  intros w.
  set (w' := default w (PaymentSample.play_from w
    [(PaymentSample.env 30 ["BOB"], PlaceBid "EV" "GA" "BOB" "USDC" 700)])).
  assert (Hr : place_bid "EV" "GA" "BOB" "USDC" 700 (PaymentSample.env 30 ["BOB"]) w = Done tt w')
    by (vm_compute; reflexivity).
  exists w'. split; [exact Hr|]. split; [vm_compute; reflexivity|]. split; [vm_compute; reflexivity|].
  destruct (place_bid_outbids "EV" "GA" "BOB" "USDC" 700 (PaymentSample.env 30 ["BOB"]) w tt w' Hr)
    as (_ & _ & _ & _ & H). exact H.
Defined.

(** ** Withdrawals *)
Section Withdrawals.
Context {T W : Type} `{TokenLaws T} `{Clients W}.
Implicit Types w : World T W.

Lemma escrow_delay_Done end_time now env w u w' :
  (if 0 <? end_time then
     release ← add_ U64 end_time ESCROW_DELAY; throw_if (now <? release) EventNotCompleted
   else mret tt : C T W unit) env w = Done u w' ->
  w' = w /\ (0 < end_time -> end_time + ESCROW_DELAY <= now).
Proof. intros Hr. destruct (0 <? end_time) eqn:He; pay; facts; (split; [done|lia]). Qed.


(** The platform withdraws at most what it collected, and at most the cap of a day.
    A withdrawal is signed by the administrator; it moves exactly the amount to the
    platform wallet, lowers the collected fees of the token by it and leaves them
    not negative, and when the token has a cap, the amounts of the day, this one
    included, stay within it. *)
Theorem platform_withdrawal_capped amount token env w w' :
  withdraw_platform_fees (T := T) (W := W) amount token env w = Done tt w' ->
  (exists admin, t_Admin (w_store w) = Some admin /\ admin ∈ auths env) /\
  0 < amount <= storage.get_total_fees_collected_by_token token (w_store w) /\
  storage.get_total_fees_collected_by_token token (w_store w')
    = storage.get_total_fees_collected_by_token token (w_store w) - amount /\
  (exists wallet, t_PlatformWallet (w_store w) = Some wallet /\
    forall tk a, balance (w_tokens w') tk a = balance (w_tokens w) tk a
      + moved token (current_contract_address env) wallet amount tk a) /\
  (0 < storage.get_withdrawal_cap token (w_store w) ->
   let day := timestamp env / 86400 in
   storage.get_daily_withdrawn_amount token day (w_store w')
     = storage.get_daily_withdrawn_amount token day (w_store w) + amount /\
   storage.get_daily_withdrawn_amount token day (w_store w') <= storage.get_withdrawal_cap token (w_store w)).
Proof.
  unfold withdraw_platform_fees, require_admin, storage.get_platform_wallet. intros Hr. pay. facts.
  unfold storage.subtract_from_total_fees_collected_by_token, storage.subtract_from_active_escrow_total,
    storage.subtract_from_active_escrow_by_token, storage.add_to_daily_withdrawn_amount in *.
  destruct (0 <? _) eqn:Hcap; pay; facts;
    match goal with H : transfer _ _ _ _ _ = Some _ |- _ => apply transfer_law in H as [_ Hm] end;
    cbn [w_store w_tokens] in *;
    (split_and!; [eauto|done|done| |eexists; split; [done|exact Hm]|]);
    unfold storage.get_total_fees_collected_by_token, storage.get_daily_withdrawn_amount,
      storage.get_withdrawal_cap in *; cbn; rewrite ?lookup_insert_eq; cbn; try done; try lia.
Qed.
End Withdrawals.

(** The sample: the organizer withdraws 950 of a sale of 1000 after the event, the
    platform the fee of 50. *)
Definition completed : list (Env * PayCall) :=
  PaymentSample.sold ++ [ (PaymentSample.env 40 ["ADM"], SetWithdrawalCap "USDC" 60) ].


Lemma platform_withdrawal_capped_witness :
  let w := PaymentSample.play completed in
  exists w', withdraw_platform_fees 50 "USDC" (PaymentSample.env 900000 ["ADM"]) w = Done tt w' /\
    storage.get_total_fees_collected_by_token "USDC" (w_store w) = 50 /\
    storage.get_total_fees_collected_by_token "USDC" (w_store w')
    = storage.get_total_fees_collected_by_token "USDC" (w_store w) - 50.
Proof.
  intros w. set (w' := default w (PaymentSample.play_from w
    [(PaymentSample.env 900000 ["ADM"], WithdrawPlatformFees 50 "USDC")])).
  assert (Hr : withdraw_platform_fees 50 "USDC" (PaymentSample.env 900000 ["ADM"]) w = Done tt w')
    by (vm_compute; reflexivity).
  exists w'. split; [exact Hr|]. split; [vm_compute; reflexivity|].
  destruct (platform_withdrawal_capped 50 "USDC" (PaymentSample.env 900000 ["ADM"]) w w' Hr)
    as (_ & _ & H & _). exact H.
Defined.
