(* ===== verification/PaymentFindings.v ===== *)
(** * Ticket payment: unintended behaviour, on concrete runs

    Runs of the payment contract, evaluated, in which it does what its comments
    and its other checks say it should not.  Every run starts from the empty
    storage and uses the entry points only. *)

From stdpp Require Import base tactics numbers list strings gmap.
From S2P Require Import Prelude.
From S2P Require Import Soroban.
From S2P Require Import Token.
From S2P Require Import PaymentTypes.
From S2P Require Import PaymentStorage.
From S2P Require Import PaymentWorld.
From S2P Require Import PaymentSale.
From S2P Require Import PaymentResale.
From S2P Require Import Payments.
From S2P Require Import PaymentSample.
Import PaymentSample.

Module PaymentFindings.
(** The ticket and its holder after a run, and what an account holds. *)
Definition ticket (id : string) (w : World Ledger Others) : option (PaymentStatus * Address) :=
  p ← t_Payment (w_store w) !! id; Some (pay_status p, pay_buyer_address p).
Definition holds (token : Address) (w : World Ledger Others) (a : Address) : Z :=
  balance (w_tokens w) token a.

Definition buy_two (id : string) (who : Address) (secret : Bytes) : Env * PayCall :=
  (env 20 [who],
   ProcessPayment id "EV" "GA" who None "USDC" 1000 2 no_options (sha256 secret)).

(** The tickets of an order of several get the fixed names p-0, p-1 and so on:
    Bob's order of two replaces both tickets of Ann, who paid for them. *)
Example second_order_takes_tickets :
  let w := play (setup ++ [buy_two "a" "ANN" "x"; buy_two "b" "BOB" "y"]) in
  ticket "p-0" w = Some (Pending, "BOB") /\ ticket "p-1" w = Some (Pending, "BOB") /\
  size (t_Payment (w_store w)) = 2%nat /\
  holds "USDC" w "ANN" = 98000 /\ holds "USDC" w "PAY" = 4000.
Proof. vm_compute. done. Qed.

(** The same run with the events of the registry replaced in between. *)
Definition with_events (es : gmap string event_registry.EventInfo) (w : World Ledger Others)
    : World Ledger Others :=
  mkWorld (w_store w) (w_tokens w)
    (mkOthers es (o_disputes (w_others w)) (o_promo (w_others w)) (o_price (w_others w))
       (o_sold (w_others w))).
Definition ended (id : string) (organizer : Address) : event_registry.EventInfo :=
  event_registry.mkEventInfo id "Concert" organizer organizer 500 false event_registry.Inactive 1
    "cid" 100 0 None {[ "GA" := tier ]} 0 0 None 0 0 true None None None 0 0 [] true 0.
Definition open (id : string) (organizer : Address) : event_registry.EventInfo :=
  event_registry.mkEventInfo id "Concert" organizer organizer 500 true event_registry.Active 1
    "cid" 100 0 None {[ "GA" := tier ]} 0 0 None 0 0 true None None None 0 0 [] true 0.
Definition buy_of (event id : string) (who : Address) : Env * PayCall :=
  (env 20 [who], ProcessPayment id event "GA" who None "USDC" 1000 1 no_options (sha256 "s3cret")).
Definition two_events : World Ledger Others :=
  default start
    (play_from (with_events {[ "EV" := open "EV" "ORG"; "EV2" := open "EV2" "EVE" ]} start)
       (setup ++ [buy_of "EV" "p1" "ANN"; buy_of "EV" "p2" "ANN"; buy_of "EV2" "q" "BOB"])).

(** An organizer whose balance is below the dust threshold of 10000 units claims
    the whole balance of the contract but for its own fee, the revenue of the
    other events included. *)
Example dust_sweep_takes_other_revenue :
  let w := with_events {[ "EV" := open "EV" "ORG"; "EV2" := ended "EV2" "EVE" ]} two_events in
  eb_organizer_amount (storage.get_event_balance "EV" (w_store w)) = 1900 /\
  eb_organizer_amount (storage.get_event_balance "EV2" (w_store w)) = 950 /\
  (w' ← play_from w [(env 50 ["EVE"], ClaimRevenue "EV2" "USDC")];
   Some (holds "USDC" w' "EVE", holds "USDC" w' "PAY")) = Some (2950, 50).
Proof. vm_compute. done. Qed.

(** A refunded ticket that is confirmed again can be refunded again. *)
Example refund_revived :
  let w := play (sold ++ [ buy "p2" "BOB";
    (env 40 ["ANN"], RequestGuestRefund "p1"); (env 41 ["ADM"], ConfirmPayment "p1" "tx");
    (env 42 ["ANN"], RequestGuestRefund "p1") ]) in
  ticket "p1" w = Some (Refunded, "ANN") /\
  holds "USDC" w "ANN" = 101000 /\ holds "USDC" w "PAY" = 0 /\ ticket "p2" w = Some (Pending, "BOB").
Proof. vm_compute. done. Qed.

(** A ticket bought at half price is refunded at the full price. *)
Example discount_refunded_in_full :
  let code := (sha256 "HALF") in
  let w := play (setup ++ [ buy "p2" "BOB"; (env 15 ["ORG"], AddDiscountHashes "EV" [code]);
    (env 20 ["ANN"], ProcessPayment "p1" "EV" "GA" "ANN" None "USDC" 1000 1
        (mkPurchaseOptions (Some "HALF") None None None) (sha256 "s")) ]) in
  (w' ← play_from w [(env 40 ["ANN"], RequestGuestRefund "p1")];
   Some (holds "USDC" w "ANN", holds "USDC" w' "ANN")) = Some (99100, 100100).
Proof. vm_compute. done. Qed.

(** A listing survives the transfer of the ticket: Ann gives the ticket to Bob and
    is still paid when Eve buys it through the old listing. *)
Example stale_listing_sells_gift :
  let w := play (sold ++ [ (env 40 ["ANN"], ListForResale "p1" 700);
    (env 41 ["ANN"], TransferTicket "p1" "CAT" None);
    (env 42 ["BOB"], PurchaseResaleTicket "p1" "BOB" 700) ]) in
  ticket "p1" w = Some (Confirmed, "BOB") /\ holds "USDC" w "CAT" = 0 /\
  holds "USDC" w "BOB" = 99300 /\ holds "USDC" w "ANN" = 99655.
Proof. vm_compute. done. Qed.

(** A refunded ticket opens the door. *)
Example refunded_ticket_admitted :
  let w := play (sold ++ [ (env 40 ["ANN"], RequestGuestRefund "p1");
    (env 50 ["ORG"], CheckIn "p1" "ORG" None None "s3cret") ]) in
  ticket "p1" w = Some (CheckedIn, "ANN") /\ holds "USDC" w "ANN" = 100000.
Proof. vm_compute. done. Qed.
End PaymentFindings.
