(* ===== verification/Platform.v ===== *)
(** * The platform: the contracts together

    The payment contract over the models of the registry and of the subscription
    contract.  [chain_clients] implements the interface [Clients] by the entry
    points of the two contracts, [chain_seats] discharges what the payment contract
    relies on, and in the other direction the registry's question about a ticket
    is answered by the payment contract.  A history of the platform interleaves
    calls of all of them.

    What the client of the payment contract makes of a record of the registry is
    the work of the SDK: [decode_event] and [decode_dispute] are parameters, and so
    is whether the host accepts the call of [decrement_inventory], which the
    interface of the payment contract declares with one argument more than the
    registry has ([extra_argument]). *)

From stdpp Require Import base tactics numbers list strings gmap.
From S2P Require Import Prelude.
From S2P Require Import Soroban.
From S2P Require Import Token.
From S2P Require Import RegistryTypes.
From S2P Require Import RegistryStorage.
From S2P Require Import RegistryEvents.
From S2P Require Import RegistryInventory.
From S2P Require Import RegistryAdmin.
From S2P Require Import RegistryLifecycle.
From S2P Require Import RegistryGovernance.
From S2P Require Import RegistryStaking.
From S2P Require Import RegistryDispute.
From S2P Require Import RegistryCommunity.
From S2P Require Import Registry.
From S2P Require Import RegistryHistory.
From S2P Require Import RegistrySeats.
From S2P Require Import ProSubscription.
From S2P Require Import PaymentTypes.
From S2P Require Import PaymentStorage.
From S2P Require Import PaymentWorld.
From S2P Require Import PaymentSale.
From S2P Require Import PaymentQuote.
From S2P Require Import PaymentAdmin.
From S2P Require Import PaymentRefund.
From S2P Require Import PaymentEscrow.
From S2P Require Import PaymentResale.
From S2P Require Import Payments.
From S2P Require Import PaymentTickets.
From S2P Require Import PaymentSeats.

(** ** The other contracts *)

Class Deployment := {
  registry_at : Address;
  subscription_at : Address;
  payment_at : Address;
  decode_event : RegistryTypes.EventInfo -> option event_registry.EventInfo;
  decode_dispute : RegistryTypes.Dispute -> option event_registry.Dispute;
  extra_argument : bool;
}.

Record Chain := mkChain {
  ch_registry : RegistryStorage.State;
  ch_subscription : ProSubscription.State;
  ch_feed : gmap (Address * Address) price_oracle.PriceData;
}.

(** The environment of a call that one contract makes to another: the caller
    authorises it, and the signatures of the transaction reach it. *)
Definition callee_env (contract : Address) (env : Env) : Env := {|
  current_contract_address := contract;
  timestamp := timestamp env;
  auths := current_contract_address env :: auths env;
|}.

Section Chain.
Context `{Deployment}.

(** A call of the registry, and its effect; a failing one is rolled back. *)
Definition ask_registry {A} (contract : Address) (env : Env) (m : RegistryStorage.R A) (o : Chain)
    : option (A * Chain) :=
  if bool_decide (contract = registry_at) then
    match m (callee_env registry_at env) (ch_registry o) with
    | Done a s => Some (a, mkChain s (ch_subscription o) (ch_feed o))
    | Fail _ | Trap => None
    end
  else None.

(** A query that neither looks at the time nor at signatures. *)
Definition read_registry {A} (contract : Address) (f : RegistryStorage.State -> A) (o : Chain)
    : option A :=
  if bool_decide (contract = registry_at) then Some (f (ch_registry o)) else None.

#[export] Instance chain_clients : Clients Chain := {|
  get_event a id o :=
    e ← mjoin (read_registry a (RegistryStorage.storage.get_event id) o); decode_event e;
  get_dispute a id o :=
    d ← mjoin (read_registry a (RegistryStorage.storage.get_dispute id) o); decode_dispute d;
  get_global_promo_bps a env o := fst <$> ask_registry a env RegistryAdmin.get_global_promo_bps o;
  get_promo_expiry a o := read_registry a RegistryStorage.storage.get_promo_expiry o;
  get_loyalty_discount_bps a guest o :=
    read_registry a (fun s => RegistryCommunity.discount_of_score
      (from_option guest_loyalty_score 0 (RegistryStorage.storage.get_guest_profile guest s))) o;
  is_scanner_authorized a id scanner o :=
    read_registry a (RegistryStorage.storage.is_scanner_authorized id scanner) o;
  increment_inventory a env id tid user q token o :=
    snd <$> ask_registry a env (RegistryInventory.increment_inventory id tid user q token) o;
  decrement_inventory a env id tid _ o :=
    if extra_argument
    then snd <$> ask_registry a env (RegistryInventory.decrement_inventory id tid) o else None;
  update_loyalty_score a env caller guest n amount mult o :=
    snd <$> ask_registry a env (RegistryCommunity.update_loyalty_score caller guest n amount mult) o;
  is_pro_member a env organizer o :=
    if bool_decide (a = subscription_at) then
      match ProSubscription.is_pro_member organizer (callee_env subscription_at env) (ch_subscription o) with
      | Done b s => Some (b, mkChain (ch_registry o) s (ch_feed o))
      | Fail _ | Trap => None
      end
    else None;
  lastprice oracle asset o := Some (ch_feed o !! (oracle, asset));
|}.

Lemma ask_registry_Some {A} a env (m : RegistryStorage.R A) o x o' :
  ask_registry a env m o = Some (x, o') ->
  m (callee_env registry_at env) (ch_registry o) = Done x (ch_registry o').
Proof. unfold ask_registry. repeat case_match; naive_solver. Qed.

(** ** The seats *)
Definition no_answer (_ : Address) (_ : string) (_ : Address) : option bool := None.
Definition no_tokens : Ledger := mkLedger ∅ ∅.

Lemma events_kept c env s u s' (m : RegistryStorage.R unit) :
  run_call (T := Ledger) no_answer c = on_registry m -> m env s = Done u s' ->
  events_inv s -> events_inv s'.
Proof.
  intros Hc Hm. apply (events_maintained (T := Ledger) no_answer c env (s, no_tokens) u (s', no_tokens)).
  rewrite Hc. apply on_registry_Done. by exists s'.
Qed.

(** A call of the registry by the payment contract is a call of its history. *)
Lemma registry_call c env (m : RegistryStorage.R unit) a o u o' {T} `{Token T} (t t' : T) :
  (forall hct, run_call (T := T) hct c = on_registry m) -> fair c (ch_registry o) ->
  ask_registry a env m o = Some (u, o') ->
  steps (fun c _ x => fair c x.1) (fun _ _ => True) (ch_registry o, t) (ch_registry o', t').
Proof.
  intros Hc Hf Hm%ask_registry_Some. eapply steps_tokens; [|exact I].
  eapply (steps_call _ _ _ no_answer c); [apply steps_refl|exact Hf|].
  rewrite Hc. apply on_registry_Done. destruct u. by exists (ch_registry o').
Qed.

Lemma at_tier_add k n k' : (if bool_decide (k' = k) then n else 0) = at_tier k n k'.
Proof. done. Qed.

#[export] Instance chain_seats : Seats Chain.
Proof.
  refine {| seats_ok o := events_inv (ch_registry o); sold o := seats_sold (ch_registry o) |}.
  - cbn. intros a env e t u q token o o' Hok ([x o1] & Hr & ->)%fmap_Some. cbn [snd].
    apply ask_registry_Some in Hr. split.
    + by eapply (events_kept (Registry.IncrementInventory e t u q token)).
    + by eapply increment_seats; [apply ei_keyed|].
  - cbn. intros a env e t u o o' Hok Hr. destruct extra_argument; [|done].
    apply fmap_Some in Hr as ([x o1] & Hr & ->). cbn [snd]. apply ask_registry_Some in Hr. split.
    + by eapply (events_kept (Registry.DecrementInventory e t)).
    + intros k. rewrite (decrement_seats e t _ _ _ _ (ei_keyed _ Hok) Hr k). unfold at_tier.
      case_bool_decide; lia.
  - cbn. intros a env c g n m l o o' Hok ([x o1] & Hr & ->)%fmap_Some. cbn [snd].
    apply ask_registry_Some in Hr. split.
    + by eapply (events_kept (Registry.UpdateLoyaltyScore c g n m l)).
    + intros k. unfold seats_sold. f_equal.
      assert (respects (keeps k_Event) (RegistryCommunity.update_loyalty_score c g n m l)) as Hk
        by (Registry.frame; reflexivity).
      apply Hk in Hr. unfold keeps in Hr. by rewrite Hr.
  - cbn. intros c env a o b o' Hok Hr. repeat case_match; by simplify_eq.
Defined.

Lemma chain_sold o k : sold o k = seats_sold (ch_registry o) k.
Proof. done. Qed.
End Chain.

(** ** Histories of the platform *)

Inductive PlatformCall (T : Type) :=
  | OnPayment (c : PayCall)
  | OnRegistry (c : Registry.Call)
  | OnSubscription (c : ProSubscription.ProCall)
  | Outside (t : T) (feed : gmap (Address * Address) price_oracle.PriceData).
Arguments OnPayment {T} _.
Arguments OnRegistry {T} _.
Arguments OnSubscription {T} _.
Arguments Outside {T} _ _.

Inductive PlatformError :=
  | OfPayment (e : TicketPaymentError)
  | OfRegistry (e : EventRegistryError)
  | OfSubscription (e : ProSubscriptionError).

(** The result of one contract as a result of the platform. *)
Definition lift_result {S E S' E' : Type} (err : E -> E') (put : S -> S') (r : outcome S E unit)
    : outcome S' E' unit :=
  match r with
  | Done u s => Done u (put s)
  | Fail e => Fail (err e)
  | Trap => Trap
  end.

Definition env_at (contract : Address) (env : Env) : Env := {|
  current_contract_address := contract; timestamp := timestamp env; auths := auths env |}.

Section Platform.
Context {T : Type} `{TokenLaws T} `{!TokenAllowance T} {dep : Deployment}.
Variable sha256 : Bytes -> Bytes.
Abbreviation Platform := (PaymentWorld.World T Chain).
Implicit Types w : Platform.

(** The payment contract's answer to the registry. *)
Definition ticket_answer (s : State) (a : Address) (e : string) (who : Address) : option bool :=
  if bool_decide (a = payment_at) then Some (has_confirmed_ticket e who s) else None.

Definition put_registry (w : Platform) (r : RegistryStorage.State * T) : Platform :=
  mkWorld (w_store w) r.2 (mkChain r.1 (ch_subscription (w_others w)) (ch_feed (w_others w))).
Definition put_subscription (w : Platform) (r : ProSubscription.State * T) : Platform :=
  mkWorld (w_store w) r.2 (mkChain (ch_registry (w_others w)) r.1 (ch_feed (w_others w))).

Definition run_platform (c : PlatformCall T) : M Platform PlatformError unit := fun env w =>
  match c with
  | OnPayment c => lift_result OfPayment id (run_pay sha256 c (env_at payment_at env) w)
  | OnRegistry c => lift_result OfRegistry (put_registry w)
      (run_call (ticket_answer (w_store w)) c (env_at registry_at env)
         (ch_registry (w_others w), w_tokens w))
  | OnSubscription c => lift_result OfSubscription (put_subscription w)
      (run_pro c (env_at subscription_at env) (ch_subscription (w_others w), w_tokens w))
  | Outside t feed => Done tt (mkWorld (w_store w) t
      (mkChain (ch_registry (w_others w)) (ch_subscription (w_others w)) feed))
  end.

(** The platform right after deployment. *)
Definition deployed (t : T) : Platform :=
  mkWorld empty_state t (mkChain RegistryStorage.init_state ProSubscription.empty_state ∅).

(** The calls of the payment contract have unsigned quantities, those of the
    registry are fair. *)
Definition plain_call (c : PlatformCall T) (_ : Env) w : Prop :=
  match c with
  | OnPayment (ProcessPayment _ _ _ _ _ _ _ q _ _) => 0 <= q
  | OnRegistry c => fair c (ch_registry (w_others w))
  | _ => True
  end.

Definition platform (ok : PlatformCall T -> Env -> Platform -> Prop) w : Prop :=
  exists t, history run_platform ok (deployed t) w.

Lemma lift_Done {S E S' E'} (err : E -> E') (put : S -> S') r u s' :
  lift_result err put r = Done u s' -> exists s, r = Done u s /\ s' = put s.
Proof. destruct r; naive_solver. Qed.

Lemma platform_weaken (ok ok' : PlatformCall T -> Env -> Platform -> Prop) w :
  (forall c env w, ok c env w -> ok' c env w) -> platform ok w -> platform ok' w.
Proof. intros Hok (t & Hh). exists t. induction Hh; [apply history_nil|eapply history_call; eauto]. Qed.

(** *** The payment contract sees one of its own histories *)
Lemma platform_pays ok w : platform ok w -> pays (T := T) (W := Chain) sha256 (fun _ _ _ => True) w.
Proof.
  intros (t & Hh). eexists t, _. unfold deployed in Hh.
  induction Hh as [|c env w w' Hh IH _ Hr]; [apply history_nil|]. destruct c; cbn in Hr.
  - apply lift_Done in Hr as (w1 & Hr & ->). eapply (history_call _ _ _ (inl c)); [exact IH|done|exact Hr].
  - apply lift_Done in Hr as ([s t1] & Hr & ->).
    eapply (history_call _ _ _ (inr (_, _)) env); [exact IH|done|reflexivity].
  - apply lift_Done in Hr as ([s t1] & Hr & ->).
    eapply (history_call _ _ _ (inr (_, _)) env); [exact IH|done|reflexivity].
  - injection Hr as <-. eapply (history_call _ _ _ (inr (_, _)) env); [exact IH|done|reflexivity].
Qed.

(** *** The registry sees one of its own histories *)
Definition registry_moves (o o' : Chain) : Prop :=
  forall t t' : T, steps (fun c _ x => fair c x.1) (fun _ _ => True)
    (ch_registry o, t) (ch_registry o', t').

#[local] Instance registry_moves_preorder : PreOrder registry_moves.
Proof.
  split.
  - intros o t t'. eapply steps_tokens; [apply steps_refl|exact I].
  - intros o1 o2 o3 H1' H2' t t'. eapply steps_trans; [apply (H1' t t)|apply H2'].
Qed.

Lemma registry_moves_ask c env (m : RegistryStorage.R unit) a o u o' :
  (forall hct, run_call (T := T) hct c = on_registry m) -> fair c (ch_registry o) ->
  ask_registry a env m o = Some (u, o') -> registry_moves o o'.
Proof. intros Hc Hf Hr t t'. by eapply registry_call. Qed.

Lemma pro_moves a b :
  respects (moves anything anything registry_moves)
    (try_is_pro_member (T := T) (W := Chain) a b).
Proof.
  intros env w r w' Hr. unfold try_is_pro_member in Hr. cbn in Hr. split_and!; try exact I.
  repeat case_match; simplify_eq; cbn; try reflexivity; intros t t'; cbn;
    (eapply steps_tokens; [apply steps_refl|exact I]).
Qed.

Lemma increment_moves a env e t u q token (o o' : Chain) :
  0 <= q -> increment_inventory a env e t u q token o = Some o' -> registry_moves o o'.
Proof.
  intros Hq ([x o1] & Hr & ->)%fmap_Some.
  by eapply (registry_moves_ask (Registry.IncrementInventory e t u q token)).
Qed.

Lemma decrement_moves a env e t u (o o' : Chain) :
  decrement_inventory a env e t u o = Some o' -> registry_moves o o'.
Proof.
  cbn. destruct extra_argument; [|done]. intros ([x o1] & Hr & ->)%fmap_Some.
  by eapply (registry_moves_ask (Registry.DecrementInventory e t)).
Qed.

Lemma loyalty_moves a env c g n m l (o o' : Chain) :
  update_loyalty_score a env c g n m l o = Some o' -> registry_moves o o'.
Proof.
  intros ([x o1] & Hr & ->)%fmap_Some.
  by eapply (registry_moves_ask (Registry.UpdateLoyaltyScore c g n m l)).
Qed.

Lemma pay_moves c :
  match c with ProcessPayment _ _ _ _ _ _ _ q _ _ => 0 <= q | _ => True end ->
  respects (moves anything anything registry_moves) (run_pay (T := T) (W := Chain) sha256 c).
Proof.
  intros Hq. destruct c; cbn [run_pay]; pframe; try exact I; try reflexivity.
  all: first [apply pro_moves|by apply increment_moves|apply decrement_moves|apply loyalty_moves].
Qed.

Lemma platform_registry w : platform plain_call w ->
  exists t0, reachable (T := T) (fun c _ x => fair c x.1) (fun _ _ => True) t0
    (ch_registry (w_others w), w_tokens w).
Proof.
  intros (t & Hh). exists t. unfold reachable.
  induction Hh as [|c env w w' Hh IH Hok Hr]; [apply steps_refl|].
  destruct c as [c|c|c|t' feed]; cbn in Hr.
  - apply lift_Done in Hr as (w1 & Hr & ->). eapply steps_trans; [exact IH|].
    assert (Hq : match c with ProcessPayment _ _ _ _ _ _ _ q _ _ => 0 <= q | _ => True end)
      by (by destruct c).
    apply (pay_moves c Hq) in Hr as (_ & _ & Hm). apply Hm.
  - apply lift_Done in Hr as ([s t1] & Hr & ->). eapply steps_call; [exact IH|exact Hok|exact Hr].
  - apply lift_Done in Hr as ([s t1] & Hr & ->). eapply steps_tokens; [exact IH|exact I].
  - injection Hr as <-. eapply steps_tokens; [exact IH|exact I].
Qed.

(** *** Tickets and seats *)

(** The calls under which tickets and seats agree: no refunded ticket is
    confirmed or admitted again, the organizers' calls are fair, contracts do not
    sign transactions of their own, and an event is archived only when it has no
    live tickets. *)
Definition orderly (c : PlatformCall T) (env : Env) w : Prop :=
  match c with
  | OnPayment c => no_revival c w
  | OnRegistry c => fair c (ch_registry (w_others w)) /\
      (forall tp, k_TicketPaymentContract (ch_registry (w_others w)) = Some tp -> tp ∉ auths env) /\
      match c with
      | Registry.ArchiveEvent id => forall tid, live_tickets (id, tid) (w_store w) <= 0
      | _ => True
      end
  | _ => True
  end.

Lemma orderly_plain c env w : orderly c env w -> plain_call c env w.
Proof. destruct c as [c|c|c|t feed]; cbn; [by destruct c|by intros [? _]|done|done]. Qed.

(** The seats of a fair history are never negative. *)
Lemma sold_nonneg w k : platform plain_call w -> 0 <= seats_sold (ch_registry (w_others w)) k.
Proof.
  intros (t0 & Hr)%platform_registry. unfold seats_sold, event_sold.
  destruct (k_Event _ !! k.1) as [e|] eqn:He; [|done]. cbn.
  destruct (ev_tiers e !! k.2) as [t|] eqn:Ht; [|done]. cbn.
  by apply (lo_tier e (ledger_reached _ _ _ _ _ Hr He)) in Ht as [? _].
Qed.

Lemma registry_keeps_seats c env w s t1 k :
  events_inv (ch_registry (w_others w)) -> orderly (OnRegistry c) env w -> 0 <= seats_sold s k ->
  live_tickets k (w_store w) <= seats_sold (ch_registry (w_others w)) k ->
  run_call (ticket_answer (w_store w)) c (env_at registry_at env)
    (ch_registry (w_others w), w_tokens w) = Done tt (s, t1) ->
  live_tickets k (w_store w) <= seats_sold s k.
Proof.
  intros Hinv (Hfair & Hau & Harch) Hpos Hle Hr.
  assert (c = Registry.ArchiveEvent k.1 \/ c <> Registry.ArchiveEvent k.1) as [->|Hne].
  { destruct c; try (by right). destruct (decide (event_id = k.1)); [left|right]; congruence. }
  - etrans; [destruct k; apply Harch|done].
  - etrans; [exact Hle|]. eapply (seats_kept _ c (env_at registry_at env)); [exact Hinv|exact Hfair|exact Hne|exact Hau|exact Hr].
Qed.

Lemma seats_cover w : platform orderly w ->
  events_inv (ch_registry (w_others w)) /\
  forall k, live_tickets k (w_store w) <= seats_sold (ch_registry (w_others w)) k.
Proof.
  intros (t & Hh). assert (Hp : forall w, history run_platform orderly (deployed t) w -> platform orderly w)
    by (intros w1 Hw1; by exists t).
  induction Hh as [|c env w w' Hh IH Hok Hr].
  { split; [apply events_inv_init|]. intros k.
    change (sum_map (counts k) (∅ : gmap string Payment)
            <= event_sold ((∅ : gmap string EventInfo) !! k.1) k.2).
    by rewrite sum_map_empty, lookup_empty. }
  destruct IH as [Hinv Hle].
  assert (Hw' : platform orderly w') by (apply Hp; by eapply history_call).
  destruct c as [c|c|c|t' feed]; cbn in Hr.
  - apply lift_Done in Hr as (w1 & Hr & ->).
    assert (Hpays := platform_pays _ _ (Hp w Hh)).
    apply (seated_call sha256 c) in Hr as [Hinv' Hs];
      [|by eapply event_index_pays|by eapply keyed_pays|exact Hinv|exact Hok].
    split; [exact Hinv'|]. intros k. specialize (Hle k). specialize (Hs k). rewrite !chain_sold in Hs. unfold id. lia.
  - apply lift_Done in Hr as ([s t1] & Hr & ->). cbn. split.
    + exact (events_maintained _ c _ (_, _) tt (_, _) Hr Hinv).
    + intros k. eapply registry_keeps_seats; [done|done| |by apply Hle|exact Hr].
      exact (sold_nonneg _ k (platform_weaken _ _ _ orderly_plain Hw')).
  - apply lift_Done in Hr as ([s t1] & Hr & ->). done.
  - injection Hr as <-. done.
Qed.

(** C3: No ticket without a seat.  However calls of the registry, the payment and
    the subscription contract interleave, as long as they are orderly, the live
    tickets of a tier in the payment contract are at most the seats that the
    registry counts as sold, which are at most the limit of the tier, and the live
    tickets of an event are at most its supply and its maximum. *)
Theorem tickets_have_seats w eid e :
  platform orderly w -> k_Event (ch_registry (w_others w)) !! eid = Some e ->
  (forall tid tier, ev_tiers e !! tid = Some tier ->
     live_tickets (eid, tid) (w_store w) <= tier_current_sold tier <= tier_tier_limit tier) /\
  live_of_event eid (w_store w) <= ev_current_supply e /\
  (0 < ev_max_supply e -> live_of_event eid (w_store w) <= ev_max_supply e).
Proof.
  intros Hw He. destruct (seats_cover w Hw) as [_ Hle].
  destruct (platform_registry w (platform_weaken _ _ _ orderly_plain Hw)) as [t0 Hr].
  assert (Hok : ledger_ok e) by (by eapply (ledger_reached _ t0 _ eid)).
  assert (Hs : forall tid, seats_sold (ch_registry (w_others w)) (eid, tid)
    = from_option tier_current_sold 0 (ev_tiers e !! tid)).
  { intros tid. unfold seats_sold. cbn. by rewrite He. }
  assert (Hev : live_of_event eid (w_store w) <= ev_current_supply e).
  { rewrite <- (lo_sum e Hok). apply live_of_event_tiers.
    - intros tid tier Ht. specialize (Hle (eid, tid)). by rewrite Hs, Ht in Hle.
    - intros tid Ht. specialize (Hle (eid, tid)). by rewrite Hs, Ht in Hle. }
  split; [|split; [done|]].
  - intros tid tier Ht. specialize (Hle (eid, tid)). rewrite Hs, Ht in Hle. cbn in Hle.
    pose proof (lo_tier e Hok _ _ Ht). lia.
  - intros Hm. pose proof (ledger_ok_supply e Hok). lia.
Qed.

(** With the two argument lists as they are declared, and a host that insists on
    them, no single refund of a ticket ever succeeds. *)
Theorem refunds_blocked id c env w w' :
  extra_argument = false -> refund_call id c ->
  run_pay (T := T) (W := Chain) sha256 c env w <> Done tt w'.
Proof.
  intros Hx Hc Hr.
  assert (Hno : forall r en e t u (o : Chain), decrement_inventory r en e t u o = None)
    by (intros; cbn; by rewrite Hx).
  assert (Hin : forall pid u w1, internal_refund (T := T) (W := Chain) pid env w <> Done u w1).
  { intros pid u w1 Hi. pose proof Hi as (p & Hp & _)%internal_refund_tickets.
    destruct (internal_refund_others pid p env w u w1 Hp Hi) as [r Hd]. by rewrite Hno in Hd. }
  destruct c; try done; cbn [run_pay] in Hr.
  - unfold request_guest_refund, require_initialized, require_running in Hr. pay. by eapply Hin.
  - unfold admin_refund, require_admin in Hr. pay. by eapply Hin.
  - unfold claim_automatic_refund, require_initialized, require_running, find_payment, find_event,
      storage.get_event_registry in Hr. pay. destruct w. by eapply Hin.
  - pose proof Hr as (p & Hp & _)%claim_cancellation_tickets.
    destruct (claim_cancellation_others _ p env w tt w' Hp Hr) as [r Hd]. by rewrite Hno in Hd.
Qed.
End Platform.

(** ** A run of the whole platform

    The registry and the payment contract are set up, an event is registered, Ann
    and Bob buy a ticket each, and Ann gives hers back.  The records are decoded
    field by field; what the registry does not have is zero. *)
Module PlatformSample.
Definition decode_tier (t : RegistryTypes.TicketTier) : event_registry.TicketTier :=
  event_registry.mkTicketTier (tier_name t) (tier_price t) 0 0 0 (tier_tier_limit t)
    (tier_current_sold t) (tier_is_refundable t)
    ((fun a => event_registry.mkAuctionConfig (auc_start_price a) (auc_end_time a)
                 (auc_min_increment a)) <$> tier_auction_config t)
    (tier_loyalty_multiplier t).

Definition decode_status (s : RegistryTypes.EventStatus) : event_registry.EventStatus :=
  match s with
  | RegistryTypes.Active => event_registry.Active
  | RegistryTypes.Inactive => event_registry.Inactive
  | RegistryTypes.Cancelled => event_registry.Cancelled
  end.

Definition decode (e : RegistryTypes.EventInfo) : option event_registry.EventInfo :=
  Some (event_registry.mkEventInfo (ev_event_id e) (ev_name e) (ev_organizer_address e)
    (ev_payment_address e) (ev_platform_fee_percent e) (ev_is_active e)
    (decode_status (ev_status e)) (ev_created_at e) (ev_metadata_cid e) (ev_max_supply e)
    (ev_current_supply e) None (decode_tier <$> ev_tiers e) (ev_refund_deadline e)
    (ev_restocking_fee e) (ev_resale_cap_bps e) (ev_min_sales_target e) (ev_target_deadline e)
    (ev_goal_met e) (ev_custom_fee_bps e) (ev_banner_cid e) (ev_tags e) (ev_start_time e)
    (ev_end_time e) (ev_accepted_tokens e) (ev_use_global_whitelist e) (ev_referral_rate_bps e)).

Definition deployment (extra : bool) : Deployment := {|
  registry_at := "REG"; subscription_at := "PRO"; payment_at := "PAY";
  decode_event := decode; decode_dispute := fun _ => None; extra_argument := extra |}.

Definition env (t : Z) (who : list Address) : Env :=
  {| current_contract_address := ""; timestamp := t; auths := who |}.
Definition tokens : Ledger :=
  mkLedger {[ ("USDC", "ANN") := 100000; ("USDC", "BOB") := 100000 ]}
           {[ ("USDC", "ANN", "PAY") := 100000; ("USDC", "BOB", "PAY") := 100000 ]}.
Definition sha256 (b : Bytes) : Bytes := ("#" +:+ b)%string.
Definition buy (id : string) (who : Address) : Env * PlatformCall Ledger :=
  (env 40 [who], OnPayment (ProcessPayment id "e2" "gen" who None "USDC"
     (tier_price Sample.tier) 1 (mkPurchaseOptions None None None None) (sha256 "s"))).

Definition setup : list (Env * PlatformCall Ledger) :=
  [ (env 10 ["ADM"], OnRegistry (Registry.Initialize "ADM" "WALLET" 500 "USDC"));
    (env 20 ["ADM"], OnRegistry (Registry.SetTicketPaymentContract "PAY"));
    (env 30 ["ORG"], OnRegistry (Registry.RegisterEvent sample_args));
    (env 35 ["ADM"], OnPayment (Payments.Initialize "ADM" "USDC" "WALLET" "REG"));
    buy "p1" "ANN"; buy "p2" "BOB" ].
Definition refund : list (Env * PlatformCall Ledger) :=
  [ (env 50 ["ANN"], OnPayment (RequestGuestRefund "p1")) ].

Definition play (extra : bool) (calls : list (Env * PlatformCall Ledger))
    : option (PaymentWorld.World Ledger Chain) :=
  run_all (run_platform (dep := deployment extra) sha256) calls (deployed tokens).

Definition counts (o : option (PaymentWorld.World Ledger Chain)) : option (Z * Z) :=
  (fun w => (live_tickets ("e2", "gen") (w_store w),
             seats_sold (ch_registry (w_others w)) ("e2", "gen"))) <$> o.

Example two_sold : counts (play true setup) = Some (2, 2).
Proof. vm_compute. reflexivity. Qed.
Example one_refunded : counts (play true (setup ++ refund)) = Some (1, 1).
Proof. vm_compute. reflexivity. Qed.
Example refund_rejected : play false (setup ++ refund) = None.
Proof. vm_compute. reflexivity. Qed.

(** A list of calls that satisfies a predicate at every step. *)
Fixpoint obeys (ok : PlatformCall Ledger -> Env -> PaymentWorld.World Ledger Chain -> Prop)
    (calls : list (Env * PlatformCall Ledger)) (w : PaymentWorld.World Ledger Chain) : Prop :=
  match calls with
  | [] => True
  | (en, c) :: calls => ok c en w /\
      match run_platform (dep := deployment true) sha256 c en w with
      | Done _ w' => obeys ok calls w'
      | Fail _ | Trap => True
      end
  end.

Lemma obeys_platform ok calls : forall w w',
  platform (dep := deployment true) sha256 ok w -> obeys ok calls w ->
  run_all (run_platform (dep := deployment true) sha256) calls w = Some w' ->
  platform (dep := deployment true) sha256 ok w'.
Proof.
  induction calls as [|[en c] calls IH]; cbn; intros w w' Hw Hok Hr; [by injection Hr as <-|].
  destruct Hok as [Hc Hok]. destruct (run_platform sha256 c en w) as [[] w1|er|] eqn:H1; [|done..].
  eapply IH; [|exact Hok|exact Hr]. destruct Hw as (t & Hh). exists t. by eapply history_call.
Qed.

Definition final : PaymentWorld.World Ledger Chain :=
  default (deployed tokens) (play true (setup ++ refund)).

(** Calls that satisfy the predicate in any state need not be evaluated. *)
Lemma obeys_any ok calls : Forall (fun p => forall w, ok p.2 p.1 w) calls -> forall w, obeys ok calls w.
Proof.
  induction 1 as [|[en c] calls Hc _ IH]; intros w; [done|]. cbn. split; [apply Hc|].
  destruct (run_platform sha256 c en w) as [[] w1|er|]; done.
Qed.

Lemma obeys_cons ok en c calls w :
  ok c en w ->
  (forall w', run_platform (dep := deployment true) sha256 c en w = Done tt w' -> obeys ok calls w') ->
  obeys ok ((en, c) :: calls) w.
Proof.
  intros Hc Hcalls. cbn. split; [done|].
  destruct (run_platform sha256 c en w) as [[] w1|er|]; [by apply Hcalls|done..].
Qed.

(** One step of a run, evaluated. *)
Ltac obey :=
  apply obeys_cons; [|let Hr := fresh in intros ? Hr; vm_compute in Hr; injection Hr as <-].

Lemma setup_orderly : obeys (orderly (T := Ledger)) (setup ++ refund) (deployed tokens).
Proof.
  obey; [split_and!; [done| |done]; by intros tp [=]|].
  obey; [split_and!; [done| |done]; by intros tp [=]|].
  apply obeys_cons.
  { split_and!; [|intros tp [= <-]; cbn; set_solver|done].
    intros id t Ht. change (({[ "gen" := Sample.tier <| tier_current_sold := 0 |> ]}
      : gmap string RegistryTypes.TicketTier) !! id = Some t) in Ht.
    by apply lookup_singleton_Some in Ht as [<- <-]. }
  intros w _. apply obeys_any. repeat constructor; intros; done.
Qed.

Lemma final_platform : platform (dep := deployment true) sha256 orderly final.
Proof.
  eapply (obeys_platform _ (setup ++ refund) (deployed tokens)).
  - exists tokens. apply history_nil.
  - apply setup_orderly.
  - vm_compute. reflexivity.
Qed.
End PlatformSample.

(** After the run one ticket is live, one seat is sold, and fifty fit. *)
Lemma tickets_have_seats_witness :
  exists e, k_Event (ch_registry (w_others PlatformSample.final)) !! "e2" = Some e /\
    live_of_event "e2" (w_store PlatformSample.final) = 1 /\
    live_of_event "e2" (w_store PlatformSample.final) <= ev_current_supply e.
Proof.
  destruct (k_Event (ch_registry (w_others PlatformSample.final)) !! "e2") as [e|] eqn:He;
    [|vm_compute in He; discriminate He].
  exists e. split; [done|]. split; [vm_compute; reflexivity|].
  apply (tickets_have_seats (dep := PlatformSample.deployment true) PlatformSample.sha256
           PlatformSample.final "e2" e PlatformSample.final_platform He).
Defined.

Lemma refunds_blocked_witness w' :
  run_pay (T := Ledger) (W := Chain) (H1 := chain_clients (H := PlatformSample.deployment false))
    PlatformSample.sha256 (RequestGuestRefund "p1")
    (PlatformSample.env 50 ["ANN"]) PlatformSample.final <> Done tt w'.
Proof.
  by apply (refunds_blocked (dep := PlatformSample.deployment false) PlatformSample.sha256 "p1").
Defined.
