(* ===== verification/CrdtClock.v ===== *)
(** * Server: replicated data and vector clocks

    The offline synchronisation of the server ([server/src/crdt]) merges states of
    replicas.  [Joins] is a join-semilattice up to an equivalence, [Mergeable] what
    a replicated structure promises: its merge is the join of an abstract view, so
    that replicas agree once they merged the same states, in any order and any
    number of times ([merge_converges]).  Vector clocks are the first instance. *)

From stdpp Require Import base tactics numbers list strings gmap fin_maps.
From S2P Require Import Prelude.

(** ** Join-semilattices *)
Class Joins {A} (R : relation A) (join : A -> A -> A) : Prop := {
  joins_equiv :: Equivalence R;
  joins_proper :: Proper (R ==> R ==> R) join;
  joins_comm :: Comm R join;
  joins_assoc :: Assoc R join;
  joins_idem :: IdemP R join;
}.

Section Joins.
Context {A} (R : relation A) (join : A -> A -> A) `{!Joins R join}.

Definition below (a b : A) : Prop := R (join a b) b.

#[global] Instance below_proper : Proper (R ==> R ==> iff) below.
Proof. intros a a' Ha b b' Hb. unfold below. by rewrite Ha, Hb. Qed.

Lemma below_antisym a b : below a b -> below b a -> R a b.
Proof. unfold below. intros Hab Hba. rewrite <- Hba, (comm join). done. Qed.

Lemma below_join a b c : below (join a b) c <-> below a c /\ below b c.
Proof.
  unfold below. split.
  - intros H. split; rewrite <- H at 1.
    + by rewrite !(assoc join), (idemp join).
    + by rewrite (comm join a b), !(assoc join), (idemp join), (comm join b a).
  - intros [Ha Hb]. by rewrite <- (assoc join), Hb.
Qed.

(** The merge of several states is the least state above them all. *)
Lemma foldl_below xs : forall x c, below (foldl join x xs) c <-> Forall (fun y => below y c) (x :: xs).
Proof.
  induction xs as [|y xs IH]; cbn; intros x c.
  - rewrite Forall_singleton. done.
  - rewrite IH, !Forall_cons, below_join. tauto.
Qed.

Lemma foldl_joins x xs x' xs' :
  (forall y, y ∈ x :: xs <-> y ∈ x' :: xs') -> R (foldl join x xs) (foldl join x' xs').
Proof.
  intros Hm.
  assert (forall c, below (foldl join x xs) c <-> below (foldl join x' xs') c) as Hb.
  { intros c. rewrite !foldl_below, !Forall_forall. by setoid_rewrite Hm. }
  apply below_antisym; apply Hb; unfold below; apply (idemp join).
Qed.
End Joins.

(** ** Replicated structures *)
Class Mergeable {S A} (valid : S -> Prop) (merge : S -> S -> S)
    (R : relation A) (join : A -> A -> A) (view : S -> A) : Prop := {
  mergeable_joins :: Joins R join;
  merge_valid a b : valid a -> valid b -> valid (merge a b);
  view_merge a b : valid a -> valid b -> R (view (merge a b)) (join (view a) (view b));
}.

Section Mergeable.
Context {S A} (valid : S -> Prop) (merge : S -> S -> S) (R : relation A) (join : A -> A -> A)
  (view : S -> A) `{!Mergeable valid merge R join view}.

Lemma view_merges xs : forall x,
  Forall valid (x :: xs) -> valid (foldl merge x xs) /\
  R (view (foldl merge x xs)) (foldl join (view x) (view <$> xs)).
Proof.
  enough (forall x a, valid x -> Forall valid xs -> R (view x) a ->
    valid (foldl merge x xs) /\ R (view (foldl merge x xs)) (foldl join a (view <$> xs))) as He.
  { intros x [Hx Hxs]%Forall_cons. by apply He. }
  induction xs as [|y xs IH]; cbn; intros x a Hx Hxs Ha; [done|].
  apply Forall_cons in Hxs as [Hy Hxs]. apply IH; [by apply merge_valid|done|].
  by rewrite view_merge, Ha by done.
Qed.

(** Replicas that merged the same states agree. *)
Lemma merge_converges x xs x' xs' :
  Forall valid (x :: xs) -> (forall y, y ∈ x :: xs <-> y ∈ x' :: xs') ->
  R (view (foldl merge x xs)) (view (foldl merge x' xs')).
Proof.
  intros Hv Hm.
  assert (Forall valid (x' :: xs')) as Hv'.
  { rewrite Forall_forall in Hv |- *. intros y Hy. by apply Hv, Hm. }
  destruct (view_merges xs x Hv) as [_ ->], (view_merges xs' x' Hv') as [_ ->].
  apply (foldl_joins R join). intros a.
  rewrite <- !fmap_cons, !list_elem_of_fmap. by setoid_rewrite Hm.
Qed.
End Mergeable.

(** ** Loops over the entries of a hash map

    A loop whose body changes only the entry of its own key does, in whatever
    order the hash map is walked, the same to every key. *)
Section Entries.
Context {A B : Type} (step : gmap string A -> string -> B -> gmap string A)
  (f : option A -> B -> option A).
Hypothesis step_same : forall m k b, step m k b !! k = f (m !! k) b.
Hypothesis step_other : forall m k b j, j <> k -> step m k b !! j = m !! j.

Definition walk (m : gmap string A) (entries : list (string * B)) : gmap string A :=
  foldl (fun m e => step m e.1 e.2) m entries.

Lemma walk_lookup entries : forall m j, NoDup entries.*1 ->
  walk m entries !! j
  = match (list_to_map entries : gmap string B) !! j with
    | Some b => f (m !! j) b
    | None => m !! j
    end.
Proof using step_same step_other.
  induction entries as [|[k b] entries IH]; cbn; intros m j Hnd; [by rewrite lookup_empty|].
  apply NoDup_cons in Hnd as [Hk Hnd].
  unfold walk in *. cbn. rewrite IH by done. destruct (decide (j = k)) as [->|Hj].
  - rewrite lookup_insert_eq, (not_elem_of_list_to_map_1 entries k) by done. apply step_same.
  - rewrite lookup_insert_ne by done. by rewrite step_other.
Qed.

Lemma walk_map m (other : gmap string B) j :
  walk m (map_to_list other) !! j
  = match other !! j with Some b => f (m !! j) b | None => m !! j end.
Proof using step_same step_other.
  rewrite walk_lookup by apply NoDup_fst_map_to_list. by rewrite list_to_map_to_list.
Qed.

Lemma walk_order m (other : gmap string B) entries :
  entries ≡ₚ map_to_list other -> walk m entries = walk m (map_to_list other).
Proof using step_same step_other.
  intros Hp. apply map_eq. intros j. rewrite walk_map, walk_lookup.
  - rewrite (list_to_map_proper entries (map_to_list other)), list_to_map_to_list; [done| |done].
    rewrite Hp. apply NoDup_fst_map_to_list.
  - rewrite Hp. apply NoDup_fst_map_to_list.
Qed.
End Entries.

(** ** Vector clocks ([vector_clock.rs]) *)
Module vector_clock.
Record VectorClock := mkVectorClock { counters : gmap string N (* u64 *) }.

Definition new (node_id : string) (initial_value : N) : VectorClock :=
  mkVectorClock (<[node_id := initial_value]> ∅).

Definition empty : VectorClock := mkVectorClock ∅.

Definition get_counter (self : VectorClock) (node_id : string) : N :=
  default 0%N (counters self !! node_id).

(** [*counter += 1] on a u64; the release build of the server wraps around. *)
Definition increment (self : VectorClock) (node_id : string) : VectorClock :=
  mkVectorClock (<[node_id := ((get_counter self node_id + 1) mod 2 ^ 64)%N]> (counters self)).

Definition merge_entry (merged : gmap string N) (node_id : string) (counter : N) : gmap string N :=
  let entry := default 0%N (merged !! node_id) in
  <[node_id := N.max entry counter]> merged.

Definition merge (self other : VectorClock) : VectorClock :=
  mkVectorClock (walk merge_entry (counters self) (map_to_list (counters other))).

Definition all_node_ids (self other : VectorClock) : list string :=
  elements (dom (counters self) ∪ dom (counters other)).

Definition compare (self other : VectorClock) : Z :=
  let '(less_than, greater_than) :=
    foldl (fun '(less_than, greater_than) node_id =>
             let c1 := get_counter self node_id in
             let c2 := get_counter other node_id in
             if (c1 <? c2)%N then (true, greater_than)
             else if (c2 <? c1)%N then (less_than, true)
             else (less_than, greater_than))
          (false, false) (all_node_ids self other) in
  if less_than && negb greater_than then -1
  else if greater_than && negb less_than then 1
  else 0.

Definition happened_before (self other : VectorClock) : bool := compare self other =? -1.

Definition equals (self other : VectorClock) : bool :=
  forallb (fun node_id => (get_counter self node_id =? get_counter other node_id)%N)
    (all_node_ids self other).

Definition is_concurrent (self other : VectorClock) : bool :=
  (compare self other =? 0) && negb (equals self other).

Definition node_ids (self : VectorClock) : list string := (map_to_list (counters self)).*1.

(** *** The order of the clocks *)
#[export] Instance clock_equiv : Equiv VectorClock :=
  fun a b => forall n, get_counter a n = get_counter b n.

Definition leq (a b : VectorClock) : Prop := forall n, (get_counter a n <= get_counter b n)%N.

#[export] Instance clock_equivalence : Equivalence (≡@{VectorClock}).
Proof.
  split; unfold equiv, clock_equiv.
  - done.
  - intros a b H n. by rewrite H.
  - intros a b c Hab Hbc n. by rewrite Hab.
Qed.

#[export] Instance get_counter_proper : Proper ((≡) ==> (=) ==> (=)) get_counter.
Proof. intros a b H n _ <-. apply H. Qed.

#[export] Instance leq_proper : Proper ((≡) ==> (≡) ==> iff) leq.
Proof. intros a a' Ha b b' Hb. unfold leq. split; intros H n; specialize (H n); rewrite Ha, Hb in *; done. Qed.

#[export] Instance leq_preorder : PreOrder leq.
Proof. split; [intros a n; lia|]. intros a b c Hab Hbc n. specialize (Hab n). specialize (Hbc n). lia. Qed.

Lemma leq_antisym a b : leq a b -> leq b a -> a ≡ b.
Proof. intros Hab Hba n. specialize (Hab n). specialize (Hba n). lia. Qed.

Lemma get_counter_new n i m : get_counter (new n i) m = if decide (m = n) then i else 0%N.
Proof.
  unfold get_counter, new. cbn. destruct (decide (m = n)) as [->|Hn].
  - by rewrite lookup_insert_eq.
  - by rewrite lookup_insert_ne, lookup_empty.
Qed.

Lemma get_counter_merge a b n :
  get_counter (merge a b) n = N.max (get_counter a n) (get_counter b n).
Proof.
  unfold get_counter, merge. cbn.
  rewrite (walk_map merge_entry (fun o c => Some (N.max (default 0%N o) c))).
  - destruct (counters b !! n); cbn; lia.
  - intros m k c. apply lookup_insert_eq.
  - intros m k c j Hj. by apply lookup_insert_ne.
Qed.

Lemma get_counter_absent a n : n ∉ dom (counters a) -> get_counter a n = 0%N.
Proof. intros Hn%not_elem_of_dom. unfold get_counter. by rewrite Hn. Qed.

Lemma elem_of_all_node_ids a b n :
  get_counter a n <> get_counter b n -> n ∈ all_node_ids a b.
Proof.
  intros Hn. unfold all_node_ids. rewrite elem_of_elements, elem_of_union.
  destruct (decide (n ∈ dom (counters a))); [tauto|]. destruct (decide (n ∈ dom (counters b))); [tauto|].
  rewrite !get_counter_absent in Hn by done. done.
Qed.

Lemma equals_spec a b : equals a b = true <-> a ≡ b.
Proof.
  unfold equals. rewrite forallb_forall. split.
  - intros H n. destruct (decide (get_counter a n = get_counter b n)) as [|Hn]; [done|].
    specialize (H n). rewrite N.eqb_eq in H. apply H, list_elem_of_In, elem_of_all_node_ids, Hn.
  - intros H n _. apply N.eqb_eq, H.
Qed.

(** The two flags of the loop: some counter is smaller, some counter is greater. *)
Lemma compare_flags (c1 c2 : string -> N) ids : forall l g,
  foldl (fun '(less_than, greater_than) node_id =>
           if (c1 node_id <? c2 node_id)%N then (true, greater_than)
           else if (c2 node_id <? c1 node_id)%N then (less_than, true)
           else (less_than, greater_than)) (l, g) ids
  = (l || existsb (fun n => c1 n <? c2 n)%N ids, g || existsb (fun n => c2 n <? c1 n)%N ids).
Proof.
  induction ids as [|n ids IH]; cbn; intros l g; [by rewrite !orb_false_r|].
  destruct (N.ltb_spec (c1 n) (c2 n)), (N.ltb_spec (c2 n) (c1 n)); rewrite IH; cbn; rewrite ?orb_true_r;
    try done. lia.
Qed.

Lemma exists_node (c1 c2 : string -> N) ids :
  (forall n, c1 n <> c2 n -> n ∈ ids) ->
  existsb (fun n => c1 n <? c2 n)%N ids = false <-> forall n, (c2 n <= c1 n)%N.
Proof.
  intros Hids. rewrite <- not_true_iff_false, existsb_exists. split.
  - intros Hn n. destruct (N.le_gt_cases (c2 n) (c1 n)) as [|Hlt]; [done|]. exfalso. apply Hn.
    exists n. split; [apply list_elem_of_In, Hids; lia|]. by apply N.ltb_lt.
  - intros Hle (n & _ & Hlt%N.ltb_lt). specialize (Hle n). lia.
Qed.


Lemma less_flag a b :
  existsb (fun n => get_counter a n <? get_counter b n)%N (all_node_ids a b) = false <-> leq b a.
Proof. apply exists_node. intros n. apply elem_of_all_node_ids. Qed.

Lemma greater_flag a b :
  existsb (fun n => get_counter b n <? get_counter a n)%N (all_node_ids a b) = false <-> leq a b.
Proof. apply exists_node. intros n Hn. by apply elem_of_all_node_ids. Qed.

Lemma compare_spec a b :
  (compare a b = -1 <-> leq a b /\ ~ leq b a) /\
  (compare a b = 1 <-> leq b a /\ ~ leq a b) /\
  (compare a b = 0 <-> (leq a b <-> leq b a)).
Proof.
  pose proof (less_flag a b) as Hl. pose proof (greater_flag a b) as Hg.
  unfold compare. rewrite compare_flags. cbn.
  do 2 (destruct (existsb _ _)); cbn; intuition congruence.
Qed.

Lemma compare_cases a b : compare a b = -1 \/ compare a b = 0 \/ compare a b = 1.
Proof. unfold compare. rewrite compare_flags. cbn. do 2 (destruct (existsb _ _)); cbn; lia. Qed.

Lemma compare_flip a b : compare a b = -1 <-> compare b a = 1.
Proof.
  destruct (compare_spec a b) as (-> & _ & _), (compare_spec b a) as (_ & -> & _). done.
Qed.

Lemma compare_pos a b : (0 <? compare a b) = true <-> compare a b = 1.
Proof. rewrite Z.ltb_lt. pose proof (compare_cases a b). lia. Qed.

Lemma happened_before_spec a b : happened_before a b = true <-> leq a b /\ ~ leq b a.
Proof. unfold happened_before. rewrite Z.eqb_eq. apply compare_spec. Qed.

Lemma is_concurrent_spec a b : is_concurrent a b = true <-> ~ leq a b /\ ~ leq b a.
Proof.
  unfold is_concurrent. rewrite andb_true_iff, Z.eqb_eq, negb_true_iff, <- not_true_iff_false,
    equals_spec. destruct (compare_spec a b) as (_ & _ & ->). split.
  - intros [[Hab Hba] Hne]. split; intros H; apply Hne, leq_antisym; auto.
  - intros [Ha Hb]. split; [tauto|]. intros He. apply Ha. rewrite He. reflexivity.
Qed.

Lemma merge_upper_l a b : leq a (merge a b).
Proof. intros n. rewrite get_counter_merge. lia. Qed.
Lemma merge_upper_r a b : leq b (merge a b).
Proof. intros n. rewrite get_counter_merge. lia. Qed.
Lemma merge_least a b c : leq a c -> leq b c -> leq (merge a b) c.
Proof. intros Ha Hb n. rewrite get_counter_merge. specialize (Ha n). specialize (Hb n). lia. Qed.

#[export] Instance merge_joins : Joins (≡) merge.
Proof.
  split; [apply _|..].
  - intros a a' Ha b b' Hb n. rewrite !get_counter_merge, Ha, Hb. done.
  - intros a b n. rewrite !get_counter_merge. lia.
  - intros a b c n. rewrite !get_counter_merge. lia.
  - intros a n. rewrite !get_counter_merge. lia.
Qed.

#[export] Instance clock_mergeable : Mergeable (fun _ => True) merge (≡) merge id.
Proof. split; [apply _|done|reflexivity]. Qed.

Lemma get_counter_increment a n m :
  get_counter (increment a n) m
  = if decide (m = n) then ((get_counter a n + 1) mod 2 ^ 64)%N else get_counter a m.
Proof.
  unfold increment. unfold get_counter at 1. cbn [counters]. destruct (decide (m = n)) as [->|Hn].
  - by rewrite lookup_insert_eq.
  - by rewrite lookup_insert_ne.
Qed.

Lemma leq_dec a b : leq a b \/ ~ leq a b.
Proof. rewrite <- greater_flag. destruct (existsb _ _); naive_solver. Qed.

Lemma equals_leq a b : equals a b = true <-> leq a b /\ leq b a.
Proof.
  rewrite equals_spec. split; [intros ->; split; reflexivity|]. intros []. by apply leq_antisym.
Qed.

(** Two clocks are equal, ordered one way or concurrent. *)
Lemma clock_cases a b :
  (length (filter (eq true)
    [equals a b; happened_before a b; happened_before b a; is_concurrent a b]) = 1)%nat.
Proof.
  pose proof (equals_leq a b) as H1. pose proof (happened_before_spec a b) as H2.
  pose proof (happened_before_spec b a) as H3. pose proof (is_concurrent_spec a b) as H4.
  destruct (leq_dec a b), (leq_dec b a), (equals a b), (happened_before a b), (happened_before b a),
    (is_concurrent a b); try reflexivity; exfalso; clear - H H0 H1 H2 H3 H4; intuition congruence.
Qed.

(** Vector clocks order events by cause.  [happened_before] is a strict partial
    order that respects [equals]; every two clocks are equal, ordered one way or
    concurrent, and only one of these; the merge of two clocks is their least
    upper bound in this order; and counting an event of a node makes the clock
    strictly later, until the counter reaches the largest u64. *)
Theorem clock_order (a b c : VectorClock) :
  happened_before a a = false /\
  (happened_before a b = true -> happened_before b c = true -> happened_before a c = true) /\
  (equals a b = true -> happened_before a c = happened_before b c /\
    happened_before c a = happened_before c b) /\
  (length (filter (eq true)
    [equals a b; happened_before a b; happened_before b a; is_concurrent a b]) = 1)%nat /\
  (let le x y := happened_before x y || equals x y in
   le a (merge a b) = true /\ le b (merge a b) = true /\
   (le a c = true -> le b c = true -> le (merge a b) c = true)) /\
  (forall n, (get_counter a n < 2 ^ 64 - 1)%N -> happened_before a (increment a n) = true).
Proof.
  assert (forall x y, happened_before x y || equals x y = true <-> leq x y) as Hle.
  { intros x y. rewrite orb_true_iff, happened_before_spec, equals_leq.
    destruct (leq_dec y x); tauto. }
  split_and!.
  - apply not_true_iff_false. rewrite happened_before_spec. intros [_ []]. reflexivity.
  - rewrite !happened_before_spec. intros [Hab Hn] [Hbc _]. split; [by etrans|].
    intros Hca. apply Hn. by etrans.
  - intros He%equals_spec. split; apply eq_true_iff_eq; rewrite !happened_before_spec, He; done.
  - apply clock_cases.
  - cbn zeta. rewrite !Hle. split_and!; [apply merge_upper_l|apply merge_upper_r|apply merge_least].
  - intros n Hn. apply happened_before_spec. split.
    + intros m. rewrite get_counter_increment. case_decide as Hm; [subst|lia].
      rewrite N.mod_small by lia. lia.
    + intros Hl. specialize (Hl n). rewrite get_counter_increment, decide_True, N.mod_small in Hl by (done || lia). lia.
Qed.

(** The theorem at the clocks of three events: a message from [n1] to [n2]. *)
Lemma clock_order_witness :
  happened_before (new "n1" 1) (merge (new "n1" 1) (new "n2" 1)) = true /\
  happened_before (new "n1" 1) (increment (merge (new "n1" 1) (new "n2" 1)) "n2") = true.
Proof.
  pose proof (clock_order (new "n1" 1) (merge (new "n1" 1) (new "n2" 1))
    (increment (merge (new "n1" 1) (new "n2" 1)) "n2")) as (_ & Htrans & _ & _ & _ & _).
  split; [reflexivity|]. apply Htrans; reflexivity.
Defined.

(** At the largest u64 the counter starts again and the clock goes back. *)
Example increment_wraps : happened_before (increment (new "n" (2 ^ 64 - 1)) "n") (new "n" (2 ^ 64 - 1)) = true.
Proof. reflexivity. Qed.
End vector_clock.
