(* ===== verification/CrdtOrSet.v ===== *)
(** * Server: the observed-remove set

    [or_set.rs].  The key of an element is its JSON text, which serde_json
    computes: the function [generate_key] is a parameter.  The time and the random
    identifier that an addition draws are arguments.  The set refines a map from
    keys to sets of tags ([or_set_refines]); it keeps no record of removals
    ([remove_undone]). *)

From stdpp Require Import base tactics numbers list strings gmap fin_maps.
From S2P Require Import Prelude.
From S2P Require Import CrdtClock.
Import vector_clock.

Module or_set.
Record ORSetTag := mkTag {
  tag_id : string;
  tag_node_id : string;
  tag_vector_clock : VectorClock;
}.

Record ORSetElement (T : Type) := mkElement {
  el_value : T;
  el_tags : list ORSetTag;
}.
Arguments mkElement {T}. Arguments el_value {T}. Arguments el_tags {T}.

Record ORSet (T : Type) := mkORSet { elements : gmap string (ORSetElement T) }.
Arguments mkORSet {T}. Arguments elements {T}.

#[export] Instance eta_tag : Eta ORSetTag :=
  fun t => mkTag (tag_id t) (tag_node_id t) (tag_vector_clock t).

Section ORSet.
Context {T : Type}.
(** [serde_json::to_string(value).unwrap_or_default()]. *)
Variable generate_key : T -> string.

Definition new : ORSet T := mkORSet ∅.

(** The node, the time and a UUID make the identifier; [millis] is the time as
    decimal text and [uuid] the random part. *)
Definition generate_tag (node_id millis uuid : string) : ORSetTag :=
  mkTag (node_id +:+ "-" +:+ millis +:+ "-" +:+ uuid)%string node_id (vector_clock.new node_id 1).

Definition add (value : T) (node_id millis uuid : string) (self : ORSet T) : ORSet T :=
  let key := generate_key value in
  let tag := generate_tag node_id millis uuid in
  match elements self !! key with
  | Some element => mkORSet (<[key := mkElement (el_value element) (el_tags element ++ [tag])]>
                               (elements self))
  | None => mkORSet (<[key := mkElement value [tag]]> (elements self))
  end.

Definition remove (value : T) (self : ORSet T) : ORSet T :=
  mkORSet (delete (generate_key value) (elements self)).

Definition has (self : ORSet T) (value : T) : bool :=
  match elements self !! generate_key value with
  | Some element => bool_decide (el_tags element <> [])
  | None => false
  end.

Definition values (self : ORSet T) : list T :=
  el_value <$> filter (fun e => el_tags e <> []) (map_to_list (elements self)).*2.

Definition size (self : ORSet T) : nat :=
  length (filter (fun e => el_tags e <> []) (map_to_list (elements self)).*2).

Definition merge_tag (tag_map : gmap string ORSetTag) (tag : ORSetTag) : gmap string ORSetTag :=
  match tag_map !! tag_id tag with
  | Some existing =>
      <[tag_id tag := existing <| tag_vector_clock :=
          vector_clock.merge (tag_vector_clock existing) (tag_vector_clock tag) |>]> tag_map
  | None => <[tag_id tag := tag]> tag_map
  end.

Definition merge_tags (tags1 tags2 : list ORSetTag) : list ORSetTag :=
  let tag_map := foldl (fun m tag => <[tag_id tag := tag]> m) (∅ : gmap string ORSetTag) tags1 in
  (map_to_list (foldl merge_tag tag_map tags2)).*2.

Definition merge_element (self : gmap string (ORSetElement T)) (key : string)
    (other_element : ORSetElement T) : gmap string (ORSetElement T) :=
  match self !! key with
  | Some existing =>
      let merged_tags := merge_tags (el_tags existing) (el_tags other_element) in
      if bool_decide (merged_tags = []) then delete key self
      else <[key := mkElement (el_value existing) merged_tags]> self
  | None => <[key := other_element]> self
  end.

Definition merge (self other : ORSet T) : ORSet T :=
  mkORSet (walk merge_element (elements self) (map_to_list (elements other))).

Definition clear (self : ORSet T) : ORSet T := mkORSet ∅.

(** *** The tags that a replica has observed

    The abstract state: for every key the identifiers of its tags. *)
Definition ids (tags : list ORSetTag) : gset string := list_to_set (tag_id <$> tags).
Definition observed (self : ORSet T) (key : string) : gset string :=
  from_option (fun e => ids (el_tags e)) ∅ (elements self !! key).

Lemma ids_nil tags : ids tags = ∅ <-> tags = [].
Proof. unfold ids. destruct tags; [done|]. cbn. split; [set_solver|done]. Qed.

Lemma has_observed self v : has self v = true <-> observed self (generate_key v) <> ∅.
Proof.
  unfold has, observed. destruct (elements self !! generate_key v) as [e|]; cbn; [|done].
  by rewrite bool_decide_eq_true, ids_nil.
Qed.

(** The map by identifier that [merge_tags] builds. *)
Definition indexed (m : gmap string ORSetTag) : Prop := map_Forall (fun i t => tag_id t = i) m.

Lemma indexed_first tags : forall m, indexed m ->
  indexed (foldl (fun m tag => <[tag_id tag := tag]> m) m tags) /\
  dom (foldl (fun m tag => <[tag_id tag := tag]> m) m tags) = dom m ∪ ids tags.
Proof.
  induction tags as [|t tags IH]; cbn; intros m Hm; [split; [done|set_solver]|].
  destruct (IH (<[tag_id t := t]> m)) as [Hi Hd]; [by apply map_Forall_insert_2|].
  split; [done|]. rewrite Hd, dom_insert_L. unfold ids. cbn. set_solver.
Qed.

Lemma merge_tag_indexed m t :
  indexed m -> indexed (merge_tag m t) /\ dom (merge_tag m t) = {[tag_id t]} ∪ dom m.
Proof.
  intros Hm. unfold merge_tag. destruct (m !! tag_id t) as [t'|] eqn:Ht.
  - split; [|apply dom_insert_L]. apply map_Forall_insert_2; [|done]. upd_simpl. by apply (Hm _ _ Ht).
  - split; [|apply dom_insert_L]. by apply map_Forall_insert_2.
Qed.

Lemma indexed_second tags : forall m, indexed m ->
  indexed (foldl merge_tag m tags) /\ dom (foldl merge_tag m tags) = dom m ∪ ids tags.
Proof.
  induction tags as [|t tags IH]; cbn; intros m Hm; [split; [done|set_solver]|].
  destruct (merge_tag_indexed m t Hm) as [Hm' Hd]. destruct (IH _ Hm') as [Hi Hd'].
  split; [done|]. rewrite Hd', Hd. unfold ids. cbn. set_solver.
Qed.

Lemma indexed_ids m : indexed m -> ids (map_to_list m).*2 = dom m.
Proof.
  intros Hm. apply set_eq. intros i. unfold ids.
  rewrite elem_of_list_to_set, list_elem_of_fmap, elem_of_dom. split.
  - intros (t & -> & ([i' t'] & -> & Ht%elem_of_map_to_list)%list_elem_of_fmap). cbn.
    pose proof (Hm _ _ Ht) as Hi. cbn in Hi. rewrite Hi. by eexists.
  - intros [t Ht]. exists t. split; [symmetry; by apply (Hm _ _ Ht)|].
    apply list_elem_of_fmap. exists (i, t). split; [done|]. by apply elem_of_map_to_list.
Qed.

Lemma ids_merge_tags t1 t2 : ids (merge_tags t1 t2) = ids t1 ∪ ids t2.
Proof.
  unfold merge_tags. destruct (indexed_first t1 ∅) as [H1 D1]; [apply map_Forall_empty|].
  destruct (indexed_second t2 _ H1) as [H2 D2]. rewrite indexed_ids by done.
  by rewrite D2, D1, dom_empty_L, (left_id_L ∅ (∪)).
Qed.

(** *** What the operations do to the observed tags *)
Lemma or_lookup_merge a b k :
  elements (merge a b) !! k
  = match elements b !! k with
    | Some eb =>
        match elements a !! k with
        | Some ea => let tags := merge_tags (el_tags ea) (el_tags eb) in
                     if bool_decide (tags = []) then None else Some (mkElement (el_value ea) tags)
        | None => Some eb
        end
    | None => elements a !! k
    end.
Proof.
  unfold merge. cbn. rewrite (walk_map merge_element (fun o eb => match o with
        | Some ea => let tags := merge_tags (el_tags ea) (el_tags eb) in
                     if bool_decide (tags = []) then None else Some (mkElement (el_value ea) tags)
        | None => Some eb
        end)); [done|..].
  - intros m j e. unfold merge_element. destruct (m !! j); [|apply lookup_insert_eq].
    case_bool_decide; [apply lookup_delete_eq|apply lookup_insert_eq].
  - intros m j e i Hi. unfold merge_element. destruct (m !! j); [|by apply lookup_insert_ne].
    case_bool_decide; [by apply lookup_delete_ne|by apply lookup_insert_ne].
Qed.

Lemma observed_merge a b k : observed (merge a b) k = observed a k ∪ observed b k.
Proof.
  unfold observed. rewrite or_lookup_merge. destruct (elements b !! k) as [eb|]; cbn; [|set_solver].
  destruct (elements a !! k) as [ea|]; cbn; [|set_solver].
  rewrite <- ids_merge_tags. case_bool_decide as Hn; [by rewrite Hn|done].
Qed.

Lemma observed_add v n ms u s k :
  observed (add v n ms u s) k
  = if decide (k = generate_key v) then {[tag_id (generate_tag n ms u)]} ∪ observed s k
    else observed s k.
Proof.
  unfold observed, add.
  destruct (elements s !! generate_key v) as [e|] eqn:He; cbn; destruct (decide (k = _)) as [->|Hk];
    rewrite ?lookup_insert_eq, ?lookup_insert_ne, ?He by done; cbn; [|done| |done].
  - unfold ids. rewrite fmap_app. set_solver.
  - unfold ids. set_solver.
Qed.

Lemma observed_remove v s k :
  observed (remove v s) k = if decide (k = generate_key v) then ∅ else observed s k.
Proof.
  unfold observed, remove. cbn. case_decide as Hk.
  - by rewrite Hk, lookup_delete_eq.
  - by rewrite lookup_delete_ne.
Qed.

#[export] Instance observed_joins :
  Joins (pointwise_relation string (=@{gset string})) (fun f g k => f k ∪ g k).
Proof.
  split; [apply _|..].
  - intros f f' Hf g g' Hg k. by rewrite Hf, Hg.
  - intros f g k. apply (comm_L (∪)).
  - intros f g h k. apply (assoc_L (∪)).
  - intros f k. apply (idemp_L (∪)).
Qed.

#[export] Instance or_set_mergeable :
  Mergeable (fun _ : ORSet T => True) merge
    (pointwise_relation string (=@{gset string})) (fun f g k => f k ∪ g k) observed.
Proof. split; [apply _|done|]. intros a b _ _ k. apply observed_merge. Qed.

(** C40: The observed-remove set refines a map from keys to sets of tags.  An element
    is present when its key has a tag; an addition adds its own tag, a removal
    drops the tags of the key, a merge unites the tags of both replicas, so an
    addition wins over a removal that did not see it; and replicas that merged
    the same states, in any order and however often, have the same elements. *)
Theorem or_set_refines (s s' : ORSet T) (v : T) (node millis uuid : string) :
  (has s v = true <-> observed s (generate_key v) <> ∅) /\
  (forall k, observed (add v node millis uuid s) k
     = if decide (k = generate_key v)
       then {[(node +:+ "-" +:+ millis +:+ "-" +:+ uuid)%string]} ∪ observed s k
       else observed s k) /\
  (forall k, observed (remove v s) k = if decide (k = generate_key v) then ∅ else observed s k) /\
  (forall k, observed (merge s s') k = observed s k ∪ observed s' k) /\
  has (merge (remove v s') (add v node millis uuid s)) v = true /\
  (forall xs x' xs', (forall y, y ∈ s :: xs <-> y ∈ x' :: xs') ->
     forall v, has (foldl merge s xs) v = has (foldl merge x' xs') v).
Proof.
  split_and!; [apply has_observed|apply observed_add|apply observed_remove|apply observed_merge|..].
  - apply has_observed. rewrite observed_merge, observed_add, decide_True by done. set_solver.
  - intros xs x' xs' Hm w. apply eq_true_iff_eq. rewrite !has_observed.
    pose proof (merge_converges (fun _ => True) merge (pointwise_relation string (=@{gset string}))
      (fun f g k => f k ∪ g k) observed s xs x' xs') as Hc.
    rewrite Hc; [done| |done]. by apply Forall_true.
Qed.

(** Nothing records a removal: a replica that still has the element brings it back. *)
Lemma remove_undone (s : ORSet T) v : has (merge (remove v s) s) v = has s v.
Proof.
  apply eq_true_iff_eq. rewrite !has_observed, observed_merge, observed_remove, decide_True by done.
  by rewrite (left_id_L ∅ (∪)).
Qed.
End ORSet.

(** The theorem on three replicas with the texts themselves as keys. *)
Definition replica (n : string) : ORSet string := add id ("item of " +:+ n) n "1" "u" new.
Lemma or_set_refines_witness :
  has id (foldl merge (replica "n1") [replica "n2"; replica "n3"; replica "n2"]) "item of n3"
  = has id (foldl merge (replica "n3") [replica "n1"; replica "n2"]) "item of n3".
Proof.
  pose proof (or_set_refines id (replica "n1") new "x" "n" "1" "u") as (_ & _ & _ & _ & _ & Hc).
  apply Hc. intros y. rewrite !elem_of_cons, elem_of_nil. tauto.
Defined.
End or_set.
