(* ===== verification/CrdtLww.v ===== *)
(** * Server: the last-write-wins set

    [lww_element_set.rs].  The key of an element is its JSON text, a parameter; the
    current time, which an operation without a timestamp takes, is an argument. *)

From stdpp Require Import base tactics numbers list strings gmap fin_maps.
From S2P Require Import Prelude.
From S2P Require Import CrdtClock.
Import vector_clock.

Module lww_element_set.
Record LWWElement (T : Type) := mkElement {
  el_value : T;
  el_timestamp : Z; (* i64 *)
  el_vector_clock : VectorClock;
  el_is_add : bool;
}.
Arguments mkElement {T}. Arguments el_value {T}. Arguments el_timestamp {T}.
Arguments el_vector_clock {T}. Arguments el_is_add {T}.

Record LWWElementSet (T : Type) := mkSet { elements : gmap string (LWWElement T) }.
Arguments mkSet {T}. Arguments elements {T}.

(** [element.vector_clock = clock]. *)
Definition set_clock {T} (clock : VectorClock) (e : LWWElement T) : LWWElement T :=
  mkElement (el_value e) (el_timestamp e) clock (el_is_add e).

Section LWW.
Context {T : Type}.
(** [serde_json::to_string(value).unwrap_or_default()]. *)
Variable generate_key : T -> string.

Definition new : LWWElementSet T := mkSet ∅.

Definition add (value : T) (node_id : string) (timestamp : option Z) (now : Z)
    (self : LWWElementSet T) : LWWElementSet T :=
  let key := generate_key value in
  let effective_timestamp := default now timestamp in
  let vector_clock := vector_clock.new node_id 1 in
  let element := mkElement value effective_timestamp vector_clock true in
  match elements self !! key with
  | Some existing =>
      if el_timestamp existing <? effective_timestamp then mkSet (<[key := element]> (elements self))
      else if effective_timestamp =? el_timestamp existing then
        let comparison := compare vector_clock (el_vector_clock existing) in
        if 0 <? comparison then mkSet (<[key := element]> (elements self)) else self
      else self
  | None => mkSet (<[key := element]> (elements self))
  end.

Definition remove (value : T) (node_id : string) (timestamp : option Z) (now : Z)
    (self : LWWElementSet T) : LWWElementSet T :=
  let key := generate_key value in
  let effective_timestamp := default now timestamp in
  let vector_clock := vector_clock.new node_id 1 in
  let element := mkElement value effective_timestamp vector_clock false in
  match elements self !! key with
  | Some existing =>
      if el_timestamp existing <? effective_timestamp then mkSet (<[key := element]> (elements self))
      else if effective_timestamp =? el_timestamp existing then
        let comparison := compare vector_clock (el_vector_clock existing) in
        if 0 <? comparison then mkSet (<[key := element]> (elements self)) else self
      else self
  | None => mkSet (<[key := element]> (elements self))
  end.

Definition has (self : LWWElementSet T) (value : T) : bool :=
  match elements self !! generate_key value with
  | Some element => el_is_add element
  | None => false
  end.

Definition values (self : LWWElementSet T) : list T :=
  el_value <$> filter (fun e => el_is_add e = true) (map_to_list (elements self)).*2.

Definition size (self : LWWElementSet T) : nat :=
  length (filter (fun e => el_is_add e = true) (map_to_list (elements self)).*2).

(** The body of the loop of [merge]. *)
Definition merge_element (self : gmap string (LWWElement T)) (key : string)
    (other_element : LWWElement T) : gmap string (LWWElement T) :=
  match self !! key with
  | Some existing =>
      if el_timestamp existing <? el_timestamp other_element then <[key := other_element]> self
      else if el_timestamp other_element =? el_timestamp existing then
        let merged_clock := vector_clock.merge (el_vector_clock existing)
                              (el_vector_clock other_element) in
        let comparison := compare (el_vector_clock other_element) (el_vector_clock existing) in
        if 0 <? comparison then
          <[key := set_clock merged_clock other_element]> self
        else if comparison =? 0 then
          if el_is_add other_element && negb (el_is_add existing) then
            <[key := set_clock merged_clock other_element]> self
          else self
        else self
      else self
  | None => <[key := other_element]> self
  end.

Definition merge (self other : LWWElementSet T) : LWWElementSet T :=
  mkSet (walk merge_element (elements self) (map_to_list (elements other))).

Definition clear (self : LWWElementSet T) : LWWElementSet T := mkSet ∅.

(** *** The last write of a key

    The abstract state: for every key the timestamp of the write that counts and
    whether it was an addition.  The later write counts, and of two writes of the
    same time an addition. *)
Definition Stamp : Type := Z * bool.
Definition later (a b : Stamp) : Stamp :=
  if a.1 <? b.1 then b else if b.1 <? a.1 then a else (a.1, a.2 || b.2).
Definition last_of (a b : option Stamp) : option Stamp := union_with (fun a b => Some (later a b)) a b.
Definition stamp_of (e : LWWElement T) : Stamp := (el_timestamp e, el_is_add e).
Definition written (self : LWWElementSet T) (key : string) : option Stamp :=
  stamp_of <$> elements self !! key.

(** Decide the comparisons of timestamps in the goal. *)
Ltac stamps :=
  repeat (cbn in *; match goal with
  | |- context [?x <? ?y] => is_var x; is_var y; destruct (Z.ltb_spec x y)
  end);
  cbn in *; try lia; try done.

Lemma later_comm a b : later a b = later b a.
Proof. destruct a as [t a], b as [u b]. unfold later. stamps. f_equal; [lia|apply orb_comm]. Qed.

Lemma later_assoc a b c : later a (later b c) = later (later a b) c.
Proof.
  destruct a as [t a], b as [u b], c as [v c]. unfold later. stamps.
  f_equal. apply orb_assoc.
Qed.

Lemma later_idem a : later a a = a.
Proof. destruct a as [t a]. unfold later. stamps. by rewrite orb_diag. Qed.

#[export] Instance last_of_joins :
  Joins (pointwise_relation string (=@{option Stamp})) (fun f g k => last_of (f k) (g k)).
Proof.
  split; [apply _|..].
  - intros f f' Hf g g' Hg k. by rewrite Hf, Hg.
  - intros f g k. destruct (f k), (g k); try done. cbn. by rewrite later_comm.
  - intros f g h k. destruct (f k), (g k), (h k); try done. cbn. by rewrite later_assoc.
  - intros f k. destruct (f k); [|done]. cbn. by rewrite later_idem.
Qed.

(** *** The clocks of the elements

    All clocks come from [VectorClock::new(node, 1)] and merges: they count at most
    one event per node and at least one in all, and a removal exactly one. *)
Record stamped (e : LWWElement T) : Prop := {
  st_some : exists n, get_counter (el_vector_clock e) n = 1%N;
  st_one : forall n, (get_counter (el_vector_clock e) n <= 1)%N;
  st_remove : el_is_add e = false -> exists n, el_vector_clock e ≡ vector_clock.new n 1;
}.
Definition valid (self : LWWElementSet T) : Prop := map_Forall (fun _ e => stamped e) (elements self).

Lemma new_not_above (c : VectorClock) n :
  (exists m, get_counter c m = 1%N) -> leq c (vector_clock.new n 1) -> leq (vector_clock.new n 1) c.
Proof.
  intros [m Hm] Hle i. rewrite get_counter_new. case_decide as Hi; [subst|lia].
  pose proof (Hle m) as Hnm. rewrite get_counter_new in Hnm. case_decide; subst; lia.
Qed.

(** At the same time a removal is never above another write. *)
Lemma remove_not_above e e' :
  stamped e -> stamped e' -> el_is_add e = false ->
  compare (el_vector_clock e) (el_vector_clock e') <> 1.
Proof.
  intros He He' Hr. destruct (compare_spec (el_vector_clock e) (el_vector_clock e')) as (_ & -> & _).
  intros [Hle Hn]. apply Hn. destruct (st_remove e He Hr) as [n Hc]. rewrite Hc in Hle |- *.
  apply new_not_above; [apply He'|done].
Qed.

(** The element that [merge_element] leaves at a key both replicas have. *)
Definition pick (existing other : LWWElement T) : LWWElement T :=
  let merged := vector_clock.merge (el_vector_clock existing) (el_vector_clock other) in
  let comparison := compare (el_vector_clock other) (el_vector_clock existing) in
  if el_timestamp existing <? el_timestamp other then other
  else if el_timestamp other =? el_timestamp existing then
    if (0 <? comparison) || ((comparison =? 0) && (el_is_add other && negb (el_is_add existing)))
    then set_clock merged other else existing
  else existing.

Lemma merge_element_lookup m k e :
  merge_element m k e !! k = Some (from_option (fun x => pick x e) e (m !! k)).
Proof.
  unfold merge_element, pick. destruct (m !! k) as [x|] eqn:Hx; cbn; [|apply lookup_insert_eq].
  repeat case_match; cbn in *; try discriminate; rewrite ?lookup_insert_eq; done.
Qed.

Lemma merge_element_other m k e j : j <> k -> merge_element m k e !! j = m !! j.
Proof.
  intros Hj. unfold merge_element. repeat case_match; try done; by apply lookup_insert_ne.
Qed.

Lemma lww_lookup_merge a b k :
  elements (merge a b) !! k
  = match elements b !! k with
    | Some e => Some (from_option (fun x => pick x e) e (elements a !! k))
    | None => elements a !! k
    end.
Proof.
  apply (walk_map merge_element (fun o e => Some (from_option (fun x => pick x e) e o)));
    [apply merge_element_lookup|apply merge_element_other].
Qed.

Lemma merged_stamped e e' :
  stamped e -> stamped e' -> el_is_add e = true ->
  stamped (set_clock (vector_clock.merge (el_vector_clock e') (el_vector_clock e)) e).
Proof.
  intros [[n Hn] H1 _] [_ H1' _] Ha. split; cbn; [|intros m|congruence].
  - exists n. rewrite get_counter_merge, Hn. specialize (H1' n). lia.
  - rewrite get_counter_merge. specialize (H1 m). specialize (H1' m). lia.
Qed.

Lemma pick_spec e e' :
  stamped e -> stamped e' ->
  stamped (pick e e') /\ stamp_of (pick e e') = later (stamp_of e) (stamp_of e').
Proof.
  intros He He'. unfold pick, later, stamp_of. cbn [fst snd].
  destruct (Z.ltb_spec (el_timestamp e) (el_timestamp e')) as [Ht|Ht]; [done|].
  destruct (Z.eqb_spec (el_timestamp e') (el_timestamp e)) as [Heq|Hne].
  - rewrite (proj2 (Z.ltb_ge (el_timestamp e') (el_timestamp e))) by lia.
    pose proof (remove_not_above e' e He' He) as Hp'. pose proof (remove_not_above e e' He He') as Hp.
    pose proof (merged_stamped e' e He' He) as Hm.
    destruct (compare_cases (el_vector_clock e') (el_vector_clock e)) as [Hc|[Hc|Hc]];
      rewrite Hc; [apply compare_flip in Hc| |]; destruct (el_is_add e) eqn:Ha, (el_is_add e') eqn:Ha';
      cbn in *; rewrite ?Ha, ?Ha', ?Heq in *; naive_solver.
  - rewrite (proj2 (Z.ltb_lt (el_timestamp e') (el_timestamp e))) by lia. done.
Qed.

Lemma written_merge a b k :
  valid a -> valid b -> written (merge a b) k = last_of (written a k) (written b k).
Proof.
  intros Ha Hb. unfold written. rewrite lww_lookup_merge.
  destruct (elements b !! k) as [eb|] eqn:Eb, (elements a !! k) as [ea|] eqn:Ea; try done. cbn.
  f_equal. apply pick_spec; [by apply (Ha k)|by apply (Hb k)].
Qed.

Lemma merge_keeps_valid a b : valid a -> valid b -> valid (merge a b).
Proof.
  intros Ha Hb k e. rewrite lww_lookup_merge.
  destruct (elements b !! k) as [eb|] eqn:Eb, (elements a !! k) as [ea|] eqn:Ea; cbn; intros [= <-].
  - apply pick_spec; [by apply (Ha k)|by apply (Hb k)].
  - by apply (Hb k).
  - by apply (Ha k).
Qed.

#[export] Instance lww_mergeable :
  Mergeable valid merge (pointwise_relation string (=@{option Stamp}))
    (fun f g k => last_of (f k) (g k)) written.
Proof.
  split; [apply _|apply merge_keeps_valid|]. intros a b Ha Hb k. by apply written_merge.
Qed.

Lemma has_written self v : has self v = true <-> exists t, written self (generate_key v) = Some (t, true).
Proof.
  unfold has, written, stamp_of. destruct (elements self !! generate_key v) as [e|]; cbn; split.
  - intros ->. by eexists.
  - by intros [t [= _ ->]].
  - done.
  - by intros [t Ht].
Qed.

(** *** The writes of a replica *)
Record Write := mkWrite { wr_value : T; wr_node : string; wr_time : Z; wr_is_add : bool }.

Definition apply_write (w : Write) (s : LWWElementSet T) : LWWElementSet T :=
  if wr_is_add w then add (wr_value w) (wr_node w) (Some (wr_time w)) 0 s
  else remove (wr_value w) (wr_node w) (Some (wr_time w)) 0 s.

(** The states of a replica with the writes that it has heard of, its own and those
    that came with the states it merged. *)
Inductive replica : LWWElementSet T -> list Write -> Prop :=
  | replica_new : replica new []
  | replica_write s h w : replica s h -> replica (apply_write w s) (w :: h)
  | replica_merge s h s' h' : replica s h -> replica s' h' -> replica (merge s s') (h ++ h').

(** No addition and removal of the same element have the same time. *)
Definition no_ties (h : list Write) : Prop :=
  forall w w', w ∈ h -> w' ∈ h -> generate_key (wr_value w) = generate_key (wr_value w') ->
    wr_time w = wr_time w' -> wr_is_add w = wr_is_add w'.

Lemma new_element_stamped v t n b : stamped (mkElement v t (vector_clock.new n 1) b).
Proof.
  split; cbn.
  - exists n. by rewrite get_counter_new, decide_True.
  - intros m. rewrite get_counter_new. case_decide; lia.
  - intros _. by exists n.
Qed.

(** A write takes effect exactly when it is later than the element: a fresh clock is
    never above the clock of an element. *)
Lemma apply_write_cases w s :
  valid s ->
  let key := generate_key (wr_value w) in
  let element := mkElement (wr_value w) (wr_time w) (vector_clock.new (wr_node w) 1) (wr_is_add w) in
  apply_write w s
  = if match elements s !! key with Some e => el_timestamp e <? wr_time w | None => true end
    then mkSet (<[key := element]> (elements s)) else s.
Proof.
  intros Hs key element.
  assert (apply_write w s = match elements s !! key with
    | Some e => if el_timestamp e <? wr_time w then mkSet (<[key := element]> (elements s))
                else if wr_time w =? el_timestamp e then
                  if 0 <? compare (vector_clock.new (wr_node w) 1) (el_vector_clock e)
                  then mkSet (<[key := element]> (elements s)) else s
                else s
    | None => mkSet (<[key := element]> (elements s))
    end) as ->.
  { unfold apply_write, add, remove, element. by destruct (wr_is_add w). }
  destruct (elements s !! key) as [e|] eqn:He; [|done]. case_match; [done|].
  case_match; [|done]. destruct (0 <? _) eqn:Hc; [|done]. exfalso.
  apply compare_pos, compare_spec in Hc as [Hle Hn]. apply Hn, new_not_above; [|done].
  by apply (st_some e), (Hs key).
Qed.

Lemma write_written w s :
  valid s ->
  valid (apply_write w s) /\
  forall k, written (apply_write w s) k
  = if decide (k = generate_key (wr_value w)) then
      match written s k with
      | Some (t, b) => Some (if t <? wr_time w then (wr_time w, wr_is_add w) else (t, b))
      | None => Some (wr_time w, wr_is_add w)
      end
    else written s k.
Proof.
  intros Hs. rewrite apply_write_cases by done. unfold written. split.
  - case_match; [|done]. apply map_Forall_insert_2; [apply new_element_stamped|done].
  - intros k. destruct (decide (k = _)) as [->|Hk].
    + destruct (elements s !! generate_key (wr_value w)) as [e|] eqn:He; cbn.
      * destruct (el_timestamp e <? wr_time w); cbn; by rewrite ?lookup_insert_eq, ?He.
      * by rewrite lookup_insert_eq.
    + case_match; cbn; by rewrite ?lookup_insert_ne by done.
Qed.

(** The last of a list of writes of a key. *)
Definition stamp_write (w : Write) : Stamp := (wr_time w, wr_is_add w).
Definition last_write (h : list Write) (k : string) : option Stamp :=
  foldr (fun w acc => if decide (generate_key (wr_value w) = k) then last_of (Some (stamp_write w)) acc
                      else acc) None h.

Lemma last_of_assoc a b c : last_of a (last_of b c) = last_of (last_of a b) c.
Proof. destruct a, b, c; try done. cbn. by rewrite later_assoc. Qed.

Lemma last_write_app h h' k : last_write (h ++ h') k = last_of (last_write h k) (last_write h' k).
Proof.
  induction h as [|w h IH].
  { change (last_write h' k = last_of None (last_write h' k)). by destruct (last_write h' k). }
  cbn [app last_write foldr].
  change (foldr _ None ?l) with (last_write l k). rewrite IH. case_decide; [|done].
  apply last_of_assoc.
Qed.

Lemma later_either a b : later a b = a \/ later a b = b.
Proof. destruct a as [t a], b as [u b]. unfold later. stamps; [tauto..|]. destruct a, b; auto. right. f_equal. lia. Qed.

Lemma last_write_in h k st :
  last_write h k = Some st -> exists w, w ∈ h /\ generate_key (wr_value w) = k /\ stamp_write w = st.
Proof.
  revert st. induction h as [|w h IH]; [done|]. intros st.
  cbn [last_write foldr]. change (foldr _ None h) with (last_write h k).
  case_decide as Hk; [|intros (w' & Hw & Hk' & Hs)%IH; exists w'; set_solver].
  destruct (last_write h k) as [st'|]; cbn; intros [= <-]; [|exists w; set_solver].
  destruct (later_either (stamp_write w) st') as [->| ->]; [exists w; set_solver|].
  destruct (IH st' eq_refl) as (w' & Hw & Hk' & Hs). exists w'. set_solver.
Qed.

Lemma no_ties_sub h h' : (forall w, w ∈ h' -> w ∈ h) -> no_ties h -> no_ties h'.
Proof. intros Hs Ht w w' Hw Hw'. apply Ht; auto. Qed.

(** Without ties a replica holds, for every key, the last write it has heard of. *)
Lemma replica_written s h :
  replica s h -> valid s /\ (no_ties h -> forall k, written s k = last_write h k).
Proof.
  induction 1 as [|s h w _ [Hv IH]|s h s' h' _ [Hv IH] _ [Hv' IH']].
  - split; [apply map_Forall_empty|]. intros _ k. unfold written. cbn. by rewrite lookup_empty.
  - destruct (write_written w s Hv) as [Hv' Hw]. split; [done|]. intros Ht k. rewrite Hw.
    rewrite IH by (eapply no_ties_sub; [|exact Ht]; set_solver).
    cbn [last_write foldr]. change (foldr _ None h) with (last_write h k).
    destruct (decide (k = _)) as [->|Hk]; [rewrite decide_True by done|by rewrite decide_False by done].
    destruct (last_write h _) as [[t b]|] eqn:Hl; [|done]. cbn. f_equal.
    apply last_write_in in Hl as (w' & Hin & Hkey & [= <- <-]). unfold later. cbn.
    destruct (Z.ltb_spec (wr_time w') (wr_time w)).
    + rewrite (proj2 (Z.ltb_ge _ _)) by lia. done.
    + destruct (Z.ltb_spec (wr_time w) (wr_time w')); [done|].
      rewrite (Ht w w') by (done || lia || set_solver). f_equal; [lia|]. by rewrite orb_diag.
  - split; [by apply merge_keeps_valid|]. intros Ht k.
    rewrite written_merge, last_write_app, IH, IH'; try done; eapply no_ties_sub; try exact Ht; set_solver.
Qed.

(** The last write as a statement on the writes themselves. *)
Lemma last_write_le h k w :
  w ∈ h -> generate_key (wr_value w) = k ->
  exists st, last_write h k = Some st /\ later (stamp_write w) st = st.
Proof.
  intros Hw Hk. induction h as [|x h IH]; [set_solver|].
  cbn [last_write foldr]. change (foldr _ None h) with (last_write h k).
  apply elem_of_cons in Hw as [<-|Hw].
  - rewrite decide_True by done. destruct (last_write h k) as [st|]; cbn; eexists; split; try done.
    + by rewrite later_assoc, later_idem.
    + apply later_idem.
  - destruct (IH Hw) as (st & -> & Hst). case_decide; [|by exists st]. cbn. eexists. split; [done|].
    by rewrite later_assoc, (later_comm _ (stamp_write x)), <- later_assoc, Hst.
Qed.

Lemma later_absorbed a b : later a b = b <-> a.1 < b.1 \/ a.1 = b.1 /\ (a.2 = true -> b.2 = true).
Proof.
  destruct a as [t a], b as [u b]. unfold later. cbn.
  destruct (Z.lt_trichotomy t u) as [Hlt|[->|Hgt]].
  - rewrite (proj2 (Z.ltb_lt t u)) by done. tauto.
  - rewrite Z.ltb_irrefl. split.
    + intros [= Hb]. right. split; [done|]. by intros ->.
    + intros [|[_ Hab]]; [lia|]. destruct a; [by rewrite Hab|done].
  - rewrite (proj2 (Z.ltb_ge t u)), (proj2 (Z.ltb_lt u t)) by lia. split; [intros [=]; lia|lia].
Qed.

Lemma has_last s h v :
  replica s h -> no_ties h ->
  has s v = true <->
  exists w, w ∈ h /\ generate_key (wr_value w) = generate_key v /\ wr_is_add w = true /\
    forall w', w' ∈ h -> generate_key (wr_value w') = generate_key v ->
      wr_is_add w' = false -> wr_time w' < wr_time w.
Proof.
  intros Hr Ht. rewrite has_written. destruct (replica_written s h Hr) as [_ Hw].
  rewrite Hw by done. split.
  - intros [t Hl]. pose proof (last_write_in _ _ _ Hl) as (w & Hin & Hk & [= <- Ha]).
    exists w. split_and!; [done..|]. intros w' Hin' Hk' Ha'.
    destruct (last_write_le h _ w' Hin' Hk') as (st & Hst & Hab). rewrite Hl in Hst. injection Hst as <-.
    apply later_absorbed in Hab as [Hlt|[Heq _]]; [done|]. cbn in Heq.
    specialize (Ht w w' Hin Hin'). rewrite Hk, Hk', Heq, Ha, Ha' in Ht. by specialize (Ht eq_refl eq_refl).
  - intros (w & Hin & Hk & Ha & Hlast).
    destruct (last_write_le h _ w Hin Hk) as ([t b] & Hst & Hab). rewrite Hst. exists t.
    destruct b; [done|]. pose proof (last_write_in _ _ _ Hst) as (w' & Hin' & Hk' & [= <- Ha']).
    specialize (Hlast w' Hin' Hk' Ha'). apply later_absorbed in Hab as [Hlt|[Heq Himp]]; cbn in *; [lia|].
    by specialize (Himp Ha).
Qed.


(** Ties or not, replicas that merged the same states have the same elements. *)
Lemma lww_merges_converge x xs x' xs' v :
  Forall valid (x :: xs) -> (forall y, y ∈ x :: xs <-> y ∈ x' :: xs') ->
  has (foldl merge x xs) v = has (foldl merge x' xs') v.
Proof.
  intros Hv Hm. apply eq_true_iff_eq. rewrite !has_written.
  by setoid_rewrite (merge_converges valid merge (pointwise_relation string (=@{option Stamp}))
    (fun f g k => last_of (f k) (g k)) written x xs x' xs' Hv Hm (generate_key v)).
Qed.
End LWW.

(** Two replicas that write about the same item and exchange their states. *)
Definition ann : LWWElementSet string := add id "seat" "a" (Some 10) 0 new.
Definition bob : LWWElementSet string := remove id "seat" "b" (Some 20) 0 (add id "hat" "b" (Some 5) 0 new).


(** The merge prefers an addition over a removal of the same time, a local addition
    does not: the same two writes leave different elements. *)
Example tie_depends_on_route :
  has id (add id "seat" "a" (Some 10) 0 (remove id "seat" "b" (Some 10) 0 new)) "seat" = false /\
  has id (merge (remove id "seat" "b" (Some 10) 0 new) (add id "seat" "a" (Some 10) 0 new)) "seat" = true.
Proof. split; reflexivity. Qed.

(** The merge keeps the clock of the winner or the merged one, depending on the
    direction. *)
Example merged_clocks_differ :
  let a := add id "seat" "a" (Some 10) 0 new in
  let b := remove id "seat" "b" (Some 10) 0 new in
  option_map (fun e => map_to_list (counters (el_vector_clock e))) (elements (merge a b) !! "seat")
    = Some [("a", 1%N)] /\
  option_map (fun e => base.size (counters (el_vector_clock e))) (elements (merge b a) !! "seat") = Some 2%nat.
Proof. split; reflexivity. Qed.
End lww_element_set.
