(* ===== verification/Sync.v ===== *)
(** * Server: delta synchronisation

    [handlers/sync.rs]: the endpoint by which clients that worked offline exchange
    their deltas.  The state is the clock of the server and the deltas of each
    node; the database pool is not used by the code.  JSON values are carried
    around unread ([V]).  The lock of the clock is released between the read and
    the write of a request, which is why [delta_sync] is also given as its two
    atomic steps. *)

From stdpp Require Import base tactics numbers list strings gmap fin_maps.
From Stdlib Require Import Sorting.Sorted.
From S2P Require Import Prelude.
From S2P Require Import CrdtClock.
Import vector_clock.

Module sync.
Inductive DeltaOperation := Add | Remove | Update.

Section Sync.
Context {V : Type}.

Record DeltaEntry := mkDelta {
  de_id : string;
  de_entity_type : string;
  de_entity_id : string;
  de_operation : DeltaOperation;
  de_value : V;
  de_vector_clock : gmap string N;
  de_timestamp : Z; (* i64 *)
  de_synced : bool;
}.

Record SyncRequest := mkRequest {
  rq_node_id : string;
  rq_vector_clock : gmap string N;
  rq_deltas : list DeltaEntry;
}.

Record SyncResponse := mkResponse {
  rs_server_vector_clock : gmap string N;
  rs_server_deltas : list DeltaEntry;
  rs_merged_vector_clock : gmap string N;
}.

Record SyncState := mkState {
  server_vector_clock : VectorClock;
  delta_store : gmap string (list DeltaEntry);
}.

Definition new : SyncState := mkState vector_clock.empty ∅.

(** The deltas of all nodes, in the order in which the map is walked. *)
Definition compute_server_deltas (state : SyncState) (client_clock : VectorClock) : list DeltaEntry :=
  mjoin ((fun deltas =>
      filter (fun delta =>
          let delta_clock := mkVectorClock (de_vector_clock delta) in
          (happened_before delta_clock client_clock || is_concurrent delta_clock client_clock) = true)
        deltas) <$> (map_to_list (delta_store state)).*2).

(** The three operations only write to the log. *)
Definition apply_client_deltas (state : SyncState) (deltas : list DeltaEntry) : SyncState := state.

(** [sort_by] is stable. *)
Fixpoint insert_by_timestamp (d : DeltaEntry) (l : list DeltaEntry) : list DeltaEntry :=
  match l with
  | [] => [d]
  | x :: l' => if de_timestamp d <=? de_timestamp x then d :: l
               else x :: insert_by_timestamp d l'
  end.
Definition sort_by_timestamp (l : list DeltaEntry) : list DeltaEntry :=
  foldr insert_by_timestamp [] l.

Definition MAX_NODE_DELTAS : nat := 1000.

Definition push_delta (node_deltas : list DeltaEntry) (delta : DeltaEntry) : list DeltaEntry :=
  if existsb (fun d => bool_decide (de_id d = de_id delta)) node_deltas then node_deltas
  else node_deltas ++ [delta].

Definition prune (node_deltas : list DeltaEntry) : list DeltaEntry :=
  if (MAX_NODE_DELTAS <? length node_deltas)%nat then
    let sorted := sort_by_timestamp node_deltas in
    drop (length sorted - MAX_NODE_DELTAS) sorted
  else node_deltas.

Definition store_client_deltas (state : SyncState) (node_id : string) (deltas : list DeltaEntry)
    : SyncState :=
  let node_deltas := default [] (delta_store state !! node_id) in
  mkState (server_vector_clock state)
    (<[node_id := prune (foldl push_delta node_deltas deltas)]> (delta_store state)).

Definition set_clock (c : VectorClock) (state : SyncState) : SyncState :=
  mkState c (delta_store state).

(** The handler, as the blocks between which its lock guards are released: the clock
    is read, the deltas are selected, the clock is written, the deltas are stored. *)
Definition read_clock (state : SyncState) : VectorClock := server_vector_clock state.

Definition respond (server_clock : VectorClock) (server_deltas : list DeltaEntry)
    (client_clock : VectorClock) : SyncResponse :=
  mkResponse (counters server_clock) server_deltas
    (counters (vector_clock.merge server_clock client_clock)).

Definition delta_sync (request : SyncRequest) (state : SyncState) : SyncResponse * SyncState :=
  let client_clock := mkVectorClock (rq_vector_clock request) in
  let server_clock := read_clock state in
  let server_deltas := compute_server_deltas state client_clock in
  let merged_clock := vector_clock.merge server_clock client_clock in
  let state := apply_client_deltas state (rq_deltas request) in
  let state := set_clock merged_clock state in
  let state := store_client_deltas state (rq_node_id request) (rq_deltas request) in
  (respond server_clock server_deltas client_clock, state).

Definition sync_status (state : SyncState) (node_id : string) : gmap string N * nat :=
  (counters (server_vector_clock state), default 0%nat (length <$> delta_store state !! node_id)).

(** *** Sorting *)
Lemma insert_by_timestamp_perm d l : insert_by_timestamp d l ≡ₚ d :: l.
Proof.
  induction l as [|x l IH]; [done|]. cbn. case_match; [done|]. rewrite IH. apply Permutation_swap.
Qed.

Lemma sort_by_timestamp_perm l : sort_by_timestamp l ≡ₚ l.
Proof. induction l as [|d l IH]; [done|]. cbn. by rewrite insert_by_timestamp_perm, IH. Qed.

Definition earlier (a b : DeltaEntry) : Prop := de_timestamp a <= de_timestamp b.

Lemma insert_by_timestamp_sorted d l :
  StronglySorted earlier l -> StronglySorted earlier (insert_by_timestamp d l).
Proof.
  induction 1 as [|x l Hs IH Hx]; [by repeat constructor|]. cbn. case_match eqn:Hd; bools.
  - constructor; [by constructor|]. constructor; [done|]. rewrite Forall_forall in *.
    intros y Hy. specialize (Hx y Hy). unfold earlier in *. lia.
  - constructor; [done|]. rewrite insert_by_timestamp_perm. constructor; [unfold earlier; lia|done].
Qed.

Lemma sort_by_timestamp_sorted l : StronglySorted earlier (sort_by_timestamp l).
Proof. induction l; cbn; [constructor|]. by apply insert_by_timestamp_sorted. Qed.

Lemma sorted_split l l1 l2 :
  StronglySorted earlier l -> l = l1 ++ l2 -> forall a b, a ∈ l1 -> b ∈ l2 -> earlier a b.
Proof.
  intros Hs ->. induction l1 as [|x l1 IH]; intros a b Ha Hb; [set_solver|].
  cbn in Hs. inversion Hs as [|? ? Hs' Hx]. subst. apply elem_of_cons in Ha as [->|Ha]; [|by apply IH].
  rewrite Forall_forall in Hx. apply Hx. set_solver.
Qed.

(** *** The store of a node *)
Definition wf_deltas (l : list DeltaEntry) : Prop :=
  NoDup (de_id <$> l) /\ (length l <= MAX_NODE_DELTAS)%nat.

Lemma push_deltas_spec deltas : forall l, NoDup (de_id <$> l) ->
  let l' := foldl push_delta l deltas in
  NoDup (de_id <$> l') /\ l `prefix_of` l' /\
  (forall d, d ∈ l' -> d ∈ l \/ d ∈ deltas) /\
  (forall d, d ∈ deltas -> de_id d ∈ de_id <$> l').
Proof.
  induction deltas as [|x deltas IH]; cbn; intros l Hl; [split_and!; [done..|tauto|set_solver]|].
  assert (NoDup (de_id <$> push_delta l x) /\ l `prefix_of` push_delta l x /\
    (forall d, d ∈ push_delta l x -> d ∈ l \/ d = x) /\ de_id x ∈ de_id <$> push_delta l x)
    as (Hn & Hp & Hin & Hx).
  { unfold push_delta. destruct (existsb _ l) eqn:He.
    - split_and!; [done..|tauto|]. apply existsb_exists in He as (d & Hd & Hid). bools.
      rewrite <- Hid. apply list_elem_of_fmap_2. by apply list_elem_of_In.
    - split_and!.
      + rewrite fmap_app. apply NoDup_app. split_and!; [done| |apply NoDup_singleton].
        intros i (d & -> & Hd)%list_elem_of_fmap Hi%list_elem_of_singleton.
        apply not_true_iff_false in He. apply He, existsb_exists. exists d.
        split; [by apply list_elem_of_In|]. by apply bool_decide_eq_true.
      + by eexists.
      + intros d. rewrite elem_of_app, list_elem_of_singleton. tauto.
      + rewrite fmap_app. set_solver. }
  destruct (IH _ Hn) as (Hn' & Hp' & Hin' & Hx'). split_and!; [done|by etrans|..].
  - intros d [[]%Hin|]%Hin'; set_solver.
  - intros d [->|Hd]%elem_of_cons; [|by apply Hx']. destruct Hp' as [k ->]. rewrite fmap_app. set_solver.
Qed.

Lemma prune_spec l :
  NoDup (de_id <$> l) ->
  wf_deltas (prune l) /\
  exists dropped, l ≡ₚ dropped ++ prune l /\
    (forall a b, a ∈ dropped -> b ∈ prune l -> de_timestamp a <= de_timestamp b) /\
    ((length l <= MAX_NODE_DELTAS)%nat -> dropped = []) /\
    length (prune l) = Nat.min (length l) MAX_NODE_DELTAS.
Proof.
  intros Hl. unfold prune. destruct (Nat.ltb_spec MAX_NODE_DELTAS (length l)) as [Hlong|Hshort].
  - set (sorted := sort_by_timestamp l). set (n := (length sorted - MAX_NODE_DELTAS)%nat).
    assert (sorted ≡ₚ l) as Hp by apply sort_by_timestamp_perm.
    assert (length sorted = length l) as Hlen by by rewrite Hp.
    assert (NoDup (de_id <$> take n sorted ++ drop n sorted)) as Hn by by rewrite take_drop, Hp.
    rewrite fmap_app in Hn. apply NoDup_app in Hn as (_ & _ & Hn).
    assert (length (drop n sorted) = MAX_NODE_DELTAS) as Hd by (rewrite length_drop; lia).
    split; [by split; [|rewrite Hd]|]. exists (take n sorted). split_and!.
    + by rewrite take_drop.
    + intros a b. eapply sorted_split; [apply sort_by_timestamp_sorted|]. symmetry. apply take_drop.
    + lia.
    + lia.
  - split; [by split|]. exists []. split_and!; [done|set_solver|done|lia].
Qed.

Definition client (request : SyncRequest) : VectorClock := mkVectorClock (rq_vector_clock request).
Definition stored (state : SyncState) (node : string) : list DeltaEntry :=
  default [] (delta_store state !! node).

Lemma elem_of_server_deltas state c d :
  d ∈ compute_server_deltas state c <->
  (exists node, d ∈ stored state node) /\
  (happened_before (mkVectorClock (de_vector_clock d)) c = true \/
   is_concurrent (mkVectorClock (de_vector_clock d)) c = true).
Proof.
  unfold compute_server_deltas, stored. rewrite list_elem_of_join. split.
  - intros (l & Hd & (l' & -> & Hl')%list_elem_of_fmap).
    apply list_elem_of_fmap in Hl' as ([node l2] & -> & Hl%elem_of_map_to_list).
    apply list_elem_of_filter in Hd as [Hc Hd]. apply orb_true_iff in Hc. split; [|done].
    exists node. by rewrite Hl.
  - intros [[node Hd] Hc]. destruct (delta_store state !! node) as [l|] eqn:Hl; [|set_solver].
    eexists. split; [|apply list_elem_of_fmap; exists l; split; [reflexivity|]].
    + apply list_elem_of_filter. by rewrite orb_true_iff.
    + apply list_elem_of_fmap. exists (node, l). split; [done|]. by apply elem_of_map_to_list.
Qed.

Lemma stored_store state node deltas node' :
  stored (store_client_deltas state node deltas) node'
  = if decide (node' = node) then prune (foldl push_delta (stored state node) deltas)
    else stored state node'.
Proof.
  unfold stored, store_client_deltas. cbn. case_decide as Hn.
  - by rewrite Hn, lookup_insert_eq.
  - by rewrite lookup_insert_ne.
Qed.

(** *** Requests that overlap

    A request is answered in four steps, each under its own lock; any number of
    requests run at the same time. *)
Inductive Phase :=
  | Begun
  | ClockRead (server_clock : VectorClock)
  | Selected (server_clock : VectorClock) (server_deltas : list DeltaEntry)
  | ClockWritten (server_clock : VectorClock) (server_deltas : list DeltaEntry)
  | Answered (response : SyncResponse).

Abbreviation Thread := (SyncRequest * Phase)%type.

Definition thread_step (th : Thread) (state : SyncState) : option (Thread * SyncState) :=
  let '(request, phase) := th in
  match phase with
  | Begun => Some ((request, ClockRead (read_clock state)), state)
  | ClockRead c =>
      Some ((request, Selected c (compute_server_deltas state (client request))), state)
  | Selected c ds =>
      Some ((request, ClockWritten c ds),
            set_clock (vector_clock.merge c (client request))
              (apply_client_deltas state (rq_deltas request)))
  | ClockWritten c ds =>
      Some ((request, Answered (respond c ds (client request))),
            store_client_deltas state (rq_node_id request) (rq_deltas request))
  | Answered _ => None
  end.

(** The states that requests reach, with the requests so far. *)
Inductive system : SyncState -> list Thread -> Prop :=
  | system_new : system new []
  | system_request s ths rq : system s ths -> system s (ths ++ [(rq, Begun)])
  | system_step s ths i th th' s' :
      system s ths -> ths !! i = Some th -> thread_step th s = Some (th', s') ->
      system s' (<[i := th']> ths).

(** A request that runs alone is [delta_sync]. *)
Lemma thread_alone request s0 :
  exists c ds s1,
    thread_step (request, Begun) s0 = Some ((request, ClockRead c), s0) /\
    thread_step (request, ClockRead c) s0 = Some ((request, Selected c ds), s0) /\
    thread_step (request, Selected c ds) s0 = Some ((request, ClockWritten c ds), s1) /\
    thread_step (request, ClockWritten c ds) s1
      = Some ((request, Answered (delta_sync request s0).1), (delta_sync request s0).2).
Proof. by do 3 eexists. Qed.

(** Every counter of a clock was reported by one of the clients. *)
Definition reported (ths : list Thread) (c : VectorClock) : Prop :=
  forall n, get_counter c n = 0%N \/ exists th, th ∈ ths /\ get_counter c n = get_counter (client th.1) n.

Definition held (ph : Phase) : VectorClock :=
  match ph with
  | ClockRead c | Selected c _ | ClockWritten c _ => c
  | Begun | Answered _ => vector_clock.empty
  end.

Record sound (s : SyncState) (ths : list Thread) : Prop := {
  so_clock : reported ths (server_vector_clock s);
  so_held : forall th, th ∈ ths -> reported ths (held th.2);
  so_stored : forall node, wf_deltas (stored s node);
  so_sent : forall node d, d ∈ stored s node ->
    exists th, th ∈ ths /\ rq_node_id th.1 = node /\ d ∈ rq_deltas th.1;
}.

Lemma reported_empty ths : reported ths vector_clock.empty.
Proof. intros n. left. unfold get_counter. cbn. by rewrite lookup_empty. Qed.

Lemma reported_merge ths c th :
  reported ths c -> th ∈ ths -> reported ths (vector_clock.merge c (client th.1)).
Proof.
  intros Hc Hth n. rewrite get_counter_merge. destruct (Hc n) as [->|(th' & Hin & ->)].
  - right. exists th. split; [done|lia].
  - destruct (N.max_spec (get_counter (client th'.1) n) (get_counter (client th.1) n)) as [[_ ->]|[_ ->]];
      right; [by exists th|by exists th'].
Qed.

(** The requests do not change. *)
Lemma reported_requests ths ths' c : ths.*1 = ths'.*1 -> reported ths c -> reported ths' c.
Proof.
  intros He Hc n. destruct (Hc n) as [|(th & Hin & Hn)]; [by left|right].
  apply (list_elem_of_fmap_2 fst) in Hin. rewrite He in Hin.
  apply list_elem_of_fmap in Hin as (th' & Heq & Hin). exists th'. by rewrite <- Heq.
Qed.

Lemma reported_more ths ths' c : reported ths c -> reported (ths ++ ths') c.
Proof. intros Hc n. destruct (Hc n) as [|(th & Hin & Hn)]; [by left|right]. exists th. set_solver. Qed.

Lemma sound_store s ths th :
  sound s ths -> th ∈ ths ->
  sound (store_client_deltas s (rq_node_id th.1) (rq_deltas th.1)) ths.
Proof.
  intros [Hc Hh Hw Hs] Hth. split; [done|done| |]; intros node; rewrite stored_store;
    case_decide as Hn; [|by apply Hw| |by apply Hs];
    destruct (push_deltas_spec (rq_deltas th.1) _ (proj1 (Hw (rq_node_id th.1)))) as (Hnd & _ & Hin & _);
    destruct (prune_spec _ Hnd) as [Hwf (dropped & Hp & _)]; [done|].
  intros d Hd. assert (d ∈ dropped ++ prune (foldl push_delta (stored s (rq_node_id th.1)) (rq_deltas th.1)))
    as Hd' by (apply elem_of_app; by right).
  rewrite <- Hp in Hd'. apply Hin in Hd' as [Hd'|Hd']; [|by exists th].
  rewrite Hn. by apply Hs.
Qed.

Lemma insert_requests (ths : list Thread) i th th' :
  ths !! i = Some th -> th'.1 = th.1 -> (<[i := th']> ths).*1 = ths.*1.
Proof.
  intros Hi He. rewrite list_fmap_insert. apply list_insert_id. by rewrite list_lookup_fmap, Hi, He.
Qed.

Lemma sound_phase s ths i request ph ph' :
  sound s ths -> ths !! i = Some (request, ph) -> reported ths (held ph') ->
  sound s (<[i := (request, ph')]> ths).
Proof.
  intros [Hc Hh Hw Hs] Hi Hr. pose proof (insert_requests _ _ _ (request, ph') Hi eq_refl) as He.
  split; [by eapply reported_requests| |done|].
  - intros th [k Hk]%list_elem_of_lookup. apply list_lookup_insert_Some in Hk as [(_ & <- & _)|[_ Hk]];
      (eapply reported_requests; [symmetry; exact He|]); [done|].
    apply Hh. by eapply list_elem_of_lookup_2.
  - intros node d Hd. destruct (Hs node d Hd) as (th & Hin & Hn & Hd').
    apply (list_elem_of_fmap_2 fst) in Hin. rewrite <- He in Hin.
    apply list_elem_of_fmap in Hin as (th' & Heq & Hin). exists th'. by rewrite <- Heq.
Qed.

Lemma system_sound s ths : system s ths -> sound s ths.
Proof.
  induction 1 as [|s ths rq _ [Hc Hh Hw Hs]|s ths i [request ph] th' s' _ Hso Hi Hstep].
  - split; [apply reported_empty|set_solver| |]; unfold stored; cbn.
    + intros node. rewrite lookup_empty. split; [constructor|cbn; lia].
    + intros node d. rewrite lookup_empty. set_solver.
  - split; [by apply reported_more| |done|].
    + intros th [Hth| ->%list_elem_of_singleton]%elem_of_app; [|apply reported_empty].
      by apply reported_more, Hh.
    + intros node d (th & Hin & Hd)%Hs. exists th. set_solver.
  - assert ((request, ph) ∈ ths) as Hin by by eapply list_elem_of_lookup_2.
    pose proof (so_held _ _ Hso _ Hin) as Hheld.
    destruct ph as [|c|c ds|c ds|rs]; cbn in *; [injection Hstep as <- <-..|done].
    + eapply sound_phase; [done..|]. apply Hso.
    + by eapply sound_phase.
    + eapply sound_phase; [|done|done]. destruct Hso. split; [|done..].
      by apply (reported_merge ths c (request, Selected c ds)).
    + eapply sound_phase; [|done|apply reported_empty].
      by apply (sound_store s ths (request, ClockWritten c ds)).
Qed.

(** However requests overlap, the server keeps for each node at most 1000 deltas
    with distinct identifiers, all of them sent by that node, and no counter of
    its clock is one that no client reported. *)
Theorem sync_state_sound s ths :
  system s ths ->
  (forall node, (length (stored s node) <= 1000)%nat /\ NoDup (de_id <$> stored s node) /\
    forall d, d ∈ stored s node -> exists th, th ∈ ths /\ rq_node_id th.1 = node /\ d ∈ rq_deltas th.1) /\
  (forall n, get_counter (server_vector_clock s) n = 0%N \/
    exists th, th ∈ ths /\ get_counter (server_vector_clock s) n = get_counter (client th.1) n).
Proof.
  intros [Hc _ Hw Hs]%system_sound. split; [|exact Hc]. intros node. destruct (Hw node). split_and!; auto.
Qed.

(** One request, uninterrupted.  The response has exactly the stored deltas that
    are before the clock of the client or concurrent with it; the clock of the
    server becomes the least clock above its own and that of the client, and the
    response reports both; of the deltas of the node and those of the request,
    one per identifier, the latest 1000 are kept, and nothing else changes. *)
Theorem delta_sync_exact request s :
  NoDup (de_id <$> stored s (rq_node_id request)) ->
  let '(rs, s') := delta_sync request s in
  (forall d, d ∈ rs_server_deltas rs <->
     (exists node, d ∈ stored s node) /\
     (happened_before (mkVectorClock (de_vector_clock d)) (client request) = true \/
      is_concurrent (mkVectorClock (de_vector_clock d)) (client request) = true)) /\
  rs_server_vector_clock rs = counters (server_vector_clock s) /\
  rs_merged_vector_clock rs = counters (server_vector_clock s') /\
  (forall c, leq (server_vector_clock s') c <->
     leq (server_vector_clock s) c /\ leq (client request) c) /\
  (forall node, node <> rq_node_id request -> stored s' node = stored s node) /\
  exists all dropped,
    stored s (rq_node_id request) `prefix_of` all /\
    (forall d, d ∈ all -> d ∈ stored s (rq_node_id request) \/ d ∈ rq_deltas request) /\
    (forall d, d ∈ rq_deltas request -> de_id d ∈ de_id <$> all) /\ NoDup (de_id <$> all) /\
    all ≡ₚ dropped ++ stored s' (rq_node_id request) /\
    length (stored s' (rq_node_id request)) = Nat.min (length all) 1000 /\
    forall a b, a ∈ dropped -> b ∈ stored s' (rq_node_id request) -> de_timestamp a <= de_timestamp b.
Proof.
  intros Hnd. cbn. change (mkVectorClock (rq_vector_clock request)) with (client request).
  split_and!; [apply elem_of_server_deltas|done|done| | |].
  - intros c. split; [intros Hle; split|intros [Ha Hb]].
    + etrans; [apply merge_upper_l|exact Hle].
    + etrans; [apply merge_upper_r|exact Hle].
    + by apply merge_least.
  - intros node Hn. by rewrite stored_store, decide_False.
  - rewrite stored_store, decide_True by done.
    change (stored (set_clock _ (apply_client_deltas ?st _)) ?n) with (stored st n).
    destruct (push_deltas_spec (rq_deltas request) _ Hnd) as (Hn & Hp & Hin & Hx).
    destruct (prune_spec _ Hn) as [_ (dropped & Hpd & Hts & _ & Hlen)].
    eexists _, dropped. split_and!; eauto.
Qed.

(** A delta that is later than everything the client has seen is not sent to it. *)
Lemma news_withheld request s d :
  happened_before (client request) (mkVectorClock (de_vector_clock d)) = true ->
  d ∉ rs_server_deltas (delta_sync request s).1.
Proof.
  intros [Hle Hn]%happened_before_spec [_ [[Hb _]%happened_before_spec|[_ Hb]%is_concurrent_spec]]%elem_of_server_deltas.
  - by apply Hn.
  - by apply Hb.
Qed.

(** After requests that do not overlap the clock is the join of what was reported. *)
Definition sync_all (requests : list SyncRequest) (s : SyncState) : SyncState :=
  foldl (fun s rq => (delta_sync rq s).2) s requests.

Lemma sync_all_clock requests : forall s,
  server_vector_clock (sync_all requests s)
  = foldl vector_clock.merge (server_vector_clock s) (client <$> requests).
Proof. induction requests as [|rq requests IH]; intros s; [done|]. exact (IH (delta_sync rq s).2). Qed.
End Sync.

(** Two clients, the second of which has the delta of the first. *)
Definition note (id node : string) (n : N) (t : Z) : @DeltaEntry string :=
  mkDelta id "bookmark" "e" Add "v" {[ node := n ]} t false.
Definition first_request : SyncRequest := mkRequest "n1" {[ "n1" := 2%N ]} [note "d1" "n1" 1 10; note "d2" "n1" 2 20].
Definition second_request : SyncRequest := mkRequest "n2" {[ "n2" := 1%N ]} [note "d3" "n2" 1 15].
Definition served : SyncState := (delta_sync first_request new).2.

Lemma delta_sync_exact_witness :
  leq (client second_request) (server_vector_clock (delta_sync second_request served).2).
Proof.
  pose proof (delta_sync_exact second_request served) as H.
  assert (NoDup (de_id <$> stored served (rq_node_id second_request))) as Hn by (vm_compute; constructor).
  specialize (H Hn). cbn zeta in H. destruct (delta_sync second_request served) as [rs s'].
  destruct H as (_ & _ & _ & Hl & _). cbn. apply Hl. reflexivity.
Defined.

Lemma sync_state_sound_witness :
  exists s ths, system s ths /\ stored s "n1" = rq_deltas first_request /\ NoDup (de_id <$> stored s "n1").
Proof.
  destruct (thread_alone first_request new) as (c & ds & s1 & H1 & H2 & H3 & H4).
  pose proof (system_request _ _ first_request system_new) as S0.
  pose proof (system_step _ _ 0 _ _ _ S0 eq_refl H1) as S1.
  pose proof (system_step _ _ 0 _ _ _ S1 eq_refl H2) as S2.
  pose proof (system_step _ _ 0 _ _ _ S2 eq_refl H3) as S3.
  pose proof (system_step _ _ 0 _ _ _ S3 eq_refl H4) as S4.
  eexists _, _. split; [exact S4|]. split; [vm_compute; reflexivity|].
  apply (sync_state_sound _ _ S4).
Defined.

(** Two requests that both read the clock before either writes it: the second write
    forgets what the first client reported. *)
Fixpoint run_threads (schedule : list nat) (s : @SyncState string) (ths : list (SyncRequest * Phase)) :=
  match schedule with
  | [] => Some (s, ths)
  | i :: schedule =>
      th ← ths !! i; r ← thread_step th s;
      run_threads schedule r.2 (<[i := r.1]> ths)
  end.

Example overlap_loses_clock :
  (r ← run_threads [0; 1; 0; 1; 0; 1; 0; 1]%nat new [(first_request, Begun); (second_request, Begun)];
   Some (get_counter (server_vector_clock r.1) "n1", get_counter (server_vector_clock r.1) "n2"))
  = Some (0%N, 1%N).
Proof. reflexivity. Qed.

(** A client that has seen the first delta of [n1] is not sent the second. *)
Example reader_misses_news :
  (de_id <$> rs_server_deltas (delta_sync (mkRequest "n3" {[ "n1" := 1%N ]} []) served).1) = [].
Proof. reflexivity. Qed.
End sync.
