(* ===== verification/ServerPrelude.v ===== *)
(** * Server: results and byte strings

    What the models of the server's handlers share: results with an error, byte
    strings as lists of bytes and big-endian integers. *)

From stdpp Require Import base tactics numbers list strings.
From Stdlib Require Import Init.Byte Strings.Byte.
From S2P Require Import Prelude.

Abbreviation bytes := (list byte).
#[export] Instance byte_eq : EqDecision byte := Byte.byte_eq_dec.

(** ** Results *)
Inductive Result (E A : Type) := Ok (a : A) | Err (e : E).
Arguments Ok {E A}. Arguments Err {E A}.

#[export] Instance result_ret {E} : MRet (Result E) := fun A a => Ok a.
#[export] Instance result_bind {E} : MBind (Result E) := fun A B f r =>
  match r with Ok a => f a | Err e => Err e end.
Definition ok_or {E A} (o : option A) (e : E) : Result E A :=
  match o with Some a => Ok a | None => Err e end.
Definition err_if {E} (b : bool) (e : E) : Result E unit := if b then Err e else Ok tt.
Definition map_err {E E' A} (f : E -> E') (r : Result E A) : Result E' A :=
  match r with Ok a => Ok a | Err e => Err (f e) end.

Lemma Ok_eq {E A} (a b : A) : Ok (E := E) a = Ok b -> a = b.
Proof. congruence. Qed.
Lemma ok_bind {E A B} (a : A) (f : A -> Result E B) : Ok a ≫= f = f a.
Proof. done. Qed.
Lemma bind_Ok {E A B} (r : Result E A) (f : A -> Result E B) b :
  r ≫= f = Ok b <-> exists a, r = Ok a /\ f a = Ok b.
Proof. destruct r; cbn; naive_solver. Qed.
Lemma ok_or_Ok {E A} (o : option A) (e : E) a : ok_or o e = Ok a <-> o = Some a.
Proof. destruct o; cbn; naive_solver. Qed.
Lemma err_if_Ok {E} b (e : E) u : err_if b e = Ok u <-> b = false.
Proof. destruct b, u; cbn; naive_solver. Qed.
Lemma map_err_Ok {E E' A} (f : E -> E') (r : Result E A) a : map_err f r = Ok a <-> r = Ok a.
Proof. destruct r; cbn; naive_solver. Qed.

Lemma mapM_Ok {E A B} (f : A -> Result E B) l : forall k,
  mapM f l = Ok k <-> Forall2 (fun x y => f x = Ok y) l k.
Proof.
  induction l as [|x l IH]; intros k; cbn.
  - split; [intros [= <-]; constructor|]. by inversion 1.
  - rewrite bind_Ok. setoid_rewrite bind_Ok. setoid_rewrite IH. split.
    + intros (y & Hy & k' & Hk & [= <-]). by constructor.
    + inversion 1; subst. eauto 10.
Qed.

(** Invert a result that is [Ok]. *)
Ltac oks :=
  repeat match goal with
  | H : _ ≫= _ = Ok _ |- _ => apply bind_Ok in H as (? & ? & H)
  | H : ok_or _ _ = Ok _ |- _ => apply ok_or_Ok in H
  | H : err_if _ _ = Ok _ |- _ => apply err_if_Ok in H
  | H : map_err _ _ = Ok _ |- _ => apply map_err_Ok in H
  | H : mret _ = Ok _ |- _ => apply Ok_eq in H
  | H : Ok _ = Ok _ |- _ => apply Ok_eq in H
  | H : Err _ = Ok _ |- _ => discriminate H
  end.

(** ** Errors of the handlers ([utils/error.rs]), without their messages *)
Inductive AppError :=
  | ValidationError
  | AuthError
  | Forbidden
  | NotFound
  | Conflict
  | DatabaseError
  | ExternalServiceError
  | InternalServerError.

(** The comparisons of lengths in the hypotheses. *)
Ltac nats :=
  bools; facts;
  repeat match goal with
  | H : (_ =? _)%nat = true |- _ => apply Nat.eqb_eq in H
  | H : (_ =? _)%nat = false |- _ => apply Nat.eqb_neq in H
  | H : (_ <? _)%nat = true |- _ => apply Nat.ltb_lt in H
  | H : (_ <? _)%nat = false |- _ => apply Nat.ltb_ge in H
  end.

(** ** Big-endian integers *)
Definition byte_of (z : Z) : byte := default x00 (Byte.of_N (Z.to_N (z mod 256))).
Definition to_be_bytes (k : nat) (z : Z) : bytes :=
  (fun i => byte_of (z / 256 ^ Z.of_nat i)) <$> reverse (seq 0 k).
Definition byte_Z (b : byte) : Z := Z.of_N (Byte.to_N b).
(** [u16::from_be_bytes]. *)
Definition u16_from_be_bytes (a b : byte) : Z := byte_Z a * 256 + byte_Z b.

Lemma byte_Z_of z : byte_Z (byte_of z) = z mod 256.
Proof.
  unfold byte_Z, byte_of. destruct (Byte.of_N _) eqn:Hb; cbn.
  - apply Byte.to_of_N in Hb. rewrite Hb. rewrite Z2N.id; [done|]. apply Z.mod_pos_bound. lia.
  - apply Byte.of_N_None_iff in Hb. pose proof (Z.mod_pos_bound z 256). lia.
Qed.

Lemma byte_of_Z b : byte_of (byte_Z b) = b.
Proof.
  unfold byte_Z, byte_of. pose proof (Byte.to_N_bounded b). rewrite Z.mod_small by lia.
  by rewrite N2Z.id, Byte.of_to_N.
Qed.

Lemma length_to_be_bytes k z : length (to_be_bytes k z) = k.
Proof. unfold to_be_bytes. by rewrite length_fmap, length_reverse, length_seq. Qed.

Lemma to_be_bytes_2 z : to_be_bytes 2 z = [byte_of (z / 256); byte_of z].
Proof. unfold to_be_bytes. cbn. by rewrite Z.div_1_r. Qed.

Lemma u16_round z : 0 <= z < 65536 -> u16_from_be_bytes (byte_of (z / 256)) (byte_of z) = z.
Proof.
  intros Hz. unfold u16_from_be_bytes. rewrite !byte_Z_of, (Z.mod_small (z / 256)).
  - pose proof (Z.div_mod z 256). lia.
  - split; [apply Z.div_pos; lia|]. apply Z.div_lt_upper_bound; lia.
Qed.

Lemma u16_back a b :
  byte_of (u16_from_be_bytes a b / 256) = a /\ byte_of (u16_from_be_bytes a b) = b.
Proof.
  unfold u16_from_be_bytes. assert (0 <= byte_Z b < 256) as Hb.
  { unfold byte_Z. pose proof (Byte.to_N_bounded b). lia. }
  split.
  - rewrite Z.div_add_l, (Z.div_small (byte_Z b)), Z.add_0_r by lia. apply byte_of_Z.
  - rewrite <- (byte_of_Z b) at 2. unfold byte_of. do 3 f_equal.
    rewrite Z.add_comm, Z_mod_plus_full. done.
Qed.

Lemma u16_nonneg a b : 0 <= u16_from_be_bytes a b.
Proof. unfold u16_from_be_bytes, byte_Z. lia. Qed.
