(* ===== verification/Zkp.v ===== *)
(** * Server: zero-knowledge ticket attestation

    [utils/zkp_verifier.rs]: ring Chaum-Pedersen proofs that the holder of a ticket
    belongs to a published set, with a nullifier against reuse.  The group and its
    scalars (the crate curve25519_dalek) and SHA-512 are an interface: [Curve] has
    the functions that the code calls and [CurveLaws] what is documented of them.
    A hasher is the byte string absorbed so far. *)

From stdpp Require Import base tactics numbers list strings.
From Stdlib Require Import Init.Byte Strings.Byte Ring_theory Ring.
From S2P Require Import Prelude.
From S2P Require Import ServerPrelude.

(** ** The interface of the group *)
Class Curve (Scalar Point : Type) := {
  scalar_eq :: EqDecision Scalar;
  point_eq :: EqDecision Point;
  s_zero : Scalar;
  s_one : Scalar;
  s_add : Scalar -> Scalar -> Scalar;
  s_mul : Scalar -> Scalar -> Scalar;
  s_sub : Scalar -> Scalar -> Scalar;
  s_neg : Scalar -> Scalar;
  identity : Point;
  p_add : Point -> Point -> Point;
  p_mul : Scalar -> Point -> Point;
  RISTRETTO_BASEPOINT_POINT : Point;
  compress : Point -> bytes;
  decompress : bytes -> option Point;
  scalar_as_bytes : Scalar -> bytes;
  from_canonical_bytes : bytes -> option Scalar;
  from_bytes_mod_order_wide : bytes -> Scalar;
  from_uniform_bytes : bytes -> Point;
  sha512 : bytes -> bytes;
}.

(** The scalars are a field, the points a module over it without torsion; the two
    encodings have 32 bytes and are canonical; a digest has 64 bytes. *)
Class CurveLaws (Scalar Point : Type) `{Curve Scalar Point} : Prop := {
  scalar_ring : ring_theory s_zero s_one s_add s_mul s_sub s_neg eq;
  scalar_inverse (a : Scalar) : a <> s_zero -> exists b, s_mul b a = s_one;
  p_add_comm :: Comm (=@{Point}) p_add;
  p_add_assoc :: Assoc (=@{Point}) p_add;
  p_add_id :: LeftId (=@{Point}) identity p_add;
  p_mul_one (P : Point) : p_mul s_one P = P;
  p_mul_mul (a b : Scalar) (P : Point) : p_mul a (p_mul b P) = p_mul (s_mul a b) P;
  p_mul_add_s (a b : Scalar) (P : Point) : p_mul (s_add a b) P = p_add (p_mul a P) (p_mul b P);
  p_mul_add_p (a : Scalar) (P Q : Point) : p_mul a (p_add P Q) = p_add (p_mul a P) (p_mul a Q);
  p_mul_zero (P : Point) : p_mul s_zero P = identity;
  decompress_compress (P : Point) : decompress (compress P) = Some P;
  compress_decompress b (P : Point) : decompress b = Some P -> compress P = b;
  compress_length (P : Point) : length (compress P) = 32%nat;
  from_canonical_as_bytes (a : Scalar) : from_canonical_bytes (scalar_as_bytes a) = Some a;
  as_bytes_from_canonical b (a : Scalar) : from_canonical_bytes b = Some a -> scalar_as_bytes a = b;
  scalar_as_bytes_length (a : Scalar) : length (scalar_as_bytes a) = 32%nat;
  sha512_length b : length (sha512 b) = 64%nat;
}.

Module zkp.
(** ** Constants *)
Definition ascii_bytes (s : string) : bytes := String.list_byte_of_string s.
Definition DOMAIN_GENERATOR_H : bytes := ascii_bytes "agora/zkp/v1/generator-h".
Definition DOMAIN_TICKET_SCALAR : bytes := ascii_bytes "agora/zkp/v1/ticket-scalar".
Definition DOMAIN_SECRET_SCALAR : bytes := ascii_bytes "agora/zkp/v1/secret-scalar".
Definition DOMAIN_NULLIFIER_BASE : bytes := ascii_bytes "agora/zkp/v1/nullifier-base".
Definition DOMAIN_MERKLE_LEAF : bytes := ascii_bytes "agora/zkp/v1/merkle-leaf".
Definition DOMAIN_MERKLE_NODE : bytes := ascii_bytes "agora/zkp/v1/merkle-node".
Definition DOMAIN_TRANSCRIPT : bytes := ascii_bytes "agora/zkp/v1/fiat-shamir".
Definition PROOF_VERSION : byte := x01.
Definition DEFAULT_EPOCH : string := "checkin".
Definition MAX_RING_SIZE : nat := 256.
Definition PROOF_HEADER_BYTES : nat := 1 + 1 + 2 + 32.
Definition PROOF_BYTES_PER_MEMBER : nat := 32 * 3.

Inductive ZkpError :=
  | MalformedProof
  | UnsupportedVersion (v : byte)
  | NonCanonicalEncoding
  | RingSize (got min max : nat)
  | RingMismatch
  | RootMismatch
  | DegenerateNullifier
  | VerificationFailed
  | WitnessOutOfRange (index : nat)
  | WitnessMismatch.

(** ** Attestation tiers *)
Inductive AttestationTier := General | Age21Plus | Vip.
#[export] Instance tier_eq : EqDecision AttestationTier.
Proof. solve_decision. Defined.

Definition as_byte (self : AttestationTier) : byte :=
  match self with General => x00 | Age21Plus => x01 | Vip => x02 end.
Definition from_byte (b : byte) : option AttestationTier :=
  match b with x00 => Some General | x01 => Some Age21Plus | x02 => Some Vip | _ => None end.
Definition as_str (self : AttestationTier) : string :=
  match self with General => "general" | Age21Plus => "age21plus" | Vip => "vip" end.
Definition from_str_label (s : string) : option AttestationTier :=
  if decide (s = "general") then Some General
  else if decide (s = "age21plus") then Some Age21Plus
  else if decide (s = "vip") then Some Vip else None.
Definition min_ring (self : AttestationTier) : nat :=
  match self with General | Age21Plus => 8 | Vip => 4 end.

Section Zkp.
Context {Scalar Point : Type} `{Curve Scalar Point}.

(** ** Hashing *)
Definition Sha512 : Type := bytes.
Definition absorb (hasher : Sha512) (field : bytes) : Sha512 :=
  hasher ++ to_be_bytes 8 (Z.of_nat (length field)) ++ field.
Definition transcript (domain : bytes) (parts : list bytes) : Sha512 :=
  foldl absorb (absorb [] domain) parts.
Definition hash_to_group (domain : bytes) (parts : list bytes) : Point :=
  from_uniform_bytes (sha512 (transcript domain parts)).
Definition hash_to_scalar (domain : bytes) (parts : list bytes) : Scalar :=
  from_bytes_mod_order_wide (sha512 (transcript domain parts)).
Definition hash32 (domain : bytes) (parts : list bytes) : bytes :=
  take 32 (sha512 (transcript domain parts)).
Definition finalize_to_scalar (hasher : Sha512) : Scalar :=
  from_bytes_mod_order_wide (sha512 hasher).

(** ** Public parameters *)

(** [RistrettoPoint::vartime_multiscalar_mul]: the sum of the products. *)
Fixpoint multiscalar_mul (ss : list Scalar) (ps : list Point) : Point :=
  match ss, ps with
  | s :: ss, p :: ps => p_add (p_mul s p) (multiscalar_mul ss ps)
  | _, _ => identity
  end.

Definition generator_h : Point := hash_to_group DOMAIN_GENERATOR_H [].
Definition generator_g : Point := RISTRETTO_BASEPOINT_POINT.
Definition ticket_scalar (ticket_id : string) : Scalar :=
  hash_to_scalar DOMAIN_TICKET_SCALAR [ascii_bytes ticket_id].
Definition secret_scalar (secret_bytes : bytes) : Scalar :=
  hash_to_scalar DOMAIN_SECRET_SCALAR [secret_bytes].
Definition commit (ticket secret : Scalar) : Point :=
  multiscalar_mul [ticket; secret] [generator_g; generator_h].
Definition nullifier_base (event_id epoch : string) : Point :=
  hash_to_group DOMAIN_NULLIFIER_BASE [ascii_bytes event_id; ascii_bytes epoch].
Definition compute_nullifier (secret : Scalar) (event_id epoch : string) : Point :=
  p_mul secret (nullifier_base event_id epoch).
Definition leaf_hash (commitment : bytes) : bytes := hash32 DOMAIN_MERKLE_LEAF [commitment].

(** ** Merkle tree *)
Definition node_hash (l r : bytes) : bytes := hash32 DOMAIN_MERKLE_NODE [l; r].

(** One pass over [level.chunks(2)]. *)
Fixpoint next_level (level : list bytes) : list bytes :=
  match level with
  | l :: r :: rest => node_hash l r :: next_level rest
  | [odd] => [odd]
  | [] => []
  end.

(** The loop [while level.len() > 1], which halves the level. *)
Fixpoint merkle_loop (fuel : nat) (level : list bytes) : list bytes :=
  match fuel with
  | O => level
  | S fuel => if (1 <? length level)%nat then merkle_loop fuel (next_level level) else level
  end.

Definition merkle_root (leaves : list bytes) : bytes :=
  if decide (leaves = []) then replicate 32 x00
  else default [] (merkle_loop (length leaves) leaves !! 0%nat).

Definition merkle_root_of_commitments (commitments : list bytes) : bytes :=
  merkle_root (leaf_hash <$> commitments).

(** ** Ring members *)
Record RingMember := mkRingMember { rm_point : Point; rm_compressed : bytes }.

(** [CompressedRistretto::from_slice]. *)
Definition compressed_from_slice (b : bytes) : option bytes :=
  if decide (length b = 32%nat) then Some b else None.
Definition from_compressed (compressed : bytes) : Result ZkpError RingMember :=
  point ← ok_or (decompress compressed) NonCanonicalEncoding;
  mret (mkRingMember point compressed).
Definition member_from_bytes (b : bytes) : Result ZkpError RingMember :=
  compressed ← ok_or (compressed_from_slice b) NonCanonicalEncoding;
  from_compressed compressed.
Definition leaf (self : RingMember) : bytes := leaf_hash (rm_compressed self).

(** ** Proofs and their encoding *)
Record RingProof := mkRingProof {
  rp_version : byte;
  rp_tier : AttestationTier;
  rp_nullifier : bytes;
  rp_challenges : list Scalar;
  rp_z_ticket : list Scalar;
  rp_z_secret : list Scalar;
}.

Definition ring_size (self : RingProof) : nat := length (rp_challenges self).

Definition to_bytes (self : RingProof) : bytes :=
  [rp_version self; as_byte (rp_tier self)]
  ++ to_be_bytes 2 (Z.of_nat (ring_size self) mod 2 ^ 16)
  ++ rp_nullifier self
  ++ mjoin (scalar_as_bytes <$> rp_challenges self ++ rp_z_ticket self ++ rp_z_secret self).

(** One group of [n] scalars from the cursor on, and the rest of the bytes. *)
Fixpoint read_group (n : nat) (b : bytes) : Result ZkpError (list Scalar * bytes) :=
  match n with
  | O => mret ([], b)
  | S n =>
      scalar ← ok_or (from_canonical_bytes (take 32 b)) NonCanonicalEncoding;
      r ← read_group n (drop 32 b);
      mret (scalar :: r.1, r.2)
  end.

Definition from_bytes (b : bytes) : Result ZkpError RingProof :=
  match b with
  | version :: tier_byte :: b2 :: b3 :: rest =>
      err_if (length b <? PROOF_HEADER_BYTES)%nat MalformedProof ≫= fun _ =>
      err_if (bool_decide (version <> PROOF_VERSION)) (UnsupportedVersion version) ≫= fun _ =>
      tier ← ok_or (from_byte tier_byte) MalformedProof;
      let n := Z.to_nat (u16_from_be_bytes b2 b3) in
      err_if ((n =? 0) || (MAX_RING_SIZE <? n))%nat (RingSize n 1 MAX_RING_SIZE) ≫= fun _ =>
      err_if (negb (length b =? PROOF_HEADER_BYTES + n * PROOF_BYTES_PER_MEMBER)%nat)
        MalformedProof ≫= fun _ =>
      nullifier ← ok_or (compressed_from_slice (take 32 rest)) NonCanonicalEncoding;
      g1 ← read_group n (drop 32 rest);
      g2 ← read_group n g1.2;
      g3 ← read_group n g2.2;
      mret (mkRingProof version tier nullifier g1.1 g2.1 g3.1)
  | _ => Err MalformedProof
  end.

(** ** Verification *)
Record VerificationContext := mkContext {
  vc_event_id : string;
  vc_epoch : string;
  vc_tier : AttestationTier;
  vc_merkle_root : bytes;
  vc_ring : list RingMember;
}.

Record VerifiedAttestation := mkAttestation {
  va_nullifier : bytes;
  va_tier : AttestationTier;
  va_anonymity_set_size : nat;
}.

Definition base_transcript (ctx : VerificationContext) (version : byte) (omega nullifier : bytes)
    : Sha512 :=
  let hasher := absorb [] DOMAIN_TRANSCRIPT in
  let hasher := absorb hasher [version; as_byte (vc_tier ctx)] in
  let hasher := absorb hasher (ascii_bytes (vc_event_id ctx)) in
  let hasher := absorb hasher (ascii_bytes (vc_epoch ctx)) in
  let hasher := absorb hasher (vc_merkle_root ctx) in
  let hasher := absorb hasher omega in
  let hasher := absorb hasher nullifier in
  let hasher := absorb hasher (to_be_bytes 8 (Z.of_nat (length (vc_ring ctx)))) in
  foldl (fun hasher member => absorb hasher (rm_compressed member)) hasher (vc_ring ctx).

Definition check_ring_size (ctx : VerificationContext) : Result ZkpError unit :=
  let n := length (vc_ring ctx) in
  let min := min_ring (vc_tier ctx) in
  err_if ((n <? min) || (MAX_RING_SIZE <? n))%nat (RingSize n min MAX_RING_SIZE).

(** [A_i] and [B_i], which the equations of the proof determine. *)
Definition announcement (omega nullifier : Point) (member : RingMember) (c zt zs : Scalar)
    : Point * Point :=
  let neg_c := s_neg c in
  (multiscalar_mul [zt; zs; neg_c] [generator_g; generator_h; rm_point member],
   multiscalar_mul [zs; neg_c] [omega; nullifier]).

Definition absorb_pair (hasher : Sha512) (ab : Point * Point) : Sha512 :=
  absorb (absorb hasher (compress ab.1)) (compress ab.2).

(** The loop of [verify] over the ring and the three vectors of the proof, which
    have the same length. *)
Fixpoint verify_loop (omega nullifier : Point) (ring : list RingMember)
    (cs zts zss : list Scalar) (hasher : Sha512) (challenge_sum : Scalar) : Sha512 * Scalar :=
  match ring, cs, zts, zss with
  | member :: ring, c :: cs, zt :: zts, zs :: zss =>
      let ab := announcement omega nullifier member c zt zs in
      verify_loop omega nullifier ring cs zts zss (absorb_pair hasher ab) (s_add challenge_sum c)
  | _, _, _, _ => (hasher, challenge_sum)
  end.

Definition verify (proof : RingProof) (ctx : VerificationContext)
    : Result ZkpError VerifiedAttestation :=
  err_if (bool_decide (rp_version proof <> PROOF_VERSION)) (UnsupportedVersion (rp_version proof))
    ≫= fun _ =>
  err_if (bool_decide (rp_tier proof <> vc_tier ctx)) VerificationFailed ≫= fun _ =>
  check_ring_size ctx ≫= fun _ =>
  let n := length (vc_ring ctx) in
  err_if (negb ((length (rp_challenges proof) =? n) && (length (rp_z_ticket proof) =? n)
                && (length (rp_z_secret proof) =? n))%nat) RingMismatch ≫= fun _ =>
  err_if (bool_decide (merkle_root (leaf <$> vc_ring ctx) <> vc_merkle_root ctx)) RootMismatch
    ≫= fun _ =>
  nullifier ← ok_or (decompress (rp_nullifier proof)) NonCanonicalEncoding;
  err_if (bool_decide (nullifier = identity)) DegenerateNullifier ≫= fun _ =>
  let omega := nullifier_base (vc_event_id ctx) (vc_epoch ctx) in
  let hasher := base_transcript ctx (rp_version proof) (compress omega) (rp_nullifier proof) in
  let '(hasher, challenge_sum) :=
    verify_loop omega nullifier (vc_ring ctx) (rp_challenges proof) (rp_z_ticket proof)
      (rp_z_secret proof) hasher s_zero in
  err_if (bool_decide (finalize_to_scalar hasher <> challenge_sum)) VerificationFailed ≫= fun _ =>
  mret (mkAttestation (rp_nullifier proof) (vc_tier ctx) n).

Definition verify_encoded (proof_bytes : bytes) (ctx : VerificationContext)
    : Result ZkpError VerifiedAttestation :=
  proof ← from_bytes proof_bytes;
  verify proof ctx.

(** ** The prover *)
Record Witness := mkWitness { wi_index : nat; wi_ticket : Scalar; wi_secret : Scalar }.

(** One entry of the five vectors of the prover. *)
Record Row := mkRow { ro_c : Scalar; ro_zt : Scalar; ro_zs : Scalar; ro_a : Point; ro_b : Point }.
Definition zero_row : Row := mkRow s_zero s_zero s_zero identity identity.

Section Prover.
(** [ProverRng]: a state and its next scalar. *)
Context {Rng : Type} (next_scalar : Rng -> Scalar * Rng).

(** The loop that simulates every member but the one at [l]; [i] is the index. *)
Fixpoint simulate (omega nullifier : Point) (l i : nat) (ring : list RingMember) (rng : Rng)
    : list Row * Rng :=
  match ring with
  | [] => ([], rng)
  | member :: ring =>
      if (i =? l)%nat then
        let '(rows, rng) := simulate omega nullifier l (S i) ring rng in
        (zero_row :: rows, rng)
      else
        let '(c, rng) := next_scalar rng in
        let '(zt, rng) := next_scalar rng in
        let '(zs, rng) := next_scalar rng in
        let a := multiscalar_mul [zt; zs; s_neg c] [generator_g; generator_h; rm_point member] in
        let b := multiscalar_mul [zs; s_neg c] [omega; nullifier] in
        let '(rows, rng) := simulate omega nullifier l (S i) ring rng in
        (mkRow c zt zs a b :: rows, rng)
  end.

(** The sum of the challenges but the one at [l]. *)
Definition simulated_sum (l : nat) (challenges : list Scalar) : Scalar :=
  foldl s_add s_zero
    ((filter (fun p => p.1 <> l) (imap pair challenges)).*2).

Definition prove (witness : Witness) (ctx : VerificationContext) (rng : Rng)
    : Result ZkpError RingProof * Rng :=
  match check_ring_size ctx with
  | Err e => (Err e, rng)
  | Ok _ =>
      let l := wi_index witness in
      match vc_ring ctx !! l with
      | None => (Err (WitnessOutOfRange l), rng)
      | Some member =>
          if decide (commit (wi_ticket witness) (wi_secret witness) = rm_point member) then
            let omega := nullifier_base (vc_event_id ctx) (vc_epoch ctx) in
            let nullifier := p_mul (wi_secret witness) omega in
            let '(rows, rng) := simulate omega nullifier l 0 (vc_ring ctx) rng in
            let '(r_ticket, rng) := next_scalar rng in
            let '(r_secret, rng) := next_scalar rng in
            let a_l := multiscalar_mul [r_ticket; r_secret] [generator_g; generator_h] in
            let b_l := p_mul r_secret omega in
            let a_points := <[l := a_l]> (ro_a <$> rows) in
            let b_points := <[l := b_l]> (ro_b <$> rows) in
            let hasher := base_transcript ctx PROOF_VERSION (compress omega) (compress nullifier) in
            let hasher := foldl absorb_pair hasher (zip a_points b_points) in
            let challenge := finalize_to_scalar hasher in
            let c_l := s_sub challenge (simulated_sum l (ro_c <$> rows)) in
            (Ok (mkRingProof PROOF_VERSION (vc_tier ctx) (compress nullifier)
                   (<[l := c_l]> (ro_c <$> rows))
                   (<[l := s_add r_ticket (s_mul c_l (wi_ticket witness))]> (ro_zt <$> rows))
                   (<[l := s_add r_secret (s_mul c_l (wi_secret witness))]> (ro_zs <$> rows))), rng)
          else (Err WitnessMismatch, rng)
      end
  end.
End Prover.
End Zkp.
End zkp.

(** ** An instance

    The space of dimension three over the field with two elements, with a stand-in
    for the hash: the laws can hold, and the definitions run. *)
Module toy.
Definition bit (b : bool) : byte := if b then x01 else x00.
Definition bit_bytes (b : bool) : bytes := bit b :: replicate 31 x00.
Definition bit_of_bytes (b : bytes) : option bool :=
  if decide (b = bit_bytes false) then Some false
  else if decide (b = bit_bytes true) then Some true else None.
Abbreviation Bits := (bool * bool * bool)%type.
Definition point_bytes (p : Bits) : bytes := bit p.1.1 :: bit p.1.2 :: bit p.2 :: replicate 29 x00.
Definition points : list Bits :=
  a ← [false; true]; b ← [false; true]; c ← [false; true]; [(a, b, c)].
Definition point_of_bytes (b : bytes) : option Bits := head (filter (fun p => point_bytes p = b) points).

#[export] Instance bit_curve : Curve bool Bits := {|
  s_zero := false; s_one := true; s_add := xorb; s_mul := andb; s_sub := xorb; s_neg := fun b => b;
  identity := (false, false, false);
  p_add := fun p q => (xorb p.1.1 q.1.1, xorb p.1.2 q.1.2, xorb p.2 q.2);
  p_mul := fun s p => (andb s p.1.1, andb s p.1.2, andb s p.2);
  RISTRETTO_BASEPOINT_POINT := (true, false, false);
  compress := point_bytes; decompress := point_of_bytes;
  scalar_as_bytes := bit_bytes; from_canonical_bytes := bit_of_bytes;
  from_bytes_mod_order_wide := fun b => bool_decide (head b = Some x01);
  from_uniform_bytes := fun _ => (false, true, false);
  sha512 := fun b => take 64 (reverse b ++ replicate 64 x00);
|}.

Lemma bit_of_bytes_spec b x : bit_of_bytes b = Some x -> bit_bytes x = b.
Proof. unfold bit_of_bytes. intros Hb. repeat case_decide; [..|done]; by injection Hb as <-. Qed.

Lemma point_of_bytes_spec b p : point_of_bytes b = Some p -> point_bytes p = b.
Proof.
  unfold point_of_bytes. intros Hp%head_Some_elem_of. by apply list_elem_of_filter in Hp as [? _].
Qed.

#[export] Instance bit_laws : CurveLaws bool Bits.
Proof.
  split; cbn; try by (hnf; intros; repeat match goal with
    b : bool |- _ => destruct b | p : (_ * _)%type |- _ => destruct p end; done).
  - split; intros; repeat match goal with b : bool |- _ => destruct b end; done.
  - intros [] Ha; [|done]. by exists true.
  - intros b P. apply point_of_bytes_spec.
  - intros b a. apply bit_of_bytes_spec.
  - intros b. rewrite length_firstn, length_app. cbn [length]. lia.
Qed.
End toy.
