(* ===== verification/ZkpEncoding.v ===== *)
(** * Server: the Merkle root and the encoding of proofs

    The loop that computes the root ends, and its result determines the list of
    commitments unless SHA-512 truncated to 32 bytes has a collision
    ([merkle_root_binds]); the encoding of proofs is a bijection on what the
    parser accepts ([proof_encoding_unique]). *)

From stdpp Require Import base tactics numbers list strings.
From Stdlib Require Import Init.Byte Strings.Byte.
From S2P Require Import Prelude.
From S2P Require Import ServerPrelude.
From S2P Require Import Zkp.
Import zkp.

(** Induction by two elements. *)
Lemma list_pair_ind {A} (P : list A -> Prop) :
  P [] -> (forall a, P [a]) -> (forall a b l, P l -> P (a :: b :: l)) -> forall l, P l.
Proof.
  intros H0 H1 H2 l. enough (P l /\ forall a, P (a :: l)) as [? _] by done.
  induction l as [|b l [IH IH']]; [by split|]. split; [apply IH'|]. intros a. by apply H2.
Qed.

Section Merkle.
Context {Scalar Point : Type} `{CurveLaws Scalar Point}.

(** ** The loop *)
Lemma length_next_level l : length (next_level l) = Nat.div (length l + 1) 2.
Proof.
  induction l as [|a|a b l IH] using list_pair_ind; [done|done|]. cbn [next_level length]. rewrite IH.
  replace (S (S (length l)) + 1)%nat with (length l + 1 + 1 * 2)%nat by lia.
  rewrite Nat.div_add by lia. lia.
Qed.

Lemma next_level_shorter l : (1 < length l)%nat -> (0 < length (next_level l) < length l)%nat.
Proof.
  intros Hl. rewrite length_next_level. split.
  - apply Nat.div_str_pos. lia.
  - apply Nat.div_lt_upper_bound; lia.
Qed.

(** The level ends with one node, and more fuel does not matter. *)
Lemma merkle_loop_ends fuel : forall l, l <> [] -> (length l <= fuel)%nat ->
  exists r, forall n, merkle_loop (fuel + n) l = [r].
Proof.
  induction fuel as [|fuel IH]; intros l Hl Hf; [destruct l; cbn in *; [done|lia]|].
  destruct (Nat.ltb_spec 1 (length l)) as [H1|H1].
  - pose proof (next_level_shorter l H1). destruct (IH (next_level l)) as [r Hr]; [|lia|].
    + intros He. rewrite He in *. cbn in *. lia.
    + exists r. intros n. cbn [merkle_loop Nat.add]. rewrite (proj2 (Nat.ltb_lt _ _)) by done. apply Hr.
  - destruct l as [|r [|]]; cbn in *; [done| |lia]. exists r. intros n. done.
Qed.

(** ** Trees *)
Inductive tree := Leaf (commitment : bytes) | Node (l r : tree).
Fixpoint hash_tree (t : tree) : bytes :=
  match t with
  | Leaf c => leaf_hash c
  | Node l r => node_hash (hash_tree l) (hash_tree r)
  end.
Fixpoint flatten (t : tree) : list bytes :=
  match t with Leaf c => [c] | Node l r => flatten l ++ flatten r end.
Fixpoint next_trees (level : list tree) : list tree :=
  match level with
  | l :: r :: rest => Node l r :: next_trees rest
  | [odd] => [odd]
  | [] => []
  end.

Lemma next_trees_spec ts :
  hash_tree <$> next_trees ts = next_level (hash_tree <$> ts) /\
  mjoin (flatten <$> next_trees ts) = mjoin (flatten <$> ts).
Proof.
  induction ts as [|a|a b ts [IH1 IH2]] using list_pair_ind; [done|done|].
  cbn [next_trees]. rewrite !fmap_cons. split; [cbn [next_level hash_tree]; by rewrite IH1|].
  change (flatten (Node a b) ++ mjoin (flatten <$> next_trees ts)
    = flatten a ++ flatten b ++ mjoin (flatten <$> ts)).
  rewrite IH2. symmetry. apply (assoc_L (++)).
Qed.

Lemma merkle_loop_tree fuel : forall ts,
  exists ts', merkle_loop fuel (hash_tree <$> ts) = hash_tree <$> ts' /\
    mjoin (flatten <$> ts') = mjoin (flatten <$> ts).
Proof.
  induction fuel as [|fuel IH]; intros ts; [by exists ts|]. cbn. case_match; [|by exists ts].
  destruct (next_trees_spec ts) as [<- Hf]. destruct (IH (next_trees ts)) as (ts' & Hl & Hf').
  exists ts'. split; [done|]. by rewrite Hf'.
Qed.

Lemma flatten_leaves cs : mjoin (flatten <$> (Leaf <$> cs)) = cs.
Proof.
  induction cs as [|c cs IH]; [done|]. rewrite !fmap_cons.
  change (c :: mjoin (flatten <$> (Leaf <$> cs)) = c :: cs). by rewrite IH.
Qed.

(** The root of a list is the hash of a tree whose leaves are the list. *)
Lemma merkle_root_tree cs :
  cs <> [] -> exists t, merkle_root_of_commitments cs = hash_tree t /\ flatten t = cs.
Proof.
  intros Hcs. unfold merkle_root_of_commitments, merkle_root.
  assert (leaf_hash <$> cs = hash_tree <$> (Leaf <$> cs)) as Hl by by rewrite <- list_fmap_compose.
  rewrite decide_False by (destruct cs; done). rewrite Hl.
  destruct (merkle_loop_ends (length (hash_tree <$> (Leaf <$> cs))) (hash_tree <$> (Leaf <$> cs)))
    as [r Hr]; [by destruct cs|done|].
  destruct (merkle_loop_tree (length (hash_tree <$> (Leaf <$> cs))) (Leaf <$> cs)) as (ts' & Ht & Hf).
  specialize (Hr 0%nat). rewrite Nat.add_0_r in Hr. rewrite Hr in Ht |- *.
  destruct ts' as [|t [|]]; try discriminate. injection Ht as ->. exists t. split; [done|].
  rewrite flatten_leaves in Hf. cbn in Hf. by rewrite app_nil_r in Hf.
Qed.

(** ** Collisions *)
Definition collision : Prop := exists x y : bytes, x <> y /\ take 32 (sha512 x) = take 32 (sha512 y).

Lemma hash32_length d ps : length (hash32 (Scalar := Scalar) (Point := Point) d ps) = 32%nat.
Proof. unfold hash32. rewrite length_take, sha512_length. done. Qed.

Lemma hash32_inj d ps d' ps' :
  hash32 d ps = hash32 d' ps' -> transcript d ps = transcript d' ps' \/ collision.
Proof.
  intros Hh. destruct (decide (transcript d ps = transcript d' ps')) as [|Hn]; [by left|right].
  by exists (transcript d ps), (transcript d' ps').
Qed.

Lemma hash_tree_length t : length (hash_tree t) = 32%nat.
Proof. destruct t; apply hash32_length. Qed.

(** What a transcript of known lengths determines. *)
Lemma transcript_leaf c c' :
  transcript DOMAIN_MERKLE_LEAF [c] = transcript DOMAIN_MERKLE_LEAF [c'] -> c = c'.
Proof.
  unfold transcript. cbn [foldl]. unfold absorb. intros He%app_inv_head.
  destruct (app_inj_1 _ _ _ _ (eq_trans (length_to_be_bytes 8 _) (eq_sym (length_to_be_bytes 8 _))) He)
    as [_ ?]. done.
Qed.

Lemma transcript_node l r l' r' :
  length l = 32%nat -> length l' = 32%nat ->
  transcript DOMAIN_MERKLE_NODE [l; r] = transcript DOMAIN_MERKLE_NODE [l'; r'] -> l = l' /\ r = r'.
Proof.
  intros Hl Hl'. unfold transcript. cbn [foldl]. unfold absorb. rewrite <- !(assoc_L (++)).
  intros He%app_inv_head%app_inv_head%app_inv_head. rewrite Hl, Hl' in He. apply app_inv_head in He.
  apply app_inj_1 in He as [-> He]; [|by rewrite Hl, Hl']. split; [done|].
  apply app_inj_1 in He as [_ ?]; [done|]. by rewrite !length_to_be_bytes.
Qed.

Lemma transcript_leaf_node c l r :
  transcript DOMAIN_MERKLE_LEAF [c] <> transcript DOMAIN_MERKLE_NODE [l; r].
Proof.
  unfold transcript. cbn [foldl]. unfold absorb. rewrite <- !(assoc_L (++)).
  intros He%app_inv_head%app_inv_head. apply app_inj_1 in He as [He _]; [discriminate He|done].
Qed.

Lemma hash_tree_inj t : forall t', hash_tree t = hash_tree t' -> t = t' \/ collision.
Proof.
  induction t as [c|l IHl r IHr]; intros [c'|l' r'] He; cbn in He;
    (apply hash32_inj in He as [He|]; [|by right]).
  - apply transcript_leaf in He as ->. by left.
  - by apply transcript_leaf_node in He.
  - symmetry in He. by apply transcript_leaf_node in He.
  - apply transcript_node in He as [Hl Hr]; [|apply hash_tree_length..].
    destruct (IHl _ Hl) as [->|]; [|by right]. destruct (IHr _ Hr) as [->|]; [by left|by right].
Qed.

End Merkle.

(** ** The encoding of proofs *)
Section Encoding.
Context {Scalar Point : Type} `{CurveLaws Scalar Point}.

Lemma from_as_byte t : from_byte (as_byte t) = Some t.
Proof. by destruct t. Qed.
Lemma as_from_byte b t : from_byte b = Some t -> as_byte t = b.
Proof. destruct b; try discriminate; intros [= <-]; done. Qed.
Lemma from_as_str t : from_str_label (as_str t) = Some t.
Proof. by destruct t. Qed.

Definition write_group (scalars : list Scalar) : bytes := mjoin (scalar_as_bytes <$> scalars).

Lemma write_group_cons a scalars : write_group (a :: scalars) = scalar_as_bytes a ++ write_group scalars.
Proof. done. Qed.

Lemma write_group_app l l' : write_group (l ++ l') = write_group l ++ write_group l'.
Proof. unfold write_group. by rewrite fmap_app, join_app. Qed.

Lemma length_write_group scalars : length (write_group scalars) = (32 * length scalars)%nat.
Proof.
  induction scalars as [|a scalars IH]; [done|].
  rewrite write_group_cons, length_app, scalar_as_bytes_length, IH. cbn. lia.
Qed.

Lemma read_write_group n scalars rest :
  length scalars = n -> read_group n (write_group scalars ++ rest) = Ok (scalars, rest).
Proof.
  intros <-. induction scalars as [|a scalars IH]; [done|]. cbn [length read_group].
  rewrite write_group_cons, <- (assoc_L (++)).
  rewrite take_app_length' by (symmetry; apply scalar_as_bytes_length).
  rewrite drop_app_length' by (symmetry; apply scalar_as_bytes_length).
  rewrite from_canonical_as_bytes. cbn. by rewrite IH.
Qed.

Lemma write_read_group n : forall b scalars rest,
  (32 * n <= length b)%nat -> read_group n b = Ok (scalars, rest) ->
  b = write_group scalars ++ rest /\ length scalars = n.
Proof.
  induction n as [|n IH]; intros b scalars rest Hb Hr; cbn [read_group] in Hr; oks.
  - injection Hr as <- <-. done.
  - injection Hr as <- <-. destruct x0 as [scalars rest]. apply IH in H2 as [Hd Hn]; [|rewrite length_drop; lia].
    split; [|cbn; by rewrite Hn]. cbn [fst snd]. rewrite write_group_cons, <- (assoc_L (++)), <- Hd.
    rewrite (as_bytes_from_canonical _ _ H1). symmetry. apply take_drop.
Qed.

(** What [to_bytes] can encode. *)
Record encodable (p : RingProof (Scalar := Scalar)) : Prop := {
  en_version : rp_version p = PROOF_VERSION;
  en_nullifier : length (rp_nullifier p) = 32%nat;
  en_ring : (0 < ring_size p <= MAX_RING_SIZE)%nat;
  en_ticket : length (rp_z_ticket p) = ring_size p;
  en_secret : length (rp_z_secret p) = ring_size p;
}.

Lemma to_bytes_shape p :
  encodable p ->
  to_bytes p = rp_version p :: as_byte (rp_tier p)
    :: byte_of (Z.of_nat (ring_size p) / 256) :: byte_of (Z.of_nat (ring_size p))
    :: rp_nullifier p ++ write_group (rp_challenges p) ++ write_group (rp_z_ticket p)
         ++ write_group (rp_z_secret p).
Proof.
  intros [_ _ Hr _ _]. unfold to_bytes. rewrite Z.mod_small by (unfold MAX_RING_SIZE in *; lia).
  rewrite to_be_bytes_2. fold (write_group (rp_challenges p ++ rp_z_ticket p ++ rp_z_secret p)).
  by rewrite !write_group_app.
Qed.

Lemma from_to_bytes p : encodable p -> from_bytes (to_bytes p) = Ok p.
Proof.
  intros Hp. rewrite to_bytes_shape by done. destruct Hp as [Hv Hn Hr Ht Hs].
  unfold from_bytes. rewrite u16_round by (unfold MAX_RING_SIZE in *; lia). rewrite Nat2Z.id.
  assert (forall a b c d : byte, length (a :: b :: c :: d :: rp_nullifier p ++ write_group (rp_challenges p)
    ++ write_group (rp_z_ticket p) ++ write_group (rp_z_secret p))
    = (PROOF_HEADER_BYTES + ring_size p * PROOF_BYTES_PER_MEMBER)%nat) as Hlen.
  { intros. cbn [length]. rewrite !length_app, !length_write_group, Hn, Ht, Hs.
    unfold ring_size, PROOF_HEADER_BYTES, PROOF_BYTES_PER_MEMBER. lia. }
  rewrite !Hlen, Nat.eqb_refl. rewrite (proj2 (Nat.ltb_ge _ _)) by lia. cbn [err_if mbind result_bind negb].
  rewrite bool_decide_eq_false_2 by tauto. cbn [err_if]. rewrite from_as_byte. cbn [ok_or].
  rewrite (proj2 (Nat.eqb_neq _ _)), (proj2 (Nat.ltb_ge _ _)) by lia. cbn [err_if orb].
  rewrite take_app_length', drop_app_length' by done.
  unfold compressed_from_slice. rewrite decide_True by done. cbn [ok_or].
  rewrite !ok_bind, read_write_group by done. rewrite ok_bind. cbn [fst snd].
  rewrite read_write_group by done. rewrite ok_bind. cbn [fst snd].
  rewrite <- (app_nil_r (write_group (rp_z_secret p))), read_write_group by done. by destruct p.
Qed.

Lemma to_from_bytes b p : from_bytes b = Ok p -> to_bytes p = b /\ encodable p.
Proof.
  intros Hb. unfold from_bytes in Hb. destruct b as [|v [|tb [|b2 [|b3 rest]]]]; oks; try done.
  destruct x5 as [g1 r1], x6 as [g2 r2], x7 as [g3 r3]. cbn [fst snd] in *. subst p.
  nats.
  set (n := Z.to_nat (u16_from_be_bytes b2 b3)) in *.
  unfold compressed_from_slice in H6. case_decide as Hl; [|done]. injection H6 as <-.
  assert (length (drop 32 rest) = n * PROOF_BYTES_PER_MEMBER)%nat as Hd.
  { rewrite length_drop. cbn [length] in H5. unfold PROOF_HEADER_BYTES in H5. lia. }
  apply write_read_group in H7 as [E1 L1]; [|unfold PROOF_BYTES_PER_MEMBER in Hd; lia].
  rewrite E1, length_app, length_write_group, L1 in Hd.
  apply write_read_group in H8 as [E2 L2]; [|unfold PROOF_BYTES_PER_MEMBER in Hd; lia].
  rewrite E2, length_app, length_write_group, L2 in Hd.
  apply write_read_group in H9 as [E3 L3]; [|unfold PROOF_BYTES_PER_MEMBER in Hd; lia].
  rewrite E3, length_app, length_write_group, L3 in Hd.
  assert (r3 = []) as -> by (destruct r3; [done|]; unfold PROOF_BYTES_PER_MEMBER in Hd; cbn in Hd; lia).
  assert (encodable (mkRingProof v x1 (take 32 rest) g1 g2 g3)) as Hen.
  { unfold MAX_RING_SIZE in *. split; unfold ring_size; cbn; rewrite ?L1; try done; try lia.
    all: unfold MAX_RING_SIZE; lia. }
  split; [|done]. rewrite to_bytes_shape by done. unfold ring_size.
  cbn [rp_version rp_tier rp_nullifier rp_challenges rp_z_ticket rp_z_secret]. rewrite L1. unfold n.
  rewrite Z2Nat.id by apply u16_nonneg. destruct (u16_back b2 b3) as [-> ->].
  rewrite (as_from_byte _ _ H3). rewrite app_nil_r in E3.
  by rewrite <- E3, <- E2, <- E1, take_drop.
Qed.

Lemma to_bytes_length p : encodable p -> (36 + 96 * ring_size p)%nat = length (to_bytes p).
Proof.
  intros Hp. rewrite to_bytes_shape by done. destruct Hp as [_ Hn _ Hzt Hzs]. cbn [length].
  rewrite !length_app, !length_write_group, Hn, Hzt, Hzs. unfold ring_size. lia.
Qed.

(** C33: The encoding of proofs is unique.  Every proof that can be encoded is parsed
    back, and everything that the parser accepts is the encoding of the proof it
    returns, byte for byte; so no second byte string yields the same proof. *)
Theorem proof_encoding_unique (p : RingProof (Scalar := Scalar)) b b' :
  (encodable p -> from_bytes (to_bytes p) = Ok p) /\
  (from_bytes b = Ok p -> encodable p /\ to_bytes p = b /\
    length b = (36 + 96 * ring_size p)%nat /\ (from_bytes b' = Ok p -> b' = b)).
Proof.
  split; [apply from_to_bytes|]. intros Hb. destruct (to_from_bytes b p Hb) as [Ht Hp].
  split_and!; [done|done| |].
  - rewrite <- Ht. symmetry. by apply to_bytes_length.
  - intros Hb'. by destruct (to_from_bytes b' p Hb') as [<- _].
Qed.
End Encoding.

(** ** The theorems on concrete values, over the field with two elements *)
Module ZkpEncodingSample.
Import toy.


Definition sample_proof : RingProof :=
  mkRingProof PROOF_VERSION Vip (point_bytes (true, false, false)) [true; false] [false; false] [true; true].

Lemma proof_encoding_unique_witness : from_bytes (to_bytes sample_proof) = Ok sample_proof.
Proof.
  apply (proof_encoding_unique sample_proof [] []). split; vm_compute; repeat constructor.
Defined.
End ZkpEncodingSample.
