(* ===== verification/ZkpProtocol.v ===== *)
(** * Server: the ring proof

    The protocol of [zkp_verifier.rs] is complete (an honest holder is accepted),
    specially sound (two answers to the same announcements with different
    challenges reveal an opening of one of the commitments and the secret of the
    nullifier) and its nullifier depends on the secret, the event and the epoch
    only. *)

From stdpp Require Import base tactics numbers list strings.
From Stdlib Require Import Init.Byte Strings.Byte Ring_theory Ring.
From S2P Require Import Prelude.
From S2P Require Import ServerPrelude.
From S2P Require Import Zkp.
From S2P Require Import ZkpEncoding.
Import zkp.

Section Protocol.
Context {Scalar Point : Type} `{CurveLaws Scalar Point}.
Add Ring scalars : (scalar_ring (Scalar := Scalar) (Point := Point)).

Implicit Types (a b c : Scalar) (P Q : Point).

(** ** Linear combinations *)
Lemma p_add_id_r P : p_add P identity = P.
Proof. rewrite (comm_L p_add). apply (left_id_L identity p_add). Qed.

Lemma p_mul_neg_cancel a P : p_add (p_mul a P) (p_mul (s_neg a) P) = identity.
Proof. rewrite <- p_mul_add_s. rewrite <- (p_mul_zero P). f_equal. ring. Qed.

Lemma p_cancel_r P Q R : p_add P R = p_add Q R -> P = Q.
Proof.
  intros He. rewrite <- (p_add_id_r P), <- (p_add_id_r Q), <- (p_mul_neg_cancel s_one R), p_mul_one.
  by rewrite !(assoc_L p_add), He.
Qed.

(** Combinations of two points. *)
Definition comb a b P Q : Point := p_add (p_mul a P) (p_mul b Q).

Lemma comb_add a b a' b' P Q :
  p_add (comb a b P Q) (comb a' b' P Q) = comb (s_add a a') (s_add b b') P Q.
Proof.
  unfold comb. rewrite !p_mul_add_s, <- !(assoc_L p_add). f_equal.
  rewrite !(assoc_L p_add). f_equal. apply (comm_L p_add).
Qed.

Lemma comb_mul c a b P Q : p_mul c (comb a b P Q) = comb (s_mul c a) (s_mul c b) P Q.
Proof. unfold comb. by rewrite p_mul_add_p, !p_mul_mul. Qed.

Lemma commit_comb a b : commit a b = comb a b generator_g generator_h.
Proof. unfold commit, comb. cbn. by rewrite p_add_id_r. Qed.

Lemma announcement_comb omega nullifier member c zt zs :
  announcement omega nullifier member c zt zs
  = (p_add (comb zt zs generator_g generator_h) (p_mul (s_neg c) (rm_point member)),
     p_add (p_mul zs omega) (p_mul (s_neg c) nullifier)).
Proof.
  unfold announcement, comb. cbn. rewrite !p_add_id_r. f_equal. apply (assoc_L p_add).
Qed.

(** ** The loop of the verifier *)
Fixpoint announcements (omega nullifier : Point) (ring : list RingMember) (cs zts zss : list Scalar)
    : list (Point * Point) :=
  match ring, cs, zts, zss with
  | member :: ring, c :: cs, zt :: zts, zs :: zss =>
      announcement omega nullifier member c zt zs :: announcements omega nullifier ring cs zts zss
  | _, _, _, _ => []
  end.

Definition sum_scalars (cs : list Scalar) : Scalar := foldr s_add s_zero cs.

Lemma foldl_sum cs : forall x, foldl s_add x cs = s_add x (sum_scalars cs).
Proof. induction cs as [|c cs IH]; cbn; intros x; [ring|]. rewrite IH. unfold sum_scalars. cbn. ring. Qed.

Lemma verify_loop_spec omega nullifier ring : forall cs zts zss hasher sum,
  length cs = length ring -> length zts = length ring -> length zss = length ring ->
  verify_loop omega nullifier ring cs zts zss hasher sum
  = (foldl absorb_pair hasher (announcements omega nullifier ring cs zts zss),
     s_add sum (sum_scalars cs)).
Proof.
  induction ring as [|m ring IH]; intros [|c cs] [|zt zts] [|zs zss] hasher sum Hc Ht Hs;
    try discriminate; cbn -[announcement absorb_pair].
  - f_equal. unfold sum_scalars. cbn. ring.
  - rewrite IH by (cbn in *; lia). f_equal. unfold sum_scalars. cbn. ring.
Qed.

(** When a proof is accepted. *)
Record accepted (proof : RingProof) (ctx : VerificationContext) (nullifier : Point) : Prop := {
  ac_version : rp_version proof = PROOF_VERSION;
  ac_tier : rp_tier proof = vc_tier ctx;
  ac_ring : (min_ring (vc_tier ctx) <= length (vc_ring ctx) <= MAX_RING_SIZE)%nat;
  ac_challenges : length (rp_challenges proof) = length (vc_ring ctx);
  ac_ticket : length (rp_z_ticket proof) = length (vc_ring ctx);
  ac_secret : length (rp_z_secret proof) = length (vc_ring ctx);
  ac_root : merkle_root (leaf <$> vc_ring ctx) = vc_merkle_root ctx;
  ac_nullifier : decompress (rp_nullifier proof) = Some nullifier;
  ac_proper : nullifier <> identity;
  ac_sum : finalize_to_scalar (foldl absorb_pair
      (base_transcript ctx (rp_version proof)
        (compress (nullifier_base (vc_event_id ctx) (vc_epoch ctx))) (rp_nullifier proof))
      (announcements (nullifier_base (vc_event_id ctx) (vc_epoch ctx)) nullifier (vc_ring ctx)
        (rp_challenges proof) (rp_z_ticket proof) (rp_z_secret proof)))
    = sum_scalars (rp_challenges proof);
}.

Lemma verify_Ok proof ctx att :
  verify proof ctx = Ok att <->
  exists nullifier, accepted proof ctx nullifier /\
    att = mkAttestation (rp_nullifier proof) (vc_tier ctx) (length (vc_ring ctx)).
Proof.
  unfold verify, check_ring_size. split.
  - intros Hv. oks. nats. rewrite verify_loop_spec in Hv by done. oks. facts. subst att.
    exists x4. split; [|done]. split; try done. rewrite H11. ring.
  - intros (nullifier & [Hv Ht Hr Hc Hzt Hzs Hm Hn Hi Hs] & ->).
    rewrite bool_decide_eq_false_2 by tauto. cbn [err_if]. rewrite ok_bind.
    rewrite bool_decide_eq_false_2 by tauto. cbn [err_if]. rewrite ok_bind.
    rewrite !(proj2 (Nat.ltb_ge _ _)) by lia. cbn [err_if orb]. rewrite ok_bind.
    rewrite Hc, Hzt, Hzs, Nat.eqb_refl. cbn [err_if negb andb]. rewrite ok_bind.
    rewrite bool_decide_eq_false_2 by tauto. cbn [err_if]. rewrite ok_bind.
    rewrite Hn. cbn [ok_or]. rewrite ok_bind.
    rewrite bool_decide_eq_false_2 by done. cbn [err_if]. rewrite ok_bind.
    rewrite verify_loop_spec by done. rewrite bool_decide_eq_false_2; [done|].
    rewrite Hs. intros Hn'. apply Hn'. ring.
Qed.

(** ** The prover *)
Lemma imap_shift {A} n (xs : list A) :
  imap ((fun k x => ((n + k)%nat, x)) ∘ S) xs = imap (fun k x => ((S n + k)%nat, x)) xs.
Proof. apply imap_ext. intros i x _. cbn. f_equal. lia. Qed.

Lemma filter_index cs : forall n l,
  (filter (fun p => p.1 <> (n + l)%nat) (imap (fun i c => ((n + i)%nat, c)) cs)).*2
  = delete l cs :> list Scalar.
Proof.
  induction cs as [|c cs IH]; intros n l; [by destruct l|]. rewrite imap_cons, imap_shift, filter_cons.
  destruct l as [|l].
  - rewrite decide_False by (cbn; lia). cbn [delete list_delete]. rewrite filter_all.
    + clear. generalize (S n). induction cs as [|c cs IH]; intros k; [done|]. rewrite imap_cons, imap_shift.
      cbn. f_equal. exact (IH (S k)).
    + apply Forall_lookup. intros i [k x] Hi. apply list_lookup_imap_Some in Hi as (y & _ & [= -> _]). cbn. lia.
  - rewrite decide_True by (cbn; lia). transitivity (c :: delete l cs); [|done].
    rewrite fmap_cons. cbn [snd]. f_equal. rewrite <- (IH (S n) l). do 2 f_equal.
    apply list_filter_iff. intros [k x]. cbn. lia.
Qed.

Lemma simulated_sum_delete l cs : simulated_sum l cs = sum_scalars (delete l cs).
Proof.
  unfold simulated_sum. rewrite foldl_sum.
  transitivity (s_add s_zero (sum_scalars (delete l cs))); [|ring].
  do 2 f_equal. exact (filter_index cs 0 l).
Qed.

Lemma sum_insert cs : forall l x, (l < length cs)%nat ->
  sum_scalars (<[l := x]> cs) = s_add x (sum_scalars (delete l cs)).
Proof.
  induction cs as [|c cs IH]; intros [|l] x Hl; cbn [length] in Hl; [lia|lia|done|].
  change (s_add c (sum_scalars (<[l := x]> cs)) = s_add x (s_add c (sum_scalars (delete l cs)))).
  rewrite IH by lia. ring.
Qed.

Lemma simulate_spec {Rng} (next : Rng -> Scalar * Rng) omega nullifier l ring : forall i rng rows rng',
  simulate next omega nullifier l i ring rng = (rows, rng') ->
  Forall2 (fun m '(k, row) => k <> l ->
      announcement omega nullifier m (ro_c row) (ro_zt row) (ro_zs row) = (ro_a row, ro_b row))
    ring (imap (fun k row => ((i + k)%nat, row)) rows).
Proof.
  induction ring as [|m ring IH]; cbn; intros i rng rows rng' Hs; [injection Hs as <- _; constructor|].
  destruct (Nat.eqb_spec i l) as [->|Hi].
  - destruct (simulate _ _ _ _ _ _ _) as [rows' rng1] eqn:Hr. injection Hs as <- <-.
    rewrite imap_cons, imap_shift. constructor; [intros Hne; lia|]. by apply IH in Hr.
  - destruct (next rng) as [c r1], (next r1) as [zt r2], (next r2) as [zs r3].
    destruct (simulate _ _ _ _ _ _ _) as [rows' rng1] eqn:Hr. injection Hs as <- <-.
    rewrite imap_cons, imap_shift. constructor; [done|]. by apply IH in Hr.
Qed.

(** The real row satisfies the equations of the verifier. *)
Lemma real_announcement omega member t s r_t r_s c :
  commit t s = rm_point member ->
  announcement omega (p_mul s omega) member c (s_add r_t (s_mul c t)) (s_add r_s (s_mul c s))
  = (multiscalar_mul [r_t; r_s] [generator_g; generator_h], p_mul r_s omega).
Proof.
  intros Hm. rewrite announcement_comb, <- Hm. fold (commit r_t r_s). rewrite !commit_comb, comb_mul, comb_add.
  rewrite p_mul_mul, <- p_mul_add_s. f_equal; [unfold comb; f_equal|]; f_equal; ring.
Qed.

Lemma announcements_rows omega nullifier ring : forall rows,
  Forall2 (fun m row => announcement omega nullifier m (ro_c row) (ro_zt row) (ro_zs row)
    = (ro_a row, ro_b row)) ring rows ->
  announcements omega nullifier ring (ro_c <$> rows) (ro_zt <$> rows) (ro_zs <$> rows)
  = zip (ro_a <$> rows) (ro_b <$> rows).
Proof.
  induction ring as [|m ring IH]; intros rows Hf; inversion Hf as [|? row ? rows' He Hf']; subst; [done|].
  cbn -[announcement]. by rewrite He, IH.
Qed.

(** ** Completeness *)
Section Prover.
Context {Rng : Type} (next : Rng -> Scalar * Rng).

(** What a successful run of the prover returns. *)
Lemma prove_Ok witness ctx rng proof rng' :
  prove next witness ctx rng = (Ok proof, rng') ->
  let omega := nullifier_base (vc_event_id ctx) (vc_epoch ctx) in
  let nullifier := p_mul (wi_secret witness) omega in
  (min_ring (vc_tier ctx) <= length (vc_ring ctx) <= MAX_RING_SIZE)%nat /\
  exists rows : list Row,
    Forall2 (fun m row => announcement omega nullifier m (ro_c row) (ro_zt row) (ro_zs row)
      = (ro_a row, ro_b row)) (vc_ring ctx) rows /\
    proof = mkRingProof PROOF_VERSION (vc_tier ctx) (compress nullifier)
              (ro_c <$> rows) (ro_zt <$> rows) (ro_zs <$> rows) /\
    finalize_to_scalar (foldl absorb_pair
      (base_transcript ctx PROOF_VERSION (compress omega) (compress nullifier))
      (zip (ro_a <$> rows) (ro_b <$> rows))) = sum_scalars (ro_c <$> rows).
Proof.
  unfold prove. destruct (check_ring_size ctx) as [u|] eqn:Hc; [|done].
  unfold check_ring_size in Hc. oks. nats. split; [done|].
  destruct (vc_ring ctx !! wi_index witness) as [m|] eqn:Hm; [|done]. case_decide as Hco; [|done].
  destruct (simulate _ _ _ _ _ _ _) as [rows r1] eqn:Hs.
  destruct (next r1) as [rt r2], (next r2) as [rs r3].
  match goal with H : (Ok ?p, _) = _ |- _ => injection H as <- _ end.
  apply simulate_spec in Hs. set (l := wi_index witness) in *.
  set (omega := nullifier_base _ _) in *. set (nullifier := p_mul (wi_secret witness) omega) in *.
  match goal with |- context [s_sub ?ch (simulated_sum l ?cs)] =>
    set (challenge := ch) in *; set (c := s_sub challenge (simulated_sum l cs)) in * end.
  pose (row := mkRow c (s_add rt (s_mul c (wi_ticket witness))) (s_add rs (s_mul c (wi_secret witness)))
                 (multiscalar_mul [rt; rs] [generator_g; generator_h]) (p_mul rs omega)).
  exists (<[l := row]> rows). rewrite !list_fmap_insert. split_and!; [|done|].
  - apply Forall2_same_length_lookup. rewrite length_insert.
    pose proof (Forall2_length _ _ _ Hs) as Hlen. rewrite length_imap in Hlen. split; [done|].
    intros k m' row' Hk Hrow. apply list_lookup_insert_Some in Hrow as [(<- & <- & _)|[Hne Hrow]].
    + assert (m' = m) as -> by congruence. by apply real_announcement.
    + eapply Forall2_lookup_lr in Hs; [|exact Hk|]; [|rewrite list_lookup_imap, Hrow; done].
      cbn in Hs. apply Hs. lia.
  - change (finalize_to_scalar _) with challenge.
    assert (l < length (ro_c <$> rows))%nat as Hl.
    { rewrite length_fmap. pose proof (Forall2_length _ _ _ Hs) as Hlen. rewrite length_imap in Hlen.
      rewrite <- Hlen. by apply lookup_lt_Some in Hm. }
    rewrite (sum_insert _ l) by done. unfold row, c. cbn [ro_c]. rewrite simulated_sum_delete. ring.
Qed.

(** The prover runs for whoever can open a commitment of a ring of the right size. *)
Lemma prove_runs witness ctx rng m :
  (min_ring (vc_tier ctx) <= length (vc_ring ctx) <= MAX_RING_SIZE)%nat ->
  vc_ring ctx !! wi_index witness = Some m ->
  commit (wi_ticket witness) (wi_secret witness) = rm_point m ->
  exists proof rng', prove next witness ctx rng = (Ok proof, rng').
Proof.
  intros Hr Hm Hc. unfold prove, check_ring_size. rewrite !(proj2 (Nat.ltb_ge _ _)) by lia.
  cbn [err_if orb]. rewrite Hm. rewrite decide_True by done. repeat case_match. by do 2 eexists.
Qed.

(** Its proof can be sent and is accepted. *)
Lemma prove_accepted witness ctx rng proof rng' :
  prove next witness ctx rng = (Ok proof, rng') ->
  merkle_root (leaf <$> vc_ring ctx) = vc_merkle_root ctx ->
  compute_nullifier (wi_secret witness) (vc_event_id ctx) (vc_epoch ctx) <> identity ->
  encodable proof /\
  verify_encoded (to_bytes proof) ctx
  = Ok (mkAttestation
          (compress (compute_nullifier (wi_secret witness) (vc_event_id ctx) (vc_epoch ctx)))
          (vc_tier ctx) (length (vc_ring ctx))).
Proof.
  intros Hp Hroot Hnull. destruct (prove_Ok _ _ _ _ _ Hp) as (Hr & rows & Hrows & -> & Hsum).
  pose proof (Forall2_length _ _ _ Hrows) as Hlen.
  assert (encodable (mkRingProof PROOF_VERSION (vc_tier ctx)
    (compress (p_mul (wi_secret witness) (nullifier_base (vc_event_id ctx) (vc_epoch ctx))))
    (ro_c <$> rows) (ro_zt <$> rows) (ro_zs <$> rows))) as Hen.
  { split; cbn; unfold ring_size; cbn; rewrite ?length_fmap; try done; [apply compress_length|].
    rewrite <- Hlen. destruct (vc_tier ctx); cbn in Hr; lia. }
  split; [done|]. unfold verify_encoded. rewrite from_to_bytes, ok_bind by done. apply verify_Ok.
  exists (compute_nullifier (wi_secret witness) (vc_event_id ctx) (vc_epoch ctx)).
  split; [|done]. split; cbn [rp_version rp_tier rp_nullifier rp_challenges rp_z_ticket rp_z_secret];
    rewrite ?length_fmap; try done; [apply decompress_compress|].
  unfold compute_nullifier. by rewrite (announcements_rows _ _ _ _ Hrows).
Qed.

(** An honest holder is admitted.  Whoever knows the opening of a commitment of
    a ring of admissible size can prove; the proof, sent over the wire, is
    accepted against the published root of that ring, for all randomness; and the
    nullifier that the verifier records is determined by the secret, the event
    and the epoch alone. *)
Theorem honest_holder_admitted witness ctx rng m :
  (min_ring (vc_tier ctx) <= length (vc_ring ctx) <= MAX_RING_SIZE)%nat ->
  vc_ring ctx !! wi_index witness = Some m ->
  commit (wi_ticket witness) (wi_secret witness) = rm_point m ->
  merkle_root (leaf <$> vc_ring ctx) = vc_merkle_root ctx ->
  compute_nullifier (wi_secret witness) (vc_event_id ctx) (vc_epoch ctx) <> identity ->
  exists proof rng', prove next witness ctx rng = (Ok proof, rng') /\
    verify_encoded (to_bytes proof) ctx
    = Ok (mkAttestation
            (compress (compute_nullifier (wi_secret witness) (vc_event_id ctx) (vc_epoch ctx)))
            (vc_tier ctx) (length (vc_ring ctx))).
Proof.
  intros Hr Hm Hc Hroot Hnull. destruct (prove_runs witness ctx rng m Hr Hm Hc) as (proof & rng' & Hp).
  exists proof, rng'. split; [done|]. by apply (prove_accepted witness ctx rng proof rng').
Qed.
End Prover.

(** ** Soundness *)
Lemma extract_difference X Y D c c' C :
  p_add X (p_mul (s_neg c) C) = p_add Y (p_mul (s_neg c') C) -> p_add D Y = X ->
  p_mul (s_sub c c') C = D.
Proof.
  intros He Hd. apply (p_cancel_r _ _ (p_add Y (p_mul (s_neg c) C))).
  rewrite (assoc_L p_add D), Hd, He.
  rewrite (comm_L p_add Y), (assoc_L p_add), <- p_mul_add_s, (comm_L p_add).
  f_equal. f_equal. ring.
Qed.

Lemma comb_difference a b a' b' P Q :
  p_add (comb (s_sub a a') (s_sub b b') P Q) (comb a' b' P Q) = comb a b P Q.
Proof. rewrite comb_add. unfold comb. f_equal; f_equal; ring. Qed.

Lemma scale_back d e P Q : s_mul d e = s_one -> p_mul e P = Q -> P = p_mul d Q.
Proof. intros Hd <-. by rewrite p_mul_mul, Hd, p_mul_one. Qed.

(** One member answered twice. *)
Lemma extract_opening omega nullifier m c zt zs c' zt' zs' :
  announcement omega nullifier m c zt zs = announcement omega nullifier m c' zt' zs' -> c <> c' ->
  exists t s, commit t s = rm_point m /\ nullifier = p_mul s omega.
Proof.
  rewrite !announcement_comb. intros [= Ha Hb] Hne.
  destruct (scalar_inverse (s_sub c c')) as [d Hd].
  { intros He. apply Hne. transitivity (s_add (s_sub c c') c'); [ring|]. rewrite He. ring. }
  pose proof (extract_difference _ _ _ _ _ _ Ha (comb_difference _ _ _ _ _ _)) as HA.
  assert (p_add (p_mul (s_sub zs zs') omega) (p_mul zs' omega) = p_mul zs omega) as Hz.
  { rewrite <- p_mul_add_s. f_equal. ring. }
  pose proof (extract_difference _ _ _ _ _ _ Hb Hz) as HB.
  exists (s_mul d (s_sub zt zt')), (s_mul d (s_sub zs zs')). split.
  - rewrite commit_comb, <- comb_mul, <- HA, p_mul_mul, Hd. apply p_mul_one.
  - rewrite <- p_mul_mul, <- HB, p_mul_mul, Hd. symmetry. apply p_mul_one.
Qed.

(** C20: A proof shows knowledge of a ticket.  Two sets of answers that satisfy the
    equations of the verifier for the same announcements and the same nullifier,
    but for different challenges, yield the opening of one of the commitments of
    the ring, and the nullifier is the one of that very secret. *)
Theorem ring_proof_extracts omega nullifier ring cs zts zss cs' zts' zss' :
  length cs = length ring -> length zts = length ring -> length zss = length ring ->
  length cs' = length ring -> length zts' = length ring -> length zss' = length ring ->
  announcements omega nullifier ring cs zts zss = announcements omega nullifier ring cs' zts' zss' ->
  sum_scalars cs <> sum_scalars cs' ->
  exists m t s, m ∈ ring /\ commit t s = rm_point m /\ nullifier = p_mul s omega.
Proof.
  revert cs zts zss cs' zts' zss'.
  induction ring as [|m ring IH]; intros [|c cs] [|zt zts] [|zs zss] [|c' cs'] [|zt' zts'] [|zs' zss'];
    try discriminate; [done|]. cbn [length]. intros L1 L2 L3 L4 L5 L6 He Hsum.
  change (announcement omega nullifier m c zt zs :: announcements omega nullifier ring cs zts zss
    = announcement omega nullifier m c' zt' zs' :: announcements omega nullifier ring cs' zts' zss') in He.
  pose proof (f_equal head He) as Hm. apply (f_equal tail) in He. cbn [head tail] in Hm, He.
  apply (inj Some) in Hm.
  destruct (decide (c = c')) as [->|Hc].
  - destruct (IH cs zts zss cs' zts' zss') as (m' & t & s & Hin & Hts); try lia; [done| |].
    + intros Hs. apply Hsum. unfold sum_scalars in *. cbn. by rewrite Hs.
    + exists m', t, s. split; [by right|done].
  - destruct (extract_opening _ _ _ _ _ _ _ _ _ Hm Hc) as (t & s & Hts). exists m, t, s.
    split; [left|done].
Qed.

(** Two secrets have different nullifiers. *)
Lemma nullifier_injective s s' event epoch :
  nullifier_base event epoch <> (identity : Point) ->
  compute_nullifier s event epoch = compute_nullifier s' event epoch -> s = s'.
Proof.
  unfold compute_nullifier. set (omega := nullifier_base event epoch). intros Ho He.
  destruct (decide (s = s')) as [|Hne]; [done|exfalso]. apply Ho.
  destruct (scalar_inverse (s_sub s s')) as [d Hd].
  { intros Hz. apply Hne. transitivity (s_add (s_sub s s') s'); [ring|]. rewrite Hz. ring. }
  assert (p_mul (s_sub s s') omega = identity) as Hz.
  { apply (p_cancel_r _ _ (p_mul s' omega)). rewrite <- p_mul_add_s, (left_id_L identity p_add).
    rewrite <- He. f_equal. ring. }
  rewrite <- (p_mul_one omega), <- Hd, <- p_mul_mul, Hz.
  rewrite <- (p_mul_zero omega), p_mul_mul. f_equal. ring.
Qed.
End Protocol.

(** ** The theorems on a concrete ring, over the field with two elements *)
Module ZkpSample.
Import toy.
Definition member (t s : bool) : RingMember := mkRingMember (commit t s) (compress (commit t s)).
Definition ring : list RingMember :=
  [member true false; member true true; member false true; member false false].
Definition context : VerificationContext :=
  mkContext "EV" DEFAULT_EPOCH Vip (merkle_root (leaf <$> ring)) ring.
(** A generator that returns its state and flips it. *)
Definition flip (b : bool) : bool * bool := (b, negb b).

Lemma honest_holder_admitted_witness :
  exists proof rng', prove flip (mkWitness 2 false true) context true = (Ok proof, rng') /\
    verify_encoded (to_bytes proof) context = Ok (mkAttestation (point_bytes (false, true, false)) Vip 4).
Proof.
  destruct (honest_holder_admitted flip (mkWitness 2 false true) context true (member false true))
    as (proof & rng' & Hp & Hv);
    [cbn; unfold MAX_RING_SIZE; lia|reflexivity|reflexivity|reflexivity|vm_compute; discriminate|].
  exists proof, rng'. split; [exact Hp|]. exact Hv.
Defined.

Lemma ring_proof_extracts_witness :
  exists m t s, m ∈ [member false true] /\ commit t s = rm_point m /\ (false, true, false) = p_mul s (false, true, false).
Proof.
  apply (ring_proof_extracts (false, true, false) (false, true, false) [member false true]
    [true] [false] [true] [false] [false] [false]); try reflexivity; vm_compute; discriminate.
Defined.
End ZkpSample.
