(* ===== verification/ZkCheckin.v ===== *)
(** * Server: zero-knowledge check-in

    [handlers/zk_checkin.rs]: registration of ticket commitments, sealing of an
    anonymity set, and check-in with a proof.  The three tables of the database
    are the state; a handler is one transaction.  Hexadecimal text (the crate hex)
    is an interface; the texts of error messages and the measured time are left
    out. *)

From stdpp Require Import base tactics numbers list strings gmap.
From Stdlib Require Import Init.Byte Strings.Byte.
From S2P Require Import Prelude.
From S2P Require Import ServerPrelude.
From S2P Require Import Zkp.
From S2P Require Import ZkpEncoding.
From S2P Require Import ZkpProtocol.
Import zkp.

#[export] Instance byte_countable : Countable byte := inj_countable Byte.to_N Byte.of_N Byte.of_to_N.

(** ** Hexadecimal text *)
Class Hex := {
  hex_encode : bytes -> string;
  hex_decode : string -> option bytes;
}.
Class HexLaws `{Hex} : Prop := {
  hex_decode_encode b : hex_decode (hex_encode b) = Some b;
  hex_encode_length b : String.length (hex_encode b) = (2 * length b)%nat;
}.

Module zk_checkin.
Definition MAX_PROOF_ENCODED_BYTES : nat := 64 * 1024.
Definition scheme_id : string := "ring-cp-ristretto255-v1".

Definition map_zkp_error (err : ZkpError) : AppError :=
  match err with
  | MalformedProof | NonCanonicalEncoding => ValidationError
  | UnsupportedVersion _ => ValidationError
  | RingSize _ _ _ => ValidationError
  | RingMismatch | RootMismatch => Conflict
  | DegenerateNullifier | VerificationFailed | WitnessOutOfRange _ | WitnessMismatch => AuthError
  end.

(** ** The tables *)
Record CommitmentRow := mkCommitmentRow {
  cr_event_id : string; cr_tier : string; cr_bucket_index : Z;
  cr_commitment : bytes; cr_leaf_hash : bytes;
}.

(** A bucket is sealed exactly when it has a root (a constraint of the table). *)
Record BucketRow := mkBucketRow { br_commitment_count : Z; br_merkle_root : option bytes }.

Record SpentRow := mkSpentRow {
  sn_tier : string; sn_scheme : string; sn_anonymity_set_size : Z; sn_scanner_id : option string;
}.

Abbreviation BucketKey := (string * string * Z)%type.

(** The rows of [zk_ticket_commitments] are in the order of their id. *)
Record Db := mkDb {
  zk_ticket_commitments : list CommitmentRow;
  zk_anonymity_buckets : gmap BucketKey BucketRow;
  zk_spent_nullifiers : gmap (string * string * bytes) SpentRow;
}.
#[export] Instance eta_db : Eta Db := fun d =>
  mkDb (zk_ticket_commitments d) (zk_anonymity_buckets d) (zk_spent_nullifiers d).

(** ** Requests and responses *)
Record RegisterCommitmentRequest := mkRegister {
  rc_event_id : string; rc_tier : string; rc_commitment : string; rc_bucket_index : Z;
}.
Record RegisterCommitmentResponse := mkRegistered {
  rcr_event_id : string; rcr_tier : string; rcr_bucket_index : Z; rcr_bucket_size : Z; rcr_created : bool;
}.
Record SealBucketRequest := mkSeal { sb_event_id : string; sb_tier : string; sb_bucket_index : Z }.
Record SealBucketResponse := mkSealed {
  sbr_event_id : string; sbr_tier : string; sbr_bucket_index : Z;
  sbr_merkle_root : string; sbr_commitment_count : Z;
}.
Record RingQuery := mkRingQuery { rq_event_id : string; rq_tier : string; rq_bucket_index : Z }.
Record RingResponse := mkRingResponse {
  rr_event_id : string; rr_tier : string; rr_bucket_index : Z;
  rr_merkle_root : string; rr_epoch : string; rr_commitments : list string;
}.
Record ZkCheckinRequest := mkCheckin {
  zc_event_id : string; zc_tier : string; zc_bucket_index : Z;
  zc_epoch : option string; zc_proof : string; zc_scanner_id : option string;
}.
Record ZkCheckinResponse := mkAdmitted {
  zr_admitted : bool; zr_tier : string; zr_anonymity_set_size : Z; zr_nullifier : string;
}.

Section Handlers.
Context {Scalar Point : Type} `{Curve Scalar Point} `{Hex}.

Definition parse_tier (label : string) : Result AppError AttestationTier :=
  ok_or (from_str_label label) ValidationError.

Definition parse_hex_bytes (value : string) (expected_len : nat) : Result AppError bytes :=
  b ← ok_or (hex_decode value) ValidationError;
  if (length b =? expected_len)%nat then Ok b else Err ValidationError.

Definition validate_bucket_index (bucket_index : Z) : Result AppError unit :=
  err_if (bucket_index <? 0) ValidationError.

Definition in_bucket (key : BucketKey) (r : CommitmentRow) : Prop :=
  (cr_event_id r, cr_tier r, cr_bucket_index r) = key.
#[export] Instance in_bucket_dec key r : Decision (in_bucket key r).
Proof. unfold in_bucket. apply _. Defined.

Definition load_bucket_commitments (key : BucketKey) (db : Db) : list bytes :=
  cr_commitment <$> filter (in_bucket key) (zk_ticket_commitments db).

Definition load_sealed_bucket (key : BucketKey) (db : Db) : Result AppError (bytes * Z) :=
  row ← ok_or (zk_anonymity_buckets db !! key) NotFound;
  root ← ok_or (br_merkle_root row) Conflict;
  mret (root, br_commitment_count row).

(** Whether the unique key (event, tier, commitment) is taken. *)
Definition registered (event_id tier : string) (commitment : bytes) (db : Db) : bool :=
  existsb (fun r => bool_decide (cr_event_id r = event_id /\ cr_tier r = tier /\ cr_commitment r = commitment))
    (zk_ticket_commitments db).

(** The checks of [register_commitment] and the insertions, both in its transaction. *)
Definition check_registration (payload : RegisterCommitmentRequest) (db : Db)
    : Result AppError (AttestationTier * bytes * bytes) :=
  tier ← parse_tier (rc_tier payload);
  validate_bucket_index (rc_bucket_index payload) ≫= fun _ =>
  commitment ← parse_hex_bytes (rc_commitment payload) 32;
  member ← map_err map_zkp_error (member_from_bytes commitment);
  let key := (rc_event_id payload, as_str tier, rc_bucket_index payload) in
  err_if (match zk_anonymity_buckets db !! key with
          | Some row => bool_decide (br_merkle_root row <> None)
          | None => false
          end) Conflict ≫= fun _ =>
  err_if (Z.of_nat MAX_RING_SIZE <=? len (load_bucket_commitments key db)) Conflict ≫= fun _ =>
  mret (tier, commitment, leaf member).

Definition insert_registration (payload : RegisterCommitmentRequest) (tier : AttestationTier)
    (commitment leaf : bytes) (db : Db) : RegisterCommitmentResponse * Db :=
  let key := (rc_event_id payload, as_str tier, rc_bucket_index payload) in
  let created := negb (registered (rc_event_id payload) (as_str tier) commitment db) in
  let db := if created then
      db <| zk_ticket_commitments := zk_ticket_commitments db ++
              [mkCommitmentRow (rc_event_id payload) (as_str tier) (rc_bucket_index payload)
                 commitment leaf] |>
    else db in
  let db := match zk_anonymity_buckets db !! key with
    | Some _ => db
    | None => db <| zk_anonymity_buckets := <[key := mkBucketRow 0 None]> (zk_anonymity_buckets db) |>
    end in
  (mkRegistered (rc_event_id payload) (as_str tier) (rc_bucket_index payload)
     (len (load_bucket_commitments key db)) created, db).

Definition register_commitment (payload : RegisterCommitmentRequest) (db : Db)
    : Result AppError RegisterCommitmentResponse * Db :=
  match check_registration payload db with
  | Err e => (Err e, db)
  | Ok (tier, commitment, leaf) =>
      let '(response, db) := insert_registration payload tier commitment leaf db in
      (Ok response, db)
  end.

(** The root that [seal_bucket] publishes, from the rows it reads. *)
Definition compute_root (tier : AttestationTier) (rows : list bytes) : Result AppError bytes :=
  err_if (length rows <? min_ring tier)%nat ValidationError ≫= fun _ =>
  commitments ← mapM (fun row => member ← map_err map_zkp_error (member_from_bytes row);
                                 mret (rm_compressed member)) rows;
  mret (merkle_root_of_commitments commitments).

Definition seal_bucket (payload : SealBucketRequest) (db : Db)
    : Result AppError SealBucketResponse * Db :=
  match tier ← parse_tier (sb_tier payload);
        validate_bucket_index (sb_bucket_index payload) ≫= fun _ => Ok tier with
  | Err e => (Err e, db)
  | Ok tier =>
      let key := (sb_event_id payload, as_str tier, sb_bucket_index payload) in
      let respond root count :=
        mkSealed (sb_event_id payload) (as_str tier) (sb_bucket_index payload) (hex_encode root) count in
      match zk_anonymity_buckets db !! key with
      | Some (mkBucketRow commitment_count (Some root)) => (Ok (respond root commitment_count), db)
      | existing =>
          let rows := load_bucket_commitments key db in
          match compute_root tier rows with
          | Err e => (Err e, db)
          | Ok root =>
              (Ok (respond root (len rows)),
               match existing with
               | Some _ => db <| zk_anonymity_buckets :=
                   <[key := mkBucketRow (len rows) (Some root)]> (zk_anonymity_buckets db) |>
               | None => db
               end)
          end
      end
  end.

Definition get_ring (query : RingQuery) (db : Db) : Result AppError RingResponse :=
  tier ← parse_tier (rq_tier query);
  validate_bucket_index (rq_bucket_index query) ≫= fun _ =>
  let key := (rq_event_id query, as_str tier, rq_bucket_index query) in
  sealed ← load_sealed_bucket key db;
  mret (mkRingResponse (rq_event_id query) (as_str tier) (rq_bucket_index query)
          (hex_encode sealed.1) DEFAULT_EPOCH (hex_encode <$> load_bucket_commitments key db)).

(** [zk_checkin] up to the verified attestation: the epoch, the tier and it. *)
Definition check_proof (payload : ZkCheckinRequest) (db : Db)
    : Result AppError (string * AttestationTier * VerifiedAttestation) :=
  tier ← parse_tier (zc_tier payload);
  validate_bucket_index (zc_bucket_index payload) ≫= fun _ =>
  err_if (MAX_PROOF_ENCODED_BYTES <? String.length (zc_proof payload))%nat ValidationError ≫= fun _ =>
  proof_bytes ← ok_or (hex_decode (zc_proof payload)) ValidationError;
  let epoch := default DEFAULT_EPOCH (zc_epoch payload) in
  let key := (zc_event_id payload, as_str tier, zc_bucket_index payload) in
  sealed ← load_sealed_bucket key db;
  ring ← mapM (fun row => map_err map_zkp_error (member_from_bytes row)) (load_bucket_commitments key db);
  let ctx := mkContext (zc_event_id payload) epoch tier sealed.1 ring in
  attestation ← map_err map_zkp_error (verify_encoded proof_bytes ctx);
  mret (epoch, tier, attestation).

(** The insertion of the nullifier is the commit point. *)
Definition zk_checkin (payload : ZkCheckinRequest) (db : Db)
    : Result AppError ZkCheckinResponse * Db :=
  match check_proof payload db with
  | Err e => (Err e, db)
  | Ok (epoch, tier, attestation) =>
      let key := (zc_event_id payload, epoch, va_nullifier attestation) in
      match zk_spent_nullifiers db !! key with
      | Some _ => (Err Conflict, db)
      | None =>
          (Ok (mkAdmitted true (as_str tier) (Z.of_nat (va_anonymity_set_size attestation))
                 (hex_encode (va_nullifier attestation))),
           db <| zk_spent_nullifiers :=
             <[key := mkSpentRow (as_str tier) scheme_id
                        (Z.of_nat (va_anonymity_set_size attestation)) (zc_scanner_id payload)]>
               (zk_spent_nullifiers db) |>)
      end
  end.
End Handlers.

(** ** Histories *)
Inductive ZkCall :=
  | Register (payload : RegisterCommitmentRequest)
  | Seal (payload : SealBucketRequest)
  | CheckIn (payload : ZkCheckinRequest).

Definition empty_db : Db := mkDb [] ∅ ∅.

Section Histories.
Context {Scalar Point : Type} `{CurveLaws Scalar Point} `{HexLaws}.
Implicit Types (db : Db) (key : BucketKey).

Definition run_zk (c : ZkCall) (db : Db) : Db :=
  match c with
  | Register p => (register_commitment (Scalar := Scalar) (Point := Point) p db).2
  | Seal p => (seal_bucket (Scalar := Scalar) (Point := Point) p db).2
  | CheckIn p => (zk_checkin (Scalar := Scalar) (Point := Point) p db).2
  end.
Definition run_zks (calls : list ZkCall) (db : Db) : Db := foldl (fun db c => run_zk c db) db calls.

(** *** Commitments *)
Definition valid_commitment (c : bytes) : Prop := exists P : Point, decompress c = Some P /\ length c = 32%nat.

Lemma member_from_bytes_Ok (b : bytes) (m : RingMember (Point := Point)) :
  member_from_bytes b = Ok m <->
  length b = 32%nat /\ decompress b = Some (rm_point m) /\ rm_compressed m = b.
Proof.
  unfold member_from_bytes, from_compressed, compressed_from_slice. split.
  - intros Hm. oks. case_decide; [|done]. simplify_eq. done.
  - intros (Hl & Hd & Hc). rewrite decide_True by done. cbn. rewrite Hd. cbn. rewrite <- Hc. by destruct m.
Qed.

Lemma members_of_valid rows :
  Forall valid_commitment rows ->
  exists ring : list (RingMember (Point := Point)),
    mapM (fun row => map_err map_zkp_error (member_from_bytes row)) rows = Ok ring /\
    rm_compressed <$> ring = rows /\
    Forall2 (fun row m => decompress row = Some (rm_point m)) rows ring.
Proof.
  induction 1 as [|row rows (P & Hd & Hl) _ (ring & Hm & Hc & Hf)]; [by exists []|].
  exists (mkRingMember P row :: ring).
  assert (member_from_bytes row = Ok (mkRingMember P row)) as Hr by by apply member_from_bytes_Ok.
  cbn. rewrite Hr. cbn. rewrite Hm. cbn. rewrite Hc. split_and!; [done..|]. by constructor.
Qed.

Lemma compressed_of_valid (rows cs : list bytes) :
  mapM (fun row => member ← map_err map_zkp_error (member_from_bytes (Point := Point) row);
                   mret (rm_compressed member)) rows = Ok cs -> cs = rows.
Proof.
  rewrite mapM_Ok. induction 1 as [|row c rows cs Hr _ ->]; [done|].
  apply bind_Ok in Hr as (m & Hm & [= <-]). apply map_err_Ok, member_from_bytes_Ok in Hm as (_ & _ & ->). done.
Qed.

(** *** The invariant of the tables *)
Record proper (db : Db) : Prop := {
  pr_valid : Forall (fun r => valid_commitment (cr_commitment r)) (zk_ticket_commitments db);
  pr_unique : NoDup ((fun r => (cr_event_id r, cr_tier r, cr_commitment r)) <$> zk_ticket_commitments db);
  pr_size : forall key, (length (load_bucket_commitments key db) <= MAX_RING_SIZE)%nat;
  pr_sealed : forall e t b row root,
    zk_anonymity_buckets db !! (e, t, b) = Some row -> br_merkle_root row = Some root ->
    exists tier, t = as_str tier /\
      (min_ring tier <= length (load_bucket_commitments (e, t, b) db))%nat /\
      br_commitment_count row = len (load_bucket_commitments (e, t, b) db) /\
      root = merkle_root_of_commitments (load_bucket_commitments (e, t, b) db);
}.

Lemma load_valid db key : proper db -> Forall valid_commitment (load_bucket_commitments key db).
Proof.
  intros Hp. unfold load_bucket_commitments. apply Forall_fmap, Forall_forall.
  intros r [_ Hr]%list_elem_of_filter. exact (proj1 (Forall_forall _ _) (pr_valid db Hp) r Hr).
Qed.

Lemma load_nodup db key : proper db -> NoDup (load_bucket_commitments key db).
Proof.
  intros Hp. unfold load_bucket_commitments. pose proof (pr_unique db Hp) as Hu.
  induction (zk_ticket_commitments db) as [|r rows IH]; [constructor|].
  rewrite fmap_cons in Hu. apply NoDup_cons in Hu as [Hr Hu]. rewrite filter_cons.
  case_decide as Hk; [|by apply IH]. cbn. apply NoDup_cons. split; [|by apply IH].
  intros (r' & Hc & [Hk' Hin]%list_elem_of_filter)%list_elem_of_fmap. apply Hr.
  apply list_elem_of_fmap. exists r'. split; [|done]. unfold in_bucket in *. congruence.
Qed.

Lemma parse_tier_Ok l t : parse_tier l = Ok t -> l = as_str t.
Proof.
  unfold parse_tier, from_str_label. repeat case_decide; cbn; intros He; try done; by injection He as <-.
Qed.

(** What a successful check of a registration established. *)
Lemma check_registration_Ok payload db tier c lf :
  check_registration (Scalar := Scalar) (Point := Point) payload db = Ok (tier, c, lf) ->
  valid_commitment c /\ lf = leaf_hash c /\
  let key := (rc_event_id payload, as_str tier, rc_bucket_index payload) in
  (length (load_bucket_commitments key db) < MAX_RING_SIZE)%nat /\
  forall row, zk_anonymity_buckets db !! key = Some row -> br_merkle_root row = None.
Proof.
  unfold check_registration. intros Hc. oks. simplify_eq.
  match goal with H : member_from_bytes _ = Ok _ |- _ => apply member_from_bytes_Ok in H as (Hl & Hd & Hcc) end.
  split; [by eexists|]. split; [unfold leaf; by rewrite Hcc|]. nats. split; [lia|].
  intros row Hrow. rewrite Hrow in *. nats. destruct (br_merkle_root row); naive_solver.
Qed.

Lemma load_app key db r :
  load_bucket_commitments key (db <| zk_ticket_commitments := zk_ticket_commitments db ++ [r] |>)
  = load_bucket_commitments key db ++ (if decide (in_bucket key r) then [cr_commitment r] else []).
Proof.
  unfold load_bucket_commitments. cbn. rewrite filter_app, fmap_app. f_equal.
  rewrite filter_cons, filter_nil. by case_decide.
Qed.

(** What registration leaves alone: sealed buckets and the nullifiers. *)
Definition sealed_root (db : Db) key : option bytes := zk_anonymity_buckets db !! key ≫= br_merkle_root.

Definition frozen (db db' : Db) : Prop :=
  (forall key row, zk_anonymity_buckets db !! key = Some row -> br_merkle_root row <> None ->
     zk_anonymity_buckets db' !! key = Some row /\
     load_bucket_commitments key db' = load_bucket_commitments key db) /\
  zk_spent_nullifiers db ⊆ zk_spent_nullifiers db'.

#[export] Instance frozen_preorder : PreOrder frozen.
Proof.
  split; [by split|]. intros d1 d2 d3 [H12 S12] [H23 S23]. split; [|by etrans].
  intros key row Hrow Hs. destruct (H12 key row Hrow Hs) as [H2' L2]. destruct (H23 key row H2' Hs) as [H3 L3].
  split; [done|]. congruence.
Qed.

Lemma frozen_refl db : frozen db db.
Proof. reflexivity. Qed.
#[local] Hint Resolve frozen_refl : core.

Lemma not_registered e t c db :
  registered e t c db = false ->
  (e, t, c) ∉ (fun r => (cr_event_id r, cr_tier r, cr_commitment r)) <$> zk_ticket_commitments db.
Proof.
  unfold registered. intros Hr ([] & [= -> -> ->] & Hin)%list_elem_of_fmap. apply not_true_iff_false in Hr.
  apply Hr, existsb_exists. eexists. split; [by apply list_elem_of_In|]. by apply bool_decide_eq_true.
Qed.

Lemma append_commitment db r :
  proper db -> valid_commitment (cr_commitment r) ->
  registered (cr_event_id r) (cr_tier r) (cr_commitment r) db = false ->
  let key := (cr_event_id r, cr_tier r, cr_bucket_index r) in
  (length (load_bucket_commitments key db) < MAX_RING_SIZE)%nat -> sealed_root db key = None ->
  let db' := db <| zk_ticket_commitments := zk_ticket_commitments db ++ [r] |> in
  proper db' /\ frozen db db'.
Proof.
  intros [Hv Hu Hz Hs] Hc Hr key Hlen Hseal db'.
  assert (forall k, load_bucket_commitments k db' = load_bucket_commitments k db
    ++ if decide (in_bucket k r) then [cr_commitment r] else []) as Hload by (intros k; apply load_app).
  assert (forall k row, zk_anonymity_buckets db !! k = Some row -> br_merkle_root row <> None ->
    load_bucket_commitments k db' = load_bucket_commitments k db) as Hkeep.
  { intros k row Hrow Hroot. rewrite Hload. case_decide as Hin; [|apply app_nil_r]. unfold in_bucket in Hin.
    subst k. unfold sealed_root, key in Hseal. rewrite Hrow in Hseal. naive_solver. }
  split; [split|split; [|done]].
  - apply Forall_app. by split; [|constructor].
  - cbn. rewrite fmap_app. apply NoDup_app. split_and!; [done| |apply NoDup_singleton].
    intros x Hx ->%list_elem_of_singleton. by apply (not_registered _ _ _ _ Hr).
  - intros k. rewrite Hload, length_app. case_decide as Hin; cbn; [|specialize (Hz k); lia].
    unfold in_bucket in Hin. subst k. fold key. lia.
  - intros e t b row root Hrow Hroot. rewrite (Hkeep _ row) by naive_solver. by apply (Hs e t b row).
  - intros k row Hrow Hroot. split; [done|]. by apply (Hkeep k row).
Qed.

Lemma open_bucket db key :
  proper db -> zk_anonymity_buckets db !! key = None ->
  let db' := db <| zk_anonymity_buckets := <[key := mkBucketRow 0 None]> (zk_anonymity_buckets db) |> in
  proper db' /\ frozen db db'.
Proof.
  intros [Hv Hu Hz Hs] Hk db'. split; [split; try done|split; [|done]].
  - intros e t b row root Hrow Hroot. cbn in Hrow.
    apply lookup_insert_Some in Hrow as [[_ <-]|[_ Hrow]]; [done|]. by apply (Hs e t b row).
  - intros k row Hrow Hroot. split; [|done]. cbn. rewrite lookup_insert_ne; [done|]. intros ->. congruence.
Qed.

Lemma insert_registration_spec payload db tier c lf :
  check_registration (Scalar := Scalar) (Point := Point) payload db = Ok (tier, c, lf) ->
  proper db ->
  let db' := (insert_registration payload tier c lf db).2 in proper db' /\ frozen db db'.
Proof.
  intros (Hv & _ & Hlen & Hs)%check_registration_Ok Hp. unfold insert_registration. cbn zeta.
  set (r := mkCommitmentRow _ _ _ c lf). set (key := (rc_event_id payload, _, _)) in *.
  set (db1 := if negb _ then _ else db).
  assert (proper db1 /\ frozen db db1 /\ zk_anonymity_buckets db1 = zk_anonymity_buckets db) as (Hp1 & Hf1 & Hb).
  { unfold db1. destruct (registered _ _ c db) eqn:Hr; cbn [negb]; [by split_and!|].
    assert (sealed_root db key = None) as Hseal.
    { unfold sealed_root. destruct (zk_anonymity_buckets db !! key) as [row|] eqn:Hrow; [|done]. by apply Hs. }
    destruct (append_commitment db r Hp Hv Hr Hlen Hseal). by split_and!. }
  cbn [snd]. destruct (zk_anonymity_buckets db1 !! key) as [row|] eqn:Hrow; [done|].
  destruct (open_bucket db1 key Hp1 Hrow) as [Hp2 Hf2]. split; [done|]. by etrans.
Qed.

Lemma sealed_bucket db key tier rows root :
  proper db -> key.1.2 = as_str tier -> rows = load_bucket_commitments key db ->
  (min_ring tier <= length rows)%nat -> root = merkle_root_of_commitments rows ->
  (exists row, zk_anonymity_buckets db !! key = Some row /\ br_merkle_root row = None) ->
  let db' := db <| zk_anonymity_buckets :=
    <[key := mkBucketRow (len rows) (Some root)]> (zk_anonymity_buckets db) |> in
  proper db' /\ frozen db db'.
Proof.
  intros [Hv Hu Hz Hs] Ht -> Hmin -> (row0 & Hrow0 & Hroot0) db'. split; [split; try done|split; [|done]].
  - intros e t b row root Hrow Hroot. cbn in Hrow.
    apply lookup_insert_Some in Hrow as [[-> <-]|[_ Hrow]]; [|by apply (Hs e t b row)].
    cbn in Hroot. injection Hroot as <-. by exists tier.
  - intros k row Hrow Hroot. split; [|done]. cbn. rewrite lookup_insert_ne; [done|]. intros ->. congruence.
Qed.

Lemma seal_spec payload db :
  proper db ->
  let db' := (seal_bucket (Scalar := Scalar) (Point := Point) payload db).2 in proper db' /\ frozen db db'.
Proof.
  intros Hp. unfold seal_bucket. destruct (_ ≫= _) as [tier|e] eqn:Ht; [|done].
  oks. subst. set (key := (sb_event_id payload, as_str tier, sb_bucket_index payload)).
  destruct (zk_anonymity_buckets db !! key) as [[n [root|]]|] eqn:Hrow; [done| |].
  - destruct (compute_root tier _) as [root|e] eqn:Hr; [|done]. cbn [snd].
    unfold compute_root in Hr. oks. nats.
    match goal with H : mapM _ _ = Ok _ |- _ => apply compressed_of_valid in H; subst end.
    apply (sealed_bucket db key tier); try done. by eexists.
  - by destruct (compute_root tier _).
Qed.

Lemma checkin_spec payload db :
  proper db ->
  let db' := (zk_checkin (Scalar := Scalar) (Point := Point) payload db).2 in proper db' /\ frozen db db'.
Proof.
  intros [Hv Hu Hz Hs]. unfold zk_checkin. destruct (check_proof payload db) as [[[epoch tier] att]|]; [|done].
  destruct (zk_spent_nullifiers db !! _) eqn:Hn; [done|]. cbn [snd]. split; [by split|].
  split; [done|]. by apply insert_subseteq.
Qed.

Lemma run_zk_spec c db : proper db -> proper (run_zk c db) /\ frozen db (run_zk c db).
Proof.
  intros Hp. destruct c as [p|p|p]; cbn.
  - unfold register_commitment. destruct (check_registration p db) as [[[tier cm] lf]|] eqn:Hc; [|done].
    pose proof (insert_registration_spec _ _ _ _ _ Hc Hp) as Hi.
    by destruct (insert_registration p tier cm lf db).
  - by apply seal_spec.
  - by apply checkin_spec.
Qed.

Lemma run_zks_spec calls : forall db, proper db -> proper (run_zks calls db) /\ frozen db (run_zks calls db).
Proof.
  induction calls as [|c calls IH]; cbn; intros db Hp; [done|].
  destruct (run_zk_spec c db Hp) as [Hp' Hf]. destruct (IH _ Hp') as [Hp'' Hf']. split; [done|]. by etrans.
Qed.

Lemma proper_empty : proper empty_db.
Proof. split; cbn; try done; [constructor|]. unfold load_bucket_commitments. cbn. intros _. lia. Qed.


(** A spent nullifier is refused for good. *)
Lemma spent_refused db later p epoch tier att :
  proper db -> is_Some (zk_spent_nullifiers db !! (zc_event_id p, epoch, va_nullifier att)) ->
  let db2 := run_zks later db in
  check_proof (Scalar := Scalar) (Point := Point) p db2 = Ok (epoch, tier, att) ->
  zk_checkin (Scalar := Scalar) (Point := Point) p db2 = (Err Conflict, db2).
Proof.
  intros Hp [row Hrow] db2 Hc. unfold zk_checkin. rewrite Hc.
  destruct (run_zks_spec later _ Hp) as [_ [_ Hsub]]. fold db2 in Hsub.
  by rewrite (lookup_weaken _ _ _ _ Hrow Hsub).
Qed.

Lemma checkin_Ok p db epoch tier att :
  check_proof (Scalar := Scalar) (Point := Point) p db = Ok (epoch, tier, att) ->
  zk_spent_nullifiers db !! (zc_event_id p, epoch, va_nullifier att) = None ->
  exists db', zk_checkin (Scalar := Scalar) (Point := Point) p db
    = (Ok (mkAdmitted true (as_str tier) (Z.of_nat (va_anonymity_set_size att))
             (hex_encode (va_nullifier att))), db') /\
    is_Some (zk_spent_nullifiers db' !! (zc_event_id p, epoch, va_nullifier att)).
Proof.
  intros Hc Hn. unfold zk_checkin. rewrite Hc, Hn. eexists. split; [done|]. cbn.
  rewrite lookup_insert_eq. by eexists.
Qed.

Lemma checkin_proper p db r db' :
  proper db -> zk_checkin (Scalar := Scalar) (Point := Point) p db = (r, db') -> proper db'.
Proof. intros Hp He. pose proof (checkin_spec p db Hp) as [Hp' _]. by rewrite He in Hp'. Qed.

(** A nullifier admits once.  A check-in that succeeds found the nullifier of its
    proof unspent for the event and epoch and marks it spent; whatever requests
    follow, every other proof with this nullifier for the same event and epoch is
    refused as a conflict and changes nothing. *)
Theorem nullifier_admits_once calls p db' r epoch tier att later p' tier' att' :
  let db := run_zks calls empty_db in
  zk_checkin (Scalar := Scalar) (Point := Point) p db = (Ok r, db') ->
  check_proof (Scalar := Scalar) (Point := Point) p db = Ok (epoch, tier, att) ->
  let key := (zc_event_id p, epoch, va_nullifier att) in
  let db2 := run_zks later db' in
  zk_spent_nullifiers db !! key = None /\ is_Some (zk_spent_nullifiers db' !! key) /\
  (check_proof (Scalar := Scalar) (Point := Point) p' db2 = Ok (epoch, tier', att') ->
   zc_event_id p' = zc_event_id p -> va_nullifier att' = va_nullifier att ->
   zk_checkin (Scalar := Scalar) (Point := Point) p' db2 = (Err Conflict, db2)).
Proof.
  intros db Hr Hc key db2. assert (proper db) as Hp by apply run_zks_spec, proper_empty.
  pose proof (checkin_proper p db _ _ Hp Hr) as Hp'.
  destruct (zk_spent_nullifiers db !! key) eqn:Hk.
  { unfold zk_checkin in Hr. rewrite Hc in Hr. fold key in Hr. by rewrite Hk in Hr. }
  destruct (checkin_Ok p db epoch tier att Hc Hk) as (db1 & Hr1 & Hs). assert (db1 = db') as -> by congruence.
  split_and!; [done|done|]. intros Hc' He Hn. apply (spent_refused db' later p' epoch tier' att'); [done| |done].
  by rewrite He, Hn.
Qed.

(** What a check-in with an encoded proof does. *)
Lemma check_proof_encoded p db tier root n ring proof att :
  zc_tier p = as_str tier -> 0 <= zc_bucket_index p -> zc_proof p = hex_encode (to_bytes proof) ->
  encodable proof ->
  let key := (zc_event_id p, as_str tier, zc_bucket_index p) in
  load_sealed_bucket key db = Ok (root, n) ->
  mapM (fun row => map_err map_zkp_error (member_from_bytes row)) (load_bucket_commitments key db) = Ok ring ->
  verify_encoded (Scalar := Scalar) (Point := Point) (to_bytes proof)
    (mkContext (zc_event_id p) (default DEFAULT_EPOCH (zc_epoch p)) tier root ring) = Ok att ->
  check_proof (Scalar := Scalar) (Point := Point) p db
  = Ok (default DEFAULT_EPOCH (zc_epoch p), tier, att).
Proof.
  intros Ht Hb Hproof Hen key Hs Hm Hv. unfold check_proof, parse_tier, validate_bucket_index.
  rewrite Ht, from_as_str. cbn [ok_or]. rewrite ok_bind, (proj2 (Z.ltb_ge _ _)) by done.
  cbn [err_if]. rewrite ok_bind.
  assert (String.length (zc_proof p) <= MAX_PROOF_ENCODED_BYTES)%nat as Hlen.
  { rewrite Hproof, hex_encode_length, <- (to_bytes_length proof Hen). pose proof (en_ring proof Hen).
    unfold MAX_RING_SIZE, MAX_PROOF_ENCODED_BYTES in *. lia. }
  rewrite (proj2 (Nat.ltb_ge _ _)) by done. cbn [err_if]. rewrite ok_bind, Hproof, hex_decode_encode.
  cbn [ok_or]. rewrite ok_bind. fold key. rewrite Hs, ok_bind, Hm, ok_bind. cbn [fst]. rewrite Hv. done.
Qed.

Lemma as_str_inj t t' : as_str t = as_str t' -> t = t'.
Proof. intros He. apply (inj Some). by rewrite <- !from_as_str, He. Qed.

(** The ring that a sealed bucket publishes. *)
Lemma published_ring db e tier b row root :
  proper db -> zk_anonymity_buckets db !! (e, as_str tier, b) = Some row ->
  br_merkle_root row = Some root ->
  exists ring : list (RingMember (Point := Point)),
    mapM member_from_bytes (load_bucket_commitments (e, as_str tier, b) db) = Ok ring /\
    mapM (fun row => map_err map_zkp_error (member_from_bytes row))
      (load_bucket_commitments (e, as_str tier, b) db) = Ok ring /\
    (min_ring tier <= length ring <= MAX_RING_SIZE)%nat /\
    merkle_root (leaf <$> ring) = root /\
    Forall2 (fun row m => decompress row = Some (rm_point m))
      (load_bucket_commitments (e, as_str tier, b) db) ring.
Proof.
  intros Hp Hrow Hroot. destruct (pr_sealed db Hp _ _ _ _ _ Hrow Hroot) as (tier' & Ht & Hmin & _ & ->).
  apply as_str_inj in Ht as <-.
  destruct (members_of_valid _ (load_valid db (e, as_str tier, b) Hp)) as (ring & Hm & Hc & Hf).
  pose proof (pr_size db Hp (e, as_str tier, b)) as Hz. rewrite (Forall2_length _ _ _ Hf) in Hmin, Hz.
  exists ring. split_and!; try done.
  - apply mapM_Ok in Hm. apply mapM_Ok. eapply Forall2_impl; [exact Hm|]. intros x y. by rewrite map_err_Ok.
  - unfold merkle_root_of_commitments. rewrite <- Hc, <- list_fmap_compose. done.
Qed.

End Histories.

(** ** A gate with four VIP tickets, over the space with eight points *)
Module Sample.
Import toy.

Fixpoint twice (b : bytes) : bytes := match b with [] => [] | x :: b => x :: x :: twice b end.
Fixpoint half (b : bytes) : bytes := match b with x :: _ :: b => x :: half b | _ => [] end.
#[export] Instance double_hex : Hex := {|
  hex_encode b := String.string_of_list_byte (twice b);
  hex_decode s := Some (half (String.list_byte_of_string s));
|}.
Lemma half_twice b : half (twice b) = b.
Proof. induction b as [|x b IH]; [done|]. cbn. by rewrite IH. Qed.
Lemma length_string_of_bytes b : String.length (String.string_of_list_byte b) = length b.
Proof. induction b as [|x b IH]; [done|]. cbn. by rewrite <- IH. Qed.
#[export] Instance double_hex_laws : HexLaws.
Proof.
  split; intros b; cbn.
  - change (Some (half (String.list_byte_of_string (String.string_of_list_byte (twice b)))) = Some b).
    by rewrite String.list_byte_of_string_of_list_byte, half_twice.
  - rewrite length_string_of_bytes. induction b; cbn; lia.
Qed.

Definition registration (p : Bits) : RegisterCommitmentRequest :=
  mkRegister "EV" "vip" (hex_encode (point_bytes p)) 0.
Definition register (t s : bool) : ZkCall := Register (registration (t, s, false)).
Definition opened : list ZkCall :=
  [register true false; register true true; register false true; register false false;
   Seal (mkSeal "EV" "vip" 0)].
Definition db : Db := run_zks opened empty_db.
Definition published : BucketRow := default (mkBucketRow 0 None) (zk_anonymity_buckets db !! ("EV", "vip", 0)).
Definition root : bytes := default [] (br_merkle_root published).
Definition ring : list RingMember :=
  (fun p => mkRingMember p (point_bytes p)) <$>
    [(true, false, false); (true, true, false); (false, true, false); (false, false, false)].
Definition flip (b : bool) : bool * bool := (b, negb b).

(** The request of the holder of the third ticket in an epoch. *)
Definition request (epoch : string) : ZkCheckinRequest :=
  mkCheckin "EV" "vip" 0 (Some epoch)
    (match (prove flip (mkWitness 2 false true) (mkContext "EV" epoch Vip root ring) true).1 with
     | Ok proof => hex_encode (to_bytes proof)
     | Err _ => "" end) None.


Definition entered : Db := (zk_checkin (request "checkin") db).2.
Definition attested : VerifiedAttestation := mkAttestation (point_bytes (false, true, false)) Vip 4.

Lemma nullifier_admits_once_witness :
  zk_checkin (request "checkin") entered = (Err Conflict, entered).
Proof.
  apply (nullifier_admits_once opened (request "checkin") entered
    (mkAdmitted true "vip" 4 (hex_encode (point_bytes (false, true, false)))) "checkin" Vip attested []
    (request "checkin") Vip attested); vm_compute; reflexivity.
Defined.


(** The epoch is the caller's choice, and the nullifier is spent per epoch: the same
    ticket is admitted again under another epoch. *)
Example other_epoch_enters_again :
  (zk_checkin (request "again") entered).1
  = Ok (mkAdmitted true "vip" 4 (hex_encode (point_bytes (false, true, false)))).
Proof. vm_compute. reflexivity. Qed.

(** A registration whose check runs before the bucket is sealed and whose insertion
    runs after it (the check takes no lock): the sealed set grows, and the proof of
    the holder is refused. *)
Definition late : RegisterCommitmentRequest := registration (false, false, true).
Definition raced : Db :=
  match check_registration late (run_zks (take 4 opened) empty_db) with
  | Ok (tier, commitment, lf) => (insert_registration late tier commitment lf db).2
  | Err _ => empty_db
  end.
Example registration_races_seal :
  length (load_bucket_commitments ("EV", "vip", 0) db) = 4%nat /\
  length (load_bucket_commitments ("EV", "vip", 0) raced) = 5%nat /\
  (zk_checkin (request "checkin") raced).1 = Err Conflict.
Proof. vm_compute. done. Qed.
End Sample.
End zk_checkin.
