(* ===== verification/IndexerEvent.v ===== *)
(** * Server: decoding of contract events

    [models/indexer_event.rs].  The XDR reader, UTF-8 with replacement, base64,
    hexadecimal and strkey text and the debug format are an interface ([Xdr]);
    [ScVal] has the constructors of the XDR type that the code matches on, and
    [SvOther] for the rest.  A JSON object is an association list with distinct
    keys; only lookups are made in it. *)

From stdpp Require Import base tactics numbers list strings pretty.
From S2P Require Import Prelude.

(** ** JSON *)
Inductive Json :=
  | JNull
  | JBool (b : bool)
  | JNumber (n : Z)
  | JString (s : string)
  | JArray (l : list Json)
  | JObject (fields : list (string * Json)).

(** [Value::get], [Value::as_str], [Value::as_i64]. *)
Fixpoint lookup_field (k : string) (fields : list (string * Json)) : option Json :=
  match fields with
  | [] => None
  | (k', v) :: fields => if bool_decide (k' = k) then Some v else lookup_field k fields
  end.
Definition get (k : string) (v : Json) : option Json :=
  match v with JObject fields => lookup_field k fields | _ => None end.
Definition as_str (v : Json) : option string :=
  match v with JString s => Some s | _ => None end.
Definition as_i64 (v : Json) : option Z :=
  match v with
  | JNumber n => if (- 2 ^ 63 <=? n) && (n <? 2 ^ 63) then Some n else None
  | _ => None
  end.

(** [serde_json::Map::insert]. *)
Fixpoint insert_field (k : string) (v : Json) (fields : list (string * Json))
    : list (string * Json) :=
  match fields with
  | [] => [(k, v)]
  | (k', v') :: fields =>
      if bool_decide (k' = k) then (k, v) :: fields else (k', v') :: insert_field k v fields
  end.

(** The text of a field, the empty text when it is missing or no text. *)
Definition field (k : string) (v : Json) : string := default "" (get k v ≫= as_str).

(** ** XDR values *)
Inductive ScAddress :=
  | Account (ed25519 : Bytes)
  | Contract (id : Bytes)
  | OtherAddress (debug : string).

Inductive ScVal :=
  | SvBool (b : bool)
  | SvVoid
  | SvU32 (v : Z)
  | SvI32 (v : Z)
  | SvU64 (v : Z)
  | SvI64 (v : Z)
  | SvTimepoint (v : Z)
  | SvDuration (v : Z)
  | SvU128 (hi lo : Z)
  | SvI128 (hi lo : Z)
  | SvU256 (hi_hi hi_lo lo_hi lo_lo : Z)
  | SvI256 (hi_hi hi_lo lo_hi lo_lo : Z)
  | SvBytes (b : Bytes)
  | SvString (s : Bytes)
  | SvSymbol (s : Bytes)
  | SvVec (v : option (list ScVal))
  | SvMap (m : option (list (ScVal * ScVal)))
  | SvAddress (a : ScAddress)
  | SvError (debug : string)
  | SvOther (debug : string).

Class Xdr := {
  from_xdr_base64 : string -> option ScVal;
  from_utf8_lossy : Bytes -> string;
  base64_encode : Bytes -> string;
  hex_encode : Bytes -> string;
  account_strkey : Bytes -> string;
  debug_text : ScVal -> string;
}.

(** [{:016x}] of a 64-bit integer. *)
Definition hex_digit (d : Z) : string :=
  default "0" (["0"; "1"; "2"; "3"; "4"; "5"; "6"; "7"; "8"; "9"; "a"; "b"; "c"; "d"; "e"; "f"]
                 !! Z.to_nat d)%string.
Definition hex16 (v : Z) : string :=
  foldl (fun acc i => acc +:+ hex_digit ((v `mod` 2 ^ 64) / 16 ^ (15 - i) `mod` 16))%string
    "" (seqZ 0 16).

Definition combine_i128 (hi lo : Z) : Z := Z.lor (Z.shiftl hi 64) lo.
Definition combine_u128 (hi lo : Z) : Z := Z.lor (Z.shiftl hi 64) lo.

Section Decode.
Context `{Xdr}.

Definition address_to_strkey (address : ScAddress) : string :=
  match address with
  | Account bytes => account_strkey bytes
  | Contract id => "C" +:+ hex_encode id
  | OtherAddress debug => debug
  end.

Definition key_text (key : ScVal) : string :=
  match key with
  | SvSymbol s | SvString s => from_utf8_lossy s
  | other => debug_text other
  end.

Fixpoint scval_to_json (scval : ScVal) : Json :=
  match scval with
  | SvBool b => JBool b
  | SvVoid => JNull
  | SvU32 v | SvI32 v | SvU64 v | SvI64 v | SvTimepoint v | SvDuration v => JNumber v
  | SvU128 hi lo => if hi =? 0 then JNumber lo else JString (pretty (combine_u128 hi lo))
  | SvI128 hi lo => if hi =? 0 then JNumber lo else JString (pretty (combine_i128 hi lo))
  | SvU256 a b c d | SvI256 a b c d => JString (hex16 a +:+ hex16 b +:+ hex16 c +:+ hex16 d)
  | SvBytes b => JString (base64_encode b)
  | SvString s | SvSymbol s => JString (from_utf8_lossy s)
  | SvVec (Some v) => JArray (map scval_to_json v)
  | SvMap (Some m) =>
      JObject (fold_left (fun obj '(k, v) => insert_field k v obj)
                 (map (fun '(k, v) => (key_text k, scval_to_json v)) m) [])
  | SvAddress address => JString (address_to_strkey address)
  | SvError code => JObject [("scError"%string, JString code)]
  | SvVec None | SvMap None | SvOther _ => JString (debug_text scval)
  end.

Definition normalize_payload (value : Json) : Json :=
  let xdr := match value with
             | JString s => Some s
             | JObject _ => get "xdr" value ≫= as_str
             | _ => None
             end in
  match xdr with
  | Some xdr =>
      match from_xdr_base64 xdr with
      | Some scval => scval_to_json scval
      | None => value
      end
  | None => value
  end.

Fixpoint find_symbol (l : list ScVal) : option string :=
  match l with
  | [] => None
  | SvSymbol s :: _ => Some (from_utf8_lossy s)
  | _ :: l => find_symbol l
  end.

Definition decode_topic_symbol (topic : option string) : string :=
  match topic with
  | None => ""
  | Some raw =>
      match from_xdr_base64 raw with
      | None => raw
      | Some (SvSymbol s) => from_utf8_lossy s
      | Some (SvVec (Some v)) => default "" (find_symbol v)
      | Some _ => ""
      end
  end.
End Decode.

(** ** Events *)
Inductive EventKind :=
  | RegisterEvent
  | ProcessPurchase
  | Refund
  | TransferTicket
  | EventStatusUpdate
  | CollateralStaked
  | CollateralUnstaked
  | Unhandled.
#[export] Instance EventKind_eq_dec : EqDecision EventKind.
Proof. solve_decision. Defined.

Definition among (topic : string) (l : list string) : bool := bool_decide (topic ∈ l).

Definition event_kind_for_topic (topic : string) : EventKind :=
  if among topic ["EventRegistered"; "register_event"; "event_registered"] then RegisterEvent
  else if among topic ["PaymentProcessed"; "process_purchase"; "purchase_confirmed";
                       "ticket_purchased"] then ProcessPurchase
  else if among topic ["BulkRefundProcessed"; "PartialRefundProcessed";
                       "CancellationRefundClaimed"; "refund"; "ticket_refunded"] then Refund
  else if among topic ["TicketTransferred"; "transfer_ticket"] then TransferTicket
  else if among topic ["EventStatusUpdated"; "event_status_updated"; "event_cancelled"]
  then EventStatusUpdate
  else if among topic ["CollateralStaked"; "collateral_staked"; "CollateralUnstaked";
                       "collateral_unstaked"]
  then if String.prefix "CollateralUn" topic || String.prefix "collateral_un" topic
       then CollateralUnstaked else CollateralStaked
  else Unhandled.

Record IndexedEvent := mkEvent {
  ie_id : string;
  ie_ledger : Z; (* u32 *)
  ie_contract_id : string;
  ie_latest_ledger : Z; (* u32 *)
  ie_kind : EventKind;
  ie_topic_name : string;
  ie_value : Json;
}.

Definition decode `{Xdr} (id : string) (ledger : Z) (contract_id : string) (topic : list string)
    (value : Json) (latest_ledger : Z) : IndexedEvent :=
  let topic_name := decode_topic_symbol (head topic) in
  mkEvent id ledger contract_id latest_ledger (event_kind_for_topic topic_name) topic_name
    (normalize_payload value).

Record PurchasePayload := mkPurchase {
  pp_payment_id : string; pp_event_id : string; pp_buyer : option string;
  pp_owner : option string; pp_amount : option Z (* i128 *);
}.
Record RefundPayload := mkRefund { rp_payment_id : string; rp_event_id : string }.
Record TransferPayload := mkTransfer {
  tp_payment_id : string; tp_event_id : string; tp_from : option string; tp_to : option string;
}.
Record RegisterPayload := mkRegister { gp_event_id : string; gp_organizer : option string }.

Definition as_purchase (e : IndexedEvent) : PurchasePayload :=
  let v := ie_value e in
  mkPurchase (field "payment_id" v) (field "event_id" v) (get "buyer" v ≫= as_str)
    (get "owner" v ≫= as_str) (get "amount" v ≫= as_i64).

Definition as_refund (e : IndexedEvent) : RefundPayload :=
  let v := ie_value e in
  mkRefund (match get "payment_id" v ≫= as_str with
            | Some id => id
            | None => field "stellar_id" v
            end) (field "event_id" v).

Definition as_transfer (e : IndexedEvent) : TransferPayload :=
  let v := ie_value e in
  mkTransfer (field "payment_id" v) (field "event_id" v) (get "from" v ≫= as_str)
    (get "to" v ≫= as_str).

Definition as_register (e : IndexedEvent) : RegisterPayload :=
  mkRegister (field "event_id" (ie_value e)) (get "organizer" (ie_value e) ≫= as_str).
