(* ===== verification/Indexer.v ===== *)
(** * Server: the indexer of the chain

    [services/indexer.rs] and [models/blockchain_checkpoint.rs]: the pool of RPC
    nodes, the backoff, the tables of the indexer and the pipeline of producer,
    workers and finalizer.  The database statements are functions on the tables
    [Db]; they fail on violated constraints.  The instants that one loop reads are
    one argument.  The steps of the tasks interleave ([pstep]); a task may also
    give up at any statement, which stands for failures of the connection. *)

From stdpp Require Import base tactics numbers list strings gmap sorting.
From S2P Require Import Prelude.
From S2P Require Import ServerPrelude.
From S2P Require Import IndexerEvent.

(** ** The pool of nodes *)
Record RpcNodePool := mkPool {
  np_urls : list string;
  np_next : nat;
  np_cooldown_until : list Z;
  np_cooldown : Z;
}.

Definition new_pool (urls : list string) (cooldown now : Z) : RpcNodePool :=
  mkPool urls 0 (replicate (length urls) now) cooldown.

(** The loop of [next_url]; [None] is an index out of range, a panic. *)
Fixpoint next_loop (n : nat) (now : Z) (pool : RpcNodePool)
    : option (option string * RpcNodePool) :=
  match n with
  | O => Some (None, pool)
  | S n =>
      let idx := np_next pool in
      let pool := mkPool (np_urls pool) (Nat.modulo (S idx) (length (np_urls pool)))
                    (np_cooldown_until pool) (np_cooldown pool) in
      until ← np_cooldown_until pool !! idx;
      if until <=? now then url ← np_urls pool !! idx; Some (Some url, pool)
      else next_loop n now pool
  end.
Definition next_url (now : Z) (pool : RpcNodePool) : option (option string * RpcNodePool) :=
  if bool_decide (np_urls pool = []) then Some (None, pool)
  else next_loop (length (np_urls pool)) now pool.

(** [iter().position(|u| u == url)]. *)
Fixpoint position (url : string) (urls : list string) : option nat :=
  match urls with
  | [] => None
  | u :: urls => if bool_decide (u = url) then Some 0%nat else S <$> position url urls
  end.

(** [cooldown_until[idx] = v], which panics out of range. *)
Definition set_cooldown (url : string) (v : Z) (pool : RpcNodePool) : option RpcNodePool :=
  match position url (np_urls pool) with
  | None => Some pool
  | Some idx =>
      if (idx <? length (np_cooldown_until pool))%nat then
        Some (mkPool (np_urls pool) (np_next pool) (<[idx := v]> (np_cooldown_until pool))
                (np_cooldown pool))
      else None
  end.
Definition mark_success (now : Z) (url : string) (pool : RpcNodePool) : option RpcNodePool :=
  set_cooldown url now pool.
Definition mark_failure (now : Z) (url : string) (pool : RpcNodePool) : option RpcNodePool :=
  set_cooldown url (now + np_cooldown pool) pool.

(** ** Backoff, in milliseconds; [draw] is the random number generator *)
Definition nominal_ms (attempt base max : Z) : Z :=
  Z.min (Z.min (base * 2 ^ Z.min attempt 16) max) (int_max U64).
Definition backoff_with_jitter (draw : Z -> Z -> Z) (attempt base max : Z) : Z :=
  let n := nominal_ms attempt base max in
  Z.max (draw (n / 2) n) 1.

(** ** Tables *)
Record Row := mkRow {
  r_ledger : Z; (* i64 *)
  r_contract_id : string;
  r_topic : Json;
  r_value : Json;
  r_finalized : bool;
}.
#[export] Instance Row_eta : Eta Row := fun r =>
  mkRow (r_ledger r) (r_contract_id r) (r_topic r) (r_value r) (r_finalized r).

Record Ticket := mkTicket {
  tk_stellar_id : option string;
  tk_event_id : option string;
  tk_buyer_wallet : option string;
  tk_owner_wallet : option string;
  tk_status : string;
}.
#[export] Instance Ticket_eta : Eta Ticket := fun t =>
  mkTicket (tk_stellar_id t) (tk_event_id t) (tk_buyer_wallet t) (tk_owner_wallet t) (tk_status t).

(** The tables that the indexer reads or writes, and the purchases that were
    published to the dashboards.  Of the events only the identifiers matter:
    the indexer writes nothing but their time of update. *)
Record Db := mkDb {
  db_buffer : gmap string Row;
  db_tickets : list Ticket;
  db_events : gset string;
  db_organizers : list (string * bool);
  db_checkpoint : option (Z * option string);
  db_published : list (string * Z);
}.
#[export] Instance Db_eta : Eta Db := fun d =>
  mkDb (db_buffer d) (db_tickets d) (db_events d) (db_organizers d) (db_checkpoint d)
    (db_published d).

(** The order of the texts in the database, [Uuid::parse_str] and the cast
    [::uuid]; both give the canonical text. *)
Class Texts := {
  id_le : string -> string -> bool;
  parse_uuid : string -> option string;
  cast_uuid : string -> option string;
}.

Record IndexerConfig := mkConfig {
  cf_rpc_urls : list string;
  cf_ticket_payment_contract_id : string;
  cf_event_registry_contract_id : string;
  cf_start_ledger : Z; (* u32 *)
  cf_window_ledgers : Z; (* u32 *)
  cf_confirmations : Z; (* u32 *)
  cf_broker : bool; (* whether a broadcaster was given *)
}.

Definition contract_ids (config : IndexerConfig) : list string :=
  filter (fun id => id <> "") [cf_ticket_payment_contract_id config; cf_event_registry_contract_id config].
Definition is_enabled (config : IndexerConfig) : bool :=
  negb (bool_decide (cf_rpc_urls config = [])) && negb (bool_decide (contract_ids config = [])).

Inductive IndexerError :=
  | Http | Rpc | RateLimited | NoHealthyNode | Database | InvalidRange.

Definition FINALIZER_BATCH_SIZE : nat := 250.
Definition MAX_EVENTS_PER_POLL : nat := 100.
Definition MAX_REPLAY_LEDGERS : Z := 100000.

(** *** Checkpoints *)
Definition checkpoint_save (ledger_sequence : Z) (event_cursor : option string) (db : Db) : Db :=
  db <| db_checkpoint := Some (ledger_sequence, event_cursor) |>.
Definition rollback_to (fork_ledger : Z) (db : Db) : Db :=
  db <| db_buffer := filter (fun kr => kr.2.(r_ledger) < fork_ledger) (db_buffer db) |>
     <| db_checkpoint := Some (fork_ledger - 1, None) |>.
Definition prune_window (keep_from_ledger : Z) (db : Db) : Db :=
  db <| db_buffer := filter (fun kr => ~ (kr.2.(r_finalized) = true /\ kr.2.(r_ledger) < keep_from_ledger))
                       (db_buffer db) |>.
Definition checkpoint_ledger (db : Db) : Z := from_option fst 0 (db_checkpoint db).

(** *** The buffer *)
Definition buffer_contains (id : string) (ledger : Z) (db : Db) : bool :=
  match db_buffer db !! id with
  | Some r => r_ledger r =? ledger
  | None => false
  end.
(** The inserted rows are zero or one. *)
Definition buffer_insert (event : IndexedEvent) (db : Db) : bool * Db :=
  match db_buffer db !! ie_id event with
  | Some _ => (false, db)
  | None => (true, db <| db_buffer := <[ie_id event :=
      mkRow (ie_ledger event) (ie_contract_id event) (JString (ie_topic_name event))
        (ie_value event) false]> (db_buffer db) |>)
  end.
Definition mark_finalized (id : string) (db : Db) : Db :=
  db <| db_buffer := alter (fun r => r <| r_finalized := true |>) id (db_buffer db) |>.

(** ** State application *)
Section Apply.
Context `{Texts}.
Variable config : IndexerConfig.

Definition stellar_id_of (payment_id : string) (event : IndexedEvent) : string :=
  if bool_decide (payment_id = "") then ie_id event else payment_id.

Definition insert_ticket (t : Ticket) (db : Db) : Result IndexerError Db :=
  if existsb (fun t' => bool_decide (tk_stellar_id t' = tk_stellar_id t)) (db_tickets db)
  then Ok db
  else match tk_event_id t with
       | Some e => if bool_decide (e ∈ db_events db)
                   then Ok (db <| db_tickets := db_tickets db ++ [t] |>) else Err Database
       | None => Ok (db <| db_tickets := db_tickets db ++ [t] |>)
       end.

Definition publish_purchase (payload : PurchasePayload) (db : Db) : Db :=
  if cf_broker config then
    match parse_uuid (pp_event_id payload) with
    | Some event_uuid =>
        db <| db_published := db_published db ++ [(event_uuid, default 0 (pp_amount payload))] |>
    | None => db
    end
  else db.

Definition apply_purchase (event : IndexedEvent) (db : Db) : Result IndexerError Db :=
  let payload := as_purchase event in
  let stellar_id := stellar_id_of (pp_payment_id payload) event in
  if bool_decide (pp_event_id payload = "") then Ok db
  else
    let owner := match pp_owner payload with Some o => Some o | None => pp_buyer payload end in
    uuid ← ok_or (cast_uuid (pp_event_id payload)) Database;
    db ← insert_ticket (mkTicket (Some stellar_id) (Some uuid) (pp_buyer payload) owner "Unused") db;
    mret (publish_purchase payload db).

Definition refund_hits (stellar_id : string) (event_uuid : option string) (t : Ticket) : bool :=
  bool_decide (tk_stellar_id t = Some stellar_id)
  || match event_uuid with
     | Some u => bool_decide (tk_event_id t = Some u) && negb (bool_decide (tk_status t = "Revoked"))
     | None => false
     end.

Definition apply_refund (event : IndexedEvent) (db : Db) : Result IndexerError Db :=
  let payload := as_refund event in
  let stellar_id := stellar_id_of (rp_payment_id payload) event in
  let event_uuid := parse_uuid (rp_event_id payload) in
  Ok (db <| db_tickets :=
    (fun t => if refund_hits stellar_id event_uuid t then t <| tk_status := "Revoked"%string |> else t)
      <$> db_tickets db |>).

Definition apply_transfer (event : IndexedEvent) (db : Db) : Result IndexerError Db :=
  let payload := as_transfer event in
  if bool_decide (tp_payment_id payload = "") || bool_decide (tp_to payload = None) then Ok db
  else Ok (db <| db_tickets :=
    (fun t => if bool_decide (tk_stellar_id t = Some (tp_payment_id payload))
              then t <| tk_owner_wallet := tp_to payload |> else t) <$> db_tickets db |>).

(** [apply_registered] and [apply_status_update] only touch the time of update of
    an event. *)
Definition apply_registered (_ : IndexedEvent) (db : Db) : Result IndexerError Db := Ok db.
Definition apply_status_update (_ : IndexedEvent) (db : Db) : Result IndexerError Db := Ok db.

Definition apply_collateral (verified : bool) (event : IndexedEvent) (db : Db)
    : Result IndexerError Db :=
  let organizer := field "organizer" (ie_value event) in
  if bool_decide (organizer = "") then Ok db
  else Ok (db <| db_organizers :=
    (fun '(w, v) => if bool_decide (w = organizer) then (w, verified) else (w, v))
      <$> db_organizers db |>).

Definition apply_event_state (event : IndexedEvent) (db : Db) : Result IndexerError Db :=
  if bool_decide (ie_contract_id event = cf_ticket_payment_contract_id config) then
    match ie_kind event with
    | ProcessPurchase => apply_purchase event db
    | Refund => apply_refund event db
    | TransferTicket => apply_transfer event db
    | _ => Ok db
    end
  else if bool_decide (ie_contract_id event = cf_event_registry_contract_id config) then
    match ie_kind event with
    | RegisterEvent => apply_registered event db
    | EventStatusUpdate => apply_status_update event db
    | CollateralStaked => apply_collateral true event db
    | CollateralUnstaked => apply_collateral false event db
    | _ => Ok db
    end
  else Ok db.

Definition apply_and_finalize (event : IndexedEvent) (db : Db) : Result IndexerError Db :=
  db ← apply_event_state event db;
  mret (mark_finalized (ie_id event) db).
End Apply.

(** ** Finality *)
Definition wrap_u32 (z : Z) : Z := z mod 2 ^ 32.

Definition is_final (config : IndexerConfig) (event : IndexedEvent) : bool :=
  saturating_add U32 (ie_ledger event) (cf_confirmations config) <=? ie_latest_ledger event.

(** The bound of a sweep, when there is one. *)
Definition sweep_bound (config : IndexerConfig) (observed : Z) : option Z :=
  if observed <? wrap_u32 (cf_confirmations config + 1) then None
  else Some (wrap_u32 (observed - cf_confirmations config)).

(** ** The finalizer *)
Section Finalizer.
Context `{Xdr} `{Texts}.
Variable config : IndexerConfig.

Definition is_pending (final_bound : Z) (r : Row) : Prop :=
  r_finalized r = false /\ r_ledger r <= final_bound.
#[global] Instance is_pending_dec final_bound r : Decision (is_pending final_bound r).
Proof. unfold is_pending. apply _. Defined.

Definition row_le (a b : string * Row) : Prop :=
  r_ledger a.2 < r_ledger b.2 \/ (r_ledger a.2 = r_ledger b.2 /\ id_le a.1 b.1 = true).
#[global] Instance row_le_dec a b : Decision (row_le a b).
Proof. unfold row_le. apply _. Defined.

(** The statement that selects the rows of a batch. *)
Definition select_pending (final_bound : Z) (db : Db) : list (string * Row) :=
  take FINALIZER_BATCH_SIZE
    (merge_sort row_le
       (map_to_list (filter (fun kr => is_pending final_bound kr.2) (db_buffer db)))).

(** The stored topic, an array of texts or one text. *)
Definition topic_of (topic : Json) : list string :=
  match topic with
  | JArray l => default [] (mapM as_str l)
  | JString s => [s]
  | _ => []
  end.

Definition redecode (final_bound : Z) (row : string * Row) : IndexedEvent :=
  decode row.1 (wrap_u32 (r_ledger row.2)) (r_contract_id row.2) (topic_of (r_topic row.2))
    (r_value row.2) (wrap_u32 (final_bound + cf_confirmations config)).

(** One turn of the loop of [finalize_batch]. *)
Definition finalize_row (final_bound : Z) (row : string * Row) (db : Db) : Result IndexerError Db :=
  let event := redecode final_bound row in
  if bool_decide (ie_kind event = Unhandled) then Ok (mark_finalized row.1 db)
  else apply_and_finalize config event db.

(** An error ends the loop; what was written before it stays. *)
Fixpoint finalize_rows (final_bound : Z) (rows : list (string * Row)) (applied : Z) (db : Db)
    : Result IndexerError Z * Db :=
  match rows with
  | [] => (Ok applied, db)
  | row :: rows =>
      match finalize_row final_bound row db with
      | Ok db => finalize_rows final_bound rows (applied + 1) db
      | Err e => (Err e, db)
      end
  end.

Definition finalize_batch (final_bound : Z) (db : Db) : Result IndexerError (Z * Z) * Db :=
  let rows := select_pending final_bound db in
  match finalize_rows final_bound rows 0 db with
  | (Ok applied, db) => (Ok (applied, Z.of_nat (length rows)), db)
  | (Err e, db) => (Err e, db)
  end.

(** One tick of [run_finalizer]. *)
Definition sweep (observed : Z) (db : Db) : Db :=
  match sweep_bound config observed with
  | None => db
  | Some final_bound =>
      match finalize_batch final_bound db with
      | (Ok _, db) =>
          prune_window (saturating_sub U32 final_bound (cf_window_ledgers config))
            (checkpoint_save final_bound None db)
      | (Err _, db) => db
      end
  end.
End Finalizer.

(** ** The producer *)
Record SorobanEvent := mkRaw {
  se_id : string;
  se_ledger : Z; (* u32 *)
  se_contract_id : string;
  se_topic : list string;
  se_value : Json;
}.
Record FetchedPage := mkPage { fp_events : list SorobanEvent; fp_latest_ledger : Z (* u32 *) }.

(** [getEvents] of one node: the answer to a cursor and a first ledger. *)
Abbreviation Node := (option string -> option Z -> Result IndexerError FetchedPage).

(** [fetch_page]; [None] is the panic of [next_url]. *)
Definition fetch_page (nodes : string -> Node) (now : Z) (cursor : option string)
    (start_ledger : option Z) (pool : RpcNodePool)
    : option (Result IndexerError (FetchedPage * string) * RpcNodePool) :=
  '(url, pool) ← next_url now pool;
  match url with
  | None => Some (Err NoHealthyNode, pool)
  | Some url =>
      match nodes url cursor start_ledger with
      | Ok page => Some (Ok (page, url), pool)
      | Err e =>
          match e with
          | RateLimited | Http | Rpc => pool ← mark_failure now url pool; Some (Err e, pool)
          | _ => Some (Err e, pool)
          end
      end
  end.

(** Where the producer starts. *)
Definition resume (config : IndexerConfig) (checkpoint : option (Z * option string))
    : option string * option Z :=
  match checkpoint with
  | Some (_, Some cursor) => (Some cursor, None)
  | Some (ledger, None) => (None, Some (wrap_u32 (Z.min (ledger + 1) (2 ^ 63 - 1))))
  | None => (None, if 0 <? cf_start_ledger config then Some (cf_start_ledger config) else None)
  end.

Definition decode_raw `{Xdr} (latest_ledger : Z) (raw : SorobanEvent) : IndexedEvent :=
  decode (se_id raw) (se_ledger raw) (se_contract_id raw) (se_topic raw) (se_value raw) latest_ledger.

(** ** Replay *)
Record ReplaySummary := mkSummary {
  rs_start_ledger : Z; rs_end_ledger : Z; rs_events_processed : Z; rs_skipped_duplicates : Z;
}.

Definition run_replay_validation (start_ledger end_ledger : Z) : Result IndexerError unit :=
  if start_ledger =? 0 then Err InvalidRange
  else if end_ledger <? start_ledger then Err InvalidRange
  else if saturating_sub U32 end_ledger start_ledger >? MAX_REPLAY_LEDGERS then Err InvalidRange
  else Ok tt.

Section Replay.
Context `{Xdr} `{Texts}.
Variable config : IndexerConfig.

(** The events of a page: [done], [started], the counts and the tables; an error
    leaves the replay with the tables as they are. *)
Fixpoint replay_events (end_ledger latest : Z) (events : list SorobanEvent) (started : bool)
    (processed skipped : Z) (db : Db) : Result IndexerError (bool * bool * Z * Z) * Db :=
  match events with
  | [] => (Ok (false, started, processed, skipped), db)
  | raw :: events =>
      if se_ledger raw >? end_ledger then (Ok (true, started, processed, skipped), db)
      else
        let event := decode_raw latest raw in
        match buffer_insert event db with
        | (true, db) =>
            match apply_and_finalize config event db with
            | Ok db => replay_events end_ledger latest events true (processed + 1) skipped db
            | Err e => (Err e, db)
            end
        | (false, db) => replay_events end_ledger latest events true processed (skipped + 1) db
        end
  end.

(** The loop of [run_replay].  The world answers the [n]-th request with
    [nodes n] at the instant [clock n]; [None] is a panic or no fuel left. *)
Fixpoint replay_loop (fuel : nat) (nodes : nat -> string -> Node) (clock : nat -> Z) (n : nat)
    (start_ledger end_ledger : Z) (cursor : option string) (started : bool)
    (processed skipped : Z) (pool : RpcNodePool) (db : Db)
    : option (Result IndexerError (Z * Z) * Db) :=
  match fuel with
  | O => None
  | S fuel =>
      match fetch_page (nodes n) (clock n) cursor (Some start_ledger) pool with
      | None => None
      | Some (Err e, pool) =>
          match e with
          | NoHealthyNode | RateLimited | Rpc =>
              replay_loop fuel nodes clock (S n) start_ledger end_ledger cursor started processed
                skipped pool db
          | _ => Some (Err e, db)
          end
      | Some (Ok (page, url), pool) =>
          pool ← mark_success (clock n) url pool;
          match replay_events end_ledger (fp_latest_ledger page) (fp_events page) started processed
                  skipped db with
          | (Err e, db) => Some (Err e, db)
          | (Ok (done, started, processed, skipped), db) =>
              let cursor := match last (fp_events page) with
                            | Some raw => Some (se_id raw) | None => cursor end in
              if done || (length (fp_events page) <? MAX_EVENTS_PER_POLL)%nat
                 || (fp_latest_ledger page >=? end_ledger) || negb started
              then Some (Ok (processed, skipped), db)
              else replay_loop fuel nodes clock (S n) start_ledger end_ledger cursor started
                     processed skipped pool db
          end
      end
  end.

Definition NODE_COOLDOWN : Z := 60000.

Definition run_replay (fuel : nat) (nodes : nat -> string -> Node) (clock : nat -> Z)
    (start_ledger end_ledger : Z) (db : Db) : option (Result IndexerError ReplaySummary * Db) :=
  match run_replay_validation start_ledger end_ledger with
  | Err e => Some (Err e, db)
  | Ok _ =>
      r ← replay_loop fuel nodes clock 0 start_ledger end_ledger None false 0 0
            (new_pool (cf_rpc_urls config) NODE_COOLDOWN (clock 0%nat)) db;
      match r with
      | (Ok (processed, skipped), db) =>
          Some (Ok (mkSummary start_ledger end_ledger processed skipped),
                checkpoint_save end_ledger None db)
      | (Err e, db) => Some (Err e, db)
      end
  end.
End Replay.

(** ** A concrete instance *)
Module IndexerSample.
(** Topics and values are plain; texts that start with [u] are identifiers. *)
Definition xdr : Xdr := {|
  from_xdr_base64 _ := None; from_utf8_lossy _ := ""; base64_encode _ := ""; hex_encode _ := "";
  account_strkey _ := ""; debug_text _ := "" |}%string.
Definition texts : Texts :=
  let uuid s := if String.prefix "u" s then Some s else None in
  {| id_le := String.leb; parse_uuid := uuid; cast_uuid := uuid |}.
Definition config : IndexerConfig := mkConfig ["https://rpc"%string] "CPAY" "CREG" 1 100 2 true.

Definition purchase (id : string) (ledger : Z) (payment event : string) : SorobanEvent :=
  mkRaw id ledger "CPAY" ["PaymentProcessed"%string]
    (JObject [("payment_id", JString payment); ("event_id", JString event);
              ("buyer", JString "GA"); ("amount", JNumber 50)]%string).
Definition refund (id : string) (ledger : Z) (payment event : string) : SorobanEvent :=
  mkRaw id ledger "CPAY" ["PartialRefundProcessed"%string]
    (JObject [("payment_id", JString payment); ("event_id", JString event)]%string).

(** One event [u1] is known, nothing is buffered. *)
Definition db0 : Db := mkDb ∅ [] {["u1"%string]} [] None [].
End IndexerSample.
