(* ===== verification/IndexerBatch.v ===== *)
(** * Server: pool, batches and replay of the indexer

    The pool of nodes never indexes out of range and finds a healthy node when
    there is one; a batch of the finalizer retires the rows that it selects or
    stops at the row that fails; the application of an event is idempotent and does
    not depend on the way through the buffer; and what a replay really covers. *)

From stdpp Require Import base tactics numbers list strings gmap sorting.
From S2P Require Import Prelude.
From S2P Require Import ServerPrelude.
From S2P Require Import IndexerEvent.
From S2P Require Import Indexer.

(** ** The pool of nodes *)
Definition pool_ok (pool : RpcNodePool) : Prop :=
  length (np_cooldown_until pool) = length (np_urls pool)
  /\ (np_next pool < Nat.max 1 (length (np_urls pool)))%nat.

(** Node [i] may be asked. *)
Definition healthy (now : Z) (pool : RpcNodePool) (i : nat) : Prop :=
  exists until, np_cooldown_until pool !! i = Some until /\ until <= now.

Lemma new_pool_ok urls cooldown now : pool_ok (new_pool urls cooldown now).
Proof. split; cbn; [by rewrite length_replicate|lia]. Qed.

(** The loop asks the nodes in turn, [next] first. *)
Lemma next_loop_spec now n pool :
  pool_ok pool -> np_urls pool <> [] ->
  exists r pool', next_loop n now pool = Some (r, pool') /\ pool_ok pool'
    /\ np_urls pool' = np_urls pool /\ np_cooldown_until pool' = np_cooldown_until pool
    /\ match r with
       | Some url => exists i, np_urls pool !! i = Some url /\ healthy now pool i
       | None => forall j, (j < n)%nat ->
           ~ healthy now pool (Nat.modulo (np_next pool + j) (length (np_urls pool)))
       end.
Proof.
  revert pool. induction n as [|n IH]; intros pool Hok Hne.
  { eexists _, _. do 4 (split; [done|]). intros; lia. }
  assert (length (np_urls pool) <> 0%nat) as Hlen by (by destruct (np_urls pool)).
  destruct Hok as [Hl Hn].
  destruct (lookup_lt_is_Some_2 (np_cooldown_until pool) (np_next pool)) as [until Hu]; [lia|].
  destruct (lookup_lt_is_Some_2 (np_urls pool) (np_next pool)) as [url Hurl]; [lia|].
  set (pool1 := mkPool (np_urls pool) (Nat.modulo (S (np_next pool)) (length (np_urls pool)))
                  (np_cooldown_until pool) (np_cooldown pool)).
  assert (pool_ok pool1) as Hok1.
  { split; [done|]. cbn [pool1 np_next np_urls]. pose proof (Nat.mod_upper_bound (S (np_next pool)) _ Hlen). lia. }
  cbn [next_loop np_cooldown_until]. rewrite Hu. cbn [mbind option_bind np_urls]. rewrite Hurl.
  fold pool1.
  destruct (until <=? now) eqn:Hnow.
  - eexists _, pool1. do 4 (split; [done|]). exists (np_next pool). split; [done|].
    exists until. split; [done|lia].
  - destruct (IH pool1 Hok1 Hne) as (r & pool' & -> & Hok' & Hur & Hcd & Hr).
    eexists _, _. do 4 (split; [done|]). destruct r as [url'|]; [done|].
    intros [|j] Hj.
    + rewrite Nat.add_0_r, Nat.mod_small by lia. intros (u & Hu' & ?). simplify_eq. lia.
    + intros Hh. apply (Hr j); [lia|]. cbn [pool1 np_next np_urls].
      rewrite Nat.Div0.add_mod_idemp_l. by replace (S (np_next pool) + j)%nat with (np_next pool + S j)%nat by lia.
Qed.

(** On a well-formed pool [next_url] never indexes out of range, keeps the pool
    well formed and forgets no cooldown; the node it returns is out of its cooldown,
    and it returns none only if every node is in its cooldown. *)
Theorem next_url_correct now pool :
  pool_ok pool ->
  exists r pool', next_url now pool = Some (r, pool') /\ pool_ok pool'
    /\ np_urls pool' = np_urls pool /\ np_cooldown_until pool' = np_cooldown_until pool
    /\ match r with
       | Some url => exists i, np_urls pool !! i = Some url /\ healthy now pool i
       | None => forall i, ~ healthy now pool i
       end.
Proof.
  intros Hok. unfold next_url. case_bool_decide as Hu.
  - eexists _, _. do 4 (split; [done|]). intros i (u & Hi%lookup_lt_Some & _).
    destruct Hok as [Hl _]. rewrite Hu in Hl. cbn in Hl. lia.
  - destruct (next_loop_spec now (length (np_urls pool)) pool Hok Hu)
      as (r & pool' & -> & Hok' & ? & ? & Hr).
    eexists _, _. do 4 (split; [done|]). destruct r; [done|]. intros i Hi.
    destruct Hi as (u & Hiu & Hun). pose proof (lookup_lt_Some _ _ _ Hiu) as Hlt.
    destruct Hok as [Hl Hn]. rewrite Hl in Hlt.
    apply (Hr (Nat.modulo (i + (length (np_urls pool) - np_next pool)) (length (np_urls pool)))).
    { apply Nat.mod_upper_bound. lia. }
    rewrite Nat.Div0.add_mod_idemp_r.
    replace (np_next pool + (i + (length (np_urls pool) - np_next pool)))%nat
      with (i + 1 * length (np_urls pool))%nat by lia.
    rewrite Nat.Div0.mod_add, Nat.mod_small by done. by exists u.
Qed.

Lemma position_lt url urls i : position url urls = Some i -> (i < length urls)%nat.
Proof.
  revert i. induction urls as [|u urls IH]; intros i; cbn; [done|]. case_bool_decide.
  - intros [= <-]. lia.
  - destruct (position url urls) as [j|]; [|done]. intros [= <-]. specialize (IH j eq_refl). lia.
Qed.

Lemma set_cooldown_ok url v pool :
  pool_ok pool -> exists pool', set_cooldown url v pool = Some pool' /\ pool_ok pool'.
Proof.
  intros [Hl Hn]. unfold set_cooldown. destruct (position url _) as [i|] eqn:Hp.
  - apply position_lt in Hp. destruct (Nat.ltb_spec i (length (np_cooldown_until pool))); [|lia].
    eexists. split; [done|]. split; cbn; [by rewrite length_insert|done].
  - by eexists.
Qed.

(** [fetch_page] does not panic. *)
Lemma fetch_page_total nodes now cursor start_ledger pool :
  pool_ok pool ->
  exists r pool', fetch_page nodes now cursor start_ledger pool = Some (r, pool') /\ pool_ok pool'.
Proof.
  intros Hok. unfold fetch_page. unfold next_url. case_bool_decide as Hu; cbn.
  { eauto. }
  destruct (next_loop_spec now (length (np_urls pool)) pool Hok Hu)
    as (r & pool' & -> & Hok' & _). cbn. destruct r as [url|]; [|eauto].
  destruct (nodes url cursor start_ledger) as [page|e]; [eauto|].
  destruct (set_cooldown_ok url (now + np_cooldown pool') pool' Hok') as (pool2 & Hs & Hok2).
  destruct e; eauto; unfold mark_failure; rewrite Hs; cbn; eauto.
Qed.

Lemma fetch_page_Ok nodes now cursor start_ledger pool page url pool' :
  fetch_page nodes now cursor start_ledger pool = Some (Ok (page, url), pool') ->
  nodes url cursor start_ledger = Ok page.
Proof.
  unfold fetch_page. intros ([[u|] pool1] & _ & Hf)%bind_Some; [|done].
  destruct (nodes u cursor start_ledger) as [page'|e] eqn:Hn; [by simplify_eq|].
  exfalso. destruct e; try done; by apply bind_Some in Hf as (? & _ & ?).
Qed.

(** ** Backoff *)

(** The waiting time is at least one millisecond, at least half of the nominal
    time and at most the cap, which the nominal time doubles up to. *)
Theorem backoff_bounds draw attempt base max :
  (forall lo hi, lo <= hi -> lo <= draw lo hi <= hi) ->
  0 <= attempt -> 0 < base -> 1 <= max <= int_max U64 ->
  1 <= backoff_with_jitter draw attempt base max <= max
  /\ nominal_ms attempt base max / 2 <= backoff_with_jitter draw attempt base max
       <= Z.max 1 (nominal_ms attempt base max)
  /\ (attempt < 16 -> nominal_ms (attempt + 1) base max = Z.min (2 * nominal_ms attempt base max) max).
Proof.
  intros Hd Ha Hb Hm. cbn in Hm. unfold backoff_with_jitter.
  assert (0 < 2 ^ Z.min attempt 16) as Hp by (apply Z.pow_pos_nonneg; lia).
  assert (0 < base * 2 ^ Z.min attempt 16) as Hbp by nia.
  set (n := nominal_ms attempt base max) in *.
  assert (0 < n <= max) as Hn by (unfold n, nominal_ms; cbn; lia).
  assert (n / 2 <= n) by (apply Z.div_le_upper_bound; lia).
  specialize (Hd (n / 2) n ltac:(done)). do 2 (split; [lia|]).
  intros Hlt. unfold n, nominal_ms. cbn.
  rewrite (Z.min_l (attempt + 1)), (Z.min_l attempt), Z.pow_add_r by lia. lia.
Qed.

(** ** Batches of the finalizer *)
Section Batches.
Context `{Xdr} `{Texts}.
Variable config : IndexerConfig.

Definition pending_ids (final_bound : Z) (db : Db) : gset string :=
  dom (filter (fun kr => is_pending final_bound kr.2) (db_buffer db)).

Lemma elem_of_pending b db id :
  id ∈ pending_ids b db <-> exists r, db_buffer db !! id = Some r /\ is_pending b r.
Proof.
  unfold pending_ids. rewrite elem_of_dom. unfold is_Some.
  setoid_rewrite map_lookup_filter_Some. done.
Qed.

Lemma apply_same_buffer event db db' :
  apply_event_state config event db = Ok db' ->
  db_buffer db' = db_buffer db /\ db_checkpoint db' = db_checkpoint db.
Proof.
  unfold apply_event_state, apply_purchase, apply_refund, apply_transfer, apply_registered,
    apply_status_update, apply_collateral, insert_ticket, publish_purchase.
  intros Ha. repeat (case_match || oks); simplify_eq; done.
Qed.

Lemma finalize_row_buffer b row db db' :
  finalize_row config b row db = Ok db' ->
  db_buffer db' = db_buffer (mark_finalized row.1 db) /\ db_checkpoint db' = db_checkpoint db.
Proof.
  unfold finalize_row. case_bool_decide.
  - by intros [= <-].
  - intros (db1 & [Hb Hc]%apply_same_buffer & [= <-])%bind_Ok. cbn. by rewrite Hb, Hc.
Qed.

Lemma mark_pending b id db : pending_ids b (mark_finalized id db) = pending_ids b db ∖ {[id]}.
Proof.
  apply set_eq. intros k. rewrite elem_of_difference, !elem_of_pending, elem_of_singleton. cbn.
  setoid_rewrite lookup_alter_Some. unfold is_pending. split.
  - intros (r & [(<- & r' & _ & ->)|[Hne Hr]] & [Hf Hl]); [done|]. naive_solver.
  - intros ((r & Hr & Hp) & Hne). exists r. naive_solver.
Qed.

Lemma finalize_rows_pending b rows : forall n db m db',
  finalize_rows config b rows n db = (Ok m, db') ->
  m = n + Z.of_nat (length rows) /\ db_checkpoint db' = db_checkpoint db
  /\ pending_ids b db' = pending_ids b db ∖ list_to_set rows.*1.
Proof.
  induction rows as [|row rows IH]; intros n db m db'; cbn.
  - intros [= <- <-]. split; [lia|]. split; [done|]. set_solver.
  - destruct (finalize_row config b row db) as [db1|e] eqn:Hrow; [|done].
    apply finalize_row_buffer in Hrow as [Hb Hc]. intros (-> & -> & ->)%IH.
    split; [lia|]. split; [done|]. unfold pending_ids at 1. rewrite Hb.
    change (dom _) with (pending_ids b (mark_finalized row.1 db)). rewrite mark_pending. set_solver.
Qed.

Lemma selected_pending b db :
  NoDup (select_pending b db).*1
  /\ list_to_set (select_pending b db).*1 ⊆ pending_ids b db
  /\ length (select_pending b db) = Nat.min FINALIZER_BATCH_SIZE (size (pending_ids b db)).
Proof.
  unfold select_pending, pending_ids. set (m := filter _ _).
  assert ((merge_sort row_le (map_to_list m)).*1 ≡ₚ (map_to_list m).*1) as Hp
    by (by rewrite merge_sort_Permutation).
  rewrite fmap_take. split; [|split].
  - eapply sublist_NoDup; [|apply sublist_take]. rewrite Hp. apply NoDup_fst_map_to_list.
  - intros k (i & Hk%list_elem_of_lookup_2 & _)%elem_of_list_to_set%elem_of_take.
    rewrite Hp in Hk. apply list_elem_of_fmap in Hk as ([k' r] & -> & Hk%elem_of_map_to_list).
    by apply elem_of_dom_2 in Hk.
  - rewrite length_take. f_equal. rewrite merge_sort_Permutation.
    by rewrite size_dom, <- length_map_to_list.
Qed.

(** A batch that ends without an error has applied and retired as many of the
    pending rows as fit into a batch, and no other row stops being pending; so a
    batch over at most that many pending rows leaves none.  It does not move the
    checkpoint by itself. *)
Theorem batch_drains b db applied finalized db' :
  finalize_batch config b db = (Ok (applied, finalized), db') ->
  applied = finalized
  /\ applied = Z.of_nat (Nat.min FINALIZER_BATCH_SIZE (size (pending_ids b db)))
  /\ pending_ids b db' ⊆ pending_ids b db
  /\ size (pending_ids b db') = (size (pending_ids b db) - FINALIZER_BATCH_SIZE)%nat
  /\ db_checkpoint db' = db_checkpoint db.
Proof.
  unfold finalize_batch. destruct (finalize_rows _ _ _ _ _) as [[m|e] db1] eqn:Hf; [|done].
  intros [= <- <- <-]. apply finalize_rows_pending in Hf as (-> & Hc & Hp).
  destruct (selected_pending b db) as (Hnd & Hsub & Hlen).
  rewrite Hp, size_difference, size_list_to_set, length_fmap, Hlen by done.
  split_and!; [lia|lia|set_solver|lia|done].
Qed.

Lemma finalize_rows_Err b rows : forall n db e db',
  finalize_rows config b rows n db = (Err e, db') ->
  exists pre row post, rows = pre ++ row :: post
    /\ finalize_rows config b pre n db = (Ok (n + Z.of_nat (length pre)), db')
    /\ finalize_row config b row db' = Err e.
Proof.
  induction rows as [|row rows IH]; intros n db e db'; cbn; [done|].
  destruct (finalize_row config b row db) as [db1|e1] eqn:Hrow.
  - intros (pre & row' & post & -> & Hpre & Herr)%IH.
    exists (row :: pre), row', post. split; [done|]. split; [|done].
    replace (n + Z.of_nat (length (row :: pre))) with (n + 1 + Z.of_nat (length pre))
      by (rewrite length_cons; lia).
    cbn. by rewrite Hrow, Hpre.
  - intros [= <- <-]. exists [], row, rows. cbn. by rewrite Z.add_0_r.
Qed.


(** ** Applying events *)


(** The second application has the same tables. *)
Definition applies_again (f : Db -> Result IndexerError Db) : Prop :=
  forall db db1, f db = Ok db1 ->
  exists db2, f db1 = Ok db2
    /\ db_tickets db2 = db_tickets db1 /\ db_organizers db2 = db_organizers db1
    /\ db_events db2 = db_events db1.

Lemma publish_tables payload db :
  let db' := publish_purchase config payload db in
  db_tickets db' = db_tickets db /\ db_organizers db' = db_organizers db
  /\ db_events db' = db_events db.
Proof. unfold publish_purchase. by repeat case_match. Qed.

Lemma insert_ticket_in t db db1 db2 :
  insert_ticket t db = Ok db1 -> db_tickets db2 = db_tickets db1 -> insert_ticket t db2 = Ok db2.
Proof.
  intros Hins Hsame. unfold insert_ticket at 1. rewrite Hsame. revert Hins. clear Hsame.
  enough (insert_ticket t db = Ok db1 ->
    existsb (fun t' => bool_decide (tk_stellar_id t' = tk_stellar_id t)) (db_tickets db1) = true)
    as Hen by (by intros ->%Hen).
  unfold insert_ticket. destruct (existsb _ _) eqn:Hex; [by intros [= <-]|].
  assert (existsb (fun t' => bool_decide (tk_stellar_id t' = tk_stellar_id t))
            (db_tickets db ++ [t]) = true) as Hin.
  { rewrite existsb_app. cbn. rewrite bool_decide_true by done. by rewrite !orb_true_r. }
  repeat case_match; try done; by intros [= <-].
Qed.

Lemma apply_purchase_again event : applies_again (apply_purchase config event).
Proof.
  intros db db1. unfold apply_purchase. case_bool_decide; [intros [= <-]; eauto|].
  intros (uuid & -> & (db' & Hins & Hp)%bind_Ok)%bind_Ok.
  apply Ok_eq in Hp. subst db1.
  destruct (publish_tables (as_purchase event) db') as (Ht & Ho & He).
  eexists. split; [by rewrite ok_bind, (insert_ticket_in _ _ _ _ Hins Ht)|]. apply publish_tables.
Qed.

Lemma map_twice {A} (f : A -> A) (l : list A) :
  (forall x, f (f x) = f x) -> f <$> (f <$> l) = f <$> l.
Proof. intros Hf. rewrite <- list_fmap_compose. apply list_fmap_ext. intros. apply Hf. Qed.

Lemma apply_refund_again event : applies_again (apply_refund event).
Proof.
  intros db db1 [= <-]. eexists. split; [done|]. cbn. split; [|done]. apply map_twice. intros t.
  destruct (refund_hits _ _ t) eqn:Ht; [|by rewrite Ht].
  by match goal with |- context [if ?b then _ else _] => destruct b end.
Qed.

Lemma apply_transfer_again event : applies_again (apply_transfer event).
Proof.
  intros db db1. unfold apply_transfer. case_match; intros [= <-]; [eauto|].
  eexists. split; [done|]. cbn. split; [|done]. apply map_twice. intros t.
  destruct t as [id e w o st]. cbn. by repeat (case_bool_decide; cbn).
Qed.

Lemma apply_collateral_again verified event : applies_again (apply_collateral verified event).
Proof.
  intros db db1. unfold apply_collateral. case_match; intros [= <-]; [eauto|].
  eexists. split; [done|]. cbn. split; [done|]. split; [|done]. apply map_twice. intros [w v].
  by repeat (case_bool_decide; cbn).
Qed.

(** The application of an event is idempotent on the application tables: once
    it has succeeded it succeeds again and changes nothing there. *)
Theorem apply_idempotent event db db1 :
  apply_event_state config event db = Ok db1 ->
  exists db2, apply_event_state config event db1 = Ok db2
    /\ db_tickets db2 = db_tickets db1 /\ db_organizers db2 = db_organizers db1
    /\ db_events db2 = db_events db1.
Proof.
  unfold apply_event_state. repeat case_match;
    first [apply apply_purchase_again | apply apply_refund_again | apply apply_transfer_again
          | apply apply_collateral_again | by intros [= <-]; eauto].
Qed.

(** The payload is an object of plain fields and the topic a plain name: neither
    can be taken for XDR a second time. *)
Definition plain (event : IndexedEvent) : Prop :=
  from_xdr_base64 (ie_topic_name event) = None
  /\ (exists fields, ie_value event = JObject fields)
  /\ get "xdr" (ie_value event) = None.

(** An event that goes through the buffer comes out as it was decoded, but for
    the latest ledger, so that the finalizer makes of it what a worker would have
    made at once. *)
Theorem buffered_event_redecoded b id ledger contract_id topic value latest db :
  let event := decode id ledger contract_id topic value latest in
  let db' := (buffer_insert event db).2 in
  ledger ∈ᵢ U32 -> plain event -> db_buffer db !! id = None ->
  exists row, db_buffer db' !! id = Some row /\ r_finalized row = false
    /\ let event' := redecode config b (id, row) in
       event' = mkEvent id ledger contract_id (wrap_u32 (b + cf_confirmations config))
                  (ie_kind event) (ie_topic_name event) (ie_value event)
       /\ forall db, apply_event_state config event' db = apply_event_state config event db.
Proof.
  intros event db' Hl (Ht & (fields & Hv) & Hx) Hnone. unfold db', buffer_insert. cbn [event decode ie_id].
  rewrite Hnone. cbn -[decode]. rewrite lookup_insert_eq.
  exists (mkRow ledger contract_id (JString (ie_topic_name event)) (ie_value event) false).
  do 2 (split; [done|]).
  assert (normalize_payload (ie_value event) = ie_value event) as Hn.
  { rewrite Hv. unfold normalize_payload. rewrite <- Hv, Hx. done. }
  assert (decode_topic_symbol (Some (ie_topic_name event)) = ie_topic_name event) as Hs.
  { unfold decode_topic_symbol. by rewrite Ht. }
  assert (redecode config b (id, mkRow ledger contract_id (JString (ie_topic_name event))
            (ie_value event) false)
    = mkEvent id ledger contract_id (wrap_u32 (b + cf_confirmations config))
        (ie_kind event) (ie_topic_name event) (ie_value event)) as Hr.
  { unfold redecode, decode at 1. cbn [fst snd r_ledger r_contract_id r_topic r_value topic_of head].
    rewrite Hn, Hs. unfold wrap_u32 at 1. cbn in Hl. rewrite Z.mod_small by lia. done. }
  split; [exact Hr|]. intros db1. etransitivity; [by rewrite Hr|]. done.
Qed.
End Batches.

(** ** Replay *)
Section ReplayRange.
Context `{Xdr} `{Texts}.
Variable config : IndexerConfig.

(** A replay is accepted exactly for a range that starts at ledger 1 or later,
    is not empty and spans at most [MAX_REPLAY_LEDGERS] ledgers after the first. *)
Theorem replay_range_accepted start_ledger end_ledger :
  start_ledger ∈ᵢ U32 -> end_ledger ∈ᵢ U32 ->
  run_replay_validation start_ledger end_ledger = Ok tt
  <-> 1 <= start_ledger <= end_ledger /\ end_ledger <= start_ledger + MAX_REPLAY_LEDGERS.
Proof.
  cbn. intros Hs He. unfold run_replay_validation, MAX_REPLAY_LEDGERS, saturating_sub, saturate. cbn.
  destruct (Z.eqb_spec start_ledger 0); [split; [done|intros; lia]|].
  destruct (Z.ltb_spec end_ledger start_ledger); [split; [done|intros; lia]|].
  rewrite Z.gtb_ltb. destruct (Z.ltb_spec 100000 (Z.max 0 (Z.min (2 ^ 32 - 1) (end_ledger - start_ledger))));
    split; intros; try done; lia.
Qed.

Lemma replay_events_count end_ledger latest events : forall started p s db r db',
  replay_events config end_ledger latest events started p s db = (Ok r, db') ->
  r.1.2 + r.2 <= p + s + Z.of_nat (length events).
Proof.
  induction events as [|raw events IH]; intros started p s db r db'; cbn -[Z.of_nat length].
  - intros [= <- <-]. cbn. lia.
  - rewrite length_cons. case_match; [intros [= <- <-]; cbn -[Z.of_nat]; lia|].
    destruct (buffer_insert _ _) as [[] db1]; [|intros ?%IH; lia].
    destruct (apply_and_finalize _ _ _); [|done]. intros ?%IH. lia.
Qed.

Lemma replay_loop_count fuel nodes clock start_ledger end_ledger :
  (forall n url c s page, nodes n url c s = Ok page ->
     end_ledger <= fp_latest_ledger page /\ (length (fp_events page) <= MAX_EVENTS_PER_POLL)%nat) ->
  forall n cursor started p s pool db p' s' db',
  replay_loop config fuel nodes clock n start_ledger end_ledger cursor started p s pool db
    = Some (Ok (p', s'), db') ->
  p' + s' <= p + s + Z.of_nat MAX_EVENTS_PER_POLL.
Proof.
  intros Hnodes. induction fuel as [|fuel IH]; intros n cursor started p s pool db p' s' db';
    cbn -[Z.of_nat]; [done|].
  destruct (fetch_page _ _ _ _ _) as [[[[page url]|e] pool1]|] eqn:Hf; [| |done].
  - apply fetch_page_Ok in Hf as Hpage.
    destruct (Hnodes _ _ _ _ _ Hpage) as [Hlatest Hlen].
    destruct (mark_success _ _ _); cbn -[Z.of_nat]; [|done].
    destruct (replay_events _ _ _ _ _ _ _ _) as [[[[[finished started'] p1] s1]|e] db1] eqn:Hev; [|done].
    apply replay_events_count in Hev. cbn -[Z.of_nat] in Hev.
    assert (fp_latest_ledger page >=? end_ledger = true) as -> by lia. rewrite orb_true_r. cbn.
    intros [= <- <- <-]. lia.
  - destruct e; try done; apply IH.
Qed.

(** A replay of a range that lies below the head of every node stops after its
    first page: it handles at most [MAX_EVENTS_PER_POLL] events, however many the
    range has, and still moves the checkpoint to the end of the range. *)
Theorem replay_stops_after_page fuel nodes clock start_ledger end_ledger db summary db' :
  (forall n url c s page, nodes n url c s = Ok page ->
     end_ledger <= fp_latest_ledger page /\ (length (fp_events page) <= MAX_EVENTS_PER_POLL)%nat) ->
  run_replay config fuel nodes clock start_ledger end_ledger db = Some (Ok summary, db') ->
  rs_events_processed summary + rs_skipped_duplicates summary <= Z.of_nat MAX_EVENTS_PER_POLL
  /\ db_checkpoint db' = Some (end_ledger, None).
Proof.
  intros Hnodes. unfold run_replay. destruct (run_replay_validation _ _); [|done].
  destruct (replay_loop _ _ _ _ _ _ _ _ _ _ _ _ _) as [[[[p s]|e] db1]|] eqn:Hl; [|done..].
  intros [= <- <-]. split; [|done]. apply replay_loop_count in Hl; [|done]. done.
Qed.

(** ** What one event does beyond itself *)

(** After a refund with a readable event identifier no ticket of the event is left
    valid, whoever holds it. *)
Theorem refund_revokes_event event db db' u t :
  apply_refund event db = Ok db' ->
  parse_uuid (rp_event_id (as_refund event)) = Some u ->
  t ∈ db_tickets db' -> tk_event_id t = Some u -> tk_status t = "Revoked"%string.
Proof.
  intros Ha Hu Ht He. unfold apply_refund in Ha. rewrite Hu in Ha. apply Ok_eq in Ha. subst db'.
  apply list_elem_of_fmap in Ht as (t0 & -> & _).
  destruct (refund_hits _ _ t0) eqn:Hh; [done|]. revert Hh. unfold refund_hits. rewrite He.
  rewrite (bool_decide_true (Some u = Some u)) by done. cbn.
  destruct (bool_decide (tk_status t0 = "Revoked"%string)) eqn:Hs; [|by rewrite orb_true_r].
  intros _. by apply bool_decide_eq_true in Hs.
Qed.

(** A purchase whose event identifier is no UUID fails on every state of the tables;
    once it is the first pending row, no sweep does anything. *)
Theorem malformed_purchase_blocks b observed row rows db :
  sweep_bound config observed = Some b ->
  select_pending b db = row :: rows ->
  let event := redecode config b row in
  ie_contract_id event = cf_ticket_payment_contract_id config ->
  ie_kind event = ProcessPurchase ->
  pp_event_id (as_purchase event) <> ""%string ->
  cast_uuid (pp_event_id (as_purchase event)) = None ->
  sweep config observed db = db.
Proof.
  intros Hb Hsel event Hc Hk Hne Hu. unfold sweep, finalize_batch. rewrite Hb, Hsel.
  cbn [finalize_rows]. unfold finalize_row at 1. fold event.
  rewrite bool_decide_false by (by rewrite Hk).
  unfold apply_and_finalize, apply_event_state, apply_purchase.
  rewrite bool_decide_true, Hk, bool_decide_false, Hu by done. done.
Qed.
End ReplayRange.

(** ** Concrete runs *)
Module BatchSample.
Import IndexerSample.
#[local] Existing Instances xdr texts.

Definition pool0 : RpcNodePool := new_pool ["a"; "b"]%string 60000 0.

Lemma next_url_correct_witness :
  exists r pool', next_url 5 pool0 = Some (r, pool') /\ pool_ok pool'.
Proof.
  destruct (next_url_correct 5 pool0 (new_pool_ok _ _ _)) as (r & pool' & ? & ? & _). eauto.
Defined.

Lemma backoff_bounds_witness : 1 <= backoff_with_jitter (fun _ hi => hi) 3 5000 300000 <= 300000.
Proof.
  apply (backoff_bounds (fun _ hi => hi) 3 5000 300000); [intros; lia|lia|lia|cbn; lia].
Defined.

Definition parked (raws : list SorobanEvent) (db : Db) : Db :=
  foldl (fun db raw => (buffer_insert (decode_raw 12 raw) db).2) db raws.

(** A purchase of a known event at ledger 10, with finality at ledger 10. *)
Definition db1 : Db := parked [purchase "a" 10 "p1" "u1"] db0.

Lemma batch_drains_witness :
  size (pending_ids 10 (finalize_batch config 10 db1).2) = 0%nat.
Proof.
  destruct (batch_drains config 10 db1 1 1 (finalize_batch config 10 db1).2) as (_ & _ & _ & Hs & _);
    [by vm_compute|].
  rewrite Hs. by vm_compute.
Defined.

(** A purchase with an identifier that is no UUID comes before it. *)
Definition db2 : Db := parked [purchase "b" 9 "p2" "x1"] db1.


Lemma malformed_purchase_blocks_sample : sweep config 12 db2 = db2.
Proof. by vm_compute. Qed.

Lemma apply_idempotent_witness :
  exists db db', apply_event_state config (decode_raw 12 (purchase "a" 10 "p1" "u1")) db0 = Ok db
    /\ apply_event_state config (decode_raw 12 (purchase "a" 10 "p1" "u1")) db = Ok db'
    /\ db_tickets db' = db_tickets db.
Proof.
  set (e := decode_raw 12 _).
  assert (exists db, apply_event_state config e db0 = Ok db) as [db Hdb] by (by eexists).
  destruct (apply_idempotent config e db0 db Hdb) as (db' & Hdb' & Ht & _).
  exists db, db'. done.
Defined.

Lemma buffered_event_redecoded_witness :
  exists row, db_buffer db1 !! "a"%string = Some row /\ r_finalized row = false.
Proof.
  destruct (buffered_event_redecoded config 10 "a" 10 "CPAY" ["PaymentProcessed"%string]
              (se_value (purchase "a" 10 "p1" "u1")) 12 db0) as (row & Hr & Hf & _).
  - done.
  - split; [done|]. split; [by eexists|done].
  - done.
  - exists row. split; [exact Hr|done].
Defined.

Lemma replay_range_accepted_witness : run_replay_validation 1 100001 = Ok tt.
Proof.
  apply (replay_range_accepted 1 100001); cbn; unfold MAX_REPLAY_LEDGERS; lia.
Defined.

(** The node is at ledger 12 and the range ends there. *)
Definition node : nat -> string -> Node :=
  fun _ _ _ _ => Ok (mkPage [purchase "a" 10 "p1" "u1"; purchase "b" 12 "p2" "u1"] 12).

Lemma replay_stops_after_page_witness :
  exists summary db', run_replay config 1 node (fun _ => 0) 10 12 db0 = Some (Ok summary, db')
    /\ rs_events_processed summary + rs_skipped_duplicates summary <= 100.
Proof.
  assert (exists s db', run_replay config 1 node (fun _ => 0) 10 12 db0 = Some (Ok s, db'))
    as (s & db' & Hr) by (by eexists _, _).
  exists s, db'. split; [exact Hr|].
  apply (replay_stops_after_page config 1 node (fun _ => 0) 10 12 db0 s db'); [|exact Hr].
  intros n url c st page [= <-]. cbn. unfold MAX_EVENTS_PER_POLL. lia.
Defined.

(** The replay has applied the purchase at ledger 12, the head, although two
    confirmations are required. *)
Example replay_applies_unconfirmed :
  option_map (fun r => tk_stellar_id <$> db_tickets r.2)
    (run_replay config 1 node (fun _ => 0) 10 12 db0)
  = Some [Some "p1"; Some "p2"]%string
  /\ is_final config (decode_raw 12 (purchase "b" 12 "p2" "u1")) = false.
Proof. by vm_compute. Qed.

(** The state after a history of events, each applied once. *)
Fixpoint history (raws : list SorobanEvent) (db : Db) : Result IndexerError Db :=
  match raws with
  | [] => Ok db
  | raw :: raws => db ← apply_event_state config (decode_raw 12 raw) db; history raws db
  end.

(** A sale, its refund and a later sale of the same event: going through the same
    history a second time revokes the ticket of the second sale. *)
Definition past : list SorobanEvent :=
  [purchase "a" 5 "p1" "u1"; refund "b" 6 "p1" "u1"; purchase "c" 7 "p2" "u1"].
Definition statuses (r : Result IndexerError Db) : list string :=
  match r with Ok db => tk_status <$> db_tickets db | Err _ => [] end.

Example history_twice_differs :
  statuses (history past db0) = ["Revoked"; "Unused"]%string
  /\ statuses (db ← history past db0; history past db) = ["Revoked"; "Revoked"]%string.
Proof. by vm_compute. Qed.

(** The finalizer moves the checkpoint to the head less the confirmations although
    the producer has only reached ledger 10: the next event of the same chain then
    counts as a fork. *)
Example backlog_taken_for_fork :
  let db := sweep config 1000 db1 in
  let raw := purchase "d" 11 "p3" "u1" in
  checkpoint_ledger db = 998 /\ (se_ledger raw <=? checkpoint_ledger db) = true
  /\ buffer_contains (se_id raw) (se_ledger raw) db = false
  /\ checkpoint_ledger (rollback_to (se_ledger raw) db) = 10.
Proof. by vm_compute. Qed.

(** Names that the documentation of the kinds lists, and what becomes of them. *)
Example cancelled_topic_unhandled :
  event_kind_for_topic "EventCancelled" = Unhandled
  /\ event_kind_for_topic "event_cancelled" = EventStatusUpdate.
Proof. done. Qed.
End BatchSample.
