(* ===== verification/IndexerPipeline.v ===== *)
(** * Server: the pipeline of the indexer

    The tasks of [services/indexer.rs] as a step relation: the producer, the
    persister workers and the finalizer share the tables, the channel and the last
    ledger that a node reported.  One step is one statement, one message or one
    answer of a node.  Any statement may fail.  The rest of the server may change
    the application tables at any time, and an administrator may replay events
    meanwhile.  The labels say what was fetched and what was applied. *)

From stdpp Require Import base tactics numbers list strings gmap sorting.
From S2P Require Import Prelude.
From S2P Require Import ServerPrelude.
From S2P Require Import IndexerEvent.
From S2P Require Import Indexer.
From S2P Require Import IndexerBatch.

(** ** State *)

(** The producer has loaded nothing, the ledger of the checkpoint, or scans a page:
    the ledger of the checkpoint, the last event of the page and what remains. *)
Inductive Phase :=
  | PLoad
  | PFetch (checkpoint_ledger : Z)
  | PScan (checkpoint_ledger latest : Z) (last_id : option string) (rest : list SorobanEvent).

Inductive Worker :=
  | WWait
  | WInsert (event : IndexedEvent)
  | WApply (event : IndexedEvent)
  | WMark (event : IndexedEvent).

Inductive Finalizer :=
  | FIdle
  | FRows (final_bound : Z) (rows : list (string * Row))
  | FMark (final_bound : Z) (id : string) (rows : list (string * Row))
  | FPrune (final_bound : Z).

Record Pipeline := mkPipeline {
  ps_db : Db;
  ps_latest : Z;
  ps_queue : list IndexedEvent;
  ps_pool : RpcNodePool;
  ps_cursor : option string;
  ps_start : option Z;
  ps_producer : Phase;
  ps_workers : list Worker;
  ps_finalizer : Finalizer;
}.
#[export] Instance Pipeline_eta : Eta Pipeline := fun p =>
  mkPipeline (ps_db p) (ps_latest p) (ps_queue p) (ps_pool p) (ps_cursor p) (ps_start p)
    (ps_producer p) (ps_workers p) (ps_finalizer p).

Definition QUEUE_CAPACITY : nat := 4096.

(** [spawn_indexer], after the producer has read its checkpoint. *)
Definition spawn (config : IndexerConfig) (workers : nat) (now : Z) (db : Db) : Pipeline :=
  mkPipeline db 0 [] (new_pool (cf_rpc_urls config) NODE_COOLDOWN now)
    (resume config (db_checkpoint db)).1 (resume config (db_checkpoint db)).2
    PLoad (replicate workers WWait) FIdle.

Inductive Label :=
  | Fetched (latest : Z)
  | Applied (event : IndexedEvent)
  | Replayed (event : IndexedEvent)
  | Silent.

(** What the types of the page guarantee. *)
Definition page_ok (page : FetchedPage) : Prop :=
  fp_latest_ledger page ∈ᵢ U32 /\ Forall (fun raw => se_ledger raw ∈ᵢ U32) (fp_events page).

(** The application tables changed, the tables of the indexer did not. *)
Definition same_indexer (db db' : Db) : Prop :=
  db_buffer db' = db_buffer db /\ db_checkpoint db' = db_checkpoint db
  /\ db_published db' = db_published db.

(** [buffer_contains] answers [false] when its statement fails. *)
Definition asked (found contained : bool) : Prop := found = contained \/ found = false.

(** A new event at a finalized ledger. *)
Definition forked (seen : Z) (found : bool) (raw : SorobanEvent) : bool :=
  (se_ledger raw <=? seen) && negb found.

Section Steps.
Context `{Xdr} `{Texts}.
Variable config : IndexerConfig.

(** *** The producer *)
Inductive producer_step (p : Pipeline) : Label -> Pipeline -> Prop :=
  | producer_load seen :
      ps_producer p = PLoad ->
      seen = checkpoint_ledger (ps_db p) \/ seen = 0 (* the statement failed *) ->
      producer_step p Silent (p <| ps_producer := PFetch seen |>)
  | producer_fetch_error seen nodes now e pool :
      ps_producer p = PFetch seen ->
      fetch_page nodes now (ps_cursor p) (ps_start p) (ps_pool p) = Some (Err e, pool) ->
      producer_step p Silent (p <| ps_producer := PLoad |> <| ps_pool := pool |>)
  | producer_fetch seen nodes now page url pool pool' :
      ps_producer p = PFetch seen ->
      fetch_page nodes now (ps_cursor p) (ps_start p) (ps_pool p) = Some (Ok (page, url), pool) ->
      mark_success now url pool = Some pool' ->
      page_ok page ->
      producer_step p (Fetched (fp_latest_ledger page))
        (p <| ps_pool := pool' |> <| ps_latest := fp_latest_ledger page |>
           <| ps_producer := PScan seen (fp_latest_ledger page)
                               (se_id <$> last (fp_events page)) (fp_events page) |>)
  | producer_rollback seen latest last_id raw rest found :
      ps_producer p = PScan seen latest last_id (raw :: rest) ->
      asked found (buffer_contains (se_id raw) (se_ledger raw) (ps_db p)) ->
      forked seen found raw = true ->
      producer_step p Silent
        (p <| ps_db := rollback_to (se_ledger raw) (ps_db p) |>
           <| ps_cursor := None |> <| ps_start := Some (se_ledger raw) |>
           <| ps_producer := PLoad |>)
  | producer_send seen latest last_id raw rest found rollback_failed :
      ps_producer p = PScan seen latest last_id (raw :: rest) ->
      asked found (buffer_contains (se_id raw) (se_ledger raw) (ps_db p)) ->
      forked seen found raw = false \/ rollback_failed = true ->
      (length (ps_queue p) < QUEUE_CAPACITY)%nat ->
      producer_step p Silent
        (p <| ps_queue := ps_queue p ++ [decode_raw latest raw] |>
           <| ps_producer := PScan seen latest last_id rest |>)
  | producer_end seen latest last_id saved :
      ps_producer p = PScan seen latest last_id [] ->
      producer_step p Silent
        (match last_id with
         | None => p <| ps_producer := PLoad |>
         | Some id =>
             p <| ps_cursor := Some id |> <| ps_start := None |> <| ps_producer := PLoad |>
               <| ps_db := if saved : bool then checkpoint_save seen (Some id) (ps_db p)
                           else ps_db p |>
         end).

(** *** A worker *)
Inductive worker_step : Worker -> Pipeline -> Label -> Worker -> Pipeline -> Prop :=
  | worker_take p event rest :
      ps_queue p = event :: rest ->
      worker_step WWait p Silent (WInsert event) (p <| ps_queue := rest |>)
  | worker_insert p event inserted db :
      buffer_insert event (ps_db p) = (inserted, db) ->
      worker_step (WInsert event) p Silent
        (if inserted && is_final config event then WApply event else WWait) (p <| ps_db := db |>)
  | worker_insert_fails p event :
      worker_step (WInsert event) p Silent WWait p
  | worker_apply p event db :
      apply_event_state config event (ps_db p) = Ok db ->
      worker_step (WApply event) p (Applied event) (WMark event) (p <| ps_db := db |>)
  | worker_apply_fails p event :
      worker_step (WApply event) p Silent WWait p
  | worker_mark p event :
      worker_step (WMark event) p Silent WWait
        (p <| ps_db := mark_finalized (ie_id event) (ps_db p) |>)
  | worker_mark_fails p event :
      worker_step (WMark event) p Silent WWait p.

(** *** The finalizer *)
Inductive finalizer_step : Finalizer -> Db -> Z -> Label -> Finalizer -> Db -> Prop :=
  | finalizer_select db observed final_bound :
      sweep_bound config observed = Some final_bound ->
      finalizer_step FIdle db observed Silent (FRows final_bound (select_pending final_bound db)) db
  | finalizer_unhandled db observed final_bound row rows :
      ie_kind (redecode config final_bound row) = Unhandled ->
      finalizer_step (FRows final_bound (row :: rows)) db observed Silent
        (FMark final_bound row.1 rows) db
  | finalizer_apply db observed final_bound row rows db' :
      ie_kind (redecode config final_bound row) <> Unhandled ->
      apply_event_state config (redecode config final_bound row) db = Ok db' ->
      finalizer_step (FRows final_bound (row :: rows)) db observed
        (Applied (redecode config final_bound row)) (FMark final_bound row.1 rows) db'
  | finalizer_mark db observed final_bound id rows :
      finalizer_step (FMark final_bound id rows) db observed Silent
        (FRows final_bound rows) (mark_finalized id db)
  | finalizer_save db observed final_bound saved :
      finalizer_step (FRows final_bound []) db observed Silent (FPrune final_bound)
        (if saved : bool then checkpoint_save final_bound None db else db)
  | finalizer_prune db observed final_bound pruned :
      finalizer_step (FPrune final_bound) db observed Silent FIdle
        (if pruned : bool
         then prune_window (saturating_sub U32 final_bound (cf_window_ledgers config)) db else db)
  | finalizer_fails f db observed :
      finalizer_step f db observed Silent FIdle db.

(** *** The whole *)
Inductive pstep : Pipeline -> Label -> Pipeline -> Prop :=
  | step_producer p l p' : producer_step p l p' -> pstep p l p'
  | step_worker p i w l w' p' :
      ps_workers p !! i = Some w -> worker_step w p l w' p' ->
      pstep p l (p' <| ps_workers := <[i := w']> (ps_workers p) |>)
  | step_finalizer p l f' db' :
      finalizer_step (ps_finalizer p) (ps_db p) (ps_latest p) l f' db' ->
      pstep p l (p <| ps_finalizer := f' |> <| ps_db := db' |>)
  | step_server p db' :
      same_indexer (ps_db p) db' -> pstep p Silent (p <| ps_db := db' |>)
  | step_replay_insert p event :
      ie_ledger event ∈ᵢ U32 ->
      pstep p Silent (p <| ps_db := (buffer_insert event (ps_db p)).2 |>)
  | step_replay_apply p event db' :
      apply_and_finalize config event (ps_db p) = Ok db' ->
      pstep p (Replayed event) (p <| ps_db := db' |>)
  | step_replay_save p end_ledger :
      end_ledger ∈ᵢ U32 ->
      pstep p Silent (p <| ps_db := checkpoint_save end_ledger None (ps_db p) |>).

(** A run, the newest label first. *)
Inductive runs (p0 : Pipeline) : list Label -> Pipeline -> Prop :=
  | runs_nil : runs p0 [] p0
  | runs_step tr p l p' : runs p0 tr p -> pstep p l p' -> runs p0 (l :: tr) p'.
End Steps.

(** ** Only final events are applied *)
Section Finality.
Context `{Xdr} `{Texts}.
Variable config : IndexerConfig.

(** [known] holds of the ledgers that nodes have reported as their latest. *)
Definition timely (known : Z -> Prop) (event : IndexedEvent) : Prop :=
  ie_ledger event ∈ᵢ U32 /\ known (ie_latest_ledger event).
Definition final_for (known : Z -> Prop) (event : IndexedEvent) : Prop :=
  exists latest, known latest
    /\ saturating_add U32 (ie_ledger event) (cf_confirmations config) <= latest.

Definition worker_ok (known : Z -> Prop) (w : Worker) : Prop :=
  match w with
  | WWait | WMark _ => True
  | WInsert e => timely known e
  | WApply e => timely known e /\ is_final config e = true
  end.
Definition bound_ok (known : Z -> Prop) (final_bound : Z) : Prop :=
  known (final_bound + cf_confirmations config).
Definition rows_ok (final_bound : Z) (rows : list (string * Row)) : Prop :=
  Forall (fun row => r_ledger row.2 ∈ᵢ U32 /\ r_ledger row.2 <= final_bound) rows.
Definition finalizer_ok (known : Z -> Prop) (f : Finalizer) : Prop :=
  match f with
  | FIdle | FPrune _ => True
  | FRows b rows | FMark b _ rows => bound_ok known b /\ rows_ok b rows
  end.
Definition phase_ok (known : Z -> Prop) (ph : Phase) : Prop :=
  match ph with
  | PScan _ latest _ rest => known latest /\ Forall (fun raw => se_ledger raw ∈ᵢ U32) rest
  | _ => True
  end.
Definition buffer_ok (db : Db) : Prop :=
  map_Forall (fun _ r => r_ledger r ∈ᵢ U32) (db_buffer db).

Record pipeline_ok (known : Z -> Prop) (p : Pipeline) : Prop := {
  ok_latest : ps_latest p = 0 \/ known (ps_latest p);
  ok_width : ps_latest p ∈ᵢ U32;
  ok_queue : Forall (timely known) (ps_queue p);
  ok_workers : Forall (worker_ok known) (ps_workers p);
  ok_finalizer : finalizer_ok known (ps_finalizer p);
  ok_phase : phase_ok known (ps_producer p);
  ok_buffer : buffer_ok (ps_db p);
}.

(** What is known stays known. *)
Lemma pipeline_ok_mono (known known' : Z -> Prop) p :
  (forall z, known z -> known' z) -> pipeline_ok known p -> pipeline_ok known' p.
Proof.
  intros Hk []. split; try done.
  - naive_solver.
  - eapply Forall_impl; [done|]. unfold timely. naive_solver.
  - eapply Forall_impl; [done|]. intros []; unfold worker_ok, timely; naive_solver.
  - destruct (ps_finalizer p); cbn in *; unfold bound_ok in *; naive_solver.
  - destruct (ps_producer p); cbn in *; naive_solver.
Qed.

Lemma insert_ok event db : ie_ledger event ∈ᵢ U32 -> buffer_ok db -> buffer_ok (buffer_insert event db).2.
Proof.
  intros He Hb. unfold buffer_insert. destruct (db_buffer db !! _); [done|].
  unfold buffer_ok. cbn. by apply map_Forall_insert_2.
Qed.
Lemma mark_ok id db : buffer_ok db -> buffer_ok (mark_finalized id db).
Proof.
  unfold buffer_ok, mark_finalized. cbn. intros Hb k r. rewrite lookup_alter_Some.
  intros [(<- & r' & Hr & ->)|[_ Hr]]; cbn; by eapply Hb.
Qed.
Lemma rollback_ok ledger db : buffer_ok db -> buffer_ok (rollback_to ledger db).
Proof. unfold buffer_ok. cbn. intros Hb k r [Hr _]%map_lookup_filter_Some. by eapply Hb. Qed.
Lemma prune_ok keep db : buffer_ok db -> buffer_ok (prune_window keep db).
Proof. unfold buffer_ok. cbn. intros Hb k r [Hr _]%map_lookup_filter_Some. by eapply Hb. Qed.

Definition learn (known : Z -> Prop) (l : Label) : Z -> Prop :=
  fun z => known z \/ l = Fetched z.

Hypothesis confirmations_ok : 0 <= cf_confirmations config < int_max U32.

Lemma sweep_bound_Some observed b :
  observed ∈ᵢ U32 -> sweep_bound config observed = Some b ->
  observed <> 0 /\ b = observed - cf_confirmations config.
Proof.
  cbn in *. unfold sweep_bound, wrap_u32. intros Ho.
  rewrite (Z.mod_small (_ + 1)) by lia. case_match; [done|]. intros [= <-].
  rewrite Z.mod_small by lia. lia.
Qed.

Lemma select_ok b db : buffer_ok db -> rows_ok b (select_pending b db).
Proof.
  intros Hb. apply Forall_take, Forall_forall. intros [k r] Hin.
  rewrite merge_sort_Permutation, elem_of_map_to_list, map_lookup_filter_Some in Hin.
  destruct Hin as [Hr [_ Hl]]. split; [by eapply Hb|done].
Qed.

Lemma redecode_final known b row :
  bound_ok known b -> r_ledger row.2 ∈ᵢ U32 /\ r_ledger row.2 <= b ->
  final_for known (redecode config b row).
Proof.
  intros Hk [Hr Hb]. exists (b + cf_confirmations config). split; [exact Hk|].
  unfold saturating_add, saturate. cbn in *. unfold wrap_u32. rewrite Z.mod_small; lia.
Qed.

Lemma producer_keeps known p l p' :
  pipeline_ok known p -> producer_step p l p' -> pipeline_ok (learn known l) p'.
Proof.
  intros Hp%(pipeline_ok_mono _ (learn known l)) Hs; [|by left].
  destruct Hp as [H1 H2 H3 H4 H5 H6 H7].
  inversion Hs as [seen Hph _|seen nodes now e pool Hph _|seen nodes now page url pool pool' Hph _ _ [Hl He]
    |seen latest last_id raw rest found Hph _ _|seen latest last_id raw rest found fl Hph _ _ _
    |seen latest last_id saved Hph]; subst; rewrite Hph in H6; cbn in H6.
  - by split.
  - by split.
  - split; cbn -[int_max int_min]; auto; [by right; right|]. split; [by right|done].
  - split; cbn; auto. by apply rollback_ok.
  - destruct H6 as [Hl Hr]. inversion_clear Hr. split; cbn; auto.
    apply Forall_app. split; [done|]. by apply Forall_singleton.
  - destruct last_id, saved; by split.
Qed.

Lemma worker_keeps known p i w l w' p' :
  pipeline_ok known p -> ps_workers p !! i = Some w -> worker_step config w p l w' p' ->
  pipeline_ok known (p' <| ps_workers := <[i := w']> (ps_workers p) |>).
Proof.
  intros [H1 H2 H3 H4 H5 H6 H7] Hi Hs. assert (worker_ok known w) as Hw by (by eapply Forall_lookup_1).
  assert (worker_ok known w' -> Forall (worker_ok known) (<[i:=w']> (ps_workers p))) as Hup
    by (intros; by apply Forall_insert).
  inversion Hs as [? event rest Hq|? event inserted db Hb|? event|? event db Ha|? event|? event|? event];
    subst; cbn in Hw, Hup; split; cbn; auto.
  - rewrite Hq in H3. by inversion_clear H3.
  - rewrite Hq in H3. inversion_clear H3. by apply Hup.
  - apply Hup. case_match eqn:Hc; [|done]. by apply andb_true_iff in Hc as [_ ?].
  - destruct Hw as [Hw _]. pose proof (insert_ok event (ps_db p) Hw H7) as Hdb. by rewrite Hb in Hdb.
  - by unfold buffer_ok; rewrite (proj1 (apply_same_buffer _ _ _ _ Ha)).
  - by apply mark_ok.
Qed.

Lemma finalizer_keeps known p l f' db' :
  pipeline_ok known p ->
  finalizer_step config (ps_finalizer p) (ps_db p) (ps_latest p) l f' db' ->
  pipeline_ok known (p <| ps_finalizer := f' |> <| ps_db := db' |>).
Proof.
  intros [H1 H2 H3 H4 H5 H6 H7] Hs. remember (ps_finalizer p) as f. remember (ps_db p) as db.
  remember (ps_latest p) as observed.
  destruct Hs as [db observed b Hb|db observed b row rows _|db observed b row rows db' _ Ha
    |db observed b id rows|db observed b saved|db observed b pruned|f db observed];
    cbn in H5; split; cbn; subst; auto.
  - apply sweep_bound_Some in Hb as [Hne ->]; [|done]. split; [|by apply select_ok].
    unfold bound_ok. rewrite Z.sub_add. naive_solver.
  - destruct H5 as [? Hr]. by inversion_clear Hr.
  - destruct H5 as [? Hr]. by inversion_clear Hr.
  - by unfold buffer_ok; rewrite (proj1 (apply_same_buffer _ _ _ _ Ha)).
  - by apply mark_ok.
  - by destruct saved.
  - destruct pruned; [by apply prune_ok|done].
Qed.

Lemma pstep_keeps known p l p' :
  pipeline_ok known p -> pstep config p l p' -> pipeline_ok (learn known l) p'.
Proof.
  intros Hp Hs. destruct Hs as [p l p' Hs|p i w l w' p' Hi Hs|p l f' db' Hs|p db' Hd|p event He
    |p event db' Ha|p end_ledger He].
  - by eapply producer_keeps.
  - eapply pipeline_ok_mono; [by left|]. by eapply worker_keeps.
  - eapply pipeline_ok_mono; [by left|]. by eapply finalizer_keeps.
  - eapply pipeline_ok_mono; [by left|]. destruct Hp. split; try done. cbn.
    unfold buffer_ok. by destruct Hd as [-> _].
  - eapply pipeline_ok_mono; [by left|]. destruct Hp. split; try done. by apply insert_ok.
  - eapply pipeline_ok_mono; [by left|]. destruct Hp. split; try done. cbn.
    apply bind_Ok in Ha as (db1 & Ha & [= <-]). apply mark_ok.
    by unfold buffer_ok; rewrite (proj1 (apply_same_buffer _ _ _ _ Ha)).
  - eapply pipeline_ok_mono; [by left|]. by destruct Hp.
Qed.

Lemma pstep_applies known p event p' :
  pipeline_ok known p -> pstep config p (Applied event) p' -> final_for known event.
Proof.
  intros [H1 H2 H3 H4 H5 H6 H7] Hs. inversion Hs as [? ? ? Hs'|? i w ? w' p1 Hi Hs'|? ? f' db' Hs'| | | |]; subst.
  - inversion Hs'.
  - eapply Forall_lookup_1 in H4; [|done]. inversion Hs'; subst. destruct H4 as [[Hl Hk] Hf].
    unfold is_final in Hf. eexists. split; [done|]. lia.
  - inversion Hs' as [| |? ? b row rows ? ? Ha Hf| | | |]; subst. rewrite <- Hf in H5.
    destruct H5 as [Hb Hr]. inversion_clear Hr. by apply redecode_final.
Qed.

Definition reported (tr : list Label) : Z -> Prop := fun z => Fetched z ∈ tr.

Lemma spawn_ok workers now db :
  buffer_ok db -> pipeline_ok (reported []) (spawn config workers now db).
Proof.
  intros Hb. split; cbn; auto; try lia. apply Forall_replicate. done.
Qed.

Lemma runs_ok workers now db tr p :
  buffer_ok db -> runs config (spawn config workers now db) tr p -> pipeline_ok (reported tr) p.
Proof.
  intros Hb. induction 1 as [|tr p l p' Hr IH Hs]; [by apply spawn_ok|].
  eapply pipeline_ok_mono; [|by eapply pstep_keeps]. unfold learn, reported. set_solver.
Qed.

(** C7: the live pipeline of the indexer, whatever the interleaving of the
    producer, the workers, the finalizer, a concurrent replay and the rest of the
    server, and whichever statements and requests fail, applies an event to the
    application tables only after a node has reported a ledger that is at least
    the configured number of confirmations above the ledger of the event. *)
Theorem applied_events_final workers now db tr1 event tr2 p :
  buffer_ok db ->
  runs config (spawn config workers now db) (tr2 ++ Applied event :: tr1) p ->
  exists latest, Fetched latest ∈ tr1
    /\ saturating_add U32 (ie_ledger event) (cf_confirmations config) <= latest.
Proof.
  intros Hb. revert p. induction tr2 as [|l tr2 IH]; intros p Hr; inversion Hr; subst.
  - eapply pstep_applies; [by eapply runs_ok|done].
  - by eapply IH.
Qed.
End Finality.

(** A purchase at ledger 10 reaches the tables through the producer and the only
    worker, when the node reports ledger 12. *)
Module PipelineSample.
Import IndexerSample.
#[local] Existing Instances xdr texts.

Definition page : FetchedPage := mkPage [purchase "a" 10 "p1" "u1"] 12.
Definition event : IndexedEvent := decode_raw 12 (purchase "a" 10 "p1" "u1").
Definition start : Pipeline := spawn config 1 0 db0.
Definition trace : list Label := [Applied event; Silent; Silent; Silent; Fetched 12; Silent].

Lemma sample_run : exists p, runs config start trace p.
Proof.
  eexists. unfold trace. eapply runs_step.
  { eapply runs_step.
    { eapply runs_step.
      { eapply runs_step.
        { eapply runs_step.
          { eapply runs_step; [apply runs_nil|].
            apply step_producer, (producer_load _ 0); [done|by left]. }
          apply step_producer.
          apply (producer_fetch _ 0 (fun _ _ _ => Ok page) 0 page "https://rpc"
                   (new_pool (cf_rpc_urls config) NODE_COOLDOWN 0)
                   (new_pool (cf_rpc_urls config) NODE_COOLDOWN 0)); [done..|].
          split; [done|]. by repeat constructor. }
        apply step_producer.
        apply (producer_send _ 0 12 (Some "a"%string) (purchase "a" 10 "p1" "u1") [] false false);
          [done|by left|by left|]. cbn. unfold QUEUE_CAPACITY. lia. }
      eapply (step_worker _ _ 0); [done|]. by eapply worker_take. }
    eapply (step_worker _ _ 0); [done|]. by eapply worker_insert. }
  eapply (step_worker _ _ 0); [done|]. by eapply worker_apply.
Qed.

Lemma applied_events_final_witness :
  exists latest, Fetched latest ∈ [Silent; Silent; Silent; Fetched 12; Silent]
    /\ saturating_add U32 10 2 <= latest.
Proof.
  destruct sample_run as [p Hp].
  apply (applied_events_final config ltac:(done) 1 0 db0
           [Silent; Silent; Silent; Fetched 12; Silent] event [] p); [|exact Hp].
  apply map_Forall_empty.
Defined.
End PipelineSample.
