(* ===== verification/Rates.v ===== *)
(** * Server: exchange rates

    [handlers/rates.rs]: the circuit breaker, the two caches and the handler
    [get_rates].  A cached value lives until its time to live has elapsed.  What
    the provider answers to each attempt, which of the cache's statements succeed
    and the instants are the environment of a request; rates are an abstract type
    ([f64] in the code) and the upper-case function is a parameter. *)

From stdpp Require Import base tactics numbers list strings gmap.
From S2P Require Import Prelude.
From S2P Require Import ServerPrelude.

Definition CACHE_TTL : Z := 60.
Definition STALE_CACHE_TTL : Z := 3600.
Definition CIRCUIT_BREAKER_THRESHOLD : Z := 3.
Definition CIRCUIT_BREAKER_RESET_SECS : Z := 60.
Definition BACKOFF_BASE_MS : Z := 200.
Definition MAX_ATTEMPTS : nat := 3.

(** ** The circuit breaker; [opened_at] is zero when it is closed *)
Record CircuitBreaker := mkBreaker { failures : Z; opened_at : Z }.

Definition new_breaker : CircuitBreaker := mkBreaker 0 0.

Definition is_open (now : Z) (b : CircuitBreaker) : bool * CircuitBreaker :=
  if opened_at b =? 0 then (false, b)
  else if saturating_sub U64 now (opened_at b) >=? CIRCUIT_BREAKER_RESET_SECS
  then (false, mkBreaker 0 0)
  else (true, b).

Definition record_success (_ : CircuitBreaker) : CircuitBreaker := mkBreaker 0 0.

(** [compare_exchange(0, now)]. *)
Definition exchange_zero (now : Z) (b : CircuitBreaker) : CircuitBreaker :=
  if opened_at b =? 0 then mkBreaker (failures b) now else b.

Definition record_failure (now : Z) (b : CircuitBreaker) : CircuitBreaker :=
  let new_count := failures b + 1 in
  let b := mkBreaker new_count (opened_at b) in
  if new_count >=? CIRCUIT_BREAKER_THRESHOLD
  then exchange_zero now (exchange_zero now b) else b.

Definition status (now : Z) (b : CircuitBreaker) : string * CircuitBreaker :=
  let '(open, b) := is_open now b in (if open then "open" else "closed", b)%string.

Record CircuitBreakerHealth := mkHealth {
  h_status : string; h_failure_count : Z; h_threshold : Z; h_reset_secs : Z;
}.
Definition circuit_breaker_health (now : Z) (b : CircuitBreaker) : CircuitBreakerHealth * CircuitBreaker :=
  let '(s, b) := status now b in
  (mkHealth s (failures b) CIRCUIT_BREAKER_THRESHOLD CIRCUIT_BREAKER_RESET_SECS, b).
Definition circuit_breaker_status (now : Z) (b : CircuitBreaker) : CircuitBreakerHealth * CircuitBreaker :=
  let '(h, b) := circuit_breaker_health now b in
  (if bool_decide (h_status h = "closed"%string) && (h_failure_count h >? 0)
   then mkHealth "half_open" (h_failure_count h) (h_threshold h) (h_reset_secs h) else h, b).

(** ** Keys *)
Definition cache_key (base quote : string) : string := "rates:" +:+ base +:+ ":" +:+ quote.
Definition stale_cache_key (base quote : string) : string :=
  "rates:stale:" +:+ base +:+ ":" +:+ quote.
Definition default_base : string := "XLM".
Definition default_quote : string := "USD".

Section Handler.
Context {Rate : Type}.
Variable to_uppercase : string -> string.

Record ExchangeRate := mkRate { er_base : string; er_quote : string; er_rate : Rate }.

(** ** The cache, with the instant at which each value expires *)
Abbreviation Cache := (gmap string (ExchangeRate * Z)).

(** [None] is also the answer of a failed statement. *)
Definition cache_get (ok : bool) (now : Z) (key : string) (c : Cache) : option ExchangeRate :=
  if ok then
    match c !! key with
    | Some (rate, expires) => if now <? expires then Some rate else None
    | None => None
    end
  else None.
Definition cache_set (ok : bool) (now : Z) (key : string) (rate : ExchangeRate) (ttl : Z) (c : Cache)
    : Cache :=
  if ok then <[key := (rate, now + ttl)]> c else c.

(** ** The provider *)
Inductive Reply :=
  | TooManyRequests
  | BadStatus
  | BadBody
  | NetworkError
  | Rates (rates : gmap string Rate).

(** The attempts from [attempt] on, [n] of them: the rates, the number of requests
    and the time slept, in milliseconds. *)
Fixpoint attempts (reply : nat -> Reply) (n attempt : nat) (slept : Z)
    : option (gmap string Rate) * nat * Z :=
  match n with
  | O => (None, attempt, slept)
  | S n =>
      let slept := if (0 <? attempt)%nat
                   then slept + BACKOFF_BASE_MS * Z.shiftl 1 (Z.of_nat attempt - 1) else slept in
      match reply attempt with
      | Rates rates => (Some rates, S attempt, slept)
      | _ => attempts reply n (S attempt) slept
      end
  end.
Definition fetch_with_backoff (reply : nat -> Reply) : option (gmap string Rate) * nat * Z :=
  attempts reply MAX_ATTEMPTS 0 0.

(** ** The handler *)
Record RatesState := mkState { rs_redis : Cache; rs_breaker : CircuitBreaker }.

Record Env := mkEnv {
  e_start : Z; e_end : Z; (* before and after the fetch *)
  e_get : bool; e_get_stale : bool; e_set : bool; e_set_stale : bool;
  e_reply : nat -> Reply;
}.

Inductive Response :=
  | Success (rate : ExchangeRate) (stale_header : bool)
  | Failure (e : AppError).

(** The response, the number of requests to the provider, and the state. *)
Definition get_rates (env : Env) (base quote : string) (st : RatesState)
    : Response * nat * RatesState :=
  let base := to_uppercase base in
  let quote := to_uppercase quote in
  let key := cache_key base quote in
  let stale_key := stale_cache_key base quote in
  let redis := rs_redis st in
  match cache_get (e_get env) (e_start env) key redis with
  | Some rate => (Success rate false, 0%nat, st)
  | None =>
      let '(open, breaker) := is_open (e_start env) (rs_breaker st) in
      if open then
        (* the response with the stale rate is built here and dropped *)
        (Failure ExternalServiceError, 0%nat, mkState redis breaker)
      else
        let '(fetched, requests, _) := fetch_with_backoff (e_reply env) in
        match fetched with
        | Some rates =>
            let breaker := record_success breaker in
            match rates !! quote with
            | None => (Failure NotFound, requests, mkState redis breaker)
            | Some r =>
                let rate := mkRate base quote r in
                let redis := cache_set (e_set env) (e_end env) key rate CACHE_TTL redis in
                let redis := cache_set (e_set_stale env) (e_end env) stale_key rate STALE_CACHE_TTL redis in
                (Success rate false, requests, mkState redis breaker)
            end
        | None =>
            let breaker := record_failure (e_end env) breaker in
            (match cache_get (e_get_stale env) (e_end env) stale_key redis with
             | Some rate => Success rate true
             | None => Failure ExternalServiceError
             end, requests, mkState redis breaker)
        end
  end.
End Handler.

(** ** Calls of the breaker's methods by overlapping requests, in the order in which
    they take effect *)
Inductive BreakerCall :=
  | Check (now : Z)
  | Succeed
  | Fail (now : Z).

Definition call_breaker (c : BreakerCall) (b : CircuitBreaker) : CircuitBreaker :=
  match c with
  | Check now => (is_open now b).2
  | Succeed => record_success b
  | Fail now => record_failure now b
  end.
Definition run_breaker (cs : list BreakerCall) (b : CircuitBreaker) : CircuitBreaker :=
  foldl (fun b c => call_breaker c b) b cs.

(** No success, and every instant lies between [lo] and [hi]. *)
Definition failing (lo hi : Z) (c : BreakerCall) : Prop :=
  match c with
  | Check now | Fail now => lo <= now < hi
  | Succeed => False
  end.

(** Open since [lo] or later, or closed after [n] failures at least. *)
Definition strained (lo n : Z) (b : CircuitBreaker) : Prop :=
  (lo <= opened_at b) \/ (opened_at b = 0 /\ n <= failures b).

(** In the window a breaker that opened in it blocks. *)
Lemma check_open lo now b :
  0 < lo -> lo + CIRCUIT_BREAKER_RESET_SECS <= int_max U64 ->
  lo <= now < lo + CIRCUIT_BREAKER_RESET_SECS -> lo <= opened_at b -> is_open now b = (true, b).
Proof.
  unfold CIRCUIT_BREAKER_RESET_SECS. intros Hlo Hmax Hnow Ho. unfold is_open.
  destruct (Z.eqb_spec (opened_at b) 0); [lia|]. case_match eqn:Hc; [|done]. exfalso. revert Hc.
  unfold saturating_sub, saturate, CIRCUIT_BREAKER_RESET_SECS. cbn in *. lia.
Qed.

Lemma check_strained lo n now b :
  0 < lo -> lo + CIRCUIT_BREAKER_RESET_SECS <= int_max U64 ->
  lo <= now < lo + CIRCUIT_BREAKER_RESET_SECS ->
  strained lo n b -> strained lo n (is_open now b).2.
Proof.
  intros Hlo Hmax Hnow Hs. destruct (Hs) as [Ho|[Ho _]].
  - by rewrite (check_open lo).
  - unfold is_open. by rewrite Ho.
Qed.

Lemma fail_strained lo n now b :
  0 < lo -> lo <= now -> strained lo n b -> strained lo (n + 1) (record_failure now b).
Proof.
  intros Hlo Hnow. unfold strained, record_failure, exchange_zero. intros Hs.
  repeat (case_match; cbn in * ); lia.
Qed.

Lemma fail_weaken lo n now b :
  0 < lo -> lo <= now -> strained lo n b -> strained lo n (record_failure now b).
Proof. intros Hlo Hnow Hs%(fail_strained _ _ now); [|done..]. unfold strained in *. lia. Qed.

Lemma run_strained lo n cs b :
  0 < lo -> lo + CIRCUIT_BREAKER_RESET_SECS <= int_max U64 ->
  Forall (failing lo (lo + CIRCUIT_BREAKER_RESET_SECS)) cs ->
  strained lo n b -> strained lo n (run_breaker cs b).
Proof.
  intros Hlo Hmax Hcs. revert b. induction Hcs as [|[now| |now] cs Hc _ IH]; intros b Hb; cbn in *;
    [done| |done|]; apply IH.
  - by apply check_strained.
  - apply fail_weaken; [done|lia|done].
Qed.

Lemma run_open lo cs b :
  0 < lo -> lo + CIRCUIT_BREAKER_RESET_SECS <= int_max U64 ->
  Forall (failing lo (lo + CIRCUIT_BREAKER_RESET_SECS)) cs ->
  lo <= opened_at b -> lo <= opened_at (run_breaker cs b).
Proof.
  intros Hlo Hmax Hcs. revert b. induction Hcs as [|[now| |now] cs Hc _ IH]; intros b Hb; cbn in *;
    [done| |done|]; apply IH.
  - by rewrite (check_open lo).
  - unfold record_failure, exchange_zero. repeat (case_match; cbn in * ); lia.
Qed.

(** The first failure at [lo]. *)
Lemma first_strained lo b :
  0 < lo -> 0 <= failures b -> opened_at b = 0 \/ lo <= opened_at b -> strained lo 1 (record_failure lo b).
Proof.
  intros Hlo Hf Ho. apply (fail_strained lo 0); [done|lia|]. unfold strained. lia.
Qed.

Lemma run_app cs ds b : run_breaker (cs ++ ds) b = run_breaker ds (run_breaker cs b).
Proof. apply foldl_app. Qed.

(** The provider is protected.  When three fetches have failed with no success
    in between, however requests overlap, every check of the breaker in the sixty
    seconds after the first of these failures blocks its request. *)
Theorem breaker_protects b ta m1 tb m2 tc m3 td :
  0 < ta -> ta + CIRCUIT_BREAKER_RESET_SECS <= int_max U64 ->
  0 <= failures b -> opened_at b = 0 ->
  Forall (failing ta (ta + CIRCUIT_BREAKER_RESET_SECS)) (m1 ++ Fail tb :: m2 ++ Fail tc :: m3 ++ [Check td]) ->
  (is_open td (run_breaker (Fail ta :: m1 ++ Fail tb :: m2 ++ Fail tc :: m3) b)).1 = true.
Proof.
  intros Hta Hmax Hf Ho Hall. cbn [run_breaker foldl call_breaker]. change (foldl _ ?b ?l) with (run_breaker l b).
  apply Forall_app in Hall as [H1 Hall]. apply Forall_cons in Hall as [Htb Hall].
  apply Forall_app in Hall as [H2 Hall]. apply Forall_cons in Hall as [Htc Hall].
  apply Forall_app in Hall as [H3 Htd]. rewrite Forall_singleton in Htd. cbn [failing] in Htb, Htc, Htd.
  rewrite run_app. cbn [run_breaker foldl call_breaker]. change (foldl _ ?b ?l) with (run_breaker l b).
  rewrite run_app. cbn [run_breaker foldl call_breaker]. change (foldl _ ?b ?l) with (run_breaker l b).
  set (b1 := run_breaker m1 (record_failure ta b)).
  set (b2 := run_breaker m2 (record_failure tb b1)).
  assert (strained ta 1 b1) as Hb1 by (apply run_strained; [done..|]; apply first_strained; auto).
  assert (strained ta 2 b2) as Hb2.
  { apply run_strained; [done..|]. apply (fail_strained ta 1); [done|lia|done]. }
  assert (ta <= opened_at (record_failure tc b2)) as Hopen.
  { revert Hb2. unfold strained, record_failure, exchange_zero, CIRCUIT_BREAKER_THRESHOLD.
    intros Hs. repeat (case_match; cbn in * ); lia. }
  rewrite (check_open ta); [done|done|done|exact Htd|by apply run_open].
Qed.

(** An open breaker makes the rate unavailable, although a stale rate is cached. *)
Theorem open_breaker_unavailable {Rate} to_uppercase env base quote (st : RatesState (Rate := Rate)) :
  cache_get (e_get env) (e_start env)
    (cache_key (to_uppercase base) (to_uppercase quote)) (rs_redis st) = None ->
  (is_open (e_start env) (rs_breaker st)).1 = true ->
  get_rates to_uppercase env base quote st = (Failure ExternalServiceError, 0%nat, st).
Proof.
  intros Hc Ho. unfold get_rates. rewrite Hc. revert Ho. unfold is_open.
  repeat case_match; cbn; try done; destruct st; simplify_eq/=; done.
Qed.

Lemma attempts_spec {Rate} (reply : nat -> Reply (Rate := Rate)) n : forall attempt slept f r s,
  attempts reply n attempt slept = (f, r, s) ->
  (attempt <= r <= attempt + n)%nat
  /\ match f with
     | Some rates => (attempt < r)%nat /\ reply (pred r) = Rates rates
     | None => r = (attempt + n)%nat
     end
  /\ forall i rates, (attempt <= i < (if f then pred r else r))%nat -> reply i <> Rates rates.
Proof.
  induction n as [|n IH]; intros attempt slept f r s; cbn [attempts].
  - intros [= <- <- <-]. split_and!; [lia..|]. intros; lia.
  - destruct (reply attempt) eqn:Hr; cycle 4.
    { intros [= <- <- <-]. cbn. split_and!; [lia|lia|lia|done|]. intros; lia. }
    all: intros (Hb & Hf & Hi)%IH; (split; [lia|]); (split; [destruct f; [|lia]; split; [lia|apply Hf]|]);
      intros i rates Hlt; (destruct (decide (i = attempt)) as [->|]; [congruence|]); apply Hi; lia.
Qed.

(** The provider is asked at most three times for one request, and no rate is found
    exactly when all three attempts fail. *)
Theorem fetch_bounded {Rate} (reply : nat -> Reply (Rate := Rate)) fetched requests slept :
  fetch_with_backoff reply = (fetched, requests, slept) ->
  (requests <= MAX_ATTEMPTS)%nat
  /\ (fetched = None <-> forall i rates, (i < MAX_ATTEMPTS)%nat -> reply i <> Rates rates).
Proof.
  intros (Hb & Hf & Hi)%attempts_spec. split; [lia|]. destruct fetched as [rates|]; split; try done.
  - destruct Hf as [Hlt Hr]. intros Hn. by destruct (Hn (pred requests) rates ltac:(lia)).
  - intros _ i rates Hlt. apply Hi. lia.
Qed.

(** ** Concrete values *)
Module RatesSample.
Lemma breaker_protects_witness :
  (is_open 120 (run_breaker [Fail 100; Check 101; Fail 102; Fail 103] new_breaker)).1 = true.
Proof.
  apply (breaker_protects new_breaker 100 [Check 101] 102 [] 103 [] 120); try done.
  repeat constructor; cbn; done.
Defined.

(** When the sixty seconds are over all requests pass, not one probe, until three of
    them have failed again. *)
Example probes_after_reset :
  let b := run_breaker [Fail 100; Fail 101; Fail 102] new_breaker in
  (is_open 161 b).1 = true
  /\ (is_open 162 b).1 = false
  /\ (is_open 162 (run_breaker [Check 162; Fail 162; Check 162; Fail 162] b)).1 = false.
Proof. done. Qed.

(** A stale rate is cached, the breaker is open: the request fails. *)
Definition stale_state : RatesState (Rate := Z) :=
  mkState {[stale_cache_key "XLM" "USD" := (mkRate "XLM" "USD" 11, 4000)]} (mkBreaker 3 100).
Definition env : Env (Rate := Z) := mkEnv 120 121 true true true true (fun _ => NetworkError).

Example stale_rate_dropped :
  (get_rates id env "XLM" "USD" stale_state).1 = (Failure ExternalServiceError, 0%nat)
  /\ cache_get true 120 (stale_cache_key "XLM" "USD") (rs_redis stale_state)
     = Some (mkRate "XLM" "USD" 11).
Proof. by vm_compute. Qed.

(** Failures below the threshold are reported as half open. *)
Example half_open_below_threshold :
  h_status (circuit_breaker_status 101 (run_breaker [Fail 100] new_breaker)).1 = "half_open"%string
  /\ h_status (circuit_breaker_status 162 (run_breaker [Fail 100; Fail 101; Fail 102] new_breaker)).1
     = "closed"%string.
Proof. done. Qed.
End RatesSample.
