(* ===== verification/WaitingRoom.v ===== *)
(** * Server: the virtual waiting room

    [services/queue.rs], [services/pow.rs] and [handlers/waiting_room.rs] over the
    keys that they keep in Redis.  A sorted set is the list of its members in the
    order of their scores.  The numbers of the admission script are exact: tokens
    are counted in units of 1/60000, so that a millisecond adds [rate] units.  The
    hash, the identifiers, blank texts and the signature of grants are an interface
    ([Room]). *)

From stdpp Require Import base tactics numbers list strings gmap sorting.
From S2P Require Import Prelude.
From S2P Require Import ServerPrelude.

Definition DEFAULT_ADMISSION_RATE_PER_MINUTE : Z := 60.
Definition GRANT_PURPOSE : string := "checkout_access".

(** ** Pure helpers *)
Definition admission_rate_for_inventory (total_tickets minted_tickets max_rate_per_minute : Z) : Z :=
  if total_tickets <=? 0 then max_rate_per_minute
  else
    let remaining := total_tickets - minted_tickets in
    if remaining <=? 0 then 0 else Z.min remaining max_rate_per_minute.

Definition estimated_wait_seconds (position rate_per_minute : Z) : Z :=
  if rate_per_minute =? 0 then 0 else div_ceil (position * 60) rate_per_minute.

Definition safe_char (c : Ascii.ascii) : bool :=
  let n := Z.of_N (Ascii.N_of_ascii c) in
  ((48 <=? n) && (n <=? 57)) || ((65 <=? n) && (n <=? 90)) || ((97 <=? n) && (n <=? 122))
  || (n =? 45) || (n =? 95) || (n =? 46) || (n =? 58).
Definition is_valid_client_id (client_id : string) : bool :=
  ((1 <=? String.length client_id)%nat && (String.length client_id <=? 128)%nat)
  && forallb safe_char (String.list_ascii_of_string client_id).

(** ** Redis *)

(** The keys of one event: the queue in the order of its scores, the sequence
    counter, the configured rate, the bucket (tokens and last refill) and the
    grants with the instants at which they expire, in milliseconds. *)
Record EventKeys := mkKeys {
  k_zset : list (Z * string);
  k_seq : Z;
  k_rate : option Z;
  k_bucket : option (Z * Z);
  k_grants : gmap string (string * Z);
}.
#[export] Instance EventKeys_eta : Eta EventKeys := fun k =>
  mkKeys (k_zset k) (k_seq k) (k_rate k) (k_bucket k) (k_grants k).
Definition no_keys : EventKeys := mkKeys [] 0 None None ∅.

Record Redis := mkRedis {
  r_events : gmap string EventKeys;
  r_active : gset string;
  r_challenges : gmap string (string * Z);
}.
#[export] Instance Redis_eta : Eta Redis := fun r =>
  mkRedis (r_events r) (r_active r) (r_challenges r).

Definition keys_of (event_id : string) (r : Redis) : EventKeys := default no_keys (r_events r !! event_id).
Definition set_keys (event_id : string) (k : EventKeys) (r : Redis) : Redis :=
  r <| r_events := <[event_id := k]> (r_events r) |>.

(** Commands on the keys of an event. *)
Definition cmd_incr (k : EventKeys) : Z * EventKeys :=
  (k_seq k + 1, k <| k_seq := k_seq k + 1 |>).

Fixpoint insert_score (seq : Z) (client : string) (l : list (Z * string)) : list (Z * string) :=
  match l with
  | [] => [(seq, client)]
  | (s, c) :: l => if seq <? s then (seq, client) :: (s, c) :: l else (s, c) :: insert_score seq client l
  end.
Definition cmd_zadd_nx (seq : Z) (client : string) (k : EventKeys) : EventKeys :=
  if bool_decide (client ∈ (k_zset k).*2) then k
  else k <| k_zset := insert_score seq client (k_zset k) |>.
Definition cmd_hsetnx_rate (rate : Z) (k : EventKeys) : EventKeys :=
  k <| k_rate := Some (default rate (k_rate k)) |>.

Fixpoint rank_in (client : string) (l : list (Z * string)) : option Z :=
  match l with
  | [] => None
  | (_, c) :: l => if bool_decide (c = client) then Some 0 else (Z.add 1) <$> rank_in client l
  end.
Definition cmd_zrank (client : string) (k : EventKeys) : option Z := rank_in client (k_zset k).
Definition queue_size (k : EventKeys) : Z := Z.of_nat (length (k_zset k)).
Definition rate_per_minute (k : EventKeys) : Z := default DEFAULT_ADMISSION_RATE_PER_MINUTE (k_rate k).
Definition grant_for (now : Z) (client : string) (k : EventKeys) : option string :=
  match k_grants k !! client with
  | Some (token, expires) => if now <? expires then Some token else None
  | None => None
  end.

(** [ADMIT_LUA]: refills the bucket and pops the head of the queue. *)
Definition UNIT : Z := 60000.
Definition admit_script (now rate capacity max_admit : Z) (k : EventKeys) : list string * EventKeys :=
  let tokens := from_option fst 0 (k_bucket k) in
  let last := from_option snd now (k_bucket k) in
  let tokens := Z.min (tokens + (now - last) * rate) (capacity * UNIT) in
  if tokens <? UNIT then ([], k <| k_bucket := Some (tokens, now) |>)
  else
    let n := Z.to_nat (Z.min (tokens / UNIT) max_admit) in
    let members := take n (k_zset k) in
    (members.*2,
     k <| k_zset := drop n (k_zset k) |>
       <| k_bucket := Some (tokens - Z.of_nat (length members) * UNIT, now) |>).

(** ** The engine *)
Inductive QueueStatusKind := IsWaiting | IsAdmitted.
Record QueueStatus := mkStatus {
  qs_status : QueueStatusKind; qs_position : option Z; qs_queue_size : Z;
  qs_estimated_wait_seconds : option Z; qs_grant_token : option string;
}.

Record GrantClaims := mkClaims {
  gc_sub : string; gc_event_id : string; gc_purpose : string; gc_iat : Z; gc_exp : Z; gc_jti : string;
}.

Class Room := {
  blank : string -> bool;
  parse_uuid : string -> option string;
  sha256_hex : string -> string;
  sign : GrantClaims -> option string;
  check : string -> option GrantClaims; (* the signature only *)
}.

Section Engine.
Context `{Room}.

Definition issue_grant_token (now : Z) (jti client_id event_id : string) (ttl_minutes : Z)
    : Result AppError string :=
  ok_or (sign (mkClaims client_id event_id GRANT_PURPOSE (now / 1000) (now / 1000 + ttl_minutes * 60) jti))
    InternalServerError.

(** The library refuses a token whose expiry, with a leeway of 60 seconds, has passed. *)
Definition verify_grant_token (now : Z) (token : string) : Result AppError GrantClaims :=
  match check token with
  | Some claims => if now / 1000 - 60 <=? gc_exp claims then Ok claims else Err AuthError
  | None => Err AuthError
  end.

Definition admitted_status (token : string) (k : EventKeys) : QueueStatus :=
  mkStatus IsAdmitted None (queue_size k) (Some 0) (Some token).

(** [join] without interruption. *)
Definition join (now : Z) (event_id client_id : string) (rate : Z) (r : Redis)
    : Result AppError QueueStatus * Redis :=
  if rate =? 0 then (Err Conflict, r)
  else
    let k := keys_of event_id r in
    match grant_for now client_id k with
    | Some token => (Ok (admitted_status token k), r)
    | None =>
        let '(seq, k) := cmd_incr k in
        let k := cmd_zadd_nx seq client_id k in
        let k := cmd_hsetnx_rate rate k in
        let r := set_keys event_id k r <| r_active := {[event_id]} ∪ r_active r |> in
        let position := from_option (Z.add 1) 1 (cmd_zrank client_id k) in
        (Ok (mkStatus IsWaiting (Some position) (queue_size k)
               (Some (estimated_wait_seconds position rate)) None), r)
    end.

Definition status (now : Z) (event_id client_id : string) (r : Redis) : option QueueStatus :=
  let k := keys_of event_id r in
  match grant_for now client_id k with
  | Some token => Some (admitted_status token k)
  | None =>
      rank ← cmd_zrank client_id k;
      Some (mkStatus IsWaiting (Some (rank + 1)) (queue_size k)
              (Some (estimated_wait_seconds (rank + 1) (rate_per_minute k))) None)
  end.

(** The grants of the popped clients, one after the other; [jtis] are the random
    identifiers and [up] says which of the statements succeed.  An error leaves the
    clients that remain without a grant. *)
Fixpoint grant_all (now : Z) (ttl_minutes : Z) (event_id : string) (jti : string -> string)
    (up : string -> bool) (clients : list string) (k : EventKeys) : Result AppError unit * EventKeys :=
  match clients with
  | [] => (Ok tt, k)
  | c :: clients =>
      match issue_grant_token now (jti c) c event_id ttl_minutes with
      | Err e => (Err e, k)
      | Ok token =>
          if up c then
            grant_all now ttl_minutes event_id jti up clients
              (k <| k_grants := <[c := (token, now + 1000 * Z.max (ttl_minutes * 60) 60)]> (k_grants k) |>)
          else (Err ExternalServiceError, k)
      end
  end.

Definition admit_for_event (now ttl_minutes : Z) (jti : string -> string) (up : string -> bool)
    (event_id : string) (r : Redis) : Result AppError Z * Redis :=
  let k := keys_of event_id r in
  let rate := rate_per_minute k in
  if rate =? 0 then (Ok 0, r)
  else
    let '(admitted, k) := admit_script now rate rate rate k in
    match grant_all now ttl_minutes event_id jti up admitted k with
    | (Err e, k) => (Err e, set_keys event_id k r)
    | (Ok _, k) =>
        (Ok (Z.of_nat (length admitted)),
         set_keys event_id k r
           <| r_active := if bool_decide (k_zset k = []) then r_active r ∖ {[event_id]} else r_active r |>)
    end.

Fixpoint admit_events (now ttl_minutes : Z) (jti : string -> string) (up : string -> bool)
    (events : list string) (total : Z) (r : Redis) : Result AppError Z * Redis :=
  match events with
  | [] => (Ok total, r)
  | e :: events =>
      match admit_for_event now ttl_minutes jti up e r with
      | (Ok n, r) => admit_events now ttl_minutes jti up events (total + n) r
      | (Err e, r) => (Err e, r)
      end
  end.
Definition admit_all (now ttl_minutes : Z) (jti : string -> string) (up : string -> bool) (r : Redis)
    : Result AppError Z * Redis :=
  admit_events now ttl_minutes jti up (elements (r_active r)) 0 r.

(** ** Proof of work *)
Definition verify_pow (challenge nonce : string) (difficulty : Z) : bool :=
  if difficulty =? 0 then true
  else forallb (fun c => bool_decide (c = Ascii.ascii_of_nat 48))
         (take (Z.to_nat difficulty) (String.list_ascii_of_string (sha256_hex (challenge +:+ nonce)))).

(** ** The handlers *)
Record WaitingRoomConfig := mkRoom {
  wr_pow_difficulty : Z; wr_admission_rate_per_minute : Z; wr_challenge_ttl_seconds : Z;
}.
Inductive Refusal :=
  | BadRequest
  | Unprocessable
  | NotInQueue
  | App (e : AppError).

(** [generate_challenge] draws [challenge]. *)
Definition request_challenge (config : WaitingRoomConfig) (now : Z) (challenge event_id : string)
    (r : Redis) : Result Refusal string * Redis :=
  if blank event_id then (Err BadRequest, r)
  else (Ok challenge,
        r <| r_challenges := <[challenge := (event_id, now + 1000 * wr_challenge_ttl_seconds config)]>
               (r_challenges r) |>).

(** The two commands that consume a challenge. *)
Definition challenge_get (now : Z) (challenge event_id : string) (r : Redis) : bool :=
  match r_challenges r !! challenge with
  | Some (e, expires) => (now <? expires) && bool_decide (e = event_id)
  | None => false
  end.
Definition challenge_del (deleted : bool) (challenge : string) (r : Redis) : Redis :=
  if deleted then r <| r_challenges := delete challenge (r_challenges r) |> else r.

(** [inventory] is the row of the event: the total and the minted tickets. *)
Definition admission_rate_from_db (inventory : string -> option (Z * Z)) (event_id : string) (max : Z)
    : Result AppError Z :=
  uuid ← ok_or (parse_uuid event_id) ValidationError;
  '(total, minted) ← ok_or (inventory uuid) NotFound;
  mret (admission_rate_for_inventory total minted max).

(** What follows the consumption of the challenge. *)
Definition join_admitted (config : WaitingRoomConfig) (now : Z) (inventory : string -> option (Z * Z))
    (event_id client_id challenge nonce : string) (r : Redis) : Result Refusal QueueStatus * Redis :=
  if negb (verify_pow challenge nonce (wr_pow_difficulty config)) then (Err Unprocessable, r)
  else
    match admission_rate_from_db inventory event_id (wr_admission_rate_per_minute config) with
    | Err e => (Err (App e), r)
    | Ok rate =>
        if rate =? 0 then (Err (App Conflict), r)
        else
          let '(res, r) := join now event_id client_id rate r in (map_err App res, r)
    end.

Definition join_queue (config : WaitingRoomConfig) (now : Z) (deleted : bool)
    (inventory : string -> option (Z * Z)) (event_id client_id challenge nonce : string) (r : Redis)
    : Result Refusal QueueStatus * Redis :=
  if blank event_id || blank client_id || blank challenge || blank nonce then (Err BadRequest, r)
  else if negb (is_valid_client_id client_id) then (Err BadRequest, r)
  else if negb (challenge_get now challenge event_id r) then (Err Unprocessable, r)
  else join_admitted config now inventory event_id client_id challenge nonce
         (challenge_del deleted challenge r).

Definition queue_status (now : Z) (event_id client_id : string) (r : Redis) : Result Refusal QueueStatus :=
  if blank event_id || blank client_id then Err BadRequest
  else ok_or (status now event_id client_id r) NotInQueue.

(** One tick of [position_stream]: what is sent, and whether the stream goes on. *)
Inductive StreamEvent :=
  | SAdmitted (token : string)
  | SPosition (position : option Z) (size : Z) (wait : option Z)
  | SNotInQueue.
Definition stream_tick (now : Z) (event_id client_id : string) (r : Redis)
    : option StreamEvent * bool :=
  match status now event_id client_id r with
  | Some st =>
      match qs_status st with
      | IsAdmitted =>
          match qs_grant_token st with
          | Some token => (Some (SAdmitted token), false)
          | None => (None, true)
          end
      | IsWaiting => (Some (SPosition (qs_position st) (qs_queue_size st) (qs_estimated_wait_seconds st)), true)
      end
  | None => (Some SNotInQueue, false)
  end.
End Engine.

(** ** The queue of one event under interleaving *)

(** The commands of concurrent joins and of the worker on the keys of one event, as
    they reach Redis: a join takes a sequence number, keeps it, and adds its client
    later; the worker pops.  [q_popped] lists the clients in the order in which they
    were popped, with the instants. *)
Record Queue := mkQueue {
  q_keys : EventKeys;
  q_pending : list (Z * string);
  q_popped : list (Z * string);
}.

(** A step; the label of an admission is its instant and the rate that the worker
    has read: the configured one, or the default if none was configured yet. *)
Inductive qstep : Queue -> option (Z * Z) -> Queue -> Prop :=
  | q_incr k pending popped client seq k' :
      cmd_incr k = (seq, k') ->
      qstep (mkQueue k pending popped) None (mkQueue k' ((seq, client) :: pending) popped)
  | q_zadd k p1 p2 popped seq client :
      qstep (mkQueue k (p1 ++ (seq, client) :: p2) popped) None
            (mkQueue (cmd_zadd_nx seq client k) (p1 ++ p2) popped)
  | q_abandon k p1 p2 popped seq client :
      qstep (mkQueue k (p1 ++ (seq, client) :: p2) popped) None (mkQueue k (p1 ++ p2) popped)
  | q_rate k pending popped rate :
      qstep (mkQueue k pending popped) None (mkQueue (cmd_hsetnx_rate rate k) pending popped)
  | q_admit k pending popped now rate admitted k' :
      rate = rate_per_minute k \/ rate = DEFAULT_ADMISSION_RATE_PER_MINUTE ->
      admit_script now rate rate rate k = (admitted, k') ->
      qstep (mkQueue k pending popped) (Some (now, rate))
            (mkQueue k' pending (popped ++ ((fun c => (now, c)) <$> admitted)))
  | q_grants k pending popped grants :
      qstep (mkQueue k pending popped) None (mkQueue (k <| k_grants := grants |>) pending popped).

Inductive qruns : Queue -> list (option (Z * Z)) -> Queue -> Prop :=
  | qruns_nil q : qruns q [] q
  | qruns_cons q l q1 ls q' : qstep q l q1 -> qruns q1 ls q' -> qruns q (l :: ls) q'.

(** ** First come, first served *)

Definition ordered (l : list (Z * string)) : Prop := StronglySorted (fun x y => x.1 <= y.1) l.

Lemma insert_score_Permutation seq client l : insert_score seq client l ≡ₚ (seq, client) :: l.
Proof.
  induction l as [|[s c] l IH]; cbn; [done|]. case_match; [done|]. rewrite IH. apply Permutation_swap.
Qed.

Lemma insert_score_ordered seq client l : ordered l -> ordered (insert_score seq client l).
Proof.
  induction 1 as [|[s c] l Hl IH Hall]; cbn; [by repeat constructor|].
  case_match eqn:Hc; constructor; try done.
  - by constructor.
  - constructor; [cbn; lia|]. eapply Forall_impl; [exact Hall|]. cbn. intros ? ?. lia.
  - rewrite insert_score_Permutation. constructor; [cbn; lia|done].
Qed.

(** [a] waits in the queue with score [sa] and no later join of [b] has a lower one. *)
Record ahead (a b : string) (sa : Z) (q : Queue) : Prop := {
  ahead_in : (sa, a) ∈ k_zset (q_keys q);
  ahead_of : forall s, (s, b) ∈ k_zset (q_keys q) \/ (s, b) ∈ q_pending q -> sa < s;
  ahead_seq : sa <= k_seq (q_keys q);
  ahead_order : ordered (k_zset (q_keys q));
}.

Lemma zadd_in seq client k x :
  x ∈ k_zset (cmd_zadd_nx seq client k) -> x = (seq, client) \/ x ∈ k_zset k.
Proof.
  unfold cmd_zadd_nx. case_bool_decide; [by right|]. cbn. rewrite insert_score_Permutation, elem_of_cons. done.
Qed.
Lemma zadd_keeps seq client k x : x ∈ k_zset k -> x ∈ k_zset (cmd_zadd_nx seq client k).
Proof.
  unfold cmd_zadd_nx. case_bool_decide; [done|]. cbn. rewrite insert_score_Permutation, elem_of_cons. by right.
Qed.

(** An admission splits the queue. *)
Lemma admit_split now rate cap max k admitted k' :
  admit_script now rate cap max k = (admitted, k') ->
  exists taken, k_zset k = taken ++ k_zset k' /\ admitted = taken.*2 /\ k_seq k' = k_seq k.
Proof.
  unfold admit_script. case_match; intros [= <- <-].
  - by exists [].
  - eexists. cbn. split; [symmetry; apply take_drop|done].
Qed.

(** The first of two members of a prefix comes first, and is in it if the second is. *)
Lemma ordered_prefix a b sa taken rest :
  ordered (taken ++ rest) -> (sa, a) ∈ taken ++ rest ->
  (forall s, (s, b) ∈ taken ++ rest -> sa < s) ->
  (exists t1 t2, taken = t1 ++ (sa, a) :: t2 /\ b ∉ t1.*2)
  \/ ((sa, a) ∈ rest /\ b ∉ taken.*2).
Proof.
  intros Hs Ha Hb. assert (forall t1 t2, taken ++ rest = t1 ++ (sa, a) :: t2 -> b ∉ t1.*2) as Hbefore.
  { intros t1 t2 Heq (x & -> & Hx)%list_elem_of_fmap. rewrite Heq in Hs, Hb.
    pose proof (Hb x.1 ltac:(destruct x; set_solver)) as Hlt. destruct x as [s b]. cbn in *.
    apply StronglySorted_app in Hs as (Hs & _). specialize (Hs (s, b) (sa, a) Hx ltac:(set_solver)).
    cbn in Hs. lia. }
  apply elem_of_app in Ha as [Ha|Ha].
  - left. apply list_elem_of_split in Ha as (t1 & t2 & ->). exists t1, t2. split; [done|].
    apply (Hbefore t1 (t2 ++ rest)). by rewrite <- app_assoc.
  - right. split; [done|]. apply list_elem_of_split in Ha as (t1 & t2 & ->).
    pose proof (Hbefore (taken ++ t1) t2) as Hn. rewrite <- app_assoc in Hn. specialize (Hn eq_refl).
    rewrite fmap_app in Hn. set_solver.
Qed.

Lemma stamped (now : Z) (l : list string) : ((fun c => (now, c)) <$> l).*2 = l.
Proof. induction l; cbn; congruence. Qed.

Lemma ahead_step a b sa q l q' :
  ahead a b sa q -> qstep q l q' ->
  exists new, q_popped q' = q_popped q ++ new
    /\ ((exists n1 t n2, new = n1 ++ (t, a) :: n2 /\ b ∉ n1.*2) \/ (ahead a b sa q' /\ b ∉ new.*2)).
Proof.
  intros [Hin Hof Hseq Hord] Hs.
  destruct Hs as [k pending popped client seq k' Hk|k p1 p2 popped seq client|k p1 p2 popped seq client
    |k pending popped rate|k pending popped now rate admitted k' _ Ha|k pending popped grants]; cbn in *.
  - injection Hk as <- <-. exists []. rewrite app_nil_r. split; [done|]. right.
    split; [split; cbn; try done; [|lia]|set_solver].
    intros s [Hs|[[= -> ->]|Hs]%elem_of_cons]; [auto|lia|auto].
  - exists []. rewrite app_nil_r. split; [done|]. right. split; [split; cbn|set_solver].
    + by apply zadd_keeps.
    + intros s [[[= -> ->]|Hs]%zadd_in|Hs]; apply Hof; set_solver.
    + unfold cmd_zadd_nx. by case_bool_decide.
    + unfold cmd_zadd_nx. case_bool_decide; [done|]. by apply insert_score_ordered.
  - exists []. rewrite app_nil_r. split; [done|]. right. split; [split; cbn; try done|set_solver].
    intros s Hs. apply Hof. set_solver.
  - exists []. rewrite app_nil_r. split; [done|]. right. by split; [split|set_solver].
  - apply admit_split in Ha as (taken & Hz & -> & Hseq'). eexists. split; [done|].
    rewrite Hz in Hin, Hord, Hof. destruct (ordered_prefix a b sa taken (k_zset k')) as [(t1 & t2 & -> & Hb)|[Hr Hb]];
      [done|done|intros s Hs; apply Hof; by left| |].
    + left. exists ((fun c => (now, c)) <$> t1.*2), now, ((fun c => (now, c)) <$> t2.*2).
      split; [by rewrite !fmap_app|]. by rewrite stamped.
    + right. rewrite stamped. split; [|done]. split; cbn.
      * done.
      * intros s [Hs|Hs]; apply Hof; set_solver.
      * by rewrite Hseq'.
      * by apply StronglySorted_app_1_r in Hord.
  - exists []. rewrite app_nil_r. split; [done|]. right. by split; [split|set_solver].
Qed.

(** C14: first come, first served.  When the join of [a] has been completed before
    [b] starts to join, the worker never lets [b] in before [a], however the commands
    of all clients and of the worker interleave, and whatever joins are abandoned. *)
Theorem queue_fair a b sa q ls q' :
  (sa, a) ∈ k_zset (q_keys q) -> sa <= k_seq (q_keys q) -> ordered (k_zset (q_keys q)) ->
  b ∉ (k_zset (q_keys q)).*2 -> b ∉ (q_pending q).*2 ->
  qruns q ls q' ->
  exists new, q_popped q' = q_popped q ++ new
    /\ (b ∈ new.*2 -> exists n1 t n2, new = n1 ++ (t, a) :: n2 /\ b ∉ n1.*2).
Proof.
  intros Hin Hseq Hord Hz Hp Hr. assert (ahead a b sa q) as Ha.
  { split; try done. intros s [Hs|Hs]; apply (list_elem_of_fmap_2 snd) in Hs; done. }
  clear Hin Hseq Hord Hz Hp. revert Ha. induction Hr as [q|q l q1 ls q' Hs Hr IH]; intros Ha.
  - exists []. rewrite app_nil_r. split; [done|set_solver].
  - destruct (ahead_step _ _ _ _ _ _ Ha Hs) as (new1 & Hn1 & [(n1 & t & n2 & -> & Hb)|[Ha1 Hb]]).
    + assert (exists new, q_popped q' = q_popped q1 ++ new) as [new Hn].
      { clear -Hr. induction Hr as [q|q l q1 ls q' Hs Hr [new IH]]; [exists []; by rewrite app_nil_r|].
        rewrite IH. destruct Hs; cbn; eauto. rewrite <- app_assoc. eauto. }
      exists ((n1 ++ (t, a) :: n2) ++ new). split; [by rewrite Hn, Hn1, <- app_assoc|].
      intros _. exists n1, t, (n2 ++ new). split; [by rewrite <- app_assoc|done].
    + destruct (IH Ha1) as (new2 & Hn2 & Hfair). exists (new1 ++ new2).
      split; [by rewrite Hn2, Hn1, <- app_assoc|]. rewrite fmap_app. intros [Hin|Hin]%elem_of_app; [done|].
      destruct (Hfair Hin) as (n1 & t & n2 & -> & Hb2). exists (new1 ++ n1), t, n2.
      split; [by rewrite <- app_assoc|]. rewrite fmap_app. set_solver.
Qed.

(** ** The rate of admissions *)

(** The admissions happen in order from [t] to [t1], at rates of at most [R]. *)
Fixpoint paced (R t t1 : Z) (ls : list (option (Z * Z))) : Prop :=
  match ls with
  | [] => t <= t1
  | None :: ls => paced R t t1 ls
  | Some (now, rate) :: ls => t <= now /\ 0 < rate <= R /\ paced R now t1 ls
  end.

(** What the bucket may hold at [t]. *)
Definition allowance (R t : Z) (q : Queue) : Z :=
  match k_bucket (q_keys q) with
  | Some (tokens, last) => Z.max 0 (Z.min (tokens + (t - last) * R) (R * UNIT))
  | None => 0
  end.
Definition refilled (q : Queue) (t : Z) : Prop :=
  match k_bucket (q_keys q) with Some (_, last) => last <= t | None => True end.
Definition popped_count (q : Queue) : Z := Z.of_nat (length (q_popped q)).

Lemma admit_allowance R t q now rate q' :
  0 < rate <= R -> t <= now -> refilled q t -> qstep q (Some (now, rate)) q' ->
  refilled q' now
  /\ (popped_count q' - popped_count q) * UNIT + allowance R now q'
     <= allowance R t q + (now - t) * R.
Proof.
  intros Hrate Hnow Href Hs. inversion Hs as [| | | |k pending popped ? ? admitted k' _ Ha|]; subst.
  unfold popped_count, refilled, allowance in *. cbn [q_keys q_popped] in *.
  revert Ha. unfold admit_script, UNIT.
  set (tokens := from_option fst 0 (k_bucket k)). set (last := from_option snd now (k_bucket k)).
  assert (Z.min (tokens + (now - last) * rate) (rate * 60000)
    <= match k_bucket k with
       | Some (tokens, last) => Z.max 0 (Z.min (tokens + (t - last) * R) (R * 60000))
       | None => 0 end + (now - t) * R) as Hbound.
  { unfold tokens, last. destruct (k_bucket k) as [[tk la]|]; cbn; nia. }
  set (tk := Z.min _ _) in *. destruct (Z.ltb_spec tk 60000); intros [= <- <-].
  - cbn. split; [done|]. rewrite app_nil_r. destruct (k_bucket k) as [[]|]; nia.
  - cbn [k_bucket upd]. cbn. split; [lia|]. rewrite length_app, !length_fmap, length_take.
    assert (0 <= tk / 60000) by (apply Z.div_pos; lia).
    assert (60000 * (tk / 60000) <= tk) by (apply Z.mul_div_le; lia). nia.
Qed.

Lemma other_allowance q q' :
  qstep q None q' -> k_bucket (q_keys q') = k_bucket (q_keys q) /\ q_popped q' = q_popped q.
Proof.
  inversion 1 as [? ? ? ? ? ? Hk| | | | |]; subst; cbn; try done; [by injection Hk as <- <-|].
  unfold cmd_zadd_nx. by case_bool_decide.
Qed.

Lemma run_allowance R t t1 q ls q' :
  0 <= R -> refilled q t -> paced R t t1 ls -> qruns q ls q' ->
  (popped_count q' - popped_count q) * UNIT <= allowance R t q + (t1 - t) * R.
Proof.
  intros HR Href Hp Hr. revert t Href Hp. induction Hr as [q|q l q1 ls q' Hs Hr IH]; intros t Href Hp; cbn in Hp.
  - rewrite Z.sub_diag. unfold allowance. destruct (k_bucket _) as [[]|]; nia.
  - destruct l as [[now rate]|].
    + destruct Hp as (Hnow & Hrate & Hp).
      destruct (admit_allowance R t _ _ _ _ Hrate Hnow Href Hs) as [Href1 H1].
      specialize (IH now Href1 Hp). nia.
    + destruct (other_allowance _ _ Hs) as [Hb Hpop].
      assert (refilled q1 t) as Href1 by (unfold refilled in *; by rewrite Hb).
      specialize (IH t Href1 Hp). unfold popped_count, allowance in *. by rewrite Hb, Hpop in IH.
Qed.

(** C25: the token bucket bounds the admissions.  Between two instants at most one
    bucket's content, [R] clients, plus [R] per minute elapsed are let in, however
    many workers run and whatever joins happen meanwhile. *)
Theorem admissions_bounded R t t1 q ls q' :
  0 <= R -> refilled q t -> paced R t t1 ls -> qruns q ls q' ->
  popped_count q' - popped_count q <= R + R * (t1 - t) / UNIT.
Proof.
  intros HR Href Hp Hr. pose proof (run_allowance _ _ _ _ _ _ HR Href Hp Hr) as Hb.
  assert (allowance R t q <= R * UNIT) as Hal.
  { unfold allowance, UNIT in *. destruct (k_bucket _) as [[]|]; lia. }
  enough (popped_count q' - popped_count q - R <= R * (t1 - t) / UNIT) by lia.
  apply Z.div_le_lower_bound; unfold UNIT in *; nia.
Qed.

(** ** Challenges *)
Section Challenges.
Context `{Room}.

Lemma join_challenges now event_id client_id rate r :
  r_challenges (join now event_id client_id rate r).2 = r_challenges r.
Proof. unfold join, set_keys. by repeat (case_match; simplify_eq/=). Qed.

Lemma join_admitted_challenges config now inventory event_id client_id challenge nonce r :
  r_challenges (join_admitted config now inventory event_id client_id challenge nonce r).2
  = r_challenges r.
Proof.
  unfold join_admitted. destruct (negb _); [done|].
  destruct (admission_rate_from_db _ _ _) as [rate|e]; [|done]. destruct (rate =? 0); [done|].
  pose proof (join_challenges now event_id client_id rate r) as Hj.
  by destruct (join now event_id client_id rate r).
Qed.

(** A challenge admits one join at most.  After a request that got past the
    challenge, even one that failed later, and whose deletion reached Redis, every
    request with the same challenge is refused, for any event and any client. *)
Theorem challenge_single_use config now inventory event_id client_id challenge nonce r :
  let r' := (join_queue config now true inventory event_id client_id challenge nonce r).2 in
  challenge_get now challenge event_id r = true ->
  blank event_id || blank client_id || blank challenge || blank nonce = false ->
  is_valid_client_id client_id = true ->
  forall now' deleted' inventory' event_id' client_id' nonce',
  exists e, join_queue config now' deleted' inventory' event_id' client_id' challenge nonce' r' = (Err e, r').
Proof.
  intros r' Hget Hblank Hid now' deleted' inventory' event_id' client_id' nonce'.
  assert (r_challenges r' !! challenge = None) as Hnone.
  { unfold r', join_queue. rewrite Hblank, Hid, Hget. cbn.
    rewrite join_admitted_challenges. apply lookup_delete_eq. }
  unfold join_queue. case_match; [eauto|]. case_match; [eauto|].
  unfold challenge_get. rewrite Hnone. cbn. eauto.
Qed.
End Challenges.

(** ** Concrete runs *)
Module WaitingRoomSample.
Definition room : Room := {|
  blank s := bool_decide (s = ""%string); parse_uuid s := Some s;
  sha256_hex s := "0000abcd"; sign c := Some (gc_sub c); check _ := None |}%string.
#[local] Existing Instance room.

(** [a] is in the queue with score 1, [b] and [c] join later; rate 1 per minute. *)
Definition keys0 : EventKeys := mkKeys [(1, "a"%string)] 1 (Some 1) (Some (UNIT, 0)) ∅.
Definition q0 : Queue := mkQueue keys0 [] [].

Lemma sample_qrun : exists q',
  qruns q0 [None; None; Some (0, 1); Some (60000, 1)] q' /\ q_popped q' = [(0, "a"); (60000, "b")]%string.
Proof.
  eexists. split.
  - eapply qruns_cons; [by apply (q_incr _ _ _ "b"%string)|].
    eapply qruns_cons; [apply (q_zadd _ [] [])|].
    eapply qruns_cons; [eapply q_admit; [by left|vm_compute; reflexivity]|].
    eapply qruns_cons; [eapply q_admit; [by left|vm_compute; reflexivity]|]. apply qruns_nil.
  - done.
Qed.

Lemma queue_fair_witness :
  exists q' new, q_popped q' = new
    /\ ("b"%string ∈ new.*2 -> exists n1 t n2, new = n1 ++ (t, "a"%string) :: n2).
Proof.
  destruct sample_qrun as (q' & Hr & _).
  destruct (queue_fair "a" "b" 1 q0 [None; None; Some (0, 1); Some (60000, 1)] q')
    as (new & Hn & Hf).
  - cbn. set_solver.
  - done.
  - by repeat constructor.
  - cbn. set_solver.
  - cbn. set_solver.
  - exact Hr.
  - exists q', new. split; [done|]. intros Hb. destruct (Hf Hb) as (n1 & t & n2 & -> & _). eauto.
Defined.

Lemma admissions_bounded_witness : exists q', popped_count q' <= 1 + 1 * 60000 / UNIT.
Proof.
  destruct sample_qrun as (q' & Hr & _). exists q'.
  pose proof (admissions_bounded 1 0 60000 q0 [None; None; Some (0, 1); Some (60000, 1)] q'
                ltac:(lia) ltac:(done) ltac:(cbn; lia) Hr) as Hb.
  change (popped_count q0) with 0 in Hb. by rewrite !Z.sub_0_r in Hb.
Defined.

(** The bound is reached: two clients are let in within a minute at a rate of one
    per minute. *)
Example burst_above_rate :
  exists q', qruns q0 [None; None; Some (0, 1); Some (60000, 1)] q'
    /\ popped_count q' = 2 /\ rate_per_minute (q_keys q0) = 1.
Proof.
  destruct sample_qrun as (q' & Hr & Hp). exists q'. split; [done|]. unfold popped_count.
  by rewrite Hp.
Qed.

Definition config : WaitingRoomConfig := mkRoom 4 60 300.
Definition redis0 : Redis := mkRedis ∅ ∅ {["ch" := ("u1", 300000)]}%string.
Definition stock : string -> option (Z * Z) := fun _ => Some (100, 10).

Lemma challenge_single_use_witness :
  let r' := (join_queue config 0 true stock "u1" "a" "ch" "7" redis0).2 in
  exists e, join_queue config 1 true stock "u1" "b" "ch" "7" r' = (Err e, r').
Proof.
  apply (challenge_single_use config 0 stock "u1" "a" "ch" "7" redis0); by vm_compute.
Defined.

(** The two commands do not exclude each other: both requests read the challenge
    before either deletes it, and both clients are in the queue. *)
Example challenge_used_twice :
  challenge_get 0 "ch" "u1" redis0 = true /\ challenge_get 0 "ch" "u1" redis0 = true
  /\ let r := challenge_del true "ch" (challenge_del true "ch" redis0) in
     let '(res1, r) := join_admitted config 0 stock "u1" "a" "ch" "7" r in
     let '(res2, r) := join_admitted config 0 stock "u1" "b" "ch" "7" r in
     k_zset (keys_of "u1" r) = [(1, "a"); (2, "b")]%string.
Proof. by vm_compute. Qed.

(** Redis fails at the grant of the first client: both clients have left the queue
    and neither holds a grant. *)
Example popped_without_grant :
  let k := mkKeys [(1, "a"); (2, "b")]%string 2 (Some 60) (Some (60 * UNIT, 0)) ∅ in
  let r := mkRedis {["u1"%string := k]} {["u1"%string]} ∅ in
  let '(res, r') := admit_for_event 0 10 (fun c => c) (fun _ => false) "u1" r in
  res = Err ExternalServiceError /\ status 0 "u1" "a" r' = None /\ status 0 "u1" "b" r' = None.
Proof. by vm_compute. Qed.
End WaitingRoomSample.
