(* ===== verification/TicketQr.v ===== *)
(** * Server: pages and signed QR codes

    [utils/pagination.rs] and [handlers/qr_payload.rs].  The tables [qr_payloads] and
    [tickets] are maps by their keys; a statement fails on a violated constraint.
    Serialisation, Ed25519, base64, hexadecimal, UUIDs, [trim] and the range of the
    calendar are an interface ([Signing]); what a round trip needs of them are the laws
    [SigningLaws].  Instants are milliseconds. *)

From stdpp Require Import base tactics numbers list strings gmap.
From S2P Require Import Prelude.
From S2P Require Import ServerPrelude.
From S2P Require Import IndexerEvent.

(** ** Pages *)
Definition DEFAULT_PAGE_SIZE : Z := 20.
Definition MAX_PAGE_SIZE : Z := 100.

Record PaginationParams := mkParams { pa_page : Z; pa_page_size : Z; pa_count : bool }.
Record ValidatedPagination := mkPages { vp_page : Z; vp_page_size : Z; vp_include_count : bool }.

Definition validate (p : PaginationParams) : ValidatedPagination :=
  mkPages (if pa_page p =? 0 then 1 else pa_page p)
    (Z.max 1 (Z.min (pa_page_size p) MAX_PAGE_SIZE)) (pa_count p).

(** The product is taken in 32 bits. *)
Definition offset (p : ValidatedPagination) : Z := ((vp_page p - 1) * vp_page_size p) mod 2 ^ 32.
Definition limit (p : ValidatedPagination) : Z := vp_page_size p.

Record PaginationMeta := mkMeta {
  pm_page : Z; pm_page_size : Z; pm_total_items : Z; pm_total_pages : Z;
  pm_has_next : bool; pm_has_previous : bool;
}.
Definition total_pages (p : ValidatedPagination) (total : Z) : Z :=
  if total =? 0 then 0 else div_ceil total (vp_page_size p).
Definition metadata (p : ValidatedPagination) (total : Z) : PaginationMeta :=
  let pages := total_pages p total in
  mkMeta (vp_page p) (vp_page_size p) total pages (vp_page p <? pages) (1 <? vp_page p).

Record ListMeta := mkListMeta { lm_total : option Z; lm_page_size : Z; lm_has_more : bool }.
Definition list_meta (p : ValidatedPagination) (total : option Z) (item_count : Z) : ListMeta :=
  mkListMeta (if vp_include_count p then total else None) (vp_page_size p)
    (match total with
     | Some t => vp_page p <? total_pages p t
     | None => vp_page_size p <=? item_count
     end).

(** The rows that [LIMIT] and [OFFSET] select. *)
Definition page_of {A} (p : ValidatedPagination) (rows : list A) : list A :=
  take (Z.to_nat (limit p)) (drop (Z.to_nat (offset p)) rows).

(** ** Payloads *)
Record QrPayload := mkPayload {
  qp_id : string; qp_qr_type : string; qp_data : Json;
  qp_created_at : Z; qp_expires_at : Z; qp_nonce : string;
}.

Class Signing := {
  Secret : Type; Public : Type; Sig : Type;
  to_json : QrPayload -> string;
  public_of : Secret -> Public;
  sign : Secret -> string -> Sig;
  verify : Public -> string -> Sig -> bool;
  base64_of : Sig -> string;
  signature_from : string -> option Sig;
  hex_of : Public -> string;
  key_from : string -> option Public;
  uuid_from : string -> option string;
  trim : string -> string;
  in_calendar : Z -> bool;
}.

Class SigningLaws `{Signing} := {
  verify_sign k m : verify (public_of k) m (sign k m) = true;
  signature_round s : signature_from (base64_of s) = Some s;
  key_round k : key_from (hex_of k) = Some k;
}.

Record QrRow := mkQr {
  q_type : string; q_data : Json; q_signature : string; q_public_key : string;
  q_created_at : Z; q_expires_at : Z; q_is_used : bool; q_used_at : option Z;
  q_ticket_id : option string;
}.
#[export] Instance QrRow_eta : Eta QrRow := fun q =>
  mkQr (q_type q) (q_data q) (q_signature q) (q_public_key q) (q_created_at q) (q_expires_at q)
    (q_is_used q) (q_used_at q) (q_ticket_id q).
Record TicketRow := mkTicketRow {
  tr_status : string; tr_owner : option string; tr_buyer : option string; tr_scanned_at : option Z;
}.
#[export] Instance TicketRow_eta : Eta TicketRow := fun t =>
  mkTicketRow (tr_status t) (tr_owner t) (tr_buyer t) (tr_scanned_at t).
Record QrDb := mkQrDb { d_qrs : gmap string QrRow; d_tickets : gmap string TicketRow }.
#[export] Instance QrDb_eta : Eta QrDb := fun d => mkQrDb (d_qrs d) (d_tickets d).

(** The statement that stores a code, with its constraints. *)
Definition insert_qr (id : string) (row : QrRow) (db : QrDb) : Result AppError QrDb :=
  if bool_decide (is_Some (d_qrs db !! id)) then Err DatabaseError
  else if negb (q_created_at row <? q_expires_at row) then Err DatabaseError
  else match q_ticket_id row with
       | Some t => if bool_decide (is_Some (d_tickets db !! t))
                   then Ok (db <| d_qrs := <[id := row]> (d_qrs db) |>) else Err DatabaseError
       | None => Ok (db <| d_qrs := <[id := row]> (d_qrs db) |>)
       end.

Record QrResponse := mkQrResponse {
  gr_qr_id : string; gr_payload : QrPayload; gr_signature : string; gr_public_key : string;
  gr_expires_at : Z;
}.

(** ** Sanitising *)
Definition MAX_ATTENDEE_METADATA_LEN : nat := 256.

Definition code (c : Ascii.ascii) : N := Ascii.N_of_ascii c.
(** A control character: one byte below 32 or 127, or the two bytes of U+0080 to U+009F. *)
Fixpoint has_control (l : list Ascii.ascii) : bool :=
  match l with
  | [] => false
  | c :: l =>
      ((code c <? 32)%N || (code c =? 127)%N
       || ((code c =? 194)%N
           && match l with d :: _ => (128 <=? code d)%N && (code d <=? 159)%N | [] => false end))
      || has_control l
  end.
Definition bytes_of (s : string) : list Ascii.ascii := String.list_ascii_of_string s.
Definition quote : Ascii.ascii := Ascii.ascii_of_nat 34.
Definition backslash : Ascii.ascii := Ascii.ascii_of_nat 92.
Definition escape (c : Ascii.ascii) : list Ascii.ascii :=
  if bool_decide (c = quote) then [backslash; quote]
  else if bool_decide (c = backslash) then [backslash; backslash]
  else if bool_decide (c = Ascii.ascii_of_nat 60) then bytes_of "&lt;"
  else if bool_decide (c = Ascii.ascii_of_nat 62) then bytes_of "&gt;"
  else if bool_decide (c = Ascii.ascii_of_nat 38) then bytes_of "&amp;"
  else [c].
(** [chars().count()]: the bytes that do not continue a character. *)
Definition chars_count (l : list Ascii.ascii) : nat :=
  length (filter (fun c => ~ (128 <= code c < 192)%N) l).

Section Handlers.
Context `{Signing}.

Definition sanitize_attendee_metadata (value : string) (max_len : nat) : Result AppError string :=
  let trimmed := trim value in
  if bool_decide (trimmed = ""%string) then Err ValidationError
  else if has_control (bytes_of trimmed) then Err ValidationError
  else
    let sanitized := bytes_of trimmed ≫= escape in
    if (max_len <? chars_count sanitized)%nat then Err ValidationError
    else Ok (String.string_of_list_ascii sanitized).

(** ** Signing and storing; [None] is a panic *)
Definition issue (k : Secret) (payload : QrPayload) (ticket_id : option string) (db : QrDb)
    : Result AppError QrResponse * QrDb :=
  let signature := base64_of (sign k (to_json payload)) in
  let public_key := hex_of (public_of k) in
  match insert_qr (qp_id payload)
          (mkQr (qp_qr_type payload) (qp_data payload) signature public_key (qp_created_at payload)
             (qp_expires_at payload) false None ticket_id) db with
  | Err e => (Err e, db)
  | Ok db => (Ok (mkQrResponse (qp_id payload) payload signature public_key (qp_expires_at payload)), db)
  end.

(** [created_at + Duration::seconds(s)], which panics out of range. *)
Definition add_seconds (created_at s : Z) : option Z :=
  if (Z.abs s <=? (2 ^ 63 - 1) / 1000) && in_calendar (created_at + 1000 * s)
  then Some (created_at + 1000 * s) else None.

Definition generate_qr_payload (k : Secret) (now : Z) (qr_id nonce qr_type : string) (data : Json)
    (expires_in_seconds : option Z) (ticket_id : option string) (db : QrDb)
    : option (Result AppError QrResponse * QrDb) :=
  if bool_decide (qr_type = ""%string) then Some (Err ValidationError, db)
  else
    expires_at ← add_seconds now (default 3600 expires_in_seconds);
    Some (issue k (mkPayload qr_id qr_type data now expires_at nonce) ticket_id db).

Definition presentable (wallet : string) (t : TicketRow) : bool :=
  (bool_decide (tr_owner t = Some wallet) || bool_decide (tr_buyer t = Some wallet))
  && negb (bool_decide (tr_status t = "cancelled"%string)) && negb (bool_decide (tr_status t = "Revoked"%string)).

Definition generate_attendee_qr (k : Secret) (now : Z) (qr_id nonce wallet_address ticket_id : string)
    (expires_in_seconds : option Z) (db : QrDb) : option (Result AppError QrResponse * QrDb) :=
  match sanitize_attendee_metadata wallet_address MAX_ATTENDEE_METADATA_LEN with
  | Err e => Some (Err e, db)
  | Ok wallet =>
      match d_tickets db !! ticket_id with
      | Some t =>
          if presentable wallet t then
            expires_at ← add_seconds now (Z.max 60 (Z.min (default 300 expires_in_seconds) 86400));
            Some (issue k (mkPayload qr_id "ticket"
                             (JObject [("wallet_address"%string, JString wallet);
                                       ("ticket_id"%string, JString ticket_id)])
                             now expires_at nonce) (Some ticket_id) db)
          else Some (Err NotFound, db)
      | None => Some (Err NotFound, db)
      end
  end.

(** ** Verification *)
Definition verify_payload_signature (payload : QrPayload) (signature public_key : string)
    : Result AppError unit :=
  s ← ok_or (signature_from signature) ValidationError;
  k ← ok_or (key_from public_key) ValidationError;
  err_if (negb (verify k (to_json payload) s)) ValidationError.

Record VerifyQrResponse := mkVerified { vq_valid : bool; vq_expired : bool; vq_payload : option QrPayload }.
Definition verify_qr_payload (now : Z) (payload : QrPayload) (signature public_key : string) (db : QrDb)
    : VerifyQrResponse :=
  let is_valid := match verify_payload_signature payload signature public_key with
                  | Ok _ => true | Err _ => false end in
  let is_expired := qp_expires_at payload <? now in
  let is_used := is_valid && match d_qrs db !! qp_id payload with Some q => q_is_used q | None => false end in
  mkVerified (is_valid && negb is_expired && negb is_used) is_expired
    (if is_valid then Some payload else None).

(** [scan_ticket] up to the transaction: what is read and checked. *)
Definition scan_checks (now : Z) (ticket_id : string) (payload : QrPayload) (signature public_key : string)
    (db : QrDb) : Result AppError unit :=
  err_if (negb (bool_decide (qp_qr_type payload = "ticket"%string))) ValidationError;;
  id ← ok_or (get "ticket_id" (qp_data payload) ≫= as_str) ValidationError;
  uuid ← ok_or (uuid_from id) ValidationError;
  err_if (negb (bool_decide (uuid = ticket_id))) ValidationError;;
  address ← ok_or (get "wallet_address" (qp_data payload) ≫= as_str) ValidationError;
  let wallet := trim address in
  err_if (bool_decide (wallet = ""%string)) ValidationError;;
  verify_payload_signature payload signature public_key;;
  err_if (qp_expires_at payload <? now) ValidationError;;
  t ← ok_or (d_tickets db !! ticket_id) NotFound;
  err_if (bool_decide (tr_status t = "Revoked"%string)) Conflict;;
  err_if (negb (bool_decide (tr_owner t = Some wallet) || bool_decide (tr_buyer t = Some wallet))) Forbidden;;
  q ← ok_or (q ← d_qrs db !! qp_id payload;
             if bool_decide (q_ticket_id q = Some ticket_id) then Some q else None) NotFound;
  err_if (q_is_used q) Conflict;;
  err_if (q_expires_at q <? now) ValidationError;;
  err_if (bool_decide (tr_status t = "Scanned"%string) || bool_decide (tr_status t = "used"%string)) Conflict.

(** The transaction. *)
Definition scan_commit (now : Z) (ticket_id qr_id : string) (db : QrDb) : QrDb :=
  db <| d_qrs := alter (fun q => q <| q_is_used := true |> <| q_used_at := Some now |>) qr_id (d_qrs db) |>
     <| d_tickets := alter (fun t => t <| tr_status := "Scanned"%string |> <| tr_scanned_at := Some now |>)
                       ticket_id (d_tickets db) |>.

Definition scan_ticket (now : Z) (ticket_id : string) (payload : QrPayload) (signature public_key : string)
    (db : QrDb) : Result AppError unit * QrDb :=
  match scan_checks now ticket_id payload signature public_key db with
  | Ok _ => (Ok tt, scan_commit now ticket_id (qp_id payload) db)
  | Err e => (Err e, db)
  end.

Definition mark_qr_used (now : Z) (qr_id : string) (db : QrDb) : Result AppError unit * QrDb :=
  match d_qrs db !! qr_id with
  | None => (Err NotFound, db)
  | Some q =>
      if q_is_used q then (Err ValidationError, db)
      else if q_expires_at q <? now then (Err ValidationError, db)
      else (Ok tt, db <| d_qrs := alter (fun q => q <| q_is_used := true |> <| q_used_at := Some now |>)
                                    qr_id (d_qrs db) |>)
  end.

Definition delete_qr_payload (qr_id : string) (db : QrDb) : Result AppError unit * QrDb :=
  match d_qrs db !! qr_id with
  | Some _ => (Ok tt, db <| d_qrs := delete qr_id (d_qrs db) |>)
  | None => (Err NotFound, db)
  end.
End Handlers.

(** ** Pages cover the rows *)
Section PagesCover.
Context {A : Type}.
Variables (size : Z) (count : bool) (rows : list A).
Hypothesis size_pos : 0 < size.

Definition pages (n : nat) : list A :=
  concat ((fun i => page_of (mkPages (Z.of_nat i) size count) rows) <$> seq 1 n).

Lemma page_at i :
  Z.of_nat i * size < 2 ^ 32 ->
  page_of (mkPages (Z.of_nat (S i)) size count) rows
  = take (Z.to_nat size) (drop (i * Z.to_nat size) rows).
Proof.
  intros Hi. unfold page_of, offset, limit. cbn [vp_page vp_page_size]. do 2 f_equal.
  rewrite Z.mod_small by nia. nia.
Qed.

Lemma pages_prefix n :
  Z.of_nat n * size < 2 ^ 32 + size -> pages n = take (n * Z.to_nat size) rows.
Proof.
  unfold pages. induction n as [|n IH]; intros Hn; [done|].
  rewrite seq_S, fmap_app, concat_app, IH by nia. cbn [fmap list_fmap concat].
  rewrite app_nil_r. change (1 + n)%nat with (S n). rewrite page_at by nia.
  rewrite take_take_drop. f_equal. lia.
Qed.

(** The pages from the first to the last that the metadata announce are, one
    after the other, exactly the rows, as long as the rows are fewer than 2^32. *)
Theorem pages_cover_rows :
  Z.of_nat (length rows) < 2 ^ 32 ->
  pages (Z.to_nat (pm_total_pages (metadata (mkPages 1 size count) (Z.of_nat (length rows))))) = rows.
Proof.
  intros Hlen. cbn [pm_total_pages metadata]. unfold total_pages. cbn [vp_page_size].
  destruct (Z.eqb_spec (Z.of_nat (length rows)) 0) as [H0|H0].
  - by destruct rows.
  - set (m := Z.of_nat (length rows)) in *. unfold div_ceil.
    pose proof (Z.div_mod (m + size - 1) size ltac:(lia)) as Hd.
    pose proof (Z.mod_pos_bound (m + size - 1) size size_pos) as Hm.
    set (n := (m + size - 1) / size) in *. assert (0 <= n) by nia.
    rewrite pages_prefix by nia. apply take_ge. nia.
Qed.
End PagesCover.

(** Beyond 32 bits the offset wraps around: a high page shows the first rows again. *)
Example offset_wraps :
  offset (validate (mkParams 42949674 100 true)) = 4
  /\ offset (validate (mkParams 1 100 true)) = 0.
Proof. done. Qed.

(** ** Scanning *)
Section Scans.
Context `{Signing}.

Inductive QrCall :=
  | CGenerate (k : Secret) (now : Z) (qr_id nonce qr_type : string) (data : Json)
      (expires_in : option Z) (ticket_id : option string)
  | CAttendee (k : Secret) (now : Z) (qr_id nonce wallet ticket_id : string) (expires_in : option Z)
  | CScan (now : Z) (ticket_id : string) (payload : QrPayload) (signature public_key : string)
  | CMark (now : Z) (qr_id : string)
  | CDelete (qr_id : string).

Definition call_qr (c : QrCall) (db : QrDb) : QrDb :=
  match c with
  | CGenerate k now qr_id nonce ty data ex t =>
      from_option snd db (generate_qr_payload k now qr_id nonce ty data ex t db)
  | CAttendee k now qr_id nonce w t ex =>
      from_option snd db (generate_attendee_qr k now qr_id nonce w t ex db)
  | CScan now t p s pk => (scan_ticket now t p s pk db).2
  | CMark now qr_id => (mark_qr_used now qr_id db).2
  | CDelete qr_id => (delete_qr_payload qr_id db).2
  end.
Definition run_qr (cs : list QrCall) (db : QrDb) : QrDb := foldl (fun db c => call_qr c db) db cs.

Definition scanned (ticket_id : string) (db : QrDb) : Prop :=
  exists t, d_tickets db !! ticket_id = Some t /\ tr_status t = "Scanned"%string.

Lemma issue_tickets k payload t db : d_tickets (issue k payload t db).2 = d_tickets db.
Proof.
  unfold issue, insert_qr. repeat case_match; simplify_eq/=; done.
Qed.

Lemma commit_scanned now t id db u :
  scanned u db -> scanned u (scan_commit now t id db).
Proof.
  intros (r & Hr & Hs). unfold scanned, scan_commit. cbn. destruct (decide (t = u)) as [->|].
  - rewrite lookup_alter_eq, Hr. by eexists.
  - rewrite lookup_alter_ne by done. eauto.
Qed.

Lemma call_scanned c db t : scanned t db -> scanned t (call_qr c db).
Proof.
  intros Hs. destruct c as [k now id nonce ty data ex ot|k now id nonce w ti ex|now ti p s pk|now id|id]; cbn.
  - unfold generate_qr_payload. case_bool_decide; [done|]. destruct (add_seconds _ _); cbn; [|done].
    unfold scanned. by rewrite issue_tickets.
  - unfold generate_attendee_qr. destruct (sanitize_attendee_metadata _ _); [|done].
    destruct (d_tickets db !! ti); [|done]. case_match; [|done]. destruct (add_seconds _ _); cbn; [|done].
    unfold scanned. by rewrite issue_tickets.
  - unfold scan_ticket. case_match; [by apply commit_scanned|done].
  - unfold mark_qr_used. by repeat case_match.
  - unfold delete_qr_payload. by repeat case_match.
Qed.

(** A ticket that is scanned does not pass the checks. *)
Lemma checks_scanned now t p s pk db :
  scanned t db -> exists e, scan_checks now t p s pk db = Err e.
Proof.
  intros (r & Hr & Hs). destruct (scan_checks now t p s pk db) eqn:Hc; [|eauto]. exfalso.
  unfold scan_checks in Hc. oks. simplify_eq. rewrite Hs in *. done.
Qed.

End Scans.

(** ** Codes that pass *)
Section Codes.
Context `{SigningLaws}.

Lemma own_signature k payload :
  verify_payload_signature payload (base64_of (sign k (to_json payload))) (hex_of (public_of k)) = Ok tt.
Proof.
  unfold verify_payload_signature. rewrite signature_round, key_round. cbn. by rewrite verify_sign.
Qed.

(** What the scan needs of the ticket and the stored code, whoever signed. *)
Lemma scan_passes now t k payload db tk q w :
  qp_qr_type payload = "ticket"%string ->
  get "ticket_id" (qp_data payload) ≫= as_str = Some t -> uuid_from t = Some t ->
  get "wallet_address" (qp_data payload) ≫= as_str = Some w -> trim w = w -> w <> ""%string ->
  now <= qp_expires_at payload ->
  d_tickets db !! t = Some tk -> tr_status tk ∉ ["Revoked"; "Scanned"; "used"]%string ->
  tr_owner tk = Some w \/ tr_buyer tk = Some w ->
  d_qrs db !! qp_id payload = Some q -> q_ticket_id q = Some t -> q_is_used q = false ->
  now <= q_expires_at q ->
  scan_checks now t payload (base64_of (sign k (to_json payload))) (hex_of (public_of k)) db = Ok tt.
Proof.
  intros Hty Ht Hu Hw Htrim Hne Hexp Htk Hst Hown Hq Hqt Hused Hqexp. unfold scan_checks.
  rewrite own_signature, Hty, Ht, Hw. cbn. rewrite Hu. cbn.
  rewrite (bool_decide_true ("ticket"%string = "ticket"%string)), (bool_decide_true (t = t)) by done. cbn.
  rewrite Htrim, (bool_decide_false (w = ""%string)) by done. cbn.
  destruct (Z.ltb_spec (qp_expires_at payload) now); [lia|]. rewrite Htk. cbn.
  rewrite (bool_decide_false (tr_status tk = "Revoked"%string)) by set_solver. cbn.
  assert (bool_decide (tr_owner tk = Some w) || bool_decide (tr_buyer tk = Some w) = true) as ->.
  { apply orb_true_iff. destruct Hown; [left|right]; by apply bool_decide_eq_true. }
  cbn. rewrite Hq. cbn. rewrite (bool_decide_true (q_ticket_id q = Some t)) by done. cbn.
  rewrite Hused. cbn. destruct (Z.ltb_spec (q_expires_at q) now); [lia|]. cbn.
  rewrite (bool_decide_false (tr_status tk = "Scanned"%string)),
    (bool_decide_false (tr_status tk = "used"%string)) by set_solver. done.
Qed.

(** A code that an attendee obtains for a ticket opens the gate: scanned before
    it expires, with the ticket still valid and unscanned, it is accepted, and the
    ticket and the code are then used. *)
Theorem attendee_code_scans k now id nonce wallet t ex db r db' tk now' :
  generate_attendee_qr k now id nonce wallet t ex db = Some (Ok r, db') ->
  uuid_from t = Some t ->
  (forall w, sanitize_attendee_metadata wallet MAX_ATTENDEE_METADATA_LEN = Ok w -> trim w = w /\ w <> ""%string) ->
  d_tickets db !! t = Some tk -> tr_status tk <> "Scanned"%string -> tr_status tk <> "used"%string ->
  now' <= gr_expires_at r ->
  let '(res, db2) := scan_ticket now' t (gr_payload r) (gr_signature r) (gr_public_key r) db' in
  res = Ok tt /\ scanned t db2
  /\ exists q, d_qrs db2 !! gr_qr_id r = Some q /\ q_is_used q = true.
Proof.
  unfold generate_attendee_qr. intros Hg Hu Htrim Htk Hn1 Hn2 Hexp.
  destruct (sanitize_attendee_metadata _ _) as [w|]; [|done]. destruct (Htrim w eq_refl) as [Htw Hne].
  rewrite Htk in Hg. destruct (presentable w tk) eqn:Hp; [|done].
  apply bind_Some in Hg as (expires & _ & Hg). injection Hg as Hg. unfold issue in Hg.
  set (payload := mkPayload _ _ _ _ _ _) in *.
  destruct (insert_qr _ _ db) as [db1|] eqn:Hins; [|done]. injection Hg as <- <-.
  assert (d_tickets db1 = d_tickets db /\ exists q, d_qrs db1 !! id = Some q /\ q_ticket_id q = Some t
    /\ q_is_used q = false /\ q_expires_at q = expires) as (Hdt & q & Hq & Hqt & Hqu & Hqe).
  { revert Hins. unfold insert_qr. repeat case_match; intros [= <-]; try done. cbn.
    split; [done|]. rewrite lookup_insert_eq. eauto. }
  unfold scan_ticket. cbn [gr_payload gr_signature gr_public_key gr_expires_at gr_qr_id] in *.
  unfold presentable in Hp. apply andb_true_iff in Hp as [[Hown Hc]%andb_true_iff Hrev].
  rewrite (scan_passes now' t k payload db1 tk q w); try done.
  - cbn. split; [done|]. unfold scanned, scan_commit. cbn. rewrite !lookup_alter_eq, Hdt, Htk, Hq. cbn. eauto 10.
  - by rewrite Hdt.
  - apply negb_true_iff, bool_decide_eq_false in Hrev. set_solver.
  - apply orb_true_iff in Hown as [?%bool_decide_eq_true|?%bool_decide_eq_true]; auto.
  - by rewrite Hqe.
Qed.

(** The signature proves nothing about who issued a code: with any key of its own
    anyone can sign a payload that names the identifier of an unused code, its ticket
    and the owner, and the scan accepts it. *)
Theorem forged_code_scans k now t id w created expires nonce db tk q :
  uuid_from t = Some t -> trim w = w -> w <> ""%string -> now <= expires ->
  d_tickets db !! t = Some tk -> tr_status tk ∉ ["Revoked"; "Scanned"; "used"]%string ->
  tr_owner tk = Some w ->
  d_qrs db !! id = Some q -> q_ticket_id q = Some t -> q_is_used q = false -> now <= q_expires_at q ->
  let payload := mkPayload id "ticket"
    (JObject [("wallet_address"%string, JString w); ("ticket_id"%string, JString t)]) created expires nonce in
  (scan_ticket now t payload (base64_of (sign k (to_json payload))) (hex_of (public_of k)) db).1 = Ok tt.
Proof.
  intros. unfold scan_ticket. rewrite (scan_passes now t k payload db tk q w); try done. by left.
Qed.
End Codes.

(** ** Concrete values *)
Module TicketQrSample.
Definition signing : Signing := {|
  Secret := string; Public := string; Sig := string;
  to_json p := qp_id p; public_of k := k; sign k m := k +:+ m;
  verify p m s := bool_decide (s = p +:+ m);
  base64_of s := s; signature_from s := Some s; hex_of p := p; key_from s := Some s;
  uuid_from s := Some s; trim s := s; in_calendar z := (-1000000000000 <? z) && (z <? 1000000000000);
|}.
#[local] Existing Instance signing.
#[local] Instance laws : SigningLaws.
Proof. split; try done. intros k m. cbn. by apply bool_decide_eq_true. Qed.

Definition key : @Secret signing := "k"%string.
Definition ticket (status : string) : TicketRow := mkTicketRow status (Some "GA"%string) None None.
Definition db0 : QrDb := mkQrDb ∅ {["t1"%string := ticket "Unused"]}.

Lemma pages_cover_rows_witness : pages 2 true [1; 2; 3; 4; 5] 3 = [1; 2; 3; 4; 5].
Proof. apply (pages_cover_rows 2 true [1; 2; 3; 4; 5]); cbn; lia. Defined.

(** The code of the attendee and the state with it. *)
Definition code1 : QrResponse :=
  mkQrResponse "q1" (mkPayload "q1" "ticket"
    (JObject [("wallet_address", JString "GA"); ("ticket_id", JString "t1")]) 0 300000 "n")
    "kq1" "k" 300000 .
Definition db1 : QrDb := db0 <| d_qrs := {["q1"%string := mkQr "ticket" (qp_data (gr_payload code1)) "kq1" "k"
  0 300000 false None (Some "t1"%string)]} |>.

Lemma sample_code :
  generate_attendee_qr key 0 "q1" "n" "GA" "t1" None db0 = Some (Ok code1, db1).
Proof. by vm_compute. Qed.

Lemma attendee_code_scans_witness :
  let '(res, db2) := scan_ticket 1000 "t1" (gr_payload code1) (gr_signature code1) (gr_public_key code1) db1 in
  res = Ok tt /\ scanned "t1" db2
  /\ exists q, d_qrs db2 !! gr_qr_id code1 = Some q /\ q_is_used q = true.
Proof.
  apply (attendee_code_scans key 0 "q1" "n" "GA" "t1" None db0 code1 db1 (ticket "Unused") 1000).
  - exact sample_code.
  - done.
  - intros w [= <-]. done.
  - done.
  - done.
  - done.
  - cbn. lia.
Defined.


(** Two gates check before either commits: both scans succeed. *)
Example two_gates :
  scan_checks 1000 "t1" (gr_payload code1) "kq1" "k" db1 = Ok tt
  /\ scan_checks 1001 "t1" (gr_payload code1) "kq1" "k" db1 = Ok tt
  /\ scanned "t1" (scan_commit 1001 "t1" "q1" (scan_commit 1000 "t1" "q1" db1)).
Proof. split; [by vm_compute|]. split; [by vm_compute|]. by eexists. Qed.

(** No code is issued for a cancelled ticket, but one issued before still opens the gate. *)
Example cancelled_ticket_scans :
  let cancelled := db1 <| d_tickets := {["t1"%string := ticket "cancelled"]} |> in
  generate_attendee_qr key 0 "q2" "n" "GA" "t1" None cancelled = Some (Err NotFound, cancelled)
  /\ (scan_ticket 1000 "t1" (gr_payload code1) "kq1" "k" cancelled).1 = Ok tt.
Proof. by vm_compute. Qed.

(** A life time out of the calendar's range panics. *)
Example huge_lifetime_panics :
  generate_qr_payload key 0 "q1" "n" "ticket" JNull (Some (2 ^ 62)) None db0 = None.
Proof. by vm_compute. Qed.
End TicketQrSample.
