(* ===== verification/Auth.v ===== *)
(** * Server: authentication

    [handlers/auth.rs], [handlers/api_keys.rs], [middleware/api_key_auth.rs] and the
    identification of [handlers/upload.rs].  Signed tokens (JWT), Ed25519, strkeys,
    the hash and [trim] are an interface ([Tokens]); a token carries a JSON object, of
    which a reader takes the fields that it knows and ignores the others.  Instants
    are milliseconds, times in tokens seconds. *)

From stdpp Require Import base tactics numbers list strings gmap.
From S2P Require Import Prelude.
From S2P Require Import ServerPrelude.
From S2P Require Import IndexerEvent.
From S2P Require Import WaitingRoom.

Class Tokens := {
  jwt_encode : Json -> option string;
  jwt_decode : string -> option Json; (* the signature and the form, not the expiry *)
  stellar_address : string -> bool; (* [validate_stellar_address] *)
  strkey_of_hex : string -> option string; (* of a 32-byte key in hexadecimal *)
  is_hex : string -> bool;
  is_point : string -> bool; (* the key is a point of the curve *)
  is_signature : string -> bool; (* 64 bytes *)
  ed25519_verify : string -> string -> string -> bool; (* key, message, signature, in hexadecimal *)
  sha256_of : string -> string;
  trimmed : string -> string;
  header_value : string -> bool; (* the text may stand in a header *)
}.

(** What an issued token gives back. *)
Class TokenLaws `{Tokens} := { jwt_round c t : jwt_encode c = Some t -> jwt_decode t = Some c }.

(** ** Sessions *)
Record Claims := mkSession { c_sub : string; c_iat : Z; c_exp : Z }.

(** The object as a token carries it, and what [decode::<Claims>] reads of one. *)
Definition claims_json (c : Claims) : Json :=
  JObject [("sub", JString (c_sub c)); ("iat", JNumber (c_iat c)); ("exp", JNumber (c_exp c))]%string.
Definition claims_of (j : Json) : option Claims :=
  sub ← get "sub" j ≫= as_str; iat ← get "iat" j ≫= as_i64; exp ← get "exp" j ≫= as_i64;
  Some (mkSession sub iat exp).

(** The checkout grants of the waiting room are tokens under the same secret. *)
Definition grant_json (c : GrantClaims) : Json :=
  JObject [("sub", JString (gc_sub c)); ("event_id", JString (gc_event_id c));
           ("purpose", JString (gc_purpose c)); ("iat", JNumber (gc_iat c));
           ("exp", JNumber (gc_exp c)); ("jti", JString (gc_jti c))]%string.

(** The leeway of the library, in seconds. *)
Definition LEEWAY : Z := 60.

(** ** Data *)
Record Headers := mkHeaders { hd_authorization : option string; hd_api_key_organizer : option string }.
#[export] Instance Headers_eta : Eta Headers := fun h =>
  mkHeaders (hd_authorization h) (hd_api_key_organizer h).

Record Nonce := mkNonce { n_address : string; n_used : bool; n_expires_at : Z }.
#[export] Instance Nonce_eta : Eta Nonce := fun n => mkNonce (n_address n) (n_used n) (n_expires_at n).
Abbreviation Nonces := (gmap string Nonce).

Record ApiKey := mkKey { ak_id : string; ak_organizer : string; ak_active : bool; ak_expires_at : option Z; ak_name : string }.
#[export] Instance ApiKey_eta : Eta ApiKey := fun k =>
  mkKey (ak_id k) (ak_organizer k) (ak_active k) (ak_expires_at k) (ak_name k).
(** The table by the hash of the key. *)
Abbreviation ApiKeys := (gmap string ApiKey).

Record TokenBucket := mkBucket { tb_tokens : Z; tb_last : Z }.

Abbreviation Buckets := (gmap string TokenBucket).
Inductive Refused := Unauthorized | TooMany.

Section Sessions.
Context `{Tokens}.

Definition issue_jwt (now : Z) (address : string) : Result AppError string :=
  ok_or (jwt_encode (claims_json (mkSession address (now / 1000) (now / 1000 + 86400)))) InternalServerError.

Definition verify_jwt (now : Z) (token : string) : Result AppError Claims :=
  claims ← ok_or (jwt_decode token ≫= claims_of) AuthError;
  err_if (c_exp claims <? now / 1000 - LEEWAY) AuthError;;
  mret claims.

(** ** Headers *)
Definition strip_prefix (p s : string) : option string :=
  if String.prefix p s then Some (String.substring (String.length p) (String.length s - String.length p) s)
  else None.
Definition DEV_PREFIX : string := "sk_live_".

Definition bearer_auth (now : Z) (h : Headers) : Result AppError string :=
  header ← ok_or (hd_authorization h) AuthError;
  token ← ok_or (strip_prefix "Bearer " header) AuthError;
  err_if (String.prefix DEV_PREFIX token) AuthError;;
  claims ← verify_jwt now token;
  mret (c_sub claims).

Definition extract_auth (now : Z) (h : Headers) : Result AppError string :=
  match hd_api_key_organizer h with
  | Some org => if bool_decide (org <> ""%string) then Ok org else bearer_auth now h
  | None => bearer_auth now h
  end.

(** The identification of [upload_image], without a user of an outer layer. *)
Definition upload_auth (now : Z) (h : Headers) : Result AppError string :=
  match hd_api_key_organizer h with
  | Some org => if bool_decide (trimmed org <> ""%string) then Ok org else bearer_auth now h
  | None => bearer_auth now h
  end.

(** [refresh_token]: the new token. *)
Definition refresh_token (now : Z) (h : Headers) : Result AppError string :=
  address ← extract_auth now h; issue_jwt now address.

(** ** Nonces *)
Definition NONCE_TTL : Z := 300000.

Definition request_nonce (now : Z) (nonce address : string) (db : Nonces) : Result AppError string * Nonces :=
  if bool_decide (address = ""%string) then (Err ValidationError, db)
  else if negb (stellar_address address) then (Err ValidationError, db)
  else match db !! nonce with
       | Some _ => (Err DatabaseError, db)
       | None => (Ok nonce, <[nonce := mkNonce address false (now + NONCE_TTL)]> db)
       end.

(** What is read and checked before the nonce is spent. *)
Definition login_checks (now : Z) (address nonce signature public_key : string) (db : Nonces)
    : Result AppError unit :=
  err_if (bool_decide (address = ""%string) || bool_decide (nonce = ""%string)
          || bool_decide (signature = ""%string) || bool_decide (public_key = ""%string)) ValidationError;;
  row ← ok_or (n ← db !! nonce; if bool_decide (n_address n = address) then Some n else None) AuthError;
  err_if (n_used row) AuthError;;
  err_if (n_expires_at row <? now) AuthError;;
  err_if (negb (is_hex signature)) ValidationError;;
  key ← ok_or (strkey_of_hex public_key) ValidationError;
  err_if (negb (bool_decide (key = address))) AuthError;;
  err_if (negb (is_point public_key)) ValidationError;;
  err_if (negb (is_signature signature)) ValidationError;;
  err_if (negb (ed25519_verify public_key nonce signature)) AuthError.

Definition spend (nonce : string) (db : Nonces) : Nonces :=
  alter (fun n => n <| n_used := true |>) nonce db.

Definition verify_signature (now : Z) (address nonce signature public_key : string) (db : Nonces)
    : Result AppError string * Nonces :=
  match login_checks now address nonce signature public_key db with
  | Err e => (Err e, db)
  | Ok _ => (issue_jwt now address, spend nonce db)
  end.

(** ** Developer keys *)
(** [generate_api_key] draws [random], 32 letters and digits. *)
Definition create_api_key (now : Z) (h : Headers) (id random name : string) (expires_in_days : option Z)
    (db : ApiKeys) : Result AppError string * ApiKeys :=
  match extract_auth now h with
  | Err e => (Err e, db)
  | Ok address =>
      if bool_decide (trimmed name = ""%string) then (Err ValidationError, db)
      else if (100 <? String.length name)%nat then (Err ValidationError, db)
      else if match expires_in_days with Some d => negb ((1 <=? d) && (d <=? 365)) | None => false end
      then (Err ValidationError, db)
      else
        let key := DEV_PREFIX +:+ random in
        match db !! sha256_of key with
        | Some _ => (Err DatabaseError, db)
        | None => (Ok key, <[sha256_of key := mkKey id address true
                      ((fun d => now + d * 86400000) <$> expires_in_days) (trimmed name)]> db)
        end
  end.

(** The keys of a caller that are active. *)
Definition list_api_keys (now : Z) (h : Headers) (db : ApiKeys) : Result AppError (list ApiKey) :=
  address ← extract_auth now h;
  mret (filter (fun k => ak_organizer k = address /\ ak_active k = true) (map_to_list db).*2).

Definition revoke_api_key (now : Z) (h : Headers) (id : string) (db : ApiKeys)
    : Result AppError unit * ApiKeys :=
  match extract_auth now h with
  | Err e => (Err e, db)
  | Ok address =>
      let hit k := bool_decide (ak_id k = id) && bool_decide (ak_organizer k = address) && ak_active k in
      if existsb hit (map_to_list db).*2
      then (Ok tt, (fun k => if hit k then k <| ak_active := false |> else k) <$> db)
      else (Err NotFound, db)
  end.

(** *** The bucket of a key: tokens in units of 1/3600000, of which a millisecond adds 1000 *)
Definition TOKEN : Z := 3600000.
Definition RATE_LIMIT_PER_HOUR : Z := 1000.
Definition new_bucket (now : Z) : TokenBucket := mkBucket (RATE_LIMIT_PER_HOUR * TOKEN) now.
Definition try_acquire (now : Z) (b : TokenBucket) : bool * TokenBucket :=
  let tokens := Z.min (tb_tokens b + (now - tb_last b) * RATE_LIMIT_PER_HOUR) (RATE_LIMIT_PER_HOUR * TOKEN) in
  if TOKEN <=? tokens then (true, mkBucket (tokens - TOKEN) now) else (false, mkBucket tokens now).

(** [api_key_auth_middleware]: the headers that reach the handler. *)
Definition api_key_auth_middleware (now : Z) (keys : ApiKeys) (h : Headers) (store : Buckets)
    : Result Refused Headers * Buckets :=
  let h := h <| hd_api_key_organizer := None |> in
  match strip_prefix "Bearer " (default "" (hd_authorization h)) with
  | Some token =>
      if String.prefix DEV_PREFIX token then
        if negb (String.length token =? String.length DEV_PREFIX + 32)%nat then (Err Unauthorized, store)
        else
          let key_hash := sha256_of token in
          match keys !! key_hash with
          | None => (Err Unauthorized, store)
          | Some k =>
              if negb (ak_active k) then (Err Unauthorized, store)
              else if match ak_expires_at k with Some e => e <=? now | None => false end
              then (Err Unauthorized, store)
              else
                let '(ok, bucket) := try_acquire now (default (new_bucket now) (store !! key_hash)) in
                let store := <[key_hash := bucket]> store in
                if negb ok then (Err TooMany, store)
                else
                  let org := ak_organizer k in
                  let h := if header_value org then h <| hd_api_key_organizer := Some org |> else h in
                  let h := match issue_jwt now org with
                           | Ok jwt => if header_value ("Bearer " +:+ jwt)
                                       then h <| hd_authorization := Some ("Bearer " +:+ jwt) |> else h
                           | Err _ => h
                           end in
                  (Ok h, store)
          end
      else (Ok h, store)
  | None => (Ok h, store)
  end.

(** A handler behind the middleware learns the caller. *)
Definition caller_of (now : Z) (keys : ApiKeys) (h : Headers) (store : Buckets) : option string :=
  match (api_key_auth_middleware now keys h store).1 with
  | Ok h => match extract_auth now h with Ok a => Some a | Err _ => None end
  | Err _ => None
  end.
End Sessions.

(** ** Texts *)
Lemma prefix_app p s : String.prefix p (p +:+ s) = true.
Proof.
  induction p as [|c p IH]; [by destruct s|].
  change (String c p +:+ s) with (String c (p +:+ s)). cbn [String.prefix].
  destruct (Ascii.ascii_dec c c); [exact IH|congruence].
Qed.
Lemma substring_whole s : String.substring 0 (String.length s) s = s.
Proof. induction s as [|c s IH]; cbn; congruence. Qed.
Lemma substring_app p s :
  String.substring (String.length p) (String.length (p +:+ s) - String.length p) (p +:+ s) = s.
Proof.
  induction p as [|c p IH]; [|done]. change ("" +:+ s)%string with s. cbn [String.length].
  rewrite Nat.sub_0_r. apply substring_whole.
Qed.
Lemma strip_prefix_app p s : strip_prefix p (p +:+ s) = Some s.
Proof. unfold strip_prefix. by rewrite prefix_app, substring_app. Qed.

(** ** Who the caller is *)
Section Callers.
Context `{TokenLaws}.

(** A session token for [a]. *)
Definition session_of (now : Z) (h : Headers) (a : string) : Prop :=
  exists token claims, strip_prefix "Bearer " (default "" (hd_authorization h)) = Some token
    /\ verify_jwt now token = Ok claims /\ c_sub claims = a.
(** A developer key of [a] that is active and not expired. *)
Definition key_of (now : Z) (keys : ApiKeys) (h : Headers) (a : string) : Prop :=
  exists token k, strip_prefix "Bearer " (default "" (hd_authorization h)) = Some token
    /\ keys !! sha256_of token = Some k /\ ak_active k = true /\ ak_organizer k = a
    /\ match ak_expires_at k with Some e => now < e | None => True end.

Lemma bearer_session now h a : bearer_auth now h = Ok a -> session_of now h a.
Proof.
  unfold bearer_auth, session_of. intros Hb. oks.
  match goal with He : hd_authorization h = Some _ |- _ => rewrite He end. eauto 10.
Qed.

Lemma claims_sub c c' : claims_of (claims_json c) = Some c' -> c_sub c' = c_sub c.
Proof.
  unfold claims_of. intros (sub & Hs & Hc)%bind_Some. cbn in Hs. injection Hs as <-.
  apply bind_Some in Hc as (iat & _ & Hc). apply bind_Some in Hc as (exp & _ & [= <-]). done.
Qed.

(** A session that the server has just issued is for its address. *)
Lemma own_jwt now now' a t claims :
  issue_jwt now a = Ok t -> verify_jwt now' t = Ok claims -> c_sub claims = a.
Proof.
  unfold issue_jwt, verify_jwt. intros Hi%ok_or_Ok Hv. apply jwt_round in Hi. rewrite Hi in Hv. oks. simplify_eq.
  match goal with Hc : Some _ ≫= claims_of = Some _ |- _ => by apply claims_sub in Hc end.
Qed.

(** The headers that the middleware makes for a key of [org] identify [org]. *)
Lemma key_headers now h org a :
  String.prefix DEV_PREFIX (default "" (strip_prefix "Bearer " (default "" (hd_authorization h)))) = true ->
  hd_api_key_organizer h = None ->
  let h1 := if header_value org then h <| hd_api_key_organizer := Some org |> else h in
  extract_auth now
    (match issue_jwt now org with
     | Ok jwt => if header_value ("Bearer " +:+ jwt)
                 then h1 <| hd_authorization := Some ("Bearer " +:+ jwt) |> else h1
     | Err _ => h1
     end) = Ok a ->
  a = org.
Proof.
  intros Hdev Hnone h1. set (h2 := match issue_jwt now org with Ok _ => _ | Err _ => _ end).
  assert (forall a, bearer_auth now h2 = Ok a -> a = org) as Hb.
  { intros b Hses. destruct (bearer_session _ _ _ Hses) as (token & claims & Hs & Hv & Hsub).
    assert (h2 = h1 \/ exists jwt, issue_jwt now org = Ok jwt /\ hd_authorization h2 = Some ("Bearer " +:+ jwt))
      as [Heq|(jwt & Hj & Hauth)].
    { unfold h2. destruct (issue_jwt now org); [|by left]. case_match; [right; eauto|by left]. }
    - exfalso. revert Hses. rewrite Heq. unfold bearer_auth.
      assert (hd_authorization h1 = hd_authorization h) as -> by (unfold h1; by case_match).
      destruct (hd_authorization h) as [x|]; [|done]. cbn in Hdev |- *.
      destruct (strip_prefix "Bearer " x); cbn in Hdev |- *; [by rewrite Hdev|done].
    - rewrite Hauth in Hs. change (strip_prefix "Bearer " ("Bearer " +:+ jwt) = Some token) in Hs.
      rewrite strip_prefix_app in Hs. injection Hs as <-.
      rewrite <- Hsub. by apply (own_jwt now now org jwt). }
  unfold extract_auth. assert (hd_api_key_organizer h2 = hd_api_key_organizer h1) as ->.
  { unfold h2. repeat case_match; done. }
  unfold h1 at 1. destruct (header_value org); [|rewrite Hnone; apply Hb]. cbn.
  case_bool_decide; [by intros [= ->]|apply Hb].
Qed.

(** C10: behind the middleware a caller is who it claims to be: the identity that a
    handler learns is the subject of a session token in the request or the owner of
    an active, unexpired developer key in it.  A header with the name that the
    middleware itself uses has no effect when the client sends it. *)
Theorem caller_authentic now keys h store a :
  caller_of now keys h store = Some a ->
  (key_of now keys h a \/ session_of now h a)
  /\ forall spoofed, caller_of now keys (h <| hd_api_key_organizer := spoofed |>) store = Some a.
Proof.
  intros Hc. split; [|intros; exact Hc]. revert Hc. unfold caller_of, api_key_auth_middleware.
  set (h0 := h <| hd_api_key_organizer := None |>).
  change (hd_authorization h0) with (hd_authorization h).
  assert (forall a, match extract_auth now h0 with Ok a => Some a | Err _ => None end = Some a ->
    session_of now h a) as Hpass.
  { intros b. unfold extract_auth, h0. cbn. destruct (bearer_auth now _) eqn:Hb; [|done]. intros [= <-].
    by apply bearer_session in Hb. }
  destruct (strip_prefix "Bearer " (default "" (hd_authorization h))) as [token|] eqn:Hs; [|right; by apply Hpass].
  destruct (String.prefix DEV_PREFIX token) eqn:Hd; [|right; by apply Hpass].
  destruct (negb (String.length token =? _)%nat); [done|].
  destruct (keys !! _) as [k|] eqn:Hk; [|done]. destruct (ak_active k) eqn:Ha; [|done]. cbn [negb].
  destruct (match ak_expires_at k with Some e => e <=? now | None => false end) eqn:He; [done|].
  destruct (try_acquire _ _) as [[] b]; cbn [negb]; [|done]. cbn [fst]. intros Hc. left.
  exists token, k. split; [done|]. split; [done|]. split; [done|]. split.
  - destruct (extract_auth _ _) as [a'|] eqn:Hx in Hc; [|done]. injection Hc as <-.
    symmetry. eapply (key_headers now h0); [|done|exact Hx].
    change (hd_authorization h0) with (hd_authorization h). by rewrite Hs.
  - destruct (ak_expires_at k); [lia|done].
Qed.

(** ** Logging in *)


(** ** Where it fails *)

Lemma number_i64 z : - 2 ^ 63 <= z < 2 ^ 63 -> as_i64 (JNumber z) = Some z.
Proof.
  intros Hz. unfold as_i64. destruct ((- 2 ^ 63 <=? z) && (z <? 2 ^ 63)) eqn:Hb; [done|lia].
Qed.

(** A checkout grant passes for a session of its client: the token of the waiting
    room, whose client any caller chooses, authenticates that client everywhere. *)
Theorem grant_is_session now c t :
  jwt_encode (grant_json c) = Some t ->
  - 2 ^ 63 <= gc_iat c < 2 ^ 63 -> - 2 ^ 63 <= gc_exp c < 2 ^ 63 -> now / 1000 - LEEWAY <= gc_exp c ->
  verify_jwt now t = Ok (mkSession (gc_sub c) (gc_iat c) (gc_exp c)).
Proof.
  intros Ht%jwt_round Hi He Hexp. unfold verify_jwt. rewrite Ht.
  assert (claims_of (grant_json c) = Some (mkSession (gc_sub c) (gc_iat c) (gc_exp c))) as Hc.
  { unfold claims_of. change (get "sub" (grant_json c)) with (Some (JString (gc_sub c))).
    change (get "iat" (grant_json c)) with (Some (JNumber (gc_iat c))).
    change (get "exp" (grant_json c)) with (Some (JNumber (gc_exp c))).
    cbn [mbind option_bind as_str]. by rewrite !number_i64. }
  cbn -[claims_of]. rewrite Hc. cbn. destruct (Z.ltb_spec (gc_exp c) (now / 1000 - LEEWAY)); [lia|done].
Qed.

(** The upload route lies outside of the middleware and believes the header. *)
Theorem upload_spoofed now victim :
  trimmed victim <> ""%string -> upload_auth now (mkHeaders None (Some victim)) = Ok victim.
Proof. intros Hv. unfold upload_auth. cbn. by rewrite bool_decide_true. Qed.
End Callers.

(** ** Concrete values *)
Module AuthSample.
(** Tokens are the subject in clear; one shape of object can be encoded. *)
Definition session (s : string) : Json := claims_json (mkSession s 0 86400).
Definition grant (s : string) : Json := grant_json (mkClaims s "u1" GRANT_PURPOSE 0 600 "j").

Definition encode_session (j : Json) : option string :=
  match j with
  | JObject [(k1, JString s); (k2, JNumber 0); (k3, JNumber e)] =>
      if bool_decide (k1 = "sub" /\ k2 = "iat" /\ k3 = "exp" /\ e = 86400)%string then Some s else None
  | _ => None
  end.
Definition encode_grant (j : Json) : option string :=
  match j with
  | JObject [(k1, JString s); (k2, JString u); (k3, JString p); (k4, JNumber 0); (k5, JNumber e); (k6, JString i)] =>
      if bool_decide (k1 = "sub" /\ k2 = "event_id" /\ k3 = "purpose" /\ k4 = "iat" /\ k5 = "exp" /\ k6 = "jti"
                      /\ u = "u1" /\ p = GRANT_PURPOSE /\ e = 600 /\ i = "j")%string then Some s else None
  | _ => None
  end.
Definition tokens (encode : Json -> option string) (decode : string -> Json) : Tokens := {|
  jwt_encode := encode; jwt_decode t := Some (decode t); stellar_address _ := true;
  strkey_of_hex k := if bool_decide (k = "kGA"%string) then Some "GA"%string else None;
  is_hex _ := true; is_point _ := true; is_signature _ := true; ed25519_verify _ _ _ := true;
  sha256_of s := s; trimmed s := s; header_value _ := true |}.

#[local] Instance session_tokens : Tokens := tokens encode_session session.
#[local] Instance session_laws : TokenLaws.
Proof.
  split. intros c t. cbn. unfold encode_session.
  repeat (case_match; try done). case_bool_decide as Hk; [|done]. intros [= <-]. naive_solver.
Qed.

Definition nonces : Nonces := {["n"%string := mkNonce "GA" false 300000]}.


Definition request : Headers := mkHeaders (Some "Bearer GA"%string) (Some "GVICTIM"%string).

Lemma caller_authentic_witness :
  key_of 0 ∅ request "GA" \/ session_of 0 request "GA".
Proof. apply (caller_authentic 0 ∅ request ∅ "GA"). by vm_compute. Defined.

(** A client that joins the waiting room as [GA] is [GA] for every handler. *)
Definition grant_tokens : Tokens := tokens encode_grant grant.
Example grant_logs_in :
  extract_auth (H := grant_tokens) 0 (mkHeaders (Some ("Bearer " +:+ "GA")) None) = Ok "GA"%string
  /\ @jwt_encode grant_tokens (grant_json (mkClaims "GA" "u1" GRANT_PURPOSE 0 600 "j")) = Some "GA"%string.
Proof. by vm_compute. Qed.
End AuthSample.
