(* ===== verification/Marketplace.v ===== *)
(** * Server: the secondary market

    [handlers/marketplace.rs]: listings that mirror the resale listings of the chain,
    offers, sealed envelopes and device tokens, over their tables.  A request comes
    with what [extract_auth] made of it ([caller]).  The length of decoded base64 and
    [trim] are an interface ([Encodings]). *)

From stdpp Require Import base tactics numbers list strings gmap.
From S2P Require Import Prelude.
From S2P Require Import ServerPrelude.
From S2P Require PaymentSale.

Definition MAX_BPS : Z := 10000.
Definition X25519_PUBLIC_KEY_LEN : nat := 32.
Definition BOX_NONCE_LEN : nat := 24.
Definition MAX_CIPHERTEXT_BYTES : nat := 4096.
Definition DEFAULT_LIMIT : Z := 20.
Definition MAX_LIMIT : Z := 100.

(** ** Tables *)
Inductive ListingStatus := Active | Cancelled | Sold.
Inductive OfferStatus := Pending | Accepted | Withdrawn | Declined.
#[export] Instance ListingStatus_eq : EqDecision ListingStatus.
Proof. solve_decision. Defined.
#[export] Instance OfferStatus_eq : EqDecision OfferStatus.
Proof. solve_decision. Defined.

Record ResaleListingRow := mkListing {
  l_event_id : string; l_seller_wallet : string; l_price_stroops : Z; l_max_price_stroops : Z;
  l_royalty_bps : Z; l_status : ListingStatus; l_buyer_wallet : option string;
  l_listing_tx_hash : option string; l_sale_tx_hash : option string; l_sold_at : option Z;
  l_created_at : Z;
}.
#[export] Instance ResaleListingRow_eta : Eta ResaleListingRow := fun l =>
  mkListing (l_event_id l) (l_seller_wallet l) (l_price_stroops l) (l_max_price_stroops l) (l_royalty_bps l)
    (l_status l) (l_buyer_wallet l) (l_listing_tx_hash l) (l_sale_tx_hash l) (l_sold_at l) (l_created_at l).
Record ResaleOfferRow := mkOffer {
  o_buyer_public_key : string; o_offer_price_stroops : Z; o_status : OfferStatus;
}.
#[export] Instance ResaleOfferRow_eta : Eta ResaleOfferRow := fun o =>
  mkOffer (o_buyer_public_key o) (o_offer_price_stroops o) (o_status o).
Record KeyEnvelopeRow := mkEnvelope {
  e_ephemeral_public_key : string; e_nonce : string; e_ciphertext : string; e_claimed_at : option Z;
}.
#[export] Instance KeyEnvelopeRow_eta : Eta KeyEnvelopeRow := fun e =>
  mkEnvelope (e_ephemeral_public_key e) (e_nonce e) (e_ciphertext e) (e_claimed_at e).

(** Listings by payment, offers and envelopes by payment and buyer, devices by token. *)
Record Market := mkMarket {
  m_listings : gmap string ResaleListingRow;
  m_offers : gmap (string * string) ResaleOfferRow;
  m_envelopes : gmap (string * string) KeyEnvelopeRow;
  m_push : gmap string (string * string);
}.
#[export] Instance Market_eta : Eta Market := fun m =>
  mkMarket (m_listings m) (m_offers m) (m_envelopes m) (m_push m).

(** ** The view of a listing; [price * bps] saturates at 64 bits *)
Definition saturating_mul_i64 (a b : Z) : Z := Z.max (- 2 ^ 63) (Z.min (a * b) (2 ^ 63 - 1)).
Record ResaleListingView := mkView {
  v_listing : ResaleListingRow; v_royalty_stroops : Z; v_seller_proceeds_stroops : Z; v_headroom_stroops : Z;
}.
Definition view (l : ResaleListingRow) : ResaleListingView :=
  let royalty := Z.quot (saturating_mul_i64 (l_price_stroops l) (l_royalty_bps l)) MAX_BPS in
  mkView l royalty (l_price_stroops l - royalty) (l_max_price_stroops l - l_price_stroops l).

Class Encodings := { b64_len : string -> option nat; trim : string -> string }.

Section Handlers.
Context `{Encodings}.

Definition validate_b64_exact (value : string) (expected_len : nat) : Result AppError unit :=
  n ← ok_or (b64_len value) ValidationError; err_if (negb (n =? expected_len)%nat) ValidationError.
Definition validate_b64_max (value : string) (max_len : nat) : Result AppError unit :=
  n ← ok_or (b64_len value) ValidationError;
  err_if (n =? 0)%nat ValidationError;; err_if (max_len <? n)%nat ValidationError.
Definition validate_identifier (value : string) : Result AppError unit :=
  err_if (bool_decide (trim value = ""%string)) ValidationError;;
  err_if (128 <? String.length (trim value))%nat ValidationError.

Definition load_listing (payment_id : string) (m : Market) : Result AppError ResaleListingRow :=
  ok_or (m_listings m !! payment_id) NotFound.
Definition load_listing_as_seller (payment_id caller : string) (m : Market)
    : Result AppError ResaleListingRow :=
  l ← load_listing payment_id m;
  err_if (negb (bool_decide (l_seller_wallet l = caller))) Forbidden;;
  mret l.

(** An operation that changes nothing when it fails. *)
Definition transact {A} (m : Market) (r : Result AppError (A * Market)) : Result AppError A * Market :=
  match r with Ok (a, m) => (Ok a, m) | Err e => (Err e, m) end.

(** ** Listings *)
Record CreateListingRequest := mkCreate {
  cr_payment_id : string; cr_event_id : string; cr_price_stroops : Z; cr_max_price_stroops : Z;
  cr_royalty_bps : Z; cr_listing_tx_hash : option string;
}.
Definition validate_create_listing (p : CreateListingRequest) : Result AppError unit :=
  validate_identifier (cr_payment_id p);;
  validate_identifier (cr_event_id p);;
  err_if (cr_price_stroops p <=? 0) ValidationError;;
  err_if (cr_max_price_stroops p <=? 0) ValidationError;;
  err_if (cr_max_price_stroops p <? cr_price_stroops p) ValidationError;;
  err_if (negb ((0 <=? cr_royalty_bps p) && (cr_royalty_bps p <=? MAX_BPS))) ValidationError.

(** The insertion, or the update of the row with the same payment. *)
Definition upsert_listing (now : Z) (seller : string) (p : CreateListingRequest)
    (old : option ResaleListingRow) : ResaleListingRow :=
  mkListing (cr_event_id p) (from_option l_seller_wallet seller old) (cr_price_stroops p)
    (cr_max_price_stroops p) (cr_royalty_bps p) Active None (cr_listing_tx_hash p) None None
    (from_option l_created_at now old).

Definition create_listing (now : Z) (caller : Result AppError string) (p : CreateListingRequest)
    (m : Market) : Result AppError ResaleListingView * Market :=
  transact m (
    seller ← caller;
    validate_create_listing p;;
    err_if (match m_listings m !! cr_payment_id p with
            | Some l => negb (bool_decide (l_seller_wallet l = seller))
            | None => false
            end) Forbidden;;
    let l := upsert_listing now seller p (m_listings m !! cr_payment_id p) in
    mret (view l, m <| m_listings := <[cr_payment_id p := l]> (m_listings m) |>)).

(** The rows of the browse feed, before the order and the page. *)
Definition listing_matches (status : ListingStatus) (event_id seller : option string)
    (l : ResaleListingRow) : bool :=
  bool_decide (l_status l = status)
  && match event_id with Some e => bool_decide (l_event_id l = e) | None => true end
  && match seller with Some s => bool_decide (l_seller_wallet l = s) | None => true end.
Definition list_limit (limit : option Z) : Z := Z.max 1 (Z.min (default DEFAULT_LIMIT limit) MAX_LIMIT).
Definition list_offset (offset : option Z) : Z := Z.max (default 0 offset) 0.

Definition get_listing (payment_id : string) (m : Market) : Result AppError ResaleListingView :=
  l ← load_listing payment_id m; mret (view l).

(** The second statement, on the offers, may fail unnoticed. *)
Definition cancel_listing (caller : Result AppError string) (declined : bool) (payment_id : string)
    (m : Market) : Result AppError unit * Market :=
  transact m (
    seller ← caller;
    l ← load_listing_as_seller payment_id seller m;
    err_if (bool_decide (l_status l = Sold)) Conflict;;
    let m := m <| m_listings := <[payment_id := l <| l_status := Cancelled |>]> (m_listings m) |> in
    mret (tt, if declined then
      m <| m_offers := map_imap (fun k o => Some (if bool_decide (k.1 = payment_id) && bool_decide (o_status o = Pending)
                                          then o <| o_status := Declined |> else o)) (m_offers m) |>
    else m)).

(** ** Offers *)
Definition create_offer (caller : Result AppError string) (payment_id buyer_public_key : string)
    (offer_price_stroops : Z) (m : Market) : Result AppError unit * Market :=
  transact m (
    buyer ← caller;
    validate_b64_exact buyer_public_key X25519_PUBLIC_KEY_LEN;;
    err_if (offer_price_stroops <=? 0) ValidationError;;
    l ← load_listing payment_id m;
    err_if (negb (bool_decide (l_status l = Active))) Conflict;;
    err_if (bool_decide (l_seller_wallet l = buyer)) ValidationError;;
    err_if (offer_price_stroops <? l_price_stroops l) ValidationError;;
    err_if (l_max_price_stroops l <? offer_price_stroops) ValidationError;;
    mret (tt, m <| m_offers := <[(payment_id, buyer) :=
      mkOffer buyer_public_key offer_price_stroops Pending]> (m_offers m) |>)).

Definition list_offers (caller : Result AppError string) (payment_id : string) (m : Market)
    : Result AppError (gmap (string * string) ResaleOfferRow) :=
  seller ← caller;
  load_listing_as_seller payment_id seller m;;
  mret (filter (fun kv => kv.1.1 = payment_id) (m_offers m)).

(** ** Envelopes *)
Record CreateKeyEnvelopeRequest := mkSeal {
  ke_buyer_wallet : string; ke_ephemeral_public_key : string; ke_nonce : string; ke_ciphertext : string;
  ke_sale_tx_hash : option string;
}.
Definition validate_envelope (p : CreateKeyEnvelopeRequest) : Result AppError unit :=
  validate_identifier (ke_buyer_wallet p);;
  validate_b64_exact (ke_ephemeral_public_key p) X25519_PUBLIC_KEY_LEN;;
  validate_b64_exact (ke_nonce p) BOX_NONCE_LEN;;
  validate_b64_max (ke_ciphertext p) MAX_CIPHERTEXT_BYTES.

(** The transaction of a sale. *)
Definition settle (now : Z) (payment_id : string) (p : CreateKeyEnvelopeRequest) (m : Market) : Market :=
  let buyer := ke_buyer_wallet p in
  m <| m_envelopes := <[(payment_id, buyer) :=
         mkEnvelope (ke_ephemeral_public_key p) (ke_nonce p) (ke_ciphertext p) None]> (m_envelopes m) |>
    <| m_listings := alter (fun l => l <| l_status := Sold |> <| l_buyer_wallet := Some buyer |>
         <| l_sale_tx_hash := match ke_sale_tx_hash p with Some h => Some h | None => l_sale_tx_hash l end |>
         <| l_sold_at := Some now |>) payment_id (m_listings m) |>
    <| m_offers := map_imap (fun k o => Some (if bool_decide (k.1 = payment_id)
         then o <| o_status := if bool_decide (k.2 = buyer) then Accepted else Declined |> else o)) (m_offers m) |>.

Definition create_key_envelope (now : Z) (caller : Result AppError string) (payment_id : string)
    (p : CreateKeyEnvelopeRequest) (m : Market) : Result AppError unit * Market :=
  transact m (
    seller ← caller;
    validate_envelope p;;
    l ← load_listing_as_seller payment_id seller m;
    err_if (bool_decide (l_status l = Cancelled)) Conflict;;
    err_if (bool_decide (ke_buyer_wallet p = seller)) ValidationError;;
    err_if (negb (bool_decide (is_Some (m_offers m !! (payment_id, ke_buyer_wallet p))))) ValidationError;;
    mret (tt, settle now payment_id p m)).

Definition get_key_envelope (now : Z) (caller : Result AppError string) (payment_id : string) (m : Market)
    : Result AppError KeyEnvelopeRow * Market :=
  transact m (
    buyer ← caller;
    e ← ok_or (m_envelopes m !! (payment_id, buyer)) NotFound;
    let e := e <| e_claimed_at := Some (default now (e_claimed_at e)) |> in
    mret (e, m <| m_envelopes := <[(payment_id, buyer) := e]> (m_envelopes m) |>)).

(** ** Devices *)
Definition register_push_token (caller : Result AppError string) (token platform : string) (m : Market)
    : Result AppError string * Market :=
  transact m (
    wallet ← caller;
    validate_identifier token;;
    err_if (negb (bool_decide (platform ∈ ["ios"; "android"; "web"]%string))) ValidationError;;
    mret (wallet, m <| m_push := <[trim token := (wallet, platform)]> (m_push m) |>)).

(** The devices that [notify_ticket_sold] writes to. *)
Definition devices_of (wallet : string) (m : Market) : list string :=
  (filter (fun kv => kv.2.1 = wallet) (map_to_list (m_push m))).*1.
End Handlers.

(** ** The invariant of the market *)
Definition sold_ok (p : string) (l : ResaleListingRow) (m : Market) : Prop :=
  exists b, l_buyer_wallet l = Some b /\ is_Some (l_sold_at l) /\ is_Some (m_envelopes m !! (p, b))
    /\ (exists o, m_offers m !! (p, b) = Some o /\ o_status o = Accepted)
    /\ forall b' o', m_offers m !! (p, b') = Some o' -> b' <> b -> o_status o' = Declined.

Record market_ok (m : Market) : Prop := {
  ok_price p l : m_listings m !! p = Some l ->
    0 < l_price_stroops l <= l_max_price_stroops l /\ 0 <= l_royalty_bps l <= MAX_BPS;
  ok_sold p l : m_listings m !! p = Some l -> l_status l = Sold -> sold_ok p l m;
  ok_unsold p l : m_listings m !! p = Some l -> l_status l <> Sold -> l_buyer_wallet l = None;
  ok_offer p b o : m_offers m !! (p, b) = Some o ->
    exists l, m_listings m !! p = Some l /\ l_seller_wallet l <> b;
  ok_envelope p b : is_Some (m_envelopes m !! (p, b)) -> is_Some (m_offers m !! (p, b));
}.

Section Invariant.
Context `{Encodings}.

Inductive MarketCall :=
  | MCreate (now : Z) (caller : Result AppError string) (p : CreateListingRequest)
  | MCancel (caller : Result AppError string) (declined : bool) (payment_id : string)
  | MOffer (caller : Result AppError string) (payment_id key : string) (price : Z)
  | MSeal (now : Z) (caller : Result AppError string) (payment_id : string) (p : CreateKeyEnvelopeRequest)
  | MClaim (now : Z) (caller : Result AppError string) (payment_id : string)
  | MPush (caller : Result AppError string) (token platform : string).

Definition call_market (c : MarketCall) (m : Market) : Market :=
  match c with
  | MCreate now a p => (create_listing now a p m).2
  | MCancel a d p => (cancel_listing a d p m).2
  | MOffer a p k price => (create_offer a p k price m).2
  | MSeal now a p e => (create_key_envelope now a p e m).2
  | MClaim now a p => (get_key_envelope now a p m).2
  | MPush a t f => (register_push_token a t f m).2
  end.
Definition run_market (cs : list MarketCall) (m : Market) : Market := foldl (fun m c => call_market c m) m cs.
Definition no_market : Market := mkMarket ∅ ∅ ∅ ∅.

Lemma transact_ok {A} (P : Market -> Prop) m (r : Result AppError (A * Market)) :
  P m -> (forall a m', r = Ok (a, m') -> P m') -> P (transact m r).2.
Proof. intros Hm Hr. destruct r as [[a m']|e]; cbn; [by eapply Hr|done]. Qed.

Lemma seller_Ok p caller m l :
  load_listing_as_seller p caller m = Ok l -> m_listings m !! p = Some l /\ l_seller_wallet l = caller.
Proof.
  unfold load_listing_as_seller, load_listing. intros Hl. oks. subst. split; [done|].
  match goal with Hb : negb (bool_decide _) = false |- _ => apply negb_false_iff, bool_decide_eq_true in Hb; done end.
Qed.

Lemma create_ok now a p m : market_ok m -> market_ok (create_listing now a p m).2.
Proof.
  intros Hm. apply (transact_ok market_ok m); [done|]. intros v m' Hr. apply bind_Ok in Hr as (seller & -> & Hr).
  apply bind_Ok in Hr as ([] & Hv & Hr). apply bind_Ok in Hr as ([] & Hf%err_if_Ok & Hr). apply Ok_eq in Hr.
  simplify_eq/=. unfold validate_create_listing in Hv. oks.
  set (l := upsert_listing _ _ _ _). assert (forall x, m_listings m !! cr_payment_id p = Some x ->
    l_seller_wallet l = l_seller_wallet x) as Hsame by (intros y Hy; unfold l; by rewrite Hy).
  destruct Hm as [P1 P2 P3 P4 P5]. split; cbn; intros q; intros.
  - rewrite lookup_insert_Some in *. destruct_or!; destruct_and!; simplify_eq; first [by eauto|cbn; unfold MAX_BPS in *; lia].
  - rewrite lookup_insert_Some in *. destruct_or!; destruct_and!; simplify_eq; first [done|by apply P2].
  - rewrite lookup_insert_Some in *. destruct_or!; destruct_and!; simplify_eq; first [done|eauto].
  - destruct (P4 _ _ _ ltac:(eassumption)) as (y & Hy & Hne). destruct (decide (q = cr_payment_id p)) as [->|].
    + rewrite lookup_insert_eq. exists l. split; [done|]. by rewrite (Hsame y Hy).
    + rewrite lookup_insert_ne by done. eauto.
  - by apply P5.
Qed.

(** The statements on all offers of a payment. *)
Definition set_status (p : string) (f : string -> OfferStatus -> OfferStatus) (offers : gmap (string * string) ResaleOfferRow)
    : gmap (string * string) ResaleOfferRow :=
  map_imap (fun k o => Some (if bool_decide (k.1 = p) then o <| o_status := f k.2 (o_status o) |> else o)) offers.

Lemma set_status_lookup p f offers q b :
  set_status p f offers !! (q, b)
  = (fun o => if bool_decide (q = p) then o <| o_status := f b (o_status o) |> else o) <$> (offers !! (q, b)).
Proof. unfold set_status. rewrite map_lookup_imap. by destruct (offers !! (q, b)). Qed.

Lemma decline_set_status p offers :
  map_imap (fun k o => Some (if bool_decide (k.1 = p) && bool_decide (o_status o = Pending)
                             then o <| o_status := Declined |> else o)) offers
  = set_status p (fun _ s => if bool_decide (s = Pending) then Declined else s) offers.
Proof.
  apply map_eq. intros [q b]. unfold set_status. rewrite !map_lookup_imap.
  destruct (offers !! (q, b)) as [[k pr s]|]; cbn; [|done]. f_equal.
  case_bool_decide; [|done]. cbn. by case_bool_decide.
Qed.

Lemma cancel_ok a d p m : market_ok m -> market_ok (cancel_listing a d p m).2.
Proof.
  intros Hm. apply (transact_ok market_ok m); [done|]. intros v m' Hr. apply bind_Ok in Hr as (seller & -> & Hr).
  apply bind_Ok in Hr as (l & [Hl Hsel]%seller_Ok & Hr). apply bind_Ok in Hr as ([] & Hns%err_if_Ok & Hr).
  apply bool_decide_eq_false in Hns. apply Ok_eq in Hr. injection Hr as _ <-. rewrite decline_set_status.
  destruct Hm as [P1 P2 P3 P4 P5].
  assert (market_ok (m <| m_listings := <[p := l <| l_status := Cancelled |>]> (m_listings m) |>)) as Hm1.
  { split; cbn; intros q; intros.
    - rewrite lookup_insert_Some in *. destruct_or!; destruct_and!; simplify_eq; first [by eauto|by apply (P1 q l)].
    - rewrite lookup_insert_Some in *. destruct_or!; destruct_and!; simplify_eq; first [done|by apply P2].
    - rewrite lookup_insert_Some in *. destruct_or!; destruct_and!; simplify_eq; first [by eauto|by apply (P3 q l)].
    - destruct (P4 _ _ _ ltac:(eassumption)) as (x & Hx & Hne). destruct (decide (q = p)) as [->|].
      + rewrite lookup_insert_eq. simplify_eq. by eexists.
      + rewrite lookup_insert_ne by done. eauto.
    - by apply P5. }
  destruct d; [|done]. clear P1 P2 P3 P4 P5. destruct Hm1 as [P1 P2 P3 P4 P5]. split; cbn -[set_status]; intros q; intros.
  - eauto.
  - assert (q <> p) as Hqp.
    { intros ->. rewrite lookup_insert_eq in *. by simplify_eq. }
    destruct (P2 q l0 ltac:(done) ltac:(done)) as (b & Hb1 & Hb2 & Hb3 & (o & Ho & Hos) & Hb5).
    exists b. cbn -[set_status] in *. split_and!; try done.
    + exists o. rewrite set_status_lookup, Ho, bool_decide_false by done. done.
    + intros b' o'. rewrite set_status_lookup, bool_decide_false by done. rewrite option_fmap_id. apply Hb5.
  - eauto.
  - rewrite set_status_lookup in *. destruct (m_offers m !! (q, b)) eqn:Ho; [|done]. by apply (P4 q b r).
  - rewrite set_status_lookup, fmap_is_Some. by apply P5.
Qed.

Lemma offer_ok a p k price m : market_ok m -> market_ok (create_offer a p k price m).2.
Proof.
  intros Hm. apply (transact_ok market_ok m); [done|]. intros v m' Hr.
  apply bind_Ok in Hr as (buyer & -> & Hr). apply bind_Ok in Hr as ([] & _ & Hr).
  apply bind_Ok in Hr as ([] & _ & Hr). apply bind_Ok in Hr as (l & Hl%ok_or_Ok & Hr).
  apply bind_Ok in Hr as ([] & Hact%err_if_Ok & Hr). apply bind_Ok in Hr as ([] & Hself%err_if_Ok & Hr). oks.
  apply negb_false_iff, bool_decide_eq_true in Hact. apply bool_decide_eq_false in Hself. injection Hr as _ <-.
  destruct Hm as [P1 P2 P3 P4 P5]. split; cbn; intros q; intros; eauto.
  - assert (q <> p) as Hqp by (intros ->; simplify_eq; congruence).
    destruct (P2 q l0 ltac:(done) ltac:(done)) as (b & Hb1 & Hb2 & Hb3 & (o & Ho & Hos) & Hb5).
    exists b. cbn. split_and!; try done.
    + exists o. by rewrite lookup_insert_ne by congruence.
    + intros b' o'. rewrite lookup_insert_ne by congruence. apply Hb5.
  - rewrite lookup_insert_Some in *. destruct_or!; destruct_and!; simplify_eq; eauto.
  - destruct (decide ((p, buyer) = (q, b))) as [->|]; [rewrite lookup_insert_eq; eauto|].
    rewrite lookup_insert_ne by done. by apply P5.
Qed.

Lemma settle_ok now p e m l :
  m_listings m !! p = Some l -> ke_buyer_wallet e <> l_seller_wallet l ->
  is_Some (m_offers m !! (p, ke_buyer_wallet e)) -> market_ok m -> market_ok (settle now p e m).
Proof.
  intros Hl Hne [o Ho] [P1 P2 P3 P4 P5]. set (b := ke_buyer_wallet e) in *.
  assert (m_offers (settle now p e m)
    = set_status p (fun c _ => if bool_decide (c = b) then Accepted else Declined) (m_offers m)) as Hoff by done.
  assert (forall q x, m_listings (settle now p e m) !! q = Some x ->
    exists y, m_listings m !! q = Some y /\ l_seller_wallet x = l_seller_wallet y
      /\ l_price_stroops x = l_price_stroops y /\ l_max_price_stroops x = l_max_price_stroops y
      /\ l_royalty_bps x = l_royalty_bps y
      /\ (q = p -> l_status x = Sold /\ l_buyer_wallet x = Some b /\ is_Some (l_sold_at x)) /\ (q <> p -> x = y)) as Hlist.
  { intros q x. cbn. rewrite lookup_alter_Some. intros [(<- & y & Hy & ->)|[Hqp Hx]].
    - exists y. cbn. by split_and!.
    - exists x. by split_and!. }
  split; intros q; intros.
  - destruct (Hlist q l0 ltac:(done)) as (y & Hy & _ & -> & -> & -> & _). by apply (P1 q).
  - destruct (Hlist q l0 ltac:(done)) as (y & Hy & _ & _ & _ & _ & Hp & Hq). destruct (decide (q = p)) as [->|Hqp].
    + destruct (Hp eq_refl) as (_ & Hb & Hs). exists b. split_and!; try done.
      * cbn. rewrite lookup_insert_eq. by eexists.
      * rewrite Hoff, set_status_lookup, Ho, bool_decide_true by done. eexists. split; [done|]. cbn.
        by rewrite bool_decide_true.
      * intros b' o'. rewrite Hoff, set_status_lookup, bool_decide_true by done.
        destruct (m_offers m !! (p, b')); [|done]. intros [= <-] Hb'. cbn. by rewrite bool_decide_false.
    + rewrite (Hq Hqp) in *. destruct (P2 q y Hy ltac:(done)) as (c & Hc1 & Hc2 & Hc3 & (x & Hx & Hxs) & Hc5).
      exists c. rewrite Hoff. setoid_rewrite set_status_lookup. rewrite bool_decide_false by done.
      split_and!; try done.
      * cbn. rewrite lookup_insert_ne by congruence. done.
      * exists x. by rewrite Hx.
      * intros b' o'. rewrite option_fmap_id. apply Hc5.
  - destruct (Hlist q l0 ltac:(done)) as (y & Hy & _ & _ & _ & _ & Hp & Hq). destruct (decide (q = p)) as [->|Hqp].
    + by destruct (Hp eq_refl) as (? & _).
    + rewrite (Hq Hqp) in *. eauto.
  - rewrite Hoff, set_status_lookup in *. destruct (m_offers m !! (q, b0)) as [x|] eqn:Hx; [|done].
    destruct (P4 q b0 x Hx) as (y & Hy & Hs). cbn. destruct (decide (p = q)) as [->|].
    + rewrite lookup_alter_eq, Hy. by eexists.
    + rewrite lookup_alter_ne by done. eauto.
  - rewrite Hoff, set_status_lookup, fmap_is_Some. cbn in *.
    destruct (decide ((p, b) = (q, b0))) as [[= <- <-]|Hpb]; [rewrite Ho; by eexists|].
    rewrite lookup_insert_ne in * by done. by apply P5.
Qed.

Lemma seal_ok now a p e m : market_ok m -> market_ok (create_key_envelope now a p e m).2.
Proof.
  intros Hm. apply (transact_ok market_ok m); [done|]. intros v m' Hr.
  apply bind_Ok in Hr as (seller & -> & Hr). apply bind_Ok in Hr as ([] & _ & Hr).
  apply bind_Ok in Hr as (l & [Hl Hsel]%seller_Ok & Hr). apply bind_Ok in Hr as ([] & _ & Hr).
  apply bind_Ok in Hr as ([] & Hne%err_if_Ok & Hr). apply bind_Ok in Hr as ([] & Ho%err_if_Ok & Hr).
  apply bool_decide_eq_false in Hne. apply negb_false_iff, bool_decide_eq_true in Ho.
  apply Ok_eq in Hr. injection Hr as _ <-. apply (settle_ok now p e m l); try done. by rewrite Hsel.
Qed.

Lemma claim_ok now a p m : market_ok m -> market_ok (get_key_envelope now a p m).2.
Proof.
  intros Hm. apply (transact_ok market_ok m); [done|]. intros v m' Hr.
  apply bind_Ok in Hr as (buyer & -> & Hr). apply bind_Ok in Hr as (x & Hx%ok_or_Ok & Hr). apply Ok_eq in Hr.
  injection Hr as _ <-. destruct Hm as [P1 P2 P3 P4 P5].
  assert (forall k y, is_Some (<[(p, buyer) := y]> (m_envelopes m) !! k) <-> is_Some (m_envelopes m !! k)) as Hsame.
  { intros k y. rewrite lookup_insert_is_Some. destruct (decide ((p, buyer) = k)) as [<-|]; [rewrite Hx|]; naive_solver. }
  split; cbn; intros q; intros; eauto.
  - destruct (P2 q l ltac:(done) ltac:(done)) as (b & Hb1 & Hb2 & Hb3 & Hb4 & Hb5).
    exists b. cbn. split_and!; try done. by apply Hsame.
  - rewrite Hsame in *. by apply P5.
Qed.

Lemma call_ok c m : market_ok m -> market_ok (call_market c m).
Proof.
  intros Hm. destruct c; cbn; auto using create_ok, cancel_ok, offer_ok, seal_ok, claim_ok.
  apply (transact_ok market_ok m); [done|]. intros v m' Hr. oks. simplify_eq. by destruct Hm.
Qed.


(** What the seller seals is what the buyer, and nobody else, is given: after a
    successful upload the buyer's request returns the three sealed fields unchanged,
    and every other wallet gets what it would have got before. *)
Theorem envelope_delivered now a p e m m' now' :
  create_key_envelope now a p e m = (Ok tt, m') ->
  (exists r, (get_key_envelope now' (Ok (ke_buyer_wallet e)) p m').1 = Ok r
     /\ e_ephemeral_public_key r = ke_ephemeral_public_key e /\ e_nonce r = ke_nonce e
     /\ e_ciphertext r = ke_ciphertext e)
  /\ forall c q, (q, c) <> (p, ke_buyer_wallet e) ->
       (get_key_envelope now' (Ok c) q m').1 = (get_key_envelope now' (Ok c) q m).1.
Proof.
  unfold create_key_envelope, transact. intros Hc. repeat case_match; simplify_eq.
  match goal with Hr : _ ≫= _ = Ok _ |- _ => oks; simplify_eq end. split.
  - unfold get_key_envelope. cbn. rewrite lookup_insert_eq. cbn. by eexists.
  - intros c q Hne. unfold get_key_envelope. cbn. rewrite lookup_insert_ne by done.
    by destruct (m_envelopes m !! (q, c)).
Qed.

(** ** The royalty *)

(** The royalty that a listing shows is the royalty that the contract computes,
    and royalty and proceeds add up to the price, as long as the product fits in 64
    bits. *)
Theorem shown_royalty_settles l :
  0 < l_price_stroops l -> 0 <= l_royalty_bps l <= MAX_BPS -> l_price_stroops l * l_royalty_bps l < 2 ^ 63 ->
  PaymentSale.mul_div (l_price_stroops l) (l_royalty_bps l) MAX_BPS = Some (v_royalty_stroops (view l))
  /\ 0 <= v_royalty_stroops (view l) <= l_price_stroops l
  /\ v_royalty_stroops (view l) + v_seller_proceeds_stroops (view l) = l_price_stroops l.
Proof.
  unfold MAX_BPS. intros Hp Hb Hfit. cbn [v_royalty_stroops v_seller_proceeds_stroops view].
  unfold saturating_mul_i64, MAX_BPS. rewrite Z.min_l, Z.max_r by nia.
  set (x := l_price_stroops l * l_royalty_bps l) in *. assert (0 <= x) by nia.
  rewrite Z.quot_div_nonneg by lia.
  assert (0 <= x / 10000 <= l_price_stroops l) as Hr.
  { split; [apply Z.div_pos; lia|]. apply Z.div_le_upper_bound; [lia|]. unfold x. nia. }
  split; [|lia]. unfold PaymentSale.mul_div, checked_mul. fold x. rewrite checked_in by (cbn; lia). cbn [mbind option_bind].
  unfold checked_div. cbn -[Z.quot checked]. rewrite Z.quot_div_nonneg by lia. apply checked_in. cbn. split; [lia|].
  transitivity x; [apply Z.div_le_upper_bound; lia|lia].
Qed.

(** ** A sold ticket on the market *)

(** The seller of a sold listing can list it again, and its buyer cannot list it. *)
Theorem sold_ticket_relisted now p m l :
  m_listings m !! cr_payment_id p = Some l -> l_status l = Sold ->
  validate_create_listing p = Ok tt ->
  (exists l', m_listings (create_listing now (Ok (l_seller_wallet l)) p m).2 !! cr_payment_id p = Some l'
     /\ l_status l' = Active)
  /\ forall buyer, buyer <> l_seller_wallet l ->
       create_listing now (Ok buyer) p m = (Err Forbidden, m).
Proof.
  intros Hl Hs Hv. unfold create_listing. split.
  - cbn -[validate_create_listing upsert_listing]. rewrite Hv. cbn -[upsert_listing].
    rewrite Hl. cbn -[upsert_listing]. rewrite bool_decide_true by done. cbn. rewrite lookup_insert_eq. by eexists.
  - intros buyer Hb. cbn -[validate_create_listing upsert_listing]. rewrite Hv. cbn -[upsert_listing].
    rewrite Hl. cbn -[upsert_listing]. by rewrite bool_decide_false.
Qed.
End Invariant.

(** ** Concrete values *)
Module MarketSample.
(** Texts decode to as many bytes as they have characters. *)
#[local] Instance encodings : Encodings := {| b64_len s := Some (String.length s); trim s := s |}.

Definition key32 : string := "01234567890123456789012345678901".
Definition nonce24 : string := "012345678901234567890123".
Definition listing : CreateListingRequest := mkCreate "p1" "e1" 1000 1200 500 None.
Definition sealed : CreateKeyEnvelopeRequest := mkSeal "GB" key32 nonce24 "c" None.
Definition offered : Market :=
  run_market [MCreate 1 (Ok "GA"%string) listing; MOffer (Ok "GB"%string) "p1" key32 1100] no_market.
Definition settled : Market := call_market (MSeal 2 (Ok "GA"%string) "p1" sealed) offered.

Lemma envelope_delivered_witness :
  exists r, (get_key_envelope 3 (Ok "GB"%string) "p1" settled).1 = Ok r /\ e_ciphertext r = "c"%string.
Proof.
  destruct (envelope_delivered 2 (Ok "GA"%string) "p1" sealed offered settled 3) as [(r & Hr & _ & _ & Hc) _].
  - by vm_compute.
  - exists r. split; [exact Hr|exact Hc].
Defined.

Lemma shown_royalty_settles_witness :
  PaymentSale.mul_div 1000 500 MAX_BPS
  = Some (v_royalty_stroops (view (mkListing "e1" "GA" 1000 1200 500 Active None None None None 1))).
Proof.
  apply (shown_royalty_settles (mkListing "e1" "GA" 1000 1200 500 Active None None None None 1));
    cbn; unfold MAX_BPS; lia.
Defined.

(** The sale, and the same seller lists the ticket again. *)
Example sold_and_listed_again :
  l_status <$> m_listings settled !! "p1"%string = Some Sold
  /\ l_status <$> m_listings (call_market (MCreate 4 (Ok "GA"%string) listing) settled) !! "p1"%string
     = Some Active
  /\ (create_listing 4 (Ok "GB"%string) listing settled).1 = Err Forbidden.
Proof. by vm_compute. Qed.

(** Beyond 64 bits the shown royalty is too low. *)
Example royalty_saturates :
  v_royalty_stroops (view (mkListing "e1" "GA" (10 ^ 16) (10 ^ 16) 5000 Active None None None None 1))
  = 922337203685477
  /\ PaymentSale.mul_div (10 ^ 16) 5000 MAX_BPS = Some (5 * 10 ^ 15).
Proof. by vm_compute. Qed.
End MarketSample.
