(* ===== verification/EventListing.v ===== *)
(** * Server: event listings and their cursors

    [utils/cursor_pagination.rs], [models/event.rs] and, of [handlers/events.rs], the
    listing of upcoming events ([list_events], with its filters, sort orders, cursor
    and cache), of past events ([list_past_events]) and of attendees
    ([list_event_attendees]).  A statement is a list of conditions with the numbers of
    their placeholders; the database refuses it when a name does not resolve or when
    the bound values do not fit the placeholders.  UUIDs are numbers in the order in
    which the database compares them, instants are numbers, prices are cents, the exact
    content of a [DECIMAL(10, 2)] column, and coordinates are rationals, as finite
    floating-point numbers are.  Serialisation, base64, [trim] and the parsing of dates
    are interfaces. *)

From stdpp Require Import base tactics numbers list strings gmap sorting.
From Stdlib Require Import QArith_base.
From S2P Require Import Prelude.
From S2P Require Import ServerPrelude.
From S2P Require Import TicketQr.
Open Scope Z_scope.

Abbreviation Uuid := Z (only parsing).

(** ** Cursors *)
Module cursor_pagination.
Definition DEFAULT_PAGE_SIZE : Z := 20.
Definition MAX_PAGE_SIZE : Z := 100.

Record CursorParams := mkCursorParams { cp_limit : Z; cp_cursor : option string; cp_count : bool }.
Record ValidatedCursorParams := mkValidated {
  vc_limit : Z; vc_cursor : option string; vc_include_count : bool;
}.
Definition validate (p : CursorParams) : ValidatedCursorParams :=
  mkValidated (Z.max 1 (Z.min (cp_limit p) MAX_PAGE_SIZE)) (cp_cursor p) (cp_count p).
Definition query_limit (v : ValidatedCursorParams) : Z := vc_limit v + 1.
Definition page_size (v : ValidatedCursorParams) : nat := Z.to_nat (vc_limit v).

Record CursorMeta := mkCursorMeta {
  cm_page_size : Z; cm_has_more : bool; cm_next_cursor : option string;
}.
Record CursorResponse (A : Type) := mkResponse {
  cr_items : list A; cr_pagination : CursorMeta; cr_meta : ListMeta;
}.
Arguments mkResponse {A}. Arguments cr_items {A}. Arguments cr_pagination {A}. Arguments cr_meta {A}.

Definition new {A} (items : list A) (params : ValidatedCursorParams) (next_cursor : option string)
    : CursorResponse A :=
  let has_more := bool_decide (is_Some next_cursor) in
  mkResponse items (mkCursorMeta (Z.of_nat (length items)) has_more next_cursor)
    (mkListMeta None (vc_limit params) has_more).

Definition with_total {A} (total : Z) (include_count : bool) (r : CursorResponse A) : CursorResponse A :=
  if include_count
  then mkResponse (cr_items r) (cr_pagination r)
         (mkListMeta (Some total) (lm_page_size (cr_meta r)) (lm_has_more (cr_meta r)))
  else r.

(** JSON of a type of cursors, and base64. *)
Class Json (C : Type) := { to_string : C -> option string; from_str : string -> option C }.
Class Base64 := {
  b64_encode : string -> string;
  b64_decode : string -> option string;
  is_utf8 : string -> bool;
}.
Class CursorLaws (C : Type) `{Json C} `{Base64} := {
  b64_round s : b64_decode (b64_encode s) = Some s;
  json_round c s : to_string c = Some s -> is_utf8 s = true /\ from_str s = Some c;
}.

Inductive CursorError := Decode | InvalidUtf8 | Deserialize.

Section Codec.
Context {C : Type} `{Json C} `{Base64}.

Definition encode_cursor (c : C) : option string := b64_encode <$> to_string c.
Definition decode_cursor (s : string) : Result CursorError C :=
  bytes ← ok_or (b64_decode s) Decode;
  err_if (negb (is_utf8 bytes)) InvalidUtf8;;
  ok_or (from_str bytes) Deserialize.

Lemma decode_encode `{!CursorLaws C} c t : encode_cursor c = Some t -> decode_cursor t = Ok c.
Proof.
  unfold encode_cursor, decode_cursor. intros (s & Hs & ->)%fmap_Some.
  apply json_round in Hs as [Hu Hf]. rewrite b64_round. cbn. by rewrite Hu, Hf.
Qed.

(** What every listing does with the rows it fetched, one more than it returns: the
    extra row becomes the cursor. *)
Definition split_page {Row} (size : nat) (cursor_of : Row -> option C) (rows : list Row)
    : Result AppError (list Row * option string) :=
  if (size <? length rows)%nat then
    match last rows with
    | Some r => t ← ok_or (cursor_of r ≫= encode_cursor) InternalServerError;
                Ok (take (length rows - 1) rows, Some t)
    | None => Ok (rows, None)
    end
  else Ok (rows, None).
End Codec.

Definition decode_opt {C} `{Json C} `{Base64} (c : option string) : Result AppError (option C) :=
  match c with
  | None => Ok None
  | Some s => c ← map_err (fun _ : CursorError => ValidationError) (decode_cursor s); Ok (Some c)
  end.
End cursor_pagination.
Import cursor_pagination.

(** ** Events and the tables *)
Record Event := mkEvent {
  e_id : Uuid; e_organizer_id : Uuid; e_title : string; e_description : option string;
  e_location : string; e_start_time : Z; e_end_time : option Z; e_is_flagged : bool;
  e_is_featured : bool; e_sum_of_ratings : Z; e_count_of_ratings : Z; e_created_at : Z;
  e_updated_at : Z; e_total_tickets : Z; e_minted_tickets : Z; e_image_url : option string;
  e_latitude : option Q; e_longitude : option Q; e_is_free : bool; e_is_free_populated : bool;
  e_min_ticket_price : Z;
}.
#[export] Instance Event_eta : Eta Event := fun e =>
  mkEvent (e_id e) (e_organizer_id e) (e_title e) (e_description e) (e_location e) (e_start_time e)
    (e_end_time e) (e_is_flagged e) (e_is_featured e) (e_sum_of_ratings e) (e_count_of_ratings e)
    (e_created_at e) (e_updated_at e) (e_total_tickets e) (e_minted_tickets e) (e_image_url e)
    (e_latitude e) (e_longitude e) (e_is_free e) (e_is_free_populated e) (e_min_ticket_price e).

Record Tier := mkTier {
  tt_event : Uuid; tt_name : string; tt_price : Z; tt_total : Z; tt_available : Z;
}.
Record Attendee := mkAttendee {
  at_id : Uuid; at_owner_wallet : option string; at_buyer_wallet : option string;
  at_quantity : Z; at_created_at : Z;
}.
(** The tables: events and tiers by id, the wallets of organizers, and the tickets,
    each with its tier. *)
Record EventDb := mkEventDb {
  db_events : gmap Uuid Event; db_tiers : gmap Uuid Tier;
  db_organizers : gmap Uuid (option string); db_attendees : gmap Uuid (Uuid * Attendee);
}.
#[export] Instance EventDb_eta : Eta EventDb := fun d =>
  mkEventDb (db_events d) (db_tiers d) (db_organizers d) (db_attendees d).

Definition tiers_of (db : EventDb) (id : Uuid) : list Tier :=
  filter (fun t => tt_event t = id) (map_to_list (db_tiers db)).*2.
(** [MIN_TICKET_PRICE_SQL]. *)
Definition min_ticket_price (db : EventDb) (id : Uuid) : Z :=
  match tt_price <$> tiers_of db id with
  | [] => 0
  | p :: ps => foldr Z.min p ps
  end.

(** [populate_is_free], for one event of the batch. *)
Definition populate_is_free (db : EventDb) (e : Event) : Event :=
  e <| e_is_free := negb (existsb (fun t => 0 <? tt_price t) (tiers_of db (e_id e))) |>
    <| e_is_free_populated := true |>.

(** ** Filters and sort orders *)
Inductive EventSortBy := StartTime | CreatedAt | Popularity | CountOfRatings | Price.
Inductive SortOrder := Asc | Desc.
#[export] Instance EventSortBy_eq : EqDecision EventSortBy.
Proof. solve_decision. Defined.

Record ValidatedEventSort := mkSort { vs_by : EventSortBy; vs_order : SortOrder }.

Definition parse_sort_by (value : string) : Result AppError EventSortBy :=
  if bool_decide (value = "start_time"%string) then Ok StartTime
  else if bool_decide (value = "created_at"%string) then Ok CreatedAt
  else if bool_decide (value = "popularity"%string) then Ok Popularity
  else if bool_decide (value = "count_of_ratings"%string) then Ok CountOfRatings
  else Err ValidationError.
Definition parse_sort_order (value : string) : Result AppError SortOrder :=
  if bool_decide (value = "asc"%string) then Ok Asc
  else if bool_decide (value = "desc"%string) then Ok Desc
  else Err ValidationError.
Definition parse_sort_param (sort : string) : Result AppError ValidatedEventSort :=
  if bool_decide (sort = "starts_at_asc"%string) then Ok (mkSort StartTime Asc)
  else if bool_decide (sort = "starts_at_desc"%string) then Ok (mkSort StartTime Desc)
  else if bool_decide (sort = "price_asc"%string) then Ok (mkSort Price Asc)
  else if bool_decide (sort = "price_desc"%string) then Ok (mkSort Price Desc)
  else if bool_decide (sort = "popularity_desc"%string) then Ok (mkSort Popularity Desc)
  else if bool_decide (sort = "newest"%string) then Ok (mkSort StartTime Desc)
  else if bool_decide (sort = "popular"%string) then Ok (mkSort CountOfRatings Desc)
  else Err ValidationError.

Record EventFilters := mkFilters {
  f_organizer_id : option Uuid; f_organizer_wallet : option string; f_location : option string;
  f_start_after : option Z; f_start_before : option Z; f_search : option string;
  f_min_tickets_available : option Z; f_is_free : option bool; f_start_date : option string;
  f_end_date : option string; f_is_featured : option bool; f_followers_only : option bool;
  f_sort_by : option string; f_sort_order : option string; f_sort : option string;
}.
#[export] Instance EventFilters_eta : Eta EventFilters := fun f =>
  mkFilters (f_organizer_id f) (f_organizer_wallet f) (f_location f) (f_start_after f) (f_start_before f)
    (f_search f) (f_min_tickets_available f) (f_is_free f) (f_start_date f) (f_end_date f)
    (f_is_featured f) (f_followers_only f) (f_sort_by f) (f_sort_order f) (f_sort f).

Definition is_none {A} (o : option A) : bool := match o with None => true | Some _ => false end.
Definition is_unfiltered (f : EventFilters) : bool :=
  is_none (f_organizer_id f) && is_none (f_organizer_wallet f) && is_none (f_location f)
  && is_none (f_start_after f) && is_none (f_start_before f) && is_none (f_search f)
  && is_none (f_min_tickets_available f) && is_none (f_is_free f) && is_none (f_start_date f)
  && is_none (f_end_date f) && is_none (f_is_featured f) && is_none (f_followers_only f)
  && is_none (f_sort_by f) && is_none (f_sort_order f) && is_none (f_sort f).

Definition validate_sort (f : EventFilters) : Result AppError ValidatedEventSort :=
  match f_sort f with
  | Some sort => parse_sort_param sort
  | None =>
      sort_by ← match f_sort_by f with Some v => parse_sort_by v | None => Ok StartTime end;
      sort_order ← match f_sort_order f with Some v => parse_sort_order v | None => Ok Asc end;
      Ok (mkSort sort_by sort_order)
  end.

Record EventCursor := mkEventCursor {
  ec_start_time : Z; ec_id : Uuid; ec_created_at : option Z; ec_minted_tickets : option Z;
  ec_count_of_ratings : option Z; ec_min_ticket_price : option Z;
}.
Record PastEventCursor := mkPastCursor { pc_end_time : Z; pc_id : Uuid }.
Record AttendeeCursor := mkAttendeeCursor { ac_created_at : Z; ac_id : Uuid }.

(** ** Statements *)
Inductive Clause :=
  | EndsAfterNow
  | NotFlagged
  | OrganizerIs (n : nat)                  (* e.organizer_id = $n *)
  | LocationLike (n : nat)                 (* e.location ILIKE $n *)
  | StartsFrom (alias : bool) (n : nat)    (* [e.]start_time >= $n *)
  | StartsUntil (alias : bool) (n : nat)   (* [e.]start_time <= $n *)
  | TextLike (n : nat)                     (* e.title ILIKE $n OR e.description ILIKE $n *)
  | TicketsLeft (n : nat)
  | FollowersOnly
  | FeaturedIs (b : bool)
  | AfterCursor (by_ : EventSortBy) (key_op id_op : SortOrder) (key_param id_param : nat).

Inductive Param := PTime (t : Z) | PInt (n : Z) | PPrice (n : Z) | PUuid (u : Uuid) | PText (s : string).

Definition push_if (b : bool) (c : nat -> Clause) (w : list Clause * nat) : list Clause * nat :=
  if b then (w.1 ++ [c (S w.2)], S w.2) else w.
Definition push (b : bool) (c : Clause) (w : list Clause * nat) : list Clause * nat :=
  if b then (w.1 ++ [c], w.2) else w.
Definition is_some {A} (o : option A) : bool := negb (is_none o).

Definition build_event_where_clause (f : EventFilters) (sort : ValidatedEventSort)
    (cursor : option EventCursor) : list Clause * nat :=
  let w := ([EndsAfterNow; NotFlagged], 0%nat) in
  let w := push_if (is_some (f_organizer_id f)) OrganizerIs w in
  let w := push_if (is_some (f_location f)) LocationLike w in
  let w := push_if (is_some (f_start_after f)) (StartsFrom true) w in
  let w := push_if (is_some (f_start_before f)) (StartsUntil true) w in
  let w := push_if (is_some (f_search f)) TextLike w in
  let w := push_if (is_some (f_min_tickets_available f)) TicketsLeft w in
  let w := push_if (is_some (f_start_date f)) (StartsFrom false) w in
  let w := push_if (is_some (f_end_date f)) (StartsUntil false) w in
  let w := push (default false (f_followers_only f)) FollowersOnly w in
  let w := match f_is_featured f with Some b => push true (FeaturedIs b) w | None => w end in
  match cursor with
  | Some _ => (w.1 ++ [AfterCursor (vs_by sort) (vs_order sort) (vs_order sort) (w.2 + 1) (w.2 + 2)], (w.2 + 2)%nat)
  | None => w
  end.

(** The two directions of [build_event_order_by_clause]: of the column and of the id. *)
Definition build_event_order_by_clause (sort : ValidatedEventSort) : SortOrder * SortOrder :=
  (vs_order sort, match vs_by sort with CountOfRatings => Asc | _ => vs_order sort end).

Definition column (db : EventDb) (by_ : EventSortBy) (e : Event) : Z :=
  match by_ with
  | StartTime => e_start_time e
  | CreatedAt => e_created_at e
  | Popularity => e_minted_tickets e
  | CountOfRatings => e_count_of_ratings e
  | Price => min_ticket_price db (e_id e)
  end.

(** [a] comes before [b] in a direction; the order of pairs in two directions. *)
Definition precedes (o : SortOrder) (a b : Z) : Prop := match o with Asc => a < b | Desc => b < a end.
#[export] Instance precedes_dec o a b : Decision (precedes o a b).
Proof. destruct o; unfold precedes; apply _. Defined.
Definition key_before (d : SortOrder * SortOrder) (k k' : Z * Z) : Prop :=
  precedes d.1 k.1 k'.1 \/ k.1 = k'.1 /\ precedes d.2 k.2 k'.2.
#[export] Instance key_before_dec d k k' : Decision (key_before d k k').
Proof. unfold key_before; apply _. Defined.
Definition key_le (d : SortOrder * SortOrder) (k k' : Z * Z) : Prop := k = k' \/ key_before d k k'.

(** [ORDER BY] and [LIMIT]. *)
Definition order_by {Row} (key : Row -> Z * Z) (d : SortOrder * SortOrder) (rows : list Row) : list Row :=
  merge_sort (fun a b => key_le d (key a) (key b)) rows.

(** The condition of a cursor, if there is one. *)
Definition beyond (d : SortOrder * SortOrder) (cursor : option (Z * Z)) (k : Z * Z) : bool :=
  match cursor with Some c => bool_decide (key_before d c k) | None => true end.

(** A clause whose names resolve: there is no table [e] and no column [followers_only]. *)
Definition resolves (c : Clause) : bool :=
  match c with
  | OrganizerIs _ | LocationLike _ | TextLike _ | FollowersOnly => false
  | StartsFrom alias _ | StartsUntil alias _ => negb alias
  | _ => true
  end.

Definition param (params : list Param) (n : nat) : option Param := params !! (n - 1)%nat.
Definition time_param (params : list Param) (n : nat) : option Z :=
  match param params n with Some (PTime t) => Some t | _ => None end.
Definition int_param (params : list Param) (n : nat) : option Z :=
  match param params n with Some (PInt t) => Some t | _ => None end.
Definition uuid_param (params : list Param) (n : nat) : option Uuid :=
  match param params n with Some (PUuid t) => Some t | _ => None end.
Definition key_of_param (by_ : EventSortBy) (params : list Param) (n : nat) : option Z :=
  match by_, param params n with
  | (StartTime | CreatedAt), Some (PTime t) => Some t
  | (Popularity | CountOfRatings), Some (PInt t) => Some t
  | Price, Some (PPrice t) => Some t
  | _, _ => None
  end.
(** The values at the placeholders have the types of the columns. *)
Definition typed (params : list Param) (c : Clause) : bool :=
  match c with
  | StartsFrom _ n | StartsUntil _ n => is_some (time_param params n)
  | TicketsLeft n => is_some (int_param params n)
  | AfterCursor by_ _ _ k i => is_some (key_of_param by_ params k) && is_some (uuid_param params i)
  | _ => true
  end.

Definition holds (now : Z) (db : EventDb) (params : list Param) (e : Event) (c : Clause) : bool :=
  match c with
  | EndsAfterNow => match e_end_time e with Some t => now <? t | None => false end
  | NotFlagged => negb (e_is_flagged e)
  | StartsFrom _ n => default 0 (time_param params n) <=? e_start_time e
  | StartsUntil _ n => e_start_time e <=? default 0 (time_param params n)
  | TicketsLeft n => default 0 (int_param params n) <=? e_total_tickets e - e_minted_tickets e
  | FeaturedIs b => Bool.eqb (e_is_featured e) b
  | AfterCursor by_ key_op id_op k i =>
      bool_decide (key_before (key_op, id_op)
        (default 0 (key_of_param by_ params k), default 0 (uuid_param params i))
        (column db by_ e, e_id e))
  | _ => false
  end.

(** The rows of [events] that a statement with the clauses [w], with [n] placeholders
    and the values [params], selects; [None] is a statement that the database refuses. *)
Definition select_events (now : Z) (db : EventDb) (w : list Clause) (n : nat) (params : list Param)
    : option (list Event) :=
  if forallb resolves w && forallb (typed params) w && (length params =? n)%nat
  then Some (filter (fun e => forallb (holds now db params e) w) (map_to_list (db_events db)).*2)
  else None.

(** A row as [sqlx] reads it: what is not selected has its default. *)
Definition read_event (db : EventDb) (by_ : EventSortBy) (e : Event) : Event :=
  e <| e_is_free := false |> <| e_is_free_populated := false |>
    <| e_min_ticket_price := match by_ with Price => min_ticket_price db (e_id e) | _ => 0 end |>.

(** ** The handlers *)
Class EventText := { trim_text : string -> string; parse_date : string -> option Z }.

(** The cached first page, with the instant at which it expires. *)
Abbreviation ListCache := (option (Z * CursorResponse Event)).
Definition EVENTS_LIST_CACHE_TTL : Z := 60.
Definition cache_get {A} (now : Z) (c : option (Z * A)) : option A :=
  match c with Some (t, r) => if now <? t then Some r else None | None => None end.

(** The members that [Event] is written with and the members without a default that it
    is read with: the derived reader wants two that the writer leaves out, so that
    a cached page with an event in it is taken for an error of the cache. *)
Definition written_fields : list string :=
  ["id"; "organizer_id"; "title"; "description"; "location"; "start_time"; "end_time"; "is_flagged";
   "is_featured"; "sum_of_ratings"; "count_of_ratings"; "created_at"; "updated_at"; "image_url"; "latitude";
   "longitude"; "is_free"; "total_tickets"; "minted_tickets"; "average_rating"]%string.
Definition required_fields : list string :=
  ["id"; "organizer_id"; "title"; "location"; "start_time"; "is_flagged"; "is_featured"; "sum_of_ratings";
   "count_of_ratings"; "created_at"; "updated_at"; "total_tickets"; "minted_tickets"; "is_free";
   "is_free_populated"; "min_ticket_price"]%string.
Definition event_readable : bool := forallb (fun f => bool_decide (f ∈ written_fields)) required_fields.
Definition cached_page (now : Z) (cache : ListCache) : option (CursorResponse Event) :=
  r ← cache_get now cache;
  if forallb (fun _ => event_readable) (cr_items r) then Some r else None.

Definition opt {A} (f : A -> Param) (o : option A) : list Param :=
  match o with Some x => [f x] | None => [] end.

Section Listing.
Context `{EventText} `{Base64}.

Definition start_params (f : EventFilters) : list Param :=
  opt PUuid (f_organizer_id f) ++ opt PText (f_organizer_wallet f) ++ opt PText (f_location f)
  ++ opt PTime (f_start_after f) ++ opt PTime (f_start_before f) ++ opt PText (f_search f)
  ++ opt PInt (f_min_tickets_available f).

(** The values of the count: a date that is not one is left out. *)
Definition count_params (f : EventFilters) : list Param :=
  start_params f ++ opt PTime (f_start_date f ≫= parse_date) ++ opt PTime (f_end_date f ≫= parse_date).

Definition date_params (o : option string) : Result AppError (list Param) :=
  match o with
  | None => Ok []
  | Some s => t ← ok_or (parse_date s) ValidationError; Ok [PTime t]
  end.
Definition cursor_params (sort : ValidatedEventSort) (cursor : option EventCursor)
    : Result AppError (list Param) :=
  match cursor with
  | None => Ok []
  | Some c =>
      match vs_by sort with
      | StartTime => Ok [PTime (ec_start_time c); PUuid (ec_id c)]
      | CreatedAt => t ← ok_or (ec_created_at c) ValidationError; Ok [PTime t; PUuid (ec_id c)]
      | Popularity | CountOfRatings =>
          n ← ok_or (ec_minted_tickets c) ValidationError; Ok [PInt n; PUuid (ec_id c)]
      | Price => p ← ok_or (ec_min_ticket_price c) ValidationError; Ok [PPrice p; PUuid (ec_id c)]
      end
  end.
Definition item_params (f : EventFilters) (sort : ValidatedEventSort) (cursor : option EventCursor)
    : Result AppError (list Param) :=
  a ← date_params (f_start_date f);
  b ← date_params (f_end_date f);
  c ← cursor_params sort cursor;
  mret (start_params f ++ a ++ b ++ c).

Definition event_key (db : EventDb) (sort : ValidatedEventSort) (e : Event) : Z * Z :=
  (column db (vs_by sort) e, e_id e).
Definition cursor_of_event (e : Event) : EventCursor :=
  mkEventCursor (e_start_time e) (e_id e) (Some (e_created_at e)) (Some (e_minted_tickets e))
    (Some (e_count_of_ratings e)) (Some (e_min_ticket_price e)).

Definition normalize_search (f : EventFilters) : EventFilters :=
  match f_search f with
  | Some s => f <| f_search := if bool_decide (trim_text s = ""%string) then None else Some (trim_text s) |>
  | None => f
  end.

(** [SELECT COUNT( * )]; a statement that fails counts as zero. *)
Definition count_events (now : Z) (db : EventDb) (f : EventFilters) (sort : ValidatedEventSort) : Z :=
  let w := build_event_where_clause f sort None in
  match select_events now db w.1 w.2 (count_params f) with
  | Some rows => Z.of_nat (length rows)
  | None => 0
  end.

(** The page that the database is asked for, and the cursor of the next one. *)
Definition fetch_page `{Json EventCursor} (now : Z) (db : EventDb) (v : ValidatedCursorParams)
    (f : EventFilters) (sort : ValidatedEventSort) (cursor : option EventCursor)
    : Result AppError (list Event * option string) :=
  let w := build_event_where_clause f sort cursor in
  params ← item_params f sort cursor;
  rows ← ok_or (select_events now db w.1 w.2 params) DatabaseError;
  let rows := take (Z.to_nat (query_limit v))
                (order_by (event_key db sort) (build_event_order_by_clause sort) rows) in
  p ← split_page (page_size v) (fun e => Some (cursor_of_event e)) (read_event db (vs_by sort) <$> rows);
  Ok (map (populate_is_free db) p.1, p.2).

Definition list_events `{Json EventCursor} (now : Z) (params : CursorParams) (filters : EventFilters)
    (db : EventDb) (cache : ListCache) : Result AppError (CursorResponse Event) * ListCache :=
  let v := validate params in
  match validate_sort filters with
  | Err e => (Err e, cache)
  | Ok sort =>
      let use_list_cache := is_none (vc_cursor v) && is_unfiltered filters && vc_include_count v
                            && (vc_limit v =? DEFAULT_PAGE_SIZE) in
      match (if use_list_cache then cached_page now cache else None) with
      | Some r => (Ok r, cache)
      | None =>
          let res :=
            cursor ← decode_opt (vc_cursor v);
            let filters := normalize_search filters in
            let total := if vc_include_count v then count_events now db filters sort else 0 in
            p ← fetch_page now db v filters sort cursor;
            mret (with_total total (vc_include_count v) (new p.1 v p.2)) in
          (res, match res with
                | Ok r => if use_list_cache then Some (now + EVENTS_LIST_CACHE_TTL, r) else cache
                | Err _ => cache
                end)
      end
  end.

(** *** Past events *)
Definition past_matches (now : Z) (owner : option (option Uuid)) (e : Event) : bool :=
  match e_end_time e with Some t => t <=? now | None => false end
  && negb (e_is_flagged e)
  && match owner with
     | Some o => bool_decide (o = Some (e_organizer_id e))
     | None => true
     end.
(** The organizer of a wallet, when one is asked for; two organizers with the wallet
    make the statement fail. *)
Definition owner_of (db : EventDb) (wallet : option string) : Result AppError (option (option Uuid)) :=
  match wallet with
  | None => Ok None
  | Some w =>
      match (filter (fun p => p.2 = Some w) (map_to_list (db_organizers db))).*1 with
      | [] => Ok (Some None)
      | [o] => Ok (Some (Some o))
      | _ => Err DatabaseError
      end
  end.
Definition past_key (e : Event) : Z * Z := (default 0 (e_end_time e), e_id e).
Definition past_cursor_of (e : Event) : option PastEventCursor :=
  t ← e_end_time e; Some (mkPastCursor t (e_id e)).

Definition list_past_events `{Json PastEventCursor} (now : Z) (params : CursorParams)
    (wallet : option string) (db : EventDb) : Result AppError (CursorResponse Event) :=
  let v := validate params in
  cursor ← decode_opt (vc_cursor v);
  owner ← owner_of db wallet;
  let rows := filter (fun e => past_matches now owner e
                && beyond (Desc, Desc) ((fun c => (pc_end_time c, pc_id c)) <$> cursor) (past_key e))
                (map_to_list (db_events db)).*2 in
  let rows := take (Z.to_nat (query_limit v)) (order_by past_key (Desc, Desc) rows) in
  p ← split_page (page_size v) past_cursor_of (read_event db StartTime <$> rows);
  mret (new p.1 v p.2).

(** *** Attendees *)
Definition attendee_key (a : Attendee) : Z * Z := (at_created_at a, at_id a).
Definition attendees_of (db : EventDb) (event_id : Uuid) : list Attendee :=
  (filter (fun p : Uuid * Attendee => tt_event <$> db_tiers db !! p.1 = Some event_id)
     (map_to_list (db_attendees db)).*2).*2.

(** [quantity] says whether the table of tickets has a column of this name. *)
Definition list_event_attendees `{Json AttendeeCursor} (quantity : bool) (event_id : Uuid) (params : CursorParams)
    (db : EventDb) : Result AppError (CursorResponse Attendee) :=
  err_if (negb (match db_events db !! event_id with Some e => negb (e_is_flagged e) | None => false end))
    NotFound;;
  let v := validate params in
  cursor ← decode_opt (vc_cursor v);
  err_if (negb quantity) DatabaseError;;
  let rows := filter (fun a => beyond (Asc, Asc) ((fun c => (ac_created_at c, ac_id c)) <$> cursor) (attendee_key a))
                (attendees_of db event_id) in
  let rows := take (Z.to_nat (query_limit v)) (order_by attendee_key (Asc, Asc) rows) in
  p ← split_page (page_size v) (fun a => Some (mkAttendeeCursor (at_created_at a) (at_id a))) rows;
  mret (new p.1 v p.2).
End Listing.
