(* ===== verification/EventPages.v ===== *)
(** * Server: what the pages of a listing show

    The theorems on [EventListing]: a cursor selects the rows after its own row in the
    sort order, so that the pages that a client gets by following the cursors show all
    rows but the one behind every full page. *)

From stdpp Require Import base tactics numbers list strings gmap sorting.
From S2P Require Import Prelude.
From S2P Require Import ServerPrelude.
From S2P Require Import TicketQr.
From S2P Require Import EventListing.
Import cursor_pagination.
Open Scope Z_scope.

(** ** Lists *)
Lemma StronglySorted_filter {A} (R : A -> A -> Prop) (P : A -> bool) (l : list A) :
  StronglySorted R l -> StronglySorted R (filter P l).
Proof.
  induction 1 as [|x l Hl IH Hx]; [constructor|]. rewrite filter_cons. case_decide; [|done].
  constructor; [done|]. rewrite Forall_forall in *. intros y [_ Hy]%list_elem_of_filter. auto.
Qed.
Lemma filter_nothing {A} (P : A -> bool) (l : list A) : (forall x, x ∈ l -> P x = false) -> filter P l = [].
Proof.
  induction l as [|x l IH]; intros Hl; [done|]. rewrite filter_cons, (Hl x) by set_solver.
  apply IH. set_solver.
Qed.
Lemma filter_everything {A} (P : A -> bool) (l : list A) : (forall x, x ∈ l -> P x = true) -> filter P l = l.
Proof. intros Hl. apply filter_all, Forall_forall. intros x Hx. by rewrite Hl. Qed.

Lemma filter_bool_ext {A} (P Q : A -> bool) (l : list A) : (forall x, P x = Q x) -> filter P l = filter Q l.
Proof. intros HPQ. apply list_filter_iff. intros x. by rewrite HPQ. Qed.
Lemma filter_both {A} (P Q : A -> bool) (l : list A) : filter P (filter Q l) = filter (fun x => Q x && P x) l.
Proof. rewrite list_filter_filter. apply list_filter_iff. intros x. destruct (P x), (Q x); cbn; tauto. Qed.

(** ** Rows in the order of their keys *)
Lemma precedes_cases o a b : a = b \/ precedes o a b \/ precedes o b a.
Proof. destruct o; cbn; lia. Qed.
Lemma precedes_trans o a b c : precedes o a b -> precedes o b c -> precedes o a c.
Proof. destruct o; cbn; lia. Qed.
Lemma precedes_irrefl o a : ~ precedes o a a.
Proof. destruct o; cbn; lia. Qed.

Lemma key_before_trans d k1 k2 k3 : key_before d k1 k2 -> key_before d k2 k3 -> key_before d k1 k3.
Proof.
  unfold key_before. intros [H1|[E1 H1]] [H2|[E2 H2]].
  - left. by eapply precedes_trans.
  - left. by rewrite <- E2.
  - left. by rewrite E1.
  - right. split; [congruence|]. by eapply precedes_trans.
Qed.
Lemma key_before_irrefl d k : ~ key_before d k k.
Proof. intros [H|[_ H]]; by apply precedes_irrefl in H. Qed.
Lemma key_before_cases d k k' : k = k' \/ key_before d k k' \/ key_before d k' k.
Proof.
  destruct k as [a b], k' as [a' b']. unfold key_before. cbn.
  destruct (precedes_cases d.1 a a') as [->|[?|?]]; [|tauto..].
  destruct (precedes_cases d.2 b b') as [->|[?|?]]; auto.
Qed.

Section Keyset.
Context {Row : Type} (key : Row -> Z * Z) (d : SortOrder * SortOrder).
Local Abbreviation le := (fun a b => key_le d (key a) (key b)).

#[local] Instance le_trans : Transitive le.
Proof.
  intros a b c [->|Hab] [E|Hbc]; unfold key_le; [by left|by right| |].
  - right. by rewrite <- E.
  - right. by eapply key_before_trans.
Qed.
#[local] Instance le_total : Total le.
Proof. intros a b. unfold key_le. destruct (key_before_cases d (key a) (key b)) as [E|[?|?]]; auto. Qed.

Lemma order_by_perm rows : order_by key d rows ≡ₚ rows.
Proof. apply merge_sort_Permutation. Qed.
Lemma order_by_sorted rows : StronglySorted le (order_by key d rows).
Proof. apply StronglySorted_merge_sort; apply _. Qed.

Lemma key_le_anti a b : key_le d a b -> key_le d b a -> a = b.
Proof.
  intros [?|H1] [?|H2]; auto. destruct (key_before_irrefl d a). by eapply key_before_trans.
Qed.

(** Sorting and selecting commute when the keys are unique. *)
Lemma order_by_filter (P : Row -> bool) rows :
  NoDup (key <$> rows) -> order_by key d (filter P rows) = filter P (order_by key d rows).
Proof.
  intros Hnd. apply (StronglySorted_unique_strong le).
  - intros a b Ha Hb Hab Hba. apply (key_le_anti _ _ Hab) in Hba.
    rewrite order_by_perm in Ha. apply list_elem_of_filter in Ha as [_ Ha].
    apply list_elem_of_filter in Hb as [_ Hb]. rewrite order_by_perm in Hb.
    apply list_elem_of_lookup in Ha as [i Hi], Hb as [j Hj].
    assert (i = j) as <- by (eapply NoDup_lookup; [done| |]; rewrite list_lookup_fmap; [by rewrite Hi|by rewrite Hj; cbn; rewrite Hba]).
    congruence.
  - apply order_by_sorted.
  - apply StronglySorted_filter, order_by_sorted.
  - by rewrite !order_by_perm.
Qed.

(** The condition of a cursor selects the rows after its row. *)
Lemma beyond_suffix l1 x l2 :
  NoDup (key <$> l1 ++ x :: l2) -> StronglySorted le (l1 ++ x :: l2) ->
  filter (fun r => beyond d (Some (key x)) (key r)) (l1 ++ x :: l2) = l2.
Proof.
  intros Hnd Hs. assert (forall r, r ∈ l1 -> ~ key_before d (key x) (key r)) as H1.
  { intros r Hr Hx. apply StronglySorted_app in Hs as (Hc & _ & _).
    specialize (Hc r x Hr ltac:(set_solver)). destruct Hc as [E|Hc].
    - rewrite E in Hx. by apply key_before_irrefl in Hx.
    - eapply key_before_irrefl, key_before_trans; done. }
  assert (forall r, r ∈ l2 -> key_before d (key x) (key r)) as H2.
  { intros r Hr. apply StronglySorted_app in Hs as (_ & _ & Hs).
    apply StronglySorted_cons in Hs as [Hs _]. rewrite Forall_forall in Hs.
    destruct (Hs r Hr) as [E|]; [|done]. exfalso.
    rewrite fmap_app, fmap_cons in Hnd. apply NoDup_app in Hnd as (_ & _ & [Hx _]%NoDup_cons).
    apply Hx. rewrite E. by apply list_elem_of_fmap_2. }
  rewrite filter_app, filter_cons. cbn [beyond].
  rewrite filter_nothing, bool_decide_false, filter_everything; [done|..].
  - intros r Hr. apply bool_decide_true. auto.
  - apply key_before_irrefl.
  - intros r Hr. apply bool_decide_false. auto.
Qed.
End Keyset.

(** ** Following the cursors *)

(** The rows that a client sees that follows the cursors: every page leaves out the
    row behind it. *)
Fixpoint shown_from {A} (size k : nat) (rows : list A) : list A :=
  match rows with
  | [] => []
  | r :: rows => match k with
                 | O => shown_from size size rows
                 | S k => r :: shown_from size k rows
                 end
  end.
Definition shown {A} (size : nat) (rows : list A) : list A := shown_from size size rows.

Lemma shown_from_short {A} size (rows : list A) : forall k, (length rows <= k)%nat -> shown_from size k rows = rows.
Proof. induction rows as [|r rows IH]; intros [|k] Hk; cbn in *; try done; [lia|]. f_equal. apply IH. lia. Qed.
Lemma shown_from_split {A} size (l : list A) x rest : forall k,
  k = length l -> shown_from size k (l ++ x :: rest) = l ++ shown size rest.
Proof. induction l as [|y l IH]; intros k ->; cbn; [done|]. f_equal. by apply IH. Qed.
Lemma shown_split {A} (l : list A) x rest : shown (length l) (l ++ x :: rest) = l ++ shown (length l) rest.
Proof. by apply shown_from_split. Qed.

(** A client that asks for page after page. *)
Fixpoint follow {Row St} (fetch : option string -> St -> Result AppError (CursorResponse Row) * St)
    (fuel : nat) (cursor : option string) (st : St) : option (list (list Row)) :=
  match fuel with
  | O => None
  | S fuel =>
      match fetch cursor st with
      | (Ok r, st) =>
          match cm_next_cursor (cr_pagination r) with
          | Some c => cons (cr_items r) <$> follow fetch fuel (Some c) st
          | None => Some [cr_items r]
          end
      | (Err _, _) => None
      end
  end.

Section Follow.
Context {Row Out C St : Type} `{Json C} `{Base64}.
Variables (key : Row -> Z * Z) (d : SortOrder * SortOrder) (size : nat) (cur : Row -> option C)
          (out : Row -> Out) (rows : list Row).
Variable fetch : option string -> St -> Result AppError (CursorResponse Out) * St.

(** The rows from a cursor on. *)
Definition rest_of (c : option Row) : list Row :=
  filter (fun r => beyond d (key <$> c) (key r)) (order_by key d rows).

(** What a request answers that carries the cursor of a row, in a state. *)
Definition serves (c : option Row) (t : option string) (st : St) : Prop :=
  forall its nx, split_page size cur (take (S size) (rest_of c)) = Ok (its, nx) ->
  exists r st', fetch t st = (Ok r, st') /\ cr_items r = out <$> its
    /\ cm_next_cursor (cr_pagination r) = nx.

Hypothesis unique : NoDup (key <$> rows).
Hypothesis encodes : forall r, r ∈ rows -> is_Some (cur r ≫= encode_cursor).
Hypothesis serves_next : forall r t st,
  r ∈ rows -> cur r ≫= encode_cursor = Some t -> serves (Some r) (Some t) st.

Lemma split_short (l : list Row) : (length l <= size)%nat -> split_page size cur l = Ok (l, None).
Proof. intros Hl. unfold split_page. case_match eqn:Hc; [|done]. apply Nat.ltb_lt in Hc. lia. Qed.
Lemma split_long (l : list Row) x t :
  length l = size -> cur x ≫= encode_cursor = Some t -> split_page size cur (l ++ [x]) = Ok (l, Some t).
Proof.
  intros Hl Ht. unfold split_page. rewrite length_app, last_snoc. cbn [length].
  destruct (Nat.ltb_spec size (length l + 1)); [|lia]. rewrite Ht. cbn [ok_or mbind result_bind].
  replace (length l + 1 - 1)%nat with (length l) by lia. by rewrite take_app_length.
Qed.

Lemma rest_of_elem c x : x ∈ rest_of c -> x ∈ rows.
Proof. intros [_ Hx]%list_elem_of_filter. by rewrite order_by_perm in Hx. Qed.
Lemma rest_of_none : rest_of None = order_by key d rows.
Proof. unfold rest_of. apply filter_everything. by intros. Qed.
Lemma rest_of_some l x l2 : order_by key d rows = l ++ x :: l2 -> rest_of (Some x) = l2.
Proof.
  intros E. unfold rest_of. rewrite E. apply beyond_suffix.
  - rewrite <- E. by rewrite order_by_perm.
  - rewrite <- E. apply order_by_sorted.
Qed.

Lemma follow_from l2 : forall l c t st fuel,
  order_by key d rows = l ++ l2 -> rest_of c = l2 -> serves c t st -> (length l2 < fuel)%nat ->
  exists pages, follow fetch fuel t st = Some pages /\ concat pages = out <$> shown size l2
    /\ Forall (fun p => (length p <= size)%nat) pages.
Proof.
  induction l2 as [l2 IH] using (well_founded_induction (Wf_nat.well_founded_ltof _ length)).
  intros l c t st [|fuel] E Hr Hs Hf; [lia|]. destruct (decide (length l2 <= size)%nat) as [Hl|Hl].
  - destruct (Hs l2 None) as (r & st' & Hfe & Hit & Hnx).
    { rewrite Hr, take_ge by lia. by apply split_short. }
    exists [out <$> l2]. cbn. rewrite Hfe, Hnx, Hit, app_nil_r. unfold shown. rewrite shown_from_short by done.
    repeat constructor. by rewrite length_fmap.
  - destruct (lookup_lt_is_Some_2 l2 size) as [x Hx]; [lia|].
    pose proof (take_drop_middle l2 size x Hx) as Hsp. set (a := take size l2) in *.
    set (b := drop (S size) l2) in *. assert (length a = size) as Ha by (unfold a; rewrite length_take; lia).
    assert (x ∈ rows) as Hin by (apply (rest_of_elem c); rewrite Hr; by eapply list_elem_of_lookup_2).
    destruct (encodes x Hin) as [tx Htx].
    destruct (Hs a (Some tx)) as (r & st' & Hfe & Hit & Hnx).
    { rewrite Hr, (take_S_r _ _ x) by done. by apply split_long. }
    destruct (IH b) with (l := l ++ a ++ [x]) (c := Some x) (t := Some tx) (st := st') (fuel := fuel)
      as (pages & Hp & Hc & Hle).
    + unfold Wf_nat.ltof, b. rewrite length_drop. lia.
    + rewrite E, <- Hsp. by rewrite <- !(assoc_L (++)).
    + apply (rest_of_some (l ++ a)). by rewrite E, <- Hsp, <- (assoc_L (++)).
    + by apply serves_next.
    + unfold b. rewrite length_drop. lia.
    + exists ((out <$> a) :: pages). cbn. rewrite Hfe, Hnx, Hit, Hp. split; [done|].
      split; [|constructor; [by rewrite length_fmap, Ha|done]].
      cbn. pose proof (shown_split a x b) as He. by rewrite Ha, Hsp in He; rewrite Hc, He, fmap_app.
Qed.

(** All pages together, from the first to the last. *)
Lemma follow_all st :
  serves None None st -> exists pages, follow fetch (S (length rows)) None st = Some pages
    /\ concat pages = out <$> shown size (order_by key d rows)
    /\ Forall (fun p => (length p <= size)%nat) pages.
Proof.
  intros Hs. apply (follow_from _ [] None); [done|apply rest_of_none|done|].
  rewrite order_by_perm. lia.
Qed.
End Follow.

(** ** The listing of upcoming events *)
Section Events.
Context `{EventText} `{Base64} `{Json EventCursor} `{!CursorLaws EventCursor}.

(** Filters that the statement can express. *)
Record plain (f : EventFilters) : Prop := {
  pl_organizer_id : f_organizer_id f = None;
  pl_organizer_wallet : f_organizer_wallet f = None;
  pl_location : f_location f = None;
  pl_start_after : f_start_after f = None;
  pl_start_before : f_start_before f = None;
  pl_search : f_search (normalize_search f) = None;
  pl_followers_only : f_followers_only f <> Some true;
  pl_start_date s : f_start_date f = Some s -> is_Some (parse_date s);
  pl_end_date s : f_end_date f = Some s -> is_Some (parse_date s);
}.

(** The events that a listing with such filters is about. *)
Definition matches (now : Z) (f : EventFilters) (e : Event) : bool :=
  match e_end_time e with Some t => now <? t | None => false end
  && negb (e_is_flagged e)
  && match f_min_tickets_available f with
     | Some n => n <=? e_total_tickets e - e_minted_tickets e | None => true end
  && match f_start_date f ≫= parse_date with Some t => t <=? e_start_time e | None => true end
  && match f_end_date f ≫= parse_date with Some t => e_start_time e <=? t | None => true end
  && match f_is_featured f with Some b => Bool.eqb (e_is_featured e) b | None => true end.
Definition listed (now : Z) (f : EventFilters) (db : EventDb) : list Event :=
  filter (matches now f) (map_to_list (db_events db)).*2.

(** The cursor of an event in the listing. *)
Definition event_cursor (db : EventDb) (sort : ValidatedEventSort) (e : Event) : EventCursor :=
  cursor_of_event (read_event db (vs_by sort) e).

Lemma normalize_plain f : plain f ->
  exists b, normalize_search f = f <| f_search := b |> /\ b = None.
Proof.
  intros Hp. pose proof (pl_search f Hp) as Hs. unfold normalize_search in *.
  destruct f as [a1 a2 a3 a4 a5 [s|] a7 a8 a9 a10 a11 a12 a13 a14 a15]; cbn in *; [|by eexists].
  eexists. split; [done|]. done.
Qed.

(** The statement of a page selects the matching events after the cursor. *)
Lemma select_page now db f sort c :
  plain f -> vs_by sort <> CountOfRatings ->
  let cursor := event_cursor db sort <$> c in
  let w := build_event_where_clause (normalize_search f) sort cursor in
  exists params, item_params (normalize_search f) sort cursor = Ok params
    /\ select_events now db w.1 w.2 params
       = Some (filter (fun e => beyond (build_event_order_by_clause sort) (event_key db sort <$> c)
                                  (event_key db sort e)) (listed now f db)).
Proof.
  intros Hp Hsort. destruct (normalize_plain f Hp) as (b & -> & ->).
  destruct Hp as [E1 E2 E3 E4 E5 _ E6 E7 E8].
  destruct f as [a1 a2 a3 a4 a5 a6 a7 a8 a9 a10 a11 a12 a13 a14 a15]; cbn in *; subst.
  assert (forall o : option string, (forall s, o = Some s -> is_Some (parse_date s)) ->
    o = None \/ exists s t, o = Some s /\ parse_date s = Some t) as Hdate.
  { intros [s|] Ho; [|by left]. destruct (Ho s eq_refl) as [t Ht]. right. eauto. }
  unfold select_events, listed.
  destruct (Hdate a9 E7) as [->|(s9 & t9 & -> & H9)], (Hdate a10 E8) as [->|(s10 & t10 & -> & H10)];
    destruct a12 as [[]|]; try done; destruct a7, a11, c as [row|], sort as [[] []]; try done; eexists; (split;
    [ unfold item_params, cursor_params, date_params; cbn; rewrite ?H9, ?H10; cbn; reflexivity
    | rewrite filter_both;  match goal with |- (if ?c then _ else _) = _ => replace c with true by reflexivity end;
      f_equal; apply filter_bool_ext; intros e;
      unfold matches; cbn; rewrite ?H9, ?H10; cbn; rewrite ?andb_true_r, ?andb_assoc; reflexivity ]).
Qed.

(** Pages that are cut and then mapped. *)
Lemma split_page_fmap {A B C} `{Json C} (g : A -> B) (cur : B -> option C) size (l : list A) :
  split_page size cur (g <$> l : list B)
  = match split_page size (fun x => cur (g x)) l with
    | Ok (its, nx) => Ok (g <$> its : list B, nx)
    | Err e => Err e
    end.
Proof.
  unfold split_page. rewrite length_fmap. case_match; [|done]. rewrite fmap_last.
  destruct (last l) as [x|]; cbn; [|done]. destruct (cur (g x) ≫= encode_cursor); cbn; [|done].
  by rewrite fmap_take.
Qed.

Lemma query_limit_size v : 0 <= vc_limit v -> Z.to_nat (query_limit v) = S (page_size v).
Proof. unfold query_limit, page_size. lia. Qed.

(** One page from the database. *)
Lemma fetch_page_serves now db v f sort c its nx :
  plain f -> vs_by sort <> CountOfRatings -> 0 <= vc_limit v ->
  NoDup (event_key db sort <$> listed now f db) ->
  split_page (page_size v) (fun e => Some (event_cursor db sort e))
    (take (S (page_size v)) (rest_of (event_key db sort) (build_event_order_by_clause sort)
                               (listed now f db) c)) = Ok (its, nx) ->
  fetch_page now db v (normalize_search f) sort (event_cursor db sort <$> c)
  = Ok ((fun e => populate_is_free db (read_event db (vs_by sort) e)) <$> its, nx).
Proof.
  intros Hp Hsort Hv Hnd Hs. unfold fetch_page.
  destruct (select_page now db f sort c Hp Hsort) as (params & -> & Hsel). cbn [mbind result_bind].
  rewrite Hsel. cbn [ok_or mbind result_bind].
  rewrite order_by_filter by done. fold (rest_of (event_key db sort) (build_event_order_by_clause sort)
    (listed now f db) c).
  rewrite query_limit_size, split_page_fmap by done. unfold event_cursor in Hs. rewrite Hs. cbn.
  by rewrite <- list_fmap_compose.
Qed.

Lemma validate_limit p : 0 <= vc_limit (validate p).
Proof. cbn. lia. Qed.

Lemma new_next {A} (items : list A) v nx total b :
  let r := with_total total b (new items v nx) in
  cr_items r = items /\ cm_next_cursor (cr_pagination r) = nx.
Proof. by destruct b. Qed.

(** The events are stored under their ids. *)
Definition keyed (db : EventDb) : Prop := forall id e, db_events db !! id = Some e -> e_id e = id.

Lemma ids_unique db (key : Event -> Z) : keyed db ->
  NoDup ((fun e => (key e, e_id e)) <$> (map_to_list (db_events db)).*2).
Proof.
  intros Hk. apply (NoDup_fmap_1 snd). rewrite <- !list_fmap_compose.
  rewrite (list_fmap_ext _ fst); [apply NoDup_fst_map_to_list|].
  intros i [id e] Hi. cbn. apply Hk, elem_of_map_to_list. by eapply list_elem_of_lookup_2.
Qed.
Lemma NoDup_fmap_filter {A B} (g : A -> B) (P : A -> bool) (l : list A) : NoDup (g <$> l) -> NoDup (g <$> filter P l).
Proof.
  induction l as [|x l IH]; [done|]. rewrite fmap_cons, filter_cons. intros [Hx Hl]%NoDup_cons.
  case_decide; [|by apply IH]. rewrite fmap_cons. constructor; [|by apply IH].
  intros (y & Hg & [_ Hy]%list_elem_of_filter)%list_elem_of_fmap. apply Hx. rewrite Hg. by apply list_elem_of_fmap_2.
Qed.

End Events.

(** ** Past events and attendees

    The same for the two other listings with cursors. *)
Section Others.
Context `{Base64} `{Json PastEventCursor} `{!CursorLaws PastEventCursor}.
Context `{Json AttendeeCursor} `{!CursorLaws AttendeeCursor}.

Definition listed_past (now : Z) (owner : option (option Uuid)) (db : EventDb) : list Event :=
  filter (past_matches now owner) (map_to_list (db_events db)).*2.

Theorem past_pages now limit count wallet owner db :
  let size := page_size (validate (mkCursorParams limit None count)) in
  let request t (_ : unit) := (list_past_events now (mkCursorParams limit t count) wallet db, tt) in
  owner_of db wallet = Ok owner -> keyed db ->
  (forall e, e ∈ listed_past now owner db -> is_Some (past_cursor_of e ≫= encode_cursor)) ->
  exists pages, follow request (S (length (listed_past now owner db))) None tt = Some pages
    /\ concat pages = read_event db StartTime <$> shown size (order_by past_key (Desc, Desc) (listed_past now owner db))
    /\ Forall (fun p => (length p <= size)%nat) pages.
Proof.
  intros size request Hown Hk Henc.
  assert (NoDup (past_key <$> listed_past now owner db)) as Hnd by (apply NoDup_fmap_filter, ids_unique, Hk).
  assert (forall (c : option Event) (c' : option PastEventCursor) t st,
    decode_opt t = Ok c' -> (fun c => (pc_end_time c, pc_id c)) <$> c' = past_key <$> c ->
    serves past_key (Desc, Desc) size past_cursor_of (read_event db StartTime)
      (listed_past now owner db) request c t st) as Hserve.
  { intros c c' t st Ht Hc its nx Hs. unfold request, list_past_events. cbn [vc_cursor validate cp_cursor].
    rewrite Ht, Hown. cbn [mbind result_bind]. rewrite Hc.
    rewrite <- (filter_both (fun e => beyond (Desc, Desc) (past_key <$> c) (past_key e)) (past_matches now owner)).
    fold (listed_past now owner db). rewrite order_by_filter by done.
    fold (rest_of past_key (Desc, Desc) (listed_past now owner db) c).
    rewrite query_limit_size, split_page_fmap by apply validate_limit.
    change (split_page (page_size (validate (mkCursorParams limit t count)))
              (fun x => past_cursor_of (read_event db StartTime x))) with (split_page size past_cursor_of (Row := Event)).
    change (page_size (validate (mkCursorParams limit t count))) with size. rewrite Hs. cbn [mbind result_bind].
    eexists _, _. split; [reflexivity|]. done. }
  apply (follow_all past_key _ size past_cursor_of); [done|exact Henc| |].
  - intros e t st He Ht. destruct (past_cursor_of e) as [c|] eqn:Hc; [|done]. cbn in Ht.
    apply (Hserve (Some e) (Some c) (Some t) st).
    + cbn. apply decode_encode in Ht. by rewrite Ht.
    + unfold past_cursor_of in Hc. destruct (e_end_time e) as [te|] eqn:Hte; [|done].
      injection Hc as <-. cbn. unfold past_key. by rewrite Hte.
  - by apply (Hserve None None None tt).
Qed.

(** The attendees of an event, when tickets have the column [quantity]. *)
Theorem attendee_pages limit count event_id e db :
  let size := page_size (validate (mkCursorParams limit None count)) in
  let request t (_ : unit) := (list_event_attendees true event_id (mkCursorParams limit t count) db, tt) in
  let rows := attendees_of db event_id in
  db_events db !! event_id = Some e -> e_is_flagged e = false -> NoDup (attendee_key <$> rows) ->
  (forall a, a ∈ rows -> is_Some (encode_cursor (mkAttendeeCursor (at_created_at a) (at_id a)))) ->
  exists pages, follow request (S (length rows)) None tt = Some pages
    /\ concat pages = shown size (order_by attendee_key (Asc, Asc) rows)
    /\ Forall (fun p => (length p <= size)%nat) pages.
Proof.
  intros size request rows He Hf Hnd Henc.
  assert (forall (c : option Attendee) (c' : option AttendeeCursor) t st,
    decode_opt t = Ok c' -> (fun c => (ac_created_at c, ac_id c)) <$> c' = attendee_key <$> c ->
    serves attendee_key (Asc, Asc) size (fun a => Some (mkAttendeeCursor (at_created_at a) (at_id a))) id
      rows request c t st) as Hserve.
  { intros c c' t st Ht Hc its nx Hs. unfold request, list_event_attendees. rewrite He, Hf. cbn [vc_cursor validate cp_cursor].
    rewrite Ht. cbn [mbind result_bind negb err_if]. rewrite Hc. fold rows.
    rewrite order_by_filter by done. fold (rest_of attendee_key (Asc, Asc) rows c).
    rewrite query_limit_size by apply validate_limit.
    change (page_size (validate (mkCursorParams limit t count))) with size. rewrite Hs. cbn [mbind result_bind].
    eexists _, _. split; [reflexivity|]. cbn. by rewrite list_fmap_id. }
  destruct (follow_all attendee_key (Asc, Asc) size (fun a => Some (mkAttendeeCursor (at_created_at a) (at_id a)))
    id rows request Hnd Henc) with (st := tt) as (pages & Hp & Hc & Hle).
  - intros a t st Ha Ht. cbn in Ht. apply (Hserve (Some a) (Some (mkAttendeeCursor (at_created_at a) (at_id a))) (Some t) st).
    + cbn. apply decode_encode in Ht. by rewrite Ht.
    + done.
  - by apply (Hserve None None None tt).
  - exists pages. by rewrite list_fmap_id in Hc.
Qed.
(** The migrations create no such column, and without it no page of attendees is shown. *)
Theorem attendees_unavailable event_id params db : exists e, list_event_attendees false event_id params db = Err e.
Proof.
  unfold list_event_attendees. destruct (err_if _ NotFound) as [[]|e]; cbn; [|by eexists].
  destruct (decode_opt (C := AttendeeCursor) _) as [c|e]; cbn; by eexists.
Qed.
End Others.

(** ** Filters that the database refuses *)
Lemma push_if_resolves b c w : resolves (c (S w.2)) = false ->
  forallb resolves (push_if b c w).1 = forallb resolves w.1 && negb b.
Proof. intros Hc. destruct b; cbn; rewrite ?forallb_app; cbn; rewrite ?Hc, ?andb_true_r, ?andb_false_r; done. Qed.
Lemma push_if_resolved b c w : resolves (c (S w.2)) = true ->
  forallb resolves (push_if b c w).1 = forallb resolves w.1.
Proof. intros Hc. destruct b; cbn; rewrite ?forallb_app; cbn; rewrite ?Hc, ?andb_true_r; done. Qed.
Lemma push_if_count b c w : (push_if b c w).2 = (w.2 + Nat.b2n b)%nat.
Proof. destruct b; cbn; lia. Qed.
Lemma opt_count {A} (g : A -> Param) o : length (opt g o) = Nat.b2n (is_some o).
Proof. by destruct o. Qed.

Lemma is_none_None {A} (o : option A) : is_none o = true -> o = None.
Proof. by destruct o. Qed.

Section Refused.
Context `{EventText} `{Base64} `{Json EventCursor}.

(** A filter that the documentation of the endpoint offers and that the statement
    cannot express: a name that does not resolve, or a value without a placeholder. *)
Definition unusable (f : EventFilters) : bool :=
  is_some (f_organizer_id f) || is_some (f_organizer_wallet f) || is_some (f_location f)
  || is_some (f_start_after f) || is_some (f_start_before f)
  || is_some (f_search (normalize_search f)) || default false (f_followers_only f).

Lemma where_resolves f sort c :
  forallb resolves (build_event_where_clause f sort c).1
  = is_none (f_organizer_id f) && is_none (f_location f) && is_none (f_start_after f)
    && is_none (f_start_before f) && is_none (f_search f) && negb (default false (f_followers_only f)).
Proof.
  unfold build_event_where_clause.
  assert (forall w, forallb resolves (match f_is_featured f with Some b => push true (FeaturedIs b) w | None => w end).1
    = forallb resolves w.1) as Hfe.
  { intros w. destruct (f_is_featured f); [|done]. cbn. by rewrite forallb_app, andb_true_r. }
  assert (forall b w, forallb resolves (push b FollowersOnly w).1 = forallb resolves w.1 && negb b) as Hfo.
  { intros [] w; cbn; rewrite ?forallb_app; cbn; by rewrite ?andb_false_r, ?andb_true_r. }
  match goal with |- forallb resolves (match c with Some _ => _ | None => ?w end).1 = _ =>
    transitivity (forallb resolves w.1) end.
  { destruct c; [|done]. cbn. rewrite forallb_app. cbn. by rewrite andb_true_r. }
  rewrite Hfe, Hfo, !push_if_resolved by done. rewrite !push_if_resolves by done.
  cbn. unfold is_some. by rewrite !negb_involutive.
Qed.

Lemma where_count f sort c :
  (build_event_where_clause f sort c).2
  = (Nat.b2n (is_some (f_organizer_id f)) + Nat.b2n (is_some (f_location f)) + Nat.b2n (is_some (f_start_after f))
     + Nat.b2n (is_some (f_start_before f)) + Nat.b2n (is_some (f_search f))
     + Nat.b2n (is_some (f_min_tickets_available f)) + Nat.b2n (is_some (f_start_date f))
     + Nat.b2n (is_some (f_end_date f)) + match c with Some _ => 2 | None => 0 end)%nat.
Proof.
  unfold build_event_where_clause.
  assert (forall b w, (push b FollowersOnly w).2 = w.2) as Hfo by (by intros []).
  destruct c, (f_is_featured f); cbn [fst snd push]; rewrite Hfo, !push_if_count; cbn; lia.
Qed.

Lemma item_count f sort c ps : item_params f sort c = Ok ps ->
  length ps = ((build_event_where_clause f sort c).2 + Nat.b2n (is_some (f_organizer_wallet f)))%nat.
Proof.
  unfold item_params. intros Hi. oks. subst. rewrite where_count. unfold start_params.
  rewrite !length_app, !opt_count.
  assert (forall o l, date_params o = Ok l -> length l = Nat.b2n (is_some o)) as Hd.
  { intros [s|] l Hl; cbn in Hl; oks; by subst. }
  assert (forall l, cursor_params sort c = Ok l -> length l = match c with Some _ => 2%nat | None => 0%nat end) as Hc.
  { intros l Hl. unfold cursor_params in Hl. destruct c; [|by oks; subst]. destruct (vs_by sort); oks; by subst. }
  repeat match goal with
  | Hx : date_params _ = Ok _ |- _ => apply Hd in Hx; rewrite Hx
  | Hx : cursor_params _ _ = Ok _ |- _ => apply Hc in Hx; rewrite Hx
  end. lia.
Qed.

(** A listing with one of these filters always fails. *)
Theorem filters_refused now params f db cache sort cursor ps :
  validate_sort f = Ok sort -> decode_opt (cp_cursor params) = Ok cursor ->
  item_params (normalize_search f) sort cursor = Ok ps -> unusable f = true ->
  list_events now params f db cache = (Err DatabaseError, cache).
Proof.
  intros Hsort Hcur Hps Hun. unfold list_events. rewrite Hsort.
  assert (is_unfiltered f = false) as ->.
  { destruct (is_unfiltered f) eqn:Hf; [|done]. exfalso. revert Hun. unfold is_unfiltered in Hf. bools.
    unfold unusable, is_some, normalize_search.
    repeat match goal with Hx : is_none _ = true |- _ => apply is_none_None in Hx; rewrite ?Hx; clear Hx end. done. }
  rewrite andb_false_r. cbn [vc_cursor validate andb]. rewrite Hcur. cbn [mbind result_bind].
  unfold fetch_page. rewrite Hps. cbn [mbind result_bind].
  replace (select_events _ _ _ _ _) with (@None (list Event)); [done|]. symmetry.
  unfold select_events. rewrite (item_count _ _ _ _ Hps), where_resolves.
  assert (f_organizer_id (normalize_search f) = f_organizer_id f /\ f_organizer_wallet (normalize_search f) = f_organizer_wallet f
    /\ f_location (normalize_search f) = f_location f /\ f_start_after (normalize_search f) = f_start_after f
    /\ f_start_before (normalize_search f) = f_start_before f
    /\ f_followers_only (normalize_search f) = f_followers_only f) as (E1 & E2 & E3 & E4 & E5 & E6)
    by (unfold normalize_search; by destruct (f_search f)).
  rewrite E1, E2, E3, E4, E5, E6. unfold unusable, is_some in *.
  destruct (is_none (f_organizer_id f)), (is_none (f_location f)), (is_none (f_start_after f)),
    (is_none (f_start_before f)), (is_none (f_search (normalize_search f))), (default false (f_followers_only f)); try done.
  destruct (is_none (f_organizer_wallet f)); [done|]. cbn [negb Nat.b2n].
  destruct (Nat.eqb_spec ((build_event_where_clause (normalize_search f) sort cursor).2 + 1)
    (build_event_where_clause (normalize_search f) sort cursor).2); [lia|]. by rewrite andb_false_r.
Qed.
End Refused.

(** ** Five events *)
Module EventPagesSample.
Definition digit (b : bool) : Ascii.ascii := Ascii.Ascii b false false false true true false false.
Fixpoint pos_text (p : positive) : string :=
  match p with
  | xH => EmptyString
  | xO p => String (digit false) (pos_text p)
  | xI p => String (digit true) (pos_text p)
  end.
Fixpoint text_pos (s : string) : positive :=
  match s with
  | EmptyString => xH
  | String c s => if Ascii.eqb c (digit false) then xO (text_pos s) else xI (text_pos s)
  end.
Lemma text_pos_text p : text_pos (pos_text p) = p.
Proof. induction p as [p IH|p IH|]; cbn; by rewrite ?IH. Qed.

#[local] Instance EventCursor_eq : EqDecision EventCursor.
Proof. solve_decision. Defined.
#[local] Instance PastEventCursor_eq : EqDecision PastEventCursor.
Proof. solve_decision. Defined.
#[local] Instance AttendeeCursor_eq : EqDecision AttendeeCursor.
Proof. solve_decision. Defined.
#[local] Instance EventCursor_countable : Countable EventCursor :=
  inj_countable' (fun c => (ec_start_time c, ec_id c, ec_created_at c, ec_minted_tickets c,
                            ec_count_of_ratings c, ec_min_ticket_price c))
    (fun '(a, b, c, d, e, f) => mkEventCursor a b c d e f) ltac:(by intros []).
#[local] Instance PastEventCursor_countable : Countable PastEventCursor :=
  inj_countable' (fun c => (pc_end_time c, pc_id c)) (fun '(a, b) => mkPastCursor a b) ltac:(by intros []).
#[local] Instance AttendeeCursor_countable : Countable AttendeeCursor :=
  inj_countable' (fun c => (ac_created_at c, ac_id c)) (fun '(a, b) => mkAttendeeCursor a b) ltac:(by intros []).

#[local] Instance text : EventText := {| trim_text s := s; parse_date _ := None |}.
#[local] Instance base64 : Base64 := {| b64_encode s := s; b64_decode s := Some s; is_utf8 _ := true |}.
#[local] Instance json {C} `{Countable C} : Json C :=
  {| to_string c := Some (pos_text (encode c)); from_str s := decode (text_pos s) |}.
#[local] Instance json_laws {C} `{Countable C} : CursorLaws C.
Proof. split; [done|]. intros c s [= <-]. cbn. by rewrite text_pos_text, countable.decode_encode. Qed.

Definition event (id start minted ratings : Z) : Event :=
  mkEvent id 7 "t" None "l" start (Some (start + 10)) false false 0 ratings 0 0 100 minted None None None
    false false 0.
Definition db : EventDb :=
  mkEventDb (list_to_map ((fun e => (e_id e, e)) <$>
      [event 1 50 9 5; event 2 40 9 4; event 3 30 9 3; event 4 20 9 2; event 5 10 9 1]))
    {[ 11 := mkTier 3 "vip" 2500 10 10 ]} ∅
    (list_to_map [(31, (11, mkAttendee 31 None None 1 100)); (32, (11, mkAttendee 32 None None 1 100));
                  (33, (11, mkAttendee 33 None None 1 90))]).
Definition no_filters : EventFilters :=
  mkFilters None None None None None None None None None None None None None None None.
Definition ids (o : option (list (list Event))) : option (list (list Z)) := option_map (map (map e_id)) o.


(** Event 3, between the two pages, is on neither of them. *)
Example event_between_pages :
  ids (follow (fun t => list_events 0 (mkCursorParams 2 t true) no_filters db) 6 None None)
  = Some [[5; 4]; [2; 1]].
Proof. by vm_compute. Qed.

Lemma past_pages_witness :
  exists pages, follow (fun t (_ : unit) => (list_past_events 100 (mkCursorParams 2 t true) None db, tt)) 6 None tt
      = Some pages /\ e_id <$> concat pages = [1; 2; 4; 5].
Proof.
  destruct (past_pages 100 2 true None None db) as (pages & Hp & Hc & _).
  - done.
  - intros id e Hid. apply elem_of_list_to_map_2 in Hid. repeat (apply elem_of_cons in Hid as [[= -> ->]|Hid]; [done|]).
    by apply not_elem_of_nil in Hid.
  - intros e [He _]%list_elem_of_filter. unfold past_matches, past_cursor_of in *.
    destruct (e_end_time e); [by eexists|done].
  - exists pages. split; [exact Hp|]. rewrite Hc. vm_compute. reflexivity.
Defined.

Lemma attendee_pages_witness :
  exists pages, follow (fun t (_ : unit) => (list_event_attendees true 3 (mkCursorParams 1 t true) db, tt)) 4 None tt
      = Some pages /\ at_id <$> concat pages = [33; 32].
Proof.
  destruct (attendee_pages 1 true 3 (event 3 30 9 3) db) as (pages & Hp & Hc & _).
  - done.
  - done.
  - apply (bool_decide_unpack _). by vm_compute.
  - intros a _. by eexists.
  - exists pages. split; [exact Hp|]. rewrite Hc. vm_compute. reflexivity.
Defined.

(** Sorted by the number of ratings, the cursor carries the number of tickets, and the
    first page is followed by itself. *)
Definition popular (t : option string) : Result AppError (CursorResponse Event) :=
  (list_events 0 (mkCursorParams 2 t true) (no_filters <| f_sort := Some "popular"%string |>) db None).1.
Definition next_of (r : Result AppError (CursorResponse Event)) : option string :=
  match r with Ok r => cm_next_cursor (cr_pagination r) | Err _ => None end.
Example popular_repeats :
  is_Some (next_of (popular None)) /\ popular (next_of (popular None)) = popular None.
Proof. split; [by eexists|]. by vm_compute. Qed.

(** A filter by price is accepted and ignored; one by organizer is refused. *)
Example is_free_ignored :
  (list_events 0 (mkCursorParams 9 None true) (no_filters <| f_is_free := Some true |>) db None).1
  = (list_events 0 (mkCursorParams 9 None true) no_filters db None).1.
Proof. by vm_compute. Qed.

Lemma filters_refused_witness :
  list_events 0 (mkCursorParams 9 None true) (no_filters <| f_organizer_wallet := Some "G"%string |>) db None
  = (Err DatabaseError, None).
Proof. by apply (filters_refused 0 _ _ db None (mkSort StartTime Asc) None [PText "G"]). Defined.
End EventPagesSample.
