(* ===== verification/EventRatings.v ===== *)
(** * Server: ratings and flags of events

    Of [handlers/events.rs]: [submit_event_rating], [get_ratings_summary] and the
    moderation of events ([toggle_event_flag], [set_event_featured], [flag_event]), over
    the tables of [EventListing], the tickets with their status and the ratings.  The
    columns of the sums have their widths; a statement that exceeds them fails.
    Averages are exact quotients.  The key of a rating is the pair of its event and its
    ticket, which the table declares unique. *)

From stdpp Require Import base tactics numbers list strings gmap.
From Stdlib Require Import QArith_base.
From S2P Require Import Prelude.
From S2P Require Import ServerPrelude.
From S2P Require Import TicketQr.
From S2P Require Import EventListing.
Import cursor_pagination.
Open Scope Z_scope.

Record Rating := mkRating { ra_event : Uuid; ra_ticket : Uuid; ra_rating : Z; ra_review : option string }.
Record RatingsSummary := mkSummary { su_average : Q; su_total : Z; su_distribution : gmap Z Z }.

(** The tables, the page of the listing and the summaries in the cache. *)
Record RatingState := mkRatingState {
  rs_db : EventDb; rs_tickets : gmap Uuid (Uuid * string); rs_ratings : gmap (Uuid * Uuid) Rating;
  rs_list : ListCache; rs_summaries : gmap Uuid (Z * RatingsSummary);
}.
#[export] Instance RatingState_eta : Eta RatingState := fun s =>
  mkRatingState (rs_db s) (rs_tickets s) (rs_ratings s) (rs_list s) (rs_summaries s).

Definition EVENT_CACHE_TTL : Z := 300.

Definition events (st : RatingState) : gmap Uuid Event := db_events (rs_db st).
Definition set_events (m : gmap Uuid Event) (st : RatingState) : RatingState :=
  st <| rs_db := (rs_db st) <| db_events := m |> |>.
(** [invalidate_events_list]. *)
Definition drop_list (st : RatingState) : RatingState := st <| rs_list := None |>.

(** [SELECT .. FROM events WHERE id = $1 AND is_flagged = FALSE]. *)
Definition visible_event (event_id : Uuid) (st : RatingState) : option Event :=
  e ← events st !! event_id; if e_is_flagged e then None else Some e.

(** The status of a ticket and the event of its tier. *)
Definition ticket_of (ticket_id : Uuid) (st : RatingState) : option (string * Uuid) :=
  t ← rs_tickets st !! ticket_id;
  tier ← db_tiers (rs_db st) !! t.1;
  Some (t.2, tt_event tier).

Definition rating_checks (now : Z) (event_id ticket_id : Uuid) (rating : Z) (st : RatingState)
    : Result AppError unit :=
  err_if ((rating <? 1) || (5 <? rating)) ValidationError;;
  t ← ok_or (ticket_of ticket_id st) NotFound;
  e ← ok_or (visible_event event_id st) NotFound;
  err_if (negb (t.2 =? event_id)) Forbidden;;
  err_if (negb (bool_decide (t.1 = "Scanned"%string))) ValidationError;;
  err_if (match e_end_time e with Some end_ => now <? end_ | None => false end) ValidationError.

(** [UPDATE events SET sum_of_ratings = .., count_of_ratings = ..]. *)
Definition add_rating (rating : Z) (e : Event) : Result AppError Event :=
  let sum := e_sum_of_ratings e + rating in
  let count := e_count_of_ratings e + 1 in
  err_if ((2 ^ 63 <=? sum) || (2 ^ 31 <=? count)) DatabaseError;;
  Ok (e <| e_sum_of_ratings := sum |> <| e_count_of_ratings := count |>).

(** The transaction, which is rolled back when a statement fails. *)
Definition rating_commit (event_id ticket_id : Uuid) (rating : Z) (review : option string) (st : RatingState)
    : Result AppError (Event * RatingState) :=
  err_if (existsb (fun r => ra_ticket r =? ticket_id) (map_to_list (rs_ratings st)).*2) Conflict;;
  let ratings := <[(event_id, ticket_id) := mkRating event_id ticket_id rating review]> (rs_ratings st) in
  e ← ok_or (events st !! event_id) NotFound;
  e' ← add_rating rating e;
  Ok (e', set_events (<[event_id := e']> (events st)) (st <| rs_ratings := ratings |>)).

Definition submit_event_rating (now : Z) (event_id ticket_id : Uuid) (rating : Z) (review : option string)
    (st : RatingState) : Result AppError (Z * Z) * RatingState :=
  match (rating_checks now event_id ticket_id rating st;;
         rating_commit event_id ticket_id rating review st) with
  | Ok (e, st') => (Ok (e_sum_of_ratings e, e_count_of_ratings e), drop_list st')
  | Err e => (Err e, st)
  end.

(** [SELECT rating, COUNT( * ) .. GROUP BY rating]. *)
Definition ratings_of (event_id : Uuid) (st : RatingState) : list Z :=
  ra_rating <$> filter (fun r => ra_event r = event_id) (map_to_list (rs_ratings st)).*2.
Definition count_of (x : Z) (l : list Z) : Z := Z.of_nat (length (filter (fun y => y = x) l)).
Definition grouped (l : list Z) : list (Z * Z) :=
  (fun x => (x, count_of x l)) <$> elements (list_to_set l : gset Z).

Definition summarize (rows : list (Z * Z)) : RatingsSummary :=
  let distribution := foldl (fun m star => <[star := 0]> m) (∅ : gmap Z Z) (seqZ 1 5) in
  let distribution := foldl (fun m p => <[p.1 := p.2]> m) distribution rows in
  let total := sum_by snd rows in
  let weighted := sum_by (fun p => p.1 * p.2) rows in
  mkSummary (if 0 <? total then weighted # Z.to_pos total else 0#1)%Q total distribution.

Definition get_ratings_summary (now : Z) (event_id : Uuid) (st : RatingState)
    : Result AppError RatingsSummary * RatingState :=
  match cache_get now (rs_summaries st !! event_id) with
  | Some s => (Ok s, st)
  | None =>
      match visible_event event_id st with
      | None => (Err NotFound, st)
      | Some _ =>
          let s := summarize (grouped (ratings_of event_id st)) in
          (Ok s, st <| rs_summaries := <[event_id := (now + EVENT_CACHE_TTL, s)]> (rs_summaries st) |>)
      end
  end.

(** ** Moderation *)
Definition toggle_event_flag (event_id : Uuid) (st : RatingState) : Result AppError bool * RatingState :=
  match events st !! event_id with
  | None => (Err NotFound, st)
  | Some e =>
      let new_flagged := negb (e_is_flagged e) in
      (Ok new_flagged,
       drop_list (set_events (<[event_id := e <| e_is_flagged := new_flagged |>]> (events st)) st))
  end.

Definition set_event_featured (event_id : Uuid) (featured : bool) (st : RatingState)
    : Result AppError bool * RatingState :=
  match events st !! event_id with
  | None => (Err NotFound, st)
  | Some e =>
      (Ok featured, drop_list (set_events (<[event_id := e <| e_is_featured := featured |>]> (events st)) st))
  end.

(** This one leaves the cached page of the listing. *)
Definition flag_event (event_id : Uuid) (flagged : bool) (st : RatingState) : Result AppError bool * RatingState :=
  match events st !! event_id with
  | None => (Err NotFound, st)
  | Some e =>
      (Ok flagged, set_events (<[event_id := e <| e_is_flagged := flagged |>]> (events st)) st)
  end.

(** ** Requests, and what else happens to the tables *)
Inductive RatingCall :=
  | Rate (now : Z) (event_id ticket_id : Uuid) (rating : Z) (review : option string)
  | Summary (now : Z) (event_id : Uuid)
  | ToggleFlag (event_id : Uuid)
  | Feature (event_id : Uuid) (b : bool)
  | Flag (event_id : Uuid) (b : bool)
  | NewEvent (e : Event)
  | SetTier (id : Uuid) (t : Tier)
  | SetTicket (id : Uuid) (tier : Uuid) (status : string).

Definition call_rating (c : RatingCall) (st : RatingState) : RatingState :=
  match c with
  | Rate now e t r review => (submit_event_rating now e t r review st).2
  | Summary now e => (get_ratings_summary now e st).2
  | ToggleFlag e => (toggle_event_flag e st).2
  | Feature e b => (set_event_featured e b st).2
  | Flag e b => (flag_event e b st).2
  | NewEvent e =>
      match events st !! e_id e with
      | Some _ => st
      | None => set_events (<[e_id e := e <| e_sum_of_ratings := 0 |> <| e_count_of_ratings := 0 |>]> (events st)) st
      end
  | SetTier id t => st <| rs_db := (rs_db st) <| db_tiers := <[id := t]> (db_tiers (rs_db st)) |> |>
  | SetTicket id tier status => st <| rs_tickets := <[id := (tier, status)]> (rs_tickets st) |>
  end.
Definition run_ratings (cs : list RatingCall) (st : RatingState) : RatingState :=
  foldl (fun st c => call_rating c st) st cs.
Definition no_ratings : RatingState := mkRatingState (mkEventDb ∅ ∅ ∅ ∅) ∅ ∅ None ∅.

(** ** Grouping *)
Lemma count_of_cons x y l : count_of x (y :: l) = (if bool_decide (y = x) then 1 else 0) + count_of x l.
Proof.
  unfold count_of. rewrite filter_cons. destruct (decide (y = x)) as [Hy|Hy].
  - rewrite bool_decide_true by done. cbn [length]. lia.
  - by rewrite bool_decide_false.
Qed.

Lemma sum_zero {A} (l : list A) : sum_by (fun _ => 0) l = 0.
Proof. induction l as [|x l IH]; [done|]. by rewrite sum_by_cons, IH. Qed.
Lemma sum_ones {A} (l : list A) : sum_by (fun _ => 1) l = Z.of_nat (length l).
Proof. induction l as [|x l IH]; [done|]. rewrite sum_by_cons, IH. cbn [length]. lia. Qed.
Lemma sum_indicator (g : Z -> Z) y X : NoDup X -> y ∈ X ->
  sum_by (fun x => g x * (if bool_decide (y = x) then 1 else 0)) X = g y.
Proof.
  induction 1 as [|x X Hx Hnd IH]; intros Hy; [set_solver|]. rewrite sum_by_cons.
  apply elem_of_cons in Hy as [->|Hy].
  - rewrite bool_decide_true by done. rewrite (sum_by_ext _ (fun _ => 0)).
    + rewrite sum_zero. lia.
    + intros z Hz. rewrite bool_decide_false; [lia|]. by intros ->.
  - rewrite bool_decide_false by (by intros ->). rewrite IH by done. lia.
Qed.

(** A sum over groups is the sum over the list. *)
Lemma group_sum (g : Z -> Z) X l : NoDup X -> (forall y, y ∈ l -> y ∈ X) ->
  sum_by (fun x => g x * count_of x l) X = sum_by g l.
Proof.
  intros HX. induction l as [|y l IH]; intros Hl.
  - rewrite (sum_by_ext _ (fun _ => 0)); [|intros; unfold count_of; cbn; lia].
    apply sum_zero.
  - rewrite (sum_by_ext _ (fun x => g x * (if bool_decide (y = x) then 1 else 0) + g x * count_of x l)).
    + rewrite sum_by_add, sum_indicator, IH by set_solver. done.
    + intros x _. rewrite count_of_cons. lia.
Qed.
Lemma sum_by_map {A B} (f : B -> Z) (g : A -> B) l : sum_by f (g <$> l) = sum_by (fun x => f (g x)) l.
Proof. induction l as [|x l IH]; [done|]. by rewrite fmap_cons, !sum_by_cons, IH. Qed.
Lemma grouped_total l : sum_by snd (grouped l) = Z.of_nat (length l).
Proof.
  unfold grouped. rewrite sum_by_map. cbn. rewrite (sum_by_ext _ (fun x => 1 * count_of x l)) by (intros; lia).
  by rewrite (group_sum (fun _ => 1)), sum_ones;
    [|apply NoDup_elements|intros y Hy; by apply elem_of_elements, elem_of_list_to_set].
Qed.
Lemma grouped_weighted l : sum_by (fun p => p.1 * p.2) (grouped l) = sum_by id l.
Proof.
  unfold grouped. rewrite sum_by_map. cbn.
  by rewrite (group_sum id); [|apply NoDup_elements|intros y Hy; by apply elem_of_elements, elem_of_list_to_set].
Qed.

(** ** The ratings are exact *)
Definition of_event (id : Uuid) (f : Rating -> Z) (r : Rating) : Z := if ra_event r =? id then f r else 0.
Record ratings_ok (st : RatingState) : Prop := {
  ro_sums id e : events st !! id = Some e ->
    e_sum_of_ratings e = sum_map (of_event id ra_rating) (rs_ratings st)
    /\ e_count_of_ratings e = sum_map (of_event id (fun _ => 1)) (rs_ratings st);
  ro_rows id t r : rs_ratings st !! (id, t) = Some r ->
    ra_event r = id /\ ra_ticket r = t /\ 1 <= ra_rating r <= 5 /\ is_Some (events st !! id);
  ro_once id id' t : is_Some (rs_ratings st !! (id, t)) -> is_Some (rs_ratings st !! (id', t)) -> id = id';
}.

(** A change of the events that keeps their sums. *)
Lemma ratings_ok_events st m :
  ratings_ok st ->
  (forall id e', m !! id = Some e' ->
     (exists e, events st !! id = Some e /\ e_sum_of_ratings e' = e_sum_of_ratings e
        /\ e_count_of_ratings e' = e_count_of_ratings e)
     \/ (events st !! id = None /\ e_sum_of_ratings e' = 0 /\ e_count_of_ratings e' = 0)) ->
  (forall id, is_Some (events st !! id) -> is_Some (m !! id)) ->
  ratings_ok (set_events m st).
Proof.
  intros [Hs Hr Ho] Hm Hk. split; [|intros id t r Hrow; destruct (Hr id t r Hrow) as (?&?&?&?); eauto|exact Ho].
  intros id e' He'. cbn. destruct (Hm id e' He') as [(e & He & -> & ->)|(Hn & -> & ->)]; [by apply Hs|].
  assert (forall f, sum_map (of_event id f) (rs_ratings st) = 0) as Hz; [|by rewrite !Hz].
  intros f. rewrite (sum_map_ext _ (fun _ => 0)).
  - enough (forall m : gmap (Uuid * Uuid) Rating, sum_map (fun _ => 0) m = 0) by done.
    intros m'. induction m' as [|k x m' Hkx IH] using map_ind; [apply sum_map_empty|]. by rewrite sum_map_insert_None, IH.
  - intros [id' t] r Hrow. destruct (Hr id' t r Hrow) as (<- & _ & _ & He). unfold of_event.
    destruct (Z.eqb_spec (ra_event r) id) as [E|]; [|done]. rewrite E, Hn in He. by destruct He.
Qed.

Lemma of_event_zero (id : Uuid) (f : Rating -> Z) (m : gmap (Uuid * Uuid) Rating) (k : Uuid * Uuid) (r : Rating) :
  m !! k = None -> ra_event r <> id -> sum_map (of_event id f) (<[k := r]> m) = sum_map (of_event id f) m.
Proof.
  intros Hk Hr. rewrite sum_map_insert_None by done. unfold of_event at 1.
  destruct (Z.eqb_spec (ra_event r) id); [done|lia].
Qed.
Lemma of_event_here (id : Uuid) (f : Rating -> Z) (m : gmap (Uuid * Uuid) Rating) (k : Uuid * Uuid) (r : Rating) :
  m !! k = None -> ra_event r = id -> sum_map (of_event id f) (<[k := r]> m) = f r + sum_map (of_event id f) m.
Proof. intros Hk Hr. rewrite sum_map_insert_None by done. unfold of_event at 1. by rewrite Hr, Z.eqb_refl. Qed.

Lemma unrated ticket_id st :
  ratings_ok st -> existsb (fun r => ra_ticket r =? ticket_id) (map_to_list (rs_ratings st)).*2 = false ->
  forall id, rs_ratings st !! (id, ticket_id) = None.
Proof.
  intros Hok Hex id. apply eq_None_not_Some. intros [r Hr]. destruct (ro_rows st Hok id ticket_id r Hr) as (_ & Ht & _).
  enough (existsb (fun r => ra_ticket r =? ticket_id) (map_to_list (rs_ratings st)).*2 = true) by congruence.
  apply existsb_exists. exists r. split; [|lia]. apply list_elem_of_In, list_elem_of_fmap.
  exists (id, ticket_id, r). split; [done|]. by apply elem_of_map_to_list.
Qed.

Lemma rate_ok now e t rating review st :
  ratings_ok st -> ratings_ok (submit_event_rating now e t rating review st).2.
Proof.
  intros Hok. unfold submit_event_rating. destruct (_ ;; _) as [[ev st']|] eqn:Hc; [|done].
  apply bind_Ok in Hc as (u & Hchk & Hc). unfold rating_commit in Hc. oks. simplify_eq.
  assert (1 <= rating <= 5) as Hrange.
  { unfold rating_checks in Hchk. oks. bools. lia. }
  rename x0 into e0. match goal with Hx : add_rating _ _ = Ok _ |- _ => unfold add_rating in Hx; oks; subst end.
  assert (forall id, rs_ratings st !! (id, t) = None) as Hnew by (by eapply unrated).
  destruct Hok as [Hs Hr Ho]. split; cbn.
  - intros id e' He'. destruct (decide (id = e)) as [->|Hne].
    + rewrite lookup_insert_eq in He'. injection He' as <-. cbn.
      match goal with Hx : events st !! e = Some _ |- _ => destruct (Hs e _ Hx) as [-> ->] end.
      rewrite !of_event_here by done. cbn. lia.
    + rewrite lookup_insert_ne in He' by done. rewrite !of_event_zero by done. by apply Hs.
  - intros id t' r. rewrite lookup_insert_Some. intros [[[= <- <-] <-]|[_ Hrow]]; cbn.
    + split_and!; try done; try lia. rewrite lookup_insert_eq. by eexists.
    + destruct (Hr id t' r Hrow) as (? & ? & ? & He). split_and!; try done; try lia.
      destruct (decide (id = e)) as [->|]; [rewrite lookup_insert_eq; by eexists|by rewrite lookup_insert_ne].
  - intros id id' t' Ha Hb. rewrite !lookup_insert_is_Some in *.
    destruct (decide (t' = t)) as [->|Ht].
    + assert (forall i, is_Some (rs_ratings st !! (i, t)) -> False) as Hno by (intros i; rewrite Hnew; by intros []).
      destruct Ha as [[= <-]|[_ Ha]]; [|by apply Hno in Ha]. destruct Hb as [[= <-]|[_ Hb]]; [done|by apply Hno in Hb].
    + destruct Ha as [[= _ <-]|[_ Ha]]; [done|]. destruct Hb as [[= _ <-]|[_ Hb]]; [done|]. by eapply Ho.
Qed.

(** A change of one event that keeps its sums. *)
Lemma ratings_ok_event st id e e' :
  ratings_ok st -> events st !! id = Some e ->
  e_sum_of_ratings e' = e_sum_of_ratings e -> e_count_of_ratings e' = e_count_of_ratings e ->
  ratings_ok (set_events (<[id := e']> (events st)) st).
Proof.
  intros Hok He Hs Hc. apply ratings_ok_events; [done| |].
  - intros id' x. rewrite lookup_insert_Some. intros [[<- <-]|[_ Hx]]; left; eauto.
  - intros id'. rewrite lookup_insert_is_Some'. auto.
Qed.
Lemma drop_list_ok st : ratings_ok st -> ratings_ok (drop_list st).
Proof. by intros []. Qed.

Lemma call_rating_ok c st : ratings_ok st -> ratings_ok (call_rating c st).
Proof.
  intros Hok. destruct c as [now e t r rv|now e|e|e b|e b|e|id t|id tier s]; cbn.
  - by apply rate_ok.
  - unfold get_ratings_summary. repeat case_match; try done. by destruct Hok.
  - unfold toggle_event_flag. destruct (events st !! e) eqn:He; [|done]. by eapply drop_list_ok, ratings_ok_event.
  - unfold set_event_featured. destruct (events st !! e) eqn:He; [|done]. by eapply drop_list_ok, ratings_ok_event.
  - unfold flag_event. destruct (events st !! e) eqn:He; [|done]. by eapply ratings_ok_event.
  - destruct (events st !! e_id e) eqn:He; [done|]. apply ratings_ok_events; [done| |].
    + intros id x. rewrite lookup_insert_Some. intros [[<- <-]|[_ Hx]]; [by right|left; eauto].
    + intros id. rewrite lookup_insert_is_Some'. auto.
  - by destruct Hok.
  - by destruct Hok.
Qed.

Lemma run_ratings_ok cs st : ratings_ok st -> ratings_ok (run_ratings cs st).
Proof. revert st. induction cs as [|c cs IH]; intros st Hst; [done|]. by apply IH, call_rating_ok. Qed.
Lemma no_ratings_ok : ratings_ok no_ratings.
Proof. split; intros *; cbn; rewrite ?lookup_empty; done. Qed.

Lemma sum_map_ratings_of id (f : Z -> Z) st :
  sum_map (of_event id (fun r => f (ra_rating r))) (rs_ratings st) = sum_by f (ratings_of id st).
Proof.
  rewrite sum_map_to_list. unfold ratings_of. rewrite (sum_by_map f ra_rating).
  generalize ((map_to_list (rs_ratings st)).*2). intros l. induction l as [|r l IH]; [done|].
  rewrite sum_by_cons, filter_cons, IH. unfold of_event at 1.
  destruct (Z.eqb_spec (ra_event r) id); [rewrite decide_True by done|rewrite decide_False by done];
    rewrite ?sum_by_cons; lia.
Qed.

(** C24: after any requests the ratings are exact: the sum and the count that an event
    shows are those of its rows, all of which are between one and five, one per ticket;
    and a summary that is computed has the same count and average. *)
Theorem ratings_exact cs id e now :
  let st := run_ratings cs no_ratings in
  events st !! id = Some e ->
  e_sum_of_ratings e = sum_by Datatypes.id (ratings_of id st)
  /\ e_count_of_ratings e = Z.of_nat (length (ratings_of id st))
  /\ Forall (fun r => 1 <= r <= 5) (ratings_of id st)
  /\ (forall t id' id'', is_Some (rs_ratings st !! (id', t)) -> is_Some (rs_ratings st !! (id'', t)) -> id' = id'')
  /\ (rs_summaries st !! id = None -> e_is_flagged e = false ->
      exists s, (get_ratings_summary now id st).1 = Ok s /\ su_total s = e_count_of_ratings e
        /\ (0 < e_count_of_ratings e -> su_average s = Qmake (e_sum_of_ratings e) (Z.to_pos (e_count_of_ratings e)))).
Proof.
  intros st He. assert (ratings_ok st) as [Hs Hr Ho] by (apply run_ratings_ok, no_ratings_ok).
  destruct (Hs id e He) as [Hsum Hcnt].
  assert (e_sum_of_ratings e = sum_by Datatypes.id (ratings_of id st)) as Es
    by (by rewrite Hsum, <- sum_map_ratings_of).
  assert (e_count_of_ratings e = Z.of_nat (length (ratings_of id st))) as Ec.
  { by rewrite Hcnt, (sum_map_ratings_of id (fun _ => 1)), sum_ones. }
  split_and!; [done|done| |intros t id' id''; apply Ho|].
  - apply Forall_forall. intros x (r & -> & [_ Hin]%list_elem_of_filter)%list_elem_of_fmap.
    apply list_elem_of_fmap in Hin as ([[id' t] r'] & -> & Hin%elem_of_map_to_list). by apply Hr in Hin as (_ & _ & ? & _).
  - intros Hno Hfl. unfold get_ratings_summary, visible_event. rewrite Hno, He. cbn. rewrite Hfl.
    eexists. split; [done|]. unfold summarize. cbn [su_total su_average].
    rewrite grouped_total, grouped_weighted, Es, Ec. split; [done|]. intros Hpos.
    destruct (Z.ltb_spec 0 (Z.of_nat (length (ratings_of id st)))); [done|lia].
Qed.

(** ** A concert that was rated *)
Module RatingsSample.
Definition event (id : Z) : Event :=
  mkEvent id 7 "t" None "l" 10 (Some 20) false false 0 0 0 0 100 0 None None None false false 0.
Definition calls : list RatingCall :=
  [NewEvent (event 1); SetTier 11 (mkTier 1 "vip" 0 10 10); SetTicket 21 11 "Scanned"; SetTicket 22 11 "Scanned";
   Rate 30 1 21 5 None; Rate 30 1 22 2 None; Rate 30 1 21 1 None].
Definition rated : RatingState := run_ratings calls no_ratings.

Lemma ratings_exact_witness :
  exists e, events rated !! 1 = Some e /\ e_sum_of_ratings e = 7 /\ e_count_of_ratings e = 2
    /\ e_count_of_ratings e = Z.of_nat (length (ratings_of 1 rated)).
Proof.
  destruct (events rated !! 1) as [e|] eqn:He; [|vm_compute in He; discriminate He].
  exists e. split; [done|]. split; [|split].
  - vm_compute in He. by injection He as <-.
  - vm_compute in He. by injection He as <-.
  - by apply (ratings_exact calls 1 e 0).
Defined.

(** An empty page of the listing is kept when an event is unflagged with [flag_event],
    which then is missing from the listing until the page expires. *)
Definition empty_page : CursorResponse Event :=
  with_total 0 true (new [] (validate (mkCursorParams 20 None true)) None).
Example page_survives_flag :
  rs_list (flag_event 1 false (rated <| rs_list := Some (90, empty_page) |>)).2 = Some (90, empty_page)
  /\ cached_page 40 (Some (90, empty_page)) = Some empty_page.
Proof. split; by vm_compute. Qed.
(** A page with events is never served from the cache. *)
Example full_page_unreadable now t r : cr_items r <> [] -> cached_page now (Some (t, r)) = None.
Proof.
  intros Hr. unfold cached_page, cache_get. destruct (now <? t); [|done]. cbn [mbind option_bind].
  destruct (cr_items r) as [|e l]; [done|]. by replace event_readable with false by by vm_compute.
Qed.
End RatingsSample.
