(* ===== verification/Listener.v ===== *)
(** * Server: the Soroban event listener and its job queue

    [handlers/soroban_listener.rs].  The polling loop, the Redis list, the fallback
    channel and the pool of workers are one transition system: an action names who
    moves and what the outside answered, and the state is what the tasks and Redis hold.
    The tables are those of [Indexer], which writes the same tickets.  A job in Redis is
    its own text: only serialised jobs are pushed.  The record [h_] fields are the
    messages of the log. *)

From stdpp Require Import base tactics numbers list strings pretty gmap.
From S2P Require Import Prelude.
From S2P Require Import ServerPrelude.
From S2P Require Import IndexerEvent.
From S2P Require Import Indexer.

Definition MIN_CONFIRMATIONS : Z := 2.
Definition POLL_INTERVAL : Z := 5.
Definition MAX_BACKOFF : Z := 300.
Definition MAX_EVENTS : nat := 100.
Definition MAX_JOB_RETRIES : Z := 5.
Definition WORKER_POOL_SIZE : nat := 4.
Definition CHANNEL_SIZE : nat := 1000.

Record SorobanEvent := mkSorobanEvent {
  se_id : string; se_ledger : Z; se_contract_id : string; se_topic : list string;
  se_value : Json; se_closed_at : option string;
}.
Record SorobanJob := mkJob {
  j_id : string; j_event : SorobanEvent; j_retry_count : Z; j_max_retries : Z; j_created_at : Z;
}.
#[export] Instance SorobanJob_eta : Eta SorobanJob := fun j =>
  mkJob (j_id j) (j_event j) (j_retry_count j) (j_max_retries j) (j_created_at j).

Definition new_job (now : Z) (event : SorobanEvent) : SorobanJob :=
  mkJob ("job_" +:+ se_id event +:+ "_" +:+ pretty (se_ledger event)) event 0 MAX_JOB_RETRIES now.

(** [u64::pow] is checked here: it panics on overflow in a debug build. *)
Definition backoff_duration (j : SorobanJob) : option Z :=
  p ← checked U64 (2 ^ j_retry_count j); Some (Z.min p 60).

Record ListenerConfig := mkListenerConfig {
  lc_rpc_url : string; lc_ticket_payment_contract_id : string;
  lc_event_registry_contract_id : string; lc_start_ledger : Z; lc_redis_url : option string;
}.

(** [ListenerConfig::from_env], over the environment and [str::parse] for [u32]. *)
Definition listener_from_env (parse_u32 : string -> option Z) (env : string -> option string)
    : ListenerConfig :=
  mkListenerConfig
    (default "https://soroban-testnet.stellar.org"%string (env "SOROBAN_RPC_URL"%string))
    (default ""%string (env "TICKET_PAYMENT_CONTRACT_ID"%string))
    (default ""%string (env "EVENT_REGISTRY_CONTRACT_ID"%string))
    (default 0 (env "SOROBAN_START_LEDGER"%string ≫= parse_u32))
    (env "REDIS_URL"%string).

(** ** The request and its answer *)
Record GetEventsRequest := mkRequest {
  rq_start_ledger : option Z; rq_contract_ids : list string; rq_limit : nat; rq_cursor : option string;
}.
Record GetEventsResult := mkResult { gr_events : list SorobanEvent; gr_latest_ledger : Z }.
Inductive RpcOutcome :=
  | HttpFailed
  | NotParsed
  | Answer (result : option GetEventsResult) (error : option Json).

Definition watched_ids (config : ListenerConfig) : list string :=
  filter (fun id => id <> ""%string)
    [lc_ticket_payment_contract_id config; lc_event_registry_contract_id config].
Definition request_of (config : ListenerConfig) (cursor : option string) (start_ledger : option Z)
    : GetEventsRequest :=
  mkRequest start_ledger (watched_ids config) MAX_EVENTS cursor.

Inductive PollError := RequestFailed | ParseFailed | RpcFailed (err : Json).
Definition poll_events (o : RpcOutcome) : Result PollError (option GetEventsResult) :=
  match o with
  | HttpFailed => Err RequestFailed
  | NotParsed => Err ParseFailed
  | Answer _ (Some err) => Err (RpcFailed err)
  | Answer (Some result) None =>
      if bool_decide (gr_events result = []) then Ok None else Ok (Some result)
  | Answer None None => Ok None
  end.

Definition should_immediately_fetch_next_page (events_returned : nat) : bool :=
  (events_returned =? MAX_EVENTS)%nat.

(** ** Event processing: [up] says whether the database answers *)
Section Process.
Context `{Texts}.
Variables (config : ListenerConfig) (up : bool).

Definition as_bool (v : Json) : option bool := match v with JBool b => Some b | _ => None end.
Definition bool_field (k : string) (v : Json) : bool := default false (get k v ≫= as_bool).
Definition stellar_id_or (event : SorobanEvent) : string :=
  default (se_id event) (get "stellar_id" (se_value event) ≫= as_str).

(** A query that fails when the database does not answer. *)
Definition query (q : Result IndexerError Db) : Result IndexerError Db :=
  if up then q else Err Database.

Definition handle_ticket_purchased (event : SorobanEvent) (db : Db) : Result IndexerError Db :=
  let data := se_value event in
  let event_id := field "event_id" data in
  let buyer_wallet := field "buyer" data in
  let owner_wallet := default buyer_wallet (get "owner" data ≫= as_str) in
  let stellar_id := stellar_id_or event in
  if bool_decide (event_id = ""%string) || bool_decide (buyer_wallet = ""%string) then Ok db
  else query (
    uuid ← ok_or (cast_uuid event_id) Database;
    insert_ticket (mkTicket (Some stellar_id) (Some uuid) (Some buyer_wallet) (Some owner_wallet)
                     "Unused") db).

Definition handle_ticket_refunded (event : SorobanEvent) (db : Db) : Result IndexerError Db :=
  let stellar_id := stellar_id_or event in
  query (Ok (db <| db_tickets :=
    (fun t => if bool_decide (tk_stellar_id t = Some stellar_id)
              then t <| tk_status := "Revoked"%string |> else t) <$> db_tickets db |>)).

(** The events table only changes its time of update. *)
Definition touch_event (id : string) (db : Db) : Result IndexerError Db :=
  match parse_uuid id with Some _ => query (Ok db) | None => Ok db end.
Definition handle_event_registered (event : SorobanEvent) (db : Db) : Result IndexerError Db :=
  let id := field "event_id" (se_value event) in
  if bool_decide (id = ""%string) then Ok db else touch_event id db.
Definition handle_event_status_updated (event : SorobanEvent) (db : Db) : Result IndexerError Db :=
  let id := field "event_id" (se_value event) in
  if bool_decide (id = ""%string) then Ok db else touch_event id db.

Definition set_verified (organizer : string) (verified : bool) (db : Db) : Db :=
  db <| db_organizers :=
    (fun '(w, v) => if bool_decide (w = organizer) then (w, verified) else (w, v))
      <$> db_organizers db |>.
Definition handle_collateral_staked (event : SorobanEvent) (db : Db) : Result IndexerError Db :=
  let organizer := field "organizer" (se_value event) in
  let is_verified := bool_field "is_verified" (se_value event) in
  if bool_decide (organizer = ""%string) then Ok db
  else query (Ok (set_verified organizer is_verified db)).
Definition handle_collateral_unstaked (event : SorobanEvent) (db : Db) : Result IndexerError Db :=
  let organizer := field "organizer" (se_value event) in
  if bool_decide (organizer = ""%string) then Ok db
  else query (Ok (set_verified organizer false db)).

Definition event_name (event : SorobanEvent) : string := default "unknown"%string (head (se_topic event)).
Definition named (event : SorobanEvent) (names : list string) : bool :=
  bool_decide (event_name event ∈ names).

Definition process_event (event : SorobanEvent) (db : Db) : Result IndexerError Db :=
  if bool_decide (se_contract_id event = lc_ticket_payment_contract_id config) then
    if named event ["ticket_purchased"; "purchase_confirmed"]%string then handle_ticket_purchased event db
    else if named event ["ticket_refunded"]%string then handle_ticket_refunded event db
    else Ok db
  else if bool_decide (se_contract_id event = lc_event_registry_contract_id config) then
    if named event ["event_registered"]%string then handle_event_registered event db
    else if named event ["event_status_updated"; "event_cancelled"]%string
    then handle_event_status_updated event db
    else if named event ["collateral_staked"; "CollateralStaked"]%string
    then handle_collateral_staked event db
    else if named event ["collateral_unstaked"; "CollateralUnstaked"]%string
    then handle_collateral_unstaked event db
    else Ok db
  else Ok db.
End Process.

(** ** The tasks *)

(** What Redis does with a command: it runs it and answers, refuses it, or runs it
    without the answer coming back. *)
Inductive RedisReply := Answered | Refused | Unanswered.

(** The polling task is between polls or has part of a page left to enqueue. *)
Inductive Phase :=
  | Polling
  | Enqueuing (latest : Z) (todo page : list SorobanEvent).
Inductive Worker := Idle | Running (job : SorobanJob) | Sleeping (job : SorobanJob).

(** The log: jobs enqueued, processed, and given up because a queue took no copy. *)
Record History := mkHistory {
  h_enqueued : list SorobanJob; h_finished : list SorobanJob; h_failed : list SorobanJob;
  h_lost : list SorobanJob;
}.
#[export] Instance History_eta : Eta History := fun h =>
  mkHistory (h_enqueued h) (h_finished h) (h_failed h) (h_lost h).

Record Tasks := mkTasks {
  s_phase : Phase; s_cursor : option string; s_start_ledger : option Z; s_backoff : Z;
  s_wait : Z; (* the sleep before the next poll, in seconds *)
  s_client : bool; (* a Redis client for the queues *)
  s_cache : bool; (* a Redis cache for the cursor *)
  s_saved_cursor : option string;
  s_queue : list SorobanJob; s_dead : list SorobanJob; s_channel : list SorobanJob;
  s_workers : list Worker; s_db : Db; s_log : History;
}.
#[export] Instance Tasks_eta : Eta Tasks := fun s =>
  mkTasks (s_phase s) (s_cursor s) (s_start_ledger s) (s_backoff s) (s_wait s) (s_client s) (s_cache s)
    (s_saved_cursor s) (s_queue s) (s_dead s) (s_channel s) (s_workers s) (s_db s) (s_log s).

(** The start of [run_listener]: the cursor comes from the cache when it has one.
    [queue] and [dead] are what an earlier process left in Redis. *)
Definition start_listener (config : ListenerConfig) (client cache : bool) (saved : option string)
    (queue dead : list SorobanJob) (db : Db) : option Tasks :=
  if bool_decide (watched_ids config = []) then None
  else
    let cursor := if cache then saved else None in
    Some (mkTasks Polling cursor
            (if cursor is None then Some (lc_start_ledger config) else None) POLL_INTERVAL 0 client cache
            saved queue dead [] (replicate WORKER_POOL_SIZE Idle) db (mkHistory [] [] [] [])).


(** Whether a push leaves a copy in Redis, and whether the caller learns of it. *)
Definition stored (client : bool) (r : RedisReply) : bool :=
  client && match r with Refused => false | _ => true end.
Definition confirmed (client : bool) (r : RedisReply) : bool :=
  client && match r with Answered => true | _ => false end.

(** [push_job]: the list in Redis, or the channel when no confirmation came.  A full
    channel makes the sender wait. *)
Definition push_job (r : RedisReply) (job : SorobanJob) (s : Tasks) : option Tasks :=
  let s1 := if stored (s_client s) r then s <| s_queue := s_queue s ++ [job] |> else s in
  if confirmed (s_client s) r then Some s1
  else if (length (s_channel s1) <? CHANNEL_SIZE)%nat
       then Some (s1 <| s_channel := s_channel s1 ++ [job] |>) else None.

Definition log_enqueued (job : SorobanJob) (s : Tasks) : Tasks :=
  s <| s_log := (s_log s) <| h_enqueued := h_enqueued (s_log s) ++ [job] |> |>.
Definition log_finished (job : SorobanJob) (s : Tasks) : Tasks :=
  s <| s_log := (s_log s) <| h_finished := h_finished (s_log s) ++ [job] |> |>.
Definition log_failed (job : SorobanJob) (s : Tasks) : Tasks :=
  s <| s_log := (s_log s) <| h_failed := h_failed (s_log s) ++ [job] |> |>.
Definition log_lost (job : SorobanJob) (s : Tasks) : Tasks :=
  s <| s_log := (s_log s) <| h_lost := h_lost (s_log s) ++ [job] |> |>.

(** *** The polling loop of [run_listener] *)
Definition poll (o : RpcOutcome) (s : Tasks) : option Tasks :=
  match s_phase s with
  | Polling =>
      match poll_events o with
      | Ok (Some result) =>
          Some (s <| s_phase := Enqueuing (gr_latest_ledger result) (gr_events result) (gr_events result) |>)
      | Ok None => Some (s <| s_backoff := POLL_INTERVAL |> <| s_wait := POLL_INTERVAL |>)
      | Err _ => Some (s <| s_wait := s_backoff s |>
                         <| s_backoff := Z.min (s_backoff s * 2) MAX_BACKOFF |>)
      end
  | _ => None
  end.

Definition is_final (latest : Z) (event : SorobanEvent) : bool :=
  negb (Z.max 0 (latest - se_ledger event) <? MIN_CONFIRMATIONS).

Definition enqueue_next (now : Z) (r : RedisReply) (s : Tasks) : option Tasks :=
  match s_phase s with
  | Enqueuing latest (event :: todo) page =>
      let s1 := s <| s_phase := Enqueuing latest todo page |> in
      if is_final latest event then
        let job := new_job now event in
        log_enqueued job <$> push_job r job s1
      else Some s1
  | _ => None
  end.

Definition end_page (r : RedisReply) (s : Tasks) : option Tasks :=
  match s_phase s with
  | Enqueuing _ [] page =>
      let s1 := match last page with
                | Some event =>
                    let s1 := s <| s_cursor := Some (se_id event) |> <| s_start_ledger := None |> in
                    if stored (s_cache s) r then s1 <| s_saved_cursor := Some (se_id event) |> else s1
                | None => s
                end in
      Some (s1 <| s_phase := Polling |> <| s_backoff := POLL_INTERVAL |>
               <| s_wait := if should_immediately_fetch_next_page (length page) then 0
                            else POLL_INTERVAL |>)
  | _ => None
  end.

(** *** [run_worker] *)
Definition set_worker (w : nat) (x : Worker) (s : Tasks) : Tasks :=
  s <| s_workers := <[w := x]> (s_workers s) |>.

(** The pop: the list in Redis, then the channel.  An answer that gets lost loses
    the job that was popped. *)
Definition take_channel (w : nat) (s : Tasks) : Tasks :=
  match s_channel s with
  | job :: rest => set_worker w (Running job) (s <| s_channel := rest |>)
  | [] => s
  end.
Definition take_job (w : nat) (r : RedisReply) (s : Tasks) : option Tasks :=
  match s_workers s !! w with
  | Some Idle =>
      match s_queue s with
      | job :: rest =>
          if confirmed (s_client s) r
          then Some (set_worker w (Running job) (s <| s_queue := rest |>))
          else if stored (s_client s) r
          then Some (take_channel w (log_lost job (s <| s_queue := rest |>)))
          else Some (take_channel w s)
      | [] => Some (take_channel w s)
      end
  | _ => None
  end.

Section Worker.
Context `{Texts}.
Variable config : ListenerConfig.

Definition work (w : nat) (up : bool) (r : RedisReply) (s : Tasks) : option Tasks :=
  match s_workers s !! w with
  | Some (Running job) =>
      match process_event config up (j_event job) (s_db s) with
      | Ok db => Some (log_finished job (set_worker w Idle (s <| s_db := db |>)))
      | Err _ =>
          let s := log_failed job s in
          if j_retry_count job <? j_max_retries job then
            let job := job <| j_retry_count := j_retry_count job + 1 |> in
            _ ← backoff_duration job;
            Some (set_worker w (Sleeping job) s)
          else
            let s := set_worker w Idle s in
            Some (if stored (s_client s) r then s <| s_dead := s_dead s ++ [job] |> else log_lost job s)
      end
  | _ => None
  end.
End Worker.

Definition requeue (w : nat) (r : RedisReply) (s : Tasks) : option Tasks :=
  match s_workers s !! w with
  | Some (Sleeping job) =>
      let s := set_worker w Idle s in
      Some (if stored (s_client s) r then s <| s_queue := s_queue s ++ [job] |> else log_lost job s)
  | _ => None
  end.

(** *** Runs *)
Inductive Action :=
  | Poll (o : RpcOutcome)
  | EnqueueNext (now : Z) (r : RedisReply)
  | EndPage (r : RedisReply)
  | TakeJob (w : nat) (r : RedisReply)
  | Work (w : nat) (up : bool) (r : RedisReply)
  | Requeue (w : nat) (r : RedisReply).

Section Runs.
Context `{Texts}.
Variable config : ListenerConfig.

Definition act (a : Action) (s : Tasks) : option Tasks :=
  match a with
  | Poll o => poll o s
  | EnqueueNext now r => enqueue_next now r s
  | EndPage r => end_page r s
  | TakeJob w r => take_job w r s
  | Work w up r => work config w up r s
  | Requeue w r => requeue w r s
  end.

Fixpoint acts (l : list Action) (s : Tasks) : option Tasks :=
  match l with
  | [] => Some s
  | a :: l => s ← act a s; acts l s
  end.
End Runs.
