(* ===== verification/ListenerJobs.v ===== *)
(** * Server: the jobs of the Soroban listener

    Theorems on [Listener]: the conservation of jobs over the interleavings of the
    polling task and the workers, the attempts at a job, the drain of the queue, the
    cursor, and the redelivery of events.  That a page holds the next events after the
    cursor is the documented behaviour of the node ([page_ok]). *)

From stdpp Require Import base tactics numbers list strings pretty gmap relations.
From Stdlib Require Import Ascii.
From S2P Require Import Prelude.
From S2P Require Import ServerPrelude.
From S2P Require Import IndexerEvent.
From S2P Require Import Indexer.
From S2P Require Import Listener.

(** ** Conservation of jobs *)

(** A job as it was enqueued. *)
Definition fresh (j : SorobanJob) : SorobanJob := j <| j_retry_count := 0 |>.
Definition held (x : Worker) : list SorobanJob :=
  match x with Idle => [] | Running j => [j] | Sleeping j => [j] end.
(** The jobs that are still to be done, and all places a job can be in. *)
Definition live (s : Tasks) : list SorobanJob := s_queue s ++ s_channel s ++ (s_workers s ≫= held).
Definition settled (s : Tasks) : list SorobanJob := h_finished (s_log s) ++ s_dead s ++ h_lost (s_log s).
Definition places (s : Tasks) : list SorobanJob := live s ++ settled s.

Lemma held_insert l w x y : l !! w = Some y ->
  held y ++ (<[w := x]> l ≫= held) ≡ₚ held x ++ (l ≫= held).
Proof.
  revert w. induction l as [|z l IH]; intros [|w] Hl; [done..| |]; cbn in Hl |- *.
  - injection Hl as ->. by rewrite !app_assoc, (Permutation_app_comm (held y)).
  - specialize (IH w Hl). rewrite !app_assoc, (Permutation_app_comm (held y)), (Permutation_app_comm (held x)).
    rewrite <- !app_assoc. by rewrite IH.
Qed.

(** A worker that was idle takes a job, or gives up the one it holds. *)
Lemma held_take l w j : l !! w = Some Idle -> (<[w := Running j]> l ≫= held) ≡ₚ j :: (l ≫= held).
Proof. intros Hl. apply (held_insert _ _ (Running j)) in Hl. done. Qed.
Lemma held_give l w y j : l !! w = Some y -> held y = [j] ->
  (l ≫= held) ≡ₚ j :: (<[w := Idle]> l ≫= held).
Proof. intros Hl Hy. apply (held_insert _ _ Idle) in Hl. rewrite Hy in Hl. symmetry. exact Hl. Qed.

Definition reply (a : Action) : RedisReply :=
  match a with
  | Poll _ => Answered
  | EnqueueNext _ r | EndPage r | TakeJob _ r | Work _ _ r | Requeue _ r => r
  end.
Definition definite (a : Action) : Prop := reply a <> Unanswered.

(** What a step adds to the places: nothing but the job it enqueues. *)
Definition delta (s s' : Tasks) : Prop :=
  exists new, h_enqueued (s_log s') = h_enqueued (s_log s) ++ new /\
    fresh <$> places s' ≡ₚ new ++ (fresh <$> places s).
Lemma delta_same s s' : h_enqueued (s_log s') = h_enqueued (s_log s) ->
  places s' ≡ₚ places s -> delta s s'.
Proof. intros He Hp. exists []. rewrite app_nil_r. split; [done|]. by rewrite Hp. Qed.
Lemma delta_fresh s s' : h_enqueued (s_log s') = h_enqueued (s_log s) ->
  fresh <$> places s' ≡ₚ fresh <$> places s -> delta s s'.
Proof. intros He Hp. exists []. rewrite app_nil_r. split; [done|]. by rewrite Hp. Qed.

Lemma take_channel_delta w s : s_workers s !! w = Some Idle -> delta s (take_channel w s).
Proof.
  intros Hw. unfold take_channel. destruct (s_channel s) as [|j c] eqn:Hc; [by apply delta_same|].
  apply delta_same; [done|]. unfold places, live, settled, set_worker. upd_simpl.
  rewrite Hc, held_take by done. solve_Permutation.
Qed.

Lemma take_job_delta w r s s' : r <> Unanswered -> take_job w r s = Some s' -> delta s s'.
Proof.
  intros Hr. unfold take_job. destruct (s_workers s !! w) as [[]|] eqn:Hw; try done.
  destruct (s_queue s) as [|j q] eqn:Hq; [intros [= <-]; by apply take_channel_delta|].
  destruct (confirmed _ _) eqn:Hc.
  - intros [= <-]. apply delta_same; [done|]. unfold places, live, settled, set_worker. upd_simpl.
    rewrite Hq, held_take by done. solve_Permutation.
  - replace (stored (s_client s) r) with false by (destruct (s_client s), r; done).
    intros [= <-]. by apply take_channel_delta.
Qed.

Lemma push_job_delta r job s s' : r <> Unanswered -> fresh job = job ->
  push_job r job s = Some s' -> delta s (log_enqueued job s').
Proof.
  intros Hr Hj. unfold push_job.
  replace (stored (s_client s) r) with (confirmed (s_client s) r) by (destruct (s_client s), r; done).
  destruct (confirmed (s_client s) r).
  2: case_match; [|done].
  all: intros [= <-]; exists [job]; (split; [done|]); unfold places, live, settled, log_enqueued;
    upd_simpl; rewrite !fmap_app, fmap_cons, fmap_nil, Hj; solve_Permutation.
Qed.

Lemma requeue_delta w r s s' : requeue w r s = Some s' -> delta s s'.
Proof.
  unfold requeue. destruct (s_workers s !! w) as [[| |j]|] eqn:Hw; try done. intros [= <-].
  apply (held_give _ _ _ j) in Hw; [|done].
  destruct (stored _ _); apply delta_same; try done; unfold places, live, settled, set_worker, log_lost;
    upd_simpl; rewrite Hw; solve_Permutation.
Qed.

Lemma work_delta `{Texts} config w up r s s' : work config w up r s = Some s' -> delta s s'.
Proof.
  unfold work. destruct (s_workers s !! w) as [[|j|]|] eqn:Hw; try done.
  pose proof (held_give _ _ _ j Hw eq_refl) as Hg.
  destruct (process_event _ _ _ _).
  { intros [= <-]. apply delta_same; [done|]. unfold places, live, settled, set_worker, log_finished.
    upd_simpl. rewrite Hg. solve_Permutation. }
  case_match.
  - intros (? & _ & [= <-])%bind_Some. apply delta_fresh; [done|].
    unfold places, live, settled, set_worker, log_failed. upd_simpl.
    apply (held_insert _ _ (Sleeping (j <| j_retry_count := j_retry_count j + 1 |>))) in Hw. cbn [held] in Hw.
    apply (fmap_Permutation fresh) in Hw. rewrite !fmap_app in Hw. cbn in Hw.
    apply Permutation_cons_inv in Hw. by rewrite !fmap_app, Hw.
  - intros [= <-]. destruct (stored _ _); apply delta_same; try done;
      unfold places, live, settled, set_worker, log_lost, log_failed; upd_simpl; rewrite Hg; solve_Permutation.
Qed.

Lemma delta_places s s' : s_log s' = s_log s -> s_queue s' = s_queue s -> s_channel s' = s_channel s ->
  s_workers s' = s_workers s -> s_dead s' = s_dead s -> delta s s'.
Proof.
  intros Hl Hq Hc Hw Hd. apply delta_same; [by rewrite Hl|].
  unfold places, live, settled. by rewrite Hl, Hq, Hc, Hw, Hd.
Qed.

Lemma act_delta `{Texts} config a s s' : definite a -> act config a s = Some s' -> delta s s'.
Proof.
  intros Hd. destruct a as [o|now r|r|w r|w up r|w r]; cbn.
  - unfold poll. destruct (s_phase s); [|done].
    destruct (poll_events o) as [[]|]; intros [= <-]; by apply delta_places.
  - unfold enqueue_next. destruct (s_phase s) as [|latest [|e todo] page]; try done.
    destruct (is_final _ _); [|intros [= <-]; by apply delta_places].
    intros (s1 & Hp & ->)%fmap_Some_1. eapply push_job_delta in Hp; done.
  - unfold end_page. destruct (s_phase s) as [|latest [|e todo] page]; try done. intros [= <-].
    destruct (last page); [destruct (stored _ _)|]; by apply delta_places.
  - by apply take_job_delta.
  - apply work_delta.
  - apply requeue_delta.
Qed.

Lemma acts_delta `{Texts} config l : forall s s', Forall definite l -> acts config l s = Some s' -> delta s s'.
Proof.
  induction l as [|a l IH]; intros s s' Hd; cbn.
  { intros [= <-]. by apply delta_same. }
  inversion Hd as [|? ? Ha Hl]; subst. intros (s1 & H1 & H2)%bind_Some.
  apply act_delta in H1 as (n1 & He1 & Hp1); [|done]. apply IH in H2 as (n2 & He2 & Hp2); [|done].
  exists (n1 ++ n2). rewrite He2, He1, <- app_assoc. split; [done|]. rewrite Hp2, Hp1.
  rewrite !app_assoc. by rewrite (Permutation_app_comm n1).
Qed.

(** ** Attempts, when Redis answers *)
Definition answered (a : Action) : Prop := reply a = Answered.

(** The attempts at a job that failed, told from the job: all those before its count
    of retries, and the last one too when it is dead. *)
Definition attempts (n : Z) (j : SorobanJob) : list SorobanJob :=
  (fun k => j <| j_retry_count := k |>) <$> seqZ 0 n.
Definition before (j : SorobanJob) : list SorobanJob := attempts (j_retry_count j) j.
Definition upto (j : SorobanJob) : list SorobanJob := attempts (j_retry_count j + 1) j.

Definition good_job (j : SorobanJob) : Prop :=
  j_max_retries j = MAX_JOB_RETRIES /\ 0 <= j_retry_count j <= MAX_JOB_RETRIES.
Definition dead_job (j : SorobanJob) : Prop :=
  j_max_retries j = MAX_JOB_RETRIES /\ j_retry_count j = MAX_JOB_RETRIES.

Record Reliable (s : Tasks) : Prop := mkReliable {
  rel_client : s_client s = true;
  rel_channel : s_channel s = [];
  rel_lost : h_lost (s_log s) = [];
  rel_workers : length (s_workers s) = WORKER_POOL_SIZE;
  rel_good : Forall good_job (live s ++ h_finished (s_log s));
  rel_dead : Forall dead_job (s_dead s);
  rel_failed : h_failed (s_log s) ≡ₚ ((live s ++ h_finished (s_log s)) ≫= before) ++ (s_dead s ≫= upto);
}.

Lemma attempts_snoc n j : 0 <= n -> attempts (n + 1) j = attempts n j ++ [j <| j_retry_count := n |>].
Proof. intros Hn. unfold attempts. by rewrite seqZ_app, fmap_app by lia. Qed.
Lemma before_next j : 0 <= j_retry_count j ->
  before (j <| j_retry_count := j_retry_count j + 1 |>) ≡ₚ j :: before j.
Proof.
  intros Hj. unfold before. upd_simpl. rewrite attempts_snoc, Permutation_app_comm by done.
  by destruct j.
Qed.
Lemma upto_before j : 0 <= j_retry_count j -> upto j ≡ₚ j :: before j.
Proof.
  intros Hj. unfold upto, before. rewrite attempts_snoc, Permutation_app_comm by done. by destruct j.
Qed.


Lemma good_backoff j : good_job j -> j_retry_count j < MAX_JOB_RETRIES ->
  exists b, backoff_duration (j <| j_retry_count := j_retry_count j + 1 |>) = Some b /\ 2 <= b <= 32.
Proof.
  intros [_ Hj] Hr. unfold backoff_duration, MAX_JOB_RETRIES in *. upd_simpl.
  assert (2 ^ 1 <= 2 ^ (j_retry_count j + 1) <= 2 ^ 5) as Hp by (split; apply Z.pow_le_mono_r; lia).
  rewrite checked_in by (cbn; lia). cbn. eexists. split; [done|]. lia.
Qed.

Lemma new_job_good now e : good_job (new_job now e).
Proof. unfold good_job, new_job, MAX_JOB_RETRIES. cbn. lia. Qed.

(** Steps that move no job keep the invariant. *)
Lemma reliable_places s s' : s_client s' = s_client s -> s_log s' = s_log s -> s_queue s' = s_queue s ->
  s_channel s' = s_channel s -> s_workers s' = s_workers s -> s_dead s' = s_dead s -> Reliable s -> Reliable s'.
Proof.
  intros H1 Hl Hq Hc Hw Hd [????? ? ?]. split; unfold live in *; rewrite ?H1, ?Hl, ?Hq, ?Hc, ?Hw, ?Hd; done.
Qed.

(** A step that permutes the jobs at work. *)
Lemma reliable_live s s' : Reliable s -> s_client s' = true -> s_channel s' = [] ->
  h_lost (s_log s') = [] -> length (s_workers s') = WORKER_POOL_SIZE -> s_dead s' = s_dead s ->
  h_failed (s_log s') = h_failed (s_log s) ->
  live s' ++ h_finished (s_log s') ≡ₚ live s ++ h_finished (s_log s) -> Reliable s'.
Proof.
  intros [? ? ? ? Hg Hd Hf] ? ? ? ? Hde Hfe Hp. split; try done; rewrite ?Hp, ?Hde, ?Hfe; done.
Qed.

Ltac place := unfold live, set_worker, log_lost, log_failed, log_finished, log_enqueued; upd_simpl.

Lemma take_job_reliable w s s' : Reliable s -> take_job w Answered s = Some s' -> Reliable s'.
Proof.
  intros Hs. unfold take_job. destruct (s_workers s !! w) as [[]|] eqn:Hw; try done.
  destruct (s_queue s) as [|j q] eqn:Hq.
  - unfold take_channel. rewrite (rel_channel _ Hs). by intros [= <-].
  - unfold confirmed. rewrite (rel_client _ Hs). cbn [andb]. intros [= <-].
    apply (reliable_live s); try apply Hs; try done; place; [by rewrite length_insert; apply Hs|].
    rewrite Hq, held_take by done. solve_Permutation.
Qed.

Lemma requeue_reliable w s s' : Reliable s -> requeue w Answered s = Some s' -> Reliable s'.
Proof.
  intros Hs. unfold requeue. destruct (s_workers s !! w) as [[| |j]|] eqn:Hw; try done.
  unfold stored, set_worker. upd_simpl. rewrite (rel_client _ Hs). cbn [andb]. intros [= <-].
  apply (reliable_live s); try apply Hs; try done; place; [by rewrite length_insert; apply Hs|].
  rewrite (held_give _ _ _ j Hw) by done. solve_Permutation.
Qed.

Lemma enqueue_reliable now s s' : Reliable s -> enqueue_next now Answered s = Some s' -> Reliable s'.
Proof.
  intros Hs. unfold enqueue_next. destruct (s_phase s) as [|latest [|e todo] page]; try done.
  destruct (is_final _ _); [|intros [= <-]; by apply (reliable_places s)].
  unfold push_job, stored, confirmed. upd_simpl. rewrite (rel_client _ Hs). cbn. intros [= <-].
  destruct Hs as [? ? ? ? Hg ? Hf]. split; try done; place.
  - apply Forall_app. apply Forall_app in Hg as [Hg ?]. split; [|done]. unfold live in Hg.
    rewrite !Forall_app in *. destruct Hg as (? & ? & ?).
    split_and!; try done. by repeat constructor; apply new_job_good.
  - rewrite Hf. unfold live. rewrite !bind_app. cbn. by rewrite app_nil_r.
Qed.

Lemma work_good `{Texts} w s j : Reliable s -> s_workers s !! w = Some (Running j) -> good_job j.
Proof.
  intros Hs Hw. pose proof (rel_good _ Hs) as Hg. unfold live in Hg.
  rewrite (held_give _ _ _ j Hw), !Forall_app in Hg by done. destruct Hg as [(_ & _ & Hg) _].
  by inversion Hg.
Qed.

(** The job of a worker apart from the others. *)
Lemma live_split s w j : s_workers s !! w = Some (Running j) ->
  live s ≡ₚ j :: live (set_worker w Idle s).
Proof. intros Hw. place. rewrite (held_give _ _ _ j Hw) by done. solve_Permutation. Qed.
Lemma live_sleep s w j : s_workers s !! w = Some (Running j) -> forall j',
  live (set_worker w (Sleeping j') s) ≡ₚ j' :: live (set_worker w Idle s).
Proof.
  intros Hw j'. place.
  assert (w < length (s_workers s))%nat by (by eapply lookup_lt_Some).
  pose proof (held_give (<[w := Sleeping j']> (s_workers s)) w (Sleeping j') j') as Hg.
  rewrite Hg by (done || by apply list_lookup_insert_eq). rewrite list_insert_insert_eq. solve_Permutation.
Qed.

Lemma work_reliable `{Texts} config w up s s' :
  Reliable s -> work config w up Answered s = Some s' -> Reliable s'.
Proof.
  intros Hs. unfold work. destruct (s_workers s !! w) as [[|j|]|] eqn:Hw; try done.
  pose proof (work_good _ _ _ Hs Hw) as Hj. pose proof (live_split _ _ _ Hw) as Hsp.
  destruct (process_event _ _ _ _).
  { intros [= <-]. apply (reliable_live s); try apply Hs; try done; [by place; rewrite length_insert; apply Hs|].
    rewrite Hsp. place. solve_Permutation. }
  destruct Hs as [Hc Hch Hl Hlen Hgood Hd Hf]. rewrite Hsp in Hgood, Hf. cbn in Hf.
  apply Forall_cons in Hgood as [_ Hgood]. destruct Hj as [Hmax Hr]. case_match; bools.
  - rewrite Hmax in *. intros (? & _ & [= <-])%bind_Some.
    split; try done; [by place; rewrite length_insert|..];
      change (live _) with (live (set_worker w (Sleeping (j <| j_retry_count := j_retry_count j + 1 |>)) s));
      rewrite (live_sleep _ _ _ Hw); place.
    + constructor; [|done]. split; [done|]. upd_simpl. lia.
    + rewrite Hf. cbn. rewrite before_next by lia. solve_Permutation.
  - rewrite Hmax in *. unfold stored, set_worker, log_failed. upd_simpl. rewrite Hc. cbn [andb]. intros [= <-].
    split; try done; [by place; rewrite length_insert|..].
    + place. apply Forall_app. split; [done|]. repeat constructor; [done|]. lia.
    + change (live _) with (live (set_worker w Idle s)). place. rewrite Hf.
      rewrite (bind_app _ _ [j]). cbn. rewrite app_nil_r, upto_before by lia. solve_Permutation.
Qed.

Lemma act_reliable `{Texts} config a s s' :
  answered a -> Reliable s -> act config a s = Some s' -> Reliable s'.
Proof.
  intros Ha Hs. destruct a as [o|now r|r|w r|w up r|w r]; cbn in *; unfold answered in Ha; cbn in Ha; subst.
  - unfold poll. destruct (s_phase s); [|done].
    destruct (poll_events o) as [[]|]; intros [= <-]; by apply (reliable_places s).
  - by apply enqueue_reliable.
  - unfold end_page. destruct (s_phase s) as [|latest [|e todo] page]; try done. intros [= <-].
    destruct (last page); [destruct (stored _ _)|]; by apply (reliable_places s).
  - by apply take_job_reliable.
  - by apply work_reliable.
  - by apply requeue_reliable.
Qed.

Lemma acts_reliable `{Texts} config l : forall s s',
  Forall answered l -> Reliable s -> acts config l s = Some s' -> Reliable s'.
Proof.
  induction l as [|a l IH]; intros s s' Hl Hs; cbn; [by intros [= <-]|].
  inversion Hl as [|? ? Ha Hl']; subst. intros (s1 & H1 & H2)%bind_Some. eapply IH; [done| |done]. by eapply act_reliable.
Qed.

Lemma start_reliable config cache saved db s :
  start_listener config true cache saved [] [] db = Some s -> Reliable s.
Proof.
  unfold start_listener. case_match; [done|]. intros [= <-]. split; try done. all: by constructor.
Qed.

(** ** The pool drains the queue *)
Section Drain.
Context `{Texts}.
Variable config : ListenerConfig.

(** A move of the pool, when Redis answers. *)
Inductive wstep (s : Tasks) : Tasks -> Prop :=
  | wstep_take w s' : s_queue s <> [] -> take_job w Answered s = Some s' -> wstep s s'
  | wstep_work w up s' : work config w up Answered s = Some s' -> wstep s s'
  | wstep_requeue w s' : requeue w Answered s = Some s' -> wstep s s'.

(** Each attempt is three moves, and a job has six of them. *)
Definition todo (j : SorobanJob) : Z := 3 * (j_max_retries j + 1 - j_retry_count j).
Definition worker_todo (x : Worker) : Z :=
  match x with Idle => 0 | Running j => todo j - 1 | Sleeping j => todo j + 1 end.
Definition potential (s : Tasks) : Z := sum_by todo (s_queue s) + sum_by worker_todo (s_workers s).

Lemma wstep_reliable s s' : Reliable s -> wstep s s' -> Reliable s'.
Proof.
  intros Hs [w s1 _ ?|w up s1 ?|w s1 ?];
    [eapply take_job_reliable|eapply work_reliable|eapply requeue_reliable]; done.
Qed.

Lemma wstep_potential s s' : Reliable s -> wstep s s' -> potential s' < potential s.
Proof.
  intros Hs [w s1 Hq Ht|w up s1 Ht|w s1 Ht]; unfold potential.
  - unfold take_job in Ht. destruct (s_workers s !! w) as [[]|] eqn:Hw; try done.
    destruct (s_queue s) as [|j q] eqn:Hqe; [done|]. unfold confirmed in Ht. rewrite (rel_client _ Hs) in Ht.
    injection Ht as <-. place. rewrite (sum_by_insert _ _ _ _ _ Hw), sum_by_cons. cbn. lia.
  - unfold work in Ht. destruct (s_workers s !! w) as [[|j|]|] eqn:Hw; try done.
    destruct (work_good _ _ _ Hs Hw) as [Hm Hr].
    assert (0 < todo j) by (unfold todo; lia).
    destruct (process_event _ _ _ _).
    { injection Ht as <-. place. rewrite (sum_by_insert _ _ _ _ _ Hw). cbn. unfold todo in *. lia. }
    destruct (j_retry_count j <? j_max_retries j).
    + apply bind_Some in Ht as (? & _ & [= <-]). place. rewrite (sum_by_insert _ _ _ _ _ Hw). cbn.
      unfold todo. upd_simpl. lia.
    + unfold stored, set_worker, log_failed in Ht. upd_simpl. rewrite (rel_client _ Hs) in Ht. cbn in Ht.
      injection Ht as <-. place. rewrite (sum_by_insert _ _ _ _ _ Hw). cbn. unfold todo in *. lia.
  - unfold requeue in Ht. destruct (s_workers s !! w) as [[| |j]|] eqn:Hw; try done.
    unfold stored, set_worker in Ht. upd_simpl. rewrite (rel_client _ Hs) in Ht. cbn in Ht. injection Ht as <-.
    place. rewrite (sum_by_insert _ _ _ _ _ Hw), sum_by_app. change (sum_by todo [j]) with (todo j + 0). cbn. lia.
Qed.

Lemma potential_nonneg s : Reliable s -> 0 <= potential s.
Proof.
  intros [_ _ _ _ Hg _ _]. unfold live in Hg. rewrite !Forall_app in Hg. destruct Hg as [(Hq & _ & Hw) _].
  unfold potential. apply Z.add_nonneg_nonneg; apply sum_by_nonneg.
  - intros j Hj. rewrite Forall_forall in Hq. destruct (Hq _ Hj). unfold todo. lia.
  - intros x Hx. rewrite Forall_bind, Forall_forall in Hw. specialize (Hw _ Hx). unfold todo.
    destruct x as [|j|j]; cbn in Hw |- *; [done|..]; apply Forall_singleton in Hw as [Hm Hr]; unfold todo; lia.
Qed.

Lemma wsteps_bound n : forall s s', Reliable s -> nsteps wstep n s s' ->
  Reliable s' /\ Z.of_nat n + potential s' <= potential s.
Proof.
  induction n as [|n IH]; intros s s' Hs Hn; inversion Hn as [|? ? s1 ? H1 H2]; subst.
  - split; [done|lia].
  - pose proof (wstep_potential _ _ Hs H1). destruct (IH s1 s') as [? ?]; [by eapply wstep_reliable|done|].
    split; [done|lia].
Qed.

(** The pool can move as long as a job is left to it. *)
Lemma live_red s : Reliable s -> live s <> [] -> red wstep s.
Proof.
  intros Hs Hl.
  destruct (decide (Exists (fun x => held x <> []) (s_workers s))) as [Hx|Hx].
  - apply Exists_exists in Hx as (x & [w Hw]%list_elem_of_lookup & Hh). destruct x as [|j|j]; [done| |].
    + destruct (work_good _ _ _ Hs Hw) as [Hm Hr].
      assert (exists s', work config w true Answered s = Some s') as [s' Hs'].
      { unfold work. rewrite Hw. destruct (process_event _ _ _ _); [eauto|]. case_match eqn:Hlt; bools; [|eauto].
        destruct (good_backoff j) as (b & -> & _); [done|lia|]. cbn. eauto. }
      exists s'. by eapply wstep_work.
    + eexists. eapply (wstep_requeue _ w). unfold requeue. rewrite Hw. done.
  - assert (Forall (fun x => held x = []) (s_workers s)) as Hidle.
    { apply Forall_forall. intros x Hx'. apply dec_stable. intros Hne. apply Hx, Exists_exists. eauto. }
    assert (s_queue s <> []) as Hq.
    { intros Hq. apply Hl. unfold live. rewrite Hq, (rel_channel _ Hs). cbn.
      clear -Hidle. induction Hidle as [|x l Hx _ IH]; [done|]. cbn. by rewrite Hx, IH. }
    destruct (s_workers s !! 0%nat) as [x|] eqn:Hw.
    2: { apply lookup_ge_None in Hw. rewrite (rel_workers _ Hs) in Hw. unfold WORKER_POOL_SIZE in Hw. lia. }
    assert (x = Idle) as ->.
    { rewrite Forall_lookup in Hidle. specialize (Hidle _ _ Hw). by destruct x. }
    destruct (s_queue s) as [|j q] eqn:Hqe; [done|].
    eexists. eapply (wstep_take _ 0); [by rewrite Hqe|]. unfold take_job. rewrite Hw, Hqe.
    unfold confirmed. rewrite (rel_client _ Hs). done.
Qed.
End Drain.

(** ** The cursor *)

(** The events of the contracts from the first ledger on, in the order of the ledgers;
    a page holds the first of those after the cursor that the node knows of. *)
Fixpoint after_id (c : string) (chain : list SorobanEvent) : list SorobanEvent :=
  match chain with
  | [] => []
  | e :: chain => if bool_decide (se_id e = c) then chain else after_id c chain
  end.
Definition after (cursor : option string) (chain : list SorobanEvent) : list SorobanEvent :=
  match cursor with Some c => after_id c chain | None => chain end.

Definition page_ok (allowed : GetEventsResult -> Prop) (chain : list SorobanEvent) (s : Tasks) (a : Action) : Prop :=
  match a with
  | Poll (Answer (Some r) None) => allowed r /\ exists rest, after (s_cursor s) chain = gr_events r ++ rest
  | _ => True
  end.

Section Cursor.
Context `{Texts}.
Variables (config : ListenerConfig) (chain : list SorobanEvent).
Hypothesis ids_distinct : NoDup (se_id <$> chain).

(** Runs in which the node answers so. *)
Inductive listens (allowed : GetEventsResult -> Prop) (s : Tasks) : Tasks -> Prop :=
  | listens_refl : listens allowed s s
  | listens_step s1 a s2 : listens allowed s s1 -> page_ok allowed chain s1 a ->
      act config a s1 = Some s2 -> listens allowed s s2.

Definition pending (s : Tasks) : list SorobanEvent :=
  match s_phase s with
  | Polling => after (s_cursor s) chain
  | Enqueuing _ todo page =>
      todo ++ after (match last page with Some e => Some (se_id e) | None => s_cursor s end) chain
  end.
Definition enqueued (s : Tasks) : list SorobanEvent := j_event <$> h_enqueued (s_log s).

Lemma after_id_app pre e rest : NoDup (se_id <$> pre ++ e :: rest) ->
  after_id (se_id e) (pre ++ e :: rest) = rest.
Proof.
  induction pre as [|x pre IH]; cbn; [by rewrite bool_decide_eq_true_2|].
  intros [Hx Hnd]%NoDup_cons. rewrite bool_decide_eq_false_2; [by apply IH|].
  intros Heq. apply Hx. rewrite Heq, fmap_app. set_solver.
Qed.
Lemma after_id_suffix c l : after_id c l `suffix_of` l.
Proof.
  induction l as [|x l IH]; cbn; [done|]. case_bool_decide; [|by apply suffix_cons_r]. by apply suffix_cons_r.
Qed.
Lemma after_page c page rest : after c chain = page ++ rest ->
  after (match last page with Some e => Some (se_id e) | None => c end) chain = rest.
Proof.
  intros Hc. destruct (last page) as [e|] eqn:He.
  - apply last_Some in He as [p ->]. cbn.
    assert ((p ++ [e]) ++ rest `suffix_of` chain) as [pre Hpre].
    { rewrite <- Hc. destruct c; cbn; [apply after_id_suffix|done]. }
    rewrite Hpre. rewrite <- !app_assoc. cbn. rewrite app_assoc. apply after_id_app.
    rewrite <- app_assoc. change (e :: rest) with ([e] ++ rest). rewrite (app_assoc p), <- Hpre. done.
  - apply last_None in He as ->. done.
Qed.

Lemma push_job_keeps r job s s' : push_job r job s = Some s' ->
  s_phase s' = s_phase s /\ s_cursor s' = s_cursor s /\ s_log s' = s_log s.
Proof. unfold push_job. repeat case_match; intros [= <-]; done. Qed.

Lemma take_channel_keeps w s : s_phase (take_channel w s) = s_phase s /\
  s_cursor (take_channel w s) = s_cursor s /\ h_enqueued (s_log (take_channel w s)) = h_enqueued (s_log s).
Proof. unfold take_channel. by case_match. Qed.
Lemma take_job_keeps w r s s' : take_job w r s = Some s' ->
  s_phase s' = s_phase s /\ s_cursor s' = s_cursor s /\ h_enqueued (s_log s') = h_enqueued (s_log s).
Proof.
  unfold take_job. destruct (s_workers s !! w) as [[]|]; try done. destruct (s_queue s) as [|j q].
  { intros [= <-]. apply take_channel_keeps. }
  repeat case_match; intros [= <-]; [done| |apply take_channel_keeps].
  exact (take_channel_keeps w (log_lost j (s <| s_queue := q |>))).
Qed.
Lemma work_keeps w up r s s' : work config w up r s = Some s' ->
  s_phase s' = s_phase s /\ s_cursor s' = s_cursor s /\ h_enqueued (s_log s') = h_enqueued (s_log s).
Proof.
  unfold work. destruct (s_workers s !! w) as [[]|]; try done.
  destruct (process_event _ _ _ _); [by intros [= <-]|]. case_match.
  - intros (? & _ & [= <-])%bind_Some. done.
  - intros [= <-]. by case_match.
Qed.
Lemma requeue_keeps w r s s' : requeue w r s = Some s' ->
  s_phase s' = s_phase s /\ s_cursor s' = s_cursor s /\ h_enqueued (s_log s') = h_enqueued (s_log s).
Proof. unfold requeue. destruct (s_workers s !! w) as [[]|]; try done. intros [= <-]. by case_match. Qed.

(** What a step enqueues was pending and is not any more. *)
Lemma act_pending allowed a s s' : page_ok allowed chain s a -> act config a s = Some s' ->
  exists new, enqueued s' = enqueued s ++ new /\ new ++ pending s' `sublist_of` pending s /\
    (new ++ pending s' = pending s \/
     exists latest e t p, s_phase s = Enqueuing latest (e :: t) p /\ is_final latest e = false).
Proof.
  intros Hp Ha. destruct a as [o|now r|r|w r|w up r|w r]; cbn in Ha, Hp.
  - exists []. rewrite app_nil_r. unfold poll in Ha. unfold pending. destruct (s_phase s) eqn:Hph; [|done].
    destruct o as [| |[res|] [err|]]; cbn in Ha; try (injection Ha as <-; upd_simpl; rewrite ?Hph; auto; done).
    case_bool_decide; [injection Ha as <-; upd_simpl; rewrite ?Hph; auto; done|].
    injection Ha as <-. upd_simpl. destruct Hp as [_ [rest Hr]].
    rewrite (after_page _ _ _ Hr), Hr. auto.
  - unfold enqueue_next in Ha. unfold pending at 2 4. destruct (s_phase s) as [|latest [|e t] page] eqn:Hph; try done.
    destruct (is_final latest e) eqn:Hf.
    + apply fmap_Some_1 in Ha as (s1 & Hs1 & ->). apply push_job_keeps in Hs1 as (H1 & H2 & H3).
      exists [e]. unfold enqueued, pending, log_enqueued. upd_simpl. rewrite H1, H2, H3. upd_simpl.
      rewrite fmap_app. cbn. auto.
    + injection Ha as <-. exists []. unfold enqueued, pending. upd_simpl. rewrite app_nil_r.
      split_and!; [done|by apply sublist_cons|]. right. eauto 10.
  - exists []. rewrite app_nil_r. unfold end_page in Ha. unfold pending.
    destruct (s_phase s) as [|latest [|e t] page] eqn:Hph; try done. injection Ha as <-. upd_simpl.
    destruct (last page); [destruct (stored _ _)|]; upd_simpl; auto.
  - exists []. rewrite app_nil_r. apply take_job_keeps in Ha as (Hph & Hc & Hl).
    unfold enqueued, pending. rewrite Hph, Hc, Hl. auto.
  - exists []. rewrite app_nil_r. apply work_keeps in Ha as (Hph & Hc & Hl).
    unfold enqueued, pending. rewrite Hph, Hc, Hl. auto.
  - exists []. rewrite app_nil_r. apply requeue_keeps in Ha as (Hph & Hc & Hl).
    unfold enqueued, pending. rewrite Hph, Hc, Hl. auto.
Qed.

Lemma listens_pending allowed s s' : listens allowed s s' ->
  exists new, enqueued s' = enqueued s ++ new /\ new ++ pending s' `sublist_of` pending s.
Proof.
  induction 1 as [|s1 a s2 _ (n1 & He1 & Hp1) Hok Ha]; [exists []; by rewrite app_nil_r|].
  apply (act_pending allowed) in Ha as (n2 & He2 & Hp2 & _); [|done].
  exists (n1 ++ n2). rewrite He2, He1, <- !app_assoc. split; [done|].
  etrans; [|exact Hp1]. by apply sublist_app.
Qed.

(** The answers whose events are all final, and the part of a page that is left. *)
Definition all_final (r : GetEventsResult) : Prop :=
  Forall (fun e => is_final (gr_latest_ledger r) e = true) (gr_events r).
Definition todo_final (s : Tasks) : Prop :=
  match s_phase s with
  | Polling => True
  | Enqueuing latest todo _ => Forall (fun e => is_final latest e = true) todo
  end.

Lemma act_todo_final a s s' : page_ok all_final chain s a -> todo_final s ->
  act config a s = Some s' -> todo_final s'.
Proof.
  intros Hp Hs Ha. unfold todo_final in *. destruct a as [o|now r|r|w r|w up r|w r]; cbn in Ha, Hp.
  - unfold poll in Ha. destruct (s_phase s) eqn:Hph; [|done].
    destruct o as [| |[res|] [err|]]; cbn in Ha; try (injection Ha as <-; upd_simpl; by rewrite Hph).
    case_bool_decide; [injection Ha as <-; upd_simpl; by rewrite Hph|]. injection Ha as <-. upd_simpl. apply Hp.
  - unfold enqueue_next in Ha. destruct (s_phase s) as [|latest [|e t] page] eqn:Hph; try done.
    apply Forall_cons in Hs as [He Ht]. rewrite He in Ha.
    apply fmap_Some_1 in Ha as (s1 & Hs1 & ->). apply push_job_keeps in Hs1 as (H1 & _ & _).
    unfold log_enqueued. upd_simpl. by rewrite H1.
  - unfold end_page in Ha. destruct (s_phase s) as [|latest [|e t] page]; try done. by injection Ha as <-.
  - apply take_job_keeps in Ha as (-> & _). done.
  - apply work_keeps in Ha as (-> & _). done.
  - apply requeue_keeps in Ha as (-> & _). done.
Qed.

Lemma listens_final s s' : todo_final s -> listens all_final s s' ->
  todo_final s' /\ exists new, enqueued s' = enqueued s ++ new /\ new ++ pending s' = pending s.
Proof.
  intros Hs. induction 1 as [|s1 a s2 _ (Hf & n1 & He1 & Hp1) Hok Ha].
  { split; [done|]. exists []. by rewrite app_nil_r. }
  split; [by eapply act_todo_final|].
  apply (act_pending all_final) in Ha as (n2 & He2 & _ & Hp2); [|done].
  exists (n1 ++ n2). rewrite He2, He1, <- !app_assoc. split; [done|].
  destruct Hp2 as [->|(latest & e & t & p & Hph & Hne)]; [done|].
  unfold todo_final in Hf. rewrite Hph in Hf. apply Forall_cons in Hf as [? _]. congruence.
Qed.
End Cursor.

(** ** Redelivery *)
Section Tickets.
Context `{Texts}.
Variable config : ListenerConfig.

(** Events in the order in which the pool processes them; one that fails changes nothing. *)
Definition process_all (l : list (bool * SorobanEvent)) (db : Db) : Db :=
  foldl (fun db x => match process_event config x.1 x.2 db with Ok db' => db' | Err _ => db end) db l.

Definition known (id : string) (db : Db) : Prop :=
  exists t, t ∈ db_tickets db /\ tk_stellar_id t = Some id.
Definition revoked (id : string) (db : Db) : Prop :=
  known id db /\ forall t, t ∈ db_tickets db -> tk_stellar_id t = Some id -> tk_status t = "Revoked"%string.

Lemma insert_ticket_known id t db db' : insert_ticket t db = Ok db' -> tk_stellar_id t = Some id ->
  known id db' /\ forall id', known id' db -> known id' db' /\ (revoked id' db -> revoked id' db').
Proof.
  unfold insert_ticket. intros Hi Ht. destruct (existsb _ _) eqn:He.
  - injection Hi as <-. split; [|done]. apply existsb_exists in He as (t' & Hin & Heq).
    apply bool_decide_eq_true in Heq. exists t'. split; [by apply list_elem_of_In|]. by rewrite Heq.
  - assert (db' = db <| db_tickets := db_tickets db ++ [t] |>) as ->.
    { repeat case_match; congruence. }
    split; [exists t; upd_simpl; set_solver|]. intros id' (t' & Hin & Ht'). split.
    { exists t'. upd_simpl. set_solver. }
    intros [_ Hr]. split; [exists t'; upd_simpl; set_solver|]. upd_simpl. intros u [Hu|Hu%list_elem_of_singleton]%elem_of_app Hs.
    + by apply Hr.
    + exfalso. subst u. rewrite <- not_true_iff_false in He. apply He, existsb_exists.
      exists t'. split; [by apply list_elem_of_In|]. apply bool_decide_eq_true. congruence.
Qed.

Lemma refund_known id up e db db' : handle_ticket_refunded up e db = Ok db' -> known id db ->
  known id db' /\ (revoked id db -> revoked id db').
Proof.
  unfold handle_ticket_refunded, query. destruct up; [|done]. intros [= <-] (t & Hin & Ht).
  assert (known id (db <| db_tickets := (fun t => if bool_decide (tk_stellar_id t = Some (stellar_id_or e))
            then t <| tk_status := "Revoked"%string |> else t) <$> db_tickets db |>)) as Hk.
  { eexists. upd_simpl. split; [apply list_elem_of_fmap_2; exact Hin|]. by case_bool_decide. }
  split; [done|]. intros [_ Hr]. split; [done|]. upd_simpl.
  intros u (u0 & -> & Hu0)%list_elem_of_fmap. case_bool_decide; upd_simpl; [done|]. by apply Hr.
Qed.

Lemma process_known id up e db db' : process_event config up e db = Ok db' -> known id db ->
  known id db' /\ (revoked id db -> revoked id db').
Proof.
  unfold process_event, handle_event_registered, handle_event_status_updated, touch_event,
    handle_collateral_staked, handle_collateral_unstaked, query.
  intros Hp Hk. repeat case_match; simplify_eq; try done.
  2: by eapply refund_known.
  revert Hp. unfold handle_ticket_purchased. case_match; [by intros [= <-]|].
  unfold query. case_match; [|done]. intros Hp. oks.
  eapply insert_ticket_known in Hp as [_ Hp]; [|done]. by apply Hp.
Qed.

Lemma process_all_known id l : forall db, known id db ->
  known id (process_all l db) /\ (revoked id db -> revoked id (process_all l db)).
Proof.
  induction l as [|[up e] l IH]; intros db Hk; cbn; [done|].
  destruct (process_event config up e db) as [db'|] eqn:Hp; [|by apply IH].
  destruct (process_known _ _ _ _ _ Hp Hk) as [Hk' Hr']. destruct (IH _ Hk') as [? Hr]. auto.
Qed.

Lemma purchase_again up e db : known (stellar_id_or e) db ->
  handle_ticket_purchased up e db = Ok db \/ exists err, handle_ticket_purchased up e db = Err err.
Proof.
  intros (t & Hin & Ht). unfold handle_ticket_purchased. case_match; [auto|]. unfold query. case_match; [|eauto].
  destruct (cast_uuid _); cbn; [|eauto]. left. unfold insert_ticket. cbn.
  replace (existsb _ _) with true; [done|]. symmetry. apply existsb_exists.
  exists t. split; [by apply list_elem_of_In|]. by apply bool_decide_eq_true.
Qed.
Lemma purchase_known up e db db' : handle_ticket_purchased up e db = Ok db' ->
  known (stellar_id_or e) db' \/ forall up' db2, handle_ticket_purchased up' e db2 = Ok db2.
Proof.
  unfold handle_ticket_purchased. case_match; [by right|]. unfold query. case_match; [|done].
  intros Hp. left. oks. by eapply insert_ticket_known in Hp as [? _].
Qed.
End Tickets.

Lemma reliable_enqueued `{Texts} config cache saved db s0 l s :
  start_listener config true cache saved [] [] db = Some s0 ->
  Forall answered l -> acts config l s0 = Some s ->
  Reliable s /\ h_enqueued (s_log s) ≡ₚ fresh <$> live s ++ h_finished (s_log s) ++ s_dead s.
Proof.
  intros Hs0 Hl Hs. pose proof (start_reliable _ _ _ _ _ Hs0) as Hr0.
  pose proof (acts_reliable _ _ _ _ Hl Hr0 Hs) as Hr. split; [done|].
  apply acts_delta in Hs as (new & He & Hp).
  2: { eapply Forall_impl; [done|]. unfold answered, definite. congruence. }
  assert (places s0 = [] /\ h_enqueued (s_log s0) = []) as [Hp0 He0].
  { revert Hs0. unfold start_listener. case_match; [done|]. by intros [= <-]. }
  rewrite He0 in He. rewrite Hp0 in Hp. cbn in He, Hp. rewrite app_nil_r in Hp.
  rewrite He, <- Hp. unfold places, settled. by rewrite (rel_lost _ Hr), app_nil_r.
Qed.

Lemma acts_app `{Texts} config l1 l2 : forall s,
  acts config (l1 ++ l2) s = acts config l1 s ≫= acts config l2.
Proof. induction l1 as [|a l1 IH]; intros s; cbn; [done|]. destruct (act config a s); cbn; auto. Qed.
Lemma wsteps_acts `{Texts} config n : forall s s', nsteps (wstep config) n s s' ->
  exists l, Forall answered l /\ acts config l s = Some s'.
Proof.
  induction n as [|n IH]; intros s s' Hn; inversion Hn as [|? ? s1 ? H1 H2]; subst; [by exists []|].
  apply IH in H2 as (l & Hl & Hs').
  destruct H1 as [w s1 _ Ha|w up s1 Ha|w s1 Ha];
    [exists (TakeJob w Answered :: l)|exists (Work w up Answered :: l)|exists (Requeue w Answered :: l)];
    (split; [by constructor|]); cbn; rewrite Ha; done.
Qed.

Lemma potential_bound s : Reliable s -> potential s <= 19 * len (live s).
Proof.
  intros [_ _ _ _ Hg _ _]. unfold live in *. rewrite !Forall_app in Hg. destruct Hg as [(Hq & _ & Hw) _].
  rewrite !length_app, !Nat2Z.inj_add. unfold potential.
  assert (sum_by todo (s_queue s) <= 19 * len (s_queue s)).
  { clear Hw. induction Hq as [|j l [Hm Hj] _ IH]; [done|]. rewrite sum_by_cons. cbn [length].
    assert (todo j <= 18) by (unfold todo, MAX_JOB_RETRIES in *; lia). lia. }
  assert (sum_by worker_todo (s_workers s) <= 19 * len (s_workers s ≫= held)); [|lia].
  clear Hq. induction (s_workers s) as [|x l IH]; [done|]. rewrite sum_by_cons. cbn in Hw |- *.
  apply Forall_app in Hw as [Hx Hl]. specialize (IH Hl). rewrite length_app, Nat2Z.inj_add.
  destruct x; cbn in *; [lia|..]; apply Forall_singleton in Hx as [Hm Hj]; unfold todo, MAX_JOB_RETRIES in *; lia.
Qed.

(** ** Properties *)


(** When Redis answers, a job that was enqueued is still at work, processed, or in
    the dead-letter queue, and none is lost; a job waits at most 32 seconds before a
    retry; and the failed attempts are exactly those that the counts of retries tell:
    six for each dead job, one for each retry of the others. *)
Theorem attempts_exact `{Texts} config cache saved db s0 l s :
  start_listener config true cache saved [] [] db = Some s0 ->
  Forall answered l -> acts config l s0 = Some s ->
  h_enqueued (s_log s) ≡ₚ fresh <$> live s ++ h_finished (s_log s) ++ s_dead s /\
  h_failed (s_log s) ≡ₚ ((live s ++ h_finished (s_log s)) ≫= before) ++ (s_dead s ≫= upto) /\
  Forall (fun j => length (before j) <= 5)%nat (live s ++ h_finished (s_log s)) /\
  Forall (fun j => length (upto j) = 6)%nat (s_dead s) /\
  Forall (fun j => exists b, backoff_duration j = Some b /\ 1 <= b <= 32) (live s).
Proof.
  intros Hs0 Hl Hs. destruct (reliable_enqueued _ _ _ _ _ _ _ Hs0 Hl Hs) as [[Hc Hch Hlost _ Hg Hd Hf] He].
  split_and!; [done|done| | |].
  - eapply Forall_impl; [exact Hg|]. intros j [_ Hj]. unfold before, attempts, MAX_JOB_RETRIES in *.
    rewrite length_fmap, length_seqZ. lia.
  - eapply Forall_impl; [exact Hd|]. intros j [_ Hj]. unfold upto, attempts, MAX_JOB_RETRIES in *.
    rewrite length_fmap, length_seqZ, Hj. done.
  - apply Forall_app in Hg as [Hg _]. eapply Forall_impl; [exact Hg|]. intros j [_ Hj].
    unfold backoff_duration, MAX_JOB_RETRIES in *.
    assert (2 ^ 0 <= 2 ^ j_retry_count j <= 2 ^ 5) as Hp2 by (split; apply Z.pow_le_mono_r; lia).
    rewrite checked_in by (cbn; lia). cbn. eexists. split; [done|]. lia.
Qed.

(** C12: the pool drains the queue: from a state reached while Redis answers, the moves
    of the four workers, whatever their order and whatever the database does, are at
    most nineteen for each job at work; and a worker can move until every job that was
    enqueued is processed or in the dead-letter queue. *)
Theorem pool_drains `{Texts} config cache saved db s0 l s n s' :
  start_listener config true cache saved [] [] db = Some s0 ->
  Forall answered l -> acts config l s0 = Some s -> nsteps (wstep config) n s s' ->
  Z.of_nat n <= 19 * len (live s) /\
  (nf (wstep config) s' -> h_enqueued (s_log s') ≡ₚ fresh <$> h_finished (s_log s') ++ s_dead s') /\
  (live s' <> [] -> red (wstep config) s').
Proof.
  intros Hs0 Hl Hs Hn. destruct (reliable_enqueued _ _ _ _ _ _ _ Hs0 Hl Hs) as [Hr _].
  destruct (wsteps_bound _ _ _ _ Hr Hn) as [Hr' Hb].
  pose proof (potential_nonneg _ Hr'). pose proof (potential_bound _ Hr).
  split_and!; [lia| |by apply live_red]. intros Hnf.
  apply wsteps_acts in Hn as (l' & Hl' & Hs'). destruct (reliable_enqueued config cache saved db s0 (l ++ l') s')
    as [_ He]; [done|by apply Forall_app|by rewrite acts_app, Hs|]. rewrite He.
  destruct (live s') as [|j q] eqn:Hlive; [done|]. destruct Hnf. apply live_red; [done|]. by rewrite Hlive.
Qed.

(** The cursor gives each event once: as long as a page holds the next events after
    the cursor, the events that are enqueued are, in their order, events of the chain,
    none twice; and if every page holds only events that are final, they are exactly
    the events of the chain up to those still pending, so that none is skipped. *)
Theorem enqueued_once `{Texts} config chain cache client saved queue dead db s0 s allowed :
  NoDup (se_id <$> chain) ->
  start_listener config client cache saved queue dead db = Some s0 -> s_cursor s0 = None ->
  listens config chain allowed s0 s ->
  enqueued s `sublist_of` chain /\ NoDup (se_id <$> enqueued s) /\
  (listens config chain all_final s0 s -> enqueued s ++ pending chain s = chain).
Proof.
  intros Hnd Hs0 Hc Hs.
  assert (enqueued s0 = [] /\ pending chain s0 = chain /\ todo_final s0) as (He0 & Hp0 & Hf0).
  { revert Hs0. unfold start_listener. case_match; [done|]. intros [= <-]. unfold pending. cbn in *.
    rewrite Hc. done. }
  apply (listens_pending _ _ Hnd) in Hs as (new & He & Hp). rewrite He0 in He. cbn in He. rewrite Hp0 in Hp.
  assert (enqueued s `sublist_of` chain) as Hsub.
  { rewrite He. etrans; [|exact Hp]. by apply sublist_inserts_r. }
  split_and!; [done| |].
  - apply (sublist_NoDup _ (se_id <$> chain)); [done|by apply fmap_sublist].
  - intros Hf. apply (listens_final _ _ Hnd) in Hf as (_ & new' & He' & Hp'); [|done].
    rewrite He', He0. cbn. by rewrite Hp'.
Qed.

(** An event that was polled before it had two confirmations is lost: once the
    cursor is past an event that was not enqueued, no later poll enqueues it. *)
Theorem unconfirmed_lost `{Texts} config chain s s' allowed e :
  NoDup (se_id <$> chain) -> listens config chain allowed s s' ->
  e ∉ pending chain s -> e ∉ enqueued s -> e ∉ enqueued s'.
Proof.
  intros Hnd Hs Hp He. apply (listens_pending _ _ Hnd) in Hs as (new & He' & Hsub). rewrite He'.
  intros [Hin|Hin]%elem_of_app; [done|]. apply Hp. eapply elem_of_sublist; [|exact Hsub]. set_solver.
Qed.

(** Redelivery is harmless for tickets: once a purchase was processed, processing
    it again after any other events changes no table, and a ticket that was revoked
    stays revoked. *)
Theorem tickets_settle `{Texts} config up e db db1 l :
  handle_ticket_purchased up e db = Ok db1 ->
  (forall up' db3, handle_ticket_purchased up' e (process_all config l db1) = Ok db3 ->
     db3 = process_all config l db1) /\
  (forall id, revoked id db1 -> revoked id (process_all config l db1)).
Proof.
  intros Hp. split.
  - intros up' db3 H3. destruct (purchase_known _ _ _ _ Hp) as [Hk|Hsame]; [|rewrite Hsame in H3; congruence].
    destruct (process_all_known config _ l _ Hk) as [Hk2 _].
    destruct (purchase_again up' e _ Hk2) as [Ha|[err Ha]]; congruence.
  - intros id Hr. apply process_all_known; [apply Hr|done].
Qed.

(** A topic or a value as the node sends it, in base64, names no event of the listener. *)
Definition underscore (s : string) : bool := existsb (Ascii.eqb "_"%char) (String.list_ascii_of_string s).

Lemma not_named e names : forallb underscore names = true -> underscore (event_name e) = false ->
  named e names = false.
Proof.
  intros Hn Hu. unfold named. apply bool_decide_eq_false. intros Hin.
  rewrite forallb_forall in Hn. apply list_elem_of_In, Hn in Hin. congruence.
Qed.

(** Events as the node encodes them are ignored: [topic] and [value] are documented
    as base64 XDR; a first topic in that alphabet and a value that is a text match no
    case that does anything, and the job counts as processed. *)
Theorem encoded_events_ignored `{Texts} config up e db s :
  underscore (event_name e) = false -> se_value e = JString s ->
  process_event config up e db = Ok db.
Proof.
  intros Hu Hv. unfold process_event. rewrite !(not_named e ["ticket_purchased"; "purchase_confirmed"]%string),
    !(not_named e ["ticket_refunded"]%string), !(not_named e ["event_registered"]%string),
    !(not_named e ["event_status_updated"; "event_cancelled"]%string) by done.
  unfold handle_collateral_staked, handle_collateral_unstaked. rewrite Hv. cbn. by repeat case_match.
Qed.

(** ** Witnesses *)
Module ListenerSample.
#[local] Instance sample_texts : Texts := IndexerSample.texts.
Definition config : ListenerConfig := mkListenerConfig "https://rpc" "CPAY" "CREG" 1 (Some "redis://r"%string).
Definition purchase (id : string) (ledger : Z) (event : string) : SorobanEvent :=
  mkSorobanEvent id ledger "CPAY" ["ticket_purchased"%string]
    (JObject [("event_id", JString event); ("buyer", JString "GA"); ("stellar_id", JString "tx1")]%string) None.
Definition refund (id : string) (ledger : Z) : SorobanEvent :=
  mkSorobanEvent id ledger "CPAY" ["ticket_refunded"%string] (JObject [("stellar_id", JString "tx1")]%string) None.

Definition e1 : SorobanEvent := purchase "1" 10 "u1".
Definition e2 : SorobanEvent := refund "2" 11.
Definition e3 : SorobanEvent := purchase "3" 12 "u9".
Definition chain : list SorobanEvent := [e1; e2; e3].
Definition s0 (client : bool) : Tasks :=
  default (mkTasks Polling None None 0 0 client false None [] [] [] [] IndexerSample.db0 (mkHistory [] [] [] []))
    (start_listener config client true None [] [] IndexerSample.db0).

Definition page (l : list SorobanEvent) (latest : Z) : Action :=
  Poll (Answer (Some (mkResult l latest)) None).
(** Three events are enqueued; the first worker runs the first. *)
Definition run1 : list Action :=
  [page chain 20; EnqueueNext 0 Answered; EnqueueNext 0 Answered; EnqueueNext 0 Answered; EndPage Answered;
   TakeJob 0 Answered; TakeJob 1 Answered; Work 0 true Answered; Work 1 false Answered].
Definition s1 : Tasks := default (s0 true) (acts config run1 (s0 true)).


Lemma attempts_exact_witness :
  h_failed (s_log s1) ≡ₚ ((live s1 ++ h_finished (s_log s1)) ≫= before) ++ (s_dead s1 ≫= upto).
Proof.
  apply (attempts_exact config true None IndexerSample.db0 (s0 true) run1 s1);
    [vm_compute; reflexivity| |vm_compute; reflexivity].
  by repeat constructor.
Defined.

Definition s2 : Tasks := default s1 (requeue 1 Answered s1).
Lemma pool_drains_witness : Z.of_nat 1 <= 19 * len (live s1) /\ (live s2 <> [] -> red (wstep config) s2).
Proof.
  destruct (pool_drains config true None IndexerSample.db0 (s0 true) run1 s1 1 s2) as (H1 & _ & H2);
    [vm_compute; reflexivity|by repeat constructor|vm_compute; reflexivity| |done].
  econstructor; [|constructor]. apply (wstep_requeue _ _ 1). vm_compute. reflexivity.
Defined.

Lemma sample_ids : NoDup (se_id <$> chain).
Proof. apply (bool_decide_unpack _). vm_compute. exact I. Qed.

Definition at_step (k : nat) : Tasks := default (s0 true) (acts config (take k run1) (s0 true)).
Definition s3 : Tasks := at_step 5.
Ltac listen k a := eapply (listens_step _ _ _ _ (at_step k) a); [|try done|vm_compute; reflexivity].
Lemma sample_listens : listens config chain all_final (s0 true) s3.
Proof.
  listen 4%nat (EndPage Answered). listen 3%nat (EnqueueNext 0 Answered). listen 2%nat (EnqueueNext 0 Answered).
  listen 1%nat (EnqueueNext 0 Answered). listen 0%nat (page chain 20); [constructor|].
  split; [by repeat constructor|]. by exists [].
Qed.
Lemma enqueued_once_witness : enqueued s3 ++ pending chain s3 = chain.
Proof.
  destruct (enqueued_once config chain true true None [] [] IndexerSample.db0 (s0 true) s3 all_final)
    as (_ & _ & H1); [apply sample_ids|vm_compute; reflexivity|done|apply sample_listens|].
  apply H1, sample_listens.
Defined.

(** The third event is polled when the last ledger is 13, and the cursor passes it. *)
Definition run2 : list Action :=
  [page chain 13; EnqueueNext 0 Answered; EnqueueNext 0 Answered; EnqueueNext 0 Answered; EndPage Answered].
Definition s4 : Tasks := default (s0 true) (acts config run2 (s0 true)).
Lemma unconfirmed_lost_witness :
  s_cursor s4 = Some "3"%string /\ enqueued s4 = [e1; e2] /\
  forall s', listens config chain (fun _ => True) s4 s' -> e3 ∉ enqueued s'.
Proof.
  split_and!; [vm_compute; reflexivity..|]. intros s' Hs'.
  apply (unconfirmed_lost config chain s4 s' (fun _ => True) e3); [apply sample_ids|done| |].
  - vm_compute. by inversion 1.
  - change (enqueued s4) with [e1; e2]. rewrite !not_elem_of_cons. split_and!; [done..|]. by inversion 1.
Defined.

Lemma tickets_settle_witness :
  exists db1, handle_ticket_purchased true e1 IndexerSample.db0 = Ok db1 /\
    (forall id, revoked id db1 -> revoked id (process_all config [(true, e2)] db1)).
Proof.
  eexists. split; [vm_compute; reflexivity|].
  eapply (tickets_settle config true e1 IndexerSample.db0). vm_compute. reflexivity.
Defined.

Lemma encoded_events_ignored_witness :
  process_event config true (mkSorobanEvent "1" 10 "CPAY" ["AAAADwAAAA=="%string] (JString "AAAA") None)
    IndexerSample.db0 = Ok IndexerSample.db0.
Proof. apply (encoded_events_ignored config true _ _ "AAAA"); vm_compute; reflexivity. Defined.

(** Without Redis a job that fails once is neither retried nor a dead letter. *)
Definition run3 : list Action :=
  [page [e1] 20; EnqueueNext 0 Refused; EndPage Refused; TakeJob 0 Refused; Work 0 false Refused; Requeue 0 Refused].
Example retry_lost_without_redis : exists s, acts config run3 (s0 false) = Some s /\
  live s = [] /\ h_finished (s_log s) = [] /\ s_dead s = [] /\ (j_retry_count <$> h_lost (s_log s)) = [1].
Proof. eexists. split; [vm_compute; reflexivity|]. vm_compute. done. Qed.

(** A purchase that fails once is overtaken by its refund: the refund updates no row, and
    the ticket ends as unused. *)
Definition run4 : list Action :=
  [page [e1; e2] 20; EnqueueNext 0 Answered; EnqueueNext 0 Answered; EndPage Answered;
   TakeJob 0 Answered; TakeJob 1 Answered; Work 0 false Answered; Work 1 true Answered;
   Requeue 0 Answered; TakeJob 0 Answered; Work 0 true Answered].
Example refund_overtaken : exists s, acts config run4 (s0 true) = Some s /\
  live s = [] /\ (tk_status <$> db_tickets (s_db s)) = ["Unused"%string].
Proof. eexists. split; [vm_compute; reflexivity|]. vm_compute. done. Qed.

(** A process that ends loses the jobs that its workers hold. *)
Example restart_loses : exists s, start_listener config true true (s_saved_cursor s1) (s_queue s1) (s_dead s1) (s_db s1)
  = Some s /\ length (live s1) = 2%nat /\ length (live s) = 1%nat /\ pending chain s = [].
Proof. eexists. split; [vm_compute; reflexivity|]. vm_compute. done. Qed.
End ListenerSample.
