(* ===== verification/Mediation.v ===== *)
(** * Server: mediation of disputes

    [handlers/governance.rs] and [models/dispute.rs] over the tables of the disputes and
    of the votes.  [cast_vote] and [resolve_dispute] run several statements outside a
    transaction: each is a machine with one move per statement, so that requests
    interleave; [cast_vote] and [resolve_dispute] are the moves of one request in a row.  The
    threshold of [resolve_dispute] is a product of doubles, rounded as IEEE 754 does. *)

From stdpp Require Import base tactics numbers list strings gmap sorting.
From S2P Require Import Prelude.
From S2P Require Import ServerPrelude.
From S2P Require Import Auth.
From S2P Require Import EventListing.
Open Scope Z_scope.

(** ** Data *)
Record Dispute := mkDispute {
  di_id : Uuid; di_event_id : Uuid; di_opened_by : Uuid; di_status : string; di_closes_at : Z;
  di_resolved_at : option Z; di_ruling : option string; di_total_eligible_tickets : Z;
  di_buyer_votes : Z; di_organizer_votes : Z; di_created_at : Z;
}.
#[export] Instance Dispute_eta : Eta Dispute := fun d =>
  mkDispute (di_id d) (di_event_id d) (di_opened_by d) (di_status d) (di_closes_at d)
    (di_resolved_at d) (di_ruling d) (di_total_eligible_tickets d) (di_buyer_votes d)
    (di_organizer_votes d) (di_created_at d).
Record MediationVote := mkVote {
  mv_dispute_id : Uuid; mv_voter_id : Uuid; mv_vote : string; mv_voted_at : Z;
}.

(** A ticket with its own event and that of its tier.  The column [users.wallet_address]
    is [None] when the table has none. *)
Record HeldTicket := mkHeld {
  ht_event : option Uuid; ht_tier_event : option Uuid; ht_owner : option string; ht_buyer : option string;
  ht_status : string;
}.
Definition coalesce {A} (a b : option A) : option A := match a with Some _ => a | None => b end.
Record Court := mkCourt {
  ct_disputes : gmap Uuid Dispute;
  ct_votes : gmap (Uuid * Uuid) MediationVote; (* UNIQUE (dispute_id, voter_id) *)
  ct_users : gset Uuid;
  ct_user_wallets : option (gmap string Uuid);
  ct_events : gmap Uuid (option Z); (* the end of each event *)
  ct_tickets : list HeldTicket;
  ct_tiers : list (Uuid * Z); (* the event and the quantity of each tier *)
}.
#[export] Instance Court_eta : Eta Court := fun c =>
  mkCourt (ct_disputes c) (ct_votes c) (ct_users c) (ct_user_wallets c) (ct_events c)
    (ct_tickets c) (ct_tiers c).

(** ** Reading *)
Record DisputeFilters := mkFilters {
  fi_event_id : option Uuid; fi_status : option string; fi_page : option Z; fi_page_size : option Z;
}.

(** The product of two [u32] wraps in a release build. *)
Definition dispute_page (params : DisputeFilters) : Z := Z.max 1 (default 1 (fi_page params)).
Definition dispute_page_size (params : DisputeFilters) : Z :=
  Z.min 100 (Z.max 1 (default 20 (fi_page_size params))).
Definition dispute_offset (params : DisputeFilters) : Z :=
  ((dispute_page params - 1) * dispute_page_size params) mod 2 ^ 32.

Definition dispute_matches (params : DisputeFilters) (d : Dispute) : bool :=
  match fi_event_id params with Some e => di_event_id d =? e | None => true end
  && match fi_status params with Some s => bool_decide (di_status d = s) | None => true end.
Definition newest_first (d1 d2 : Dispute) : Prop := di_created_at d2 <= di_created_at d1.
#[export] Instance newest_first_dec d1 d2 : Decision (newest_first d1 d2) := Z_le_dec _ _.
Definition matching_disputes (params : DisputeFilters) (c : Court) : list Dispute :=
  merge_sort newest_first
    (filter (fun d => dispute_matches params d = true) ((map_to_list (ct_disputes c)).*2)).
Definition list_disputes (params : DisputeFilters) (c : Court) : list Dispute :=
  take (Z.to_nat (dispute_page_size params))
    (drop (Z.to_nat (dispute_offset params)) (matching_disputes params c)).

Definition get_dispute (dispute_id : Uuid) (c : Court) : Result AppError Dispute :=
  ok_or (ct_disputes c !! dispute_id) NotFound.

Definition latest_vote (v1 v2 : MediationVote) : Prop := mv_voted_at v2 <= mv_voted_at v1.
#[export] Instance latest_vote_dec v1 v2 : Decision (latest_vote v1 v2) := Z_le_dec _ _.
Definition votes_on (dispute_id : Uuid) (c : Court) : list MediationVote :=
  filter (fun v => mv_dispute_id v = dispute_id) ((map_to_list (ct_votes c)).*2).
Definition get_dispute_votes (dispute_id : Uuid) (c : Court) : list MediationVote :=
  merge_sort latest_vote (votes_on dispute_id c).

(** ** Opening a dispute *)

(** An integer column has a width, and [sqlx] refuses to read one width as another. *)
Inductive SqlInt := Int4 (z : Z) | Int8 (z : Z).
Definition decode_i32 (v : SqlInt) : Result AppError Z :=
  match v with Int4 z => Ok z | Int8 _ => Err DatabaseError end.
(** [SUM] of an [INTEGER] column is a [BIGINT], and so is [COALESCE] of it with 0. *)
Definition sum_total_quantity (event_id : Uuid) (c : Court) : SqlInt :=
  Int8 (sum_by snd (filter (fun t => t.1 = event_id) (ct_tiers c))).

(** [SELECT end_time < NOW()]: [NULL] without an end, which is no [bool]. *)
Definition decode_bool (v : option bool) : Result AppError bool := ok_or v DatabaseError.

Definition SEVEN_DAYS : Z := 7 * 86400.
Definition open_dispute `{Tokens} (now : Z) (h : Headers) (id event_id : Uuid) (c : Court)
    : Result AppError (Dispute * Court) :=
  wallet ← extract_auth (now * 1000) h;
  row ← ok_or (ct_events c !! event_id) NotFound;
  event_ended ← decode_bool ((fun end_ => end_ <? now) <$> row);
  err_if (negb event_ended) ValidationError;;
  err_if (negb (existsb (fun t =>
    bool_decide (coalesce (ht_event t) (ht_tier_event t) = Some event_id)
    && bool_decide (coalesce (ht_owner t) (ht_buyer t) = Some wallet)
    && bool_decide (ht_status t = "active"%string)) (ct_tickets c))) Forbidden;;
  wallets ← ok_or (ct_user_wallets c) DatabaseError;
  opened_by ← ok_or (wallets !! wallet) AuthError;
  total_eligible ← decode_i32 (sum_total_quantity event_id c);
  let d := mkDispute id event_id opened_by "open" (now + SEVEN_DAYS) None None total_eligible 0 0 now in
  Ok (d, c <| ct_disputes := <[id := d]> (ct_disputes c) |>).

(** ** Casting a vote *)
Definition BUYER : string := "buyer_favor".
Definition ORGANIZER : string := "organizer_favor".
Definition set_dispute (id : Uuid) (f : Dispute -> Dispute) (c : Court) : Court :=
  c <| ct_disputes := alter f id (ct_disputes c) |>.

(** The request, and where it stands: before each statement, or at its answer. *)
Inductive CastAt :=
  | AtSelect
  | AtExists (d : Dispute)
  | AtInsert (d : Dispute)
  | AtStatus (d : Dispute) (v : MediationVote)
  | AtTally (v : MediationVote)
  | CastDone (r : Result AppError MediationVote).
Record CastRequest := mkCast { cr_dispute_id : Uuid; cr_voter_id : Uuid; cr_vote : string }.

Definition cast_start (q : CastRequest) : CastAt :=
  if negb (bool_decide (cr_vote q = BUYER)) && negb (bool_decide (cr_vote q = ORGANIZER))
  then CastDone (Err ValidationError) else AtSelect.

Definition closed_to_votes (d : Dispute) : bool :=
  bool_decide (di_status d ∈ ["resolved_buyer"; "resolved_organizer"; "expired"]%string).

(** One statement; [up] says whether the database answers. *)
Definition cast_step (now : Z) (up : bool) (q : CastRequest) (at_ : CastAt) (c : Court) : CastAt * Court :=
  match at_ with
  | CastDone r => (CastDone r, c)
  | _ => if negb up then (CastDone (Err DatabaseError), c) else
  match at_ with
  | AtSelect =>
      (match ct_disputes c !! cr_dispute_id q with
       | None => CastDone (Err NotFound)
       | Some d => if closed_to_votes d then CastDone (Err ValidationError) else AtExists d
       end, c)
  | AtExists d =>
      (if bool_decide (is_Some (ct_votes c !! (cr_dispute_id q, cr_voter_id q)))
       then CastDone (Err Conflict) else AtInsert d, c)
  | AtInsert d =>
      if bool_decide (is_Some (ct_votes c !! (cr_dispute_id q, cr_voter_id q)))
         || negb (bool_decide (cr_voter_id q ∈ ct_users c))
         || negb (bool_decide (is_Some (ct_disputes c !! cr_dispute_id q)))
      then (CastDone (Err DatabaseError), c)
      else
        let v := mkVote (cr_dispute_id q) (cr_voter_id q) (cr_vote q) now in
        (if bool_decide (di_status d = "open"%string) then AtStatus d v else AtTally v,
         c <| ct_votes := <[(cr_dispute_id q, cr_voter_id q) := v]> (ct_votes c) |>)
  | AtStatus d v =>
      (AtTally v, set_dispute (cr_dispute_id q) (fun d => d <| di_status := "voting"%string |>) c)
  | AtTally v =>
      (CastDone (Ok v),
       set_dispute (cr_dispute_id q)
         (if bool_decide (cr_vote q = BUYER)
          then fun d => d <| di_buyer_votes := di_buyer_votes d + 1 |>
          else fun d => d <| di_organizer_votes := di_organizer_votes d + 1 |>) c)
  | CastDone r => (CastDone r, c)
  end end.

(** ** Resolving a dispute *)

(** The nearest multiple of [2 ^ k], ties to even, and the product with the double
    nearest to 0.30, which is [F64_30 / 2 ^ 54], in units of [2 ^ -54]. *)
Definition round_to (k p : Z) : Z :=
  let q := p / 2 ^ k in
  let r := p mod 2 ^ k in
  if (2 * r <? 2 ^ k) || ((2 * r =? 2 ^ k) && Z.even q) then q * 2 ^ k else (q + 1) * 2 ^ k.
Definition F64_30 : Z := 5404319552844595.
Definition f64_times_30 (n : Z) : Z :=
  let p := Z.abs n * F64_30 in
  Z.sgn n * round_to (Z.max 0 (Z.log2 p - 52)) p.
(** [(total as f64 * 0.30).ceil() as i32]. *)
Definition quorum_threshold (total : Z) : Z := Z.max (- 2 ^ 31) (Z.min (2 ^ 31 - 1) (- (- f64_times_30 total / 2 ^ 54))).

Inductive ResolveAt :=
  | AtRead
  | AtUpdate (ruling status : string)
  | ResolveDone (r : Result AppError Dispute).

Definition already_resolved (d : Dispute) : bool :=
  bool_decide (di_status d ∈ ["resolved_buyer"; "resolved_organizer"]%string).

Definition resolve_step (now : Z) (up : bool) (dispute_id : Uuid) (at_ : ResolveAt) (c : Court)
    : ResolveAt * Court :=
  match at_ with
  | ResolveDone r => (ResolveDone r, c)
  | _ => if negb up then (ResolveDone (Err DatabaseError), c) else
  match at_ with
  | AtRead =>
      (match ct_disputes c !! dispute_id with
       | None => ResolveDone (Err NotFound)
       | Some d =>
           if already_resolved d then ResolveDone (Err Conflict)
           else if bool_decide (di_status d = "expired"%string) then ResolveDone (Err ValidationError)
           else if di_closes_at d <? now then ResolveDone (Err ValidationError)
           else if quorum_threshold (di_total_eligible_tickets d) <? di_buyer_votes d
           then AtUpdate BUYER "resolved_buyer" else AtUpdate ORGANIZER "resolved_organizer"
       end, c)
  | AtUpdate ruling status =>
      let c' := set_dispute dispute_id (fun d =>
        d <| di_status := status |> <| di_ruling := Some ruling |> <| di_resolved_at := Some now |>) c in
      (ResolveDone (ok_or (ct_disputes c' !! dispute_id) DatabaseError), c')
  | ResolveDone r => (ResolveDone r, c)
  end end.

(** ** Requests in flight *)
Inductive Flight :=
  | Casting (q : CastRequest) (at_ : CastAt)
  | Resolving (dispute_id : Uuid) (at_ : ResolveAt).

Definition flight_step (now : Z) (up : bool) (f : Flight) (c : Court) : Flight * Court :=
  match f with
  | Casting q a => let '(a, c) := cast_step now up q a c in (Casting q a, c)
  | Resolving d a => let '(a, c) := resolve_step now up d a c in (Resolving d a, c)
  end.

(** A request arrives, or the [i]-th request runs its next statement. *)
Inductive Event_ :=
  | Arrive (f : Flight)
  | Move (i : nat) (now : Z) (up : bool).
Definition arrival (f : Flight) : Flight :=
  match f with Casting q _ => Casting q (cast_start q) | Resolving d _ => Resolving d AtRead end.

Definition court_step (e : Event_) (s : Court * list Flight) : Court * list Flight :=
  match e with
  | Arrive f => (s.1, s.2 ++ [arrival f])
  | Move i now up =>
      match s.2 !! i with
      | Some f => let '(f, c) := flight_step now up f s.1 in (c, <[i := f]> s.2)
      | None => s
      end
  end.
Definition court_run (l : list Event_) (s : Court * list Flight) : Court * list Flight :=
  foldl (fun s e => court_step e s) s l.

(** One request alone: it takes at most five statements. *)
Fixpoint cast_loop (n : nat) (now : Z) (q : CastRequest) (a : CastAt) (c : Court) : CastAt * Court :=
  match n with
  | O => (a, c)
  | S n => let '(a, c) := cast_step now true q a c in cast_loop n now q a c
  end.
Definition cast_vote (now : Z) (q : CastRequest) (c : Court) : CastAt * Court :=
  cast_loop 5 now q (cast_start q) c.
Definition resolve_dispute (now : Z) (dispute_id : Uuid) (c : Court) : ResolveAt * Court :=
  let '(a, c) := resolve_step now true dispute_id AtRead c in resolve_step now true dispute_id a c.

(** ** The threshold *)
Lemma round_to_multiple k p m : 0 <= k -> 2 * Z.abs (p - m * 2 ^ k) < 2 ^ k -> round_to k p = m * 2 ^ k.
Proof.
  intros Hk Hd. assert (0 < 2 ^ k) as Hpos by lia. unfold round_to.
  pose proof (Z.div_mod p (2 ^ k)) as Hdm. pose proof (Z.mod_pos_bound p (2 ^ k)) as Hb.
  set (q := p / 2 ^ k) in *. set (r := p mod 2 ^ k) in *. set (u := 2 ^ k) in *.
  assert (p = u * q + r) as Hp by lia. clear Hdm. case_match; bools.
  - assert (2 * r <= u) by (destruct H; bools; lia). assert (q = m) by nia. congruence.
  - assert (u < 2 * r \/ 2 * r = u) as [Hr|Hr] by lia.
    + assert (q + 1 = m) by nia. congruence.
    + exfalso. destruct (Z_le_dec m q); nia.
Qed.

Lemma round_to_near k p : 0 <= k -> 2 * Z.abs (round_to k p - p) <= 2 ^ k.
Proof.
  intros Hk. assert (0 < 2 ^ k) as Hpos by lia. unfold round_to.
  pose proof (Z.div_mod p (2 ^ k)) as Hdm. pose proof (Z.mod_pos_bound p (2 ^ k)) as Hb.
  set (q := p / 2 ^ k) in *. set (r := p mod 2 ^ k) in *. set (u := 2 ^ k) in *.
  assert (p = u * q + r) as Hp by lia. case_match; bools; [|nia].
  assert (2 * r <= u) by (destruct H; bools; lia). nia.
Qed.

(** The product of doubles rounds as the exact one: the threshold is 3/10 of the total,
    rounded up. *)
Lemma quorum_threshold_exact total : 0 <= total < 2 ^ 31 ->
  quorum_threshold total = div_ceil (3 * total) 10.
Proof.
  intros Ht. destruct (decide (total = 0)) as [->|Hnz]; [vm_compute; reflexivity|].
  unfold quorum_threshold, f64_times_30, F64_30. rewrite Z.abs_eq, Z.sgn_pos, Z.mul_1_l by lia.
  set (p := total * 5404319552844595). assert (0 < p) as Hp by (unfold p; lia).
  pose proof (Z.log2_spec p Hp) as [Hlo Hhi].
  assert (52 <= Z.log2 p) as H52 by (apply (Z.log2_le_mono (2 ^ 52)); unfold p; lia).
  assert (Z.log2 p < 84) as H84 by (apply Z.log2_lt_pow2; unfold p; lia).
  rewrite (Z.max_r 0 (Z.log2 p - 52)) by lia. set (k := Z.log2 p - 52). set (u := 2 ^ k).
  assert (0 <= k <= 31) as Hk by (unfold k; lia).
  assert (p < u * 2 ^ 53) as Hpu.
  { unfold u. rewrite <- Z.pow_add_r by lia. replace (k + 53) with (Z.succ (Z.log2 p)) by (unfold k; lia). done. }
  assert (u * 2 ^ (54 - k) = 2 ^ 54) as Hw by (unfold u; rewrite <- Z.pow_add_r by lia; f_equal; lia).
  assert (u <= 2 ^ 31) as Hu by (apply Z.pow_le_mono_r; lia).
  assert (forall R n, (n - 1) * 2 ^ 54 < R <= n * 2 ^ 54 -> - (- R / 2 ^ 54) = n) as Hceil.
  { intros R n HR. rewrite <- (Z.div_unique (- R) (2 ^ 54) (- n) (n * 2 ^ 54 - R)); lia. }
  set (N := div_ceil (3 * total) 10).
  assert (10 * N - 9 <= 3 * total <= 10 * N) as HN.
  { unfold N, div_ceil. pose proof (Z.div_mod (3 * total + 10 - 1) 10).
    pose proof (Z.mod_pos_bound (3 * total + 10 - 1) 10). lia. }
  rewrite (Hceil _ N); [lia|].
  destruct (decide (3 * total = 10 * N)) as [Heq|Hne].
  - rewrite (round_to_multiple k p (N * 2 ^ (54 - k))).
    + rewrite <- Z.mul_assoc, (Z.mul_comm (2 ^ (54 - k))). fold u. rewrite Hw. lia.
    + lia.
    + rewrite <- Z.mul_assoc, (Z.mul_comm (2 ^ (54 - k))). fold u. rewrite Hw. unfold p in *. lia.
  - pose proof (round_to_near k p ltac:(lia)) as Hn. fold u in Hn. set (R := round_to k p) in *.
    unfold p in *. lia.
Qed.

(** ** Tallies *)
Definition tally (k : string) (d : Dispute) : Z :=
  if bool_decide (k = BUYER) then di_buyer_votes d else di_organizer_votes d.
Definition cast_for (k : string) (dispute_id : Uuid) (v : MediationVote) : Prop :=
  mv_dispute_id v = dispute_id /\ mv_vote v = k.
#[export] Instance cast_for_dec k id v : Decision (cast_for k id v) := and_dec _ _.
(** The rows for a side, and the requests that have inserted one and not counted it. *)
Definition rows (k : string) (dispute_id : Uuid) (c : Court) : Z :=
  len (filter (cast_for k dispute_id) ((map_to_list (ct_votes c)).*2)).
Definition uncounted (k : string) (dispute_id : Uuid) (f : Flight) : Z :=
  match f with
  | Casting q (AtStatus _ _ | AtTally _) =>
      if bool_decide (cr_dispute_id q = dispute_id /\ cr_vote q = k) then 1 else 0
  | _ => 0
  end.
Definition gap (k : string) (id : Uuid) (d : Dispute) (s : Court * list Flight) : Z :=
  rows k id s.1 - tally k d - sum_by (uncounted k id) s.2.

(** A request that is past its validation is for one of the two sides. *)
Definition flight_ok (f : Flight) : Prop :=
  match f with
  | Casting q (CastDone _) => True
  | Casting q _ => cr_vote q = BUYER \/ cr_vote q = ORGANIZER
  | Resolving _ _ => True
  end.
Definition side (k : string) : Prop := k = BUYER \/ k = ORGANIZER.

Lemma rows_insert k id c key v : ct_votes c !! key = None ->
  rows k id (c <| ct_votes := <[key := v]> (ct_votes c) |>) =
  rows k id c + (if bool_decide (cast_for k id v) then 1 else 0).
Proof.
  intros Hn. unfold rows. upd_simpl. rewrite map_to_list_insert by done. rewrite fmap_cons, filter_cons.
  cbn [snd]. case_decide; case_bool_decide; try done; cbn [length]; lia.
Qed.

(** What a statement does to the difference between rows and tallies: nothing, unless
    it fails after the row was inserted. *)
Definition gap_step (up : bool) (k : string) (c c' : Court) (f f' : Flight) : Prop :=
  forall id d', ct_disputes c' !! id = Some d' ->
  exists d, ct_disputes c !! id = Some d /\
    let before := rows k id c - tally k d - uncounted k id f in
    let after := rows k id c' - tally k d' - uncounted k id f' in
    before <= after /\ (up = true -> after = before).

Lemma gap_step_refl up k c f f' : (forall id, uncounted k id f' = uncounted k id f) -> gap_step up k c c f f'.
Proof. intros Hu id d Hd. exists d. cbn. rewrite Hu. split; [done|]. split; [lia|done]. Qed.
Lemma gap_step_down k c f f' : (forall id, 0 <= uncounted k id f) -> (forall id, uncounted k id f' = 0) ->
  gap_step false k c c f f'.
Proof. intros H0 Hu id d Hd. exists d. cbn. rewrite Hu. specialize (H0 id). split; [done|]. split; [lia|done]. Qed.
Lemma uncounted_nonneg k id f : 0 <= uncounted k id f.
Proof. unfold uncounted. repeat case_match; lia. Qed.

Lemma gap_step_alter up k c f f' id0 (g : Dispute -> Dispute) :
  (forall d id, tally k (g d) + uncounted k id0 f' = tally k d + uncounted k id0 f /\
     (id <> id0 -> uncounted k id f' = uncounted k id f)) ->
  gap_step up k c (set_dispute id0 g c) f f'.
Proof.
  intros Hg id d' Hd. unfold set_dispute in Hd. upd_simpl. 
  destruct (decide (id = id0)) as [->|Hne].
  - rewrite lookup_alter_eq in Hd. apply fmap_Some_1 in Hd as (d & Hd & ->). exists d. split; [done|].
    destruct (Hg d id0) as [Ht _]. cbn. change (rows k id0 (set_dispute id0 g c)) with (rows k id0 c). lia.
  - rewrite lookup_alter_ne in Hd by done. exists d'. split; [done|].
    destruct (Hg d' id) as [_ ->]; [|done]. cbn. change (rows k id (set_dispute id0 g c)) with (rows k id c). lia.
Qed.

Lemma cast_step_gap now up q a c a' c' k : side k -> flight_ok (Casting q a) ->
  cast_step now up q a c = (a', c') ->
  gap_step up k c c' (Casting q a) (Casting q a') /\ flight_ok (Casting q a').
Proof.
  intros Hk Hok. destruct a as [|d|d|d v|v|r]; cbn [cast_step].
  6: { intros [= <- <-]. split; [by apply gap_step_refl|done]. }
  all: destruct up; cbn [negb];
    [|intros [= <- <-]; split; [apply gap_step_down; intros; [apply uncounted_nonneg|done]|done]].
  - intros [= <- <-]. repeat case_match; split; try done; by apply gap_step_refl.
  - intros [= <- <-]. case_match; split; try done; by apply gap_step_refl.
  - case_match eqn:Hc; [intros [= <- <-]; split; [by apply gap_step_refl|done]|]. bools.
    intros [= <- <-]. split; [|by case_bool_decide].
    intros id d' Hd. upd_simpl. exists d'. split; [done|]. cbn.
    rewrite rows_insert by (by apply eq_None_not_Some).
    assert (uncounted k id (Casting q (if bool_decide (di_status d = "open"%string)
      then AtStatus d (mkVote (cr_dispute_id q) (cr_voter_id q) (cr_vote q) now)
      else AtTally (mkVote (cr_dispute_id q) (cr_voter_id q) (cr_vote q) now)))
      = if bool_decide (cr_dispute_id q = id /\ cr_vote q = k) then 1 else 0) as Hu by (by case_bool_decide).
    cbn in Hu. rewrite Hu.
    rewrite (bool_decide_ext (cast_for k id _) (cr_dispute_id q = id /\ cr_vote q = k)) by done. lia.
  - intros [= <- <-]. split; [|done]. apply gap_step_alter. intros d0 id. cbn. split; [|done].
    unfold tally. upd_simpl. lia.
  - intros [= <- <-]. split; [|done]. apply gap_step_alter. intros d0 id. cbn in Hok |- *. split.
    + unfold tally. destruct Hok as [Hv|Hv]; destruct Hk as [->| ->]; rewrite Hv; cbn;
        repeat case_bool_decide; naive_solver lia.
    + intros Hne. rewrite bool_decide_eq_false_2; [done|]. intros [? _]. congruence.
Qed.

Lemma resolve_step_gap now up id a c a' c' k : resolve_step now up id a c = (a', c') ->
  gap_step up k c c' (Resolving id a) (Resolving id a').
Proof.
  destruct a as [|ruling status|r]; cbn [resolve_step].
  3: { intros [= <- <-]. by apply gap_step_refl. }
  all: destruct up; cbn [negb]; [|intros [= <- <-]; by apply gap_step_refl].
  - intros [= <- <-]. by apply gap_step_refl.
  - intros [= <- <-]. apply gap_step_alter. intros d0 id0. split; [|done]. unfold tally. by upd_simpl.
Qed.

Definition answers (e : Event_) : Prop := match e with Move _ _ up => up = true | Arrive _ => True end.

Lemma court_step_gap e s k : side k -> Forall flight_ok s.2 ->
  Forall flight_ok (court_step e s).2 /\
  forall id d', ct_disputes (court_step e s).1 !! id = Some d' ->
  exists d, ct_disputes s.1 !! id = Some d /\
    gap k id d s <= gap k id d' (court_step e s) /\
    (answers e -> gap k id d' (court_step e s) = gap k id d s).
Proof.
  intros Hk Hs. destruct s as [c fs]. unfold gap. destruct e as [f|i now up]; cbn in Hs |- *.
  - split.
    + apply Forall_app. split; [done|]. repeat constructor. destruct f as [q a|]; cbn; [|done].
      unfold cast_start. destruct (negb _ && negb _) eqn:Hv; [done|]. bools. destruct Hv; bools; auto.
    + intros id d' Hd. exists d'. rewrite sum_by_app.
      assert (sum_by (uncounted k id) [arrival f] = 0) as ->; [|split; [done|split; [lia|intros; lia]]].
      unfold sum_by. cbn. destruct f; cbn; [|done]. unfold cast_start. by destruct (negb _ && negb _).
  - destruct (fs !! i) as [f|] eqn:Hf; [|split; [done|]; intros id d' Hd; exists d'; cbn in *; split; [done|split; [lia|done]]].
    rewrite Forall_lookup in Hs. pose proof (Hs _ _ Hf) as Hok.
    assert (forall f' c', gap_step up k c c' f f' -> flight_ok f' ->
      Forall flight_ok (<[i := f']> fs) /\
      forall id d', ct_disputes c' !! id = Some d' -> exists d, ct_disputes c !! id = Some d /\
        rows k id c - tally k d - sum_by (uncounted k id) fs <=
        rows k id c' - tally k d' - sum_by (uncounted k id) (<[i := f']> fs) /\
        (up = true -> rows k id c' - tally k d' - sum_by (uncounted k id) (<[i := f']> fs)
                      = rows k id c - tally k d - sum_by (uncounted k id) fs)) as Hgen.
    { intros f' c' Hg Hok'. split; [by apply Forall_insert; [apply Forall_lookup|]|].
      intros id d' Hd. destruct (Hg id d' Hd) as (d & Hd0 & Hb & He). exists d. split; [done|]. cbn in Hb, He.
      rewrite (sum_by_insert _ _ _ _ _ Hf). split; [lia|]. intros Hu. specialize (He Hu). lia. }
    destruct f as [q a|id0 a]; cbn.
    + destruct (cast_step now up q a c) as [a' c'] eqn:Hc.
      destruct (cast_step_gap _ _ _ _ _ _ _ _ Hk Hok Hc) as [Hg Hok']. by apply Hgen.
    + destruct (resolve_step now up id0 a c) as [a' c'] eqn:Hc.
      pose proof (resolve_step_gap _ _ _ _ _ _ _ k Hc) as Hg. by apply Hgen.
Qed.

Lemma court_run_gap l : forall s k, side k -> Forall flight_ok s.2 ->
  forall id d', ct_disputes (court_run l s).1 !! id = Some d' ->
  exists d, ct_disputes s.1 !! id = Some d /\ gap k id d s <= gap k id d' (court_run l s) /\
    (Forall answers l -> gap k id d' (court_run l s) = gap k id d s).
Proof.
  induction l as [|e l IH]; intros s k Hk Hs id d' Hd.
  { exists d'. split; [done|]. split; [done|done]. }
  change (court_run (e :: l) s) with (court_run l (court_step e s)) in *.
  destruct (court_step_gap e s k Hk Hs) as [Hs1 Hg].
  destruct (IH (court_step e s) k Hk Hs1 id d' Hd) as (d1 & Hd1 & Hb1 & He1).
  destruct (Hg id d1 Hd1) as (d & Hd0 & Hb & He). exists d. split; [done|]. split; [lia|].
  intros [Ha Hl]%Forall_cons. rewrite He1, He by done. done.
Qed.

(** C13: tallies follow votes: starting from tallies that are the numbers of rows, after
    any interleaving of requests, each of them stopped anywhere or failing at any
    statement, a tally is never above the number of its rows; and if no statement
    failed, the rows are the tally and the requests that are still to count their vote. *)
Theorem tallies_follow_votes c l k id d' :
  side k -> (forall id d, ct_disputes c !! id = Some d -> tally k d = rows k id c) ->
  let s := court_run l (c, []) in
  ct_disputes s.1 !! id = Some d' ->
  tally k d' <= rows k id s.1 /\
  (Forall answers l -> rows k id s.1 = tally k d' + sum_by (uncounted k id) s.2).
Proof.
  intros Hk Hc s Hd. destruct (court_run_gap l (c, []) k Hk) with (id := id) (d' := d') as (d & Hd0 & Hb & He);
    [by constructor|done|]. fold s in Hb, He. specialize (Hc _ _ Hd0). unfold gap in *. cbn in *.
  assert (0 <= sum_by (uncounted k id) s.2) by (apply sum_by_nonneg; intros; apply uncounted_nonneg).
  assert (sum_by (uncounted k id) [] = 0) as H0 by done. rewrite H0 in *.
  split; [lia|]. intros Ha. specialize (He Ha). lia.
Qed.

(** ** Rulings *)
Definition pending_dispute (d : Dispute) : bool :=
  negb (already_resolved d) && negb (bool_decide (di_status d = "expired"%string)).
Definition ruled (now : Z) (buyer : bool) (d : Dispute) : Dispute :=
  d <| di_status := if buyer then "resolved_buyer"%string else "resolved_organizer"%string |>
    <| di_ruling := Some (if buyer then BUYER else ORGANIZER) |> <| di_resolved_at := Some now |>.

Lemma alter_at {A} (f : A -> A) (i : Uuid) (m : gmap Uuid A) x : m !! i = Some x -> alter f i m = <[i := f x]> m.
Proof.
  intros Hi. apply map_eq. intros j. destruct (decide (j = i)) as [->|Hne].
  - by rewrite lookup_alter_eq, lookup_insert_eq, Hi.
  - by rewrite lookup_alter_ne, lookup_insert_ne.
Qed.

(** The ruling: a dispute that is pending and not past its closing time is resolved,
    for the buyers exactly when their votes exceed three tenths of the eligible tickets,
    rounded up, and nothing else changes; a resolved dispute takes no vote and no other
    ruling; and a dispute past its closing time can no longer be resolved. *)
Theorem resolve_rule now id c d :
  ct_disputes c !! id = Some d -> 0 <= di_total_eligible_tickets d < 2 ^ 31 ->
  (pending_dispute d = true -> now <= di_closes_at d ->
   let d' := ruled now (div_ceil (3 * di_total_eligible_tickets d) 10 <? di_buyer_votes d) d in
   resolve_dispute now id c =
     (ResolveDone (Ok d'), c <| ct_disputes := <[id := d']> (ct_disputes c) |>)) /\
  (pending_dispute d = true -> di_closes_at d < now ->
   resolve_dispute now id c = (ResolveDone (Err ValidationError), c)) /\
  (already_resolved d = true ->
   resolve_dispute now id c = (ResolveDone (Err Conflict), c) /\
   forall q, cr_dispute_id q = id -> cast_vote now q c = (CastDone (Err ValidationError), c)).
Proof.
  intros Hd Ht. unfold resolve_dispute, pending_dispute. cbn [resolve_step negb]. rewrite Hd. split_and!.
  - intros [Hr He]%andb_true_iff Hn. apply negb_true_iff in Hr, He. rewrite Hr, He.
    rewrite (proj2 (Z.ltb_ge _ _)) by lia. rewrite quorum_threshold_exact by done.
    cbn zeta. destruct (_ <? di_buyer_votes d) eqn:Hb; cbn [resolve_step negb];
      unfold set_dispute, ruled; upd_simpl; rewrite (alter_at _ _ _ _ Hd), lookup_insert_eq; done.
  - intros [Hr He]%andb_true_iff Hn. apply negb_true_iff in Hr, He. rewrite Hr, He.
    by rewrite (proj2 (Z.ltb_lt _ _)) by lia.
  - intros Hr. rewrite Hr. split; [done|]. intros q Hq. unfold cast_vote, cast_start.
    destruct (negb _ && negb _); [done|]. cbn [cast_loop cast_step negb]. rewrite Hq, Hd.
    replace (closed_to_votes d) with true; [done|]. unfold closed_to_votes, already_resolved in *.
    symmetry. bools. apply bool_decide_eq_true. set_solver.
Qed.

(** No dispute is ever opened: the sum of the quantities is a [BIGINT], which the code
    reads as an [i32]. *)
Theorem dispute_never_opens `{Tokens} now h id event_id c : forall r, open_dispute now h id event_id c <> Ok r.
Proof. intros r Ho. unfold open_dispute in Ho. oks. discriminate. Qed.

(** The page of the disputes is the one that was asked for as long as its offset fits
    32 bits. *)
Lemma list_disputes_page params c : (dispute_page params - 1) * dispute_page_size params < 2 ^ 32 ->
  list_disputes params c =
  take (Z.to_nat (dispute_page_size params))
    (drop (Z.to_nat (dispute_page params - 1) * Z.to_nat (dispute_page_size params))
       (matching_disputes params c)).
Proof.
  intros Hp. unfold list_disputes, dispute_offset.
  assert (0 <= dispute_page params - 1 /\ 0 <= dispute_page_size params) as [H1 H2]
    by (unfold dispute_page, dispute_page_size; lia).
  rewrite Z.mod_small by (split; [by apply Z.mul_nonneg_nonneg|done]). by rewrite Z2Nat.inj_mul.
Qed.

(** ** Witnesses *)
Module MediationSample.
Definition d0 : Dispute := mkDispute 1 7 100 "open" 1000 None None 10 0 0 0.
Definition court0 : Court := mkCourt {[1 := d0]} ∅ {[100; 101; 102]} None ∅ [] [].
Definition buyer (u : Uuid) : Flight := Casting (mkCast 1 u BUYER) AtSelect.
Definition moves (i n : nat) : list Event_ := replicate n (Move i 10 true).

(** Two votes interleave; the second has not been counted yet. *)
Definition run1 : list Event_ :=
  [Arrive (buyer 100); Arrive (buyer 101)] ++ moves 0 2 ++ moves 1 3 ++ moves 0 3.
Lemma tallies_follow_votes_witness :
  let s := court_run run1 (court0, []) in
  rows BUYER 1 s.1 = 2 /\
  exists d', ct_disputes s.1 !! 1 = Some d' /\ rows BUYER 1 s.1 = tally BUYER d' + sum_by (uncounted BUYER 1) s.2.
Proof.
  split; [vm_compute; reflexivity|]. eexists. split; [vm_compute; reflexivity|].
  refine (proj2 (tallies_follow_votes court0 run1 BUYER 1 _ _ _ _) _).
  - by left.
  - intros id d Hd. unfold court0 in Hd. cbn in Hd. apply lookup_singleton_Some in Hd as [<- <-]. by vm_compute.
  - vm_compute. reflexivity.
  - by repeat constructor.
Defined.

Lemma resolve_rule_witness :
  exists d', resolve_dispute 10 1 court0 = (ResolveDone (Ok d'), court0 <| ct_disputes := {[1 := d']} |>) /\
    di_ruling d' = Some ORGANIZER.
Proof.
  eexists. split.
  - refine (proj1 (resolve_rule 10 1 court0 d0 _ _) _ _); vm_compute; done.
  - vm_compute. reflexivity.
Defined.

(** A vote that was read before the ruling puts the dispute back to voting, and another
    ruling may follow. *)
Definition run2 : list Event_ :=
  [Arrive (buyer 100); Arrive (Resolving 1 AtRead)] ++ moves 0 3 ++ moves 1 2 ++ moves 0 2.
Example resolution_reopened :
  (fun d => (di_status d, di_ruling d)) <$> ct_disputes (court_run run2 (court0, [])).1 !! 1
  = Some ("voting"%string, Some ORGANIZER).
Proof. vm_compute. reflexivity. Qed.

(** Four of ten votes are enough for the buyers against six. *)
Example minority_rules :
  let c := court0 <| ct_disputes := {[1 := d0 <| di_buyer_votes := 4 |> <| di_organizer_votes := 6 |>]} |> in
  (fun d => di_ruling d) <$> ct_disputes (resolve_dispute 10 1 c).2 !! 1 = Some (Some BUYER).
Proof. vm_compute. reflexivity. Qed.

(** A vote is accepted after the closing time. *)
Example late_vote :
  (cast_vote 5000 (mkCast 1 100 BUYER) court0).1 = CastDone (Ok (mkVote 1 100 BUYER 5000)).
Proof. vm_compute. reflexivity. Qed.

(** A page whose offset does not fit 32 bits is an earlier page. *)
Example dispute_offset_wraps : dispute_offset (mkFilters None None (Some (2 ^ 32 - 1)) (Some 2)) = 2 ^ 32 - 4 /\
  dispute_offset (mkFilters None None (Some (2 ^ 31 + 1)) (Some 2)) = 0.
Proof. vm_compute. done. Qed.
End MediationSample.
