(* ===== verification/Text.v ===== *)
(** * Server: texts

    What the handlers use of [str]: a text is its bytes in UTF-8, [trim] removes the
    characters with the property White_Space at both ends, and [len] counts bytes. *)

From stdpp Require Import base tactics numbers list strings.
From S2P Require Import Prelude.

Abbreviation chars := (list Ascii.ascii).
Definition chars_of (s : string) : chars := String.list_ascii_of_string s.
Definition text_of (l : chars) : string := String.string_of_list_ascii l.
Definition code (c : Ascii.ascii) : Z := Z.of_N (Ascii.N_of_ascii c).

(** The width of the white space that a text starts with, 0 if it starts with none. *)
Definition white_ascii (a : Z) : bool := ((9 <=? a) && (a <=? 13)) || (a =? 32).
Definition white2 (a b : Z) : bool := (a =? 194) && ((b =? 133) || (b =? 160)).
Definition white3 (a b c : Z) : bool :=
  ((a =? 225) && (b =? 154) && (c =? 128))
  || ((a =? 226) && (b =? 128) && (((128 <=? c) && (c <=? 138)) || (c =? 168) || (c =? 169) || (c =? 175)))
  || ((a =? 226) && (b =? 129) && (c =? 159))
  || ((a =? 227) && (b =? 128) && (c =? 128)).

Fixpoint trim_start (l : chars) : chars :=
  match l with
  | a :: l1 =>
      if white_ascii (code a) then trim_start l1
      else match l1 with
           | b :: l2 =>
               if white2 (code a) (code b) then trim_start l2
               else match l2 with
                    | c :: l3 => if white3 (code a) (code b) (code c) then trim_start l3 else l
                    | [] => l
                    end
           | [] => l
           end
  | [] => []
  end.
(** The same from the end, on the reversed text. *)
Fixpoint trim_rev (l : chars) : chars :=
  match l with
  | a :: l1 =>
      if white_ascii (code a) then trim_rev l1
      else match l1 with
           | b :: l2 =>
               if white2 (code b) (code a) then trim_rev l2
               else match l2 with
                    | c :: l3 => if white3 (code c) (code b) (code a) then trim_rev l3 else l
                    | [] => l
                    end
           | [] => l
           end
  | [] => []
  end.
Definition trim (s : string) : string := text_of (rev (trim_rev (rev (trim_start (chars_of s))))).

Definition starts_with (p s : string) : bool := String.prefix p s.
Definition is_empty (s : string) : bool := bool_decide (s = ""%string).
(** [chars().count()]: the bytes that are no continuation bytes. *)
Definition char_count (s : string) : Z :=
  len (filter (fun c => (code c <? 128) || (192 <=? code c) = true) (chars_of s)).

Lemma chars_text l : chars_of (text_of l) = l.
Proof. apply String.list_ascii_of_string_of_list_ascii. Qed.
Lemma text_chars s : text_of (chars_of s) = s.
Proof. apply String.string_of_list_ascii_of_string. Qed.
Lemma chars_app a b : chars_of (a +:+ b) = chars_of a ++ chars_of b.
Proof. induction a as [|c a IH]; [done|]. change (c :: chars_of (a +:+ b) = c :: chars_of a ++ chars_of b). by rewrite IH. Qed.
Lemma chars_inj a b : chars_of a = chars_of b -> a = b.
Proof. intros Heq. by rewrite <- (text_chars a), Heq, text_chars. Qed.
Lemma app_cancel_r a b c : (a +:+ c = b +:+ c)%string -> a = b.
Proof. intros Heq%(f_equal chars_of). rewrite !chars_app in Heq. by apply chars_inj, (app_inv_tail (chars_of c)). Qed.
Lemma app_cancel_l a b c : (a +:+ b = a +:+ c)%string -> b = c.
Proof. intros Heq%(f_equal chars_of). rewrite !chars_app in Heq. by apply chars_inj, (app_inv_head (chars_of a)). Qed.

Lemma trim_examples :
  trim "  a b " = "a b"%string /\ trim (text_of (Ascii.ascii_of_nat 194 :: Ascii.ascii_of_nat 160 :: chars_of "x")) = "x"%string
  /\ trim "   " = ""%string.
Proof. by vm_compute. Qed.
