(* ===== verification/Webhooks.v ===== *)
(** * Server: outgoing webhooks

    [services/webhook_dispatcher.rs], [models/webhook.rs] and [handlers/webhooks.rs] over
    the tables of endpoints, delivery logs and failures.  The answer of an endpoint to an
    attempt, and whether the database takes a row, are arguments; the requests sent and
    the sleeps are results.  HMAC-SHA256 in hexadecimal and the text of a JSON value are
    an interface ([Signing]). *)

From stdpp Require Import base tactics numbers list strings pretty gmap sorting.
From S2P Require Import Prelude.
From S2P Require Import ServerPrelude.
From S2P Require Import IndexerEvent.
From S2P Require Import EventListing.
From S2P Require Import Text.
Open Scope Z_scope.

(** [to_vec] fails on no value that is built here; [None] stands for a failure all the same. *)
Class Signing := { hmac_hex : string -> string -> string; json_text : Json -> option string }.

Definition MAX_ATTEMPTS : Z := 3.
Definition BASE_BACKOFF_SECS : Z := 1.
Definition MAX_WEBHOOK_ENDPOINTS_PER_ORGANIZER : Z := 5.
Definition MAX_WEBHOOK_URL_LEN : Z := 2048.
Definition MAX_WEBHOOK_SECRET_LEN : Z := 512.
Definition supported_webhook_events : list string := ["PaymentProcessed"; "EventCreated"; "TicketScanned"]%string.

(** ** Data *)
Record WebhookEndpoint := mkEndpoint {
  we_id : Uuid; we_organizer_id : Uuid; we_url : string; we_secret : string;
  we_events : list string; we_is_active : bool; we_created_at : Z;
}.
#[export] Instance WebhookEndpoint_eta : Eta WebhookEndpoint := fun e =>
  mkEndpoint (we_id e) (we_organizer_id e) (we_url e) (we_secret e) (we_events e) (we_is_active e)
    (we_created_at e).
Record CreateWebhookRequest := mkCreate {
  cw_organizer_id : Uuid; cw_url : string; cw_secret : string; cw_events : list string;
}.
Record WebhookDeliveryLog := mkLog {
  wl_endpoint_id : Uuid; wl_event : string; wl_payload : Json; wl_attempt : Z;
  wl_status_code : option Z; wl_error : option string;
}.
Record WebhookDeliveryFailure := mkFailure {
  wf_endpoint_id : Uuid; wf_event : string; wf_payload : Json; wf_attempts : Z;
  wf_last_status_code : option Z; wf_last_error : option string; wf_failed_at : Z;
  wf_retried_at : option Z; wf_retry_status : option string;
}.
#[export] Instance WebhookDeliveryFailure_eta : Eta WebhookDeliveryFailure := fun f =>
  mkFailure (wf_endpoint_id f) (wf_event f) (wf_payload f) (wf_attempts f) (wf_last_status_code f)
    (wf_last_error f) (wf_failed_at f) (wf_retried_at f) (wf_retry_status f).

(** The tables; the endpoints and the failures in the order of their rows. *)
Record Hooks := mkHooks {
  hk_organizers : gset Uuid; hk_events : gmap Uuid Uuid; (* the organizer of each event *)
  hk_endpoints : list WebhookEndpoint; hk_logs : list WebhookDeliveryLog;
  hk_failures : list (Uuid * WebhookDeliveryFailure);
}.
#[export] Instance Hooks_eta : Eta Hooks := fun h =>
  mkHooks (hk_organizers h) (hk_events h) (hk_endpoints h) (hk_logs h) (hk_failures h).

(** ** Validation *)
Inductive Invalid := BadUrl | BadSecret | NoEvent | Unsupported (event : string) | NoValidEvent.

Fixpoint collect_events (l : list string) (seen : gset string) (events : list string)
    : Result Invalid (list string) :=
  match l with
  | [] => Ok events
  | raw :: l =>
      let event := trim raw in
      if is_empty event then collect_events l seen events
      else if negb (bool_decide (event ∈ supported_webhook_events)) then Err (Unsupported event)
      else if bool_decide (event ∈ seen) then collect_events l seen events
      else collect_events l ({[event]} ∪ seen) (events ++ [event])
  end.

Definition validate_create_webhook (req : CreateWebhookRequest) : Result Invalid (list string) :=
  let url := trim (cw_url req) in
  err_if (is_empty url || negb (starts_with "https://" url) || (MAX_WEBHOOK_URL_LEN <? str_len url)) BadUrl;;
  err_if (is_empty (trim (cw_secret req)) || (MAX_WEBHOOK_SECRET_LEN <? str_len (cw_secret req))) BadSecret;;
  err_if (bool_decide (cw_events req = [])) NoEvent;;
  events ← collect_events (cw_events req) ∅ [];
  err_if (bool_decide (events = [])) NoValidEvent;;
  Ok events.

(** ** Management *)
Definition active_of (organizer_id : Uuid) (l : list WebhookEndpoint) : list WebhookEndpoint :=
  filter (fun e => we_organizer_id e = organizer_id /\ we_is_active e = true) l.
Definition active_count (organizer_id : Uuid) (l : list WebhookEndpoint) : Z := len (active_of organizer_id l).

(** The guarded [INSERT]: [None] when the guard refuses it.  [visible] are the endpoints
    that the transaction sees. *)
Definition guarded_insert (now : Z) (id : Uuid) (req : CreateWebhookRequest) (events : list string)
    (organizers : gset Uuid) (visible : list WebhookEndpoint) : Result AppError (option WebhookEndpoint) :=
  if active_count (cw_organizer_id req) visible <? MAX_WEBHOOK_ENDPOINTS_PER_ORGANIZER then
    if bool_decide (cw_organizer_id req ∈ organizers)
    then Ok (Some (mkEndpoint id (cw_organizer_id req) (trim (cw_url req)) (trim (cw_secret req)) events true now))
    else Err DatabaseError
  else Ok None.

(** The handler, over the answer to the query for the slots that remain. *)
Definition create_webhook_with (select_remaining : Z -> Result AppError Z) (now : Z) (id : Uuid)
    (req : CreateWebhookRequest) (h : Hooks) : Result AppError (WebhookEndpoint * Z) * Hooks :=
  match validate_create_webhook req with
  | Err _ => (Err ValidationError, h)
  | Ok events =>
      match guarded_insert now id req events (hk_organizers h) (hk_endpoints h) with
      | Err e => (Err e, h)
      | Ok None => (Err ValidationError, h)
      | Ok (Some endpoint) =>
          let h' := h <| hk_endpoints := hk_endpoints h ++ [endpoint] |> in
          match select_remaining (active_count (cw_organizer_id req) (hk_endpoints h')) with
          | Err e => (Err e, h)
          | Ok remaining => (Ok (endpoint, remaining), h')
          end
      end
  end.
(** [SELECT MAX(0, $1::bigint - COUNT)]: the database has no [MAX] of two arguments,
    so the statement fails. *)
Definition select_max (_ : Z) : Result AppError Z := Err DatabaseError.
Definition create_webhook := create_webhook_with select_max.

Definition newer (e1 e2 : WebhookEndpoint) : Prop := we_created_at e2 <= we_created_at e1.
#[export] Instance newer_dec e1 e2 : Decision (newer e1 e2) := Z_le_dec _ _.
Definition list_webhooks (organizer_id : option Uuid) (h : Hooks) : Result AppError (list WebhookEndpoint) :=
  match organizer_id with
  | None => Err ValidationError
  | Some o => Ok (merge_sort newer (filter (fun e => we_organizer_id e = o) (hk_endpoints h)))
  end.

Definition delete_webhook (endpoint_id : Uuid) (h : Hooks) : Result AppError unit * Hooks :=
  if existsb (fun e => we_id e =? endpoint_id) (hk_endpoints h) then
    (Ok tt, h <| hk_endpoints :=
       (fun e => if we_id e =? endpoint_id then e <| we_is_active := false |> else e) <$> hk_endpoints h |>)
  else (Err NotFound, h).

Definition later_failure (f1 f2 : Uuid * WebhookDeliveryFailure) : Prop := wf_failed_at f2.2 <= wf_failed_at f1.2.
#[export] Instance later_failure_dec f1 f2 : Decision (later_failure f1 f2) := Z_le_dec _ _.
Definition owned_by (o : Uuid) (h : Hooks) (endpoint_id : Uuid) : bool :=
  existsb (fun e => (we_id e =? endpoint_id) && (we_organizer_id e =? o)) (hk_endpoints h).
Definition list_webhook_failures (endpoint_id organizer_id : option Uuid) (h : Hooks)
    : list (Uuid * WebhookDeliveryFailure) :=
  match endpoint_id, organizer_id with
  | Some e, _ => merge_sort later_failure (filter (fun f => wf_endpoint_id f.2 = e) (hk_failures h))
  | None, Some o =>
      merge_sort later_failure (filter (fun f => owned_by o h (wf_endpoint_id f.2) = true) (hk_failures h))
  | None, None => take 100 (merge_sort later_failure (hk_failures h))
  end.

(** ** Delivery *)

(** What comes back for one attempt, and whether the rows of an attempt are taken. *)
Inductive Outcome := Responded (status : Z) | SendError (err : string) | TimedOut.
Definition is_success (status : Z) : bool := (200 <=? status) && (status <? 300).
Definition delivered (o : Outcome) : bool := match o with Responded s => is_success s | _ => false end.
Definition status_of (o : Outcome) : option Z := match o with Responded s => Some s | _ => None end.
Definition timed_out : string := "delivery timed out".
(** The error of the log row, and the one that is kept for the failure. *)
Definition log_error (o : Outcome) : option string :=
  match o with Responded _ => None | SendError e => Some e | TimedOut => Some timed_out end.
Definition kept_error (o : Outcome) : option string :=
  match o with
  | Responded s => if is_success s then None else Some ("HTTP status " +:+ pretty s)
  | SendError e => Some e
  | TimedOut => Some timed_out
  end.

Record Post := mkPost { po_url : string; po_signature : string; po_event : string; po_body : string }.

Section Delivery.
Context `{Signing}.

Definition sign_payload (secret body : string) : string := "sha256=" +:+ hmac_hex secret body.
Definition body_of (payload : Json) : string := default "{}"%string (json_text payload).
Definition post_of (endpoint : WebhookEndpoint) (event : string) (payload : Json) : Post :=
  let body := body_of payload in
  mkPost (we_url endpoint) (sign_payload (we_secret endpoint) body) event body.

Definition organizer_for_event (up : bool) (event_id : Uuid) (h : Hooks) : option Uuid :=
  if up then hk_events h !! event_id else None.

Definition endpoints_for (up : bool) (organizer_id : Uuid) (event : string) (h : Hooks) : list WebhookEndpoint :=
  if up then filter (fun e => we_organizer_id e = organizer_id /\ we_is_active e = true /\ event ∈ we_events e)
               (hk_endpoints h)
  else [].

(** [net] answers the attempts and [db] says which rows are taken, by attempt. *)
Definition log_delivery (up : bool) (row : WebhookDeliveryLog) (h : Hooks) : Hooks :=
  if up then h <| hk_logs := hk_logs h ++ [row] |> else h.
Definition log_row (endpoint : WebhookEndpoint) (event : string) (payload : Json) (attempt : Z) (o : Outcome)
    : WebhookDeliveryLog :=
  mkLog (we_id endpoint) event payload attempt (status_of o) (log_error o).
Definition backoff (attempt : Z) : Z := saturate U64 (BASE_BACKOFF_SECS * 2 ^ (attempt - 1)).

Definition record_delivery_failure (up : bool) (now : Z) (id : Uuid) (endpoint : WebhookEndpoint) (event : string)
    (payload : Json) (attempts : Z) (last : Outcome) (h : Hooks) : Hooks :=
  if up then h <| hk_failures := hk_failures h ++
    [(id, mkFailure (we_id endpoint) event payload attempts (status_of last) (kept_error last) now None None)] |>
  else h.

(** The attempts from [attempt] on, of which [budget] are allowed: the posts, the sleeps
    and the tables. *)
Fixpoint deliver_loop (budget : nat) (attempt : Z) (net : Z -> Outcome) (db : Z -> bool) (now : Z) (id : Uuid)
    (endpoint : WebhookEndpoint) (event : string) (payload : Json) (last : Outcome) (h : Hooks)
    : list Post * list Z * Hooks :=
  match budget with
  | O => ([], [], record_delivery_failure (db 0) now id endpoint event payload MAX_ATTEMPTS last h)
  | S budget =>
      let o := net attempt in
      let h := log_delivery (db attempt) (log_row endpoint event payload attempt o) h in
      let post := post_of endpoint event payload in
      if delivered o then ([post], [], h)
      else
        let sleep := if attempt <? MAX_ATTEMPTS then [backoff attempt] else [] in
        let '(posts, sleeps, h) := deliver_loop budget (attempt + 1) net db now id endpoint event payload o h in
        (post :: posts, sleep ++ sleeps, h)
  end.
Definition deliver_to_endpoint (net : Z -> Outcome) (db : Z -> bool) (now : Z) (id : Uuid)
    (endpoint : WebhookEndpoint) (event : string) (payload : Json) (h : Hooks) : list Post * list Z * Hooks :=
  deliver_loop (Z.to_nat MAX_ATTEMPTS) 1 net db now id endpoint event payload TimedOut h.

(** *** Redelivery *)
Inductive RetryError := FailureNotFound | EndpointNotFound | RetryDatabase | BadGateway.
Definition set_failure (failure_id : Uuid) (f : WebhookDeliveryFailure) (h : Hooks) : Hooks :=
  h <| hk_failures := (fun x => if x.1 =? failure_id then (x.1, f) else x) <$> hk_failures h |>.
Definition find_failure (failure_id : Uuid) (h : Hooks) : option WebhookDeliveryFailure :=
  snd <$> find (fun x => x.1 =? failure_id) (hk_failures h).
Definition find_endpoint (endpoint_id : Uuid) (h : Hooks) : option WebhookEndpoint :=
  find (fun e => we_id e =? endpoint_id) (hk_endpoints h).

Definition retry_failed_delivery (o : Outcome) (now : Z) (failure_id : Uuid) (h : Hooks)
    : Result RetryError WebhookDeliveryFailure * list Post * Hooks :=
  match find_failure failure_id h with
  | None => (Err FailureNotFound, [], h)
  | Some failure =>
      match find_endpoint (wf_endpoint_id failure) h with
      | None => (Err EndpointNotFound, [], h)
      | Some endpoint =>
          let post := post_of endpoint (wf_event failure) (wf_payload failure) in
          let updated := failure
            <| wf_retried_at := Some now |>
            <| wf_retry_status := Some (if delivered o then "delivered"%string else "failed"%string) |>
            <| wf_last_status_code := match status_of o with Some s => Some s | None => wf_last_status_code failure end |>
            <| wf_last_error := kept_error o |> in
          (if delivered o then Ok updated else Err BadGateway, [post], set_failure failure_id updated h)
      end
  end.

(** *** Dispatch: the endpoints one after the other, each with its own answers and identifier *)
Definition envelope (id event timestamp : string) (data : Json) : Json :=
  JObject [("id", JString id); ("event", JString event); ("timestamp", JString timestamp); ("data", data)]%string.

Fixpoint deliver_all (net : Uuid -> Z -> Outcome) (db : Uuid -> Z -> bool) (now : Z) (ids : Uuid -> Uuid)
    (endpoints : list WebhookEndpoint) (event : string) (payload : Json) (h : Hooks) : list Post * Hooks :=
  match endpoints with
  | [] => ([], h)
  | e :: endpoints =>
      let '(posts, _, h) := deliver_to_endpoint (net (we_id e)) (db (we_id e)) now (ids (we_id e)) e event payload h in
      let '(rest, h) := deliver_all net db now ids endpoints event payload h in
      (posts ++ rest, h)
  end.
Definition dispatch_webhooks (up : bool) (net : Uuid -> Z -> Outcome) (db : Uuid -> Z -> bool) (now : Z)
    (ids : Uuid -> Uuid) (id timestamp : string) (organizer_id : Uuid) (event : string) (data : Json) (h : Hooks)
    : list Post * Hooks :=
  deliver_all net db now ids (endpoints_for up organizer_id event h) event (envelope id event timestamp data) h.
End Delivery.

(** ** Validation *)
Lemma collect_events_ok l : forall seen events r,
  (forall e, e ∈ seen <-> e ∈ events) -> NoDup events -> Forall (fun e => e ∈ supported_webhook_events) events ->
  collect_events l seen events = Ok r ->
  NoDup r /\ Forall (fun e => e ∈ supported_webhook_events) r /\
  forall e, e ∈ r <-> e ∈ events \/ (e <> ""%string /\ e ∈ trim <$> l).
Proof.
  induction l as [|raw l IH]; intros seen events r Hs Hnd Hsup; cbn [collect_events].
  { intros [= <-]. split_and!; [done..|]. intros e. set_solver. }
  unfold is_empty. rewrite fmap_cons. case_bool_decide as He.
  { intros Hr. apply IH in Hr as (? & ? & Hr); [|done..]. split_and!; [done..|]. rewrite He. set_solver. }
  case_bool_decide as Hin; cbn [negb]; [|done]. case_bool_decide as Hseen; intros Hr.
  - apply IH in Hr as (? & ? & Hr); [|done..]. split_and!; [done..|]. apply Hs in Hseen. intros e. rewrite Hr, elem_of_cons. naive_solver.
  - apply IH in Hr as (? & ? & Hr).
    + split_and!; [done..|]. intros e. rewrite Hr. set_solver.
    + set_solver.
    + apply NoDup_app. split_and!; [done| |apply NoDup_singleton]. set_solver.
    + apply Forall_app. split; [done|]. by constructor.
Qed.

(** The subscriptions that are accepted: each supported, none twice, and exactly those
    that were given, without the blanks around them; the address is HTTPS and bounded. *)
Lemma validate_ok req events : validate_create_webhook req = Ok events ->
  NoDup events /\ events <> [] /\ Forall (fun e => e ∈ supported_webhook_events) events /\
  (forall e, e ∈ events <-> e <> ""%string /\ e ∈ trim <$> cw_events req) /\
  starts_with "https://" (trim (cw_url req)) = true /\ str_len (trim (cw_url req)) <= MAX_WEBHOOK_URL_LEN.
Proof.
  unfold validate_create_webhook. intros Hv. oks. subst. bools.
  match goal with H : collect_events _ _ _ = Ok _ |- _ => apply collect_events_ok in H as (Hnd & Hs & He) end;
    [|set_solver|by constructor|by constructor].
  split_and!; try done. intros e. rewrite He. set_solver.
Qed.

(** ** The cap *)
Definition capped (h : Hooks) : Prop :=
  forall o, active_count o (hk_endpoints h) <= MAX_WEBHOOK_ENDPOINTS_PER_ORGANIZER.

Lemma create_capped sel now id req h : capped h -> capped (create_webhook_with sel now id req h).2.
Proof.
  intros Hc. unfold create_webhook_with. destruct (validate_create_webhook req) as [events|]; [|done].
  unfold guarded_insert. destruct (active_count _ _ <? _) eqn:Hlt; [|done]. bools.
  case_bool_decide; [|done]. destruct (sel _); [|done]. intros o. cbn [snd]. upd_simpl.
  unfold active_count, active_of in *. rewrite filter_app, length_app.
  specialize (Hc o). unfold active_count, active_of in Hc. rewrite filter_cons. case_decide as Hd; cbn; [|lia].
  cbn in Hd. destruct Hd as [<- _]. lia.
Qed.
Lemma delete_capped id h : capped h -> capped (delete_webhook id h).2.
Proof.
  intros Hc o. unfold delete_webhook. case_match; [|apply Hc]. cbn. upd_simpl. specialize (Hc o).
  etrans; [|exact Hc]. unfold active_count, active_of. clear.
  induction (hk_endpoints h) as [|e l IH]; [done|]. rewrite fmap_cons, !filter_cons.
  destruct (we_id e =? id); repeat case_decide; cbn in *; try lia; upd_simpl; naive_solver lia.
Qed.

(** No endpoint can be registered: whatever the request, the transaction is rolled back. *)
Theorem create_never_commits now id req h :
  (exists e, (create_webhook now id req h).1 = Err e) /\ (create_webhook now id req h).2 = h.
Proof.
  unfold create_webhook, create_webhook_with. destruct (validate_create_webhook req); [|eauto].
  unfold guarded_insert. destruct (active_count _ _ <? _); [|eauto]. case_bool_decide; cbn; eauto.
Qed.

(** ** Deliveries *)
Section Deliveries.
Context `{Signing}.
Variables (net : Z -> Outcome) (now : Z) (id : Uuid) (endpoint : WebhookEndpoint) (event : string) (payload : Json).

(** The reference: the attempts are made in order until one is delivered. *)
Fixpoint until_delivered (l : list Z) : list Z :=
  match l with
  | [] => []
  | a :: l => a :: if delivered (net a) then [] else until_delivered l
  end.
Definition made : list Z := until_delivered [1; 2; 3].
Definition reached : bool := existsb (fun a => delivered (net a)) made.
Definition failure_row : Uuid * WebhookDeliveryFailure :=
  (id, mkFailure (we_id endpoint) event payload 3 (status_of (net 3)) (kept_error (net 3)) now None None).

(** A delivery, when the database takes its rows, in terms of the attempts made. *)
Lemma deliver_spec h :
  deliver_to_endpoint net (fun _ => true) now id endpoint event payload h =
  ((fun _ => post_of endpoint event payload) <$> made,
   take (length made - 1) [1; 2],
   h <| hk_logs := hk_logs h ++ ((fun a => log_row endpoint event payload a (net a)) <$> made) |>
     <| hk_failures := hk_failures h ++ (if reached then [] else [failure_row]) |>).
Proof.
  unfold deliver_to_endpoint, reached, made, failure_row. change (Z.to_nat MAX_ATTEMPTS) with 3%nat.
  cbn [until_delivered deliver_loop]. change (1 + 1) with 2. change (2 + 1) with 3.
  destruct (delivered (net 1)) eqn:H1; [|destruct (delivered (net 2)) eqn:H2; [|destruct (delivered (net 3)) eqn:H3]];
    cbn; rewrite ?H1, ?H2, ?H3; cbn; destruct h; unfold upd; cbn; rewrite ?app_nil_r, <- ?app_assoc; reflexivity.
Qed.
End Deliveries.

Section Dispatch.
Context `{Signing}.
Variables (net : Uuid -> Z -> Outcome) (now : Z) (ids : Uuid -> Uuid) (event : string) (payload : Json).

(** What a delivery to one endpoint sends and records. *)
Definition posts_to (e : WebhookEndpoint) : list Post :=
  (fun _ => post_of e event payload) <$> made (net (we_id e)).
Definition logs_of (e : WebhookEndpoint) : list WebhookDeliveryLog :=
  (fun a => log_row e event payload a (net (we_id e) a)) <$> made (net (we_id e)).
Definition dead_of (e : WebhookEndpoint) : list (Uuid * WebhookDeliveryFailure) :=
  if reached (net (we_id e)) then [] else [failure_row (net (we_id e)) now (ids (we_id e)) e event payload].

Lemma deliver_all_spec l : forall h,
  deliver_all net (fun _ _ => true) now ids l event payload h =
  (l ≫= posts_to,
   h <| hk_logs := hk_logs h ++ (l ≫= logs_of) |> <| hk_failures := hk_failures h ++ (l ≫= dead_of) |>).
Proof.
  induction l as [|e l IH]; intros h; cbn [deliver_all].
  { cbn. destruct h. unfold upd. cbn. by rewrite !app_nil_r. }
  rewrite deliver_spec, IH. cbn. unfold posts_to, logs_of, dead_of. destruct h. unfold upd. cbn.
  by rewrite <- !app_assoc.
Qed.
End Dispatch.

(** C28: a dispatch: when the database answers, the endpoints of the organizer that are
    active and subscribed to the event, and no others, receive the signed envelope; each
    is tried until it is reached, at most three times and with pauses of one and two
    seconds; every attempt leaves one row in the log; and exactly the endpoints that
    were not reached are in the dead-letter queue, with the last answer. *)
Theorem dispatch_exact `{Signing} net now ids id timestamp organizer_id event data h :
  let payload := envelope id event timestamp data in
  let subscribed := filter (fun e => we_organizer_id e = organizer_id /\ we_is_active e = true /\ event ∈ we_events e)
                      (hk_endpoints h) in
  dispatch_webhooks true net (fun _ _ => true) now ids id timestamp organizer_id event data h =
    (subscribed ≫= posts_to net event payload,
     h <| hk_logs := hk_logs h ++ (subscribed ≫= logs_of net event payload) |>
       <| hk_failures := hk_failures h ++ (subscribed ≫= dead_of net now ids event payload) |>) /\
  forall e, e ∈ subscribed ->
    let a := made (net (we_id e)) in
    (1 <= length a <= 3)%nat /\
    Forall (fun p => p = mkPost (we_url e) (sign_payload (we_secret e) (body_of payload)) event (body_of payload))
      (posts_to net event payload e) /\
    (deliver_to_endpoint (net (we_id e)) (fun _ => true) now (ids (we_id e)) e event payload h).1.2
      = take (length a - 1) [1; 2].
Proof.
  intros payload subscribed. split; [apply deliver_all_spec|]. intros e He a. split; [|split].
  - unfold a, made. cbn. destruct (delivered _); cbn; [lia|]. destruct (delivered _); cbn; [lia|].
    destruct (delivered _); cbn; lia.
  - unfold posts_to. apply Forall_forall. by intros p (? & -> & _)%list_elem_of_fmap.
  - by rewrite deliver_spec.
Qed.

(** The life of an endpoint: what [validate_create_webhook] accepts is a set of
    supported events behind an HTTPS address; with an answer to the query for the
    remaining slots the cap of five active endpoints is kept by creation and deletion;
    and an endpoint that was deactivated gets nothing from later dispatches. *)
Theorem endpoint_lifecycle sel now id req h endpoint_id up organizer_id event :
  capped h ->
  capped (create_webhook_with sel now id req h).2 /\ capped (delete_webhook endpoint_id h).2 /\
  (forall endpoint r, (create_webhook_with sel now id req h).1 = Ok (endpoint, r) ->
     NoDup (we_events endpoint) /\ we_events endpoint <> [] /\
     Forall (fun e => e ∈ supported_webhook_events) (we_events endpoint) /\
     starts_with "https://" (we_url endpoint) = true) /\
  Forall (fun e => we_id e <> endpoint_id) (endpoints_for up organizer_id event (delete_webhook endpoint_id h).2).
Proof.
  intros Hc. split_and!; [by apply create_capped|by apply delete_capped| |].
  - intros endpoint r. unfold create_webhook_with.
    destruct (validate_create_webhook req) as [events|] eqn:Hv; [|done]. apply validate_ok in Hv as (? & ? & ? & _ & ? & _).
    unfold guarded_insert. destruct (active_count _ _ <? _); [|done]. case_bool_decide; [|done].
    destruct (sel _); [|done]. cbn. by intros [= <- <-].
  - apply Forall_forall. intros e He Heq. unfold endpoints_for in He. destruct up; [|set_solver].
    apply list_elem_of_filter in He as [(_ & Ha & _) Hin]. unfold delete_webhook in Hin. case_match eqn:Hx; cbn in Hin.
    + upd_simpl. apply list_elem_of_fmap in Hin as (e0 & -> & Hin0).
      destruct (we_id e0 =? endpoint_id) eqn:Hid; [done|]. bools. done.
    + rewrite <- not_true_iff_false in Hx. apply Hx, existsb_exists. exists e.
      split; [by apply list_elem_of_In|]. by apply Z.eqb_eq.
Qed.

(** A retry from the dead-letter queue is sent whether or not the endpoint is active, and
    is not in the log. *)
Theorem retry_unlogged `{Signing} o now failure_id h failure endpoint :
  find_failure failure_id h = Some failure -> find_endpoint (wf_endpoint_id failure) h = Some endpoint ->
  let '(_, posts, h') := retry_failed_delivery o now failure_id h in
  posts = [post_of endpoint (wf_event failure) (wf_payload failure)] /\ hk_logs h' = hk_logs h.
Proof. intros Hf He. unfold retry_failed_delivery. by rewrite Hf, He. Qed.

(** ** Witnesses *)
Module WebhookSample.
#[local] Instance signing : Signing := {| hmac_hex s b := s; json_text _ := Some "{}"%string |}.
Definition active : WebhookEndpoint := mkEndpoint 1 7 "https://a" "s1" ["EventCreated"%string] true 0.
Definition inactive : WebhookEndpoint := mkEndpoint 2 7 "https://b" "s2" ["EventCreated"%string] false 0.
Definition failure : WebhookDeliveryFailure := mkFailure 2 "EventCreated" JNull 3 None (Some timed_out) 0 None None.
Definition hooks : Hooks := mkHooks {[7]} ∅ [active; inactive] [] [(9, failure)].

Lemma hooks_capped : capped hooks.
Proof.
  intros o. unfold active_count, active_of, MAX_WEBHOOK_ENDPOINTS_PER_ORGANIZER.
  change (hk_endpoints hooks) with [active; inactive]. rewrite !filter_cons. repeat case_decide; cbn; lia.
Qed.
Lemma endpoint_lifecycle_witness :
  Forall (fun e => we_id e <> 1) (endpoints_for true 7 "EventCreated" (delete_webhook 1 hooks).2).
Proof.
  apply (endpoint_lifecycle (fun n => Ok (5 - n)) 0 3 (mkCreate 7 "https://c" "s" ["EventCreated"%string]) hooks
    1 true 7 "EventCreated" hooks_capped).
Defined.

Example retry_reaches_inactive :
  (retry_failed_delivery (Responded 200) 5 9 hooks).1.2 = [mkPost "https://b" "sha256=s2" "EventCreated" "{}"].
Proof. vm_compute. reflexivity. Qed.

(** Two attempts time out and the third is answered with 503. *)
Example dead_letter :
  let net (_ : Uuid) (a : Z) := if a =? 3 then Responded 503 else TimedOut in
  (fun x => (wf_last_status_code x.2, wf_last_error x.2)) <$>
    hk_failures (dispatch_webhooks true net (fun _ _ => true) 0 (fun _ => 50) "i" "t" 7 "EventCreated" JNull hooks).2
  = [(None, Some timed_out); (Some 503, Some "HTTP status 503"%string)].
Proof. vm_compute. reflexivity. Qed.
End WebhookSample.
