(* ===== verification/Affiliates.v ===== *)
(** * Server: affiliates

    [handlers/affiliates.rs] and [models/event_affiliate.rs].  A registration runs
    several statements: it is a machine with one move per statement, so that requests
    interleave.  The table has the constraints of its migration: one row for an event and
    a wallet, and codes that are unique over all events; they are checked in the order
    in which the table declares them. *)

From stdpp Require Import base tactics numbers list strings gmap.
From Stdlib Require Import Ascii.
From S2P Require Import Prelude.
From S2P Require Import ServerPrelude.
From S2P Require Import Text.
From S2P Require Import EventListing.
Open Scope Z_scope.

Definition CODE_ALPHABET : string := "0123456789ABCDEFGHJKMNPQRSTVWXYZ".
Definition CODE_LENGTH : nat := 10.
Definition MAX_CODE_ATTEMPTS : nat := 5.

(** [draw] is the random number generator: the [i]-th number below the given bound. *)
Definition generate_referral_code (draw : nat -> nat -> nat) : string :=
  text_of ((fun i => default "0"%char (chars_of CODE_ALPHABET !! draw i (length (chars_of CODE_ALPHABET))))
             <$> seq 0 CODE_LENGTH).

Record EventAffiliate := mkAffiliate {
  ea_id : Uuid; ea_event_id : Uuid; ea_wallet_address : string; ea_referral_code : string;
}.
#[export] Instance EventAffiliate_eq : EqDecision EventAffiliate.
Proof. solve_decision. Defined.
Record Transaction := mkTransaction {
  tx_tier_event : option Uuid; (* the event of the tier of the ticket *)
  tx_amount : Z; (* in cents *)
  tx_status : string; tx_referred_by : option string;
}.
Record AffiliateDb := mkAffiliateDb {
  ad_events : gset Uuid; ad_rows : gmap (Uuid * string) EventAffiliate; ad_transactions : list Transaction;
}.
#[export] Instance AffiliateDb_eta : Eta AffiliateDb := fun d =>
  mkAffiliateDb (ad_events d) (ad_rows d) (ad_transactions d).

(** ** Registration *)
Inductive InsertError := CodeTaken | WalletTaken | OtherConstraint.
Definition code_taken (code : string) (db : AffiliateDb) : bool :=
  bool_decide (code ∈ ea_referral_code <$> ((map_to_list (ad_rows db)).*2)).
Definition insert_affiliate (id event : Uuid) (wallet code : string) (db : AffiliateDb)
    : Result InsertError (EventAffiliate * AffiliateDb) :=
  err_if (code_taken code db) CodeTaken;;
  err_if (bool_decide (is_Some (ad_rows db !! (event, wallet)))) WalletTaken;;
  err_if (negb (bool_decide (event ∈ ad_events db))) OtherConstraint;;
  let row := mkAffiliate id event wallet code in
  Ok (row, db <| ad_rows := <[(event, wallet) := row]> (ad_rows db) |>).

Record AffiliateResponse := mkAffiliateResponse { ar_row : EventAffiliate; ar_already_registered : bool }.

(** Where a request stands: before each of its statements, or at its answer. *)
Inductive RegisterAt :=
  | AtEvent
  | AtExisting
  | AtInsert (attempts : nat)
  | AtReread
  | Registered (r : Result AppError AffiliateResponse).

Definition register_start (auth : Result AppError string) (event : option Uuid)
    : RegisterAt :=
  match auth, event with
  | Err e, _ => Registered (Err e)
  | Ok _, None => Registered (Err ValidationError)
  | Ok _, Some _ => AtEvent
  end.

(** One statement; [up] says whether the database answers, [code] is the code that an
    [INSERT] tries. *)
Definition register_step (up : bool) (id : Uuid) (code : string) (event : Uuid) (wallet : string)
    (at_ : RegisterAt) (db : AffiliateDb) : RegisterAt * AffiliateDb :=
  match at_ with
  | Registered r => (Registered r, db)
  | AtInsert O => (Registered (Err Conflict), db)
  | _ => if negb up then (Registered (Err DatabaseError), db) else
  match at_ with
  | AtEvent => (if bool_decide (event ∈ ad_events db) then AtExisting else Registered (Err NotFound), db)
  | AtExisting =>
      (match ad_rows db !! (event, wallet) with
       | Some row => Registered (Ok (mkAffiliateResponse row true))
       | None => AtInsert MAX_CODE_ATTEMPTS
       end, db)
  | AtInsert (S n) =>
      match insert_affiliate id event wallet code db with
      | Ok (row, db) => (Registered (Ok (mkAffiliateResponse row false)), db)
      | Err WalletTaken => (AtReread, db)
      | Err _ => (match n with O => Registered (Err Conflict) | S _ => AtInsert n end, db)
      end
  | AtReread =>
      (match ad_rows db !! (event, wallet) with
       | Some row => Registered (Ok (mkAffiliateResponse row true))
       | None => Registered (Err DatabaseError)
       end, db)
  | _ => (at_, db)
  end end.

(** Requests in flight: each has its event and wallet. *)
Record Registration := mkRegistration { rg_event : Uuid; rg_wallet : string; rg_at : RegisterAt }.
#[export] Instance Registration_eta : Eta Registration := fun r =>
  mkRegistration (rg_event r) (rg_wallet r) (rg_at r).
Inductive AffiliateMove :=
  | Arrives (event : Uuid) (wallet : string)
  | Moves (i : nat) (up : bool) (id : Uuid) (code : string).

Definition affiliate_step (m : AffiliateMove) (s : AffiliateDb * list Registration)
    : AffiliateDb * list Registration :=
  match m with
  | Arrives event wallet => (s.1, s.2 ++ [mkRegistration event wallet (register_start (Ok wallet) (Some event))])
  | Moves i up id code =>
      match s.2 !! i with
      | Some r =>
          let '(a, db) := register_step up id code (rg_event r) (rg_wallet r) (rg_at r) s.1 in
          (db, <[i := r <| rg_at := a |>]> s.2)
      | None => s
      end
  end.
Definition affiliate_run (l : list AffiliateMove) (s : AffiliateDb * list Registration)
    : AffiliateDb * list Registration :=
  foldl (fun s m => affiliate_step m s) s l.

(** One request alone, with the codes that it draws: at most eight statements. *)
Fixpoint register_loop (n : nat) (id : Uuid) (codes : nat -> string) (event : Uuid) (wallet : string)
    (a : RegisterAt) (db : AffiliateDb) : RegisterAt * AffiliateDb :=
  match n with
  | O => (a, db)
  | S n => let '(a, db) := register_step true id (codes n) event wallet a db in
           register_loop n id codes event wallet a db
  end.
Definition register_affiliate (id : Uuid) (codes : nat -> string) (auth : Result AppError string)
    (event : option Uuid) (db : AffiliateDb) : RegisterAt * AffiliateDb :=
  match auth, event with
  | Ok wallet, Some e => register_loop 9 id codes e wallet (register_start auth event) db
  | _, _ => (register_start auth event, db)
  end.

(** ** Metrics: amounts in cents, the commission in millionths of the unit *)
Definition COMMISSION_BPS : Z := 500.
Record AffiliateMetrics := mkMetrics {
  am_code : string; am_tickets_sold : Z; am_volume : Z; am_commission : Z; am_conversion_rate : Z;
}.
Definition attributed (code : string) (event : Uuid) (t : Transaction) : Prop :=
  tx_referred_by t = Some code /\ tx_tier_event t = Some event /\ tx_status t = "completed"%string.
#[export] Instance attributed_dec code event t : Decision (attributed code event t) := and_dec _ _.

Definition get_my_affiliate_metrics (auth : Result AppError string) (event : option Uuid) (db : AffiliateDb)
    : Result AppError AffiliateMetrics :=
  wallet ← auth;
  event ← ok_or event ValidationError;
  err_if (negb (bool_decide (event ∈ ad_events db))) NotFound;;
  affiliate ← ok_or (ad_rows db !! (event, wallet)) NotFound;
  let sold := filter (attributed (ea_referral_code affiliate) event) (ad_transactions db) in
  let volume := sum_by tx_amount sold in
  Ok (mkMetrics (ea_referral_code affiliate) (len sold) volume (volume * COMMISSION_BPS)
        (if 0 <? len sold then Z.min (len sold) 100 else 0)).

(** ** Codes *)
Lemma alphabet_size : length (chars_of CODE_ALPHABET) = 32%nat /\ NoDup (chars_of CODE_ALPHABET).
Proof. split; [done|]. apply (bool_decide_unpack _). by vm_compute. Qed.

Lemma generate_shape draw : (forall i n, draw i n < n)%nat ->
  length (chars_of (generate_referral_code draw)) = CODE_LENGTH /\
  Forall (fun c => c ∈ chars_of CODE_ALPHABET) (chars_of (generate_referral_code draw)).
Proof.
  intros Hd. unfold generate_referral_code. rewrite chars_text. split; [by rewrite length_fmap, length_seq|].
  apply Forall_forall. intros c (i & -> & _)%list_elem_of_fmap.
  destruct (lookup_lt_is_Some_2 (chars_of CODE_ALPHABET) (draw i (length (chars_of CODE_ALPHABET)))) as [x Hx]; [apply Hd|].
  rewrite Hx. by eapply list_elem_of_lookup_2.
Qed.

(** ** The table *)
Record Unique (db : AffiliateDb) : Prop := mkUnique {
  un_key : forall e w r, ad_rows db !! (e, w) = Some r -> ea_event_id r = e /\ ea_wallet_address r = w;
  un_code : forall k1 k2 r1 r2, ad_rows db !! k1 = Some r1 -> ad_rows db !! k2 = Some r2 ->
    ea_referral_code r1 = ea_referral_code r2 -> k1 = k2;
}.

Lemma code_taken_false code db : code_taken code db = false ->
  forall k r, ad_rows db !! k = Some r -> ea_referral_code r <> code.
Proof.
  unfold code_taken. rewrite bool_decide_eq_false. intros Hc k r Hr Heq. apply Hc.
  apply list_elem_of_fmap. exists r. split; [done|]. apply list_elem_of_fmap. exists (k, r).
  split; [done|]. by apply elem_of_map_to_list.
Qed.

Lemma insert_affiliate_Ok id event wallet code db row db' : Unique db ->
  insert_affiliate id event wallet code db = Ok (row, db') ->
  Unique db' /\ ad_rows db !! (event, wallet) = None /\ ad_events db' = ad_events db /\
  ad_rows db' = <[(event, wallet) := row]> (ad_rows db).
Proof.
  intros [Hk Hc] Hi. unfold insert_affiliate in Hi. oks. injection Hi as <- <-. upd_simpl.
  match goal with H : code_taken _ _ = false |- _ => pose proof (code_taken_false _ _ H) as Hnew end.
  bools. assert (ad_rows db !! (event, wallet) = None) as Hnone by (by apply eq_None_not_Some).
  split; [|done]. split; upd_simpl.
  - intros e w r. rewrite lookup_insert_Some. intros [[[= <- <-] <-]|[_ Hr]]; [done|by apply Hk].
  - intros k1 k2 r1 r2. rewrite !lookup_insert_Some.
    intros [[<- <-]|[? Hr1]] [[<- <-]|[? Hr2]] Heq; [done| | |by eapply Hc].
    + symmetry in Heq. by destruct (Hnew _ _ Hr2).
    + by destruct (Hnew _ _ Hr1).
Qed.

(** What a request was told is in the table. *)
Definition told (db : AffiliateDb) (r : Registration) : Prop :=
  match rg_at r with
  | Registered (Ok resp) => ad_rows db !! (rg_event r, rg_wallet r) = Some (ar_row resp)
  | _ => True
  end.
Definition fresh_answer (a : RegisterAt) : bool :=
  match a with Registered (Ok resp) => negb (ar_already_registered resp) | _ => false end.
Definition first_told (k : Uuid * string) (r : Registration) : Z :=
  if bool_decide ((rg_event r, rg_wallet r) = k) && fresh_answer (rg_at r) then 1 else 0.
Definition present (k : Uuid * string) (db : AffiliateDb) : Z :=
  if bool_decide (is_Some (ad_rows db !! k)) then 1 else 0.

(** A statement reads the table, or inserts the row that it answers with. *)
Lemma register_step_cases up id code event wallet a db a' db' :
  register_step up id code event wallet a db = (a', db') ->
  (db' = db /\ fresh_answer a' = fresh_answer a /\
   forall resp, a' = Registered (Ok resp) -> a = a' \/ ad_rows db !! (event, wallet) = Some (ar_row resp)) \/
  (fresh_answer a = false /\
   exists row, a' = Registered (Ok (mkAffiliateResponse row false)) /\
     insert_affiliate id event wallet code db = Ok (row, db')).
Proof.
  unfold register_step. destruct a as [| |[|n]| |r]; try (intros [= <- <-]; left; naive_solver).
  all: destruct up; cbn [negb]; [|intros [= <- <-]; left; naive_solver].
  - intros [= <- <-]. left. case_bool_decide; naive_solver.
  - intros [= <- <-]. left. case_match; naive_solver.
  - destruct (insert_affiliate _ _ _ _ _) as [[row db1]|err] eqn:Hi.
    + intros [= <- <-]. right. eauto.
    + destruct err, n; intros [= <- <-]; left; naive_solver.
  - intros [= <- <-]. left. case_match; naive_solver.
Qed.

Lemma told_mono db db' r : ad_rows db ⊆ ad_rows db' -> told db r -> told db' r.
Proof. intros Hs. unfold told. repeat case_match; try done. intros Hl. by eapply lookup_weaken. Qed.

Record Consistent (db0 : AffiliateDb) (s : AffiliateDb * list Registration) : Prop := mkConsistent {
  co_unique : Unique s.1;
  co_grows : ad_rows db0 ⊆ ad_rows s.1;
  co_told : Forall (told s.1) s.2;
  co_first : forall k, present k s.1 = present k db0 + sum_by (first_told k) s.2;
}.

Lemma affiliate_step_consistent db0 m s : Consistent db0 s -> Consistent db0 (affiliate_step m s).
Proof.
  intros [Hu Hg Ht Hf]. destruct s as [db rs], m as [event wallet|i up id code]; cbn in *.
  - split; cbn; [done..| |].
    + apply Forall_app. split; [done|]. by repeat constructor.
    + intros k. rewrite sum_by_app, Hf. assert (sum_by (first_told k) [mkRegistration event wallet AtEvent] = 0) as ->;
        [|lia]. unfold sum_by, first_told. cbn. by rewrite andb_false_r.
  - destruct (rs !! i) as [r|] eqn:Hr; [|done]. destruct (register_step _ _ _ _ _ _ _) as [a db'] eqn:Hs.
    assert (forall k, first_told k (r <| rg_at := a |>) =
      if bool_decide ((rg_event r, rg_wallet r) = k) && fresh_answer a then 1 else 0) as Hk by done.
    apply register_step_cases in Hs as [(-> & Hfa & Hresp)|(Hfa & row & -> & Hi)].
    + split; cbn; [done..| |].
      * apply Forall_insert; [done|]. unfold told. upd_simpl. destruct a as [| | | |[resp|]]; try done.
        destruct (Hresp resp eq_refl) as [Ha|]; [|done]. rewrite Forall_lookup in Ht. specialize (Ht _ _ Hr).
        unfold told in Ht. by rewrite Ha in Ht.
      * intros k. rewrite (sum_by_insert _ _ _ _ _ Hr), Hf, Hk, Hfa. unfold first_told. lia.
    + apply insert_affiliate_Ok in Hi as (Hu' & Hnone & _ & Hrows); [|done].
      assert (ad_rows db ⊆ ad_rows db') as Hsub by (rewrite Hrows; by apply insert_subseteq).
      split; cbn; [done|by etrans| |].
      * apply Forall_insert; [eapply Forall_impl; [done|]; intros ?; by apply told_mono|].
        unfold told. upd_simpl. cbn. by rewrite Hrows, lookup_insert_eq.
      * intros k. rewrite (sum_by_insert _ _ _ _ _ Hr), Hk. specialize (Hf k).
        assert (first_told k r = 0) as -> by (unfold first_told; by rewrite Hfa, andb_false_r).
        unfold present at 1. rewrite Hrows. cbn [fresh_answer ar_already_registered negb]. rewrite andb_true_r.
        destruct (decide ((rg_event r, rg_wallet r) = k)) as [<-|Hne].
        -- rewrite lookup_insert_eq, !bool_decide_eq_true_2 by (done || eauto).
           assert (present (rg_event r, rg_wallet r) db = 0) as Hp0 by (unfold present; by rewrite Hnone). lia.
        -- rewrite lookup_insert_ne, (bool_decide_eq_false_2 (_ = k)) by done.
           change (if bool_decide (is_Some (ad_rows db !! k)) then 1 else 0) with (present k db). lia.
Qed.

(** C27: registrations agree: from a table without duplicates, after any interleaving of
    requests with any codes and any failures, the table has no duplicates and has lost
    or changed no row; every request that was answered was told the row of the table, so
    that two answers for one event and wallet have the same code; and at most one of
    them is for a new registration, none if there was one before. *)
Theorem registrations_agree db l : Unique db ->
  let s := affiliate_run l (db, []) in
  Unique s.1 /\ ad_rows db ⊆ ad_rows s.1 /\
  (forall i j r1 r2 resp1 resp2, s.2 !! i = Some r1 -> s.2 !! j = Some r2 ->
     (rg_event r1, rg_wallet r1) = (rg_event r2, rg_wallet r2) ->
     rg_at r1 = Registered (Ok resp1) -> rg_at r2 = Registered (Ok resp2) ->
     ar_row resp1 = ar_row resp2 /\
     (i <> j -> ar_already_registered resp1 = true \/ ar_already_registered resp2 = true)) /\
  (forall k, is_Some (ad_rows db !! k) -> sum_by (first_told k) s.2 = 0).
Proof.
  intros Hu s. assert (Consistent db s) as [Hu' Hg Ht Hf].
  { unfold s, affiliate_run. assert (Consistent db (db, [])) as H0.
    { split; cbn; [done|done|done|]. intros k. unfold sum_by. cbn. lia. }
    revert H0. generalize (db, @nil Registration). induction l as [|m l IH]; intros s0 H0; [done|].
    by apply IH, affiliate_step_consistent. }
  assert (forall k, 0 <= present k db /\ present k s.1 <= 1) as Hp by (intros k; unfold present; repeat case_match; lia).
  assert (forall k r, 0 <= first_told k r) as Hn by (intros; unfold first_told; case_match; lia).
  split_and!; [done..| |].
  - intros i j r1 r2 resp1 resp2 H1 H2 Hk Ha1 Ha2. rewrite Forall_lookup in Ht.
    pose proof (Ht _ _ H1) as T1. pose proof (Ht _ _ H2) as T2. unfold told in T1, T2. rewrite Ha1 in T1. rewrite Ha2 in T2.
    rewrite Hk in T1. split; [congruence|]. intros Hij.
    destruct (ar_already_registered resp1) eqn:E1; [by left|]. destruct (ar_already_registered resp2) eqn:E2; [by right|].
    exfalso. set (k := (rg_event r1, rg_wallet r1)).
    assert (first_told k r1 = 1) as F1 by (unfold first_told; by rewrite Ha1, bool_decide_eq_true_2; cbn; rewrite ?E1).
    assert (first_told k r2 = 1) as F2 by (unfold first_told; rewrite Ha2, bool_decide_eq_true_2; cbn; by rewrite ?E2).
    pose proof (sum_by_pair (first_told k) s.2 i j r1 r2 ltac:(intros; apply Hn) H1 H2 Hij).
    specialize (Hf k). specialize (Hp k). lia.
  - intros k Hk. specialize (Hf k). specialize (Hp k). unfold present at 2 in Hf. rewrite bool_decide_eq_true_2 in Hf by done.
    assert (0 <= sum_by (first_told k) s.2) by (apply sum_by_nonneg; intros; apply Hn). lia.
Qed.

(** ** One request *)
Definition statements (a : RegisterAt) : nat :=
  match a with
  | AtEvent => 8 | AtExisting => 7 | AtInsert n => n + 1 | AtReread => 1 | Registered _ => 0
  end.
Lemma register_step_statements id code event wallet a db : statements a <> 0%nat ->
  (statements (register_step true id code event wallet a db).1 < statements a)%nat.
Proof.
  intros Ha. unfold register_step. destruct a as [| |[|n]| |r]; cbn in *; try done.
  - case_bool_decide; cbn; lia.
  - case_match; cbn; unfold MAX_CODE_ATTEMPTS; lia.
  - lia.
  - destruct (insert_affiliate _ _ _ _ _) as [[]|[]], n; cbn; lia.
  - case_match; cbn; lia.
Qed.

(** A request that runs alone is answered. *)
Lemma register_answers id codes auth event db : exists r, (register_affiliate id codes auth event db).1 = Registered r.
Proof.
  unfold register_affiliate. destruct auth as [wallet|e]; [|by eexists]. destruct event as [event|]; [|by eexists].
  assert (forall n a db, (statements a <= n)%nat -> exists r, (register_loop n id codes event wallet a db).1 = Registered r) as Hn.
  { induction n as [|n IH]; intros a d Ha; cbn.
    - destruct a as [| |m| |r]; cbn in Ha; try lia. by eexists.
    - pose proof (register_step_statements id (codes n) event wallet a d) as Hs.
      destruct (register_step true id (codes n) event wallet a d) as [a' d'] eqn:Hst. cbn in Hs.
      apply IH. destruct (decide (statements a = 0%nat)) as [H0|H0]; [|specialize (Hs H0); lia].
      destruct a as [| |m| |r]; cbn in H0; try lia. cbn in Hst. injection Hst as <- <-. cbn. lia. }
  apply Hn. cbn. lia.
Qed.

(** ** Witnesses *)
Module AffiliateSample.
Definition db0 : AffiliateDb := mkAffiliateDb {[7]} ∅ [].
Lemma db0_unique : Unique db0.
Proof. by split. Qed.

(** Two requests of one wallet: both read before either inserts. *)
Definition race : list AffiliateMove :=
  [Arrives 7 "GA"; Arrives 7 "GA"; Moves 0 true 1 ""; Moves 0 true 1 ""; Moves 1 true 2 ""; Moves 1 true 2 "";
   Moves 0 true 1 "AAAAAAAAAA"; Moves 1 true 2 "BBBBBBBBBB"; Moves 1 true 2 ""].
Lemma registrations_agree_witness :
  (rg_at <$> (affiliate_run race (db0, [])).2) =
    [Registered (Ok (mkAffiliateResponse (mkAffiliate 1 7 "GA" "AAAAAAAAAA") false));
     Registered (Ok (mkAffiliateResponse (mkAffiliate 1 7 "GA" "AAAAAAAAAA") true))] /\
  Unique (affiliate_run race (db0, [])).1.
Proof. split; [vm_compute; reflexivity|]. exact (proj1 (registrations_agree db0 race db0_unique)). Defined.

(** Three sales are a conversion rate of 3 per cent, whatever the number of referrals. *)
Definition sale : Transaction := mkTransaction (Some 7) 1000 "completed" (Some "AAAAAAAAAA"%string).
Example conversion_is_a_count :
  let db := (affiliate_run race (db0, [])).1 <| ad_transactions := [sale; sale; sale] |> in
  get_my_affiliate_metrics (Ok "GA"%string) (Some 7) db = Ok (mkMetrics "AAAAAAAAAA" 3 3000 1500000 3).
Proof. vm_compute. reflexivity. Qed.
End AffiliateSample.
