(* ===== verification/RateLimit.v ===== *)
(** * Server: rate limiting by address

    [utils/rate_limit.rs] and the checks of a request in [middleware/admin_auth.rs],
    [middleware/monitoring_auth.rs], [middleware/csrf.rs] and
    [middleware/content_type.rs].  Times are in nanoseconds.  A bucket is exact where the
    code has a double: tokens are counted in units of which a token has as many as the
    window has nanoseconds, so that a nanosecond adds [max_requests] units.  The reading
    of an address and of cookies is an interface ([Addresses]). *)

From stdpp Require Import base tactics numbers list strings pretty gmap sorting.
From Stdlib Require Import Ascii.
From S2P Require Import Prelude.
From S2P Require Import ServerPrelude.
From S2P Require Import Text.
Open Scope Z_scope.

Abbreviation Ip := string (only parsing).
Class Addresses := { parse_ip : string -> option Ip }.

(** ** The bucket *)
Record IpBucket := mkIpBucket { ib_tokens : Z; ib_last_refill : Z }.
Record AcquireOutcome := mkOutcome { ao_allowed : bool; ao_remaining : Z; ao_retry_after : Z }.
Definition SECOND : Z := 1000000000.

Section Limiter.
Context `{Addresses}.
Variables (max_requests window : Z).

(** The units of a token: the window, at least a millisecond. *)
Definition token_unit : Z := Z.max window 1000000.
Definition capacity : Z := max_requests * token_unit.

Definition new_ip_bucket (now : Z) : IpBucket := mkIpBucket capacity now.
Definition try_acquire_ip (now : Z) (b : IpBucket) : AcquireOutcome * IpBucket :=
  let elapsed := Z.max 0 (now - ib_last_refill b) in
  let tokens := Z.min (ib_tokens b + elapsed * max_requests) capacity in
  if token_unit <=? tokens then
    let tokens := tokens - token_unit in
    let secs_until_full := div_ceil (capacity - tokens) (max_requests * SECOND) in
    (mkOutcome true (tokens / token_unit) (Z.max 1 secs_until_full), mkIpBucket tokens now)
  else
    let retry_after := div_ceil (token_unit - tokens) (max_requests * SECOND) in
    (mkOutcome false 0 (Z.max 1 retry_after), mkIpBucket tokens now).

(** ** Addresses *)
Record Request := mkRequest_ {
  re_forwarded_for : option string; re_real_ip : option string; re_peer : option Ip;
}.
(** [split(',').next()]. *)
Fixpoint before_comma (l : chars) : chars :=
  match l with
  | [] => []
  | c :: l => if Ascii.eqb c ","%char then [] else c :: before_comma l
  end.
Definition first_hop (s : string) : string := trim (text_of (before_comma (chars_of s))).
Definition extract_ip (req : Request) : Ip :=
  match re_forwarded_for req ≫= (fun s => parse_ip (first_hop s)) with
  | Some ip => ip
  | None =>
      match re_real_ip req ≫= (fun s => parse_ip (trim s)) with
      | Some ip => ip
      | None => default "127.0.0.1"%string (re_peer req)
      end
  end.

(** ** Headers *)
Definition apply_rate_limit_headers (unix_now limit remaining reset_epoch : Z) (retry_after : option Z)
    (headers : gmap string string) : gmap string string :=
  let reset_delta := default (Z.max 1 (Z.max 0 (reset_epoch - unix_now))) retry_after in
  let headers := <["ratelimit-limit"%string := pretty limit]> headers in
  let headers := <["ratelimit-remaining"%string := pretty remaining]> headers in
  let headers := <["ratelimit-reset"%string := pretty reset_delta]> headers in
  let headers := <["x-ratelimit-limit"%string := pretty limit]> headers in
  let headers := <["x-ratelimit-remaining"%string := pretty remaining]> headers in
  let headers := <["x-ratelimit-reset"%string := pretty reset_epoch]> headers in
  match retry_after with
  | Some secs => <["retry-after"%string := pretty (Z.max secs 1)]> headers
  | None => headers
  end.

(** ** The service: [inner] is what it wraps, with its status and headers *)
Abbreviation Store := (gmap string IpBucket).
Definition acquire (now : Z) (ip : Ip) (store : Store) : AcquireOutcome * Store :=
  if max_requests =? 0 then (mkOutcome false 0 (Z.max 1 (window / SECOND)), store)
  else
    let '(o, b) := try_acquire_ip now (default (new_ip_bucket now) (store !! ip)) in
    (o, <[ip := b]> store).

Definition rate_limit_call (unix_now now : Z) (req : Request)
    (inner : Request -> Z * gmap string string) (store : Store) : (Z * gmap string string) * Store :=
  let '(outcome, store) := acquire now (extract_ip req) store in
  let retry_after := Z.max 1 (ao_retry_after outcome) in
  let reset_epoch := Z.min (unix_now + retry_after) (int_max U64) in
  if negb (ao_allowed outcome) then
    ((429, apply_rate_limit_headers unix_now max_requests (ao_remaining outcome) reset_epoch (Some retry_after) ∅),
     store)
  else
    let '(status, headers) := inner req in
    ((status, apply_rate_limit_headers unix_now max_requests (ao_remaining outcome) reset_epoch None headers), store).

(** Requests in the order of their arrival: the time and the address of each. *)
Fixpoint serve (l : list (Z * Ip)) (store : Store) : list (Ip * bool) :=
  match l with
  | [] => []
  | (now, ip) :: l =>
      let '(o, store) := acquire now ip store in (ip, ao_allowed o) :: serve l store
  end.
Definition admitted (ip : Ip) (l : list (Ip * bool)) : Z :=
  len (filter (fun x => x = (ip, true)) l).
End Limiter.

(** [rate_limit_from_env]. *)
Definition rate_limit_from_env (parse : string -> option Z) (env : string -> option string) : Z * Z :=
  (default 100 (env "RATE_LIMIT_MAX"%string ≫= parse),
   default 60 (env "RATE_LIMIT_WINDOW"%string ≫= parse) * SECOND).

(** ** Other checks of a request *)
Definition strip_bearer (h : string) : option string :=
  if starts_with "Bearer " h then Some (String.substring 7 (String.length h - 7) h) else None.

(** [require_admin_token] and [require_monitoring_token]: whether the request goes on. *)
Definition require_token (token authorization : option string) : bool :=
  match token with
  | None => false
  | Some expected => bool_decide (authorization ≫= strip_bearer = Some expected)
  end.

(** [check_csrf]: the cookie and the header have to agree. *)
Definition contains (p s : string) : bool :=
  existsb (fun i => starts_with p (String.substring i (String.length s - i) s)) (seq 0 (String.length s + 1)).
Definition check_csrf (method path : string) (cookie header : option string) : Result AppError unit :=
  if bool_decide (method ∈ ["GET"; "HEAD"; "OPTIONS"]%string) then Ok tt
  else if contains "/auth/nonce" path || contains "/auth/verify" path then Ok tt
  else
    match cookie, header with
    | Some c, Some h => if bool_decide (c = h) && negb (is_empty c) then Ok tt else Err AuthError
    | _, _ => Err AuthError
    end.

(** [require_json_content_type], over [str::parse] for [u64]. *)
Definition require_json_content_type (parse_u64 : string -> option Z) (method : string)
    (content_length transfer_encoding content_type : option string) : bool :=
  if bool_decide (method ∈ ["POST"; "PUT"]%string) then
    let has_body := match content_length ≫= parse_u64 with
                    | Some n => 0 <? n
                    | None => bool_decide (is_Some transfer_encoding)
                    end in
    if has_body then from_option (starts_with "application/json") false content_type else true
  else true.

(** ** The bound *)
Section Bound.
Context `{Addresses}.
Variables (max_requests window : Z).
Hypothesis max_pos : 0 < max_requests.
Abbreviation unit_ := (token_unit window).
Abbreviation full := (capacity max_requests window).

Lemma unit_pos : 0 < unit_.
Proof. unfold token_unit. lia. Qed.
Lemma full_ge : unit_ <= full.
Proof. pose proof unit_pos. unfold capacity. nia. Qed.

Definition bucket_ok (b : IpBucket) : Prop := 0 <= ib_tokens b <= full.
Lemma acquire_bucket now b o b' : bucket_ok b -> try_acquire_ip max_requests window now b = (o, b') ->
  bucket_ok b' /\ ib_last_refill b' = now /\
  ib_tokens b' + (if ao_allowed o then unit_ else 0) <= ib_tokens b + Z.max 0 (now - ib_last_refill b) * max_requests.
Proof.
  pose proof unit_pos. pose proof full_ge. intros [Hb1 Hb2] Ha. unfold try_acquire_ip in Ha.
  assert (0 <= Z.max 0 (now - ib_last_refill b) * max_requests) by nia.
  destruct (unit_ <=? _) eqn:Ht in Ha; bools; injection Ha as <- <-; unfold bucket_ok; cbn; lia.
Qed.

(** The units that an address can still spend by the time [t1]. *)
Definition budget (ip : Ip) (t0 t1 : Z) (store : gmap string IpBucket) : Z :=
  match store !! ip with
  | Some b => ib_tokens b + (t1 - ib_last_refill b) * max_requests
  | None => full + (t1 - t0) * max_requests
  end.
Definition store_ok (t : Z) (store : gmap string IpBucket) : Prop :=
  forall ip b, store !! ip = Some b -> bucket_ok b /\ ib_last_refill b <= t.

Lemma admitted_cons ip x l :
  admitted ip (x :: l) = (if bool_decide (x = (ip, true)) then 1 else 0) + admitted ip l.
Proof. unfold admitted. rewrite filter_cons. case_decide; case_bool_decide; try done; cbn [length]; lia. Qed.

Lemma serve_bound ip l : forall t0 t1 store,
  store_ok t0 store -> Forall (fun x => t0 <= x.1 <= t1) l -> StronglySorted (fun x y => x.1 <= y.1) l -> t0 <= t1 ->
  admitted ip (serve max_requests window l store) * unit_ <= budget ip t0 t1 store.
Proof.
  pose proof unit_pos as Hu. pose proof full_ge as Hf.
  induction l as [|[now ip'] l IH]; intros t0 t1 store Hs Ht Hsort H01; cbn [serve].
  { unfold admitted. cbn. unfold budget. destruct (store !! ip) as [b|] eqn:Hb; [|unfold bucket_ok in *; nia].
    destruct (Hs _ _ Hb) as [[? ?] ?]. nia. }
  apply Forall_cons in Ht as [[Hn0 Hn1] Ht]. cbn in Hn0, Hn1. apply StronglySorted_inv in Hsort as [Hsort Hle].
  unfold acquire. rewrite (proj2 (Z.eqb_neq _ _)) by lia.
  destruct (try_acquire_ip _ _ _ _) as [o b'] eqn:Ha. rewrite admitted_cons.
  set (b := default (new_ip_bucket max_requests window now) (store !! ip')) in *.
  assert (bucket_ok b /\ ib_last_refill b <= now) as [Hb Hbl].
  { unfold b. destruct (store !! ip') as [b0|] eqn:Hb0; cbn; [destruct (Hs _ _ Hb0); split; [done|lia]|].
    unfold bucket_ok. cbn. lia. }
  destruct (acquire_bucket _ _ _ _ Hb Ha) as (Hb' & Hl' & Hspend). rewrite Z.max_r in Hspend by lia.
  specialize (IH now t1 (<[ip' := b']> store)).
  assert (admitted ip (serve max_requests window l (<[ip' := b']> store)) * unit_
    <= budget ip now t1 (<[ip' := b']> store)) as IH'.
  { apply IH; [| |done|done].
    - intros ip0 b0. rewrite lookup_insert_Some. intros [[<- <-]|[_ H0]]; [split; [done|lia]|].
      destruct (Hs _ _ H0). split; [done|lia].
    - rewrite Forall_forall in Ht, Hle |- *. intros x Hx. specialize (Ht x Hx). specialize (Hle x Hx). cbn in Hle. lia. }
  clear IH. unfold budget in *. destruct (decide (ip' = ip)) as [->|Hne].
  - rewrite lookup_insert_eq in IH'. rewrite Hl' in IH'. unfold b in Hspend.
    destruct (ao_allowed o); [rewrite bool_decide_eq_true_2 by done|rewrite bool_decide_eq_false_2 by congruence];
      destruct (store !! ip) as [b0|] eqn:Hb0; cbn [default new_ip_bucket ib_tokens ib_last_refill from_option id] in Hspend; nia.
  - rewrite lookup_insert_ne in IH' by done. rewrite bool_decide_eq_false_2 by congruence.
    destruct (store !! ip); nia.
Qed.
End Bound.


(** The [Retry-After] of a refusal is enough: a request of the same address that comes
    that many seconds later, and no other of it in between, passes. *)
Theorem retry_after_honoured `{Addresses} max_requests window now ip store o store' others later :
  0 < max_requests ->
  acquire max_requests window now ip store = (o, store') -> ao_allowed o = false ->
  others !! ip = store' !! ip -> now + ao_retry_after o * SECOND <= later ->
  ao_allowed (acquire max_requests window later ip others).1 = true.
Proof.
  intros Hm Ha Hf Ho Hl. pose proof (unit_pos window) as Hu. pose proof (full_ge max_requests window Hm) as Hfull.
  unfold acquire in *. rewrite (proj2 (Z.eqb_neq _ _)) in * by lia.
  destruct (try_acquire_ip _ _ now _) as [o1 b] eqn:Hb in Ha. injection Ha as <- <-.
  rewrite lookup_insert_eq in Ho. rewrite Ho. cbn [default from_option id].
  unfold try_acquire_ip in Hb. destruct (token_unit window <=? _) eqn:Ht in Hb; injection Hb as <- <-; [done|]. bools.
  unfold try_acquire_ip. cbn [ib_tokens ib_last_refill ao_retry_after] in *.
  set (t := Z.min _ (capacity max_requests window)) in *.
  assert (token_unit window - t <= div_ceil (token_unit window - t) (max_requests * SECOND) * (max_requests * SECOND)) as Hd.
  { unfold div_ceil, SECOND in *. pose proof (Z.div_mod (token_unit window - t + max_requests * 1000000000 - 1) (max_requests * 1000000000)).
    pose proof (Z.mod_pos_bound (token_unit window - t + max_requests * 1000000000 - 1) (max_requests * 1000000000)). nia. }
  unfold SECOND in *.
  destruct (token_unit window <=? _) eqn:Hx; cbn; [done|]. bools. exfalso. revert Hx. 
  set (r := Z.max 1 _) in *. assert (div_ceil (token_unit window - t) (max_requests * 1000000000) <= r) by (unfold r; lia).
  assert (r * 1000000000 <= Z.max 0 (later - now)) by lia. nia.
Qed.

(** Requests that each claim an address of their own in [X-Forwarded-For] all pass. *)
Theorem forwarded_for_evades `{Addresses} max_requests window l :
  0 < max_requests -> NoDup (l.*2) ->
  serve max_requests window l ∅ = (fun x => (x.2, true)) <$> l.
Proof.
  intros Hm. assert (forall store, (forall x, x ∈ l -> store !! x.2 = None) -> NoDup (l.*2) ->
    serve max_requests window l store = (fun x => (x.2, true)) <$> l) as Hgen; [|intros; apply Hgen; [|done]; done].
  pose proof (full_ge max_requests window Hm) as Hf.
  induction l as [|[now ip] l IH]; intros store Hs Hnd; [done|]. rewrite fmap_cons in Hnd.
  apply NoDup_cons in Hnd as [Hni Hnd]. cbn [serve fmap list_fmap snd]. unfold acquire.
  rewrite (proj2 (Z.eqb_neq _ _)) by lia. pose proof (Hs (now, ip) ltac:(set_solver)) as Hn. cbn in Hn. rewrite Hn.
  cbn [default from_option id]. unfold try_acquire_ip, new_ip_bucket. cbn [ib_tokens ib_last_refill].
  rewrite Z.sub_diag, Z.min_r by lia. rewrite (proj2 (Z.leb_le _ _)) by lia. cbn. f_equal. apply IH; [|done].
  intros x Hx. rewrite lookup_insert_ne; [apply Hs; set_solver|]. intros ->. apply Hni. set_solver.
Qed.
Lemma extract_forwarded `{Addresses} s ip real peer : parse_ip (first_hop s) = Some ip ->
  extract_ip (mkRequest_ (Some s) real peer) = ip.
Proof. intros Hp. unfold extract_ip. cbn. by rewrite Hp. Qed.

(** The gates: an administrator's request carries the configured token; a request that
    changes something carries the token of its cookie; a body is declared as JSON. *)
Lemma require_token_ok token authorization : require_token token authorization = true ->
  exists t, token = Some t /\ authorization ≫= strip_bearer = Some t.
Proof. unfold require_token. destruct token as [t|]; [|done]. intros ?. bools. eauto. Qed.
Lemma check_csrf_ok method path cookie header :
  method ∉ ["GET"; "HEAD"; "OPTIONS"]%string -> contains "/auth/nonce" path = false ->
  contains "/auth/verify" path = false -> check_csrf method path cookie header = Ok tt ->
  exists c, cookie = Some c /\ header = Some c /\ c <> ""%string.
Proof.
  intros Hm H1 H2. unfold check_csrf. rewrite (bool_decide_eq_false_2 _ Hm), H1, H2. cbn.
  destruct cookie as [c|], header as [h|]; try done. destruct (_ && _) eqn:He; [|done]. intros _. bools.
  unfold is_empty in *. bools. naive_solver.
Qed.

(** ** Witnesses *)
Module RateSample.
#[local] Instance addresses : Addresses := {| parse_ip s := Some s |}.
(** Two requests per two seconds: four pass within a window. *)
Definition burst : list (Z * Ip) := [(0, "a"); (0, "a"); (0, "a"); (SECOND, "a"); (2 * SECOND, "a"); (2 * SECOND, "b")]%string.
Lemma burst_sorted : StronglySorted (fun x y => x.1 <= y.1) burst.
Proof. by repeat constructor. Qed.

Definition spent : gmap string IpBucket := {["a"%string := mkIpBucket 0 0]}.
Lemma retry_after_honoured_witness :
  ao_retry_after (acquire 2 (2 * SECOND) 0 "a" spent).1 = 1 /\
  ao_allowed (acquire 2 (2 * SECOND) SECOND "a" (acquire 2 (2 * SECOND) 0 "a" spent).2).1 = true.
Proof.
  split; [vm_compute; reflexivity|].
  apply (retry_after_honoured 2 (2 * SECOND) 0 "a" spent (mkOutcome false 0 1)
           (acquire 2 (2 * SECOND) 0 "a" spent).2); vm_compute; done.
Defined.
Lemma forwarded_for_evades_witness :
  serve 1 SECOND [(0, "a"); (0, "b"); (0, "c")]%string ∅ = [("a", true); ("b", true); ("c", true)]%string.
Proof. apply (forwarded_for_evades 1 SECOND [(0, "a"); (0, "b"); (0, "c")]%string); [lia|]. apply (bool_decide_unpack _). by vm_compute. Defined.
End RateSample.
