(* ===== verification/TicketPdf.v ===== *)
(** * Server: tickets as PDF documents

    [utils/pdf.rs] and [handlers/tickets.rs].  A document is its bytes.  The date of an
    event as a text is an argument; a string of the document is read back by
    [read_literal], which follows the PDF reference.  A slice of a text that would cut a
    character is a panic. *)

From stdpp Require Import base tactics numbers list strings pretty gmap.
From Stdlib Require Import Ascii.
From S2P Require Import Prelude.
From S2P Require Import ServerPrelude.
From S2P Require Import Text.
From S2P Require Import EventListing.
Open Scope Z_scope.

Definition LF : ascii := ascii_of_nat 10.
Definition CR : ascii := ascii_of_nat 13.
Definition QUOTE : ascii := ascii_of_nat 34.
Definition BACKSLASH : ascii := ascii_of_nat 92.
Definition line (s : string) : chars := chars_of s ++ [LF].

(** ** Content *)
(** [str::replace] of one character by a text. *)
Definition replace_char (c : ascii) (by_ : chars) (l : chars) : chars :=
  l ≫= (fun x => if Ascii.eqb x c then by_ else [x]).
Definition escape_pdf_text (l : chars) : chars :=
  replace_char ")" [BACKSLASH; ")"%char]
    (replace_char "(" [BACKSLASH; "("%char] (replace_char BACKSLASH [BACKSLASH; BACKSLASH] l)).

Definition push_line (y size : Z) (text : chars) : chars :=
  chars_of ("BT /F1 " +:+ pretty size +:+ " Tf 50 " +:+ pretty y +:+ " Td (") ++ escape_pdf_text text
  ++ chars_of ") Tj ET".

Fixpoint join_lines (l : list chars) : chars :=
  match l with
  | [] => []
  | [x] => x
  | x :: l => x ++ [LF] ++ join_lines l
  end.
Definition build_content_stream (title date venue tier masked qr : chars) : chars :=
  join_lines
    [push_line 750 18 (chars_of "Agora - Ticket");
     push_line 720 12 (chars_of "Event: " ++ title);
     push_line 700 11 (chars_of "Date: " ++ date);
     push_line 680 11 (chars_of "Venue: " ++ venue);
     push_line 660 11 (chars_of "Tier: " ++ tier);
     push_line 640 10 (chars_of "Attendee: " ++ masked);
     push_line 620 9 (chars_of "QR: " ++ qr);
     push_line 600 8 (chars_of "Branded with Agora colors #6C5CE7")].

(** ** Documents *)
Definition pad10 (s : string) : chars := repeat "0"%char (10 - String.length s) ++ chars_of s.
Definition xref_entry (off : nat) : chars := pad10 (pretty off) ++ chars_of " 00000 n " ++ [LF].

Definition pdf_header : chars := line "%PDF-1.4".
Definition pdf_catalog : chars := line "1 0 obj" ++ line "<< /Type /Catalog /Pages 2 0 R >>" ++ line "endobj".
Definition pdf_pages : chars :=
  line "2 0 obj" ++ line "<< /Type /Pages /Kids [3 0 R] /Count 1 >>" ++ line "endobj".
Definition pdf_page : chars :=
  line "3 0 obj"
  ++ line "<< /Type /Page /Parent 2 0 R /MediaBox [0 0 595 842] /Contents 4 0 R /Resources << /Font << /F1 << /Type /Font /Subtype /Type1 /BaseFont /Helvetica >> >> >> >>"
  ++ line "endobj".
Definition pdf_stream (content : chars) : chars :=
  line "4 0 obj" ++ line ("<< /Length " +:+ pretty (length content) +:+ " >>") ++ line "stream" ++ content
  ++ [LF] ++ line "endstream" ++ line "endobj".

Definition offsets (content : chars) : list nat :=
  let o1 := length pdf_header in
  let o2 := (o1 + length pdf_catalog)%nat in
  let o3 := (o2 + length pdf_pages)%nat in
  [o1; o2; o3; (o3 + length pdf_page)%nat].
Definition body_of_pdf (content : chars) : chars :=
  pdf_header ++ pdf_catalog ++ pdf_pages ++ pdf_page ++ pdf_stream content.
Definition xref_table (content : chars) : chars :=
  line "xref" ++ line "0 5" ++ line "0000000000 65535 f " ++ (offsets content ≫= xref_entry).
Definition trailer (xref_offset : nat) : chars :=
  line "trailer" ++ line "<< /Size 5 /Root 1 0 R >>" ++ line "startxref" ++ line (pretty xref_offset)
  ++ chars_of "%%EOF".
Definition build_pdf (content : chars) : chars :=
  let xref_offset := length (body_of_pdf content) in
  body_of_pdf content ++ xref_table content ++ trailer xref_offset.

Definition generate_ticket_pdf (title date venue tier masked qr : chars) : chars :=
  build_pdf (build_content_stream title date venue tier masked qr).

(** ** The masked wallet: [None] is a panic *)
Definition is_boundary (l : chars) (i : nat) : bool :=
  match l !! i with
  | Some c => negb ((128 <=? code c) && (code c <? 192))
  | None => (i =? length l)%nat
  end.
Definition mask_wallet (address : chars) : option chars :=
  if (length address <=? 8)%nat then Some address
  else if is_boundary address 4 && is_boundary address (length address - 4)
  then Some (take 4 address ++ chars_of "..." ++ drop (length address - 4) address)
  else None.

(** ** The handler *)
Record TicketPdfRow := mkPdfRow {
  pr_owner_wallet : option string; pr_buyer_wallet : option string; pr_qr_code : option string;
  pr_tier_name : option string; pr_event_title : option string; pr_venue : option string;
  pr_event_start : option Z;
}.
Inductive PdfReply := PdfOk (bytes : chars) | PdfErr (e : AppError) | PdfPanic.
Definition PDF_CACHE_TTL : Z := 3600.

(** The rows by ticket, and the cache with the time at which an entry expires. *)
Record PdfState := mkPdfState { ps_rows : gmap Uuid TicketPdfRow; ps_cache : gmap Uuid (chars * Z) }.
#[export] Instance PdfState_eta : Eta PdfState := fun s => mkPdfState (ps_rows s) (ps_cache s).
Definition cached_pdf (now : Z) (ticket_id : Uuid) (s : PdfState) : option chars :=
  match ps_cache s !! ticket_id with
  | Some (bytes, expires) => if (now <? expires) && negb (bool_decide (bytes = [])) then Some bytes else None
  | None => None
  end.
Definition owns (requester : string) (row : TicketPdfRow) : bool :=
  bool_decide (pr_owner_wallet row = Some requester) || bool_decide (pr_buyer_wallet row = Some requester).
Definition masked_of (row : TicketPdfRow) : option chars :=
  match pr_owner_wallet row, pr_buyer_wallet row with
  | Some w, _ | None, Some w => mask_wallet (chars_of w)
  | None, None => Some (chars_of "N/A")
  end.
Definition text_or (d : string) (o : option string) : chars := chars_of (default d o).
Definition pdf_of (format_date : Z -> string) (row : TicketPdfRow) (masked : chars) : chars :=
  generate_ticket_pdf (text_or "Event" (pr_event_title row))
    (text_or "Date TBA" (format_date <$> pr_event_start row)) (text_or "Venue TBA" (pr_venue row))
    (text_or "General" (pr_tier_name row)) masked (text_or "no-qr" (pr_qr_code row)).

Definition get_ticket_pdf (format_date : Z -> string) (now : Z) (auth : Result AppError string) (ticket_id : Uuid)
    (s : PdfState) : PdfReply * PdfState :=
  match auth with
  | Err e => (PdfErr e, s)
  | Ok requester =>
      match cached_pdf now ticket_id s with
      | Some bytes => (PdfOk bytes, s)
      | None =>
          match ps_rows s !! ticket_id with
          | None => (PdfErr NotFound, s)
          | Some row =>
              if negb (owns requester row) then (PdfErr Forbidden, s)
              else match masked_of row with
                   | None => (PdfPanic, s)
                   | Some masked =>
                       let bytes := pdf_of format_date row masked in
                       (PdfOk bytes, s <| ps_cache := <[ticket_id := (bytes, now + PDF_CACHE_TTL)]> (ps_cache s) |>)
                   end
          end
      end
  end.

(** ** Reading a string of a document (PDF reference, 3.2.3) *)
Definition is_digit (c : ascii) : bool := (48 <=? code c) && (code c <=? 57).
Definition control_of (c : ascii) : option ascii :=
  if Ascii.eqb c "n" then Some LF
  else if Ascii.eqb c "r" then Some CR
  else if Ascii.eqb c "t" then Some (ascii_of_nat 9)
  else if Ascii.eqb c "b" then Some (ascii_of_nat 8)
  else if Ascii.eqb c "f" then Some (ascii_of_nat 12)
  else None.

(** The string after its opening parenthesis, at a depth of nested parentheses: its text
    and what follows it.  An end of line is one line feed; octal escapes are not read,
    since the writer makes none. *)
Fixpoint read_literal (depth : nat) (l : chars) : option (chars * chars) :=
  match l with
  | [] => None
  | c :: l1 =>
      if Ascii.eqb c ")" then
        match depth with
        | O => Some ([], l1)
        | S d => '(t, rest) ← read_literal d l1; Some (c :: t, rest)
        end
      else if Ascii.eqb c "(" then '(t, rest) ← read_literal (S depth) l1; Some (c :: t, rest)
      else if Ascii.eqb c CR then
        match l1 with
        | x :: l2 => if Ascii.eqb x LF then '(t, rest) ← read_literal depth l2; Some (LF :: t, rest)
                     else '(t, rest) ← read_literal depth l1; Some (LF :: t, rest)
        | [] => None
        end
      else if Ascii.eqb c BACKSLASH then
        match l1 with
        | [] => None
        | x :: l2 =>
            match control_of x with
            | Some y => '(t, rest) ← read_literal depth l2; Some (y :: t, rest)
            | None =>
                if Ascii.eqb x LF then read_literal depth l2
                else if is_digit x then None
                else '(t, rest) ← read_literal depth l2; Some (x :: t, rest)
            end
        end
      else '(t, rest) ← read_literal depth l1; Some (c :: t, rest)
  end.

(** ** Strings *)
Definition escape_one (c : ascii) : chars :=
  if Ascii.eqb c BACKSLASH || Ascii.eqb c "(" || Ascii.eqb c ")" then [BACKSLASH; c] else [c].
Lemma escape_flat l : escape_pdf_text l = l ≫= escape_one.
Proof.
  induction l as [|c l IH]; [done|]. unfold escape_pdf_text, replace_char in *. cbn.
  rewrite !bind_app, IH. f_equal. unfold escape_one.
  destruct (Ascii.eqb c BACKSLASH) eqn:H1; [apply Ascii.eqb_eq in H1 as ->; done|].
  cbn. destruct (Ascii.eqb c "(") eqn:H2; [apply Ascii.eqb_eq in H2 as ->; done|].
  cbn. destruct (Ascii.eqb c ")") eqn:H3; [apply Ascii.eqb_eq in H3 as ->; done|]. cbn. done.
Qed.

Lemma read_escaped l rest : Forall (fun c => c <> CR) l ->
  read_literal 0 (escape_pdf_text l ++ ")"%char :: rest) = Some (l, rest).
Proof.
  rewrite escape_flat. induction 1 as [|c l Hc _ IH]; [done|]. cbn [mbind list_bind]. rewrite <- app_assoc.
  fold (mbind (M := list) escape_one l). unfold escape_one at 1.
  destruct (Ascii.eqb c BACKSLASH) eqn:H1; [apply Ascii.eqb_eq in H1 as ->; cbn; by rewrite IH|].
  destruct (Ascii.eqb c "(") eqn:H2; [apply Ascii.eqb_eq in H2 as ->; cbn; by rewrite IH|].
  destruct (Ascii.eqb c ")") eqn:H3; [apply Ascii.eqb_eq in H3 as ->; cbn; by rewrite IH|].
  cbn [orb app read_literal]. rewrite H3, H2, H1.
  destruct (Ascii.eqb c CR) eqn:H4; [apply Ascii.eqb_eq in H4; done|]. by rewrite IH.
Qed.

(** ** The table of references *)
Lemma drop_more (l k : chars) n : drop (length l + n) (l ++ k) = drop n k.
Proof. by rewrite <- drop_drop, drop_app_length. Qed.
Lemma offset_object content k off : offsets content !! k = Some off ->
  exists tail, drop off (build_pdf content) = chars_of (pretty (k + 1)%nat +:+ " 0 obj") ++ LF :: tail.
Proof.
  intros Hk. unfold build_pdf, body_of_pdf. rewrite <- !app_assoc. set (T := xref_table content ++ _). clearbody T.
  cbn [offsets] in Hk. set (o1 := length pdf_header) in Hk.
  destruct k as [|[|[|[|k]]]]; cbn [lookup list_lookup] in Hk; [..|done]; injection Hk as <-; unfold o1;
    rewrite <- ?Nat.add_assoc, ?drop_more, ?drop_app_length; rewrite ?(drop_more _ _ (length _ + _)), ?drop_more, ?drop_app_length;
    unfold pdf_catalog, pdf_pages, pdf_page, pdf_stream, line; rewrite <- !app_assoc; eexists; reflexivity.
Qed.


(** ** Access *)

(** The first document of a ticket goes to its owner or its buyer. *)
Theorem pdf_first_owner format_date now requester ticket_id s bytes s' :
  cached_pdf now ticket_id s = None ->
  get_ticket_pdf format_date now (Ok requester) ticket_id s = (PdfOk bytes, s') ->
  exists row masked, ps_rows s !! ticket_id = Some row /\ owns requester row = true /\
    masked_of row = Some masked /\ bytes = pdf_of format_date row masked.
Proof.
  intros Hc. unfold get_ticket_pdf. rewrite Hc. destruct (ps_rows s !! ticket_id) as [row|]; [|done].
  destruct (owns requester row) eqn:Ho; [|done]. cbn [negb]. destruct (masked_of row) as [m|] eqn:Hm; [|done].
  remember (pdf_of format_date row m) as doc eqn:Hdoc. clear -Hdoc Ho Hm. intros [= <- _]. exists row, m. by split_and!.
Qed.

(** For an hour after that anybody who is authenticated gets it. *)
Theorem cached_pdf_leaks format_date now requester ticket_id s bytes s' other later :
  get_ticket_pdf format_date now (Ok requester) ticket_id s = (PdfOk bytes, s') ->
  cached_pdf now ticket_id s = None -> now <= later < now + PDF_CACHE_TTL ->
  get_ticket_pdf format_date later (Ok other) ticket_id s' = (PdfOk bytes, s').
Proof.
  intros Hg Hc Hl. unfold get_ticket_pdf in Hg. rewrite Hc in Hg.
  destruct (ps_rows s !! ticket_id) as [row|]; [|done]. destruct (owns requester row); [|done]. cbn [negb] in Hg.
  destruct (masked_of row) as [m|]; [|done].
  assert (pdf_of format_date row m <> []) as Hne by discriminate.
  remember (pdf_of format_date row m) as doc eqn:Hdoc. clear Hdoc. injection Hg as <- <-.
  unfold get_ticket_pdf, cached_pdf. upd_simpl. rewrite lookup_insert_eq.
  rewrite (proj2 (Z.ltb_lt _ _)) by lia. by rewrite bool_decide_eq_false_2.
Qed.

(** The mask shows four characters at each end; it never fails on an ASCII address. *)
Lemma mask_ascii address : Forall (fun c => code c < 128) address -> (8 < length address)%nat ->
  exists a b, mask_wallet address = Some (a ++ chars_of "..." ++ b) /\ length a = 4%nat /\ length b = 4%nat /\
    a = take 4 address /\ b = drop (length address - 4) address.
Proof.
  intros Ha Hl. unfold mask_wallet. rewrite (proj2 (Nat.leb_gt _ _)) by lia.
  assert (forall i, (i < length address)%nat -> is_boundary address i = true) as Hb.
  { intros i Hi. unfold is_boundary. destruct (lookup_lt_is_Some_2 _ _ Hi) as [c Hc]. rewrite Hc.
    rewrite Forall_lookup in Ha. specialize (Ha _ _ Hc). apply negb_true_iff, andb_false_iff. left. lia. }
  rewrite !Hb by lia. cbn [andb]. do 2 eexists. split_and!; [done| | |done|done].
  - rewrite length_take. lia.
  - rewrite length_drop. lia.
Qed.

(** ** Witnesses *)
Module PdfSample.
Definition row : TicketPdfRow := mkPdfRow (Some "GALICE"%string) None None None (Some "Jazz (late)"%string) None None.
Definition st : PdfState := mkPdfState {[1 := row]} ∅.
Definition date (_ : Z) : string := "".
Definition title : chars := chars_of "Jazz (late) \ ) Tj ET".
Lemma cached_pdf_leaks_witness : exists bytes s',
  get_ticket_pdf date 0 (Ok "GALICE"%string) 1 st = (PdfOk bytes, s') /\
  get_ticket_pdf date 10 (Ok "GMALLORY"%string) 1 s' = (PdfOk bytes, s') /\
  (get_ticket_pdf date 0 (Ok "GMALLORY"%string) 1 st).1 = PdfErr Forbidden.
Proof.
  do 2 eexists. split_and!; [reflexivity| |vm_compute; reflexivity].
  eapply (cached_pdf_leaks date 0 "GALICE" 1 st); [reflexivity|done|unfold PDF_CACHE_TTL; lia].
Defined.
(** An address with a character of two bytes across the cut. *)
Example mask_panics : mask_wallet (chars_of "abc" ++ [ascii_of_nat 195; ascii_of_nat 169] ++ chars_of "defgh") = None.
Proof. vm_compute. reflexivity. Qed.
End PdfSample.
