(* ===== verification/Float64.v ===== *)
(** * Doubles

    The finite doubles as the integers that count units of [2 ^ -1074]: sums, products
    and quotients are rounded to the nearest number of 53 significant bits, ties to even,
    and the smallest numbers have the unit as their last place, as IEEE 754 has it;
    numbers from [2 ^ 1024] on are infinite.  There is one zero.  [powi] multiplies in the
    order of the compiler's run-time library. *)

From stdpp Require Import base tactics numbers list.
From S2P Require Import Prelude.
Open Scope Z_scope.

Definition U : Z := 2 ^ 1074.
Inductive F64 := NaN | PInf | NInf | Fin (units : Z).

(** The integer nearest to [n / d], ties to even, for [0 <= n] and [0 < d]. *)
Definition nearest_even (n d : Z) : Z :=
  let q := n / d in
  let r := n mod d in
  if (2 * r <? d) || ((2 * r =? d) && Z.even q) then q else q + 1.
(** The place of the last of the 53 bits of [n / d]. *)
Definition last_place (n d : Z) : Z := Z.max 0 (Z.log2 (n / d) - 52).
Definition round53 (n d : Z) : Z :=
  let e := last_place n d in nearest_even n (d * 2 ^ e) * 2 ^ e.

(** The double nearest to [n / d] units. *)
Definition of_units (n d : Z) : F64 :=
  let m := Z.sgn n * round53 (Z.abs n) d in
  if 2 ^ 1024 * U <=? m then PInf else if m <=? - 2 ^ 1024 * U then NInf else Fin m.

Definition f64_of (z : Z) : F64 := of_units (z * U) 1.
Definition f64_neg (x : F64) : F64 :=
  match x with NaN => NaN | PInf => NInf | NInf => PInf | Fin z => Fin (- z) end.
Definition f64_add (x y : F64) : F64 :=
  match x, y with
  | NaN, _ | _, NaN => NaN
  | PInf, NInf | NInf, PInf => NaN
  | PInf, _ | _, PInf => PInf
  | NInf, _ | _, NInf => NInf
  | Fin a, Fin b => of_units (a + b) 1
  end.
Definition f64_sub (x y : F64) : F64 := f64_add x (f64_neg y).
Definition inf_of_sign (s : Z) : F64 := if 0 <? s then PInf else if s <? 0 then NInf else NaN.
Definition sign (x : F64) : Z := match x with NaN => 0 | PInf => 1 | NInf => -1 | Fin z => Z.sgn z end.
Definition f64_mul (x y : F64) : F64 :=
  match x, y with
  | NaN, _ | _, NaN => NaN
  | Fin a, Fin b => of_units (a * b) U
  | _, _ => inf_of_sign (sign x * sign y)
  end.
(** Division by a number that is not zero. *)
Definition f64_div (x y : F64) : F64 :=
  match x, y with
  | NaN, _ | _, NaN => NaN
  | Fin a, Fin b => if b =? 0 then inf_of_sign (Z.sgn a) else of_units (Z.sgn b * a * U) (Z.abs b)
  | Fin _, _ => Fin 0
  | _, Fin b => inf_of_sign (sign x * (if b <? 0 then -1 else 1))
  | _, _ => NaN
  end.

Fixpoint powi_loop (fuel : nat) (n : Z) (x r : F64) : F64 :=
  match fuel with
  | O => r
  | S fuel =>
      let r := if Z.odd n then f64_mul r x else r in
      if n / 2 =? 0 then r else powi_loop fuel (n / 2) (f64_mul x x) r
  end.
Definition f64_powi (x : F64) (n : Z) : F64 := powi_loop 32 n x (f64_of 1).

(** [x <= 0.0] is false of a NaN. *)
Definition f64_le0 (x : F64) : bool :=
  match x with NaN => false | PInf => false | NInf => true | Fin z => z <=? 0 end.

(** [round], half away from zero, then [as i64] or [as u64] or [as u32], which saturate
    and give 0 for a NaN. *)
Definition round_half_up (z : Z) : Z := Z.sgn z * ((2 * Z.abs z + U) / (2 * U)).
Definition round_as (lo hi : Z) (x : F64) : Z :=
  match x with
  | NaN => 0
  | PInf => hi
  | NInf => lo
  | Fin z => Z.max lo (Z.min hi (round_half_up z))
  end.
Definition round_i64 : F64 -> Z := round_as (- 2 ^ 63) (2 ^ 63 - 1).
Definition round_u64 : F64 -> Z := round_as 0 (2 ^ 64 - 1).
Definition round_u32 : F64 -> Z := round_as 0 (2 ^ 32 - 1).

(** ** Rounding *)
Lemma U_pos : 0 < U.
Proof. unfold U. lia. Qed.

Lemma nearest_even_near n d : 0 < d -> 2 * Z.abs (nearest_even n d * d - n) <= d.
Proof.
  intros Hd. unfold nearest_even. pose proof (Z.div_mod n d). pose proof (Z.mod_pos_bound n d).
  set (q := n / d) in *. set (r := n mod d) in *. case_match; bools; [|nia].
  assert (2 * r <= d) by (destruct H1; bools; lia). nia.
Qed.
Lemma nearest_even_exact m d : 0 < d -> nearest_even (m * d) d = m.
Proof.
  intros Hd. unfold nearest_even. rewrite Z.div_mul, Z.mod_mul by lia.
  rewrite (proj2 (Z.ltb_lt _ _)) by lia. done.
Qed.

Lemma last_place_spec n d : 0 < d -> 2 ^ 52 * d <= n ->
  0 <= last_place n d /\ 2 ^ 52 * (d * 2 ^ last_place n d) <= n.
Proof.
  intros Hd Hn. assert (2 ^ 52 <= n / d) as Hq by (apply Z.div_le_lower_bound; lia).
  assert (0 < n / d) as Hp by lia. pose proof (Z.log2_spec _ Hp) as [Hlo _].
  assert (52 <= Z.log2 (n / d)) by (apply (Z.log2_le_mono (2 ^ 52)); lia).
  unfold last_place. rewrite Z.max_r by lia. split; [lia|].
  pose proof (Z.mul_div_le n d Hd). set (k := Z.log2 (n / d)) in *.
  assert (2 ^ 52 * 2 ^ (k - 52) = 2 ^ k) by (rewrite <- Z.pow_add_r by lia; f_equal; lia). nia.
Qed.

(** The error of a rounding is at most half a unit in the last of 53 bits. *)
Lemma round53_near n d : 0 < d -> 2 ^ 52 * d <= n -> 2 ^ 53 * Z.abs (round53 n d * d - n) <= n.
Proof.
  intros Hd Hn. destruct (last_place_spec n d Hd Hn) as [He Hl]. unfold round53.
  set (e := last_place n d) in *. assert (0 < 2 ^ e) by lia.
  pose proof (nearest_even_near n (d * 2 ^ e) ltac:(nia)) as Hnear.
  replace (nearest_even n (d * 2 ^ e) * 2 ^ e * d) with (nearest_even n (d * 2 ^ e) * (d * 2 ^ e)) by lia. lia.
Qed.

(** An integer of at most 53 bits is a double. *)
Lemma round53_int z : 0 <= z <= 2 ^ 53 -> round53 (z * U) 1 = z * U.
Proof.
  intros Hz. destruct (decide (z = 0)) as [->|Hnz]; [by vm_compute|]. unfold round53, last_place. rewrite Z.div_1_r.
  assert (Z.log2 (z * U) = Z.log2 z + 1074) as -> by (unfold U; rewrite Z.log2_mul_pow2; lia).
  set (e := Z.max 0 (Z.log2 z + 1074 - 52)).
  assert (0 <= Z.log2 z <= 53) as Hl.
  { split; [apply Z.log2_nonneg|]. change 53 with (Z.log2 (2 ^ 53)). apply Z.log2_le_mono. lia. }
  assert (exists m, z * U = m * 2 ^ e) as [m Hm].
  { destruct (decide (Z.log2 z = 53)) as [H53|H53].
    - assert (z = 2 ^ 53) as ->. { pose proof (Z.log2_spec z ltac:(lia)) as [H1 _]. rewrite H53 in H1. lia. }
      exists (2 ^ (53 + 1074 - e)). unfold U. rewrite <- !Z.pow_add_r by lia. f_equal; lia.
    - exists (z * 2 ^ (1074 - e)). unfold U. rewrite <- Z.mul_assoc, <- Z.pow_add_r by lia. do 2 f_equal; lia. }
  rewrite Hm, Z.mul_1_l, nearest_even_exact; [done|]. apply Z.pow_pos_nonneg; lia.
Qed.
Lemma f64_of_int z : 0 <= z <= 2 ^ 53 -> f64_of z = Fin (z * U).
Proof.
  intros Hz. pose proof U_pos. unfold f64_of, of_units. rewrite Z.abs_eq by nia. rewrite round53_int by done.
  assert (Z.sgn (z * U) * (z * U) = z * U) as -> by nia.
  rewrite (proj2 (Z.leb_gt _ _)), (proj2 (Z.leb_gt _ _)) by nia. done.
Qed.
(** A quotient does not depend on a common factor. *)
Lemma nearest_even_scale n d k : 0 < d -> 0 < k -> nearest_even (n * k) (d * k) = nearest_even n d.
Proof.
  intros Hd Hk. unfold nearest_even. rewrite Z.div_mul_cancel_r, Z.mul_mod_distr_r by lia.
  assert ((2 * (n mod d * k) <? d * k) = (2 * (n mod d) <? d)) as ->
    by (apply eq_bool_prop_intro; rewrite !Is_true_true, !Z.ltb_lt; nia).
  assert ((2 * (n mod d * k) =? d * k) = (2 * (n mod d) =? d)) as ->
    by (apply eq_bool_prop_intro; rewrite !Is_true_true, !Z.eqb_eq; nia). done.
Qed.
Lemma of_units_scale n d k : 0 < d -> 0 < k -> of_units (n * k) (d * k) = of_units n d.
Proof.
  intros Hd Hk. unfold of_units. rewrite Z.abs_mul, (Z.abs_eq k) by lia.
  assert (Z.sgn (n * k) = Z.sgn n) as -> by nia.
  assert (round53 (Z.abs n * k) (d * k) = round53 (Z.abs n) d) as ->; [|done].
  unfold round53, last_place. rewrite Z.div_mul_cancel_r by lia. set (e := Z.max 0 _).
  replace (d * k * 2 ^ e) with (d * 2 ^ e * k) by ring. rewrite nearest_even_scale; [done| |done].
  apply Z.mul_pos_pos; [done|]. apply Z.pow_pos_nonneg; lia.
Qed.
Lemma of_units_zero d : of_units 0 d = Fin 0.
Proof. unfold of_units. change (Z.sgn 0) with 0. rewrite Z.mul_0_l. reflexivity. Qed.
(** A quotient of nonnegative numbers that is no overflow is finite and near. *)
Lemma of_units_near n d : 0 < d -> 2 ^ 52 * d <= n -> n <= 2 ^ 60 * U * d ->
  exists m, of_units n d = Fin m /\ 0 <= m /\ 2 ^ 53 * Z.abs (m * d - n) <= n.
Proof.
  intros Hd Hn Hmax. pose proof U_pos. pose proof (round53_near n d Hd Hn) as Hnear.
  exists (round53 n d). unfold of_units. rewrite Z.abs_eq, Z.sgn_pos, Z.mul_1_l by lia.
  assert (0 <= round53 n d).
  { unfold round53. assert (0 < 2 ^ last_place n d) by (apply Z.pow_pos_nonneg; [lia|unfold last_place; lia]).
    apply Z.mul_nonneg_nonneg; [|lia]. unfold nearest_even.
    assert (0 <= n / (d * 2 ^ last_place n d)) by (apply Z.div_pos; nia). case_match; lia. }
  assert (round53 n d < 2 ^ 62 * U) by nia.
  assert (2 ^ 62 * U <= 2 ^ 1024 * U) by (apply Z.mul_le_mono_nonneg_r; [lia|apply Z.pow_le_mono_r; lia]).
  rewrite (proj2 (Z.leb_gt _ _)), (proj2 (Z.leb_gt _ _)) by lia. done.
Qed.

(** Rounding to an integer is within a half. *)
Lemma round_half_up_near z : 0 <= z -> 2 * Z.abs (round_half_up z * U - z) <= U.
Proof.
  intros Hz. pose proof U_pos. unfold round_half_up. rewrite (Z.abs_eq z) by done.
  destruct (decide (z = 0)) as [->|]; [cbn; lia|]. rewrite Z.sgn_pos, Z.mul_1_l by lia.
  pose proof (Z.div_mod (2 * z + U) (2 * U)). pose proof (Z.mod_pos_bound (2 * z + U) (2 * U)). lia.
Qed.
