(* ===== verification/Quotes.v ===== *)
(** * Server: price projections

    [handlers/pricing.rs]: the prices that the charts show, computed with doubles
    ([Float64]), beside the prices of the contract ([Pricing]).  A cache key is the tuple
    of the values that its text spells out; a cache entry has the time at which it
    expires.  A [u64] sum wraps, as in a release build. *)

From stdpp Require Import base tactics numbers list strings gmap.
From S2P Require Import Prelude.
From S2P Require Import ServerPrelude.
From S2P Require Import Soroban.
From S2P Require Import PaymentTypes.
From S2P Require Import Pricing.
From S2P Require Import Float64.
Open Scope Z_scope.

Definition PRICING_CACHE_TTL : Z := 15.
Definition DEFAULT_SERIES_POINTS : Z := 50.
Definition MAX_SERIES_POINTS : Z := 200.

(** ** Prices *)
Definition compute_dutch_price (start_price reserve_price start_time end_time now : Z) (exponential : bool) : Z :=
  if end_time <=? now then reserve_price
  else if now <=? start_time then start_price
  else
    let elapsed := f64_of (now - start_time) in
    let total := f64_of (end_time - start_time) in
    let spread := f64_of (start_price - reserve_price) in
    let price :=
      if exponential then
        let f := f64_div (f64_sub total elapsed) total in
        f64_add (f64_of reserve_price)
          (f64_mul spread (f64_sub (f64_mul (f64_of 2) f) (f64_mul f f)))
      else f64_sub (f64_of start_price) (f64_mul (f64_div elapsed total) spread) in
    round_i64 price.

Definition compute_bonding_price (a : F64) (b c remaining_supply : Z) : Z :=
  round_i64 (f64_add (f64_mul a (f64_powi (f64_of remaining_supply) b)) (f64_of c)).

Definition validate_bonding_curve_params (a : F64) (b c : Z) : Result AppError unit :=
  err_if (f64_le0 a) ValidationError;;
  err_if ((b =? 0) || (4 <? b)) ValidationError;;
  err_if (c <? 0) ValidationError.

Definition stroops_to_usdc (stroops : Z) : F64 := f64_div (f64_of stroops) (f64_of 10000000).

(** ** Series *)
Record PricePoint := mkPoint { pt_timestamp : Z; pt_price_stroops : Z; pt_price_usdc : F64 }.
Record BondingCurvePoint := mkCurvePoint { cp_remaining_supply : Z; cp_price_stroops : Z; cp_price_usdc : F64 }.

Definition fraction (i points : Z) : F64 := f64_div (f64_of i) (f64_of (Z.max 1 (points - 1))).
Definition build_dutch_series (start_price reserve_price start_time end_time points : Z) (exponential : bool)
    : list PricePoint :=
  let total := f64_of (end_time - start_time) in
  (fun i =>
     let ts := (start_time + round_u64 (f64_mul total (fraction i points))) mod 2 ^ 64 in
     let ts := Z.min ts end_time in
     let price := compute_dutch_price start_price reserve_price start_time end_time ts exponential in
     mkPoint ts price (stroops_to_usdc price)) <$> seqZ 0 points.
Definition build_bonding_series (a : F64) (b c total_supply points : Z) : list BondingCurvePoint :=
  (fun i =>
     let supply := round_u32 (f64_mul (f64_of total_supply) (f64_sub (f64_of 1) (fraction i points))) in
     let price := compute_bonding_price a b c supply in
     mkCurvePoint supply price (stroops_to_usdc price)) <$> seqZ 0 points.

(** ** Handlers *)
Record DutchAuctionQuery := mkDutchQuery {
  dq_start_price : Z; dq_reserve_price : Z; dq_start_time : Z; dq_end_time : Z;
  dq_current_time : option Z; dq_exponential : bool; dq_points : option Z;
}.
Record DutchAuctionPriceResponse := mkDutchResponse {
  dr_current_price_stroops : Z; dr_current_price_usdc : F64; dr_series : list PricePoint;
  dr_seconds_remaining : Z; dr_exponential : bool;
}.
Definition points_of (points : option Z) : Z :=
  Z.min MAX_SERIES_POINTS (Z.max 2 (default DEFAULT_SERIES_POINTS points)).

Definition DutchKey : Type := Z * Z * Z * Z * bool * Z.
Definition dutch_key (q : DutchAuctionQuery) (now : Z) : DutchKey :=
  (dq_start_price q, dq_reserve_price q, dq_start_time q, dq_end_time q, dq_exponential q, now / 15).
Abbreviation DutchCache := (gmap DutchKey (DutchAuctionPriceResponse * Z)).

Definition valid_dutch (q : DutchAuctionQuery) : Result AppError unit :=
  err_if ((dq_start_price q <=? 0) || (dq_reserve_price q <=? 0) || (dq_start_price q <=? dq_reserve_price q))
    ValidationError;;
  err_if (dq_end_time q <=? dq_start_time q) ValidationError.

Definition dutch_response (q : DutchAuctionQuery) (now : Z) : DutchAuctionPriceResponse :=
  let price := compute_dutch_price (dq_start_price q) (dq_reserve_price q) (dq_start_time q) (dq_end_time q) now
                 (dq_exponential q) in
  mkDutchResponse price (stroops_to_usdc price)
    (build_dutch_series (dq_start_price q) (dq_reserve_price q) (dq_start_time q) (dq_end_time q)
       (points_of (dq_points q)) (dq_exponential q))
    (Z.max 0 (dq_end_time q - now)) (dq_exponential q).

(** [clock] is the time of the server, which also decides what is left of the cache. *)
Definition get_dutch_auction_price (clock : Z) (q : DutchAuctionQuery) (cache : DutchCache)
    : Result AppError DutchAuctionPriceResponse * DutchCache :=
  match valid_dutch q with
  | Err e => (Err e, cache)
  | Ok _ =>
      let now := default clock (dq_current_time q) in
      match cache !! dutch_key q now with
      | Some (cached, expires) =>
          if clock <? expires then (Ok cached, cache)
          else (Ok (dutch_response q now),
                <[dutch_key q now := (dutch_response q now, clock + PRICING_CACHE_TTL)]> cache)
      | None => (Ok (dutch_response q now),
                 <[dutch_key q now := (dutch_response q now, clock + PRICING_CACHE_TTL)]> cache)
      end
  end.

(** The bonding curve, without its cache: the answers depend on nothing but the query. *)
Record BondingCurveQuery := mkCurveQuery {
  bq_a : F64; bq_b : Z; bq_c : Z; bq_initial_supply : Z; bq_remaining_supply : Z;
}.
Record BondingCurvePriceResponse := mkCurveResponse {
  br_spot_price_stroops : Z; br_spot_price_usdc : F64; br_integral_cost_stroops : option Z;
}.
Definition get_bonding_curve_price (q : BondingCurveQuery) : Result AppError BondingCurvePriceResponse :=
  validate_bonding_curve_params (bq_a q) (bq_b q) (bq_c q);;
  err_if (bq_initial_supply q <? bq_remaining_supply q) ValidationError;;
  let spot := compute_bonding_price (bq_a q) (bq_b q) (bq_c q) (bq_remaining_supply q) in
  Ok (mkCurveResponse spot (stroops_to_usdc spot) None).

Record BondingCurveSeriesResponse := mkSeriesResponse {
  bs_series : list BondingCurvePoint; bs_floor_price_stroops : Z; bs_starting_price_stroops : Z;
}.
Definition get_bonding_curve_series (a : F64) (b c total_supply : Z) (points : option Z)
    : Result AppError BondingCurveSeriesResponse :=
  validate_bonding_curve_params a b c;;
  err_if (total_supply =? 0) ValidationError;;
  Ok (mkSeriesResponse (build_bonding_series a b c total_supply (points_of points))
        (compute_bonding_price a b c 0) (compute_bonding_price a b c total_supply)).

Example quote_mid : compute_dutch_price 1000000 100000 0 1000 500 false = 550000
  /\ compute_dutch_price 1000000 100000 0 1000 500 true = 775000
  /\ compute_bonding_price (f64_of 1) 1 500000 100 = 500100
  /\ compute_bonding_price (f64_div (f64_of 5) (f64_of 2)) 3 7 10 = 2507.
Proof. vm_compute. done. Qed.

(** ** The projection and the contract *)

(** The errors of the three roundings. *)
Lemma error_chain g m c d K W : 0 <= g <= K -> 2 ^ 53 * Z.abs (m - g) <= g -> 2 ^ 53 * Z.abs (c - m) <= m ->
  2 ^ 53 * Z.abs (d - (K - c)) <= K - c -> K <= 2 ^ 50 * W -> 10 * Z.abs (d - (K - g)) <= 4 * W.
Proof. lia. Qed.
Lemma scaled_near k a b : 0 <= k -> 2 ^ 53 * Z.abs (a - b) <= b -> 2 ^ 53 * Z.abs (k * a - k * b) <= k * b.
Proof. intros Hk Hn. rewrite <- Z.mul_sub_distr_l, Z.abs_mul, (Z.abs_eq k) by done. nia. Qed.
Lemma unscaled_near k a b : 0 < k -> 2 ^ 53 * Z.abs (a * k - b * k) <= b * k -> 2 ^ 53 * Z.abs (a - b) <= b.
Proof. intros Hk. rewrite <- Z.mul_sub_distr_r, Z.abs_mul, (Z.abs_eq k) by lia. nia. Qed.

Lemma bound_products e T S_ P u : 0 < e < T -> 0 < S_ < P -> P <= 2 ^ 50 -> 0 < u ->
  0 <= e * u * S_ <= T * u * S_ /\ T * u * S_ <= T * (P * u) - T * u /\
  T * u * S_ <= 2 ^ 50 * (T * u) /\ T * (P * u) <= 2 ^ 50 * (T * u) /\ 2 * u <= T * u.
Proof.
  intros He HS HP Hu. assert (0 < T * u) as HW by nia.
  assert (e * u <= T * u) as H1 by nia. assert (2 * u <= T * u) as H2 by nia. assert (0 < e * u) as H3 by nia.
  assert (T * (P * u) = P * (T * u)) as -> by ring. revert HW H1 H2 H3. generalize (T * u) (e * u). intros W E HW H1 H2 H3.
  split_and!; nia.
Qed.
Lemma large_difference T y u : 0 < T <= 2 ^ 53 -> 2 ^ 200 <= u -> u <= T * y -> 2 ^ 52 <= y.
Proof. nia. Qed.

(** Between start and end the linear projection is near the line. *)
Lemma linear_projection start reserve t0 t1 now :
  0 < reserve < start -> start <= 2 ^ 50 -> t0 < now < t1 -> t1 - t0 <= 2 ^ 53 ->
  let e := now - t0 in let T := t1 - t0 in let S_ := start - reserve in
  10 * Z.abs (T * compute_dutch_price start reserve t0 t1 now false - (T * start - e * S_)) <= 9 * T.
Proof.
  intros Hp Hmax Hnow Ht e T S_. unfold compute_dutch_price.
  rewrite (proj2 (Z.leb_gt _ _)), (proj2 (Z.leb_gt _ _)) by lia. fold e T S_.
  assert (0 < e < T /\ 0 < S_ < start /\ T <= 2 ^ 53) as (He & HS & HT) by lia. clearbody e T S_.
  rewrite !f64_of_int by lia. pose proof U_pos as HU.
  assert (2 ^ 200 <= U) as HU200 by (unfold U; apply Z.pow_le_mono_r; lia).
  (* the quotient *)
  assert (exists x1, f64_div (Fin (e * U)) (Fin (T * U)) = Fin x1 /\ 0 <= x1 /\ 2 ^ 53 * Z.abs (x1 * T - e * U) <= e * U)
    as (x1 & -> & Hx1 & Hn1).
  { cbn [f64_div]. rewrite (proj2 (Z.eqb_neq _ _)), Z.sgn_pos, Z.mul_1_l, (Z.abs_eq (T * U)) by nia.
    destruct (of_units_near (e * U * U) (T * U)) as (x1 & Hx & H0 & Hn).
    { apply Z.mul_pos_pos; lia. }
    { rewrite !Z.mul_assoc. apply Z.mul_le_mono_nonneg_r; [lia|]. nia. }
    { replace (2 ^ 60 * U * (T * U)) with (2 ^ 60 * T * U * U) by ring.
      do 2 (apply Z.mul_le_mono_nonneg_r; [lia|]). lia. }
    exists x1. split_and!; [done..|]. apply (unscaled_near U); [done|]. by rewrite <- (Z.mul_assoc x1). }
  assert (2 ^ 100 <= x1) as Hlow by nia.
  (* the product *)
  assert (exists x2, f64_mul (Fin x1) (Fin (S_ * U)) = Fin x2 /\ 0 <= x2 /\ 2 ^ 53 * Z.abs (x2 - x1 * S_) <= x1 * S_)
    as (x2 & -> & Hx2 & Hn2).
  { cbn [f64_mul]. rewrite (Z.mul_assoc x1). destruct (of_units_near (x1 * S_ * U) U) as (x2 & Hx & H0 & Hn).
    - exact HU.
    - apply Z.mul_le_mono_nonneg_r; [lia|]. nia.
    - assert (x1 <= 2 * U) by nia. apply Z.mul_le_mono_nonneg_r; [lia|]. nia.
    - exists x2. split_and!; [done..|]. by apply (unscaled_near U). }
  (* the errors, all times [T] *)
  set (g := e * U * S_). set (m := x1 * T * S_). set (c := T * x2). set (K := T * (start * U)). set (W := T * U).
  assert (2 ^ 53 * Z.abs (m - g) <= g) as Hm.
  { unfold m, g. rewrite (Z.mul_comm (x1 * T)), (Z.mul_comm (e * U)). apply scaled_near; [lia|done]. }
  assert (2 ^ 53 * Z.abs (c - m) <= m) as Hc.
  { unfold c, m. replace (x1 * T * S_) with (T * (x1 * S_)) by ring. apply scaled_near; [lia|done]. }
  destruct (bound_products e T S_ start U He HS Hmax HU) as (Hg & Hk1 & Hk2 & Hk3 & HW).
  fold g K W in Hg, Hk1, Hk2, Hk3, HW.
  assert (c <= K - U) as Hcb by lia.
  assert (exists x3, f64_sub (Fin (start * U)) (Fin x2) = Fin x3 /\ 0 <= x3 /\
    2 ^ 53 * Z.abs (x3 - (start * U - x2)) <= start * U - x2) as (x3 & -> & Hx3 & Hn3).
  { cbn [f64_sub f64_neg f64_add]. replace (start * U + - x2) with (start * U - x2) by lia.
    assert (2 ^ 52 <= start * U - x2).
    { apply (large_difference T _ U); [lia|done|]. unfold c, K in Hcb. lia. }
    destruct (of_units_near (start * U - x2) 1) as (x3 & Hx & H0 & Hn); [lia|lia| |].
    { clear -Hmax Hx2 HU. rewrite Z.mul_1_r. assert (start * U <= 2 ^ 60 * U) by (apply Z.mul_le_mono_nonneg_r; lia). lia. }
    exists x3. split_and!; [done..|]. by rewrite Z.mul_1_r in Hn. }
  set (d := T * x3). assert (2 ^ 53 * Z.abs (d - (K - c)) <= K - c) as Hd.
  { unfold d, K, c. rewrite <- Z.mul_sub_distr_l. apply scaled_near; [lia|done]. }
  assert (10 * Z.abs (d - (K - g)) <= 4 * W) as Herr by (apply (error_chain g m c d K W); done || lia).
  (* the rounding to an integer *)
  pose proof (round_half_up_near x3 Hx3) as Hr. set (r := round_half_up x3) in *.
  assert (2 * Z.abs (T * r * U - d) <= W) as Hr2.
  { unfold d, W. replace (T * r * U - T * x3) with (T * (r * U - x3)) by ring. rewrite Z.abs_mul, (Z.abs_eq T) by lia. clear -Hr He. nia. }
  assert (x3 <= start * U * 2) as Hx3b by lia.
  assert (0 <= r <= 2 ^ 52) as Hrb by (clear -Hr Hx3 Hx3b HU Hmax; nia).
  unfold round_i64, round_as. fold r. rewrite Z.min_r, Z.max_r by lia.
  assert (10 * Z.abs (T * r - (T * start - e * S_)) * U <= 9 * T * U); [|clear -H HU; nia].
  replace (10 * Z.abs (T * r - (T * start - e * S_)) * U) with (10 * Z.abs (T * r * U - (K - g))).
  2: { unfold K, g. replace (T * r * U - (T * (start * U) - e * U * S_)) with ((T * r - (T * start - e * S_)) * U) by ring.
       rewrite Z.abs_mul, (Z.abs_eq U) by lia. ring. }
  unfold W in *. lia.
Qed.


(** ** Series *)
Lemma fraction_ends points : 2 <= points <= MAX_SERIES_POINTS ->
  fraction 0 points = Fin 0 /\ fraction (points - 1) points = Fin U.
Proof.
  intros Hp. unfold fraction, MAX_SERIES_POINTS in *. rewrite Z.max_r by lia. rewrite !f64_of_int by lia.
  pose proof U_pos as HU. cbn [f64_div]. rewrite (proj2 (Z.eqb_neq _ 0)) by nia.
  rewrite Z.sgn_pos, !Z.mul_1_l, (Z.abs_eq ((points - 1) * U)) by nia. split.
  - rewrite !Z.mul_0_l. apply of_units_zero.
  - replace ((points - 1) * U * U) with (1 * U * ((points - 1) * U)) by ring.
    replace ((points - 1) * U) with (1 * ((points - 1) * U)) at 2 by ring.
    rewrite of_units_scale by nia. apply (f64_of_int 1). lia.
Qed.
Lemma times_one z : 0 <= z <= 2 ^ 53 -> f64_mul (Fin (z * U)) (Fin U) = Fin (z * U).
Proof.
  intros Hz. pose proof U_pos as HU. cbn [f64_mul]. replace U with (1 * U) at 3 by ring.
  rewrite of_units_scale by lia. by apply f64_of_int.
Qed.

(** The chart of an auction: as many points as asked for, between 2 and 200, from the
    start price to the reserve. *)
Theorem dutch_series_ends start reserve t0 t1 points exponential :
  0 <= t0 < t1 -> t1 < 2 ^ 53 ->
  let series := build_dutch_series start reserve t0 t1 (points_of points) exponential in
  length series = Z.to_nat (points_of points) /\
  (pt_timestamp <$> head series) = Some t0 /\ (pt_price_stroops <$> head series) = Some start /\
  (pt_timestamp <$> last series) = Some t1 /\ (pt_price_stroops <$> last series) = Some reserve.
Proof.
  intros Ht Hmax. assert (2 <= points_of points <= MAX_SERIES_POINTS) as Hp.
  { unfold points_of, MAX_SERIES_POINTS. lia. }
  destruct (fraction_ends _ Hp) as [F0 F1]. set (n := points_of points) in *. clearbody n.
  cbv zeta. unfold build_dutch_series. rewrite length_fmap, length_seqZ. split; [done|].
  assert (exists l, seqZ 0 n = 0 :: l) as [l Hl].
  { rewrite seqZ_cons by lia. eauto. }
  assert (exists l', seqZ 0 n = l' ++ [n - 1]) as [l' Hl'].
  { exists (seqZ 0 (n - 1)). replace n with (n - 1 + 1) at 1 by lia. by rewrite seqZ_app by lia. }
  rewrite f64_of_int by lia. unfold MAX_SERIES_POINTS in Hp. split_and!.
  1-2: rewrite Hl, fmap_cons; cbn [head fmap option_fmap option_map pt_timestamp pt_price_stroops]; rewrite F0.
  3-4: rewrite fmap_last, Hl', last_snoc; cbn [fmap option_fmap option_map pt_timestamp pt_price_stroops]; rewrite F1, times_one by lia.
  all: cbn [f64_mul]; rewrite ?Z.mul_0_r, ?of_units_zero.
  all: try (assert (round_u64 (Fin 0) = 0) as -> by (vm_compute; reflexivity);
            rewrite Z.add_0_r, Z.mod_small, Z.min_l by lia).
  all: try (assert (round_u64 (Fin ((t1 - t0) * U)) = t1 - t0) as ->
              by (pose proof U_pos; unfold round_u64, round_as, round_half_up; rewrite Z.abs_eq, Z.sgn_pos, Z.mul_1_l by nia;
                  replace (2 * ((t1 - t0) * U) + U) with (U + (t1 - t0) * (2 * U)) by ring;
                  rewrite Z.div_add, Z.div_small by lia; lia);
            replace (t0 + (t1 - t0)) with t1 by ring; rewrite Z.mod_small, Z.min_id by lia).
  - done.
  - unfold compute_dutch_price. rewrite (proj2 (Z.leb_gt _ _)), (proj2 (Z.leb_le _ _)) by lia. done.
  - done.
  - unfold compute_dutch_price. by rewrite (proj2 (Z.leb_le _ _)) by lia.
Qed.

(** ** Witnesses *)
Module QuoteSample.
Definition q (points : Z) : DutchAuctionQuery := mkDutchQuery 1000000 100000 0 1000 (Some 500) false (Some points).
(** The number of points is not in the key: a second request gets the points of the first. *)
Example points_shared :
  let r1 := get_dutch_auction_price 500 (q 3) ∅ in
  (fun r => length (dr_series r)) <$> (match (get_dutch_auction_price 500 (q 2) r1.2).1 with Ok r => Some r | Err _ => None end)
  = Some 3%nat.
Proof. vm_compute. reflexivity. Qed.
(** A NaN passes the validation and is quoted as a price of 0. *)
Example nan_accepted : validate_bonding_curve_params NaN 1 500 = Ok tt /\ compute_bonding_price NaN 1 500 10 = 0.
Proof. vm_compute. done. Qed.
(** The curve of the chart falls as tickets are sold. *)
Example chart_falls :
  cp_price_stroops <$> build_bonding_series (f64_of 1) 1 500 100 3 = [600; 550; 500].
Proof. vm_compute. reflexivity. Qed.
(** The formula of the comment, [reserve + spread * ((T - elapsed) / T)^2], would give
    325000 where the code gives 775000. *)
Example exponential_is_concave : compute_dutch_price 1000000 100000 0 1000 500 true = 775000
  /\ 100000 + 900000 * 500 * 500 / (1000 * 1000) = 325000.
Proof. vm_compute. done. Qed.
End QuoteSample.
