(* ===== verification/Profiles.v ===== *)
(** * Server: profiles of organizers and their followers

    [handlers/profile.rs], [models/organizer_profile.rs] and [handlers/follows.rs]: the
    tables of profiles, of follows and of developer keys, and the two caches in Redis.
    A request is a sequence of statements, and requests interleave between them; [up]
    says whether the statement, of the database or of Redis, is answered.  Whether
    [Separated::push_bind] of the query builder writes the separator first, as its
    documentation says, is the argument [separates].  Lengths are in bytes. *)

From stdpp Require Import base tactics numbers list strings gmap sorting.
From Stdlib Require Import QArith_base Ascii.
From S2P Require Import Prelude.
From S2P Require Import ServerPrelude.
From S2P Require Import IndexerEvent.
From S2P Require Import TicketQr.
From S2P Require Import Auth.
From S2P Require Import EventListing.
From S2P Require Import EventPages.
From S2P Require Import Text.
Import cursor_pagination.
Open Scope Z_scope.

Definition PROFILE_CACHE_TTL : Z := 600.
Definition STATS_CACHE_TTL : Z := 300.
Definition MAX_DISPLAY_NAME : nat := 50.
Definition MAX_BIO : nat := 500.
Definition MAX_AVATAR_URL : Z := 2048.
Definition MAX_SOCIAL_VALUE : nat := 200.
Definition ALLOWED_SOCIAL_KEYS : list string :=
  ["twitter"; "instagram"; "website"; "linkedin"; "facebook"; "youtube"; "tiktok"; "discord"; "telegram";
   "github"]%string.

(** ** Data *)
Record OrganizerProfile := mkProfile {
  op_address : string; op_display_name : string; op_bio : option string; op_avatar_url : option string;
  op_socials : IndexerEvent.Json; op_created_at : Z; op_updated_at : Z;
}.
#[export] Instance OrganizerProfile_eta : Eta OrganizerProfile := fun p =>
  mkProfile (op_address p) (op_display_name p) (op_bio p) (op_avatar_url p) (op_socials p)
    (op_created_at p) (op_updated_at p).
Record UpsertProfileRequest := mkUpsert {
  up_display_name : string; up_bio : option string; up_avatar_url : option string;
  up_socials : IndexerEvent.Json;
}.
Record PatchProfileRequest := mkPatch {
  pp_display_name : option string; pp_bio : option string; pp_avatar_url : option string;
  pp_socials : IndexerEvent.Json;
}.
Record CachedProfileBase := mkBase {
  cb_profile : OrganizerProfile; cb_total_events : Z; cb_followers_count : Z; cb_following_count : Z;
}.
Record OrganizerProfileResponse := mkProfileResponse { pr_base : CachedProfileBase; pr_is_following : bool }.
Record OrganizerStats := mkStats { os_total_events : Z; os_total_tickets_sold : Z; os_average_event_rating : Q }.

(** The tables, follows with the time they were made at, and the caches with the times
    at which their entries expire. *)
Record Social := mkSocial {
  so_profiles : gmap string OrganizerProfile;
  so_follows : gmap (string * string) Z; (* follower, organizer *)
  so_keys : ApiKeys;
  so_cache : gmap string (Z * CachedProfileBase);
  so_stats : gmap string (Z * OrganizerStats);
}.
#[export] Instance Social_eta : Eta Social := fun s =>
  mkSocial (so_profiles s) (so_follows s) (so_keys s) (so_cache s) (so_stats s).

(** ** Validation *)
Definition is_null (j : IndexerEvent.Json) : bool := match j with JNull => true | _ => false end.

Fixpoint check_socials (fields : list (string * IndexerEvent.Json)) : Result AppError unit :=
  match fields with
  | [] => Ok tt
  | (key, value) :: fields =>
      err_if (negb (bool_decide (key ∈ ALLOWED_SOCIAL_KEYS))) ValidationError;;
      match value with
      | JString text => err_if (MAX_SOCIAL_VALUE <? String.length text)%nat ValidationError
      | _ => Err ValidationError
      end;;
      check_socials fields
  end.
Definition validate_socials (socials : IndexerEvent.Json) : Result AppError unit :=
  match socials with
  | JNull => Ok tt
  | JObject fields => check_socials fields
  | _ => Err ValidationError
  end.

Definition validate_avatar_url (url : string) : Result AppError unit :=
  err_if (MAX_AVATAR_URL <? Z.of_nat (String.length url)) ValidationError;;
  err_if (negb (starts_with "https://" url)) ValidationError;;
  err_if (negb (bool_decide ("."%char ∈ chars_of url)) || bool_decide (" "%char ∈ chars_of url)) ValidationError.

(** A check of a field that may be missing. *)
Definition if_given {A} (o : option A) (check : A -> Result AppError unit) : Result AppError unit :=
  match o with Some a => check a | None => Ok tt end.
Definition check_name (name : string) : Result AppError unit :=
  err_if (is_empty (Text.trim name)) ValidationError;;
  err_if (MAX_DISPLAY_NAME <? String.length name)%nat ValidationError.
Definition check_bio (bio : string) : Result AppError unit :=
  err_if (MAX_BIO <? String.length bio)%nat ValidationError.

Definition validate_upsert (req : UpsertProfileRequest) : Result AppError unit :=
  check_name (up_display_name req);;
  if_given (up_bio req) check_bio;;
  if_given (up_avatar_url req) validate_avatar_url;;
  validate_socials (up_socials req).

Definition validate_patch (req : PatchProfileRequest) : Result AppError unit :=
  err_if (is_none (pp_display_name req) && is_none (pp_bio req) && is_none (pp_avatar_url req)
          && is_null (pp_socials req)) ValidationError;;
  if_given (pp_display_name req) check_name;;
  if_given (pp_bio req) check_bio;;
  if_given (pp_avatar_url req) validate_avatar_url;;
  validate_socials (pp_socials req).

Definition validate_profile_deletion (active_upcoming_events : Z) : Result AppError unit :=
  err_if (0 <? active_upcoming_events) Conflict.

(** ** The statement of [patch_profile] *)
Inductive SqlValue := SqlText (s : string) | SqlJson (j : IndexerEvent.Json).
(** The pieces of the [SET] list: [column = ], [, ], a placeholder with its value, and
    [updated_at = NOW()]. *)
Inductive Piece := Column (c : string) | Comma | Placeholder (v : SqlValue) | SetNow.
Record Separated := mkSeparated { sp_pieces : list Piece; sp_push_separator : bool }.

Definition sep_push (p : Piece) (b : Separated) : Separated :=
  mkSeparated (sp_pieces b ++ (if sp_push_separator b then [Comma] else []) ++ [p]) true.
Definition sep_push_bind (separates : bool) (v : SqlValue) (b : Separated) : Separated :=
  if separates then sep_push (Placeholder v) b
  else mkSeparated (sp_pieces b ++ [Placeholder v]) (sp_push_separator b).
Definition push_field (separates : bool) (c : string) (v : option SqlValue) (b : Separated) : Separated :=
  match v with Some v => sep_push_bind separates v (sep_push (Column c) b) | None => b end.

Definition patch_statement (separates : bool) (req : PatchProfileRequest) : list Piece :=
  sp_pieces (sep_push SetNow
    (push_field separates "socials" (if is_null (pp_socials req) then None else Some (SqlJson (pp_socials req)))
    (push_field separates "avatar_url" (SqlText <$> pp_avatar_url req)
    (push_field separates "bio" (SqlText <$> pp_bio req)
    (push_field separates "display_name" ((fun n => SqlText (Text.trim n)) <$> pp_display_name req)
      (mkSeparated [] false)))))).

(** The grammar of the list: assignments of a placeholder or of [NOW()], separated by
    single commas. *)
Inductive Assignment := Assign (c : string) (v : SqlValue) | AssignNow.
Fixpoint parse_set (l : list Piece) : option (list Assignment) :=
  match l with
  | [Column c; Placeholder v] => Some [Assign c v]
  | Column c :: Placeholder v :: Comma :: l => cons (Assign c v) <$> parse_set l
  | [SetNow] => Some [AssignNow]
  | SetNow :: Comma :: l => cons AssignNow <$> parse_set l
  | _ => None
  end.
Definition assign (now : Z) (a : Assignment) (p : OrganizerProfile) : OrganizerProfile :=
  match a with
  | Assign "display_name"%string (SqlText s) => p <| op_display_name := s |>
  | Assign "bio"%string (SqlText s) => p <| op_bio := Some s |>
  | Assign "avatar_url"%string (SqlText s) => p <| op_avatar_url := Some s |>
  | Assign "socials"%string (SqlJson j) => p <| op_socials := j |>
  | Assign _ _ => p
  | AssignNow => p <| op_updated_at := now |>
  end.

(** ** Queries *)
Definition owned_by_wallet (db : EventDb) (wallet : string) (e : Event) : bool :=
  bool_decide (db_organizers db !! e_organizer_id e = Some (Some wallet)).
Definition events_of (db : EventDb) (P : Event -> bool) : list Event := filter P (map_to_list (db_events db)).*2.
(** [organizer_total_events_query]. *)
Definition organizer_total_events (db : EventDb) (wallet : string) : Z :=
  len (events_of db (fun e => owned_by_wallet db wallet e && negb (e_is_flagged e))).
Definition active_upcoming_events (now : Z) (db : EventDb) (wallet : string) : Z :=
  len (events_of db (fun e => owned_by_wallet db wallet e && (now <? e_start_time e))).
Definition followers_of (s : Social) (organizer : string) : gset string :=
  set_map fst (filter (fun k : string * string => k.2 = organizer) (dom (so_follows s))).
Definition following_of (s : Social) (follower : string) : gset string :=
  set_map snd (filter (fun k : string * string => k.1 = follower) (dom (so_follows s))).
Definition count_followers (s : Social) (organizer : string) : Z := Z.of_nat (size (followers_of s organizer)).
Definition count_following (s : Social) (follower : string) : Z := Z.of_nat (size (following_of s follower)).

(** ** Requests *)
Inductive Call :=
  | Upsert (address : string) (q : UpsertProfileRequest)
  | Patch (address : string) (q : PatchProfileRequest)
  | DeleteProfile (address : string)
  | Fetch (address : string) (viewer : option string)
  | Follow (follower organizer : string)
  | Unfollow (follower organizer : string).
Definition target (c : Call) : string :=
  match c with
  | Upsert a _ | Patch a _ | DeleteProfile a | Fetch a _ => a
  | Follow _ o | Unfollow _ o => o
  end.
Inductive Reply := Saved (p : OrganizerProfile) | Deleted | Shown (r : OrganizerProfileResponse) | FollowDone.

(** Where a request stands: before each of its statements, or at its answer. *)
Inductive At :=
  | AtCount | AtWrite | AtDropStats (r : Reply) | AtDropProfile (r : Reply)
  | AtCache | AtProfile | AtEvents (p : OrganizerProfile) | AtFollowers (p : OrganizerProfile) (n : Z)
  | AtFollowing (p : OrganizerProfile) (n m : Z) | AtStore (b : CachedProfileBase) | AtViewer (b : CachedProfileBase)
  | AtOrganizer | AtFollow | AtUnfollow
  | Answered (r : Result AppError Reply).

Definition checked (r : Result AppError unit) (a : At) : At :=
  match r with Ok _ => a | Err e => Answered (Err e) end.
Definition begin (c : Call) : At :=
  match c with
  | Upsert _ q => checked (validate_upsert q) AtWrite
  | Patch _ q => checked (validate_patch q) AtWrite
  | DeleteProfile _ => AtCount
  | Fetch _ _ => AtCache
  | Follow f o => if bool_decide (f = o) then Answered (Err ValidationError) else AtOrganizer
  | Unfollow _ _ => AtUnfollow
  end.

(** The [INSERT ... ON CONFLICT], with the [CHECK]s of the table. *)
Definition upsert_row (now : Z) (address : string) (q : UpsertProfileRequest) (s : Social)
    : Result AppError (OrganizerProfile * Social) :=
  let name := Text.trim (up_display_name q) in
  err_if (50 <? char_count name) DatabaseError;;
  err_if (match up_bio q with Some b => 500 <? char_count b | None => false end) DatabaseError;;
  let p := mkProfile address name (up_bio q) (up_avatar_url q) (up_socials q)
             (match so_profiles s !! address with Some old => op_created_at old | None => now end) now in
  Ok (p, s <| so_profiles := <[address := p]> (so_profiles s) |>).
Definition patch_row (separates : bool) (now : Z) (address : string) (q : PatchProfileRequest) (s : Social)
    : Result AppError (OrganizerProfile * Social) :=
  l ← ok_or (parse_set (patch_statement separates q)) DatabaseError;
  old ← ok_or (so_profiles s !! address) NotFound;
  let p := foldl (fun p a => assign now a p) old l in
  err_if (50 <? char_count (op_display_name p)) DatabaseError;;
  err_if (match op_bio p with Some b => 500 <? char_count b | None => false end) DatabaseError;;
  Ok (p, s <| so_profiles := <[address := p]> (so_profiles s) |>).
(** The [DELETE], which cascades to the follows of the organizer and to its keys. *)
Definition delete_row (address : string) (s : Social) : Social :=
  s <| so_profiles := delete address (so_profiles s) |>
    <| so_follows := filter (fun p => p.1.2 <> address) (so_follows s) |>
    <| so_keys := filter (fun p => ak_organizer p.2 <> address) (so_keys s) |>.
Definition write_row (separates : bool) (now : Z) (c : Call) (s : Social) : Result AppError (Reply * Social) :=
  match c with
  | Upsert a q => r ← upsert_row now a q s; Ok (Saved r.1, r.2)
  | Patch a q => r ← patch_row separates now a q s; Ok (Saved r.1, r.2)
  | DeleteProfile a => Ok (Deleted, delete_row a s)
  | _ => Err InternalServerError
  end.

Definition is_following (up : bool) (address : string) (viewer : option string) (s : Social) : bool :=
  match viewer with
  | Some v => negb (bool_decide (v = address)) && up && bool_decide ((v, address) ∈ dom (so_follows s))
  | None => false
  end.
Definition viewer_of (c : Call) : option string := match c with Fetch _ v => v | _ => None end.
Definition follower_of (c : Call) : string := match c with Follow f _ | Unfollow f _ => f | _ => ""%string end.

(** One statement of a request; the tables of events are those of the moment. *)
Definition social_step (separates : bool) (now : Z) (up : bool) (db : EventDb) (c : Call) (a : At) (s : Social)
    : At * Social :=
  let address := target c in
  let need x := if up then x else (Answered (Err DatabaseError), s) in
  match a with
  | AtCount => need (checked (validate_profile_deletion (active_upcoming_events now db address)) AtWrite, s)
  | AtWrite => need (match write_row separates now c s with
                     | Ok (r, s) => (AtDropStats r, s)
                     | Err e => (Answered (Err e), s)
                     end)
  | AtDropStats r => (AtDropProfile r, if up then s <| so_stats := delete address (so_stats s) |> else s)
  | AtDropProfile r => (Answered (Ok r), if up then s <| so_cache := delete address (so_cache s) |> else s)
  | AtCache => (match (if up then cache_get now (so_cache s !! address) else None) with
                | Some b => AtViewer b
                | None => AtProfile
                end, s)
  | AtProfile => need (match so_profiles s !! address with
                       | Some p => AtEvents p
                       | None => Answered (Err NotFound)
                       end, s)
  | AtEvents p => need (AtFollowers p (organizer_total_events db address), s)
  | AtFollowers p n => (AtFollowing p n (if up then count_followers s address else 0), s)
  | AtFollowing p n m => (AtStore (mkBase p n m (if up then count_following s address else 0)), s)
  | AtStore b => (AtViewer b, if up then s <| so_cache := <[address := (now + PROFILE_CACHE_TTL, b)]> (so_cache s) |>
                              else s)
  | AtViewer b => (Answered (Ok (Shown (mkProfileResponse b (is_following up address (viewer_of c) s)))), s)
  | AtOrganizer => need (if bool_decide (is_Some (so_profiles s !! address)) then AtFollow
                         else Answered (Err NotFound), s)
  | AtFollow =>
      need (if bool_decide (is_Some (so_profiles s !! address)) then
              (Answered (Ok FollowDone),
               match so_follows s !! (follower_of c, address) with
               | Some _ => s
               | None => s <| so_follows := <[(follower_of c, address) := now]> (so_follows s) |>
               end)
            else (Answered (Err DatabaseError), s))
  | AtUnfollow =>
      need (match so_follows s !! (follower_of c, address) with
            | Some _ => (Answered (Ok FollowDone),
                         s <| so_follows := delete (follower_of c, address) (so_follows s) |>)
            | None => (Answered (Err NotFound), s)
            end)
  | Answered r => (Answered r, s)
  end.

(** Requests in flight, each with the time it came at. *)
Record Flight := mkFlight { fl_since : Z; fl_call : Call; fl_at : At }.
#[export] Instance Flight_eta : Eta Flight := fun f => mkFlight (fl_since f) (fl_call f) (fl_at f).
Inductive Move :=
  | Arrives (now : Z) (c : Call)
  | Moves (i : nat) (now : Z) (up : bool) (db : EventDb).
Definition time_of (m : Move) : Z := match m with Arrives t _ | Moves _ t _ _ => t end.

Definition move (separates : bool) (m : Move) (s : Social * list Flight) : Social * list Flight :=
  match m with
  | Arrives now c => (s.1, s.2 ++ [mkFlight now c (begin c)])
  | Moves i now up db =>
      match s.2 !! i with
      | Some f =>
          let '(a, s') := social_step separates now up db (fl_call f) (fl_at f) s.1 in
          (s', <[i := f <| fl_at := a |>]> s.2)
      | None => s
      end
  end.
Definition moves (separates : bool) (l : list Move) (s : Social * list Flight) : Social * list Flight :=
  foldl (fun s m => move separates m s) s l.

(** One request alone: at most eight statements. *)
Fixpoint alone (n : nat) (separates : bool) (now : Z) (db : EventDb) (c : Call) (a : At) (s : Social) : At * Social :=
  match n with
  | O => (a, s)
  | S n => let '(a, s) := social_step separates now true db c a s in alone n separates now db c a s
  end.
Definition request (now : Z) (db : EventDb) (c : Call) (s : Social) : At * Social :=
  alone 8 true now db c (begin c) s.

(** *** The handlers, each alone *)
Definition authorised (auth : Result AppError string) (now : Z) (db : EventDb) (c : string -> Call) (s : Social)
    : At * Social :=
  match auth with Ok a => request now db (c a) s | Err e => (Answered (Err e), s) end.
Definition upsert_profile auth now db q s := authorised auth now db (fun a => Upsert a q) s.
Definition patch_profile auth now db q s := authorised auth now db (fun a => Patch a q) s.
Definition delete_profile auth now db s := authorised auth now db DeleteProfile s.
Definition get_my_profile auth now db s := authorised auth now db (fun a => Fetch a (Some a)) s.
Definition get_profile_by_address (auth : Result AppError string) now db address s :=
  request now db (Fetch address (match auth with Ok a => Some a | Err _ => None end)) s.
Definition follow_organizer auth now db organizer s := authorised auth now db (fun a => Follow a organizer) s.
Definition unfollow_organizer auth now db organizer s := authorised auth now db (fun a => Unfollow a organizer) s.
Definition get_followers_count (up : bool) (s : Social) (organizer : string) : Result AppError Z :=
  if up then Ok (count_followers s organizer) else Err DatabaseError.

(** ** Statistics *)

(** [SUM] of a [BIGINT] column is a [NUMERIC], which is no [i64]. *)
Inductive SqlNumber := Bigint (n : Z) | Numeric (n : Z).
Definition decode_i64 (n : SqlNumber) : Result AppError Z :=
  match n with Bigint z => Ok z | Numeric _ => Err DatabaseError end.
Definition sum_minted (l : list Event) : SqlNumber := Numeric (sum_by e_minted_tickets l).
Definition average_rating (l : list Event) : Q :=
  let l := filter (fun e => e_count_of_ratings e <> 0) l in
  match l with
  | [] => 0%Q
  | _ => (foldr (fun e q => inject_Z (e_sum_of_ratings e) / inject_Z (e_count_of_ratings e) + q) 0%Q l
          / inject_Z (len l))%Q
  end.
Definition query_stats (db : EventDb) (address : string) : Result AppError OrganizerStats :=
  let l := events_of db (fun e => owned_by_wallet db address e && negb (e_is_flagged e)) in
  total ← decode_i64 (Bigint (len l));
  sold ← decode_i64 (sum_minted l);
  Ok (mkStats total sold (average_rating l)).
Definition get_organizer_stats (now : Z) (cache_up up set_up : bool) (db : EventDb) (address : string) (s : Social)
    : Result AppError OrganizerStats * Social :=
  match (if cache_up then cache_get now (so_stats s !! address) else None) with
  | Some stats => (Ok stats, s)
  | None =>
      match (if up then query_stats db address else Err DatabaseError) with
      | Err e => (Err e, s)
      | Ok stats =>
          (Ok stats, if set_up then s <| so_stats := <[address := (now + STATS_CACHE_TTL, stats)]> (so_stats s) |> else s)
      end
  end.

(** ** Lists *)
Definition newest_follow (s : Social) (follower a b : string) : Prop :=
  default 0 (so_follows s !! (follower, b)) <= default 0 (so_follows s !! (follower, a)).
#[export] Instance newest_follow_dec s f a b : Decision (newest_follow s f a b) := Z_le_dec _ _.
(** The profiles a follower follows; the order among equal times is the database's. *)
Definition list_following (auth : Result AppError string) (params : PaginationParams) (s : Social)
    : Result AppError (list OrganizerProfile * PaginationMeta) :=
  follower ← auth;
  let v := TicketQr.validate params in
  let rows := merge_sort (newest_follow s follower) (elements (following_of s follower)) in
  Ok (page_of v (omap (fun a => so_profiles s !! a) rows), metadata v (count_following s follower)).

(** A transaction with its ticket and the tier of the ticket. *)
Record WalletTransaction := mkTransaction {
  wt_id : Uuid; wt_amount : Z; wt_status : string; wt_created_at : Z; wt_buyer_wallet : option string;
  wt_event_id : option Uuid; wt_tier_event_id : option Uuid;
}.
Record TransactionSummary := mkSummary {
  ts_id : Uuid; ts_event_id : option Uuid; ts_amount : Z; ts_status : string; ts_created_at : Z;
}.
Definition summary_of (t : WalletTransaction) : TransactionSummary :=
  mkSummary (wt_id t) (match wt_event_id t with Some e => Some e | None => wt_tier_event_id t end) (wt_amount t)
    (wt_status t) (wt_created_at t).
Definition latest_transaction (a b : WalletTransaction) : Prop := wt_created_at b <= wt_created_at a.
#[export] Instance latest_transaction_dec a b : Decision (latest_transaction a b) := Z_le_dec _ _.
Definition list_my_transactions (auth : Result AppError string) (params : PaginationParams)
    (table : list WalletTransaction) : Result AppError (list TransactionSummary * PaginationMeta) :=
  address ← auth;
  let v := TicketQr.validate params in
  let rows := filter (fun t => wt_buyer_wallet t = Some address) table in
  Ok (summary_of <$> page_of v (merge_sort latest_transaction rows), metadata v (len rows)).

(** The listings by start: one more row than the page has. *)
Definition start_key (e : Event) : Z * Z := (e_start_time e, e_id e).
Definition rows_by_start (P : Event -> bool) (v : ValidatedCursorParams) (cursor : option EventCursor) (db : EventDb)
    : list Event :=
  let rows := events_of db (fun e => P e
                && beyond (Asc, Asc) ((fun c => (ec_start_time c, ec_id c)) <$> cursor) (start_key e)) in
  read_event db StartTime <$> take (Z.to_nat (query_limit v)) (order_by start_key (Asc, Asc) rows).
Definition ends_later (now : Z) (e : Event) : bool :=
  match e_end_time e with Some t => now <? t | None => false end.
Definition of_organizer (now : Z) (owner : option Uuid) (e : Event) : bool :=
  bool_decide (owner = Some (e_organizer_id e)) && ends_later now e.
Definition of_followed (now : Z) (db : EventDb) (s : Social) (follower : string) (e : Event) : bool :=
  match db_organizers db !! e_organizer_id e with
  | Some (Some w) => bool_decide (is_Some (so_follows s !! (follower, w)))
  | _ => false
  end && negb (e_is_flagged e) && ends_later now e.

Section Listings.
Context `{Base64} `{cursor_pagination.Json EventCursor}.

Definition list_events_by_organizer (now : Z) (address : string) (params : CursorParams) (db : EventDb)
    : Result AppError (CursorResponse Event) :=
  let v := validate params in
  cursor ← decode_opt (vc_cursor v);
  owner ← owner_of db (Some address);
  p ← split_page (page_size v) (fun e => Some (cursor_of_event e))
        (rows_by_start (of_organizer now (default None owner)) v cursor db);
  mret (new (populate_is_free db <$> p.1) v p.2).

(** Here a cursor that cannot be written is left out. *)
Definition list_following_events (now : Z) (auth : Result AppError string) (params : CursorParams)
    (db : EventDb) (s : Social) : Result AppError (CursorResponse Event) :=
  follower ← auth;
  let v := validate params in
  cursor ← decode_opt (vc_cursor v);
  let rows := rows_by_start (of_followed now db s follower) v cursor db in
  let p := match split_page (page_size v) (fun e => Some (cursor_of_event e)) rows with
           | Ok p => p
           | Err _ => (take (length rows - 1) rows, None)
           end in
  mret (new (populate_is_free db <$> p.1) v p.2).
End Listings.

(** ** Notifications: one row per follower, if there is a table to take it *)
Record Notification := mkNotification { no_recipient : string; no_event : Uuid; no_organizer : string }.
Definition notify_followers_on_new_event (up table : bool) (organizer : string) (event : Uuid) (s : Social)
    : list Notification :=
  if up && table then (fun f => mkNotification f event organizer) <$> elements (followers_of s organizer) else [].

(** ** Lengths *)
Lemma trim_start_length l : (length (trim_start l) <= length l)%nat.
Proof.
  induction l as [l IH] using (well_founded_induction (Wf_nat.well_founded_ltof _ length)). unfold Wf_nat.ltof in IH.
  destruct l as [|a [|b [|c l]]]; cbn [trim_start]; repeat case_match; cbn [length]; try lia;
    try (etransitivity; [apply IH; cbn; lia|cbn; lia]).
Qed.
Lemma trim_rev_length l : (length (trim_rev l) <= length l)%nat.
Proof.
  induction l as [l IH] using (well_founded_induction (Wf_nat.well_founded_ltof _ length)). unfold Wf_nat.ltof in IH.
  destruct l as [|a [|b [|c l]]]; cbn [trim_rev]; repeat case_match; cbn [length]; try lia;
    try (etransitivity; [apply IH; cbn; lia|cbn; lia]).
Qed.
Lemma length_chars s : length (chars_of s) = String.length s.
Proof. unfold chars_of. induction s as [|c s IH]; cbn; [done|by rewrite IH]. Qed.
Lemma length_text l : String.length (text_of l) = length l.
Proof. by rewrite <- length_chars, chars_text. Qed.
Lemma trim_length s : (String.length (Text.trim s) <= String.length s)%nat.
Proof.
  unfold Text.trim. rewrite length_text, length_rev. etransitivity; [apply trim_rev_length|].
  rewrite length_rev, <- length_chars. apply trim_start_length.
Qed.
Lemma char_count_le s : char_count s <= Z.of_nat (String.length s).
Proof. unfold char_count. rewrite <- length_chars. apply Nat2Z.inj_le, length_filter. Qed.

(** ** Rows that the validation lets through *)
Record valid_profile (address : string) (p : OrganizerProfile) : Prop := mkValid {
  va_address : op_address p = address;
  va_name : op_display_name p <> ""%string /\ (String.length (op_display_name p) <= MAX_DISPLAY_NAME)%nat;
  va_bio : forall b, op_bio p = Some b -> (String.length b <= MAX_BIO)%nat;
  va_avatar : forall u, op_avatar_url p = Some u -> validate_avatar_url u = Ok tt;
  va_socials : validate_socials (op_socials p) = Ok tt;
}.

Lemma result_unit {E} (r : Result E unit) u : r = Ok u -> r = Ok tt.
Proof. by destruct u. Qed.
Lemma check_name_valid n u : check_name n = Ok u ->
  Text.trim n <> ""%string /\ (String.length (Text.trim n) <= MAX_DISPLAY_NAME)%nat.
Proof.
  unfold check_name. intros H. oks. pose proof (trim_length n). unfold is_empty in *. nats. split; [done|lia].
Qed.
Lemma check_bio_valid b u : check_bio b = Ok u -> (String.length b <= MAX_BIO)%nat.
Proof. unfold check_bio. intros H. oks. nats. lia. Qed.
Lemma if_given_Ok {A} (o : option A) check u a : if_given o check = Ok u -> o = Some a -> check a = Ok tt.
Proof. intros H ->. cbn in H. by eapply result_unit. Qed.

Lemma upsert_valid now a q s p s' : validate_upsert q = Ok tt -> upsert_row now a q s = Ok (p, s') ->
  valid_profile a p /\ s' = s <| so_profiles := <[a := p]> (so_profiles s) |>.
Proof.
  unfold validate_upsert, upsert_row. intros Hv H. oks. injection H as <- <-. split; [|done].
  split; cbn; [done|by eapply check_name_valid| | |by eapply result_unit].
  - intros b Hb. by eapply check_bio_valid, if_given_Ok.
  - intros u Hu. by eapply if_given_Ok.
Qed.

Definition patched (now : Z) (q : PatchProfileRequest) (p : OrganizerProfile) : OrganizerProfile :=
  mkProfile (op_address p) (default (op_display_name p) (Text.trim <$> pp_display_name q))
    (match pp_bio q with Some b => Some b | None => op_bio p end)
    (match pp_avatar_url q with Some u => Some u | None => op_avatar_url p end)
    (if is_null (pp_socials q) then op_socials p else pp_socials q) (op_created_at p) now.

Lemma parse_patch separates now q l p : parse_set (patch_statement separates q) = Some l ->
  foldl (fun p a => assign now a p) p l = patched now q p.
Proof.
  unfold patch_statement, patched. destruct p, q as [[n|] [b|] [u|] j], separates; destruct (is_null j) eqn:Hj; cbn;
    rewrite ?Hj; intros [= <-]; cbn; by rewrite ?Hj.
Qed.
(** With the separator before every placeholder the list is no list of assignments. *)
Lemma parse_refused q : validate_patch q = Ok tt -> parse_set (patch_statement true q) = None.
Proof.
  unfold validate_patch, patch_statement. destruct q as [[n|] [b|] [u|] j]; destruct (is_null j) eqn:Hj; intros Hv;
    first [reflexivity | cbn in Hv; by rewrite Hj in Hv | cbn; by rewrite Hj].
Qed.

Lemma patch_valid separates now a q s p s' : validate_patch q = Ok tt -> map_Forall valid_profile (so_profiles s) ->
  patch_row separates now a q s = Ok (p, s') ->
  valid_profile a p /\ s' = s <| so_profiles := <[a := p]> (so_profiles s) |>.
Proof.
  unfold patch_row. intros Hv Hs H. oks. injection H as <- <-. split; [|done].
  match goal with Hl : parse_set _ = Some _ |- _ => rewrite (parse_patch _ _ _ _ _ Hl) end.
  match goal with Ho : so_profiles s !! a = Some ?old |- _ => destruct (Hs a old Ho) as [Ha Hn Hb Hu Hj] end.
  unfold validate_patch in Hv. oks. unfold patched. split; cbn; [done| | | |].
  - destruct (pp_display_name q) eqn:Hq; cbn; [|done]. by eapply check_name_valid.
  - intros b. destruct (pp_bio q) eqn:Hq; cbn; [|apply Hb]. intros [= <-]. by eapply check_bio_valid.
  - intros u. destruct (pp_avatar_url q) eqn:Hq; cbn; [|apply Hu]. intros [= <-]. by eapply result_unit.
  - destruct (is_null (pp_socials q)); [done|]. by eapply result_unit.
Qed.

(** ** The tables and the requests in flight *)
Record sound (s : Social) : Prop := mkSound {
  sd_profiles : map_Forall valid_profile (so_profiles s);
  sd_cache : map_Forall (fun a e => valid_profile a (cb_profile e.2)) (so_cache s);
  sd_follows : map_Forall (fun k _ => k.1 <> k.2 /\ is_Some (so_profiles s !! k.2)) (so_follows s);
}.
(** What a request has checked before a statement. *)
Definition on_course (c : Call) (a : At) : Prop :=
  match a with
  | AtWrite => match c with
               | Upsert _ q => validate_upsert q = Ok tt
               | Patch _ q => validate_patch q = Ok tt
               | DeleteProfile _ => True
               | _ => False
               end
  | AtCount => exists a, c = DeleteProfile a
  | AtOrganizer | AtFollow => exists f o, c = Follow f o /\ f <> o
  | AtEvents p | AtFollowers p _ | AtFollowing p _ _ => valid_profile (target c) p
  | AtStore b | AtViewer b => valid_profile (target c) (cb_profile b)
  | AtDropStats (Shown r) | AtDropProfile (Shown r) | Answered (Ok (Shown r)) =>
      valid_profile (target c) (cb_profile (pr_base r))
  | _ => True
  end.

Lemma begin_on_course c : on_course c (begin c).
Proof.
  destruct c as [a q|a q|a|a v|f o|f o]; cbn; eauto.
  - by destruct (validate_upsert q) as [[]|] eqn:Hq.
  - by destruct (validate_patch q) as [[]|] eqn:Hq.
  - case_bool_decide; cbn; eauto.
Qed.

Lemma insert_sound a p s : sound s -> valid_profile a p -> sound (s <| so_profiles := <[a := p]> (so_profiles s) |>).
Proof.
  intros [Hp Hc Hf] Hv. split; cbn; [by apply map_Forall_insert_2|done|].
  intros k t Hk. destruct (Hf k t Hk) as [Hne Hs]. split; [done|].
  destruct (decide (a = k.2)) as [->|]; [by rewrite lookup_insert_eq|by rewrite lookup_insert_ne].
Qed.
Lemma delete_sound a s : sound s -> sound (delete_row a s).
Proof.
  intros [Hp Hc Hf]. split; cbn; [by apply map_Forall_delete|done|].
  intros k t [Hk Hne]%map_lookup_filter_Some. destruct (Hf k t Hk) as [Hd Hs]. split; [done|].
  by rewrite lookup_delete_ne.
Qed.
Lemma write_sound separates now c s r s' : sound s -> on_course c AtWrite ->
  write_row separates now c s = Ok (r, s') -> sound s' /\ match r with Shown _ => False | _ => True end.
Proof.
  intros Hs Hc H. destruct c as [a q|a q|a|a v|f o|f o]; cbn in *; try done.
  - oks. destruct x as [p s1]. injection H as <- <-. cbn. apply upsert_valid in H0 as [Hv ->]; [|done].
    split; [by apply insert_sound|done].
  - oks. destruct x as [p s1]. injection H as <- <-. cbn. apply patch_valid in H0 as [Hv ->]; [|done|apply Hs].
    split; [by apply insert_sound|done].
  - injection H as <- <-. split; [by apply delete_sound|done].
Qed.

Lemma step_sound separates now up db c a s a' s' :
  sound s -> on_course c a -> social_step separates now up db c a s = (a', s') -> sound s' /\ on_course c a'.
Proof.
  intros Hs Hc. pose proof Hs as [Hp Hch Hf]. destruct a; cbn [social_step]; intros H.
  - destruct up; injection H as <- <-; [|done]. split; [done|]. destruct Hc as [a0 ->].
    unfold validate_profile_deletion. by destruct (0 <? _).
  - destruct up; [|by injection H as <- <-]. destruct (write_row _ _ _ _) as [[r s1]|e] eqn:Hw; injection H as <- <-; [|done].
    apply write_sound in Hw as [? Hr]; [|done..]. split; [done|]. by destruct r.
  - injection H as <- <-. split; [|done]. by destruct up.
  - injection H as <- <-. split; [|by destruct r]. destruct up; [|done]. split; cbn; [done|by apply map_Forall_delete|done].
  - injection H as <- <-. split; [done|]. destruct up; [|done]. unfold cache_get.
    destruct (so_cache s !! target c) as [[t b]|] eqn:He; [|done]. destruct (now <? t); [|done]. exact (Hch _ _ He).
  - destruct up; injection H as <- <-; [|done]. split; [done|]. case_match; [|done]. cbn. by apply Hp.
  - destruct up; by injection H as <- <-.
  - by injection H as <- <-.
  - by injection H as <- <-.
  - injection H as <- <-. split; [|done]. destruct up; [|done]. split; cbn; [done|by apply map_Forall_insert_2|done].
  - by injection H as <- <-.
  - destruct up; injection H as <- <-; [|done]. split; [done|]. by case_bool_decide.
  - destruct up; [|by injection H as <- <-]. case_bool_decide as Hex; injection H as <- <-; [|done]. split; [|done].
    destruct Hc as (f & o & -> & Hne). cbn in *. case_match; [done|]. split; cbn; [done|done|].
    by apply map_Forall_insert_2.
  - destruct up; [|by injection H as <- <-]. case_match; injection H as <- <-; [|done]. split; [|done].
    split; cbn; [done|done|by apply map_Forall_delete].
  - by injection H as <- <-.
Qed.

Lemma move_sound separates m s : sound s.1 /\ Forall (fun f => on_course (fl_call f) (fl_at f)) s.2 ->
  sound (move separates m s).1 /\ Forall (fun f => on_course (fl_call f) (fl_at f)) (move separates m s).2.
Proof.
  intros [Hs Hf]. destruct m as [now c|i now up db]; cbn.
  - split; [done|]. apply Forall_app_2; [done|]. repeat constructor. apply begin_on_course.
  - destruct (s.2 !! i) as [f|] eqn:Hi; [|done]. destruct (social_step _ _ _ _ _ _ _) as [a s'] eqn:Hst.
    pose proof (Forall_lookup_1 _ _ _ _ Hf Hi) as Hc. apply step_sound in Hst as [Hs' Ha]; [|done..].
    split; [done|]. cbn. by apply Forall_insert.
Qed.
Lemma moves_sound separates l : forall s, sound s.1 /\ Forall (fun f => on_course (fl_call f) (fl_at f)) s.2 ->
  sound (moves separates l s).1 /\ Forall (fun f => on_course (fl_call f) (fl_at f)) (moves separates l s).2.
Proof. induction l as [|m l IH]; intros s Hs; [done|]. cbn. apply IH. by apply move_sound. Qed.

(** ** How long a cached profile is shown *)
Definition writes_to (c : Call) (a : string) : Prop :=
  match c with Upsert x _ | Patch x _ | DeleteProfile x => x = a | _ => False end.
Definition answered (a : At) : Prop := match a with Answered _ => True | _ => False end.
(** All entries were stored, and all requests came, until [t]. *)
Definition until (t : Z) (s : Social * list Flight) : Prop :=
  map_Forall (fun _ e => e.1 <= t + PROFILE_CACHE_TTL) (so_cache s.1) /\ Forall (fun f => fl_since f <= t) s.2.

Lemma step_cache separates now up db c a s a' s' k e :
  social_step separates now up db c a s = (a', s') -> so_cache s' !! k = Some e ->
  so_cache s !! k = Some e \/
  exists b, a = AtStore b /\ k = target c /\ e = (now + PROFILE_CACHE_TTL, b).
Proof.
  intros H He. destruct a; cbn [social_step] in H; repeat case_match; simplify_eq; cbn in *; auto.
  all: try match goal with Hw : write_row _ _ ?c _ = Ok _ |- _ => destruct c; cbn in Hw; oks end.
  all: try match goal with x : OrganizerProfile * Social |- _ => destruct x end.
  all: unfold upsert_row, patch_row in *; oks; simplify_eq; cbn in *; auto.
  - apply lookup_delete_Some in He as [_ He]. auto.
  - apply lookup_insert_Some in He as [[<- <-]|[_ He]]; eauto.
Qed.
Lemma step_profiles separates now up db c a s a' s' x :
  social_step separates now up db c a s = (a', s') -> (a = AtWrite -> ~ writes_to c x) ->
  so_profiles s' !! x = so_profiles s !! x.
Proof.
  intros H Hw. destruct a; cbn [social_step] in H; repeat case_match; simplify_eq; try done.
  specialize (Hw eq_refl). destruct c; cbn in *; oks; try done.
  - destruct x0. unfold upsert_row in *. oks. simplify_eq. cbn. by rewrite lookup_insert_ne.
  - destruct x0. unfold patch_row in *. oks. simplify_eq. cbn. by rewrite lookup_insert_ne.
  - simplify_eq. cbn. by rewrite lookup_delete_ne.
Qed.

Lemma moves_until separates t l : forall s, Forall (fun m => time_of m <= t) l -> until t s -> until t (moves separates l s).
Proof.
  induction l as [|m l IH]; intros s Hl Hs; [done|]. inversion_clear Hl as [|?? Hm Hl']. cbn. apply IH; [done|].
  destruct Hs as [Hc Hf]. destruct m as [now c|i now up db]; cbn in *.
  - split; [done|]. apply Forall_app_2; [done|]. by repeat constructor.
  - destruct (s.2 !! i) as [f|] eqn:Hi; [|by split]. destruct (social_step _ _ _ _ _ _ _) as [a s'] eqn:Hst. split; cbn.
    + intros k e He. destruct (step_cache _ _ _ _ _ _ _ _ _ _ _ Hst He) as [He'|(b & _ & -> & ->)]; [by apply (Hc k)|cbn; lia].
    + apply Forall_insert; [done|]. cbn. exact (Forall_lookup_1 _ _ _ _ Hf Hi).
Qed.

(** Which requests have which stages. *)
Definition staged (c : Call) (a : At) : Prop :=
  match a with
  | Answered _ => True
  | AtCache | AtProfile | AtEvents _ | AtFollowers _ _ | AtFollowing _ _ _ | AtStore _ | AtViewer _ =>
      exists y v, c = Fetch y v
  | _ => forall y v, c <> Fetch y v
  end.
Lemma begin_staged c : staged c (begin c).
Proof.
  destruct c; cbn; eauto; unfold checked; repeat case_match; try done.
Qed.
Lemma step_staged separates now up db c a s a' s' :
  social_step separates now up db c a s = (a', s') -> staged c a -> staged c a'.
Proof.
  intros H Hs. destruct a; cbn [social_step] in H; unfold checked in H; repeat case_match; simplify_eq; done.
Qed.

Section Converges.
Variables (separates : bool) (x : string) (row : option OrganizerProfile) (limit : Z).

(** A request for the profile of [x] holds the row, unless it came before [limit]. *)
Definition holds_row (since : Z) (c : Call) (a : At) : Prop :=
  match a with
  | AtEvents p | AtFollowers p _ | AtFollowing p _ _ => Some p = row
  | AtStore b => Some (cb_profile b) = row
  | AtViewer b => limit <= since -> Some (cb_profile b) = row
  | Answered (Ok (Shown r)) => limit <= since -> Some (cb_profile (pr_base r)) = row
  | Answered (Err NotFound) => match c with Fetch _ _ => limit <= since -> row = None | _ => True end
  | _ => True
  end.
Definition flight_holds (t : Z) (f : Flight) : Prop :=
  fl_since f <= t /\ (writes_to (fl_call f) x -> answered (fl_at f)) /\ staged (fl_call f) (fl_at f) /\
  (forall v, fl_call f = Fetch x v -> holds_row (fl_since f) (fl_call f) (fl_at f)).
Record calm (t : Z) (s : Social * list Flight) : Prop := mkCalm {
  ca_row : so_profiles s.1 !! x = row;
  ca_cache : forall e, so_cache s.1 !! x = Some e -> e.1 <= limit \/ Some (cb_profile e.2) = row;
  ca_flights : Forall (flight_holds t) s.2;
}.

Lemma fetch_holds t now up db v since a s a' s' :
  so_profiles s !! x = row -> (forall e, so_cache s !! x = Some e -> e.1 <= limit \/ Some (cb_profile e.2) = row) ->
  since <= t -> t <= now -> holds_row since (Fetch x v) a -> staged (Fetch x v) a ->
  social_step separates now up db (Fetch x v) a s = (a', s') -> holds_row since (Fetch x v) a'.
Proof.
  intros Hr Hc Hs Ht Ha Hf H.
  destruct a; cbn [social_step target] in H; try (by destruct (Hf x v)); try (by injection H as <- <-).
  - injection H as <- <-. destruct up; [|done]. unfold cache_get.
    destruct (so_cache s !! x) as [[exp b]|] eqn:He; [|done]. destruct (Z.ltb_spec now exp); [|done].
    destruct (Hc _ eq_refl) as [Hl|Hl]; cbn in *; intros; [lia|done].
  - destruct up; injection H as <- <-; [|done]. by destruct (so_profiles s !! x); cbn.
  - destruct up; by injection H as <- <-.
  - injection H as <- <-. cbn. by intros _.
Qed.

Lemma move_calm t m s : calm t s -> t <= time_of m -> (forall now c, m = Arrives now c -> ~ writes_to c x) ->
  calm (time_of m) (move separates m s).
Proof.
  intros [Hr Hc Hf] Ht Hm. destruct m as [now c|i now up db]; cbn in *.
  - split; cbn; [done..|]. apply Forall_app_2.
    + eapply Forall_impl; [exact Hf|]. intros f (? & ?). split; [lia|done].
    + constructor; [|done]. split; [done|]. split; [intros Hw; by destruct (Hm now c)|].
      split; [apply begin_staged|]. cbn. by intros v ->.
  - assert (Forall (flight_holds now) s.2) as Hf'.
    { eapply Forall_impl; [exact Hf|]. intros f (? & ?). split; [lia|done]. }
    destruct (s.2 !! i) as [f|] eqn:Hi; [|by split]. destruct (social_step _ _ _ _ _ _ _) as [a s'] eqn:Hst.
    destruct (Forall_lookup_1 _ _ _ _ Hf Hi) as (Hs & Hw & Hg & Hh). split; cbn.
    + rewrite (step_profiles _ _ _ _ _ _ _ _ _ x Hst); [done|]. intros Ha Hx. apply Hw in Hx. by rewrite Ha in Hx.
    + intros e He. destruct (step_cache _ _ _ _ _ _ _ _ _ _ _ Hst He) as [He'|(b & Hb & Hx & ->)]; [by apply Hc|].
      right. rewrite Hb in Hg. destruct Hg as (y & v & Hy). rewrite Hy in Hx. cbn in Hx. subst y.
      specialize (Hh v Hy). rewrite Hb in Hh. exact Hh.
    + apply Forall_insert; [done|]. unfold flight_holds. cbn. split; [lia|]. split; [|split].
      * intros Hx. specialize (Hw Hx). destruct (fl_at f); try done. cbn in Hst. by injection Hst as <- <-.
      * by eapply step_staged.
      * intros v Hv. rewrite Hv in *. eapply (fetch_holds t now); try done. by apply (Hh v).
Qed.
Lemma moves_calm l : forall t s, calm t s -> StronglySorted (fun m n => time_of m <= time_of n) l ->
  Forall (fun m => t <= time_of m /\ forall now c, m = Arrives now c -> ~ writes_to c x) l ->
  exists t', calm t' (moves separates l s).
Proof.
  induction l as [|m l IH]; intros t s Hs Hl Hm; [by exists t|]. inversion_clear Hl as [|?? Hl' Hle].
  inversion_clear Hm as [|?? [Ht Hw] Hm']. apply (IH (time_of m)); [by apply (move_calm t)|done|].
  rewrite Forall_forall in Hm', Hle |- *. intros n Hn. split; [by apply Hle|by apply Hm'].
Qed.
End Converges.

(** ** The theorems *)

(** C38: the tables stay in order: after any interleaving of requests, each of them stopped
    or failing anywhere, every stored and every cached profile has passed the validation,
    nobody follows themselves, only organizers with a profile are followed, and what
    a request is shown is a valid profile of the address it asked for. *)
Theorem profiles_sound separates l s :
  sound s -> let r := moves separates l (s, []) in
  sound r.1 /\
  forall i f resp, r.2 !! i = Some f -> fl_at f = Answered (Ok (Shown resp)) ->
    valid_profile (target (fl_call f)) (cb_profile (pr_base resp)).
Proof.
  intros Hs r. destruct (moves_sound separates l (s, [])) as [Hr Hf]; [by split|]. split; [done|].
  intros i f resp Hi Ha. pose proof (Forall_lookup_1 _ _ _ _ Hf Hi) as Hc. cbn beta in Hc. by rewrite Ha in Hc.
Qed.


(** A partial update never succeeds: the builder writes a separator between a column
    and its placeholder, and the database refuses the statement. *)
Theorem patch_never_succeeds auth now db q s :
  let r := patch_profile auth now db q s in
  (exists e, r.1 = Answered (Err e)) /\ r.2 = s.
Proof.
  unfold patch_profile, authorised. destruct auth as [a|e]; [|by eauto].
  cbn. destruct (validate_patch q) as [[]|e] eqn:Hq; cbn; [|by eauto].
  unfold patch_row. rewrite parse_refused by done. cbn. by eauto.
Qed.
(** Without the separator it would update exactly the fields that were sent. *)
Theorem patch_exact now a q s p : so_profiles s !! a = Some p -> validate_patch q = Ok tt -> valid_profile a p ->
  exists l, parse_set (patch_statement false q) = Some l /\ foldl (fun p a => assign now a p) p l = patched now q p.
Proof.
  intros Ha Hq Hp. assert (exists l, parse_set (patch_statement false q) = Some l) as [l Hl].
  { unfold patch_statement. destruct q as [[n|] [b|] [u|] j]; destruct (is_null j) eqn:Hj; cbn; rewrite ?Hj; eexists; reflexivity. }
  exists l. split; [done|]. by apply (parse_patch false).
Qed.

(** The statistics of an organizer are never computed: the sum of a [BIGINT] column does
    not decode. *)
Theorem stats_unavailable now cache_up up set_up db a s : so_stats s !! a = None ->
  get_organizer_stats now cache_up up set_up db a s = (Err DatabaseError, s).
Proof. intros Ha. unfold get_organizer_stats. rewrite Ha. by destruct cache_up, up. Qed.

Lemma followers_insert f o t s :
  followers_of (s <| so_follows := <[(f, o) := t]> (so_follows s) |>) o = {[f]} ∪ followers_of s o.
Proof.
  unfold followers_of. cbn. rewrite dom_insert_L. apply set_eq. intros y. rewrite elem_of_union, elem_of_singleton, !elem_of_map.
  setoid_rewrite elem_of_filter. setoid_rewrite elem_of_union. setoid_rewrite elem_of_singleton. split.
  - intros (k & -> & Ho & [->|Hk]); eauto.
  - intros [->|(k & -> & Ho & Hk)]; [exists (f, o); auto|eauto 10].
Qed.
Lemma alone_answered n separates now db c r s : alone n separates now db c (Answered r) s = (Answered r, s).
Proof. induction n as [|n IH]; [done|]. apply IH. Qed.
Lemma alone_step n separates now db c a s a' s' : social_step separates now true db c a s = (a', s') ->
  alone (S n) separates now db c a s = alone n separates now db c a' s'.
Proof. intros H. cbn. by rewrite H. Qed.
Lemma follow_alone now db f o s : so_follows s !! (f, o) = None -> is_Some (so_profiles s !! o) -> f <> o ->
  request now db (Follow f o) s
  = (Answered (Ok FollowDone), s <| so_follows := <[(f, o) := now]> (so_follows s) |>).
Proof.
  intros Hf Hp Hne. unfold request. cbn [begin]. rewrite bool_decide_false by done.
  rewrite (alone_step 7 _ _ _ _ _ _ AtFollow s) by (cbn; by rewrite bool_decide_true).
  erewrite (alone_step 6) by (cbn; rewrite bool_decide_true, Hf by done; reflexivity). apply alone_answered.
Qed.
(** Following and unfollowing restores the tables, and the count is that of the
    followers. *)
Theorem follow_counts now db f o s : so_follows s !! (f, o) = None -> is_Some (so_profiles s !! o) -> f <> o ->
  let r := request now db (Follow f o) s in
  r.1 = Answered (Ok FollowDone) /\ count_followers r.2 o = count_followers s o + 1 /\
  request now db (Unfollow f o) r.2 = (Answered (Ok FollowDone), s).
Proof.
  intros Hf Hp Hne. rewrite follow_alone by done. cbn [fst snd]. split; [done|]. split.
  - unfold count_followers. rewrite followers_insert, size_union_alt, size_singleton, difference_disjoint_L; [lia|].
    apply disjoint_singleton_r. unfold followers_of. intros ([f' o'] & Hk & [Ho Hd]%elem_of_filter)%elem_of_map.
    cbn in *. subst. apply elem_of_dom in Hd as [? ?]. congruence.
  - unfold request. cbn [begin]. rewrite (alone_step 7 _ _ _ _ _ _ (Answered (Ok FollowDone)) s); [apply alone_answered|].
    cbn. rewrite lookup_insert_eq. rewrite delete_insert_id by done. by destruct s.
Qed.

(** ** Pages *)
Section Pages.
Context `{Base64} `{cursor_pagination.Json EventCursor} `{!CursorLaws EventCursor}.

Lemma rows_rest P v (c' : option EventCursor) (c : option Event) db :
  0 <= vc_limit v -> NoDup (start_key <$> events_of db P) ->
  (fun c => (ec_start_time c, ec_id c)) <$> c' = start_key <$> c ->
  rows_by_start P v c' db
  = read_event db StartTime <$> take (S (page_size v)) (rest_of start_key (Asc, Asc) (events_of db P) c).
Proof.
  intros Hv Hnd Hc. unfold rows_by_start, events_of in *. rewrite Hc.
  rewrite <- (filter_both (fun e => beyond (Asc, Asc) (start_key <$> c) (start_key e)) P).
  rewrite order_by_filter by done. by rewrite query_limit_size.
Qed.

Definition page_cursor (db : EventDb) (e : Event) : option EventCursor :=
  Some (cursor_of_event (read_event db StartTime e)).

(** A listing that makes its pages from [rows_by_start]. *)
Lemma start_pages {St} (show : Event -> Event) P limit count db (request : option string -> St -> Result AppError (CursorResponse Event) * St) st :
  let size := page_size (validate (mkCursorParams limit None count)) in
  keyed db -> (forall e, e ∈ events_of db P -> is_Some (page_cursor db e ≫= encode_cursor)) ->
  (forall t c' its nx st, decode_opt t = Ok c' ->
     split_page size (fun e => Some (cursor_of_event e))
       (rows_by_start P (validate (mkCursorParams limit t count)) c' db) = Ok (its, nx) ->
     exists r st', request t st = (Ok r, st') /\ cr_items r = show <$> its
       /\ cm_next_cursor (cr_pagination r) = nx) ->
  exists pages, follow request (S (length (events_of db P))) None st = Some pages
    /\ concat pages = (fun e => show (read_event db StartTime e))
                        <$> shown size (order_by start_key (Asc, Asc) (events_of db P))
    /\ Forall (fun p => (length p <= size)%nat) pages.
Proof.
  intros size Hk Henc Hreq.
  assert (NoDup (start_key <$> events_of db P)) as Hnd by (apply NoDup_fmap_filter, ids_unique, Hk).
  assert (forall (c : option Event) (c' : option EventCursor) t st,
    decode_opt t = Ok c' -> (fun c => (ec_start_time c, ec_id c)) <$> c' = start_key <$> c ->
    serves start_key (Asc, Asc) size (page_cursor db) (fun e => show (read_event db StartTime e))
      (events_of db P) request c t st) as Hserve.
  { intros c c' t st' Ht Hc its nx Hs.
    destruct (Hreq t c' (read_event db StartTime <$> its) nx st' Ht) as (r & st1 & Hr & Hi & Hn).
    - rewrite (rows_rest P _ c' c) by (done || apply validate_limit).
      rewrite split_page_fmap.
      change (page_size (validate (mkCursorParams limit t count))) with size. unfold page_cursor in Hs. by rewrite Hs.
    - exists r, st1. split; [done|]. split; [|done]. by rewrite Hi, <- list_fmap_compose. }
  apply (follow_all start_key _ size (page_cursor db)); [done|exact Henc| |].
  - intros e t st' He Ht. apply (Hserve (Some e) (page_cursor db e) (Some t) st'); [|done].
    cbn in Ht |- *. apply decode_encode in Ht. by rewrite Ht.
  - by apply (Hserve None None None).
Qed.

Theorem organizer_pages now limit count address owner db :
  let size := page_size (validate (mkCursorParams limit None count)) in
  let listed := events_of db (of_organizer now (default None owner)) in
  owner_of db (Some address) = Ok owner -> keyed db ->
  (forall e, e ∈ listed -> is_Some (page_cursor db e ≫= encode_cursor)) ->
  exists pages,
    follow (fun t (_ : unit) => (list_events_by_organizer now address (mkCursorParams limit t count) db, tt))
      (S (length listed)) None tt = Some pages
    /\ concat pages = (fun e => populate_is_free db (read_event db StartTime e))
                        <$> shown size (order_by start_key (Asc, Asc) listed)
    /\ Forall (fun p => (length p <= size)%nat) pages.
Proof.
  intros size listed Ho Hk Henc. apply (start_pages (populate_is_free db)); [done..|]. intros t c' its nx st Ht Hs.
  unfold list_events_by_organizer. cbn [vc_cursor validate cp_cursor]. rewrite Ht, Ho. cbn [mbind result_bind].
  change (page_size (validate (mkCursorParams limit t count)))
    with (page_size (validate (mkCursorParams limit None count))).
  rewrite Hs. by eexists _, _.
Qed.

Theorem following_pages now limit count follower db s :
  let size := page_size (validate (mkCursorParams limit None count)) in
  let listed := events_of db (of_followed now db s follower) in
  keyed db -> (forall e, e ∈ listed -> is_Some (page_cursor db e ≫= encode_cursor)) ->
  exists pages,
    follow (fun t (_ : unit) => (list_following_events now (Ok follower) (mkCursorParams limit t count) db s, tt))
      (S (length listed)) None tt = Some pages
    /\ concat pages = (fun e => populate_is_free db (read_event db StartTime e))
                        <$> shown size (order_by start_key (Asc, Asc) listed)
    /\ Forall (fun p => (length p <= size)%nat) pages.
Proof.
  intros size listed Hk Henc. apply (start_pages (populate_is_free db)); [done..|]. intros t c' its nx st Ht Hs.
  unfold list_following_events. cbn [vc_cursor validate cp_cursor mbind result_bind]. rewrite Ht. cbn [mbind result_bind].
  change (page_size (validate (mkCursorParams limit t count)))
    with (page_size (validate (mkCursorParams limit None count))).
  rewrite Hs. by eexists _, _.
Qed.
End Pages.

(** ** Samples *)
Module ProfileSample.
Definition named (n : string) : UpsertProfileRequest := mkUpsert n None None (JObject [("github"%string, JString "agora")]).
Definition nobody : Social := mkSocial ∅ ∅ ∅ ∅ ∅.
Definition no_events : EventDb := mkEventDb ∅ ∅ ∅ ∅.
(** Request [i] makes [n] statements at a time. *)
Definition runs (i n : nat) (t : Z) : list Move := replicate n (Moves i t true no_events).
Definition at_once (i : nat) (t : Z) (c : Call) : list Move := Arrives t c :: runs i 8 t.
Definition names (s : Social * list Flight) : list (option string) :=
  (fun f => match fl_at f with
            | Answered (Ok (Shown r)) => Some (op_display_name (cb_profile (pr_base r)))
            | _ => None
            end) <$> s.2.

Lemma nobody_sound : sound nobody.
Proof. split; apply map_Forall_empty. Qed.

Definition history : list Move :=
  at_once 0 0 (Upsert "GO" (named " Agora ")) ++ at_once 1 1 (Follow "GA" "GO") ++ at_once 2 2 (Fetch "GO" (Some "GA"%string)).
Lemma profiles_sound_witness :
  let r := moves true history (nobody, []) in
  names r = [None; None; Some "Agora"%string] /\ sound r.1 /\
  exists f resp, r.2 !! 2%nat = Some f /\ fl_at f = Answered (Ok (Shown resp)) /\ cb_followers_count (pr_base resp) = 1 /\
    pr_is_following resp = true /\ valid_profile "GO" (cb_profile (pr_base resp)).
Proof.
  destruct (profiles_sound true history nobody nobody_sound) as [Hs Hv].
  split; [by vm_compute|]. split; [exact Hs|].
  eexists _, _. split; [by vm_compute|]. split; [by vm_compute|]. split; [by vm_compute|]. split; [by vm_compute|].
  refine (Hv 2%nat (mkFlight 2 (Fetch "GO" (Some "GA"%string)) _) _ _ eq_refl). by vm_compute.
Defined.

Definition before_ : list Move :=
  at_once 0 0 (Upsert "GO" (named "Old")) ++ at_once 1 10 (Fetch "GO" None) ++ at_once 2 20 (Upsert "GO" (named "New")).
Definition after_ : list Move := at_once 3 620 (Fetch "GO" None).

(** A request that has read the row before an update and stores it after it brings the
    old profile back for ten minutes. *)
Example stale_profile_served :
  names (moves true (at_once 0 0 (Upsert "GO" (named "Old"))
                     ++ Arrives 1 (Fetch "GO" None) :: runs 1 2 1
                     ++ at_once 2 2 (Upsert "GO" (named "New"))
                     ++ runs 1 5 3 ++ at_once 3 602 (Fetch "GO" None)) (nobody, []))
  = [None; Some "Old"; None; Some "Old"]%string.
Proof. by vm_compute. Qed.

Definition followers_shown (s : Social * list Flight) : list (option Z) :=
  (fun f => match fl_at f with
            | Answered (Ok (Shown r)) => Some (cb_followers_count (pr_base r))
            | _ => None
            end) <$> s.2.
(** The cached count of followers does not follow a new follower. *)
Example follower_count_stale :
  followers_shown (moves true (at_once 0 0 (Upsert "GO" (named "Agora")) ++ at_once 1 1 (Fetch "GO" None)
                               ++ at_once 2 2 (Follow "GA" "GO") ++ at_once 3 3 (Fetch "GO" None)) (nobody, []))
  = [None; Some 0; None; Some 0].
Proof. by vm_compute. Qed.
(** A count that failed is cached as zero. *)
Example failed_count_cached :
  followers_shown (moves true (at_once 0 0 (Upsert "GO" (named "Agora")) ++ at_once 1 1 (Follow "GA" "GO")
                               ++ Arrives 2 (Fetch "GO" None) :: runs 2 3 2 ++ Moves 2 2 false no_events :: runs 2 4 2
                               ++ at_once 3 3 (Fetch "GO" None)) (nobody, []))
  = [None; None; Some 0; Some 0].
Proof. by vm_compute. Qed.
(** A flagged event is on the page of its organizer. *)
Example flagged_event_listed :
  of_organizer 0 (Some 7) ((EventPagesSample.event 1 50 9 5) <| e_is_flagged := true |>) = true.
Proof. by vm_compute. Qed.

Definition db : EventDb := EventPagesSample.db <| db_organizers := {[7 := Some "GO"%string]} |>.
#[local] Existing Instance EventPagesSample.base64.
#[local] Existing Instance EventPagesSample.EventCursor_countable.
#[local] Existing Instance EventPagesSample.json.
#[local] Existing Instance EventPagesSample.json_laws.
Lemma organizer_pages_witness :
  exists pages, follow (fun t (_ : unit) => (list_events_by_organizer 0 "GO" (mkCursorParams 2 t true) db, tt)) 6 None tt
      = Some pages /\ e_id <$> concat pages = [5; 4; 2; 1].
Proof.
  destruct (organizer_pages 0 2 true "GO" (Some (Some 7)) db) as (pages & Hp & Hc & _).
  - done.
  - intros id e Hid. apply elem_of_list_to_map_2 in Hid. repeat (apply elem_of_cons in Hid as [[= -> ->]|Hid]; [done|]).
    by apply not_elem_of_nil in Hid.
  - intros e _. by eexists.
  - exists pages. split; [exact Hp|]. rewrite Hc. vm_compute. reflexivity.
Defined.
End ProfileSample.
