(* ===== verification/EventCatalog.v ===== *)
(** * Server: creating, cloning and showing events

    The rest of the core of [handlers/events.rs] and [models/event_translation.rs]:
    validation and creation of events with their translations, clones, the detail page
    with its cache and its language, tiers, counts, categories and the export of
    attendees.  What the migrations make of the tables is an argument ([Schema]): the
    default of the column [slug], the labels of [status], and whether tickets have
    a [quantity].  [up n] says whether the [n]-th statement after the validation is
    answered.  Instants are microseconds.  Digests, the texts of UUIDs, times and JSON
    and the parsing of weights are an interface; weights are finite, and languages are
    lower-cased as ASCII, to which locales are restricted. *)

From stdpp Require Import base tactics numbers list strings pretty gmap sorting.
From Stdlib Require Import QArith_base Ascii.
From S2P Require Import Prelude.
From S2P Require Import ServerPrelude.
From S2P Require Import IndexerEvent.
From S2P Require Import TicketQr.
From S2P Require Import Auth.
From S2P Require Import EventListing.
From S2P Require Import EventPages.
From S2P Require Import Text.
From S2P Require Import Profiles.
Import cursor_pagination.
Open Scope Z_scope.

Abbreviation JsonValue := IndexerEvent.Json.
Class CatalogText := {
  uuid_text : Uuid -> string;
  json_vec : JsonValue -> string;
  sha256_hex : string -> string;
  parse_f32 : string -> option Q;
  rfc3339 : Z -> string;
}.

Definition EVENT_CACHE_TTL : Z := 300.
Definition SECOND : Z := 1000000.
Definition MAX_EVENT_TITLE_LENGTH : Z := 200.
Definition MAX_EVENT_DESCRIPTION_LENGTH : Z := 10000.
Definition MAX_IMAGE_URL_LEN : Z := 2048.
Definition MAX_LOCATION_LENGTH : Z := 500.
Definition MAX_EVENT_DURATION_DAYS : Z := 30.
Definition START_TIME_GRACE_PERIOD_SECONDS : Z := 300.
Definition MAX_TRANSLATION_TITLE_LEN : Z := 500.
Definition MAX_TRANSLATION_DESCRIPTION_LEN : Z := 10000.
Definition MAX_TRANSLATIONS_PER_EVENT : nat := 20.

(** ** Texts *)
Definition lower_ascii (c : ascii) : ascii :=
  if (65 <=? code c) && (code c <=? 90) then ascii_of_N (Z.to_N (code c + 32)) else c.
Definition lowercase (s : string) : string := text_of (lower_ascii <$> chars_of s).
Fixpoint split_on (sep : ascii) (l : chars) : list chars :=
  match l with
  | [] => [[]]
  | c :: l =>
      if Ascii.eqb c sep then [] :: split_on sep l
      else match split_on sep l with p :: ps => (c :: p) :: ps | [] => [[c]] end
  end.
(** What [split(sep).next()] returns. *)
Definition first_part (sep : ascii) (s : string) : string := text_of (hd [] (split_on sep (chars_of s))).
Definition is_alphanumeric (c : ascii) : bool :=
  ((48 <=? code c) && (code c <=? 57)) || ((65 <=? code c) && (code c <=? 90))
  || ((97 <=? code c) && (code c <=? 122)).

(** ** Data *)
Record EventTranslationInput := mkTranslationInput {
  ti_locale : string; ti_title : string; ti_description : option string;
}.
Record EventTranslation := mkTranslation {
  et_id : Uuid; et_event_id : Uuid; et_locale : string; et_title : string; et_description : option string;
  et_created_at : Z;
}.
Record CreateEventRequest := mkCreateEvent {
  cq_organizer_id : Uuid; cq_title : string; cq_description : option string; cq_location : string;
  cq_start_time : Z; cq_end_time : option Z; cq_image_url : option string; cq_host_email : option string;
  cq_latitude : option Q; cq_longitude : option Q; cq_translations : option (list EventTranslationInput);
}.
Record EventDetail := mkDetail {
  ed_event : Event; ed_organizer_profile : option OrganizerProfile;
  ed_tiers : option (list (Uuid * Tier)); ed_translations : option (list EventTranslation);
}.
(** The columns of an event that [Event] does not read. *)
Record EventExtra := mkExtra {
  ex_host_email : option string; ex_cid : option string; ex_status : string; ex_slug : string;
}.
#[export] Instance EventExtra_eta : Eta EventExtra := fun e =>
  mkExtra (ex_host_email e) (ex_cid e) (ex_status e) (ex_slug e).
Record Schema := mkSchema {
  sc_slug : Uuid -> option string; (* the default of the column, NOT NULL and unique *)
  sc_statuses : list string; sc_default_status : string; sc_quantity : bool;
}.
(** What the migrations create. *)
Definition migrations : Schema := mkSchema (fun _ => None) ["DRAFT"; "PUBLISHED"; "CANCELLED"]%string "PUBLISHED" false.

Record Catalog := mkCatalog {
  ca_db : EventDb; ca_extra : gmap Uuid EventExtra;
  ca_translations : gmap (Uuid * string) EventTranslation;
  ca_categories : gset (Uuid * Uuid); (* event, category *)
  ca_profiles : gmap string OrganizerProfile;
  ca_details : gmap Uuid (Z * EventDetail); ca_list : ListCache;
}.
#[export] Instance Catalog_eta : Eta Catalog := fun c =>
  mkCatalog (ca_db c) (ca_extra c) (ca_translations c) (ca_categories c) (ca_profiles c) (ca_details c) (ca_list c).
(** What is started and not awaited. *)
Inductive Effect := NotifyFollowers (wallet : string) (event : Uuid) | DispatchWebhooks (organizer : Uuid) (data : JsonValue).

(** ** Validation *)
Definition validate_event_title (title : string) : Result AppError unit :=
  err_if (is_empty (Text.trim title)) ValidationError;;
  err_if (MAX_EVENT_TITLE_LENGTH <? char_count title) ValidationError.
Definition validate_event_description (description : option string) : Result AppError unit :=
  if_given description (fun d => err_if (MAX_EVENT_DESCRIPTION_LENGTH <? char_count d) ValidationError).
Definition validate_image_url (url : string) : Result AppError unit :=
  err_if (MAX_IMAGE_URL_LEN <? str_len url) ValidationError;;
  err_if (negb (starts_with "https://" url && (8 <? str_len url)
                && negb (starts_with "/" (text_of (drop 8 (chars_of url)))))) ValidationError.
(** [splitn(2, '@')]. *)
Fixpoint split_at_sign (l : chars) : chars * chars :=
  match l with
  | [] => ([], [])
  | c :: l => if Ascii.eqb c "@" then ([], l) else let '(a, b) := split_at_sign l in (c :: a, b)
  end.
Definition is_valid_email (email : string) : bool :=
  let '(local, domain) := split_at_sign (chars_of email) in
  negb (bool_decide (local = [])) && negb (bool_decide (domain = [])) && bool_decide ("."%char ∈ domain)
  && negb (bool_decide (head domain = Some "."%char)) && negb (bool_decide (last domain = Some "."%char)).
Definition validate_event_location (location : string) : Result AppError unit :=
  err_if (is_empty (Text.trim location)) ValidationError;;
  err_if (MAX_LOCATION_LENGTH <? char_count location) ValidationError.
Definition in_range (lo hi x : Q) : bool := Qle_bool lo x && Qle_bool x hi.
Definition validate_event_coordinates (latitude longitude : option Q) : Result AppError unit :=
  match latitude, longitude with
  | None, None => Ok tt
  | Some _, None | None, Some _ => Err ValidationError
  | Some lat, Some lng =>
      err_if (negb (in_range (-90) 90 lat)) ValidationError;;
      err_if (negb (in_range (-180) 180 lng)) ValidationError
  end.
Definition validate_event_timestamps (now start_time : Z) (end_time : option Z) : Result AppError unit :=
  err_if (start_time + START_TIME_GRACE_PERIOD_SECONDS * SECOND <? now) ValidationError;;
  if_given end_time (fun end_ =>
    err_if (end_ <=? start_time) ValidationError;;
    err_if (MAX_EVENT_DURATION_DAYS * 86400 * SECOND <? end_ - start_time) ValidationError).

Definition validate_translation (t : EventTranslationInput) : Result AppError unit :=
  let locale := Text.trim (ti_locale t) in
  err_if (is_empty locale || (20 <? str_len locale)) ValidationError;;
  err_if (negb (forallb (fun c => is_alphanumeric c || Ascii.eqb c "-" || Ascii.eqb c "_") (chars_of locale)))
    ValidationError;;
  err_if (is_empty (Text.trim (ti_title t))) ValidationError;;
  err_if (MAX_TRANSLATION_TITLE_LEN <? char_count (ti_title t)) ValidationError;;
  if_given (ti_description t) (fun d => err_if (MAX_TRANSLATION_DESCRIPTION_LEN <? char_count d) ValidationError).
Definition locale_of (t : EventTranslationInput) : string := lowercase (Text.trim (ti_locale t)).
Fixpoint check_translations (seen : list string) (l : list EventTranslationInput) : Result AppError unit :=
  match l with
  | [] => Ok tt
  | t :: l =>
      err_if (bool_decide (locale_of t ∈ seen)) ValidationError;;
      validate_translation t;;
      check_translations (locale_of t :: seen) l
  end.
Definition validate_translations (l : list EventTranslationInput) : Result AppError unit :=
  err_if (MAX_TRANSLATIONS_PER_EVENT <? length l)%nat ValidationError;; check_translations [] l.

(** The checks of [create_event], in their order. *)
Definition validate_create (now : Z) (q : CreateEventRequest) : Result AppError unit :=
  if_given (cq_image_url q) validate_image_url;;
  validate_event_location (cq_location q);;
  if_given (cq_host_email q) (fun e => err_if (negb (is_valid_email e)) ValidationError);;
  validate_event_title (cq_title q);;
  validate_event_timestamps now (cq_start_time q) (cq_end_time q);;
  validate_event_description (cq_description q);;
  validate_event_coordinates (cq_latitude q) (cq_longitude q);;
  if_given (cq_translations q) validate_translations.

(** ** Creation *)
Definition slug_taken (slug : string) (s : Catalog) : bool :=
  existsb (fun e => bool_decide (ex_slug e = slug)) (map_to_list (ca_extra s)).*2.
(** An [INSERT INTO events]: the foreign key, the keys, the label and the [CHECK]s. *)
Definition insert_event (sch : Schema) (up : bool) (e : Event) (host_email : option string) (status : string) (s : Catalog)
    : Result AppError Catalog :=
  err_if (negb up) DatabaseError;;
  err_if (negb (bool_decide (is_Some (db_organizers (ca_db s) !! e_organizer_id e)))) DatabaseError;;
  err_if (bool_decide (is_Some (db_events (ca_db s) !! e_id e))) DatabaseError;;
  slug ← ok_or (sc_slug sch (e_id e)) DatabaseError;
  err_if (slug_taken slug s) DatabaseError;;
  err_if (negb (bool_decide (status ∈ sc_statuses sch))) DatabaseError;;
  err_if (match e_end_time e with Some t => t <=? e_start_time e | None => false end) DatabaseError;;
  let db := (ca_db s) <| db_events := <[e_id e := e]> (db_events (ca_db s)) |> in
  Ok (s <| ca_db := db |>
        <| ca_extra := <[e_id e := mkExtra host_email None status slug]> (ca_extra s) |>).
Definition new_event (now : Z) (id : Uuid) (q : CreateEventRequest) : Event :=
  mkEvent id (cq_organizer_id q) (cq_title q) (cq_description q) (cq_location q) (cq_start_time q) (cq_end_time q)
    false false 0 0 now now 0 0 (cq_image_url q) (cq_latitude q) (cq_longitude q) false false 0.

(** All rows or none; a locale may be there once. *)
Definition translation_row (ids : nat -> Uuid) (now : Z) (event : Uuid) (i : nat) (t : EventTranslationInput)
    : EventTranslation :=
  mkTranslation (ids i) event (locale_of t) (Text.trim (ti_title t)) (Text.trim <$> ti_description t) now.
Fixpoint insert_rows (rows : list EventTranslation) (m : gmap (Uuid * string) EventTranslation)
    : option (gmap (Uuid * string) EventTranslation) :=
  match rows with
  | [] => Some m
  | r :: rows =>
      match m !! (et_event_id r, et_locale r) with
      | Some _ => None
      | None => insert_rows rows (<[(et_event_id r, et_locale r) := r]> m)
      end
  end.
Definition insert_event_translations (up : bool) (ids : nat -> Uuid) (now : Z) (event : Uuid)
    (l : list EventTranslationInput) (s : Catalog) : Result AppError (list EventTranslation * Catalog) :=
  let rows := imap (translation_row ids now event) l in
  err_if (negb up) DatabaseError;;
  m ← ok_or (insert_rows rows (ca_translations s)) DatabaseError;
  Ok (rows, s <| ca_translations := m |>).
Definition store_translations (up : bool) (ids : nat -> Uuid) (now : Z) (event : Uuid)
    (l : option (list EventTranslationInput)) (s : Catalog) : option (list EventTranslation) * Catalog :=
  match l with
  | None | Some [] => (None, s)
  | Some l =>
      match insert_event_translations up ids now event l s with
      | Ok (rows, s) => (Some rows, s)
      | Err _ => (None, s)
      end
  end.
Definition opt_text (o : option string) : JsonValue := match o with Some t => JString t | None => JNull end.

Definition wallet_of (up : bool) (organizer : Uuid) (s : Catalog) : option string :=
  if up then mjoin (db_organizers (ca_db s) !! organizer) else None.
Definition profile_of (up : bool) (wallet : option string) (s : Catalog) : option OrganizerProfile :=
  if up then wallet ≫= (fun w => ca_profiles s !! w) else None.

Section Creation.
Context `{CatalogText}.

Definition build_localised_metadata (e : Event) (rows : list EventTranslation) : JsonValue :=
  JObject [("id", JString (uuid_text (e_id e))); ("defaultLocale", JString "en");
           ("defaultTitle", JString (e_title e)); ("defaultDescription", opt_text (e_description e));
           ("translations", JArray ((fun t => JObject [("locale", JString (et_locale t)); ("title", JString (et_title t));
                                                     ("description", opt_text (et_description t))]) <$> rows))]%string.
Definition content_hash (v : JsonValue) : string := sha256_hex (json_vec v).

Definition create_event_with (sch : Schema) (now : Z) (up : nat -> bool) (id : Uuid) (ids : nat -> Uuid)
    (q : CreateEventRequest) (s : Catalog) : Result AppError Event * Catalog * list Effect :=
  let e := new_event now id q in
  match validate_create now q;; insert_event sch (up 0%nat) e (cq_host_email q) (sc_default_status sch) s with
  | Err err => (Err err, s, [])
  | Ok s =>
      let '(rows, s) := store_translations (up 1%nat) ids now id (cq_translations q) s in
      let s := match rows with
               | Some rows =>
                   if up 2%nat
                   then s <| ca_extra := alter (fun x => x <| ex_cid := Some (content_hash (build_localised_metadata e rows)) |>)
                               id (ca_extra s) |>
                   else s
               | None => s
               end in
      let profile := profile_of (up 4%nat) (wallet_of (up 3%nat) (e_organizer_id e) s) s in
      let s := if up 5%nat
               then s <| ca_details := <[id := (now + EVENT_CACHE_TTL * SECOND, mkDetail e profile None rows)]> (ca_details s) |>
               else s in
      let s := if up 6%nat then s <| ca_list := None |> else s in
      (Ok e, s,
       match wallet_of (up 7%nat) (e_organizer_id e) s with Some w => [NotifyFollowers w id] | None => [] end
       ++ [DispatchWebhooks (e_organizer_id e)
             (JObject [("event_id", JString (uuid_text id)); ("title", JString (e_title e));
                       ("description", opt_text (e_description e)); ("created_at", JString (rfc3339 now))]%string)])
  end.
Definition create_event := create_event_with migrations.
End Creation.

(** ** Clones; the caller is whom the middleware found *)
Definition cloned_event (now : Z) (id : Uuid) (e : Event) : Event :=
  mkEvent id (e_organizer_id e) (e_title e) (e_description e) (e_location e) (e_start_time e) (e_end_time e)
    false false 0 0 now now (e_total_tickets e) 0 (e_image_url e) (e_latitude e) (e_longitude e) false false 0.
Definition tier_rows (db : EventDb) (event : Uuid) : list (Uuid * Tier) :=
  filter (fun p => tt_event p.2 = event) (map_to_list (db_tiers db)).
Definition fresh_tier (event : Uuid) (t : Tier) : Tier := mkTier event (tt_name t) (tt_price t) (tt_total t) (tt_total t).
Definition copy_tiers (up : bool) (ids : nat -> Uuid) (source event : Uuid) (db : EventDb) : EventDb :=
  let rows := imap (fun i p => (ids i, fresh_tier event p.2)) (tier_rows db source) in
  if up && bool_decide (NoDup rows.*1) && forallb (fun p => bool_decide (db_tiers db !! p.1 = None)) rows
  then db <| db_tiers := list_to_map rows ∪ db_tiers db |>
  else db.
Definition copy_categories (up : bool) (source event : Uuid) (s : Catalog) : Catalog :=
  if up
  then s <| ca_categories := set_map (fun p => (event, p.2)) (filter (fun p => p.1 = source) (ca_categories s))
                            ∪ ca_categories s |>
  else s.
Definition clone_event_with (sch : Schema) (now : Z) (up : nat -> bool) (caller : option string) (source id : Uuid)
    (ids : nat -> Uuid) (s : Catalog) : Result AppError Event * Catalog :=
  let r :=
    caller ← ok_or caller AuthError;
    err_if (negb (up 0%nat)) DatabaseError;;
    e ← ok_or (db_events (ca_db s) !! source) NotFound;
    err_if (negb (up 1%nat)) DatabaseError;;
    owner ← ok_or (wallet_of true (e_organizer_id e) s) Forbidden;
    err_if (negb (bool_decide (owner = caller))) Forbidden;;
    let c := cloned_event now id e in
    s ← insert_event sch (up 2%nat) c (ca_extra s !! source ≫= ex_host_email) "draft" s;
    Ok (c, s) in
  match r with
  | Err e => (Err e, s)
  | Ok (c, s) =>
      let s := s <| ca_db := copy_tiers (up 3%nat) ids source id (ca_db s) |> in
      let s := copy_categories (up 4%nat) source id s in
      (Ok c, if up 5%nat then s <| ca_list := None |> else s)
  end.
Definition clone_event := clone_event_with migrations.

(** ** Languages *)
Fixpoint insert_weighted (x : Q * string) (l : list (Q * string)) : list (Q * string) :=
  match l with
  | [] => [x]
  | y :: l => if Qle_bool y.1 x.1 then x :: y :: l else y :: insert_weighted x l
  end.
(** The stable sort by falling weight. *)
Definition by_weight (l : list (Q * string)) : list (Q * string) := foldr insert_weighted [] l.
Definition strip_q (s : string) : option string := strip_prefix "q=" s.

Definition translation_matches (r : string) (t : EventTranslation) : bool :=
  bool_decide (lowercase (first_part "-" (et_locale t)) = r).
Definition requested_tag (locale : option string) : option string :=
  (fun l => lowercase (first_part "-" l)) <$> locale.
Definition chosen_translation (rows : list EventTranslation) (locale : option string) : option EventTranslation :=
  r ← requested_tag locale;
  match find (translation_matches r) rows with
  | Some t => Some t
  | None => find (fun t => bool_decide (lowercase (et_locale t) = lowercase r)) rows
  end.
Definition apply_translation (rows : list EventTranslation) (locale : option string) (e : Event) : Event :=
  match chosen_translation rows locale with
  | Some t => let e := e <| e_title := et_title t |> in
              match et_description t with Some d => e <| e_description := Some d |> | None => e end
  | None => e
  end.

Definition locale_le (a b : EventTranslation) : Prop := String.le (et_locale a) (et_locale b).
#[export] Instance locale_le_dec a b : Decision (locale_le a b).
Proof. unfold locale_le. apply _. Defined.
Definition translations_of (s : Catalog) (event : Uuid) : list EventTranslation :=
  merge_sort locale_le (filter (fun t => et_event_id t = event) (map_to_list (ca_translations s)).*2).

Section Languages.
Context `{CatalogText}.

Definition weighted_tag (part : chars) : option (Q * string) :=
  let it := split_on ";" part in
  let tag := Text.trim (text_of (hd [] it)) in
  if is_empty tag || bool_decide (tag = "*"%string) then None
  else
    let q := default 1%Q (w ← it !! 1%nat; q ← strip_q (Text.trim (text_of w)); parse_f32 (Text.trim q)) in
    Some (q, lowercase tag).
Definition best_locale (header lang : option string) : option string :=
  match lang ≫= (fun l => let l := Text.trim l in if is_empty l then None else Some (lowercase l)) with
  | Some l => Some l
  | None => h ← header; snd <$> head (by_weight (omap weighted_tag (split_on "," (chars_of h))))
  end.
End Languages.

(** ** The detail page *)

(** The members of [TicketTierResponse] and the columns that are selected for it. *)
Definition tier_members : list string :=
  ["id"; "name"; "description"; "price"; "total_quantity"; "available_quantity"; "created_at"]%string.
Definition detail_columns : list string := ["id"; "name"; "price"; "quantity"; "sold"]%string.
Definition price_le (a b : Uuid * Tier) : Prop := tt_price a.2 <= tt_price b.2.
#[export] Instance price_le_dec a b : Decision (price_le a b) := Z_le_dec _ _.
Definition select_tiers (up : bool) (columns : list string) (event : Uuid) (s : Catalog) : option (list (Uuid * Tier)) :=
  let rows := merge_sort price_le (tier_rows (ca_db s) event) in
  if up && (forallb (fun f => bool_decide (f ∈ columns)) tier_members || bool_decide (rows = [])) then Some rows else None.

Definition public_event (s : Catalog) (id : Uuid) : option Event :=
  e ← db_events (ca_db s) !! id; if e_is_flagged e then None else Some (read_event (ca_db s) StartTime e).
(** A cached page is an error of the cache, as [event_readable] says. *)
Definition cached_detail (now : Z) (up : bool) (s : Catalog) (id : Uuid) : option EventDetail :=
  if up && event_readable then cache_get now (ca_details s !! id) else None.

Definition load_detail (up : nat -> bool) (include_tiers : bool) (id : Uuid) (s : Catalog) : Result AppError EventDetail :=
  err_if (negb (up 1%nat)) DatabaseError;;
  e ← ok_or (public_event s id) NotFound;
  let profile := profile_of (up 3%nat) (wallet_of (up 2%nat) (e_organizer_id e) s) s in
  let tiers := if include_tiers then select_tiers (up 4%nat) detail_columns id s else None in
  Ok (mkDetail e profile tiers None).

Definition localise (rows : list EventTranslation) (locale : option string) (d : EventDetail) : EventDetail :=
  mkDetail (apply_translation rows locale (ed_event d)) (ed_organizer_profile d) (ed_tiers d)
    (match rows with [] => ed_translations d | _ => Some rows end).

Definition get_event `{CatalogText} (now : Z) (up : nat -> bool) (id : Uuid) (include_tiers : bool)
    (lang header : option string) (s : Catalog) : Result AppError EventDetail * Catalog :=
  let cached := if include_tiers then None else cached_detail now (up 0%nat) s id in
  match (match cached with Some d => Ok d | None => load_detail up include_tiers id s end) with
  | Err e => (Err e, s)
  | Ok d =>
      let s := match cached with
               | None => if negb include_tiers && up 5%nat
                         then s <| ca_details := <[id := (now + EVENT_CACHE_TTL * SECOND, d)]> (ca_details s) |> else s
               | Some _ => s
               end in
      let rows := if up 6%nat then translations_of s id else [] in
      (Ok (localise rows (best_locale header lang) d), s)
  end.

(** ** Smaller requests *)
Definition answers (up : bool) : Result AppError unit := err_if (negb up) DatabaseError.
Definition list_ticket_tiers (up : nat -> bool) (id : Uuid) (s : Catalog) : Result AppError (list (Uuid * Tier)) :=
  answers (up 0%nat);;
  _ ← ok_or (public_event s id) NotFound;
  ok_or (select_tiers (up 1%nat) tier_members id s) DatabaseError.
Definition get_attendee_count (up : bool) (id : Uuid) (s : Catalog) : Result AppError (Z * Z) :=
  answers up;;
  e ← ok_or (public_event s id) NotFound; Ok (e_minted_tickets e, e_total_tickets e).
(** The first 160 characters. *)
Fixpoint take_chars (n : nat) (l : chars) : chars :=
  match l with
  | [] => []
  | c :: l =>
      if (code c <? 128) || (192 <=? code c)
      then match n with O => [] | S n => c :: take_chars n l end
      else c :: take_chars n l
  end.
Definition get_event_share_link `{CatalogText} (base_url : string) (up : bool) (id : Uuid) (s : Catalog)
    : Result AppError (string * string * string) :=
  answers up;;
  e ← ok_or (public_event s id) NotFound;
  Ok ((base_url +:+ "/events/" +:+ uuid_text id)%string, e_title e,
      text_of (take_chars 160 (chars_of (default ""%string (e_description e))))).
Definition EVENT_COUNT_CACHE_TTL : Z := 600.
(** All events and the upcoming ones, from the cache if it has them. *)
Definition get_event_counts (now : Z) (up : nat -> bool) (cache : option (Z * (Z * Z))) (s : Catalog)
    : Result AppError (Z * Z) * option (Z * (Z * Z)) :=
  match (if up 0%nat then cache_get now cache else None) with
  | Some counts => (Ok counts, cache)
  | None =>
      let shown := filter (fun e => e_is_flagged e = false) (map_to_list (db_events (ca_db s))).*2 in
      match answers (up 1%nat);; answers (up 2%nat) with
      | Err e => (Err e, cache)
      | Ok _ =>
          let counts := (len shown, len (filter (fun e => ends_later now e = true) shown)) in
          (Ok counts, if up 3%nat then Some (now + EVENT_COUNT_CACHE_TTL * SECOND, counts) else cache)
      end
  end.
Definition get_event_organizer (up : nat -> bool) (id : Uuid) (s : Catalog) : Result AppError OrganizerProfile :=
  answers (up 0%nat);;
  e ← ok_or (db_events (ca_db s) !! id) NotFound;
  answers (up 1%nat);;
  wallet ← ok_or (db_organizers (ca_db s) !! e_organizer_id e) NotFound;
  wallet ← ok_or wallet DatabaseError; (* a missing wallet is no [String] *)
  answers (up 2%nat);;
  ok_or (ca_profiles s !! wallet) NotFound.

Definition in_category (now : Z) (s : Catalog) (category : Uuid) (e : Event) : bool :=
  bool_decide ((e_id e, category) ∈ ca_categories s) && ends_later now e && negb (e_is_flagged e).
Definition list_events_by_category `{Base64} `{cursor_pagination.Json EventCursor} (now : Z) (up : nat -> bool)
    (categories : gset Uuid) (category : Uuid) (params : CursorParams) (s : Catalog)
    : Result AppError (CursorResponse Event) :=
  answers (up 0%nat);;
  err_if (negb (bool_decide (category ∈ categories))) NotFound;;
  let v := validate params in
  cursor ← decode_opt (vc_cursor v);
  answers (up 1%nat);;
  p ← split_page (page_size v) (fun e => Some (cursor_of_event e))
        (rows_by_start (in_category now s category) v cursor (ca_db s));
  mret (new p.1 v p.2).

(** ** Exports *)
Definition sanitize_csv_field (field : string) : string :=
  if starts_with "=" field || starts_with "+" field || starts_with "-" field || starts_with "@" field
  then ("'" +:+ field)%string else field.
Definition bearer_token (h : string) : string :=
  Text.trim (match strip_prefix "Bearer " h with
             | Some t => t
             | None => default h (strip_prefix "bearer " h)
             end).
Definition verify_export_attendees_auth `{Tokens} (now : Z) (admin : option string) (h : Headers)
    : Result AppError (option string) :=
  match admin, hd_authorization h with
  | Some a, Some t =>
      if negb (is_empty a) && bool_decide (bearer_token t = a) then Ok None
      else w ← extract_auth now h; Ok (Some w)
  | _, _ => w ← extract_auth now h; Ok (Some w)
  end.
Definition csv_row `{CatalogText} (a : Attendee) : option string :=
  owner ← at_owner_wallet a;
  buyer ← at_buyer_wallet a;
  Some (sanitize_csv_field owner +:+ "," +:+ sanitize_csv_field buyer +:+ ","
        +:+ sanitize_csv_field (pretty (at_quantity a)) +:+ "," +:+ sanitize_csv_field (rfc3339 (at_created_at a))
        +:+ String "010"%char "")%string.
Definition created_le (a b : Attendee) : Prop := at_created_at a <= at_created_at b.
#[export] Instance created_le_dec a b : Decision (created_le a b) := Z_le_dec _ _.
Definition csv_header : string := ("owner_wallet,buyer_wallet,quantity,created_at" +:+ String "010"%char "")%string.
Definition export_attendees_csv `{CatalogText} `{Tokens} (sch : Schema) (now : Z) (up : nat -> bool)
    (admin : option string) (h : Headers) (id : Uuid) (s : Catalog) : Result AppError string :=
  requester ← verify_export_attendees_auth now admin h;
  answers (up 0%nat);;
  e ← ok_or (public_event s id) NotFound;
  match requester with
  | Some w =>
      answers (up 1%nat);;
      err_if (negb (match db_organizers (ca_db s) !! e_organizer_id e with
                    | Some x => bool_decide (x = Some w) || bool_decide (uuid_text (e_organizer_id e) = w)
                    | None => false
                    end)) Forbidden
  | None => Ok tt
  end;;
  answers (up 2%nat && sc_quantity sch);;
  rows ← ok_or (mapM csv_row (merge_sort created_le (attendees_of (ca_db s) id))) DatabaseError;
  Ok (foldr String.append ""%string (csv_header :: rows)).
(** [SUM] of a [DECIMAL] is a [NUMERIC], which is no [f64], and the revenue is read as 0. *)
Definition get_event_revenue (sch : Schema) (up : nat -> bool) (id : Uuid) (s : Catalog) : Result AppError (Z * Z) :=
  answers (up 0%nat);;
  _ ← ok_or (public_event s id) NotFound;
  answers (up 1%nat && sc_quantity sch);;
  Ok (0, len (attendees_of (ca_db s) id)).

(** ** What the schema of the migrations refuses *)

(** No event is created or cloned: the column [slug] must not be null, has no default and
    is not set. *)
Theorem create_never_succeeds `{CatalogText} now up id ids q s :
  exists e, create_event now up id ids q s = (Err e, s, []).
Proof.
  unfold create_event, create_event_with, insert_event. destruct (validate_create now q) as [[]|e]; cbn; [|by eexists].
  destruct (err_if (negb (up 0%nat)) _) as [[]|e]; cbn; [|by eexists].
  destruct (err_if (negb _) _) as [[]|e]; cbn; [|by eexists].
  destruct (err_if (bool_decide _) _) as [[]|e]; cbn; by eexists.
Qed.
Theorem clone_never_succeeds now up caller source id ids s :
  exists e, clone_event now up caller source id ids s = (Err e, s).
Proof.
  unfold clone_event, clone_event_with. destruct (_ ≫= _) as [[c s']|e] eqn:H; [|by eexists]. exfalso.
  oks. unfold insert_event in *. oks. done.
Qed.

(** ** The cache of details is never read *)
Lemma cached_none now up s id : cached_detail now up s id = None.
Proof. unfold cached_detail. by destruct up. Qed.
Theorem detail_ignores_cache `{CatalogText} now up id tiers lang header details s :
  (get_event now up id tiers lang header (s <| ca_details := details |>)).1
  = (get_event now up id tiers lang header s).1.
Proof.
  unfold get_event. rewrite !cached_none.
  replace (if tiers then None else None) with (@None EventDetail) by (by destruct tiers).
  change (load_detail up tiers id (s <| ca_details := details |>)) with (load_detail up tiers id s).
  destruct (load_detail up tiers id s) as [d|e]; [|done]. cbn. by destruct (negb tiers && up 5%nat).
Qed.
(** The detail page never lists tiers: their columns have other names. *)
Theorem tiers_not_included `{CatalogText} now up id lang header s d s' :
  get_event now up id true lang header s = (Ok d, s') -> tier_rows (ca_db s) id <> [] -> ed_tiers d = None.
Proof.
  unfold get_event, load_detail. cbn [negb andb]. intros Hg Ht.
  destruct (_ ≫= _) as [d0|e] eqn:Hd in Hg; [|done]. oks. subst d0. injection Hg as <- _. cbn.
  unfold select_tiers. rewrite (bool_decide_false (_ = [])); [by destruct (up 4%nat)|].
  intros Hn. apply Ht. apply (f_equal length) in Hn. rewrite merge_sort_Permutation in Hn. by apply nil_length_inv.
Qed.

(** ** Translations *)
Lemma check_translations_NoDup l : forall seen, check_translations seen l = Ok tt ->
  NoDup (locale_of <$> l) /\ (forall t, t ∈ l -> locale_of t ∉ seen /\ validate_translation t = Ok tt).
Proof.
  induction l as [|t l IH]; intros seen H; [split; [constructor|by intros t ?%elem_of_nil]|].
  cbn in H. oks. destruct x, x0. apply IH in H as [Hn Hl]. bools. split.
  - constructor; [|done]. intros (y & Hy & Hin)%list_elem_of_fmap. destruct (Hl y Hin) as [Hs _]. apply Hs. rewrite <- Hy. by left.
  - intros y [->|Hy]%elem_of_cons; [by split|]. destruct (Hl y Hy) as [Hs Hv]. split; [|done]. intros Hi. apply Hs. by right.
Qed.

Definition key_of_row (r : EventTranslation) : Uuid * string := (et_event_id r, et_locale r).
Lemma insert_rows_fresh rows : forall m, NoDup (key_of_row <$> rows) -> (forall r, r ∈ rows -> m !! key_of_row r = None) ->
  insert_rows rows m = Some (list_to_map ((fun r => (key_of_row r, r)) <$> rows) ∪ m).
Proof.
  induction rows as [|r rows IH]; intros m Hn Hf; cbn; [by rewrite (left_id_L ∅ (∪))|].
  inversion_clear Hn as [|?? Hr Hn']. change (et_event_id r, et_locale r) with (key_of_row r).
  rewrite (Hf r) by by left. rewrite IH; [|done|].
  - f_equal. rewrite <- insert_union_r; [by rewrite insert_union_l|].
    apply not_elem_of_list_to_map_1. rewrite <- list_fmap_compose. exact Hr.
  - intros y Hy. rewrite lookup_insert_ne; [by apply Hf; right|]. intros He. apply Hr. rewrite He. by apply list_elem_of_fmap_2.
Qed.

Lemma find_unique {A} (P : A -> bool) (l : list A) x : x ∈ l -> P x = true -> (forall y, y ∈ l -> P y = true -> y = x) ->
  find P l = Some x.
Proof.
  intros Hx Hp Hu. destruct (find P l) as [y|] eqn:Hf.
  - apply find_some in Hf as [Hy Hpy]. f_equal. apply Hu; [by apply list_elem_of_In|done].
  - apply find_none with (x := x) in Hf; [congruence|]. by apply list_elem_of_In.
Qed.
Lemma find_nothing {A} (P : A -> bool) (l : list A) : (forall y, y ∈ l -> P y = false) -> find P l = None.
Proof.
  intros Hn. destruct (find P l) as [y|] eqn:Hf; [|done]. apply find_some in Hf as [Hy Hp].
  rewrite Hn in Hp; [done|by apply list_elem_of_In].
Qed.

(** The translations of an event that had none are the rows that were stored. *)
Definition untranslated (s : Catalog) (id : Uuid) : Prop := forall l, ca_translations s !! (id, l) = None.
Lemma translations_stored s id (rows : list EventTranslation) m :
  untranslated s id -> NoDup (key_of_row <$> rows) -> (forall r, r ∈ rows -> et_event_id r = id) ->
  (forall k r, ca_translations s !! k = Some r -> key_of_row r = k) ->
  m = list_to_map ((fun r => (key_of_row r, r)) <$> rows) ∪ ca_translations s ->
  forall r, r ∈ translations_of (s <| ca_translations := m |>) id <-> r ∈ rows.
Proof.
  intros Hu Hn Hid Hk -> r. unfold translations_of. rewrite merge_sort_Permutation, list_elem_of_filter. cbn.
  set (kv := (fun r => (key_of_row r, r)) <$> rows). assert (NoDup kv.*1) as Hnd.
  { unfold kv. by rewrite <- list_fmap_compose. }
  rewrite list_elem_of_fmap. split.
  - intros (He & [k r'] & -> & Hin%elem_of_map_to_list). cbn in *.
    apply lookup_union_Some_raw in Hin as [Hin|[_ Hin]].
    + apply elem_of_list_to_map_2 in Hin. by apply list_elem_of_fmap in Hin as (y & [= -> ->] & Hy).
    + pose proof (Hk _ _ Hin) as <-. unfold key_of_row in Hin. rewrite He, Hu in Hin. done.
  - intros Hr. split; [by apply Hid|]. exists (key_of_row r, r). split; [done|]. apply elem_of_map_to_list.
    apply lookup_union_Some_l, elem_of_list_to_map_1; [done|]. unfold kv. by apply (list_elem_of_fmap_2 (fun r => (key_of_row r, r))).
Qed.

(** ** Tags *)
Lemma lower_idem c : lower_ascii (lower_ascii c) = lower_ascii c.
Proof. by destruct c as [[] [] [] [] [] [] [] []]. Qed.
Lemma lower_dash c : Ascii.eqb (lower_ascii c) "-" = Ascii.eqb c "-".
Proof. by destruct c as [[] [] [] [] [] [] [] []]. Qed.
Lemma lowercase_idem s : lowercase (lowercase s) = lowercase s.
Proof.
  unfold lowercase. rewrite chars_text. f_equal. rewrite <- list_fmap_compose. apply list_fmap_ext. intros i c _. apply lower_idem.
Qed.
Lemma hd_split sep c l :
  hd [] (split_on sep (c :: l)) = if Ascii.eqb c sep then [] else c :: hd [] (split_on sep l).
Proof. cbn. destruct (Ascii.eqb c sep); [done|]. by destruct (split_on sep l). Qed.
Lemma first_part_idem sep s : first_part sep (first_part sep s) = first_part sep s.
Proof.
  unfold first_part. rewrite chars_text. f_equal. induction (chars_of s) as [|c l IH]; [done|].
  rewrite hd_split. destruct (Ascii.eqb c sep) eqn:E; [done|]. rewrite hd_split, E. by f_equal.
Qed.
Lemma lowercase_first_part s : lowercase (first_part "-" s) = first_part "-" (lowercase s).
Proof.
  unfold lowercase, first_part. rewrite !chars_text. f_equal. induction (chars_of s) as [|c l IH]; [done|].
  rewrite fmap_cons, !hd_split, lower_dash. destruct (Ascii.eqb c "-"); [done|]. rewrite fmap_cons. by f_equal.
Qed.
(** The second search of [apply_translation] finds nothing that the first does not. *)
Lemma fallback_dead r x y : r = lowercase (first_part "-" y) -> lowercase x = lowercase r ->
  lowercase (first_part "-" x) = r.
Proof.
  intros -> Hx. rewrite lowercase_first_part, Hx, !lowercase_idem, <- lowercase_first_part.
  by rewrite first_part_idem.
Qed.
Lemma chosen_none rows locale :
  (forall t, t ∈ rows -> Some (lowercase (first_part "-" (et_locale t))) <> requested_tag locale) ->
  chosen_translation rows locale = None.
Proof.
  intros Hn. unfold chosen_translation. destruct locale as [l|]; [|done]. cbn in *. unfold translation_matches.
  assert (forall t, t ∈ rows -> lowercase (first_part "-" (et_locale t)) <> lowercase (first_part "-" l)) as Hn'.
  { intros t Ht He. apply (Hn t Ht). by rewrite He. }
  rewrite find_nothing; [apply find_nothing|]; intros t Ht; apply bool_decide_eq_false; [|by apply Hn'].
  intros He. apply (Hn' t Ht). by eapply fallback_dead.
Qed.

Definition tag_of (t : EventTranslationInput) : string := lowercase (first_part "-" (locale_of t)).
Definition rows_of (ids : nat -> Uuid) (now : Z) (id : Uuid) (q : CreateEventRequest) : list EventTranslation :=
  imap (translation_row ids now id) (default [] (cq_translations q)).
Lemma rows_elem ids now id q r : r ∈ rows_of ids now id q <->
  exists i t, default [] (cq_translations q) !! i = Some t /\ r = translation_row ids now id i t.
Proof.
  unfold rows_of. rewrite list_elem_of_lookup. setoid_rewrite list_lookup_imap. split.
  - intros (i & (t & Ht & ->)%fmap_Some). eauto.
  - intros (i & t & Ht & ->). exists i. by rewrite Ht.
Qed.
Lemma valid_translations now q : validate_create now q = Ok tt ->
  NoDup (locale_of <$> default [] (cq_translations q)) /\
  forall t, t ∈ default [] (cq_translations q) -> validate_translation t = Ok tt.
Proof.
  unfold validate_create. intros Hv. oks. destruct (cq_translations q) as [l|]; cbn in *.
  - unfold validate_translations in Hv. oks. destruct (check_translations_NoDup l [] Hv) as [Hn Hl].
    split; [done|]. intros t Ht. by apply Hl.
  - split; [constructor|]. by intros t ?%elem_of_nil.
Qed.
Lemma rows_NoDup ids now id q : validate_create now q = Ok tt -> NoDup (key_of_row <$> rows_of ids now id q).
Proof.
  intros Hv. destruct (valid_translations now q Hv) as [Hn _].
  apply (NoDup_fmap_1 snd). rewrite <- list_fmap_compose. unfold rows_of. rewrite fmap_imap.
  rewrite (imap_ext _ (const locale_of)) by done. by rewrite imap_const.
Qed.

(** What a creation leaves behind when everything answers. *)
Lemma created_state `{CatalogText} sch now up id ids q s e s' fx :
  (forall n, up n = true) -> untranslated s id ->
  create_event_with sch now up id ids q s = (Ok e, s', fx) ->
  validate_create now q = Ok tt /\ e = new_event now id q /\ db_events (ca_db s') !! id = Some e /\
  ca_translations s' = list_to_map ((fun r => (key_of_row r, r)) <$> rows_of ids now id q) ∪ ca_translations s.
Proof.
  intros Hup Hu. unfold create_event_with. destruct (_ ≫= _) as [s1|err] eqn:Hins; [|done].
  oks. destruct x. unfold insert_event in Hins. oks. subst s1. rewrite !Hup.
  match goal with |- context [store_translations _ _ _ _ _ ?x] => set (s2 := x) end.
  assert (ca_translations s2 = ca_translations s) as Ht by done.
  assert (store_translations true ids now id (cq_translations q) s2
          = (match cq_translations q with None | Some [] => None | Some _ => Some (rows_of ids now id q) end,
             s2 <| ca_translations := list_to_map ((fun r => (key_of_row r, r)) <$> rows_of ids now id q)
                                       ∪ ca_translations s |>)) as Hst.
  { pose proof (rows_NoDup ids now id q) as Hn. unfold store_translations, rows_of in *.
    destruct (cq_translations q) as [[|t l]|]; try (by cbn; rewrite (left_id_L ∅ (∪))).
    change (default [] (Some (t :: l))) with (t :: l) in *.
    unfold insert_event_translations. rewrite insert_rows_fresh; [by rewrite Ht|by apply Hn|].
    intros r (i & Hi)%list_elem_of_lookup. rewrite list_lookup_imap in Hi. apply fmap_Some in Hi as (t' & _ & ->).
    rewrite Ht. apply Hu. }
  rewrite Hst. intros [= <- <- _]. split; [done|]. split; [done|].
  destruct (cq_translations q) as [[|t l]|]; cbn; by rewrite lookup_insert_eq.
Qed.

(** The detail page when everything answers. *)
Lemma get_event_shown `{CatalogText} now up id lang header s e :
  (forall n, up n = true) -> db_events (ca_db s) !! id = Some e -> e_is_flagged e = false ->
  exists d, (get_event now up id false lang header s).1 = Ok d /\
    ed_event d = apply_translation (translations_of s id) (best_locale header lang) (read_event (ca_db s) StartTime e).
Proof.
  intros Hup He Hf. unfold get_event, load_detail, public_event. rewrite cached_none, !Hup, He. cbn. rewrite Hf. cbn.
  eexists. split; [reflexivity|]. done.
Qed.
Lemma best_locale_lang `{CatalogText} header lang : is_empty (Text.trim lang) = false ->
  best_locale header (Some lang) = Some (lowercase (Text.trim lang)).
Proof. intros Hl. unfold best_locale. cbn. by rewrite Hl. Qed.


(** ** Clones *)
Lemma tier_rows_elem db id p : p ∈ tier_rows db id <-> db_tiers db !! p.1 = Some p.2 /\ tt_event p.2 = id.
Proof.
  unfold tier_rows. rewrite list_elem_of_filter. destruct p as [k t]. rewrite elem_of_map_to_list. cbn. naive_solver.
Qed.
Lemma tier_rows_NoDup db id : NoDup (tier_rows db id).
Proof. apply NoDup_filter, NoDup_map_to_list. Qed.

Lemma copy_tiers_rows ids source id db :
  Inj (=) (=) ids -> (forall i, db_tiers db !! ids i = None) -> (forall k t, db_tiers db !! k = Some t -> tt_event t <> id) ->
  tier_rows (copy_tiers true ids source id db) id ≡ₚ imap (fun i p => (ids i, fresh_tier id p.2)) (tier_rows db source).
Proof.
  intros Hinj Hfresh Hid. unfold copy_tiers. set (rows := imap _ (tier_rows db source)).
  assert (forall p, p ∈ rows -> exists i t, p = (ids i, fresh_tier id t)) as Hrows.
  { intros p (i & Hi)%list_elem_of_lookup. unfold rows in Hi. rewrite list_lookup_imap in Hi.
    apply fmap_Some in Hi as (q & _ & ->). eauto. }
  assert (NoDup rows.*1) as Hnd.
  { apply NoDup_alt. intros i j x. unfold rows. rewrite !list_lookup_fmap, !list_lookup_imap.
    intros Hi Hj. apply fmap_Some in Hi as (p & (p' & _ & ->)%fmap_Some & ->), Hj as (q & (q' & _ & ->)%fmap_Some & Hq).
    cbn in Hq. by apply Hinj in Hq. }
  rewrite bool_decide_true by done. rewrite (proj2 (forallb_forall _ _)); cbn [andb].
  - apply NoDup_Permutation; [apply tier_rows_NoDup|by eapply NoDup_fmap_1|]. intros [k t].
    rewrite tier_rows_elem. cbn. rewrite lookup_union_Some_raw. split.
    + intros [[Hl|[_ Hl]] Ht]; [by apply elem_of_list_to_map_2|by destruct (Hid k t Hl)].
    + intros Hp. split; [left; by apply elem_of_list_to_map_1|]. by apply Hrows in Hp as (i & t' & [= -> ->]).
  - intros p Hp%list_elem_of_In. apply Hrows in Hp as (i & t & ->). apply bool_decide_eq_true, Hfresh.
Qed.

Lemma copy_tiers_events up ids source id db : db_events (copy_tiers up ids source id db) = db_events db.
Proof. unfold copy_tiers. by destruct (_ && _ && _). Qed.

(** A clone is made for the owner of the event only; it has the texts and times of the
    event and no sales or ratings; and its tiers are those of the event, with all of
    their tickets available. *)
Theorem clone_exact sch now up caller source id ids s c s' :
  clone_event_with sch now up caller source id ids s = (Ok c, s') ->
  exists e, db_events (ca_db s) !! source = Some e /\ is_Some caller /\ wallet_of true (e_organizer_id e) s = caller /\
    c = cloned_event now id e /\ db_events (ca_db s') = <[id := c]> (db_events (ca_db s)) /\
    (up 3%nat = true -> Inj (=) (=) ids -> (forall i, db_tiers (ca_db s) !! ids i = None) ->
     (forall k t, db_tiers (ca_db s) !! k = Some t -> tt_event t <> id) ->
     (tier_rows (ca_db s') id).*2 ≡ₚ fresh_tier id <$> (tier_rows (ca_db s) source).*2).
Proof.
  unfold clone_event_with. destruct (_ ≫= _) as [[c0 s1]|err] eqn:Hr; [|done]. intros [= <- <-].
  oks. unfold insert_event in *. oks. simplify_eq. bools. exists x1.
  split; [done|]. split; [by eexists|]. split; [congruence|]. split; [done|].
  assert (forall s2, ca_db (if up 5%nat then s2 <| ca_list := None |> else s2) = ca_db s2) as E5 by (intros; by destruct (up 5%nat)).
  rewrite E5. assert (forall s2, ca_db (copy_categories (up 4%nat) source id s2) = ca_db s2) as E4
    by (intros; unfold copy_categories; by destruct (up 4%nat)).
  rewrite E4. split.
  - cbn. by rewrite copy_tiers_events.
  - intros Hup Hinj Hfresh Hid. rewrite Hup. cbn [ca_db upd]. rewrite copy_tiers_rows by done.
    rewrite fmap_imap. rewrite (imap_ext _ (const (fun p => fresh_tier id p.2))) by done.
    rewrite imap_const, <- list_fmap_compose. reflexivity.
Qed.

(** ** Exports *)

(** An export goes to whoever sends the token of the administration, or to a caller that
    is the organizer of the event. *)
Theorem export_authorised `{CatalogText} `{Tokens} sch now up admin h id s csv :
  export_attendees_csv sch now up admin h id s = Ok csv ->
  exists e, db_events (ca_db s) !! id = Some e /\ e_is_flagged e = false /\
    ((exists a t, admin = Some a /\ a <> ""%string /\ hd_authorization h = Some t /\ bearer_token t = a) \/
     (exists w, extract_auth now h = Ok w /\
        (db_organizers (ca_db s) !! e_organizer_id e = Some (Some w) \/ uuid_text (e_organizer_id e) = w))).
Proof.
  unfold export_attendees_csv. intros He. oks. unfold public_event in *.
  destruct (db_events (ca_db s) !! id) as [e|] eqn:Hid; [|done]. cbn in *.
  destruct (e_is_flagged e) eqn:Hf; [done|]. simplify_eq. exists e. split; [done|]. split; [done|].
  destruct x as [w|].
  - right. exists w. split.
    + unfold verify_export_attendees_auth in *. repeat case_match; oks; congruence.
    + oks. cbn in *. destruct (db_organizers (ca_db s) !! e_organizer_id e) as [y|]; [|done].
      repeat case_bool_decide; [left; congruence|left; congruence|by right|done].
  - left. unfold verify_export_attendees_auth in *. destruct admin as [a|]; [|by oks].
    destruct (hd_authorization h) as [t|] eqn:Ht; [|by oks]. case_match eqn:Hc; [|by oks].
    apply andb_true_iff in Hc as [Hn ?%bool_decide_eq_true]. exists a, t. unfold is_empty in Hn. by bools.
Qed.
(** No cell starts a formula. *)
Lemma sanitized_safe f c l : chars_of (sanitize_csv_field f) = c :: l -> c ∉ ["="; "+"; "-"; "@"]%char.
Proof.
  unfold sanitize_csv_field, starts_with. destruct f as [|a f]; [done|].
  destruct f; destruct a as [[] [] [] [] [] [] [] []]; intros Hc;
    apply (f_equal head) in Hc; vm_compute in Hc; apply (inj Some) in Hc; subst c; apply (bool_decide_unpack _); by vm_compute.
Qed.

(** ** Pages of a category *)
Theorem category_pages `{Base64} `{cursor_pagination.Json EventCursor} `{!CursorLaws EventCursor}
    now limit count categories category s :
  let size := page_size (validate (mkCursorParams limit None count)) in
  let listed := events_of (ca_db s) (in_category now s category) in
  category ∈ categories -> keyed (ca_db s) ->
  (forall e, e ∈ listed -> is_Some (page_cursor (ca_db s) e ≫= encode_cursor)) ->
  exists pages,
    follow (fun t (_ : unit) => (list_events_by_category now (fun _ => true) categories category (mkCursorParams limit t count) s, tt))
      (S (length listed)) None tt = Some pages
    /\ concat pages = read_event (ca_db s) StartTime <$> shown size (order_by start_key (Asc, Asc) listed)
    /\ Forall (fun p => (length p <= size)%nat) pages.
Proof.
  intros size listed Hc Hk Henc. apply (start_pages id); [done..|]. intros t c' its nx st Ht Hs.
  unfold list_events_by_category, answers. rewrite bool_decide_true by done. cbn [vc_cursor validate cp_cursor negb err_if mbind result_bind].
  rewrite Ht. cbn [mbind result_bind].
  change (page_size (validate (mkCursorParams limit t count)))
    with (page_size (validate (mkCursorParams limit None count))).
  rewrite Hs. eexists _, _. split; [reflexivity|]. cbn. by rewrite list_fmap_id.
Qed.

(** ** The weight of a language *)
Lemma insert_weighted_perm x l : insert_weighted x l ≡ₚ x :: l.
Proof. induction l as [|y l IH]; cbn; [done|]. case_match; [done|]. rewrite IH. by constructor. Qed.
Lemma by_weight_perm l : by_weight l ≡ₚ l.
Proof. induction l as [|x l IH]; cbn; [done|]. by rewrite insert_weighted_perm, IH. Qed.
Lemma insert_weighted_sorted x l : StronglySorted (fun a b : Q * string => b.1 <= a.1)%Q l ->
  StronglySorted (fun a b : Q * string => b.1 <= a.1)%Q (insert_weighted x l).
Proof.
  induction 1 as [|y l Hl IH Hy]; cbn; [repeat constructor|]. destruct (Qle_bool y.1 x.1) eqn:Hq.
  - apply Qle_bool_iff in Hq. constructor; [by constructor|]. constructor; [done|].
    eapply Forall_impl; [exact Hy|]. intros z Hz. exact (Qle_trans _ _ _ Hz Hq).
  - constructor; [done|]. rewrite insert_weighted_perm. constructor; [|done].
    destruct (Qlt_le_dec x.1 y.1) as [Hlt|Hle]; [by apply Qlt_le_weak|]. apply Qle_bool_iff in Hle. congruence.
Qed.
Lemma by_weight_sorted l : StronglySorted (fun a b : Q * string => b.1 <= a.1)%Q (by_weight l).
Proof. induction l as [|x l IH]; cbn; [constructor|]. by apply insert_weighted_sorted. Qed.
(** Without an explicit language, the language of a request is one of its header with the
    highest weight. *)
Theorem best_locale_weight `{CatalogText} header tag : best_locale (Some header) None = Some tag ->
  let l := omap weighted_tag (split_on "," (chars_of header)) in
  exists q, (q, tag) ∈ l /\ forall y, y ∈ l -> (y.1 <= q)%Q.
Proof.
  unfold best_locale. cbn. intros (x & Hx & ->)%fmap_Some. exists x.1.
  pose proof (by_weight_sorted (omap weighted_tag (split_on "," (chars_of header)))) as Hs.
  destruct (by_weight _) as [|y l] eqn:Hb; [done|]. injection Hx as ->. setoid_rewrite <- by_weight_perm at 1 2. rewrite Hb.
  split; [destruct x; by left|]. intros y [->|Hy]%elem_of_cons; [apply Qle_refl|].
  inversion_clear Hs as [|?? _ Hall]. by eapply Forall_forall in Hall.
Qed.

(** ** Samples *)
Module CatalogSample.
#[local] Instance texts : CatalogText := {|
  uuid_text n := pretty n; json_vec _ := ""%string; sha256_hex s := s;
  parse_f32 s := if bool_decide (s = "0.5"%string) then Some (1 # 2)%Q else Some 1%Q; rfc3339 n := pretty n |}.
(** A schema that fills the slug and knows the label of a draft. *)
Definition schema : Schema := mkSchema (fun id => Some (pretty id)) ["draft"; "published"]%string "published" true.
Definition empty : Catalog := mkCatalog (mkEventDb ∅ ∅ {[7 := Some "GO"%string]} ∅) ∅ ∅ ∅ ∅ ∅ None.
Definition spanish : EventTranslationInput := mkTranslationInput " ES " " Concierto " (Some " Hoy "%string).
Definition brazilian : EventTranslationInput := mkTranslationInput "pt-BR" "Show" None.
Definition portuguese : EventTranslationInput := mkTranslationInput "pt-PT" "Concerto" None.
Definition asked (l : list EventTranslationInput) : CreateEventRequest :=
  mkCreateEvent 7 "Concert" (Some "Today"%string) "Lagos" 1000 None None (Some "a@b.c"%string) None None (Some l).
Definition made (l : list EventTranslationInput) : Result AppError Event * Catalog * list Effect :=
  create_event_with schema 0 (fun _ => true) 1 Z.of_nat (asked l) empty.
Definition title_for (lang : string) (s : Catalog) : Result AppError string :=
  d ← (get_event 10 (fun _ => true) 1 false (Some lang) None s).1; Ok (e_title (ed_event d)).

Lemma empty_untranslated id : untranslated empty id.
Proof. by intros l. Qed.
Lemma empty_keyed : forall k r, ca_translations empty !! k = Some r -> key_of_row r = k.
Proof. by intros. Qed.


(** Asked for [pt-PT], the page shows the text of [pt-BR]. *)
Example exact_locale_ignored :
  title_for "pt-PT" (made [portuguese; brazilian]).1.2 = Ok "Show"%string.
Proof. by vm_compute. Qed.
(** A name with a comma moves the columns of its row. *)
Example comma_moves_columns :
  csv_row (mkAttendee 1 (Some "A,B"%string) (Some "=C"%string) 2 3)
  = Some ("A,B,'=C,2,3" +:+ String "010"%char "")%string.
Proof. by vm_compute. Qed.
Example header_language :
  best_locale (Some "fr;q=0.5, ES-mx , *"%string) None = Some "es-mx"%string.
Proof. by vm_compute. Qed.

Definition sold : Catalog :=
  let db := mkEventDb {[1 := new_event 0 1 (asked [])]} {[11 := mkTier 1 "vip" 2500 10 0]} {[7 := Some "GO"%string]} ∅ in
  empty <| ca_db := db |>.
Lemma clone_exact_witness :
  let r := clone_event_with schema 5 (fun _ => true) (Some "GO"%string) 1 2 (fun i => 20 + Z.of_nat i) sold in
  r.1 = Ok (cloned_event 5 2 (new_event 0 1 (asked []))) /\
  (tier_rows (ca_db r.2) 2).*2 ≡ₚ [mkTier 2 "vip" 2500 10 10].
Proof.
  destruct (clone_exact schema 5 (fun _ => true) (Some "GO"%string) 1 2 (fun i => 20 + Z.of_nat i) sold
              (cloned_event 5 2 (new_event 0 1 (asked [])))
              (clone_event_with schema 5 (fun _ => true) (Some "GO"%string) 1 2 (fun i => 20 + Z.of_nat i) sold).2)
    as (e & He & _ & _ & _ & _ & Ht); [by vm_compute|]. split; [by vm_compute|].
  rewrite Ht; [by vm_compute|done|intros i j; lia| |].
  - intros i. cbn. apply lookup_singleton_ne. lia.
  - intros k t Hk. cbn in Hk. by apply lookup_singleton_Some in Hk as [<- <-].
Defined.
End CatalogSample.
