(* ===== verification/Telemetry.v ===== *)
(** * Server: live telemetry over WebSockets

    [handlers/ws.rs]: the broadcasters of purchases and of telemetry, the upgrade
    requests and the loops of the sockets.  The broadcast channel of tokio is an
    interface ([Broadcast]) with its documented behaviour ([BroadcastLaws]): a receiver
    gets the events sent after its subscription in their order, or learns how many it
    has missed when more than the capacity lie between it and the sender.  A socket moves
    by one turn of its [select!]: an event of the channel or a frame of the client.  The
    readings and writings of texts are an interface ([WsText]). *)

From stdpp Require Import base tactics numbers list strings gmap.
From S2P Require Import Prelude.
From S2P Require Import ServerPrelude.
From S2P Require Import IndexerEvent.
From S2P Require Import Auth.
From S2P Require Import EventListing.
From S2P Require Import Float64.
From S2P Require Import Text.
Open Scope Z_scope.

(** ** The broadcast channel *)
Inductive RecvResult (E : Type) := Received (e : E) | Lagged (n : nat) | Closed | Pending.
Arguments Received {E}. Arguments Lagged {E}. Arguments Closed {E}. Arguments Pending {E}.

Class Broadcast (E : Type) := {
  Chan : Type; Rx : Type;
  channel : nat -> Chan;
  chan_subscribe : Chan -> Rx * Chan;
  chan_send : E -> Chan -> option nat * Chan; (* how many receivers there are, [None] without *)
  chan_recv : Rx -> Chan -> RecvResult E * Rx;
  chan_drop : Rx -> Chan -> Chan;
}.
Arguments Chan E {_}. Arguments Rx E {_}.

(** What is relied on: [sent] are the events that had a receiver, [next] counts those
    that a receiver is past.  The sender lives as long as the server. *)
Class BroadcastLaws E `{Broadcast E} := {
  sent : Chan E -> list E; next : Rx E -> nat; capacity : Chan E -> nat;
  sent_channel n : sent (channel n) = [];
  capacity_channel k : capacity (channel (2 ^ k)) = (2 ^ k)%nat;
  subscribe_law c : let '(r, c') := chan_subscribe c in
    next r = length (sent c) /\ sent c' = sent c /\ capacity c' = capacity c;
  send_law e c : let '(n, c') := chan_send e c in capacity c' = capacity c /\
    sent c' = match n with Some _ => sent c ++ [e] | None => sent c end;
  drop_law r c : sent (chan_drop r c) = sent c /\ capacity (chan_drop r c) = capacity c;
  recv_law r c : (next r <= length (sent c))%nat ->
    match chan_recv r c with
    | (Received e, r') => sent c !! next r = Some e /\ next r' = S (next r)
                          /\ (length (sent c) <= next r + capacity c)%nat
    | (Lagged k, r') => (0 < k)%nat /\ next r' = (next r + k)%nat /\ (next r' + capacity c)%nat = length (sent c)
    | (Closed, _) => False
    | (Pending, r') => r' = r /\ next r = length (sent c)
    end;
}.

(** ** Data *)
Definition CHANNEL_CAPACITY : nat := 2 ^ 7.
Arguments CHANNEL_CAPACITY : simpl never.

Record PurchaseEvent := mkPurchase {
  pe_event_id : Uuid; pe_ticket_tier_id : Uuid; pe_quantity : Z; pe_amount : F64;
  pe_currency : string; pe_purchased_at : string;
}.
Record ScanVelocityEvent := mkVelocity {
  sv_event_id : Uuid; sv_gate_id : string; sv_scans_per_minute : F64; sv_total_scans : Z; sv_timestamp : string;
}.
Record GateMetrics := mkGate {
  gm_gate_id : string; gm_gate_name : string; gm_current_wait_time_minutes : F64;
  gm_throughput_per_minute : F64; gm_staff_count : Z; gm_congestion_level : string;
}.
Record GateHeatmapEvent := mkHeatmap { gh_event_id : Uuid; gh_gates : list GateMetrics; gh_timestamp : string }.
Record StaffAuthEvent := mkStaff {
  sa_event_id : Uuid; sa_staff_wallet : string; sa_gate_id : string; sa_authorized : bool; sa_timestamp : string;
}.
Inductive OrganizerEvent :=
  | ScanVelocity (e : ScanVelocityEvent) | GateHeatmap (e : GateHeatmapEvent) | StaffAuth (e : StaffAuthEvent).

Inductive ClientMessage := Ping | Ack (timestamp : string).
Inductive ClientMessageParseError := Empty | InvalidJson | UnknownType (t : string).

Class WsText := {
  parse_uuid : string -> option Uuid;
  from_str : string -> option Json;
  purchase_json : PurchaseEvent -> option string;
  organizer_json : OrganizerEvent -> option string;
}.

(** [serde_json::from_value] for the tagged enum: an object with its tag, or a sequence
    that starts with it. *)
Definition as_message (value : Json) : option ClientMessage :=
  match value with
  | JObject fields =>
      match lookup_field "type" fields, lookup_field "timestamp" fields with
      | Some (JString t), ts =>
          if bool_decide (t = "ping"%string) then Some Ping
          else if bool_decide (t = "ack"%string) then
            match ts with Some (JString x) => Some (Ack x) | _ => None end
          else None
      | _, _ => None
      end
  | JArray [JString t] => if bool_decide (t = "ping"%string) then Some Ping else None
  | JArray [JString t; JString x] => if bool_decide (t = "ack"%string) then Some (Ack x) else None
  | _ => None
  end.
Definition type_field (value : Json) : string :=
  match value with
  | JObject fields => match lookup_field "type" fields with Some (JString t) => t | _ => "<missing>" end
  | _ => "<missing>"
  end.
Definition is_empty_text (s : string) : bool := bool_decide (Text.trim s = ""%string).
Definition parse_client_message `{WsText} (text : string) : Result ClientMessageParseError ClientMessage :=
  err_if (is_empty_text text) Empty;;
  value ← ok_or (from_str text) InvalidJson;
  ok_or (as_message value) (UnknownType (type_field value)).

(** ** Sockets *)
Inductive Frame := TextFrame (text : string) | PongFrame (payload : string).
(** What the client sends; [Failing] is an error of the socket, after which [recv] ends
    the stream, [Other] a binary or pong frame. *)
Inductive ClientFrame :=
  | CloseFrame | EndOfStream | PingFrame (payload : string) | TextIn (text : string) | OtherFrame | Failing.
(** The arm of [select!] that is taken, with the outcome of the sending. *)
Inductive Turn := FromChannel (delivered : bool) | FromClient (f : ClientFrame) (delivered : bool).

Section Hub.
Context {E : Type} `{Broadcast E}.

(** A socket with its filter, what was sent over it and how many events it has missed;
    [so_from] counts the events published before it came. *)
Record Socket := mkSocket {
  so_wallet : string; so_event : option Uuid; so_rx : Rx E; so_open : bool;
  so_frames : list Frame; so_missed : nat; so_from : nat;
}.
#[export] Instance Socket_eta : Eta Socket := fun s =>
  mkSocket (so_wallet s) (so_event s) (so_rx s) (so_open s) (so_frames s) (so_missed s) (so_from s).

(** The shared state: the channel and the sockets; [hub_log] are the published events
    that had a receiver. *)
Record Hub := mkHub { hub_chan : Chan E; hub_sockets : list Socket; hub_log : list E }.
#[export] Instance Hub_eta : Eta Hub := fun h => mkHub (hub_chan h) (hub_sockets h) (hub_log h).
Definition new_hub : Hub := mkHub (channel CHANNEL_CAPACITY) [] [].

Definition publish (e : E) (h : Hub) : nat * Hub :=
  let '(n, c) := chan_send e (hub_chan h) in
  (default 0%nat n,
   h <| hub_chan := c |> <| hub_log := match n with Some _ => hub_log h ++ [e] | None => hub_log h end |>).
Definition subscribe (wallet : string) (event : option Uuid) (h : Hub) : Hub :=
  let '(r, c) := chan_subscribe (hub_chan h) in
  h <| hub_chan := c |>
    <| hub_sockets := hub_sockets h ++ [mkSocket wallet event r true [] 0 (length (hub_log h))] |>.

Context (wants : option Uuid -> E -> bool) (json : E -> option string).

Definition close (s : Socket) (c : Chan E) : Socket * Chan E := (s <| so_open := false |>, chan_drop (so_rx s) c).
Definition socket_turn (t : Turn) (s : Socket) (c : Chan E) : Socket * Chan E :=
  match t with
  | FromChannel delivered =>
      let '(r, rx) := chan_recv (so_rx s) c in
      let s := s <| so_rx := rx |> in
      match r with
      | Received e =>
          if wants (so_event s) e then
            match json e with
            | Some text =>
                if delivered then (s <| so_frames := so_frames s ++ [TextFrame text] |>, c) else close s c
            | None => (s, c)
            end
          else (s, c)
      | Lagged n => (s <| so_missed := (so_missed s + n)%nat |>, c)
      | Closed => close s c
      | Pending => (s, c)
      end
  | FromClient (CloseFrame | EndOfStream) _ => close s c
  | FromClient (PingFrame payload) delivered =>
      (if delivered then s <| so_frames := so_frames s ++ [PongFrame payload] |> else s, c)
  | FromClient (TextIn _ | OtherFrame | Failing) _ => (s, c)
  end.
Definition turn (i : nat) (t : Turn) (h : Hub) : Hub :=
  match hub_sockets h !! i with
  | Some s => if so_open s then
                let '(s, c) := socket_turn t s (hub_chan h) in
                h <| hub_chan := c |> <| hub_sockets := <[i := s]> (hub_sockets h) |>
              else h
  | None => h
  end.
End Hub.
Arguments Socket E {_}. Arguments Hub E {_}.

(** [handle_socket] filters the purchases of one event; [handle_organizer_socket] forwards
    everything, whoever listens. *)
Definition wants_purchase (event : option Uuid) (e : PurchaseEvent) : bool :=
  match event with Some id => bool_decide (pe_event_id e = id) | None => true end.
Definition handle_socket `{WsText} `{Broadcast PurchaseEvent} := socket_turn wants_purchase purchase_json.
Definition wants_telemetry (event : option Uuid) (e : OrganizerEvent) : bool := true.
Definition handle_organizer_socket `{WsText} `{Broadcast OrganizerEvent} := socket_turn wants_telemetry organizer_json.

(** ** Upgrade requests *)
Inductive WsError := BadRequest | Unauthorized | NotAuthorized | Unavailable.
Record WsRequest := mkWs { ws_event_id : option string; ws_token : option string; ws_headers : Headers }.
Definition token_of (q : WsRequest) : option string :=
  match hd_authorization (ws_headers q) ≫= Auth.strip_prefix "Bearer " with
  | Some t => Some t
  | None => ws_token q
  end.
Definition caller `{Tokens} (now : Z) (q : WsRequest) : Result WsError string :=
  token ← ok_or (token_of q) Unauthorized;
  claims ← map_err (fun _ => Unauthorized) (verify_jwt now token);
  Ok (c_sub claims).
Definition organizes (db : EventDb) (event : Uuid) (wallet : string) : bool :=
  match db_events db !! event with
  | Some e => bool_decide (db_organizers db !! e_organizer_id e = Some (Some wallet))
  | None => false
  end.
Definition ws_purchases_handler `{Tokens} `{WsText} `{Broadcast PurchaseEvent} (now : Z) (up : bool) (db : EventDb)
    (q : WsRequest) (h : Hub PurchaseEvent) : Result WsError (Hub PurchaseEvent) :=
  event_id ← ok_or (ws_event_id q ≫= parse_uuid) BadRequest;
  wallet ← caller now q;
  err_if (negb up) Unavailable;;
  err_if (negb (organizes db event_id wallet)) NotAuthorized;;
  Ok (subscribe wallet (Some event_id) h).
Definition ws_organizer_handler `{Tokens} `{Broadcast OrganizerEvent} (now : Z) (q : WsRequest) (h : Hub OrganizerEvent)
    : Result WsError (Hub OrganizerEvent) :=
  wallet ← caller now q;
  Ok (subscribe wallet None h).

(** ** Runs of the server *)
Inductive Act (E : Type) :=
  | Publish (e : E)
  | Upgrade (now : Z) (up : bool) (db : EventDb) (q : WsRequest)
  | Turns (i : nat) (t : Turn).
Arguments Publish {E}. Arguments Upgrade {E}. Arguments Turns {E}.

Section Runs.
Context `{Tokens} `{WsText}.
Definition upgraded {E} `{Broadcast E} (r : Result WsError (Hub E)) (h : Hub E) : Hub E :=
  match r with Ok h => h | Err _ => h end.
Definition purchase_act `{Broadcast PurchaseEvent} (a : Act PurchaseEvent) (h : Hub PurchaseEvent) : Hub PurchaseEvent :=
  match a with
  | Publish e => (publish e h).2
  | Upgrade now up db q => upgraded (ws_purchases_handler now up db q h) h
  | Turns i t => turn wants_purchase purchase_json i t h
  end.
Definition organizer_act `{Broadcast OrganizerEvent} (a : Act OrganizerEvent) (h : Hub OrganizerEvent)
    : Hub OrganizerEvent :=
  match a with
  | Publish e => (publish e h).2
  | Upgrade now _ _ q => upgraded (ws_organizer_handler now q h) h
  | Turns i t => turn wants_telemetry organizer_json i t h
  end.
Definition purchase_run `{Broadcast PurchaseEvent} (l : list (Act PurchaseEvent)) : Hub PurchaseEvent :=
  foldl (fun h a => purchase_act a h) new_hub l.
Definition organizer_run `{Broadcast OrganizerEvent} (l : list (Act OrganizerEvent)) : Hub OrganizerEvent :=
  foldl (fun h a => organizer_act a h) new_hub l.
End Runs.

(** ** What a socket has been sent *)
Definition segment {A} (l : list A) (a b : nat) : list A := take (b - a) (drop a l).
Definition text_in (f : Frame) : option string := match f with TextFrame t => Some t | PongFrame _ => None end.
Definition texts {E} `{Broadcast E} (s : Socket E) : list string := omap text_in (so_frames s).

Lemma segment_app {A} (l k : list A) a b : (a <= b <= length l)%nat -> segment (l ++ k) a b = segment l a b.
Proof. intros. unfold segment. rewrite drop_app_le by lia. apply take_app_le. rewrite length_drop. lia. Qed.
Lemma segment_S {A} (l : list A) a b x : (a <= b)%nat -> l !! b = Some x -> segment l a (S b) = segment l a b ++ [x].
Proof.
  intros ? Hx. unfold segment. rewrite Nat.sub_succ_l by lia. apply take_S_r. rewrite lookup_drop.
  by replace (a + (b - a))%nat with b by lia.
Qed.
Lemma segment_more {A} (l : list A) a b k : (a <= b)%nat -> segment l a b `prefix_of` segment l a (b + k).
Proof.
  intros. unfold segment. replace (b + k - a)%nat with ((b - a) + k)%nat by lia.
  exists (take k (drop (b - a) (drop a l))). by rewrite take_take_drop.
Qed.
Lemma length_segment {A} (l : list A) a b : (a <= b <= length l)%nat -> length (segment l a b) = (b - a)%nat.
Proof. intros. unfold segment. rewrite length_take, length_drop. lia. Qed.
Lemma sublist_whole {A} (l k : list A) : l `sublist_of` k -> length l = length k -> l = k.
Proof.
  induction 1 as [|x l k Hs IH|x l k Hs IH]; cbn; intros Hl; [done| |].
  - by rewrite IH by lia.
  - apply sublist_length in Hs. lia.
Qed.

Section Feed.
Context {E : Type} `{BroadcastLaws E} (wants : option Uuid -> E -> bool) (json : E -> option string).
Definition feed (s : Socket E) (e : E) : option string := if wants (so_event s) e then json e else None.

Record served (log : list E) (s : Socket E) (seen : list E) : Prop := mkServed {
  se_place : (so_from s <= next (so_rx s) <= length log)%nat;
  se_seen : seen `sublist_of` segment log (so_from s) (next (so_rx s));
  se_count : (length seen + so_missed s)%nat = (next (so_rx s) - so_from s)%nat;
  se_texts : texts s `prefix_of` omap (feed s) seen;
  se_open : so_open s = true -> texts s = omap (feed s) seen;
}.
Record hub_ok (h : Hub E) : Prop := mkHubOk {
  ho_log : sent (hub_chan h) = hub_log h;
  ho_capacity : capacity (hub_chan h) = CHANNEL_CAPACITY;
  ho_sockets : Forall (fun s => exists seen, served (hub_log h) s seen) (hub_sockets h);
}.

Lemma new_hub_ok : hub_ok new_hub.
Proof. split; cbn; [apply sent_channel|apply (capacity_channel 7)|constructor]. Qed.
Lemma served_more log k s seen : served log s seen -> served (log ++ k) s seen.
Proof. intros [P1 P2 P3 P4 P5]. split; rewrite ?segment_app by done; try done. rewrite length_app. lia. Qed.
Lemma publish_ok e h : hub_ok h -> hub_ok (publish e h).2.
Proof.
  intros [L K S]. unfold publish. pose proof (send_law e (hub_chan h)) as Hl.
  destruct (chan_send e (hub_chan h)) as [n c]. destruct Hl as [Hc Hs]. split; cbn; [|by rewrite Hc|].
  - rewrite Hs, L. by destruct n.
  - eapply Forall_impl; [exact S|]. intros s [seen Hs']. exists seen. destruct n; [by apply served_more|done].
Qed.
Lemma subscribe_ok w ev h : hub_ok h -> hub_ok (subscribe w ev h).
Proof.
  intros [L K S]. unfold subscribe. pose proof (subscribe_law (hub_chan h)) as Hl.
  destruct (chan_subscribe (hub_chan h)) as [r c]. destruct Hl as (Hn & Hs & Hc).
  split; cbn; [by rewrite Hs|by rewrite Hc|]. apply Forall_app. split; [done|]. constructor; [|constructor].
  exists []. rewrite L in Hn. split; cbn; rewrite ?Hn; try done; try lia. apply sublist_nil_l.
Qed.

Lemma turn_served t s c seen s' c' : served (sent c) s seen -> so_open s = true -> socket_turn wants json t s c = (s', c') ->
  sent c' = sent c /\ capacity c' = capacity c /\ (exists seen', served (sent c) s' seen') /\
  (so_wallet s', so_event s', so_from s') = (so_wallet s, so_event s, so_from s).
Proof.
  intros [P1 P2 P3 P4 P5] Ho. specialize (P5 Ho). destruct t as [dl|f dl]; cbn.
  - pose proof (recv_law (so_rx s) c ltac:(lia)) as Hl. destruct (chan_recv (so_rx s) c) as [r rx].
    destruct r as [e|n| |].
    + destruct Hl as (He & Hn & _).
      assert ((seen ++ [e]) `sublist_of` segment (sent c) (so_from s) (next rx)) as Hsub.
      { rewrite Hn. rewrite (segment_S _ _ _ e) by (done || lia). by apply sublist_app. }
      assert (S (next (so_rx s)) <= length (sent c))%nat as Hle by (by apply lookup_lt_Some in He).
      intros Ht. assert (feed s e = if wants (so_event s) e then json e else None) as Hf by done.
      destruct (wants (so_event s) e); [destruct (json e) as [x|]; [destruct dl|]|];
        injection Ht as <- <-; cbn; repeat split; try apply drop_law; exists (seen ++ [e]);
        (split; cbn [so_from so_rx so_missed so_open so_frames close upd eta]; rewrite ?omap_app, ?length_app; cbn; rewrite ?Hn;
          [lia|by rewrite <- Hn|cbn; lia| |]); unfold texts in *; cbn; rewrite ?omap_app; cbn;
        change (feed _ e) with (feed s e); rewrite Hf; rewrite ?P5, ?app_nil_r; try done; by apply prefix_app_r.
    + destruct Hl as (Hk & Hn & Hc). intros [= <- <-]. cbn. repeat split. exists seen.
      split; cbn; rewrite ?Hn; [lia| |lia|exact P4|done].
      etrans; [exact P2|]. destruct (segment_more (sent c) (so_from s) (next (so_rx s)) n) as [k ->]; [lia|]. by apply sublist_inserts_r.
    + done.
    + destruct Hl as [-> _]. intros [= <- <-]. cbn. repeat split. exists seen. by split.
  - intros Ht.
    destruct f, dl; injection Ht as <- <-; cbn; repeat split; try apply drop_law; try (exists seen; by split).
    exists seen. split; cbn; try done; unfold texts; cbn; rewrite omap_app; cbn; by rewrite app_nil_r.
Qed.
Lemma turn_ok i t h : hub_ok h -> hub_ok (turn wants json i t h).
Proof.
  intros [L K S]. unfold turn. destruct (hub_sockets h !! i) as [s|] eqn:Hi; [|done].
  destruct (so_open s) eqn:Ho; [|done]. destruct (Forall_lookup_1 _ _ _ _ S Hi) as [seen Hs].
  destruct (socket_turn wants json t s (hub_chan h)) as [s' c'] eqn:Ht. rewrite <- L in Hs.
  destruct (turn_served _ _ _ _ _ _ Hs Ho Ht) as (Hs' & Hc & Hex & _).
  split; cbn; [by rewrite Hs'|by rewrite Hc|]. apply Forall_insert; [done|]. by rewrite <- L.
Qed.

(** An open socket whose client takes its frames is at the head of the channel after one
    turn more than the capacity. *)
Definition behind (s : Socket E) (c : Chan E) : nat := (length (sent c) - next (so_rx s))%nat.
Lemma turn_advances s c seen : served (sent c) s seen -> so_open s = true ->
  let '(s', c') := socket_turn wants json (FromChannel true) s c in
  c' = c /\ so_open s' = true /\
  (behind s' c <= capacity c)%nat /\ (behind s c <= capacity c -> behind s' c = behind s c - 1)%nat.
Proof.
  intros Hs Ho. pose proof (recv_law (so_rx s) c ltac:(apply Hs)) as Hl. cbn. unfold behind.
  pose proof (se_place _ _ _ Hs).
  destruct (chan_recv (so_rx s) c) as [r rx]. destruct r as [e|n| |]; [| |done|].
  - destruct Hl as (He & Hn & Hc). repeat case_match; simplify_eq; cbn; rewrite ?Hn; repeat split; try done; intros; lia.
  - destruct Hl as (Hk & Hn & Hc). cbn. rewrite Hn. repeat split; try done; intros; lia.
  - destruct Hl as [-> Hn]. cbn. repeat split; try done; intros; lia.
Qed.
End Feed.

Section Drain.
Context {E : Type} `{BroadcastLaws E} (wants : option Uuid -> E -> bool) (json : E -> option string).
Definition drain (n i : nat) (h : Hub E) : Hub E := Nat.iter n (turn wants json i (FromChannel true)) h.
Lemma drained n i : forall h s, hub_ok wants json h -> hub_sockets h !! i = Some s -> so_open s = true ->
  exists s', hub_sockets (drain n i h) !! i = Some s' /\ so_open s' = true /\ hub_log (drain n i h) = hub_log h /\
    hub_ok wants json (drain n i h) /\
    (so_wallet s', so_event s', so_from s') = (so_wallet s, so_event s, so_from s) /\
    (length (hub_log h) - next (so_rx s') <= match n with O => length (hub_log h) | S n => CHANNEL_CAPACITY - n end)%nat.
Proof.
  induction n as [|n IH]; intros h s Hok Hi Ho.
  - exists s. repeat split; (done || apply Hok || lia).
  - destruct (IH h s Hok Hi Ho) as (s1 & Hi1 & Ho1 & Hl1 & Hok1 & Hw1 & Hb1).
    change (drain (S n) i h) with (turn wants json i (FromChannel true) (drain n i h)).
    pose proof (turn_ok wants json i (FromChannel true) _ Hok1) as Hok2. revert Hok2.
    unfold turn. rewrite Hi1, Ho1. destruct (Forall_lookup_1 _ _ _ _ (ho_sockets _ _ _ Hok1) Hi1) as [seen Hs].
    rewrite <- (ho_log _ _ _ Hok1) in Hs. pose proof (turn_advances _ _ _ _ _ Hs Ho1) as Ha.
    destruct (socket_turn wants json (FromChannel true) s1 (hub_chan (drain n i h))) as [s2 c2] eqn:Ht.
    destruct Ha as (-> & Ho2 & Hb2 & Hb3). destruct (turn_served _ _ _ _ _ _ _ _ Hs Ho1 Ht) as (_ & _ & _ & Hw2).
    intros Hok2. exists s2. cbn. rewrite list_lookup_insert_eq by (by eapply lookup_lt_Some).
    repeat split; try done; try apply Hok2; try (by rewrite Hw2).
    unfold behind in *. rewrite (ho_log _ _ _ Hok1), Hl1, (ho_capacity _ _ _ Hok1) in *. destruct n; lia.
Qed.
End Drain.

(** ** The purchases *)
Section Purchases.
Context `{Tokens} `{WsText} `{BroadcastLaws PurchaseEvent}.

Lemma purchase_run_ok l : hub_ok wants_purchase purchase_json (purchase_run l).
Proof.
  unfold purchase_run. induction l as [|a l IH] using rev_ind; [apply new_hub_ok|]. rewrite foldl_app. cbn.
  destruct a as [e|now up db q|i t]; cbn; [by apply publish_ok| |by apply turn_ok].
  destruct (ws_purchases_handler now up db q _) eqn:Hq; [|done]. unfold ws_purchases_handler in Hq. oks.
  subst. by apply subscribe_ok.
Qed.

Lemma run_turns n i : forall h, foldl (fun h a => purchase_act a h) h (replicate n (Turns i (FromChannel true)))
  = drain wants_purchase purchase_json n i h.
Proof. unfold drain. induction n as [|n IH]; intros h; [done|]. rewrite Nat.iter_succ_r. cbn. apply IH. Qed.

(** Who a socket belongs to. *)
Definition admitted (l : list (Act PurchaseEvent)) (s : Socket PurchaseEvent) : Prop :=
  exists now db q event, Upgrade now true db q ∈ l /\ so_event s = Some event /\
    caller now q = Ok (so_wallet s) /\ organizes db event (so_wallet s) = true.
Lemma admitted_app l k s s' : admitted l s -> so_wallet s' = so_wallet s -> so_event s' = so_event s -> admitted (l ++ k) s'.
Proof. intros (now & db & q & ev & Hin & He & Hc & Ho) Hw Hv. exists now, db, q, ev. rewrite Hw, Hv. set_solver. Qed.
Lemma run_admitted l : Forall (admitted l) (hub_sockets (purchase_run l)).
Proof.
  unfold purchase_run. induction l as [|a l IH] using rev_ind; [constructor|]. rewrite foldl_app. cbn.
  pose proof (purchase_run_ok l) as Hok. unfold purchase_run in Hok. set (h := foldl _ _ l) in *.
  assert (Forall (admitted (l ++ [a])) (hub_sockets h)) as IH'
    by (eapply Forall_impl; [exact IH|]; intros s Hs; by eapply admitted_app).
  destruct a as [e|now up db q|i t]; cbn.
  - unfold publish. by destruct (chan_send e (hub_chan h)).
  - destruct (ws_purchases_handler now up db q h) eqn:Hq; [|done]. unfold ws_purchases_handler in Hq. oks. subst. bools.
    unfold subscribe. destruct (chan_subscribe (hub_chan h)) as [r c]. cbn. apply Forall_app. split; [done|].
    constructor; [|constructor]. exists now, db, q, x. cbn. destruct up; [|done]. split; [set_solver|done].
  - unfold turn. destruct (hub_sockets h !! i) as [s|] eqn:Hi; [|done]. destruct (so_open s) eqn:Ho; [|done].
    destruct (Forall_lookup_1 _ _ _ _ (ho_sockets _ _ _ Hok) Hi) as [seen Hs]. rewrite <- (ho_log _ _ _ Hok) in Hs.
    destruct (socket_turn wants_purchase purchase_json t s (hub_chan h)) as [s' c'] eqn:Ht.
    destruct (turn_served _ _ _ _ _ _ _ _ Hs Ho Ht) as (_ & _ & _ & [= Hw Hv _]). cbn. apply Forall_insert; [done|].
    by apply (admitted_app l [Turns i t] s s'); [by eapply (Forall_lookup_1 _ _ _ _ IH)| |].
Qed.

(** What a dashboard shows is the truth about its own event: however publications,
    upgrades and the turns of the sockets interleave, the texts sent over a socket are
    those of the purchases of one event, in the order of their publication, each at most
    once; the socket was opened with a session of the wallet that organizes the event;
    the published events since then that it has come past are those it has seen and those
    it was told to have missed; and once its client has taken a frame at one turn more
    than the capacity of the channel, a socket that has missed nothing has been sent
    every purchase of its event that was published since it was opened. *)
Theorem purchase_feed_exact l i s : hub_sockets (purchase_run l) !! i = Some s ->
  let log := hub_log (purchase_run l) in
  admitted l s /\
  (exists seen p, (so_from s <= p <= length log)%nat /\ seen `sublist_of` segment log (so_from s) p /\
     (length seen + so_missed s)%nat = (p - so_from s)%nat /\
     texts s `prefix_of` omap (feed wants_purchase purchase_json s) seen /\
     (so_open s = true -> texts s = omap (feed wants_purchase purchase_json s) seen)) /\
  (so_open s = true -> exists s', 
     hub_sockets (purchase_run (l ++ replicate (S CHANNEL_CAPACITY) (Turns i (FromChannel true)))) !! i = Some s' /\
     (so_missed s' = 0%nat -> texts s' = omap (feed wants_purchase purchase_json s) (drop (so_from s) log))).
Proof.
  intros Hi log. pose proof (purchase_run_ok l) as Hok.
  split; [by eapply (Forall_lookup_1 _ _ _ _ (run_admitted l))|]. split.
  - destruct (Forall_lookup_1 _ _ _ _ (ho_sockets _ _ _ Hok) Hi) as [seen [P1 P2 P3 P4 P5]]. by exists seen, (next (so_rx s)).
  - intros Ho. destruct (drained _ _ (S CHANNEL_CAPACITY) i _ _ Hok Hi Ho) as (s' & Hi' & Ho' & Hl & Hok' & Hw & Hb).
    exists s'. assert (purchase_run (l ++ replicate (S CHANNEL_CAPACITY) (Turns i (FromChannel true)))
      = drain wants_purchase purchase_json (S CHANNEL_CAPACITY) i (purchase_run l)) as ->.
    { unfold purchase_run. rewrite foldl_app. apply run_turns. }
    split; [done|]. intros Hm. destruct (Forall_lookup_1 _ _ _ _ (ho_sockets _ _ _ Hok') Hi') as [seen [P1 P2 P3 P4 P5]].
    injection Hw as Hw Hv Hf. rewrite Hl, Hf in *. fold log in P1, P2, Hb.
    assert (next (so_rx s') = length log) as Hn by lia. rewrite P5 by done.
    assert (feed wants_purchase purchase_json s' = feed wants_purchase purchase_json s) as ->
      by (unfold feed; by rewrite Hv). f_equal.
    rewrite (sublist_whole _ _ P2) by (rewrite length_segment by lia; lia).
    unfold segment. rewrite Hn. apply take_ge. rewrite length_drop. lia.
Qed.
End Purchases.

(** ** An instance, and runs *)
(** A channel that keeps all events; a receiver is a place in them. *)
Record Tape (E : Type) := mkTape { tp_cap : nat; tp_events : list E; tp_receivers : nat }.
Arguments mkTape {E}. Arguments tp_cap {E}. Arguments tp_events {E}. Arguments tp_receivers {E}.
Definition tape_recv {E} (r : nat) (c : Tape E) : RecvResult E * nat :=
  match tp_events c !! r with
  | None => (Pending, r)
  | Some e =>
      let oldest := (length (tp_events c) - tp_cap c)%nat in
      if (r <? oldest)%nat then (Lagged (oldest - r), oldest) else (Received e, S r)
  end.
#[export] Instance tape_broadcast E : Broadcast E := {
  Chan := Tape E; Rx := nat;
  channel n := mkTape n [] 0;
  chan_subscribe c := (length (tp_events c), mkTape (tp_cap c) (tp_events c) (S (tp_receivers c)));
  chan_send e c := match tp_receivers c with
                   | O => (None, c)
                   | n => (Some n, mkTape (tp_cap c) (tp_events c ++ [e]) n)
                   end;
  chan_recv r c := tape_recv r c;
  chan_drop _ c := mkTape (tp_cap c) (tp_events c) (pred (tp_receivers c));
}.
#[export, program] Instance tape_laws E : BroadcastLaws E := {
  sent c := tp_events c; next r := r; capacity c := tp_cap c;
}.
Next Obligation. done. Qed.
Next Obligation. done. Qed.
Next Obligation. done. Qed.
Next Obligation. intros E e c. cbn. by destruct (tp_receivers c). Qed.
Next Obligation. done. Qed.
Next Obligation.
  intros E r c Hr. cbn in *. unfold tape_recv. destruct (tp_events c !! r) as [e|] eqn:He.
  - apply lookup_lt_Some in He as Hlt. destruct (_ <? _)%nat eqn:Hlag; nats; repeat split; try done; lia.
  - apply lookup_ge_None in He. split; [done|lia].
Qed.

Module TelemetrySample.
Import AuthSample.
Definition digit (s : string) : option Uuid := if bool_decide (s = "7"%string) then Some 7 else if bool_decide (s = "8"%string) then Some 8 else None.
Definition sale (event amount : Z) : PurchaseEvent := mkPurchase event 0 1 (Fin amount) "USDC" "".
#[export] Instance texts_sample : WsText := {
  parse_uuid := digit;
  from_str t := if bool_decide (t = "[ping]"%string) then Some (JArray [JString "ping"])
                else if bool_decide (t = "poke"%string) then Some (JObject [("type"%string, JString "poke")]) else None;
  purchase_json e := Some (pretty.pretty (match pe_amount e with Fin z => z | _ => 0 end));
  organizer_json e := Some match e with StaffAuth s => sa_staff_wallet s | _ => "" end;
}.
#[local] Existing Instance session_tokens.
Definition concert : EventDb := mkEventDb
  {[7 := mkEvent 7 1 "t" None "l" 0 None false false 0 0 0 0 100 0 None None None true true 0]} ∅
  {[1 := Some "GA"%string]} ∅.
Definition asks (event wallet : string) : Act PurchaseEvent :=
  Upgrade 0 true concert (mkWs (Some event) (Some wallet) (mkHeaders None None)).
(** A purchase before the upgrade, one of another event, two of the concert, and two
    requests that are refused. *)
Definition evening : list (Act PurchaseEvent) :=
  [Publish (sale 7 1); asks "7" "GA"; asks "7" "GB"; asks "x" "GA"; Publish (sale 7 2); Publish (sale 8 3); Publish (sale 7 4);
   Turns 0 (FromClient (PingFrame "p") true); Turns 0 (FromChannel true)].
Definition socket_of (l : list (Act PurchaseEvent)) : option (nat * list string * nat * nat) :=
  s ← hub_sockets (purchase_run l) !! 0%nat;
  Some (length (hub_sockets (purchase_run l)), texts s, so_missed s, so_from s).

Lemma purchase_feed_exact_witness : exists s s',
  hub_sockets (purchase_run evening) !! 0%nat = Some s /\ texts s = ["2"%string] /\
  hub_sockets (purchase_run (evening ++ replicate (S CHANNEL_CAPACITY) (Turns 0 (FromChannel true)))) !! 0%nat = Some s' /\
  so_missed s' = 0%nat /\
  texts s' = omap (feed wants_purchase purchase_json s) (drop (so_from s) (hub_log (purchase_run evening))) /\
  admitted evening s.
Proof.
  destruct (hub_sockets (purchase_run evening) !! 0%nat) as [s|] eqn:Hs; [|by vm_compute in Hs].
  destruct (purchase_feed_exact evening 0 s Hs) as (Ha & _ & Hc).
  assert (so_open s = true /\ texts s = ["2"%string]) as [Ho Ht] by (vm_compute in Hs; by simplify_eq).
  destruct (Hc Ho) as (s' & Hs' & Hd). exists s, s'.
  assert (so_missed s' = 0%nat) as Hm by (vm_compute in Hs'; by simplify_eq).
  split; [done|]. split; [done|]. split; [done|]. split; [done|]. split; [by apply Hd|done].
Defined.

(** A client that does not read while 200 purchases are published misses 72 of them. *)
Example slow_client_misses :
  let l := asks "7" "GA" :: (Publish ∘ sale 7 ∘ Z.of_nat <$> seq 0 200) ++ replicate 130 (Turns 0 (FromChannel true)) in
  (fun r => (length r.1.1.2, r.1.2)) <$> socket_of l = Some (128%nat, 72%nat).
Proof. by vm_compute. Qed.

(** Any session gets the telemetry of all organizers. *)
Example telemetry_leaks :
  let staff := StaffAuth (mkStaff 7 "GSTAFF" "gate" true "") in
  let h := organizer_run [Upgrade 0 true concert (mkWs None (Some "GSTRANGER"%string) (mkHeaders None None));
                          Publish staff; Turns 0 (FromChannel true)] in
  organizes concert 7 "GSTRANGER" = false /\ texts <$> hub_sockets h = [["GSTAFF"%string]].
Proof. by vm_compute. Qed.

Example client_messages :
  parse_client_message "  " = Err Empty /\ parse_client_message "{" = Err InvalidJson
  /\ parse_client_message "poke" = Err (UnknownType "poke") /\ parse_client_message "[ping]" = Ok Ping.
Proof. by vm_compute. Qed.
End TelemetrySample.
