(* ===== verification/Categories.v ===== *)
(** * Server: categories

    [handlers/categories.rs] and [models/category.rs] over the table of categories with
    the constraints of its migrations, and the cache of the listings in Redis, whose keys
    are texts.  The creation of a category runs two statements, between which other
    requests may run.  The pattern matching and the collation of PostgreSQL, digests and
    JSON texts are an interface ([CategoryText]). *)

From stdpp Require Import base tactics numbers list strings pretty gmap sorting.
From S2P Require Import Prelude.
From S2P Require Import ServerPrelude.
From S2P Require Import RegistryTypes.
From S2P Require Import TicketQr.
From S2P Require Import EventListing.
From S2P Require Import Text.
From S2P Require Import EventCatalog.
Open Scope Z_scope.

(** ** Data *)
Definition CATEGORIES_CACHE_TTL : Z := 3600.
Definition CATEGORY_CACHE_CONTROL : string := "public, max-age=300, stale-while-revalidate=600".

Record Category := mkCategory {
  cg_id : Uuid; cg_name : string; cg_slug : string; cg_description : option string;
  cg_parent_id : option Uuid; cg_created_at : Z; cg_updated_at : Z;
}.
Record CreateCategoryRequest := mkCreateCategory {
  cc_name : string; cc_slug : string; cc_description : option string; cc_parent_id : option Uuid;
}.
Record CategoryFilters := mkFilters { cf_parent_id : option string; cf_search : option string }.
Record PaginatedResponse := mkPaginated {
  pr_items : list Category; pr_pagination : PaginationMeta; pr_meta : ListMeta;
}.
Abbreviation Categories := (gmap Uuid Category).
Abbreviation Cache := (gmap string (Z * PaginatedResponse)).

Inductive Data := Listing (r : PaginatedResponse) | One (c : Category).
(** Status 200, 304, or an error; the last is marked [no-store]. *)
Inductive Reply := Served (etag body : string) | NotModified (etag : string) | NoStore (e : AppError).
Definition cache_control (r : Reply) : string :=
  match r with Served _ _ | NotModified _ => CATEGORY_CACHE_CONTROL | NoStore _ => "no-store" end.

Class CategoryText := {
  ilike : string -> string -> bool; (* text, pattern *)
  collates : relation string; (* the order of texts *)
  collates_dec :: RelDecision collates;
  uuid_of : string -> option Uuid;
  sha256_hex : string -> string;
  envelope : Data -> string -> option string; (* the JSON text of data and message *)
}.

(** ** Creation *)
Definition slug_char (c : Ascii.ascii) : bool :=
  let n := code c in ((97 <=? n) && (n <=? 122)) || ((48 <=? n) && (n <=? 57)) || (n =? 45).
Definition is_valid_category_slug (slug : string) : bool :=
  negb (bool_decide (slug = ""%string)) && forallb slug_char (chars_of slug).
Definition slug_exists (slug : string) (t : Categories) : bool :=
  bool_decide (Exists (fun p => lowercase (cg_slug p.2) = lowercase slug) (map_to_list t)).
Definition taken (c : Category) (t : Categories) : bool :=
  bool_decide (is_Some (t !! cg_id c))
  || bool_decide (Exists (fun p => cg_name p.2 = cg_name c) (map_to_list t)) || slug_exists (cg_slug c) t.
(** The row with the defaults of the table; the [CHECK] of the slug, the unique indexes
    and the reference to the parent, in the order in which they are enforced. *)
Definition insert_category (now : Z) (id : Uuid) (q : CreateCategoryRequest) (t : Categories)
    : Result AppError (Category * Categories) :=
  let c := mkCategory id (Text.trim (cc_name q)) (cc_slug q) (cc_description q) (cc_parent_id q) now now in
  err_if (negb (is_valid_category_slug (cc_slug q))) DatabaseError;;
  err_if (taken c t) Conflict;;
  err_if (match cc_parent_id q with Some p => negb (bool_decide (is_Some (<[id := c]> t !! p))) | None => false end)
    DatabaseError;;
  Ok (c, <[id := c]> t).

Inductive At := AtExists | AtInsert | Done (r : Result AppError Category).
Definition create_start (q : CreateCategoryRequest) : At :=
  match (err_if (bool_decide (Text.trim (cc_name q) = ""%string)) ValidationError;;
         err_if (negb (is_valid_category_slug (cc_slug q))) ValidationError) with
  | Ok _ => AtExists
  | Err e => Done (Err e)
  end.
Definition create_step (now : Z) (id : Uuid) (up : bool) (q : CreateCategoryRequest) (a : At) (t : Categories)
    : At * Categories :=
  match a with
  | AtExists => if up then (if slug_exists (cc_slug q) t then Done (Err Conflict) else AtInsert, t)
                else (Done (Err DatabaseError), t)
  | AtInsert => if up then match insert_category now id q t with
                           | Ok (c, t) => (Done (Ok c), t)
                           | Err e => (Done (Err e), t)
                           end
                else (Done (Err DatabaseError), t)
  | Done r => (Done r, t)
  end.
Definition create_category (now : Z) (id : Uuid) (up : nat -> bool) (q : CreateCategoryRequest) (t : Categories)
    : At * Categories :=
  let '(a, t) := create_step now id (up 0%nat) q (create_start q) t in create_step now id (up 1%nat) q a t.

(** Requests in flight. *)
Inductive Move := Arrives (q : CreateCategoryRequest) | Moves (i : nat) (now : Z) (id : Uuid) (up : bool).
Definition move (m : Move) (s : Categories * list (CreateCategoryRequest * At))
    : Categories * list (CreateCategoryRequest * At) :=
  match m with
  | Arrives q => (s.1, s.2 ++ [(q, create_start q)])
  | Moves i now id up =>
      match s.2 !! i with
      | Some (q, a) => let '(a, t) := create_step now id up q a s.1 in (t, <[i := (q, a)]> s.2)
      | None => s
      end
  end.
Definition moves (l : list Move) (s : Categories * list (CreateCategoryRequest * At)) := foldl (fun s m => move m s) s l.

(** ** Listing *)
Section Listings.
Context `{CategoryText}.

Inductive ParentFilter := AnyParent | RootOnly | ChildrenOf (id : Uuid).
Definition parent_filter (f : CategoryFilters) : ParentFilter :=
  match cf_parent_id f with
  | None => AnyParent
  | Some s => if bool_decide (s = "null"%string) then RootOnly
              else match uuid_of s with Some id => ChildrenOf id | None => AnyParent end
  end.
Definition matches (f : CategoryFilters) (c : Category) : bool :=
  match parent_filter f with
  | AnyParent => true
  | RootOnly => bool_decide (cg_parent_id c = None)
  | ChildrenOf id => bool_decide (cg_parent_id c = Some id)
  end &&
  match cf_search f with
  | None => true
  | Some s => let pattern := ("%" +:+ s +:+ "%")%string in
              ilike (cg_name c) pattern
              || match cg_description c with Some d => ilike d pattern | None => false end
  end.
Definition by_name (a b : Category) : Prop := collates (cg_name a) (cg_name b).
#[export] Instance by_name_dec : RelDecision by_name := fun a b => collates_dec (cg_name a) (cg_name b).
Definition rows_for (f : CategoryFilters) (t : Categories) : list Category :=
  merge_sort by_name (filter (fun c => matches f c = true) (map_to_list t).*2).
Definition paginated (items : list Category) (p : ValidatedPagination) (total : Z) : PaginatedResponse :=
  mkPaginated items (metadata p total) (list_meta p (Some total) (Z.of_nat (length items))).

Definition colon (s : string) : string := (":" +:+ s)%string.
Definition categories_cache_key (parent_id search : string) (page page_size : Z) : string :=
  ("categories:all" +:+ colon parent_id +:+ colon search +:+ colon (pretty page) +:+ colon (pretty page_size))%string.

Definition weak_etag (payload : string) : string :=
  let quote := String (Ascii.ascii_of_nat 34) "" in ("W/" +:+ quote +:+ sha256_hex payload +:+ quote)%string.
Definition no_store_error (e : AppError) : Reply := NoStore e.
Definition cached_success_response (data : Data) (message : string) (if_none_match : option string) : Reply :=
  match envelope data message with
  | None => no_store_error InternalServerError
  | Some json =>
      let etag := weak_etag json in
      if bool_decide (if_none_match = Some etag) then NotModified etag
      else Served etag json
  end.

Definition FRESH : string := "Categories retrieved successfully".
Definition CACHED : string := "Categories retrieved successfully (cached)".
(** [up]: Redis at the lookup, the count, the rows, Redis at the end. *)
Definition list_categories (now : Z) (up : nat -> bool) (if_none_match : option string) (params : PaginationParams)
    (f : CategoryFilters) (t : Categories) (cache : Cache) : Reply * Cache :=
  let p := TicketQr.validate params in
  let key := categories_cache_key (default ""%string (cf_parent_id f)) (default ""%string (cf_search f))
               (vp_page p) (vp_page_size p) in
  match (if up 0%nat then cache_get now (cache !! key) else None) with
  | Some r => (cached_success_response (Listing r) CACHED if_none_match, cache)
  | None =>
      if negb (up 1%nat) then (no_store_error DatabaseError, cache) else
      let total := Z.of_nat (length (rows_for f t)) in
      if negb (up 2%nat) then (no_store_error DatabaseError, cache) else
      let response := paginated (page_of p (rows_for f t)) p total in
      (cached_success_response (Listing response) FRESH if_none_match,
       if up 3%nat then <[key := (now + CATEGORIES_CACHE_TTL, response)]> cache else cache)
  end.
Definition get_category (up : bool) (if_none_match : option string) (id : Uuid) (t : Categories) : Reply :=
  if up then
    match t !! id with
    | Some c => cached_success_response (One c) "Category retrieved successfully" if_none_match
    | None => no_store_error NotFound
    end
  else no_store_error DatabaseError.
End Listings.

(** ** The categories of the contract *)
Definition CANONICAL_CATEGORIES : list (Z * string) :=
  [(1, "Music"); (2, "Sports"); (3, "Tech"); (4, "Arts"); (5, "Food"); (6, "Business"); (7, "Health");
   (8, "Education"); (9, "Community"); (10, "Other")]%string.
(** [rows]: what the database answers for the names by their time of creation. *)
Definition validate_categories_match_contract (rows : option (list Category)) : bool :=
  match rows with
  | Some l => bool_decide (cg_name <$> l = CANONICAL_CATEGORIES.*2)
  | None => false
  end.

(** ** The table stays in order *)
Record Tidy (t : Categories) : Prop := mkTidy {
  td_rows : map_Forall (fun id c => cg_id c = id /\ cg_name c <> ""%string /\ is_valid_category_slug (cg_slug c) = true
              /\ forall p, cg_parent_id c = Some p -> is_Some (t !! p)) t;
  td_unique : forall i j c d, t !! i = Some c -> t !! j = Some d -> i <> j ->
                cg_name c <> cg_name d /\ cg_slug c <> cg_slug d;
}.
Definition created (t : Categories) (f : CreateCategoryRequest * At) : Prop :=
  match f.2 with
  | AtExists | AtInsert => is_valid_category_slug (cc_slug f.1) = true /\ Text.trim (cc_name f.1) <> ""%string
  | Done (Ok c) => t !! cg_id c = Some c
  | Done (Err _) => True
  end.
Definition answers_differ (l : list (CreateCategoryRequest * At)) : Prop :=
  forall i j q r c d, i <> j -> l !! i = Some (q, Done (Ok c)) -> l !! j = Some (r, Done (Ok d)) -> cg_id c <> cg_id d.

Lemma start_created t q : created t (q, create_start q).
Proof.
  unfold create_start. destruct (bool_decide _) eqn:Hn; cbn; [done|]. apply bool_decide_eq_false in Hn.
  by destruct (is_valid_category_slug (cc_slug q)) eqn:Hs; cbn.
Qed.
Lemma not_taken c t : taken c t = false -> t !! cg_id c = None /\
  forall i d, t !! i = Some d -> cg_name d <> cg_name c /\ cg_slug d <> cg_slug c.
Proof.
  unfold taken, slug_exists. intros [[H1 H2]%orb_false_iff H3]%orb_false_iff.
  apply bool_decide_eq_false in H1, H2, H3. split; [by apply eq_None_not_Some|].
  intros i d Hd%elem_of_map_to_list. rewrite Exists_exists in H2, H3. split; intros He; [apply H2|apply H3];
    exists (i, d); cbn; [done|by rewrite He].
Qed.
Lemma insert_tidy now id q t c t' : Tidy t -> Text.trim (cc_name q) <> ""%string ->
  insert_category now id q t = Ok (c, t') -> t' = <[id := c]> t /\ cg_id c = id /\ t !! id = None /\ Tidy t'.
Proof.
  intros [R U] Hn Hi. unfold insert_category in Hi. oks. injection Hi as <- <-. bools.
  match goal with H : taken _ _ = false |- _ => apply not_taken in H as [Hf Ht] end. cbn in Hf, Ht.
  split; [done|]. split; [done|]. split; [done|]. split.
  - apply map_Forall_insert_2.
    + cbn. repeat split; [done|done|]. intros p Hp. rewrite Hp in *. by bools.
    + intros i d Hd. destruct (R i d Hd) as (A1 & A2 & A3 & A4). repeat split; try done.
      intros p Hp. destruct (decide (p = id)) as [->|Hne]; [rewrite lookup_insert_eq; eauto|].
      rewrite lookup_insert_ne by done. by apply A4.
  - intros i j a b Ha Hb Hne. apply lookup_insert_Some in Ha as [[<- <-]|[Hi Ha]], Hb as [[<- <-]|[Hj Hb]]; [done| | |eauto].
    + destruct (Ht j b Hb). cbn. by split; apply not_eq_sym.
    + by destruct (Ht i a Ha).
Qed.
Lemma created_insert t f id c : t !! id = None -> created t f -> created (<[id := c]> t) f.
Proof.
  intros Hn. destruct f as [q a]. unfold created. cbn. destruct a as [| |[d|e]]; try done. intros Hd.
  rewrite lookup_insert_ne; [done|]. intros ->. congruence.
Qed.

Definition in_order (s : Categories * list (CreateCategoryRequest * At)) : Prop :=
  Tidy s.1 /\ Forall (created s.1) s.2 /\ answers_differ s.2.
Lemma same_answers l i q a a' : l !! i = Some (q, a) -> (forall c, a' = Done (Ok c) -> a = Done (Ok c)) ->
  answers_differ l -> answers_differ (<[i := (q, a')]> l).
Proof.
  intros Hi Ha Hd. assert (forall j r c, <[i := (q, a')]> l !! j = Some (r, Done (Ok c)) -> l !! j = Some (r, Done (Ok c))) as Hback.
  { intros j r c [(-> & [= <- Heq] & _)|[_ Hj]]%list_lookup_insert_Some; [|done]. by rewrite Hi, (Ha c Heq). }
  intros j k r1 r2 c d Hne Hj Hk. eapply Hd; [exact Hne|by apply Hback|by apply Hback].
Qed.
Lemma move_order m s : in_order s -> in_order (move m s).
Proof.
  destruct s as [t l]. intros (T & F & D). cbn in T, F, D. destruct m as [q|i now id up]; cbn.
  - split; [done|]. split; [apply Forall_app; split; [done|]; constructor; [apply start_created|constructor]|].
    intros i j r1 r2 c d Hne Hi Hj. assert (forall k r x, (l ++ [(q, create_start q)]) !! k = Some (r, Done (Ok x)) ->
      l !! k = Some (r, Done (Ok x))) as Hin.
    { intros k r x [Hk|[_ Hk]]%lookup_app_Some; [done|]. apply list_lookup_singleton_Some in Hk as [_ Hk].
      injection Hk as _ Hk. unfold create_start in Hk. by case_match. }
    eapply D; [exact Hne|by apply Hin|by apply Hin].
  - destruct (l !! i) as [[q a]|] eqn:Hi; [|done]. pose proof (Forall_lookup_1 _ _ _ _ F Hi) as Hc.
    assert (forall a', created t (q, a') -> (forall c, a' = Done (Ok c) -> a = Done (Ok c)) -> in_order (t, <[i := (q, a')]> l)) as Hstay.
    { intros a' Hc' Ha. split; [done|]. split; [by apply Forall_insert|]. by eapply same_answers. }
    destruct a as [| |r]; cbn.
    + destruct up; [destruct (slug_exists _ _)|]; by apply Hstay.
    + destruct up; [|by apply Hstay]. destruct (insert_category now id q t) as [[c t']|e] eqn:Hins; [|by apply Hstay].
      destruct Hc as [_ Hn]. destruct (insert_tidy _ _ _ _ _ _ T Hn Hins) as (-> & Hid & Hf & T'). split; [done|]. split; cbn.
      * apply Forall_insert; [|cbn; rewrite Hid; apply lookup_insert_eq].
        eapply Forall_impl; [exact F|]. intros f. by apply created_insert.
      * assert (forall j r d, j <> i -> l !! j = Some (r, Done (Ok d)) -> cg_id d <> id) as Hold.
        { intros j r d _ Hj He. pose proof (Forall_lookup_1 _ _ _ _ F Hj) as Hd. cbn in Hd. congruence. }
        intros j k r1 r2 x y Hne [(-> & [= <- <-] & _)|[Hj1 Hj]]%list_lookup_insert_Some
          [(-> & [= <- <-] & _)|[Hk1 Hk]]%list_lookup_insert_Some; [done| | |exact (D _ _ _ _ _ _ Hne Hj Hk)].
        -- rewrite Hid. apply not_eq_sym. by eapply Hold.
        -- rewrite Hid. by eapply Hold.
    + by apply Hstay.
Qed.

Lemma empty_order t : Tidy t -> in_order (t, []).
Proof. intros T. split; [done|]. split; [constructor|]. intros i j q r c d _ Hi. done. Qed.

(** However requests for new categories interleave and whatever fails, the table is in
    order: names and slugs are unique and valid and parents exist; and no two requests
    are told to have created a category of the same name or slug. *)
Theorem categories_in_order l t : Tidy t ->
  let s := moves l (t, []) in
  Tidy s.1 /\ forall i j q r c d, i <> j -> s.2 !! i = Some (q, Done (Ok c)) -> s.2 !! j = Some (r, Done (Ok d)) ->
    s.1 !! cg_id c = Some c /\ cg_name c <> cg_name d /\ cg_slug c <> cg_slug d.
Proof.
  intros T s. assert (in_order s) as (T' & F & D).
  { unfold s, moves. pose proof (empty_order t T) as Hs0. revert Hs0. generalize (t, @nil (CreateCategoryRequest * At)).
    induction l as [|m l IH]; intros s0 Hs0; [done|]. cbn. apply IH. by apply move_order. }
  split; [done|]. intros i j q r c d Hne Hi Hj. pose proof (Forall_lookup_1 _ _ _ _ F Hi) as Hc.
  pose proof (Forall_lookup_1 _ _ _ _ F Hj) as Hd. cbn in Hc, Hd. split; [done|].
  eapply (td_unique _ T'); [exact Hc|exact Hd|]. by eapply D.
Qed.

(** ** Texts of keys *)
Definition no_colon (s : string) : Prop := Ascii.ascii_of_nat 58 ∉ chars_of s.
#[export] Instance no_colon_dec s : Decision (no_colon s) := decide (Ascii.ascii_of_nat 58 ∉ chars_of s).
Lemma split_colon a b x y : no_colon a -> no_colon b -> (a +:+ colon x = b +:+ colon y)%string -> a = b /\ x = y.
Proof.
  unfold no_colon. revert b. induction a as [|c a IH]; intros [|d b] Ha Hb Heq; cbn in *.
  - by injection Heq.
  - injection Heq as <- _. set_solver.
  - injection Heq as -> _. set_solver.
  - injection Heq as <- Heq. destruct (IH b) as [-> ->]; [set_solver|set_solver|done|done].
Qed.
Lemma pretty_N_go_colon x : forall s, no_colon s -> no_colon (pretty_N_go x s).
Proof.
  induction (N.lt_wf_0 x) as [x _ IH]; intros s Hs. destruct (decide (x = 0)%N) as [->|Hx]; [by rewrite pretty_N_go_0|].
  rewrite pretty_N_go_step by lia. apply IH; [apply N.div_lt; lia|]. unfold no_colon in *. cbn.
  assert (Ascii.ascii_of_nat 58 <> pretty_N_char (x `mod` 10)); [|set_solver].
  unfold pretty_N_char. by repeat case_match.
Qed.
Lemma pretty_Z_colon (z : Z) : no_colon (pretty z).
Proof.
  assert (forall n, no_colon (pretty (N.pos n))) as Hp.
  { intros n. unfold pretty, pretty_N. rewrite decide_False by done. apply pretty_N_go_colon. unfold no_colon. cbn. set_solver. }
  destruct z as [|n|n]; [unfold no_colon; cbn; set_solver|apply Hp|]. pose proof (Hp n) as Hn. revert Hn. unfold no_colon.
  change (pretty (Z.neg n)) with ("-" +:+ pretty (N.pos n))%string. rewrite chars_app. cbn. set_solver.
Qed.

(** ** Listings *)
Section ListingTheorems.
Context `{CategoryText}.

(** A client that revalidates a body it holds is answered with 304 exactly when the body
    that it would get has the same digest. *)
Theorem revalidation_exact data message body json : envelope data message = Some json ->
  cached_success_response data message (Some (weak_etag body))
  = if bool_decide (sha256_hex json = sha256_hex body) then NotModified (weak_etag body) else Served (weak_etag json) json.
Proof.
  intros He. unfold cached_success_response. rewrite He.
  assert (Some (weak_etag body) = Some (weak_etag json) <-> sha256_hex json = sha256_hex body) as Hiff.
  { unfold weak_etag. cbn zeta. split; [|by intros ->]. intros [= Hd].
    by apply (app_cancel_r (sha256_hex body) (sha256_hex json)) in Hd. }
  rewrite (bool_decide_ext _ _ Hiff). case_bool_decide as Hs; [|done]. apply Hiff in Hs. congruence.
Qed.

Lemma key_faithful p s p' s' n m n' m' : no_colon p -> no_colon s -> no_colon p' -> no_colon s' ->
  categories_cache_key p s n m = categories_cache_key p' s' n' m' -> p = p' /\ s = s' /\ n = n' /\ m = m'.
Proof.
  intros Hp Hs Hp' Hs' Heq.
  assert (forall p s n m, categories_cache_key p s n m
    = "categories:all:" +:+ (p +:+ colon (s +:+ colon (pretty n +:+ colon (pretty m)))))%string as Hkey by done.
  rewrite !Hkey in Heq. apply app_cancel_l in Heq.
  apply split_colon in Heq as [-> Heq]; [|done|done]. apply split_colon in Heq as [-> Heq]; [|done|done].
  apply split_colon in Heq as [Hn%(inj pretty) Hm%(inj pretty)]; [done|apply pretty_Z_colon|apply pretty_Z_colon].
Qed.

(** A request for a listing at an instant, with the table as it is then. *)
Record Ask := mkAsk {
  ask_now : Z; ask_up : nat -> bool; ask_tag : option string; ask_params : PaginationParams;
  ask_filters : CategoryFilters; ask_table : Categories;
}.
Definition answer (a : Ask) (cache : Cache) : Reply * Cache :=
  list_categories (ask_now a) (ask_up a) (ask_tag a) (ask_params a) (ask_filters a) (ask_table a) cache.
Definition answer_all (l : list Ask) : Cache := foldl (fun cache a => (answer a cache).2) ∅ l.
Definition pages_of (a : Ask) : ValidatedPagination := TicketQr.validate (ask_params a).
Definition texts_of (a : Ask) : string * string * Z * Z :=
  (default ""%string (cf_parent_id (ask_filters a)), default ""%string (cf_search (ask_filters a)),
   vp_page (pages_of a), vp_page_size (pages_of a)).
Definition plain (a : Ask) : Prop := no_colon (texts_of a).1.1.1 /\ no_colon (texts_of a).1.1.2.
Definition key_of (a : Ask) : string := let '(p, s, n, m) := texts_of a in categories_cache_key p s n m.
Definition computed (a : Ask) : PaginatedResponse :=
  paginated (page_of (pages_of a) (rows_for (ask_filters a) (ask_table a))) (pages_of a)
    (Z.of_nat (length (rows_for (ask_filters a) (ask_table a)))).
Lemma cache_origin l k t r : answer_all l !! k = Some (t, r) ->
  exists a, a ∈ l /\ k = key_of a /\ t = ask_now a + CATEGORIES_CACHE_TTL /\ r = computed a.
Proof.
  unfold answer_all. induction l as [|a l IH] using rev_ind; [done|]. rewrite foldl_app. cbn.
  set (cache := foldl _ ∅ l) in *.
  assert (cache !! k = Some (t, r) -> exists b, b ∈ l ++ [a] /\ k = key_of b /\ t = ask_now b + CATEGORIES_CACHE_TTL /\ r = computed b) as Hold.
  { intros Hk. destruct (IH Hk) as (b & Hb & Hr). exists b. split; [set_solver|done]. }
  unfold answer, list_categories. cbn zeta. destruct (if ask_up a 0 then _ else _); [done|].
  destruct (ask_up a 1); [|done]. destruct (ask_up a 2); [|done]. destruct (ask_up a 3); [|done]. cbn.
  intros [[<- [= <- <-]]|[_ Hk]]%lookup_insert_Some; [|by apply Hold]. exists a. split; [set_solver|done].
Qed.

(** A listing is at most an hour old: as long as the filters that are asked for have no
    colons, what a client gets is the page of the matching categories by their names as
    they were at a request for the same filters and page less than an hour ago (an empty
    filter being the same as none), or an error that no cache keeps. *)
Theorem category_listing_recent l a : Forall plain (l ++ [a]) ->
  let r := (answer a (answer_all l)).1 in
  cache_control r = "no-store"%string \/
  exists b message, b ∈ l ++ [a] /\ ask_now a < ask_now b + CATEGORIES_CACHE_TTL /\ texts_of b = texts_of a /\
    r = cached_success_response (Listing (computed b)) message (ask_tag a).
Proof.
  intros Hp r. unfold r, answer, list_categories. cbn zeta. fold (pages_of a).
  assert (key_of a = categories_cache_key (default ""%string (cf_parent_id (ask_filters a)))
    (default ""%string (cf_search (ask_filters a))) (vp_page (pages_of a)) (vp_page_size (pages_of a))) as <- by done.
  destruct (if ask_up a 0 then cache_get (ask_now a) (answer_all l !! key_of a) else None) as [x|] eqn:Hc.
  - right. destruct (ask_up a 0); [|done]. destruct (answer_all l !! key_of a) as [[t y]|] eqn:Hk; [|done].
    cbn in Hc. destruct (ask_now a <? t) eqn:Ht; [|done]. injection Hc as <-. bools.
    destruct (cache_origin _ _ _ _ Hk) as (b & Hb & Hkey & -> & ->). exists b, CACHED. split; [set_solver|]. split; [lia|].
    split; [|done]. apply Forall_app in Hp as [Hpl Hpa]. rewrite Forall_singleton in Hpa. rewrite Forall_forall in Hpl.
    pose proof (Hpl b Hb) as Hpb. unfold plain in Hpa, Hpb. destruct Hpa as [A1 A2]. destruct Hpb as [B1 B2]. cbn in *. unfold texts_of. cbn.
    destruct (key_faithful _ _ _ _ _ _ _ _ A1 A2 B1 B2 Hkey) as (-> & -> & -> & ->). done.
  - destruct (ask_up a 1); [|by left]. destruct (ask_up a 2); [|by left]. cbn. right. exists a, FRESH.
    split; [set_solver|]. split; [unfold CATEGORIES_CACHE_TTL; lia|]. done.
Qed.

(** The pages that are computed for a table are, one after the other, its matching
    categories by their names. *)
Theorem category_pages_cover now up f page_size count t `{!Transitive collates} `{!Total collates} :
  1 <= page_size <= MAX_PAGE_SIZE -> Z.of_nat (size t) < 2 ^ 32 ->
  let page i := computed (mkAsk now up None (mkParams (Z.of_nat i) page_size count) f t) in
  let shown := concat ((fun i => pr_items (page i)) <$> seq 1 (Z.to_nat (pm_total_pages (pr_pagination (page 1%nat))))) in
  shown ≡ₚ filter (fun c => matches f c = true) (map_to_list t).*2 /\ StronglySorted by_name shown.
Proof.
  intros Hs Hlen page shown. assert (shown = rows_for f t) as ->.
  { unfold shown. rewrite <- (TicketQr.pages_cover_rows page_size count (rows_for f t)); [|lia|].
    - unfold TicketQr.pages. f_equal.
      assert (forall i, (1 <= i)%nat -> pages_of (mkAsk now up None (mkParams (Z.of_nat i) page_size count) f t) = mkPages (Z.of_nat i) page_size count) as Hp.
      { intros i Hi. unfold pages_of, TicketQr.validate. cbn. rewrite (proj2 (Z.eqb_neq (Z.of_nat i) 0)) by lia. f_equal. lia. }
      unfold page, computed. rewrite Hp by lia. cbn [pr_pagination paginated].
      apply list_fmap_ext. intros k i Hk. apply lookup_seq in Hk as [-> _]. cbn [pr_items paginated ask_filters ask_table]. by rewrite Hp by lia.
    - unfold rows_for. rewrite merge_sort_Permutation. pose proof (length_filter (fun c => matches f c = true) (map_to_list t).*2) as Hl.
      rewrite length_fmap in Hl. rewrite length_map_to_list in Hl. lia. }
  assert (Transitive by_name) by (intros a b c; unfold by_name; intros; by etrans).
  assert (Total by_name) by (intros a b; apply (total collates)).
  split; [apply merge_sort_Permutation|]. apply (StronglySorted_merge_sort by_name).
Qed.
End ListingTheorems.

(** The names and numbers are those of the contract. *)
Definition contract_categories : list RegistryTypes.Category :=
  [Music; Sports; Tech; Arts; Food; Business; Health; Education; Community; Other].
Theorem canonical_numbers : CANONICAL_CATEGORIES.*1 = category_id <$> contract_categories
  /\ from_id <$> CANONICAL_CATEGORIES.*1 = Some <$> contract_categories
  /\ forall c, c ∈ contract_categories.
Proof. split; [done|]. split; [done|]. intros []; unfold contract_categories; set_solver. Qed.

Module CategorySample.
(** A pattern matches when it is in the text; digests are the texts themselves. *)
#[export] Instance text_sample : CategoryText := {
  ilike text pattern := bool_decide (pattern = "%%"%string) || bool_decide (pattern = ("%" +:+ text +:+ "%")%string);
  collates := String.le; collates_dec := _;
  uuid_of s := None; sha256_hex s := s;
  envelope d m := Some (match d with Listing r => String.concat "," (cg_name <$> pr_items r) | One c => cg_name c end +:+ m)%string;
}.
Definition named (name slug : string) : CreateCategoryRequest := mkCreateCategory name slug None None.
Definition music : Category := mkCategory 1 "Music" "music" None None 0 0.
Definition jazz : Category := mkCategory 2 "Jazz" "jazz" None (Some 1) 0 0.
Definition table : Categories := {[1 := music; 2 := jazz]}.

(** Two requests for one slug that both found it free: one of them is refused. *)
Definition race : list Move :=
  [Arrives (named "Music" "music"); Arrives (named "Musik" "music"); Arrives (named "Jazz" "Jazz");
   Moves 0 1 1 true; Moves 1 1 2 true; Moves 1 2 2 true; Moves 0 2 1 true].
Lemma categories_in_order_witness : Tidy (moves race (∅, [])).1 /\
  (moves race (∅, [])).2.*2 = [Done (Err Conflict); Done (Ok (mkCategory 2 "Musik" "music" None None 2 2)); Done (Err ValidationError)].
Proof. split; [|by vm_compute]. apply (categories_in_order race ∅). split; [apply map_Forall_empty|done]. Defined.

Definition ask (now : Z) (count : bool) (f : CategoryFilters) (t : Categories) : Ask :=
  mkAsk now (fun _ => true) None (mkParams 1 20 count) f t.
Definition all : CategoryFilters := mkFilters None None.
Definition shown (l : list Ask) (a : Ask) : option string :=
  match (answer a (answer_all l)).1 with Served _ b => Some b | _ => None end.

(** A category that was created a minute ago is not listed for an hour. *)
Lemma category_listing_recent_witness :
  plain (ask 0 true all ∅) /\ shown [ask 0 true all ∅] (ask 60 true all table) = Some CACHED /\
  exists b message, b ∈ [ask 0 true all ∅; ask 60 true all table] /\ 60 < ask_now b + CATEGORIES_CACHE_TTL /\
    (answer (ask 60 true all table) (answer_all [ask 0 true all ∅])).1
    = cached_success_response (Listing (computed b)) message None.
Proof.
  assert (forall now t, plain (ask now true all t)) as Hp by (intros now t; split; unfold no_colon; cbn; set_solver).
  split; [apply Hp|]. split; [by vm_compute|].
  destruct (category_listing_recent [ask 0 true all ∅] (ask 60 true all table)) as [Hn|(b & m & Hb & Ht & _ & Hr)].
  - repeat constructor; apply Hp.
  - by vm_compute in Hn.
  - by exists b, m.
Defined.

(** Texts with colons share a key: the search for [a:] is answered with the listing of
    a parent that is no UUID. *)
Example colons_collide :
  let poison := ask 0 true (mkFilters (Some ":a"%string) None) table in
  let search := ask 1 true (mkFilters None (Some "a:"%string)) table in
  key_of poison = key_of search /\ shown [poison] search = Some ("Jazz,Music" +:+ CACHED)%string
  /\ shown [] search = Some FRESH.
Proof. by vm_compute. Qed.

(** The message is part of what is digested: the tag of a first answer does not match
    the cached one for the same rows. *)
Example tag_changes_with_cache :
  match (answer (ask 0 true all table) ∅).1 with
  | Served tag _ =>
      let a := mkAsk 1 (fun _ => true) (Some tag) (mkParams 1 20 true) all table in
      (answer a (answer_all [ask 0 true all table])).1 <> NotModified tag
  | _ => False
  end.
Proof. by vm_compute. Qed.

(** [count=false] is not part of the key: the total is left out for the next client. *)
Example count_shared :
  (lm_total ∘ pr_meta ∘ snd) <$> (answer_all [ask 0 false all table; ask 1 true all table] !! key_of (ask 1 true all table))
  = Some None.
Proof. by vm_compute. Qed.

(** After the migrations, which insert no categories, the check at start fails. *)
Example nothing_seeded : validate_categories_match_contract (Some []) = false.
Proof. done. Qed.
End CategorySample.
