(* ===== verification/TicketMail.v ===== *)
(** * Server: tickets by e-mail

    [services/email_dispatch.rs] and [utils/ics.rs].  Texts are their bytes.  The service
    that sends mail answers an attempt or not; the attempts, the pauses between them and
    the requests are results.  Dates as texts, identifiers, Base64 and JSON are an
    interface ([MailText]).  [calendar_value] reads a calendar as RFC 5545 says. *)

From stdpp Require Import base tactics numbers list strings pretty gmap.
From Stdlib Require Import Ascii.
From S2P Require Import Prelude.
From S2P Require Import ServerPrelude.
From S2P Require Import IndexerEvent.
From S2P Require Import Text.
From S2P Require Import EventListing.
From S2P Require Import TicketPdf.
From S2P Require Import EventCatalog.
Open Scope Z_scope.

(** ** Calendars *)
Definition CR : ascii := ascii_of_nat 13.
Definition escape_ics_text (s : chars) : chars :=
  replace_char LF [BACKSLASH; "n"%char]
    (replace_char "," [BACKSLASH; ","%char]
       (replace_char ";" [BACKSLASH; ";"%char] (replace_char BACKSLASH [BACKSLASH; BACKSLASH] s))).
Definition ics_line (name : string) (value : chars) : chars := chars_of name ++ [":"%char] ++ value ++ [CR; LF].

Class MailText := {
  ics_date : Z -> chars; (* "%Y%m%dT%H%M%SZ" *)
  pdf_date : Z -> chars; (* "%Y-%m-%d %H:%M UTC" *)
  uuid_chars : Uuid -> chars;
  base64 : chars -> string;
}.

Definition generate_ics `{MailText} (now : Z) (uid : Uuid) (event_title location description : chars)
    (dtstart dtend : Z) (event_link : chars) : chars :=
  let desc := description ++ [BACKSLASH; "n"%char] ++ event_link in
  ics_line "BEGIN" (chars_of "VCALENDAR") ++ ics_line "VERSION" (chars_of "2.0")
  ++ ics_line "PRODID" (chars_of "-//Agora//Event//EN") ++ ics_line "CALSCALE" (chars_of "GREGORIAN")
  ++ ics_line "METHOD" (chars_of "PUBLISH") ++ ics_line "BEGIN" (chars_of "VEVENT")
  ++ ics_line "UID" (uuid_chars uid ++ chars_of "@agora.events") ++ ics_line "DTSTAMP" (ics_date now)
  ++ ics_line "DTSTART" (ics_date dtstart) ++ ics_line "DTEND" (ics_date dtend)
  ++ ics_line "SUMMARY" (escape_ics_text event_title) ++ ics_line "LOCATION" (escape_ics_text location)
  ++ ics_line "DESCRIPTION" (escape_ics_text desc) ++ ics_line "STATUS" (chars_of "CONFIRMED")
  ++ ics_line "END" (chars_of "VEVENT") ++ ics_line "END" (chars_of "VCALENDAR").

(** ** Mails *)
Record TicketEmailPayload := mkMail {
  em_to_email : chars; em_attendee_wallet : chars; em_event_title : chars; em_event_location : chars;
  em_event_description : option chars; em_event_link : chars; em_dtstart : Z; em_dtend : Z;
  em_ticket_id : Uuid; em_pdf_bytes : chars;
}.
Definition build_ics `{MailText} (now : Z) (uid : Uuid) (p : TicketEmailPayload) : chars :=
  generate_ics now uid (em_event_title p) (em_event_location p) (default (chars_of "Join us!") (em_event_description p))
    (em_dtstart p) (em_dtend p) (em_event_link p).

(** The request to the service, and its answer: none, or a status with a text. *)
Record Post := mkPost { po_key : string; po_body : Json }.
Inductive Answer := NoAnswer (e : string) | Status (code : Z) (text : string).
Definition attachment (name content : string) : Json :=
  JObject [("filename"%string, JString name); ("content"%string, JString content)].
Definition html (p : TicketEmailPayload) : chars :=
  chars_of "<p>Your ticket for <strong>" ++ em_event_title p
  ++ chars_of "</strong> is attached. Add to calendar with the .ics file.</p><p><a href=" ++ [ascii_of_nat 34]
  ++ em_event_link p ++ [ascii_of_nat 34] ++ chars_of ">View event</a></p>".
Definition mail_body `{MailText} (now : Z) (uid : Uuid) (from : string) (p : TicketEmailPayload) : Json :=
  JObject [("from"%string, JString from); ("to"%string, JArray [JString (text_of (em_to_email p))]);
           ("subject"%string, JString (text_of (chars_of "Your ticket for " ++ em_event_title p)));
           ("html"%string, JString (text_of (html p)));
           ("attachments"%string, JArray [attachment "ticket.pdf" (base64 (em_pdf_bytes p));
                                          attachment "invite.ics" (base64 (build_ics now uid p))])].
Definition send_ticket_email `{MailText} (now : Z) (uid : Uuid) (key from : option string) (a : Answer)
    (p : TicketEmailPayload) : Result string unit * list Post :=
  match key with
  | None => (Ok tt, [])
  | Some key =>
      (match a with
       | NoAnswer e => Err ("Resend request failed: " +:+ e)%string
       | Status code text => if (200 <=? code) && (code <? 300) then Ok tt
                             else Err ("Resend error " +:+ pretty code +:+ ": " +:+ text)%string
       end, [mkPost key (mail_body now uid (default "noreply@agora.events"%string from) p)])
  end.

(** Attempts from [attempt] on, of which [remaining] are left: the outcome, the requests and
    the pauses in milliseconds. *)
Fixpoint retry_loop (send : nat -> Result string unit * list Post) (remaining attempt : nat) (last_err : string)
    : Result string unit * list Post * list Z :=
  match remaining with
  | O => (Err last_err, [], [])
  | S remaining =>
      let '(r, posts) := send attempt in
      match r with
      | Ok _ => (Ok tt, posts, [])
      | Err e =>
          let '(r, posts', pauses) := retry_loop send remaining (S attempt) e in
          (r, posts ++ posts', (if (attempt <? 3)%nat then [200 * Z.of_nat attempt] else []) ++ pauses)
      end
  end.
(** [answers n] is the answer to the [n]-th attempt; a calendar has a fresh identifier
    and the time of its attempt. *)
Definition send_ticket_email_with_retry `{MailText} (now : nat -> Z) (uid : nat -> Uuid) (key from : option string)
    (answers : nat -> Answer) (p : TicketEmailPayload) : Result string unit * list Post * list Z :=
  retry_loop (fun n => send_ticket_email (now n) (uid n) key from (answers n) p) 3 1 "".

(** [owner_wallet] and event of a ticket.  A ticket without its event has no start, which
    the row requires. *)
Record MailTicket := mkMailTicket { mt_owner_wallet : option string; mt_event : option Uuid }.
Inductive Dispatch := TicketNotFound | DbError | Panics | Dispatched (r : Result string unit * list Post * list Z).
Definition TWO_HOURS : Z := 7200.
Definition mail_of `{MailText} (ticket_id event_id : Uuid) (owner : option string) (e : Event) : option TicketEmailPayload :=
  masked ← mask_wallet (chars_of (default ""%string owner));
  let pdf := generate_ticket_pdf (chars_of (e_title e)) (pdf_date (e_start_time e)) (chars_of (e_location e))
               (chars_of "General") masked (uuid_chars ticket_id) in
  Some (mkMail (chars_of (default "attendee"%string owner) ++ chars_of "@placeholder.agora.events")
          (chars_of (default ""%string owner)) (chars_of (e_title e)) (chars_of (e_location e))
          (chars_of <$> e_description e) (chars_of "https://agora.events/events/" ++ uuid_chars event_id)
          (e_start_time e) (default (e_start_time e + TWO_HOURS) (e_end_time e)) ticket_id pdf).
Definition dispatch_after_payment `{MailText} (up : bool) (now : nat -> Z) (uid : nat -> Uuid) (key from : option string)
    (answers : nat -> Answer) (ticket_id : Uuid) (tickets : gmap Uuid MailTicket) (db : EventDb) : Dispatch :=
  if negb up then DbError else
  match tickets !! ticket_id with
  | None => TicketNotFound
  | Some t =>
      match mt_event t ≫= (fun id => e ← db_events db !! id; Some (id, e)) with
      | None => DbError
      | Some (id, e) =>
          match mail_of ticket_id id (mt_owner_wallet t) e with
          | None => Panics
          | Some p => Dispatched (send_ticket_email_with_retry now uid key from answers p)
          end
      end
  end.

(** ** Reading a calendar *)
Definition without_cr (l : chars) : chars :=
  match reverse l with c :: l' => if Ascii.eqb c CR then reverse l' else l | [] => l end.
Definition calendar_lines (doc : chars) : list chars := without_cr <$> split_on LF doc.
Fixpoint strip_chars (p l : chars) : option chars :=
  match p, l with
  | [], l => Some l
  | c :: p, d :: l => if Ascii.eqb c d then strip_chars p l else None
  | _ :: _, [] => None
  end.
Fixpoint unescape (l : chars) : option chars :=
  match l with
  | [] => Some []
  | c :: l =>
      if Ascii.eqb c BACKSLASH then
        match l with
        | d :: l =>
            rest ← unescape l;
            if Ascii.eqb d "n" || Ascii.eqb d "N" then Some (LF :: rest)
            else if Ascii.eqb d BACKSLASH || Ascii.eqb d ";" || Ascii.eqb d "," then Some (d :: rest)
            else None
        | [] => None
        end
      else rest ← unescape l; Some (c :: rest)
  end.
Definition calendar_value (name : string) (doc : chars) : option chars :=
  l ← head (omap (strip_chars (chars_of name ++ [":"%char])) (calendar_lines doc));
  unescape l.

(** ** Calendars are read back *)
Lemma replace_cons c by_ x l : replace_char c by_ (x :: l) = (if Ascii.eqb x c then by_ else [x]) ++ replace_char c by_ l.
Proof. done. Qed.
Definition escaped_char (x : ascii) : chars :=
  if Ascii.eqb x BACKSLASH then [BACKSLASH; BACKSLASH] else
  if Ascii.eqb x ";" then [BACKSLASH; ";"%char] else
  if Ascii.eqb x "," then [BACKSLASH; ","%char] else
  if Ascii.eqb x LF then [BACKSLASH; "n"%char] else [x].
Lemma escape_cons x l : escape_ics_text (x :: l) = escaped_char x ++ escape_ics_text l.
Proof.
  unfold escape_ics_text, escaped_char. rewrite replace_cons.
  destruct (Ascii.eqb_spec x BACKSLASH) as [->|H1]; [done|]. cbn [app]. rewrite replace_cons.
  destruct (Ascii.eqb_spec x ";") as [->|H2]; [done|]. cbn [app]. rewrite replace_cons.
  destruct (Ascii.eqb_spec x ",") as [->|H3]; [done|]. cbn [app]. by rewrite replace_cons.
Qed.
Lemma escape_no_lf l : LF ∉ escape_ics_text l.
Proof.
  induction l as [|x l IH]; [by apply not_elem_of_nil|]. rewrite escape_cons, not_elem_of_app. split; [|done].
  unfold escaped_char. repeat case_match; rewrite ?not_elem_of_cons; try (repeat split; try done; by apply not_elem_of_nil).
  split; [|by apply not_elem_of_nil]. intros <-. done.
Qed.
Lemma unescape_escape l : unescape (escape_ics_text l) = Some l.
Proof.
  induction l as [|x l IH]; [done|]. rewrite escape_cons. unfold escaped_char.
  destruct (Ascii.eqb_spec x BACKSLASH) as [->|H1]; [cbn; by rewrite IH|].
  destruct (Ascii.eqb_spec x ";") as [->|H2]; [cbn; by rewrite IH|].
  destruct (Ascii.eqb_spec x ",") as [->|H3]; [cbn; by rewrite IH|].
  destruct (Ascii.eqb_spec x LF) as [->|H4]; [cbn; by rewrite IH|].
  cbn [app unescape]. rewrite (proj2 (Ascii.eqb_neq _ _)) by done. by rewrite IH.
Qed.
Lemma split_line sep a b : sep ∉ a -> split_on sep (a ++ sep :: b) = a :: split_on sep b.
Proof.
  induction a as [|c a IH]; intros Ha; cbn; [by rewrite Ascii.eqb_refl|].
  apply not_elem_of_cons in Ha as [Hc Ha]. rewrite (proj2 (Ascii.eqb_neq _ _)) by done. by rewrite IH.
Qed.
Lemma without_cr_end l : without_cr (l ++ [CR]) = l.
Proof. unfold without_cr. rewrite reverse_snoc, Ascii.eqb_refl. apply reverse_involutive. Qed.
Lemma calendar_line name value rest : LF ∉ chars_of name -> LF ∉ value ->
  calendar_lines (ics_line name value ++ rest) = (chars_of name ++ ":"%char :: value) :: calendar_lines rest.
Proof.
  intros Hn Hv. unfold calendar_lines, ics_line.
  assert (forall a v, (a ++ [":"%char] ++ v ++ [CR; LF]) ++ rest = ((a ++ ":"%char :: v) ++ [CR]) ++ LF :: rest) as ->
    by (intros; by simplify_list_eq).
  rewrite split_line; [cbn; by rewrite without_cr_end|].
  rewrite !not_elem_of_app, not_elem_of_cons, list_elem_of_singleton. done.
Qed.

(** A document of named lines, and what is read from it. *)
Definition document (l : list (string * chars)) : chars := foldr (fun p doc => ics_line p.1 p.2 ++ doc) [] l.
Definition line_ok (p : string * chars) : Prop := LF ∉ chars_of p.1 /\ LF ∉ p.2 /\ ":"%char ∉ chars_of p.1.
Lemma strip_same p l : strip_chars p (p ++ l) = Some l.
Proof. induction p as [|c p IH]; [done|]. cbn. by rewrite Ascii.eqb_refl. Qed.
Lemma strip_other a b l : ":"%char ∉ a -> ":"%char ∉ b -> a <> b -> strip_chars (a ++ [":"%char]) (b ++ ":"%char :: l) = None.
Proof.
  revert b. induction a as [|c a IH]; intros [|d b] Ha Hb Hne; try done.
  - apply not_elem_of_cons in Hb as [Hd _]. cbn [app strip_chars]. by rewrite (proj2 (Ascii.eqb_neq _ _)).
  - apply not_elem_of_cons in Ha as [Hc _]. cbn [app strip_chars]. by rewrite (proj2 (Ascii.eqb_neq _ _)).
  - apply not_elem_of_cons in Ha as [_ Ha], Hb as [_ Hb]. cbn [app strip_chars]. destruct (Ascii.eqb_spec c d) as [->|]; [|done].
    apply IH; [done|done|congruence].
Qed.
Lemma document_value l name : Forall line_ok l -> ":"%char ∉ chars_of name ->
  calendar_value name (document l)
  = (x ← head (omap (fun p => if decide (p.1 = name) then Some p.2 else None) l); unescape x).
Proof.
  intros Hl Hn. unfold calendar_value. induction Hl as [|[n x] l (H1 & H2 & H3) Hl IH].
  - cbn. by destruct (chars_of name ++ _) eqn:He; [by apply app_nil in He as [_ ?]|].
  - cbn in H1, H2, H3. cbn [document foldr fst snd]. rewrite calendar_line by done. cbn [omap list_omap fst snd].
    destruct (decide (n = name)) as [->|Hne].
    + replace (chars_of name ++ ":"%char :: x) with ((chars_of name ++ [":"%char]) ++ x) by (by rewrite <- app_assoc).
      by rewrite strip_same.
    + rewrite strip_other; [exact IH|done|done|]. by intros ?%chars_inj.
Qed.

Class MailLaws `{MailText} := {
  date_no_lf t : LF ∉ ics_date t;
  uuid_no_lf u : LF ∉ uuid_chars u;
}.

Section Calendar.
Context `{MailLaws}.

(** A calendar shows the texts of the event: a reader of the invitation gets the title
    and the place back as they are, whatever characters they have, and a description
    that is the given one with the link, between them a backslash and the letter n. *)
Theorem calendar_round_trip now uid title location description dtstart dtend link :
  let doc := generate_ics now uid title location description dtstart dtend link in
  calendar_value "SUMMARY" doc = Some title /\ calendar_value "LOCATION" doc = Some location /\
  calendar_value "DESCRIPTION" doc = Some (description ++ [BACKSLASH; "n"%char] ++ link).
Proof.
  intros doc.
  assert (forall c s, forallb (fun d => negb (Ascii.eqb d c)) s = true -> c ∉ s) as Hlit.
  { intros c s Hs Hin. rewrite forallb_forall in Hs. apply list_elem_of_In, Hs in Hin. by rewrite Ascii.eqb_refl in Hin. }
  pose (l := [("BEGIN", chars_of "VCALENDAR"); ("VERSION", chars_of "2.0"); ("PRODID", chars_of "-//Agora//Event//EN");
    ("CALSCALE", chars_of "GREGORIAN"); ("METHOD", chars_of "PUBLISH"); ("BEGIN", chars_of "VEVENT");
    ("UID", (uuid_chars uid ++ chars_of "@agora.events")%list); ("DTSTAMP", ics_date now); ("DTSTART", ics_date dtstart);
    ("DTEND", ics_date dtend); ("SUMMARY", escape_ics_text title); ("LOCATION", escape_ics_text location);
    ("DESCRIPTION", escape_ics_text (description ++ [BACKSLASH; "n"%char] ++ link)%list); ("STATUS", chars_of "CONFIRMED");
    ("END", chars_of "VEVENT"); ("END", chars_of "VCALENDAR")]%string).
  assert (doc = document l) as -> by (unfold doc, generate_ics, document; cbn [foldr fst snd l]; by rewrite app_nil_r).
  assert (Forall line_ok l) as Hok.
  { repeat constructor; cbn [fst snd]; try (by apply Hlit); try apply escape_no_lf; try apply date_no_lf.
    rewrite not_elem_of_app. split; [apply uuid_no_lf|by apply Hlit]. }
  rewrite !document_value by (done || by apply Hlit). split; [|split]; (etrans; [|apply unescape_escape]); reflexivity.
Qed.

(** ** Attempts *)
Definition accepted (a : Answer) : bool :=
  match a with Status code _ => (200 <=? code) && (code <? 300) | NoAnswer _ => false end.
Definition refusal (a : Answer) : string :=
  match a with
  | NoAnswer e => ("Resend request failed: " +:+ e)%string
  | Status code text => ("Resend error " +:+ pretty code +:+ ": " +:+ text)%string
  end.
Lemma send_with_key now uid key from a p : send_ticket_email now uid (Some key) from a p
  = (if accepted a then Ok tt else Err (refusal a),
     [mkPost key (mail_body now uid (default "noreply@agora.events"%string from) p)]).
Proof. unfold send_ticket_email, accepted, refusal. by destruct a as [e|code text]; [|destruct (_ && _)]. Qed.

(** With a key the mail is posted until the service accepts it, at most three times, with
    pauses of 200 and 400 milliseconds, and the error is that of the third attempt. *)
Theorem mail_attempts now uid key from answers p :
  let '(r, posts, pauses) := send_ticket_email_with_retry now uid (Some key) from answers p in
  exists k, (1 <= k <= 3)%nat /\ (forall n, 1 <= n < k -> accepted (answers n) = false)%nat /\
    (accepted (answers k) = false -> k = 3%nat) /\
    r = (if accepted (answers k) then Ok tt else Err (refusal (answers 3%nat))) /\
    posts = (fun n => mkPost key (mail_body (now n) (uid n) (default "noreply@agora.events"%string from) p)) <$> seq 1 k /\
    pauses = take (k - 1) [200; 400].
Proof.
  unfold send_ticket_email_with_retry. cbn [retry_loop]. rewrite !send_with_key.
  destruct (accepted (answers 1%nat)) eqn:H1; [exists 1%nat; rewrite H1; repeat split; try done; intros; lia|].
  destruct (accepted (answers 2%nat)) eqn:H2.
  { exists 2%nat. rewrite H2. repeat split; try done; try lia. intros n Hn. by replace n with 1%nat by lia. }
  destruct (accepted (answers 3%nat)) eqn:H3; exists 3%nat; rewrite H3; repeat split; try done; try lia;
    intros n Hn; (destruct (decide (n = 1%nat)) as [->|]; [done|]); by replace n with 2%nat by lia.
Qed.

Lemma retry_posts send l : forall n e, (forall n, (send n).2 ⊆ l n) ->
  forall x r posts pauses, retry_loop send n x e = (r, posts, pauses) -> forall q, q ∈ posts -> exists k, q ∈ l k.
Proof.
  induction n as [|n IH]; intros e Hs x r posts pauses Hr q Hq; cbn in Hr; [by simplify_eq; apply not_elem_of_nil in Hq|].
  pose proof (Hs x) as Hx. destruct (send x) as [[]]; [simplify_eq; eauto|].
  destruct (retry_loop send n (S x) e0) as [[r' p'] pa'] eqn:Hl. simplify_eq. apply elem_of_app in Hq as [Hq|Hq]; eauto.
Qed.
Definition recipients (j : Json) : option Json :=
  match j with JObject fields => lookup_field "to" fields | _ => None end.
Lemma recipients_mail now uid from p : recipients (mail_body now uid from p) = Some (JArray [JString (text_of (em_to_email p))]).
Proof. reflexivity. Qed.
Lemma mail_to ticket_id event_id owner e p : mail_of ticket_id event_id owner e = Some p ->
  em_to_email p = chars_of (default "attendee"%string owner) ++ chars_of "@placeholder.agora.events".
Proof. unfold mail_of. destruct (mask_wallet _) as [m|]; [|discriminate]. intros Hm. injection Hm as <-. reflexivity. Qed.
(** Every mail goes to a placeholder that is made of the wallet. *)
Theorem mails_go_nowhere up now uid key from answers ticket_id tickets db r posts pauses q :
  dispatch_after_payment up now uid key from answers ticket_id tickets db = Dispatched (r, posts, pauses) -> q ∈ posts ->
  exists t, tickets !! ticket_id = Some t /\
    recipients (po_body q) = Some (JArray [JString (text_of
      (chars_of (default "attendee"%string (mt_owner_wallet t)) ++ chars_of "@placeholder.agora.events"))]).
Proof.
  unfold dispatch_after_payment. destruct up; [|done]. cbn [negb]. destruct (tickets !! ticket_id) as [t|]; [|done].
  destruct (mt_event t ≫= _) as [[id e]|]; [|done]. destruct (mail_of _ _ _ _) as [p|] eqn:Hm; [|done].
  intros [= Hd] Hq. exists t. split; [done|]. unfold send_ticket_email_with_retry in Hd.
  set (f := fun n => match key with Some k => [mkPost k (mail_body (now n) (uid n) (default "noreply@agora.events"%string from) p)] | None => [] end).
  destruct (retry_posts (fun n => send_ticket_email (now n) (uid n) key from (answers n) p) f 3 "") with (x := 1%nat) (r := r) (posts := posts) (pauses := pauses) (q := q) as [n Hn]; [|exact Hd|exact Hq|].
  { intros n. unfold f, send_ticket_email. by destruct key. }
  unfold f in Hn. destruct key as [k|]; [|by apply not_elem_of_nil in Hn]. apply list_elem_of_singleton in Hn as ->.
  cbn [po_body]. by rewrite recipients_mail, (mail_to _ _ _ _ _ Hm).
Qed.
End Calendar.

Module MailSample.
#[export] Instance text_sample : MailText := {
  ics_date t := chars_of "20260601T100000Z"; pdf_date t := chars_of "2026-06-01 10:00 UTC";
  uuid_chars u := chars_of "0"; base64 l := text_of l;
}.
#[export] Instance laws_sample : MailLaws.
Proof. split; intros t; cbn; set_solver. Qed.

Definition invitation : chars := generate_ics 0 1 (chars_of "Rock, Pop; Folk") (chars_of "Lagos") (chars_of "Bring friends") 0 7200
  (chars_of "https://agora.events/events/1").
(** The reader sees the two characters where a new line was meant. *)
Example newline_shown_as_text :
  calendar_value "DESCRIPTION" invitation
  = Some (chars_of "Bring friends" ++ [BACKSLASH] ++ chars_of "nhttps://agora.events/events/1").
Proof. by vm_compute. Qed.

Definition concert : Event :=
  mkEvent 7 1 "<b>Rock</b>" None "l" 0 None false false 0 0 0 0 100 0 None None None true true 0.
Definition db : EventDb := mkEventDb {[7 := concert]} ∅ ∅ ∅.
Definition tickets : gmap Uuid MailTicket := {[1 := mkMailTicket (Some "GABCDEFGHIJKL"%string) (Some 7)]}.
Definition sent (answers : nat -> Answer) : Dispatch :=
  dispatch_after_payment true (fun _ => 0) (fun _ => 1) (Some "k"%string) None answers 1 tickets db.
Lemma mails_go_nowhere_witness : exists r q pauses, sent (fun _ => Status 200 "") = Dispatched (r, [q], pauses) /\
  recipients (po_body q) = Some (JArray [JString "GABCDEFGHIJKL@placeholder.agora.events"]).
Proof.
  destruct (sent (fun _ => Status 200 "")) as [| | |[[r posts] pauses]] eqn:Hs; try by vm_compute in Hs.
  assert (exists q, posts = [q]) as [q ->] by (vm_compute in Hs; simplify_eq; eauto).
  exists r, q, pauses. split; [done|].
  destruct (mails_go_nowhere _ _ _ _ _ _ _ _ _ _ _ _ q Hs ltac:(set_solver)) as (t & Ht & ->).
  vm_compute in Ht. by simplify_eq.
Defined.
(** The title of an event is part of the mail as it is. *)
Example title_is_markup : take 47 (html (mkMail [] [] (chars_of (e_title concert)) [] None [] 0 0 1 []))
  = chars_of "<p>Your ticket for <strong><b>Rock</b></strong>".
Proof. by vm_compute. Qed.
End MailSample.
